(* ===== verification/_CoqProject ===== *)
-Q . S2P
Prelude.v
Encoding.v
Scan.v
Words.v
Lists.v
ColorState.v
Substring.v
Search.v
Splits.v
Trim.v
Sorting.v
SortSets.v
Render.v
Html.v
Machine.v
Calendar.v
Decimal.v
TimeText.v
RvIsa.v
RvEnc.v
RvRun.v
RvConst.v
RvCopy.v
RvText.v
StringUtil.v
CaseTables.v
CaseMap.v
Wild.v
WildCap.v
WildMatch.v
AstScan.v
Ast.v
AstTree.v
AstShape.v
TaskHeap.v
Sched.v
SchedSpec.v
SchedLive.v
SchedWalk.v
NameTab.v
BoolExp.v
BoolSafe.v
BoolText.v
BoolRound.v
BoolEval.v
