(* ===== verification/Prelude.v ===== *)
(** * TinyMUX: a verification development

    TinyMUX is a server for text worlds.  The development models eight parts of it.

    - The coloured-text library, [src/mux/lib/color_ops.c].  Text is UTF-8 in which colour and
      attributes are private-use code points (EF 94-9F xx for attributes and palette colours,
      F3 B0-B3 xx xx for the two halves of a 24-bit colour).  Every string function of the
      game, the clients and the JIT's runtime go through this file.
    - Numbers and times: [src/mux/lib/mathutil.cpp], [timeutil.cpp], [timeabsolute.cpp].
    - Locks: the expressions that say who may pass an exit or take a thing.  Their parser and
      evaluator, [src/mux/modules/engine/boolexp.cpp], the writer of their stored form,
      [unparse.cpp], and what these use of [htab.cpp], [command.cpp], [predicates.cpp] and
      [src/mux/lib/stringutil.cpp].
    - Case and wild cards: the automata of [src/mux/include/unicode_tables_c.h] with their
      tables in [src/mux/lib/unicode_tables.c], the functions that change case, and the two
      matchers of [src/mux/modules/engine/wild.cpp].
    - Softcode as text: the scanner [src/mux/modules/engine/ast_scan.cpp], which Ragel generates
      from [ast_scan.rl], and the parser of [src/mux/modules/engine/ast.cpp] with the data of
      [src/mux/include/ast.h].
    - The scheduler: the heaps of [src/mux/include/externs.h] and the class [CScheduler] of
      [src/mux/modules/engine/timer.cpp], which runs every command that waits in the queue, and
      how [@kick] ([cque.cpp]) runs tasks from within a task.
    - The back end of the JIT: the RV64 instruction encoders and inline code of
      [src/mux/modules/engine/hir_codegen.cpp], the decoder [src/mux/include/dbt_decoder.h]
      and the reference interpreter [src/mux/modules/engine/dbt_interp.cpp].  Emitted code is
      run on the model of the interpreter.
    - The [qsort] of the freestanding runtime, [src/mux/rv64/src/softlib.c], which sorts words.

    ** The model

    - A string delimited by two pointers is the list of its bytes; a pointer into a string is
      the suffix it points at.  The output buffer of [LBUF_SIZE] bytes ([Config]) is the list
      of the bytes written so far, [cap] is [LBUF_SIZE - 1], and the writers [WP_SAFE] and
      [wp_safe_copy] stop there.  The final NUL, for which [cap] leaves room, is not part of
      the list.
    - A loop is a body on the record of its variables, run by [iter] with fuel.  The fuel of
      every function is more than the length of its input, and the theorems show that it is
      enough: they state that a result exists, not only what it is.  One loop does not end on
      malformed input, and a theorem says so ([collapse_color_bounds]).
    - [size_t] counters that only grow with the text are [nat].  Signed C integers are [Z]
      with every operation checked, [None] where it overflows; unsigned ones wrap ([Machine];
      [u64] in [Words], [u32] and [u8] in [ColorState], the saturation of [strtoll] in
      [SortSets]).
    - What comes from outside is an argument with its laws as a class: the sorting function of
      the C library ([Sorter], [SorterLaws]), the nearest palette colour, which is C++
      ([NearestPalette]), and whether [malloc] succeeds.  The contents of an array before the
      call are an argument where they could be read ([co_reverse]).
    - A string that ends in a NUL, and code that could read past it, is the list of the bytes
      of its buffer; a read outside is the outcome [Oob] of the monad [run], too little fuel is
      [NoFuel].  [parse_boolexp] takes what earlier keys left in [parsestore] as an argument.
      The fuel of the parser is four times the length of the key, that of the evaluator the
      levels of indirection that are left.
    - The rest of the server as locks see it is a class per concern: [Powers] (flags of a
      player), [CaseTable] (the lookup of lower case) with [CaseLaws] and [FoldLaws], of which [CaseMap]
      and [WildMatch] have the instance, [LockEnv]
      (attribute names, the size of the database, matching of names, what lies before a
      buffer), [ObjectNames], and [Game] (contents, attributes, permissions, wild cards,
      softcode) with [GameLaws].  Softcode run by a lock may change the database; the attribute
      names and the size of the database stay.
    - The parser of softcode recurses as deep as its own counter allows, so its fuel is that limit
      and two more; the fuel of its loops is the number of tokens that are left, and [NoFuel] and
      [Oob] are shown not to occur.  The table of built-in functions is the class [Builtins].
    - The standard library leaves open how a heap is laid out.  The class [StdHeap] states what
      [push_heap], [pop_heap], [make_heap] and [sort_heap] promise, the scheduler is defined over
      any instance, and [sorted_heap] is one.  A task is a program of type [prog]: calls of the
      scheduler with what is done with their answers, over a world of any type; it ends, or by an
      exception; and it may run other tasks before it ends.  A callback of a traversal is a
      function of the records that it has been given.  The fuel of a loop over a heap is its
      number of records, and each turn removes one; [spare] is the fuel for runs within runs, of
      which no amount need be enough ([kick_never_ends]), and more of it changes no result.
    - An RV64 machine is its registers, its program counter and a flat memory; [step] is one
      turn of the interpreter's loop and [interp] runs it to an outcome.  Emitted code is
      reasoned about with rules, one per instruction, over a map of the registers' values
      ([goes]); a loop of emitted code is an induction, and its number of steps is whatever
      the code takes, so that a statement is "it gets there", not "if it gets there".

    ** The files: coloured text

    - [Prelude]: bytes, tactics, [iter] and its rules, [Config] and the output buffer.
    - [Encoding]: the state graph that Ragel compiles every scanner to ([scan_step]), the
      [exec] block ([ragel_exec]), and the specification: the grammar of coloured text as
      tokens ([tok], [wf], [flatten]).  The graph accepts the grammar, and cutting a text where
      it says that a code point ends gives its tokens ([scan_tokens]).
    - [Scan]: [co_visible_length], [co_visible_advance], [co_copy_visible], [co_find_delim],
      [co_strip_color] against their meaning on tokens; the bounds hold on any bytes.
    - [Words]: [co_words_count], [co_first], [co_rest], [co_last], [co_extract], and the
      cursor [wc_next] with [count_words] and [split_words].  [words] is the abstract list of
      words; [emit] writes one.
    - [Lists]: [co_splice], [co_insert_word], [co_replace_at], [co_delete_at], [co_insert_at],
      with the in-place conversion and sorting of positions.  Each is refined to an operation
      on the list of words.
    - [ColorState]: [co_ColorState], the decoder ([parse_bmp_color], [parse_smp_color]), the
      encoder ([emit_transition]), [co_collapse_color], [co_apply_color], [co_merge].  The
      specification is [shown]: the list of visible code points, each with the state it is
      shown in, up to [cs_eqv], the equivalence of states that look the same.
    - [Substring], [Search], [Splits], [Trim]: [co_left], [co_right], [co_mid], [co_delete],
      [co_repeat], [co_reverse]; [co_search], [co_edit]; [co_split_words] and
      [co_compress_str], which cut a text at a separator of any length; [co_trim],
      [co_trim_pattern], [co_compress], [co_lpos], [co_member].
    - [Sorting]: the interface of [qsort] and the Shellsort that implements it.
    - [SortSets]: the comparison functions, [co_sort_words], [co_setunion], [co_setdiff],
      [co_setinter], for every sorter that keeps the laws.
    - [Render]: [co_render_attrs], [co_render_ansi16], [co_render_ansi256],
      [co_render_truecolor] and [co_parse_ansi].
    - [Html]: [co_render_html] against a machine that reads tags and a reader of its bytes, and
      [co_escape].

    ** The files: numbers and times

    - [Machine]: integers of [w] bits, checked and wrapping.
    - [Calendar]: the divisions that round down, [FixedFromGregorian], [GregorianFromFixed]
      with its cache, [LinearTimeToFieldedTime] and back, against the calendar ([leap],
      lengths of months, the day after).
    - [Decimal]: [mux_i64toa], [mux_ui64toa], hexadecimal and octal, [mux_atoi64].
    - [TimeText]: [ReturnDateString] and [do_convtime], [ConvertToSecondsString] and
      [ParseFractionalSecondsString].

    ** The files: locks

    - [StringUtil]: UTF-8 lead bytes, [TrimPartialSequence], [safe_chr], [safe_str],
      [minmatch], [mux_stricmp], [string_compare].
    - [NameTab]: [check_access], [search_nametab] and the names of the locks, [lock_sw].
    - [BoolExp]: [BOOLEXP] and the parser, function by function.
    - [BoolSafe]: what the parser accepts and that it stays inside its buffers, if an operand
      stands wherever one is expected ([operands]) or the byte before a buffer can be read.
    - [BoolText]: [unparse_boolexp1] in its four formats; rules for the parser, by what it
      reads.
    - [BoolRound]: writing and reading back, and where that fails.
    - [BoolEval]: [eval_boolexp], [eval_boolexp_atr], [check_attr], [member].

    ** The files: case and wild cards

    - [CaseTables]: the tables of lower, upper and title case, byte for byte.
    - [CaseMap]: the automata ([co_dfa]), [co_tolower], [co_toupper], [co_totitle],
      [mux_strlwr], [mux_strupr].  That an automaton stays in its tables and that its entries
      replace visible characters by visible characters is decided by running it over every
      path ([explore], [closed_all]) on rows that are expanded first.  A row has fewer than 256
      phrases, the fuel of [dfa_row].
    - [Wild]: [wild_lit_eq], [quick_wild], [wild1], [wild], and the relation that they decide,
      [captures] and [matches].  A matcher calls itself with a shorter pattern, so its fuel is
      the length of the pattern; the count of invocations is a state that is passed along.
    - [WildCap]: the arguments that [wild1] fills in against [captures].
    - [WildMatch]: the laws of the case table, and the entry points.

    ** The files: softcode

    - [AstScan]: the scanner state by state, with its actions; the lexemes of the Ragel source
      ([lexeme]) and texts cut at the longest of them ([lexes]).
    - [Ast]: the nodes, the parser function by function ([parseSequence] and what it calls),
      [ast_raw_text], and the rules for deferred arguments.
    - [AstTree]: that the parser ends, keeps the text in its tree ([source]) and stays within its
      depth.
    - [AstShape]: the grammar ([shape]) and the theorems on the parser.

    ** The files: the scheduler

    - [TaskHeap]: [TASK_RECORD], the comparators, [CTaskHeap], and heaps as queues ([holds]).
    - [Sched]: [CScheduler], its operations, running tasks, and [do_queue_kick].
    - [SchedSpec]: the scheduler as two lists in order ([queue]) and the simulation ([abs]).
    - [SchedLive]: the instance of the heaps; order, progress, and the refinement.
    - [SchedWalk]: the two traversals, that operations leave the heaps intact, when they end, and
      runs within runs.

    ** The files: the RV64 back end

    - [RvIsa]: [rv64_decode], the integer instructions of the interpreter, and what an
      instruction may change ([confined]).  A computation on doubles is the outcome [Double];
      [ecall] calls a handler, which may stop the run.
    - [RvEnc]: the encoders, and the ranges of pc-relative offsets.
    - [RvRun]: the rules for emitted code; no model of its own.
    - [RvConst]: [rv_load_i32_bits], [rv_load_i64], [rv_load_val], [rv_load_guest_addr].
    - [RvCopy]: [rv_emit_strcpy], [rv_emit_strcmp].
    - [RvText]: [rv_emit_atoi], [rv_emit_itoa], against [Decimal].

    ** What the theorems show

    Round trips: text to tokens and back, a colour transition and its decoding, rendering to
    terminal escapes and parsing them, escaping and unescaping, an integer and its text, a
    linear time and its fields, a date and its text, an instruction and its encoding, a lock
    and its stored text, softcode and its tree.
    Safety: the HTML renderer closes what it opens and lets no reserved character through; the
    lock parser reads only its buffers, for keys that leave a byte free and lack no operand; the
    case automata read at most the NUL; guest code of the JIT changes nothing but its registers and
    its memory.
    Equivalence: the state graph and the grammar, the [memchr] path and the state machine, a
    text and its collapsed form, squeezing a separator and joining the pieces between, the portable high multiplication and the 128-bit one, a lock
    and what it decides once stored, the fast matcher of wild cards and the relation, the scanner
    of softcode and the longest lexemes.
    Refinement: the word cursor and the list operations against operations on lists of words,
    the Shellsort against the contract of [qsort], the scheduler against two lists in order,
    emitted code against what it is emitted for.  Function: every modelled operation of [color_ops.c] is related to the visible code
    points of its arguments, changing case maps every one of them by the tables, [wild]
    returns what the wild cards stand for, and softcode that matches has the tree of the grammar.
    Invariants and liveness: the heaps of the scheduler stay heaps whatever tasks call and run, its
    operations end unless tasks both schedule tasks and run them, and a task is not starved by tasks
    that are no more urgent.  Types: registers stay 64-bit values and
    memory keeps its size and holds bytes.  Bounds and termination: outputs fit on any bytes, loops end.  Where the
    code does not do what it means to, a theorem or an example says what it does:
    [trim_left_keeps_blank], [collapse_color_bounds], [parse_truecolor_lost],
    [nobleed_underline_leaks], [ansi16_bright_leaks], [html_not_nested], [html_bold_order],
    [parse_boolexp_safe] on the key "!", [parse_boolexp_overrun], [stored_lock_truncated], [stored_lock_too_deep],
    [self_reference], [indirect_levels], [compare_overrun], [title_truncated], [never_deferred],
    [raw_text_closes], [tokens_pct], [run_all_stops], [kick_never_ends], [waking_breaks_order],
    [split_words_blank], [separator_left_out], [space_is_kept],
    and the hypotheses of [load_i64_spec] and [date_string_roundtrip].

    ** What is not modelled

    In [color_ops.c]: [co_pos] and the other functions driven by other Unicode tables
    (grapheme clusters, console width, padding, [co_transform], ASCII rendering), which need
    more of the generated tables.  In [wild.cpp]: [wild_match], which compares
    floating-point numbers.
    In [ast.cpp]: the evaluator, which calls every part of the server, and the dump.  In
    [timer.cpp]: the periodic tasks.  Traversals by tasks and tasks that run tasks
    are covered by [heaps_invariant], not by the simulation.  Freeing memory is not modelled.
    In the JIT: the front end, the optimiser, the translators to host code, and floating
    point.  In [timeabsolute.cpp]: the parser of free-form dates.  The rest of the server is
    vendored (SQLite, Lua, dtoa), generated, input and output, or tools.

    ** Plan

    The queue entries that tasks stand for ([cque.cpp]) over the scheduler; the control flow of
    the evaluator in [ast.cpp]; the pools of the JIT compiler ([dbt_compile.h]); the rest of
    [color_ops.c]; the k-d tree of [stringutil.cpp] as an instance of [NearestPalette], shown
    optimal; telnet option negotiation. *)

From Stdlib Require Export ZArith Lia.
From stdpp Require Export base list sets.

(** ** Bytes

    A C [unsigned char] is a [Z]; [byte_ok] is the range of the type.  A string
    delimited by two pointers [p] and [pe] is the list of bytes between them, and a
    pointer that a function returns into such a string is the suffix it points at. *)

Abbreviation bytes := (list Z).

Declare Scope mux_scope.
Delimit Scope mux_scope with mux.
Open Scope Z_scope.
Open Scope mux_scope.

Definition in_rng (lo hi b : Z) : bool := (lo <=? b) && (b <=? hi).

Definition byte_ok (b : Z) : Prop := 0 <= b <= 255.
#[export] Instance byte_ok_dec b : Decision (byte_ok b) := _.

Lemma in_rng_true lo hi b : in_rng lo hi b = true <-> lo <= b <= hi.
Proof. unfold in_rng. lia. Qed.

Lemma in_rng_false lo hi b : in_rng lo hi b = false <-> b < lo \/ hi < b.
Proof. unfold in_rng. lia. Qed.

Lemma Zleb_of_nat a b : (Z.of_nat a <=? Z.of_nat b) = (a <=? b)%nat.
Proof. destruct (Nat.leb_spec a b); [apply Z.leb_le | apply Z.leb_gt]; lia. Qed.

(** Checking a boolean predicate on every integer of a range. *)
Definition zrange (lo : Z) (n : nat) : list Z := map (fun k => lo + Z.of_nat k) (seq 0 n).

Lemma forall_zrange (P : Z -> bool) lo n :
  forallb P (zrange lo n) = true -> forall z, lo <= z < lo + Z.of_nat n -> P z = true.
Proof.
  intros H z Hz. unfold zrange in H. rewrite forallb_forall in H. apply H, in_map_iff.
  exists (Z.to_nat (z - lo)). split; [lia|]. apply in_seq. lia.
Qed.

(** ** Automation *)

#[global] Arguments Z.eqb : simpl never.
#[global] Arguments Z.ltb : simpl never.
#[global] Arguments Z.leb : simpl never.
#[global] Arguments in_rng : simpl never.

(** Turns the boolean byte tests in hypotheses into linear arithmetic. *)
Ltac byte_hyps :=
  repeat match goal with
    | H : _ && _ = true |- _ => apply andb_prop in H; destruct H
    | H : in_rng _ _ _ = true |- _ => apply in_rng_true in H
    | H : in_rng _ _ _ = false |- _ => apply in_rng_false in H
    | H : (_ =? _) = true |- _ => apply Z.eqb_eq in H
    | H : (_ =? _) = false |- _ => apply Z.eqb_neq in H
    end.

(** Decides the next boolean byte test of the goal by arithmetic from the context. *)
Ltac byte_case1 :=
  match goal with
  | |- context [in_rng ?l ?h ?b] =>
      first [ replace (in_rng l h b) with true by (symmetry; apply in_rng_true; lia)
            | replace (in_rng l h b) with false by (symmetry; apply in_rng_false; lia) ]
  | |- context [?a =? ?b] =>
      first [ replace (a =? b) with true by (symmetry; apply Z.eqb_eq; lia)
            | replace (a =? b) with false by (symmetry; apply Z.eqb_neq; lia) ]
  | |- context [?a <? ?b] =>
      first [ replace (a <? b) with true by (symmetry; apply Z.ltb_lt; lia)
            | replace (a <? b) with false by (symmetry; apply Z.ltb_ge; lia) ]
  | |- context [?a <=? ?b] =>
      first [ replace (a <=? b) with true by (symmetry; apply Z.leb_le; lia)
            | replace (a <=? b) with false by (symmetry; apply Z.leb_gt; lia) ]
  end.
Ltac byte_cases := repeat (byte_case1; cbn [andb orb negb]).

(** Strong induction on the length of the list [s]; the goal mentions [s] only. *)
Ltac len_ind s :=
  let n := fresh "n" in
  remember (length s) as n eqn:En; revert s En;
  induction n as [n IH] using lt_wf_ind; intros s En.

Create HintDb mux.
Create Rewrite HintDb mux.
#[export] Hint Rewrite @length_app @length_take @length_drop @length_cons @app_nil_r : mux.

(** ** Pointers into a text

    [range s e] is the bytes from pointer [s] up to pointer [e] of the same text. *)

Definition range (s e : bytes) : bytes := take (length s - length e) s.

Lemma range_app a b : range (a ++ b) b = a.
Proof. unfold range. rewrite length_app, Nat.add_sub. apply take_app_length. Qed.

Lemma range_nil s : range s [] = s.
Proof. unfold range. apply take_ge. cbn. lia. Qed.

(** ** C loops

    [iter fuel body s] runs the loop body [body] from state [s]: [inl s'] is the state
    at the next test of the loop, [inr r] a [break] or the end of the loop with result
    [r].  [None] means that [fuel] iterations were not enough. *)

Section Loops.
Context {S R : Type} (body : S -> S + R).

Fixpoint iter (fuel : nat) (s : S) : option R :=
  match fuel with
  | O => None
  | Datatypes.S fuel' =>
      match body s with
      | inl s' => iter fuel' s'
      | inr r => Some r
      end
  end.

(** Total correctness of a loop: an invariant that every iteration keeps while a
    measure decreases gives termination and the postcondition. *)
Lemma iter_total (I : S -> Prop) (Q : R -> Prop) (m : S -> nat) :
  (forall s, I s -> match body s with
               | inl s' => I s' /\ (m s' < m s)%nat
               | inr r => Q r
               end) ->
  forall fuel s, I s -> (m s < fuel)%nat -> exists r, iter fuel s = Some r /\ Q r.
Proof.
  intros Hb fuel. induction fuel as [|fuel IH]; intros s Hs Hf; [lia|].
  cbn. specialize (Hb s Hs). destruct (body s) as [s'|r].
  - destruct Hb as [Hi Hm]. apply IH; [exact Hi | lia].
  - eauto.
Qed.

(** The result of a loop whose value [f] the body preserves. *)
Lemma iter_value (I : S -> Prop) (f : S -> R) (m : S -> nat) :
  (forall s, I s -> match body s with
               | inl s' => I s' /\ (m s' < m s)%nat /\ f s' = f s
               | inr r => r = f s
               end) ->
  forall fuel s, I s -> (m s < fuel)%nat -> iter fuel s = Some (f s).
Proof.
  intros Hb fuel. induction fuel as [|fuel IH]; intros s Hs Hf; [lia|].
  cbn. specialize (Hb s Hs). destruct (body s) as [s'|r].
  - destruct Hb as (Hi & Hm & Hf'). rewrite <- Hf'. apply IH; [exact Hi | lia].
  - congruence.
Qed.

(** What every iteration keeps holds of the result, if there is one. *)
Lemma iter_inv (I : S -> Prop) (Q : R -> Prop) :
  (forall s, I s -> match body s with inl s' => I s' | inr r => Q r end) ->
  forall fuel s r, I s -> iter fuel s = Some r -> Q r.
Proof.
  intros Hb fuel. induction fuel as [|fuel IH]; intros s r Hs H; [done|].
  cbn in H. specialize (Hb s Hs). destruct (body s) as [s'|r']; [eauto|congruence].
Qed.

(** A loop that always continues from the states of an invariant never returns. *)
Lemma iter_diverges (I : S -> Prop) :
  (forall s, I s -> exists s', body s = inl s' /\ I s') ->
  forall fuel s, I s -> iter fuel s = None.
Proof.
  intros Hb fuel. induction fuel as [|fuel IH]; intros s Hs; [done|].
  destruct (Hb s Hs) as (s' & E & Hs'). cbn. rewrite E. auto.
Qed.

(** More fuel does not change a result. *)
Lemma iter_mono fuel fuel' s r :
  iter fuel s = Some r -> (fuel <= fuel')%nat -> iter fuel' s = Some r.
Proof.
  revert fuel' s. induction fuel as [|fuel IH]; intros fuel' s; [done|].
  destruct fuel' as [|fuel']; [lia|]. cbn. destruct (body s) as [s'|r']; [|done].
  intros H Hle. apply IH; [exact H | lia].
Qed.
End Loops.

(** ** Output buffers

    Every output buffer of the library has [LBUF_SIZE] bytes, a compile-time constant
    ([-DLBUF_SIZE], 32768 by default in [color_ops.h]); [wp_end] is
    [out + LBUF_SIZE - 1], which leaves room for the NUL.  A buffer under construction
    is the list of the bytes written to it, [wp - out] being its length. *)

Class Config := { LBUF_SIZE : nat }.

Definition default_config : Config := {| LBUF_SIZE := Z.to_nat 32768 |}.

Section Buffers.
Context {cfg : Config}.

Definition cap : nat := (LBUF_SIZE - 1)%nat.

(** The part of an ideal output that fits the buffer. *)
Definition clamp (s : bytes) : bytes := take cap s.

(** [WP_SAFE(wp, wp_end, byte)] *)
Definition WP_SAFE (out : bytes) (b : Z) : bytes :=
  if (length out <? cap)%nat then out ++ [b] else out.

(** [wp += wp_safe_copy(wp, wp_end, src, n)], with [src] the [n] source bytes. *)
Definition wp_safe_copy (out src : bytes) : bytes :=
  let avail := (cap - length out)%nat in
  let n := if (avail <? length src)%nat then avail else length src in
  out ++ take n src.

Lemma clamp_length s : (length (clamp s) <= cap)%nat.
Proof. unfold clamp. rewrite length_take. lia. Qed.

Lemma clamp_id s : (length s <= cap)%nat -> clamp s = s.
Proof. intros. apply take_ge. lia. Qed.

Lemma clamp_nil : clamp [] = [].
Proof. apply take_nil. Qed.

Lemma clamp_idem s : clamp (clamp s) = clamp s.
Proof. unfold clamp. rewrite take_take. f_equal. lia. Qed.

Lemma clamp_app a b : clamp (clamp a ++ b) = clamp (a ++ b).
Proof.
  unfold clamp. rewrite !firstn_app, take_take, length_take, Nat.min_id.
  f_equal. destruct (decide (cap <= length a)%nat).
  - rewrite Nat.min_l by lia. replace (cap - cap)%nat with 0%nat by lia.
    replace (cap - length a)%nat with 0%nat by lia. done.
  - by rewrite Nat.min_r by lia.
Qed.

Lemma WP_SAFE_clamp a b : WP_SAFE (clamp a) b = clamp (a ++ [b]).
Proof.
  unfold WP_SAFE. rewrite <- (clamp_app a [b]).
  pose proof (clamp_length a) as Hl.
  destruct (Nat.ltb_spec (length (clamp a)) cap).
  - rewrite (clamp_id (_ ++ _)); [done|]. rewrite length_app. cbn. lia.
  - change (clamp (clamp a ++ [b])) with (take cap (clamp a ++ [b])).
    rewrite firstn_app, (take_ge (clamp a)) by lia.
    replace (cap - length (clamp a))%nat with 0%nat by lia. by rewrite app_nil_r.
Qed.

Lemma wp_safe_copy_clamp a s : wp_safe_copy (clamp a) s = clamp (a ++ s).
Proof.
  unfold wp_safe_copy. rewrite <- (clamp_app a s).
  pose proof (clamp_length a) as Hl.
  change (clamp (clamp a ++ s)) with (take cap (clamp a ++ s)).
  rewrite firstn_app, (take_ge (clamp a)) by lia. f_equal.
  destruct (Nat.ltb_spec (cap - length (clamp a)) (length s)); [done|].
  rewrite !take_ge by lia. done.
Qed.

(** [while (s < e) WP_SAFE(wp, wp_end, *s++);] *)
Definition wp_safe_bytes (out s : bytes) : bytes := foldl WP_SAFE out s.

Lemma wp_safe_bytes_clamp a s : wp_safe_bytes (clamp a) s = clamp (a ++ s).
Proof.
  unfold wp_safe_bytes. revert a. induction s as [|b s IH]; intros a; cbn.
  - by rewrite app_nil_r.
  - rewrite WP_SAFE_clamp, IH, <- app_assoc. done.
Qed.

(** The writers never pass the end of the buffer. *)
Lemma WP_SAFE_cap out b : (length out <= cap)%nat -> (length (WP_SAFE out b) <= cap)%nat.
Proof.
  unfold WP_SAFE. destruct (Nat.ltb_spec (length out) cap); rewrite ?length_app; cbn; lia.
Qed.

Lemma wp_safe_bytes_cap out s : (length out <= cap)%nat -> (length (wp_safe_bytes out s) <= cap)%nat.
Proof.
  unfold wp_safe_bytes. revert out. induction s as [|b s IH]; intros out H; [done|].
  apply IH, WP_SAFE_cap, H.
Qed.

Lemma wp_safe_copy_cap out s : (length out <= cap)%nat -> (length (wp_safe_copy out s) <= cap)%nat.
Proof.
  unfold wp_safe_copy. intros H. rewrite length_app, length_take.
  destruct (Nat.ltb_spec (cap - length out) (length s)); lia.
Qed.

(** A full buffer stays as it is. *)
Lemma WP_SAFE_full out b : (cap <= length out)%nat -> WP_SAFE out b = out.
Proof. intros H. unfold WP_SAFE. by apply Nat.ltb_ge in H as ->. Qed.

Lemma wp_safe_copy_full out s : (cap <= length out)%nat -> wp_safe_copy out s = out.
Proof.
  intros H. unfold wp_safe_copy. replace (cap - length out)%nat with 0%nat by lia.
  destruct s; [apply app_nil_r|]. apply app_nil_r.
Qed.

Lemma wp_safe_copy_nil s : wp_safe_copy [] s = clamp s.
Proof. rewrite <- clamp_nil at 1. apply wp_safe_copy_clamp. Qed.
End Buffers.

#[export] Hint Rewrite @WP_SAFE_clamp @wp_safe_copy_clamp @wp_safe_bytes_clamp
  @wp_safe_copy_nil @clamp_idem @clamp_nil : mux.
#[export] Hint Resolve WP_SAFE_cap wp_safe_bytes_cap wp_safe_copy_cap clamp_length : mux.
