(* ===== verification/Encoding.v ===== *)
(** * The PUA colour encoding and the scanner that reads it

    [mux/lib/color_ops.c] keeps colour inline in UTF-8 text as private-use code points.
    All of its Ragel machines include the same grammar ([color_scan] in [color_ops.rl])
    and compile to the same state graph, with different embedded actions.  This file has
    - the state graph ([scan_step]) and the driver Ragel generates ([ragel_exec]);
    - the grammar as a list of tokens ([tok], [flatten]): a text is well formed when it
      is the concatenation of colour code points and visible code points;
    - [co_skip_color], the one hand-written scanner;
    - the lemmas that let every client reason about tokens instead of bytes. *)

From S2P Require Import Prelude.

(** ** The Ragel state graph *)

Inductive sstate :=
  | St0 | St1 | St2 | St3 | St4 | St5 | St6 | St7 | St8 | St9 | St10 | St11 | St12.

#[export] Instance sstate_eq_dec : EqDecision sstate.
Proof. solve_decision. Defined.

(** What the last byte of a code point completes. *)
Inductive kind := KVis | KCol.

#[export] Instance kind_eq_dec : EqDecision kind.
Proof. solve_decision. Defined.

(** One transition: the next state, and the kind of code point it completes. *)
Definition scan_step (cs : sstate) (c : Z) : sstate * option kind :=
  match cs with
  | St0 => (St0, None)
  | St12 =>
      if c =? 0 then (St0, None)
      else if c =? 224 then (St2, None)
      else if c =? 237 then (St4, None)
      else if c =? 239 then (St5, None)
      else if c =? 240 then (St7, None)
      else if c =? 243 then (St9, None)
      else if c =? 244 then (St11, None)
      else if c <? 225 then
        if 193 <? c then
          if in_rng 194 223 c then (St1, None) else (St12, Some KVis)
        else if 128 <=? c then (St0, None)
        else (St12, Some KVis)
      else if 238 <? c then
        if 242 <? c then
          if 245 <=? c then (St0, None) else (St12, Some KVis)
        else if 241 <=? c then (St8, None)
        else (St12, Some KVis)
      else (St3, None)
  | St1 => if in_rng 128 191 c then (St12, Some KVis) else (St0, None)
  | St2 => if in_rng 160 191 c then (St1, None) else (St0, None)
  | St3 => if in_rng 128 191 c then (St1, None) else (St0, None)
  | St4 => if in_rng 128 159 c then (St1, None) else (St0, None)
  | St5 =>
      if c <? 148 then
        if in_rng 128 147 c then (St1, None) else (St0, None)
      else if 159 <? c then
        if in_rng 160 191 c then (St1, None) else (St0, None)
      else (St6, None)
  | St6 => if in_rng 128 191 c then (St12, Some KCol) else (St0, None)
  | St7 => if in_rng 144 191 c then (St3, None) else (St0, None)
  | St8 => if in_rng 128 191 c then (St3, None) else (St0, None)
  | St9 =>
      if c <? 176 then
        if in_rng 128 175 c then (St3, None) else (St0, None)
      else if 179 <? c then
        if in_rng 180 191 c then (St3, None) else (St0, None)
      else (St10, None)
  | St10 => if in_rng 128 191 c then (St6, None) else (St0, None)
  | St11 => if in_rng 128 143 c then (St3, None) else (St0, None)
  end.

(** ** The driver

    [ragel_exec act cs p a] is the generated [exec] block: it runs until the end of the
    text, the error state, or an [fbreak] ([inr]).  The action sees the variables [a] of
    the machine, whether the byte starts a code point (the [>mark] position), what it
    completes (the [@] position), and [p], the text from the current byte on.  The
    result is the final state, the final [p] and the variables. *)

Section Driver.
Context {A : Type} (act : A -> bool -> option kind -> bytes -> A + A).

Fixpoint ragel_exec (cs : sstate) (p : bytes) (a : A) : sstate * bytes * A :=
  match p with
  | [] => (cs, [], a)
  | c :: p' =>
      let '(cs', done) := scan_step cs c in
      if decide (cs' = St0) then (St0, p, a)
      else
        match act a (bool_decide (cs = St12)) done p with
        | inl a' => ragel_exec cs' p' a'
        | inr a' => (cs', p', a')
        end
  end.

(** Whatever the bytes, the variables satisfy what every action preserves. *)
Lemma ragel_exec_inv (P : A -> Prop) cs p a :
  (forall a first done p, P a -> match act a first done p with inl a' | inr a' => P a' end) ->
  P a -> P (ragel_exec cs p a).2.
Proof.
  intros Hact. revert cs a. induction p as [|c p IH]; intros cs a Ha; [done|]. cbn.
  destruct (scan_step cs c) as [cs' d]. case_decide; [done|].
  specialize (Hact a (bool_decide (cs = St12)) d (c :: p) Ha). destruct (act _ _ _ _); auto.
Qed.
End Driver.

(** ** Tokens *)

Definition cont (b : Z) : bool := in_rng 128 191 b.

(** [color_bmp = 0xEF (0x94..0x9F) (0x80..0xBF)],
    [color_smp = 0xF3 (0xB0..0xB3) (0x80..0xBF) (0x80..0xBF)] *)
Definition color (bs : bytes) : bool :=
  match bs with
  | [a; b; c] => (a =? 239) && in_rng 148 159 b && cont c
  | [a; b; c; d] => (a =? 243) && in_rng 176 179 b && cont c && cont d
  | _ => false
  end.

(** [vis_1 | vis_2 | vis_3 | vis_4] *)
Definition visible (bs : bytes) : bool :=
  match bs with
  | [a] => in_rng 1 127 a
  | [a; b] => in_rng 194 223 a && cont b
  | [a; b; c] =>
      ((a =? 224) && in_rng 160 191 b
       || in_rng 225 236 a && cont b
       || (a =? 237) && in_rng 128 159 b
       || (a =? 238) && cont b
       || (a =? 239) && (in_rng 128 147 b || in_rng 160 191 b)) && cont c
  | [a; b; c; d] =>
      ((a =? 240) && in_rng 144 191 b
       || in_rng 241 242 a && cont b
       || (a =? 243) && (in_rng 128 175 b || in_rng 180 191 b)
       || (a =? 244) && in_rng 128 143 b) && cont c && cont d
  | _ => false
  end.

Inductive tok := TVis (bs : bytes) | TCol (bs : bytes).

#[export] Instance tok_eq_dec : EqDecision tok.
Proof. solve_decision. Defined.

Definition tok_bytes (t : tok) : bytes :=
  match t with TVis bs | TCol bs => bs end.
Definition tok_kind (t : tok) : kind :=
  match t with TVis _ => KVis | TCol _ => KCol end.
Definition is_vis (t : tok) : bool :=
  match t with TVis _ => true | TCol _ => false end.
Definition wf_tok (t : tok) : bool :=
  match t with TVis bs => visible bs | TCol bs => color bs end.

Definition flatten (ts : list tok) : bytes := flat_map tok_bytes ts.
Definition wf (ts : list tok) : Prop := Forall (fun t => wf_tok t = true) ts.

#[export] Instance wf_dec ts : Decision (wf ts) := _.

Lemma flatten_cons t ts : flatten (t :: ts) = tok_bytes t ++ flatten ts.
Proof. done. Qed.
Lemma flatten_app ts us : flatten (ts ++ us) = flatten ts ++ flatten us.
Proof. apply flat_map_app. Qed.
Lemma wf_cons t ts : wf (t :: ts) <-> wf_tok t = true /\ wf ts.
Proof. apply Forall_cons_iff. Qed.
Lemma wf_app ts us : wf (ts ++ us) <-> wf ts /\ wf us.
Proof. apply Forall_app. Qed.

(** The four shapes of a well-formed token, with the ranges of its bytes. *)
Lemma tok_ind_wf (P : tok -> Prop) :
  (forall a, 1 <= a <= 127 -> P (TVis [a])) ->
  (forall a b, visible [a; b] = true -> P (TVis [a; b])) ->
  (forall a b c, visible [a; b; c] = true -> P (TVis [a; b; c])) ->
  (forall a b c d, visible [a; b; c; d] = true -> P (TVis [a; b; c; d])) ->
  (forall b c, 148 <= b <= 159 -> 128 <= c <= 191 -> P (TCol [239; b; c])) ->
  (forall b c d, 176 <= b <= 179 -> 128 <= c <= 191 -> 128 <= d <= 191 ->
     P (TCol [243; b; c; d])) ->
  forall t, wf_tok t = true -> P t.
Proof.
  intros H1 H2 H3 H4 C3 C4 [bs|bs] Hw; cbn in Hw.
  - destruct bs as [|a [|b [|c [|d [|e bs]]]]]; try discriminate; auto.
    apply H1. cbn in Hw. byte_hyps. lia.
  - destruct bs as [|a [|b [|c [|d [|e bs]]]]]; try discriminate; cbn in Hw;
      unfold cont in Hw; byte_hyps; subst; auto with lia.
Qed.

(** Splits on the shape of the well-formed token [t]. *)
Ltac tok_shapes t Hw :=
  pattern t; apply tok_ind_wf; [ | | | | | | exact Hw ]; clear t Hw; intros.

(** Exposes the byte ranges of a visible token. *)
Ltac vis_hyps :=
  unfold visible, cont in *;
  repeat match goal with
    | H : _ || _ = true |- _ => apply orb_prop in H; destruct H
    | _ => progress byte_hyps
    end; subst.

(** ** The scanner accepts exactly the well-formed texts *)

(** Running the driver's action over the bytes [bs] of one token of kind [k]. *)
Section TokRun.
Context {A : Type} (act : A -> bool -> option kind -> bytes -> A + A).

Fixpoint tok_run (first : bool) (k : kind) (bs rest : bytes) (a : A) : A + bytes * A :=
  match bs with
  | [] => inl a
  | c :: bs' =>
      match act a first (match bs' with [] => Some k | _ => None end) (c :: bs' ++ rest) with
      | inl a' => tok_run false k bs' rest a'
      | inr a' => inr (bs' ++ rest, a')
      end
  end.

(** The driver reads one token with the actions at its first and last byte. *)
Lemma ragel_exec_tok t rest a :
  wf_tok t = true ->
  exists cs,
    ragel_exec act St12 (tok_bytes t ++ rest) a =
    match tok_run true (tok_kind t) (tok_bytes t) rest a with
    | inl a' => ragel_exec act St12 rest a'
    | inr (p, a') => (cs, p, a')
    end.
Proof.
  intros Hw. tok_shapes t Hw; vis_hyps;
    cbn [tok_bytes tok_kind app ragel_exec tok_run scan_step]; byte_cases;
    rewrite ?bool_decide_true, ?bool_decide_false by done;
    repeat (destruct (decide (_ = _)) as [E|_]; [discriminate E|]; cbn [ragel_exec scan_step]);
    repeat (match goal with
      | |- context [act ?a ?b ?c ?d] => destruct (act a b c d)
      end; cbn [ragel_exec scan_step]; byte_cases;
      repeat (destruct (decide (_ = _)) as [E|_]; [discriminate E|]; cbn [ragel_exec scan_step]);
      rewrite ?bool_decide_true, ?bool_decide_false by done);
    solve [ eexists; reflexivity | exists St0; reflexivity ].
Qed.
End TokRun.

(** ** Reading a text back into tokens *)

(** The first token of a text, if it starts with one. *)
Definition take_tok (s : bytes) : option (tok * bytes) :=
  if visible (take 1 s) then Some (TVis (take 1 s), drop 1 s)
  else if visible (take 2 s) then Some (TVis (take 2 s), drop 2 s)
  else if visible (take 3 s) then Some (TVis (take 3 s), drop 3 s)
  else if visible (take 4 s) then Some (TVis (take 4 s), drop 4 s)
  else if color (take 3 s) then Some (TCol (take 3 s), drop 3 s)
  else if color (take 4 s) then Some (TCol (take 4 s), drop 4 s)
  else None.

Fixpoint tokenize_fuel (fuel : nat) (s : bytes) : option (list tok) :=
  match s, fuel with
  | [], _ => Some []
  | _, O => None
  | _, S fuel' =>
      match take_tok s with
      | Some (t, s') =>
          match tokenize_fuel fuel' s' with
          | Some ts => Some (t :: ts)
          | None => None
          end
      | None => None
      end
  end.

Definition tokenize (s : bytes) : option (list tok) := tokenize_fuel (length s) s.

(** Whether the scanner reads the whole text and stops between two code points. *)
Definition scan_accepts (s : bytes) : bool :=
  match ragel_exec (fun (_ : unit) _ _ _ => inl tt) St12 s tt with
  | (cs, p, _) => bool_decide (cs = St12) && bool_decide (p = [])
  end.

Lemma tok_bytes_nonempty t : wf_tok t = true -> (0 < length (tok_bytes t))%nat.
Proof. intros Hw. tok_shapes t Hw; cbn; lia. Qed.

Lemma take_tok_app t rest :
  wf_tok t = true -> take_tok (tok_bytes t ++ rest) = Some (t, rest).
Proof.
  intros Hw. tok_shapes t Hw; unfold take_tok;
    cbn [tok_bytes app take drop]; rewrite ?take_0, ?drop_0; try rewrite H.
  1: cbn; by byte_cases.
  1-3: repeat (match goal with
    | |- context [visible ?l] =>
        replace (visible l) with false by (symmetry; cbn; vis_hyps; by byte_cases)
    end); done.
  all: destruct rest as [|e rest]; cbn; unfold cont; by byte_cases.
Qed.

Lemma take_tok_inv s t s' : take_tok s = Some (t, s') -> wf_tok t = true /\ s = tok_bytes t ++ s'.
Proof.
  unfold take_tok. intros H.
  repeat (case_match; [simplify_eq/=; by rewrite take_drop|]). done.
Qed.

Lemma tokenize_fuel_flatten ts fuel :
  wf ts -> (length (flatten ts) <= fuel)%nat -> tokenize_fuel fuel (flatten ts) = Some ts.
Proof.
  revert fuel. induction ts as [|t ts IH]; intros fuel Hw Hf; [by destruct fuel|].
  apply wf_cons in Hw as [Ht Hts]. pose proof (tok_bytes_nonempty t Ht) as Hne.
  rewrite flatten_cons, length_app in *. destruct fuel as [|fuel]; [lia|].
  cbn. rewrite take_tok_app by done. rewrite IH by (done || lia).
  destruct (tok_bytes t); [cbn in Hne; lia | done].
Qed.

Lemma tokenize_fuel_sound fuel s ts :
  tokenize_fuel fuel s = Some ts -> wf ts /\ flatten ts = s.
Proof.
  revert s ts. induction fuel as [|fuel IH]; intros s ts H.
  - destruct s; [|done]. simplify_eq/=. split; [constructor | done].
  - destruct s as [|c s]; [simplify_eq/=; split; [constructor | done]|].
    cbn [tokenize_fuel] in H. destruct (take_tok (c :: s)) as [[t s']|] eqn:E; [|done].
    destruct (tokenize_fuel fuel s') as [ts'|] eqn:E'; [|done]. simplify_eq.
    apply take_tok_inv in E as [Ht ->]. apply IH in E' as [Hts <-].
    split; [by apply wf_cons | done].
Qed.

(** Scanning well-formed text with an action that never breaks. *)
Lemma ragel_exec_flatten_end ts :
  wf ts -> ragel_exec (fun (_ : unit) _ _ _ => inl tt) St12 (flatten ts) tt = (St12, [], tt).
Proof.
  induction ts as [|t ts IH]; intros Hw; [done|]. apply wf_cons in Hw as [Ht Hts].
  rewrite flatten_cons.
  destruct (ragel_exec_tok (fun (_ : unit) _ _ _ => inl tt) t (flatten ts) tt Ht) as [cs ->].
  replace (tok_run _ _ _ _ _ _) with (@inl unit (bytes * unit) tt); [auto|].
  generalize true. induction (tok_bytes t) as [|c bs IHb]; intros b; cbn; [done|apply IHb].
Qed.

(** One step of the noop scan that ends well: the state it passes through. *)
Local Ltac scan_byte H :=
  match type of H with
  | ragel_exec _ ?cs ?s _ = _ =>
      first [ is_var s; destruct s as [|? ?]; [cbn in H; try discriminate H|] | idtac ];
      cbn [ragel_exec] in H;
      match type of H with
      | context [scan_step cs ?c] =>
          let E := fresh "E" in
          destruct (scan_step cs c) as [? ?] eqn:E; unfold scan_step in E;
          repeat (case_match; simplify_eq); try discriminate H
      end
  end.

Local Ltac scan_done H :=
  byte_hyps; right;
  match type of H with
  | ragel_exec _ St12 ?s' _ = _ =>
      match goal with
      | |- context [?a :: ?b :: ?c :: ?d :: s'] =>
          first [ exists (TVis [a; b; c; d]), s'; split; [cbn; unfold cont, in_rng; lia|]; done
                | exists (TCol [a; b; c; d]), s'; split; [cbn; unfold cont, in_rng; lia|]; done ]
      | |- context [?a :: ?b :: ?c :: s'] =>
          first [ exists (TVis [a; b; c]), s'; split; [cbn; unfold cont, in_rng; lia|]; done
                | exists (TCol [a; b; c]), s'; split; [cbn; unfold cont, in_rng; lia|]; done ]
      | |- context [?a :: ?b :: s'] =>
          exists (TVis [a; b]), s'; split; [cbn; unfold cont, in_rng; lia|]; done
      | |- context [?a :: s'] =>
          exists (TVis [a]), s'; split; [cbn; unfold cont, in_rng; lia|]; done
      end
  end.

Lemma scan_first_token s :
  Forall byte_ok s ->
  ragel_exec (fun (_ : unit) _ _ _ => inl tt) St12 s tt = (St12, [], tt) ->
  s = [] \/ exists t s', wf_tok t = true /\ s = tok_bytes t ++ s' /\
    ragel_exec (fun (_ : unit) _ _ _ => inl tt) St12 s' tt = (St12, [], tt).
Proof.
  intros Hok H. destruct s as [|a s]; [by left|]. inversion_clear Hok as [|? ? Ha _].
  unfold byte_ok in Ha.
  scan_byte H; try solve [scan_done H];
    scan_byte H; try solve [scan_done H];
    scan_byte H; try solve [scan_done H];
    scan_byte H; try solve [scan_done H].
Qed.

Lemma scan_accepts_flatten ts : wf ts -> scan_accepts (flatten ts) = true.
Proof. intros Hw. unfold scan_accepts. by rewrite ragel_exec_flatten_end. Qed.

Lemma scan_accepts_inv s :
  Forall byte_ok s -> scan_accepts s = true -> exists ts, wf ts /\ flatten ts = s.
Proof.
  unfold scan_accepts.
  len_ind s. intros Hok H.
  destruct (ragel_exec _ St12 s tt) as [[cs p] []] eqn:E.
  apply andb_prop in H as [H1 H2].
  apply bool_decide_eq_true in H1. apply bool_decide_eq_true in H2. subst cs p.
  destruct (scan_first_token s Hok E) as [-> | (t & s' & Ht & -> & E')].
  - exists []. split; [constructor | done].
  - pose proof (tok_bytes_nonempty t Ht). apply Forall_app in Hok as [_ Hok].
    rewrite length_app in En.
    destruct (IH (length s') ltac:(lia) s' eq_refl Hok) as (ts & Hts & <-).
    { rewrite E'. done. }
    exists (t :: ts). split; [by apply wf_cons | done].
Qed.

(** *** The code points that the scanner ends *)

(** Collects the bytes of a code point and ends it with the kind that the state graph gives. *)
Definition collect (a : list tok * bytes) (first : bool) (done : option kind) (p : bytes) :
    list tok * bytes + list tok * bytes :=
  let cur := a.2 ++ take 1 p in
  inl match done with
      | Some KVis => (a.1 ++ [TVis cur], [])
      | Some KCol => (a.1 ++ [TCol cur], [])
      | None => (a.1, cur)
      end.

Definition scan_tokens (s : bytes) : option (list tok) :=
  match ragel_exec collect St12 s ([], []) with
  | (cs, p, (ts, cur)) => if bool_decide (cs = St12 /\ p = [] /\ cur = []) then Some ts else None
  end.

(** Where an action that never breaks leaves the scanner does not depend on it. *)
Lemma ragel_exec_noop {A} (act : A -> bool -> option kind -> bytes -> A + A) cs p a :
  (forall a f k q, exists a', act a f k q = inl a') ->
  (ragel_exec act cs p a).1 = (ragel_exec (fun (_ : unit) _ _ _ => inl tt) cs p tt).1.
Proof.
  intros H. revert cs a. induction p as [|c p IH]; intros cs a; [done|]. cbn [ragel_exec].
  destruct (scan_step cs c) as [cs' k]. destruct (H a (bool_decide (cs = St12)) k (c :: p)) as [a' E].
  destruct (decide (cs' = St0)); [done|]. rewrite E. apply IH.
Qed.

Lemma scan_tokens_accepts s ts : scan_tokens s = Some ts -> scan_accepts s = true.
Proof.
  unfold scan_tokens, scan_accepts. pose proof (ragel_exec_noop collect St12 s ([], [])) as H.
  destruct (ragel_exec collect _ _ _) as [[cs p] [us cur]], (ragel_exec _ _ _ tt) as [[cs' p'] []]. cbn in H.
  intros E. case_bool_decide as Hd; [|done]. destruct Hd as (-> & -> & _).
  assert (Hn : (St12, []) = (cs', p')) by (apply H; intros; by eexists). injection Hn as <- <-. by rewrite !bool_decide_true.
Qed.

Lemma collect_token first t rest ts cur : wf_tok t = true ->
  tok_run collect first (tok_kind t) (tok_bytes t) rest (ts, cur) =
  inl (ts ++ [match t with TVis bs => TVis (cur ++ bs) | TCol bs => TCol (cur ++ bs) end], []).
Proof.
  intros Hw. pose proof (tok_bytes_nonempty t Hw) as Hne. destruct t as [bs|bs]; cbn [tok_bytes tok_kind] in *; clear Hw.
  all: revert first cur; induction bs as [|c [|c' bs] IH]; intros first cur; [cbn in Hne; lia|done|].
  all: etransitivity; [apply (IH ltac:(cbn; lia) false (cur ++ [c]))|by rewrite <- app_assoc].
Qed.

Lemma scan_tokens_flatten ts : wf ts -> scan_tokens (flatten ts) = Some ts.
Proof.
  intros Hw. unfold scan_tokens.
  assert (H : forall us, ragel_exec collect St12 (flatten ts) (us, []) = (St12, [], (us ++ ts, []))).
  { induction ts as [|t ts IH]; intros us; [by rewrite app_nil_r|]. apply wf_cons in Hw as [Ht Hts].
    rewrite flatten_cons. destruct (ragel_exec_tok collect t (flatten ts) (us, []) Ht) as [cs ->].
    rewrite collect_token by done. rewrite IH by done. rewrite <- app_assoc. by destruct t. }
  by rewrite H, bool_decide_true.
Qed.

Lemma flatten_inj ts us : wf ts -> wf us -> flatten ts = flatten us -> ts = us.
Proof.
  intros Ht Hu E. pose proof (tokenize_fuel_flatten ts (length (flatten ts)) Ht ltac:(lia)) as H1.
  rewrite E, (tokenize_fuel_flatten us) in H1 by (done || lia). congruence.
Qed.

(** ** [co_skip_color]

    Skips whole colour code points; the third and fourth bytes are not examined. *)
Fixpoint co_skip_color (p : bytes) : bytes :=
  match p with
  | p0 :: p1 :: p2 :: q =>
      if (p0 =? 239) && in_rng 148 159 p1 then co_skip_color q
      else
        match q with
        | p3 :: q' => if (p0 =? 243) && in_rng 176 179 p1 then co_skip_color q' else p
        | [] => p
        end
  | _ => p
  end.

Fixpoint skip_cols (ts : list tok) : list tok :=
  match ts with
  | TCol _ :: ts' => skip_cols ts'
  | _ => ts
  end.

Lemma co_skip_color_col t p : wf_tok t = true -> is_vis t = false ->
  co_skip_color (tok_bytes t ++ p) = co_skip_color p.
Proof. intros Hw. tok_shapes t Hw; try done; cbn; by byte_cases. Qed.

Lemma co_skip_color_vis t p : wf_tok t = true -> is_vis t = true ->
  co_skip_color (tok_bytes t ++ p) = tok_bytes t ++ p.
Proof.
  intros Hw. tok_shapes t Hw; try done; destruct p as [|x [|y [|z p]]]; cbn;
    try done; vis_hyps; by byte_cases.
Qed.

Lemma co_skip_color_flatten ts : wf ts -> co_skip_color (flatten ts) = flatten (skip_cols ts).
Proof.
  induction ts as [|[bs|bs] ts IH]; intros Hw; [done| |]; apply wf_cons in Hw as [Ht Hts];
    rewrite flatten_cons.
  - by rewrite co_skip_color_vis.
  - rewrite co_skip_color_col by done. auto.
Qed.

Lemma skip_cols_wf ts : wf ts -> wf (skip_cols ts).
Proof.
  induction ts as [|[bs|bs] ts IH]; intros Hw; [done|done|].
  apply wf_cons in Hw as [_ Hts]. auto.
Qed.

Lemma skip_cols_head ts : skip_cols ts = [] \/ exists bs us, skip_cols ts = TVis bs :: us.
Proof. induction ts as [|[bs|bs] ts IH]; cbn; eauto. Qed.

(** [co_skip_color] returns a suffix of its argument. *)
Lemma co_skip_color_suffix p : co_skip_color p `suffix_of` p.
Proof.
  len_ind p.
  destruct p as [|p0 [|p1 [|p2 q]]]; [done|done|done|]. cbn in En |- *.
  destruct ((p0 =? 239) && in_rng 148 159 p1).
  - etransitivity; [apply (IH (length q)); [lia|done]|]. by do 3 apply suffix_cons_r.
  - destruct q as [|p3 q]; [done|]. cbn in En.
    destruct ((p0 =? 243) && in_rng 176 179 p1); [|done].
    etransitivity; [apply (IH (length q)); [lia|done]|]. by do 4 apply suffix_cons_r.
Qed.

(** ** Properties *)

(** C11: The scanner takes a text apart as it was put together: cutting a byte string behind every byte at
    which the state graph says that a code point ends, and keeping the kind that it says, gives [ts] iff [ts]
    are well-formed code points of these kinds whose bytes are the string. *)
Theorem scan_roundtrip s ts : Forall byte_ok s -> scan_tokens s = Some ts <-> wf ts /\ flatten ts = s.
Proof.
  intros Hok. split; [|intros [Hw <-]; by apply scan_tokens_flatten]. intros H.
  destruct (scan_accepts_inv s Hok) as (us & Hu & <-); [by eapply scan_tokens_accepts|].
  rewrite scan_tokens_flatten in H by done. by injection H as <-.
Qed.

(** "h", a red foreground, "é", a 24-bit delta. *)
Definition sample : list tok :=
  [TVis [104]; TCol [239; 152; 129]; TVis [195; 169]; TCol [243; 176; 128; 133]].

Lemma scan_roundtrip_witness :
  scan_tokens [104; 239; 152; 129; 195; 169; 243; 176; 128; 133] = Some sample /\
  scan_tokens [104; 239; 152] = None.
Proof.
  split; [|vm_compute; reflexivity].
  apply scan_roundtrip; [repeat constructor; unfold byte_ok; lia|]. split; [repeat constructor|reflexivity].
Defined.

(** C12: the compiled state graph accepts exactly the texts of the grammar: a byte string is
    scanned to its end, between two code points, iff it splits into visible and colour
    code points. *)
Theorem scan_accepts_iff s : Forall byte_ok s ->
  scan_accepts s = true <-> exists ts, tokenize s = Some ts.
Proof.
  intros Hok. split.
  - intros H. apply scan_accepts_inv in H as (ts & Hw & <-); [|done]. exists ts.
    by apply tokenize_fuel_flatten.
  - intros [ts H]. apply tokenize_fuel_sound in H as [Hw <-]. by apply scan_accepts_flatten.
Qed.

(** An overlong form is rejected, a colour code point is accepted. *)
Lemma scan_accepts_iff_witness :
  scan_accepts [239; 152; 129; 97] = true /\ ~ (exists ts, tokenize [192; 128] = Some ts).
Proof.
  split.
  - apply scan_accepts_iff; [repeat constructor; unfold byte_ok; lia|].
    eexists. vm_compute. reflexivity.
  - intros H. apply scan_accepts_iff in H; [|repeat constructor; unfold byte_ok; lia].
    vm_compute in H. discriminate H.
Defined.
