(* ===== verification/Scan.v ===== *)
(** * Stage 0 of [color_ops.c]: the scanning primitives

    [co_visible_length], [co_visible_advance], [co_copy_visible], [co_find_delim] and
    [co_strip_color] are Ragel machines over the graph of [Encoding]; here they are
    instances of [ragel_exec] with the actions of [color_ops.rl].  Each is characterised
    on well-formed text by an operation on its tokens. *)

From S2P Require Import Prelude Encoding.

Section Scan.
Context {cfg : Config}.

(** ** The machines *)

(** The action [count] of [visible_length]. *)
Definition count (nVisible : nat) (_ : bool) (done : option kind) (_ : bytes) : nat + nat :=
  inl (if decide (done = Some KVis) then S nVisible else nVisible).

Definition co_visible_length (data : bytes) : nat :=
  let '(_, _, nVisible) := ragel_exec count St12 data 0%nat in nVisible.

(** The action [vis_hit] of [visible_advance]. *)
Definition vis_hit (n : nat) (nSeen : nat) (_ : bool) (done : option kind) (_ : bytes)
    : nat + nat :=
  if decide (done = Some KVis) then
    let nSeen := S nSeen in
    if (n <=? nSeen)%nat then inr nSeen else inl nSeen
  else inl nSeen.

(** The pointer reached and [*out_count]. *)
Definition co_visible_advance (data : bytes) (n : nat) : bytes * nat :=
  match n with
  | O => (data, O)
  | _ => let '(_, p, nSeen) := ragel_exec (vis_hit n) St12 data 0%nat in (p, nSeen)
  end.

(** [copy_visible] has a second start state, 13, entered by a visible code point; the
    action [vis_copied] runs when a byte leaves it.  The flag [at13] records it. *)
Record cv_vars := { cv_out : bytes; cv_copied : nat; cv_at13 : bool }.

Definition cv_act (limit : nat) (v : cv_vars) (first : bool) (done : option kind) (p : bytes)
    : cv_vars + cv_vars :=
  let copy_byte nCopied :=
    {| cv_out := WP_SAFE (cv_out v) (hd 0 p); cv_copied := nCopied;
       cv_at13 := bool_decide (done = Some KVis) |} in
  if first && cv_at13 v then
    let nCopied := S (cv_copied v) in
    if (limit <=? nCopied)%nat || (cap <=? length (cv_out v))%nat
    then inr {| cv_out := cv_out v; cv_copied := nCopied; cv_at13 := false |}
    else inl (copy_byte nCopied)
  else inl (copy_byte (cv_copied v)).

(** The end-of-text action of state 13 only counts and leaves the output alone. *)
Definition co_copy_visible (data : bytes) (limit : nat) : bytes :=
  match limit with
  | O => []
  | _ =>
      let '(_, _, v) := ragel_exec (cv_act limit) St12 data
                          {| cv_out := []; cv_copied := 0; cv_at13 := false |} in
      cv_out v
  end.

(** [memchr] returns the suffix that starts at the first [c]. *)
Fixpoint memchr (s : bytes) (c : Z) : option bytes :=
  match s with
  | [] => None
  | b :: s' => if b =? c then Some s else memchr s' c
  end.

(** The action [check_delim] of the machine [find_delim]. *)
Definition check_delim (target : Z) (found : option bytes) (_ : bool) (done : option kind)
    (p : bytes) : option bytes + option bytes :=
  if decide (done = Some KVis) then
    if hd 0 p =? target then inr (Some p) else inl found
  else inl found.

Definition find_delim_dfa (data : bytes) (target : Z) : option bytes :=
  let '(_, _, found) := ragel_exec (check_delim target) St12 data None in found.

Definition co_find_delim (data : bytes) (target : Z) : option bytes :=
  if in_rng 1 127 target then memchr data target else find_delim_dfa data target.

(** The bytes from [mark] up to and including [*p]. *)
Definition bytes_to (mark p : bytes) : bytes := take (S (length mark - length p)) mark.

Definition strip_act (v : bytes * bytes) (first : bool) (done : option kind) (p : bytes)
    : bytes * bytes + bytes * bytes :=
  let '(mark, out) := v in
  let mark := if first then p else mark in
  if decide (done = Some KVis) then inl (mark, wp_safe_bytes out (bytes_to mark p))
  else inl (mark, out).

Definition co_strip_color (data : bytes) : bytes :=
  let '(_, _, (_, out)) := ragel_exec strip_act St12 data (data, []) in out.

(** ** Their meaning on tokens *)

Definition nvis (ts : list tok) : nat := length (filter (fun t => is_vis t = true) ts).
Definition strip (ts : list tok) : list tok := filter (fun t => is_vis t = true) ts.

(** The tokens up to and including the [n]-th visible one, and the tokens after it. *)
Fixpoint pre (n : nat) (ts : list tok) : list tok :=
  match n, ts with
  | O, _ | _, [] => []
  | S n', TVis bs :: ts' => TVis bs :: pre n' ts'
  | _, TCol bs :: ts' => TCol bs :: pre n ts'
  end.
Fixpoint adv (n : nat) (ts : list tok) : list tok :=
  match n, ts with
  | O, _ => ts
  | _, [] => []
  | S n', TVis _ :: ts' => adv n' ts'
  | _, TCol _ :: ts' => adv n ts'
  end.

(** The tokens before and after the first visible [d]. *)
Fixpoint cut (d : Z) (ts : list tok) : option (list tok * list tok) :=
  match ts with
  | [] => None
  | t :: ts' =>
      if decide (t = TVis [d]) then Some ([], ts')
      else match cut d ts' with
           | Some (l, r) => Some (t :: l, r)
           | None => None
           end
  end.

Lemma pre_0 ts : pre 0 ts = [].
Proof. by destruct ts. Qed.
Lemma adv_0 ts : adv 0 ts = ts.
Proof. by destruct ts. Qed.

Lemma nvis_app ts us : nvis (ts ++ us) = (nvis ts + nvis us)%nat.
Proof. unfold nvis. by rewrite filter_app, length_app. Qed.

Lemma pre_adv n ts : pre n ts ++ adv n ts = ts.
Proof.
  revert n. induction ts as [|[bs|bs] ts IH]; intros [|n]; cbn; try done; f_equal; apply (IH (S n)) || auto.
Qed.

Lemma nvis_vis bs ts : nvis (TVis bs :: ts) = S (nvis ts).
Proof. done. Qed.
Lemma nvis_col bs ts : nvis (TCol bs :: ts) = nvis ts.
Proof. done. Qed.

Lemma pre_all n ts : (nvis ts < n)%nat -> pre n ts = ts.
Proof.
  revert n. induction ts as [|[bs|bs] ts IH]; intros [|n] H; try lia; try done;
    rewrite ?nvis_vis, ?nvis_col in H; cbn; f_equal; apply IH; lia.
Qed.

Lemma nvis_pre n ts : nvis (pre n ts) = Nat.min n (nvis ts).
Proof.
  revert n. induction ts as [|[bs|bs] ts IH]; intros [|n]; try done.
  - cbn [pre]. rewrite !nvis_vis, IH. lia.
  - apply (IH (S n)).
Qed.

Lemma wf_pre_adv n ts : wf ts -> wf (pre n ts) /\ wf (adv n ts).
Proof. intros H. rewrite <- (pre_adv n ts) in H. by apply wf_app in H. Qed.

Lemma cut_spec d ts l r : cut d ts = Some (l, r) -> ts = l ++ TVis [d] :: r.
Proof.
  revert l. induction ts as [|t ts IH]; intros l H; [done|]. cbn in H. case_decide; simplify_eq/=; [done|].
  destruct (cut d ts) as [[l' r']|]; simplify_eq/=. f_equal. auto.
Qed.

Lemma cut_none d ts : cut d ts = None -> TVis [d] ∉ ts.
Proof.
  induction ts as [|t ts IH]; intros H; [apply not_elem_of_nil|]. cbn in H. case_decide; [done|].
  destruct (cut d ts) as [[l' r']|]; [done|]. apply not_elem_of_cons. auto.
Qed.

(** ** The machines on well-formed text *)

Lemma visible_length_exec ts n :
  wf ts -> (ragel_exec count St12 (flatten ts) n).2 = (n + nvis ts)%nat.
Proof.
  revert n. induction ts as [|t ts IH]; intros n Hw; [cbn; unfold nvis; cbn; lia|].
  apply wf_cons in Hw as [Ht Hts]. rewrite flatten_cons.
  destruct (ragel_exec_tok count t (flatten ts) n Ht) as [cs ->].
  revert Hts. tok_shapes t Ht; cbn [tok_run tok_kind tok_bytes]; unfold count;
    repeat case_decide; try done; rewrite IH by done; rewrite ?nvis_vis, ?nvis_col; lia.
Qed.

Lemma co_visible_length_flatten ts : wf ts -> co_visible_length (flatten ts) = nvis ts.
Proof.
  intros Hw. unfold co_visible_length. pose proof (visible_length_exec ts 0 Hw) as E.
  destruct (ragel_exec _ _ _ _) as [[cs p] n]. done.
Qed.

Lemma visible_advance_exec ts n k :
  wf ts -> (k < n)%nat ->
  exists cs, ragel_exec (vis_hit n) St12 (flatten ts) k =
             (cs, flatten (adv (n - k) ts), (k + Nat.min (n - k) (nvis ts))%nat).
Proof.
  revert k. induction ts as [|t ts IH]; intros k Hw Hk.
  { exists St12. cbn. f_equal; [|lia]. f_equal. by destruct (n - k)%nat. }
  apply wf_cons in Hw as [Ht Hts]. rewrite flatten_cons.
  destruct (ragel_exec_tok (vis_hit n) t (flatten ts) k Ht) as [cs ->].
  assert (Hcol : tok_run (vis_hit n) true (tok_kind t) (tok_bytes t) (flatten ts) k =
    if is_vis t then if (n <=? S k)%nat then inr (flatten ts, S k) else inl (S k) else inl k).
  { clear - Ht. tok_shapes t Ht; cbn [tok_run tok_kind tok_bytes is_vis]; unfold vis_hit;
      repeat case_decide; try done; by destruct (n <=? S k)%nat. }
  rewrite Hcol. destruct (n - k)%nat as [|m] eqn:Em; [lia|]. destruct t as [bs|bs]; cbn [is_vis].
  - rewrite nvis_vis. destruct (Nat.leb_spec n (S k)).
    + exists cs. replace m with 0%nat by lia. cbn [adv]. rewrite adv_0. f_equal. lia.
    + destruct (IH (S k) Hts ltac:(lia)) as [cs' ->]. exists cs'.
      replace (n - S k)%nat with m by lia. cbn [adv]. f_equal. lia.
  - destruct (IH k Hts Hk) as [cs' ->]. exists cs'. by rewrite nvis_col, Em.
Qed.

Lemma co_visible_advance_flatten ts n :
  wf ts -> co_visible_advance (flatten ts) n = (flatten (adv n ts), Nat.min n (nvis ts)).
Proof.
  intros Hw. unfold co_visible_advance. destruct n as [|n]; [by rewrite adv_0|].
  destruct (visible_advance_exec ts (S n) 0 Hw ltac:(lia)) as [cs E].
  change (S n - 0)%nat with (S n) in E. rewrite E. f_equal.
Qed.

Lemma strip_exec ts mark out :
  wf ts ->
  (ragel_exec strip_act St12 (flatten ts) (mark, clamp out)).2.2 = clamp (out ++ flatten (strip ts)).
Proof.
  revert mark out. induction ts as [|t ts IH]; intros mark out Hw; [cbn; by rewrite app_nil_r|].
  apply wf_cons in Hw as [Ht Hts]. rewrite flatten_cons.
  destruct (ragel_exec_tok strip_act t (flatten ts) (mark, clamp out) Ht) as [cs ->].
  assert (exists mark', tok_run strip_act true (tok_kind t) (tok_bytes t) (flatten ts) (mark, clamp out)
    = inl (mark', clamp (out ++ if is_vis t then tok_bytes t else []))) as [mark' ->].
  { clear IH. tok_shapes t Ht; unfold strip_act, bytes_to;
      cbn [tok_run tok_kind tok_bytes is_vis app length]; repeat (case_decide; try done);
      eexists; rewrite ?app_nil_r; try reflexivity; repeat f_equal;
      rewrite wp_safe_bytes_clamp; do 2 f_equal;
      match goal with |- take ?n _ = ?l => replace n with (length l) by (cbn; lia) end;
      cbn [length take]; by rewrite ?take_0. }
  rewrite IH by done. rewrite <- app_assoc. f_equal. f_equal. by destruct t.
Qed.

Lemma co_strip_color_flatten ts : wf ts -> co_strip_color (flatten ts) = clamp (flatten (strip ts)).
Proof.
  intros Hw. unfold co_strip_color. pose proof (strip_exec ts (flatten ts) [] Hw) as E.
  rewrite clamp_nil in E. destruct (ragel_exec _ _ _ _) as [[cs p] [m out]]. done.
Qed.

Lemma clamp_full o s : (cap <= length (clamp o))%nat -> clamp (o ++ s) = clamp o.
Proof.
  intros H. rewrite <- clamp_app. change (clamp (clamp o ++ s)) with (take cap (clamp o ++ s)).
  pose proof (clamp_length o). rewrite firstn_app, (take_ge (clamp o)) by lia.
  replace (cap - length (clamp o))%nat with 0%nat by lia. by rewrite take_0, app_nil_r.
Qed.

Lemma cv_tok n t rest o k v :
  wf_tok t = true ->
  tok_run (cv_act n) true (tok_kind t) (tok_bytes t) rest
    {| cv_out := clamp o; cv_copied := k; cv_at13 := v |} =
  if v && ((n <=? S k)%nat || (cap <=? length (clamp o))%nat)
  then inr (drop 1 (tok_bytes t) ++ rest, {| cv_out := clamp o; cv_copied := S k; cv_at13 := false |})
  else inl {| cv_out := clamp (o ++ tok_bytes t); cv_copied := (if v then S k else k);
              cv_at13 := is_vis t |}.
Proof.
  intros Ht. tok_shapes t Ht; unfold cv_act;
    cbn [tok_run tok_kind tok_bytes is_vis cv_out cv_copied cv_at13 andb hd drop app];
    destruct v; cbn [andb];
    try (destruct ((n <=? S k)%nat || (cap <=? length (clamp o))%nat); [by rewrite ?drop_0|]);
    cbn [cv_out cv_copied cv_at13]; rewrite !WP_SAFE_clamp, <- ?app_assoc; done.
Qed.

Lemma copy_visible_exec n ts o k v :
  wf ts -> (k < n)%nat ->
  cv_out (ragel_exec (cv_act n) St12 (flatten ts)
    {| cv_out := clamp o; cv_copied := k; cv_at13 := v |}).2 =
  clamp (o ++ flatten (pre (n - (k + Nat.b2n v)) ts)).
Proof.
  revert o k v. induction ts as [|t ts IH]; intros o k v Hw Hk.
  { cbn. destruct (n - _)%nat; by rewrite app_nil_r. }
  apply wf_cons in Hw as [Ht Hts]. rewrite flatten_cons.
  destruct (ragel_exec_tok (cv_act n) t (flatten ts)
    {| cv_out := clamp o; cv_copied := k; cv_at13 := v |} Ht) as [cs ->].
  rewrite cv_tok by done.
  destruct (v && ((n <=? S k)%nat || (cap <=? length (clamp o))%nat)) eqn:E.
  - apply andb_prop in E as [-> E]. apply orb_prop in E as [E|E]; cbn.
    + apply Nat.leb_le in E. replace (n - (k + 1))%nat with 0%nat by lia.
      by rewrite app_nil_r.
    + apply Nat.leb_le in E. by rewrite clamp_full.
  - assert (Hk' : ((if v then S k else k) < n)%nat).
    { destruct v; [|done]. cbn in E. apply orb_false_iff in E as [E _]. by apply Nat.leb_gt in E. }
    assert (exists m, n - (k + Nat.b2n v) = S m)%nat as [m Em].
    { destruct v; cbn in *; [exists (n - k - 2)%nat | exists (n - k - 1)%nat]; lia. }
    rewrite IH, <- app_assoc, Em by done.
    destruct t as [bs|bs]; cbn [pre tok_bytes is_vis]; rewrite flatten_cons;
      do 5 f_equal; destruct v; cbn in *; lia.
Qed.

Lemma co_copy_visible_flatten ts n : wf ts -> co_copy_visible (flatten ts) n = clamp (flatten (pre n ts)).
Proof.
  intros Hw. unfold co_copy_visible. destruct n as [|n]; [by rewrite pre_0, clamp_nil|].
  pose proof (copy_visible_exec (S n) ts [] 0 false Hw ltac:(lia)) as E.
  rewrite clamp_nil in E. destruct (ragel_exec _ _ _ _) as [[cs p] v]. done.
Qed.

(** *** Delimiters *)

Lemma memchr_vis t rest d : wf_tok t = true -> 1 <= d <= 127 ->
  memchr (tok_bytes t ++ rest) d = if decide (t = TVis [d]) then Some (d :: rest) else memchr rest d.
Proof.
  intros Ht Hd. case_decide as E; [subst t; cbn; by rewrite Z.eqb_refl|].
  revert E. tok_shapes t Ht; cbn; vis_hyps; byte_cases; try done.
  destruct (Z.eqb_spec a d); [congruence|done].
Qed.

Lemma memchr_flatten ts d : wf ts -> 1 <= d <= 127 ->
  memchr (flatten ts) d = (fun lr => d :: flatten lr.2) <$> cut d ts.
Proof.
  intros Hw Hd. induction ts as [|t ts IH]; [done|]. apply wf_cons in Hw as [Ht Hts].
  rewrite flatten_cons, memchr_vis by done. cbn. case_decide; [done|].
  rewrite IH by done. by destruct (cut d ts) as [[l r]|].
Qed.

Lemma find_delim_dfa_flatten ts d : wf ts -> 1 <= d <= 127 ->
  find_delim_dfa (flatten ts) d = (fun lr => d :: flatten lr.2) <$> cut d ts.
Proof.
  intros Hw Hd. unfold find_delim_dfa.
  induction ts as [|t ts IH]; [done|]. apply wf_cons in Hw as [Ht Hts]. rewrite flatten_cons.
  destruct (ragel_exec_tok (check_delim d) t (flatten ts) None Ht) as [cs ->].
  cbn [cut]. case_decide as E.
  - subst t. cbn. unfold check_delim. cbn. by rewrite Z.eqb_refl.
  - assert (tok_run (check_delim d) true (tok_kind t) (tok_bytes t) (flatten ts) None = inl None) as ->.
    { clear - Ht E Hd. revert E. tok_shapes t Ht;
        cbn [tok_run tok_kind tok_bytes]; unfold check_delim; cbn [hd];
        repeat (case_decide; try done);
        vis_hyps; byte_cases; try done. destruct (Z.eqb_spec a d); [congruence|done]. }
    rewrite IH by done. by destruct (cut d ts) as [[l r]|].
Qed.

Lemma co_find_delim_flatten ts d : wf ts -> 1 <= d <= 127 ->
  co_find_delim (flatten ts) d = (fun lr => d :: flatten lr.2) <$> cut d ts.
Proof.
  intros Hw Hd. unfold co_find_delim.
  replace (in_rng 1 127 d) with true by (symmetry; by apply in_rng_true). by apply memchr_flatten.
Qed.

(** *** Facts about tokens that the properties use *)

Lemma strip_idem ts : strip (strip ts) = strip ts.
Proof.
  unfold strip. rewrite list_filter_filter. apply list_filter_iff. tauto.
Qed.

Lemma nvis_strip ts : nvis (strip ts) = nvis ts.
Proof. unfold nvis. f_equal. apply strip_idem. Qed.

Lemma wf_strip ts : wf ts -> wf (strip ts).
Proof. unfold wf, strip. rewrite !Forall_forall. intros H t Ht. apply list_elem_of_filter in Ht as [_ Ht]. auto. Qed.

Lemma strip_bytes_le ts : (length (flatten (strip ts)) <= length (flatten ts))%nat.
Proof.
  induction ts as [|[bs|bs] ts IH]; [done| |]; unfold strip; rewrite filter_cons; case_decide;
    rewrite ?flatten_cons, ?length_app; try done; unfold strip in IH; lia.
Qed.

(** ** Properties *)

(** C37: [co_copy_visible] and [co_visible_advance] split a text at its [n]-th visible code
    point: nothing is lost between them, and the copy has [n] visible code points, or all
    of them. *)
Theorem visible_split ts n : wf ts -> (length (flatten ts) <= cap)%nat ->
  let data := flatten ts in
  let '(p, seen) := co_visible_advance data n in
  co_copy_visible data n ++ p = data /\
  seen = Nat.min n (co_visible_length data) /\
  co_visible_length (co_copy_visible data n) = seen /\
  (co_visible_length p + seen = co_visible_length data)%nat.
Proof.
  intros Hw Hl. cbn. rewrite co_visible_advance_flatten, co_copy_visible_flatten by done.
  pose proof (pre_adv n ts) as E. pose proof (wf_pre_adv n ts Hw) as [Hp Ha].
  pose proof (f_equal nvis E) as En. rewrite nvis_app, nvis_pre in En.
  apply (f_equal flatten) in E. rewrite flatten_app in E.
  rewrite clamp_id by (apply (f_equal length) in E; rewrite length_app in E; lia).
  rewrite !co_visible_length_flatten, nvis_pre by done. split_and!; [done|done|done|lia].
Qed.

(** the [memchr] fast path of [co_find_delim] finds the same delimiter as the state
    machine it replaces, on every well-formed text and every ASCII delimiter. *)
Theorem find_delim_fast_path ts d : wf ts -> 1 <= d <= 127 ->
  co_find_delim (flatten ts) d = find_delim_dfa (flatten ts) d.
Proof. intros Hw Hd. by rewrite co_find_delim_flatten, find_delim_dfa_flatten. Qed.

(** [co_strip_color] keeps exactly the visible code points, in order; stripping twice is
    stripping once and does not change the visible length. *)
Theorem strip_color_spec ts : wf ts -> (length (flatten ts) <= cap)%nat ->
  let s := co_strip_color (flatten ts) in
  s = flatten (strip ts) /\ Forall (fun t => is_vis t = true) (strip ts) /\
  co_strip_color s = s /\ co_visible_length s = co_visible_length (flatten ts).
Proof.
  intros Hw Hl. cbn. rewrite co_strip_color_flatten by done.
  pose proof (strip_bytes_le ts). rewrite clamp_id by lia.
  rewrite co_strip_color_flatten, strip_idem, clamp_id, !co_visible_length_flatten, nvis_strip
    by (done || lia || by apply wf_strip).
  split_and!; [done| |done|done]. apply Forall_forall. intros t Ht. by apply list_elem_of_filter in Ht as [].
Qed.

(** whatever the bytes, well formed or not, [co_strip_color] and [co_copy_visible] leave
    room for the terminating NUL in a buffer of [LBUF_SIZE] bytes. *)
Theorem scan_output_bounds data n :
  (length (co_strip_color data) <= LBUF_SIZE - 1)%nat /\
  (length (co_copy_visible data n) <= LBUF_SIZE - 1)%nat.
Proof.
  split.
  - unfold co_strip_color.
    pose proof (ragel_exec_inv strip_act (fun v => length v.2 <= cap)%nat St12 data (data, [])) as H.
    destruct (ragel_exec _ _ _ _) as [[cs p] [m out]]. apply H; [|cbn; lia].
    intros [m' o] first done' q Ho. unfold strip_act. case_decide; cbn in *; auto with mux.
  - unfold co_copy_visible. destruct n as [|n]; [cbn; lia|].
    pose proof (ragel_exec_inv (cv_act (S n)) (fun v => length (cv_out v) <= cap)%nat St12 data
      {| cv_out := []; cv_copied := 0; cv_at13 := false |}) as H.
    destruct (ragel_exec _ _ _ _) as [[cs p] v]. apply H; [|cbn; lia].
    intros v' first done' q Ho. unfold cv_act. repeat case_match; simplify_eq/=; auto with mux.
Qed.
End Scan.

Lemma visible_split_witness :
  wf sample /\
  co_copy_visible (cfg := default_config) (flatten sample) 1 ++
    (co_visible_advance (flatten sample) 1).1 = flatten sample.
Proof.
  assert (Hw : wf sample) by (repeat constructor). split; [exact Hw|].
  exact (proj1 (visible_split (cfg := default_config) sample 1 Hw
    ltac:(apply Nat.leb_le; vm_compute; reflexivity))).
Defined.

Lemma find_delim_fast_path_witness :
  co_find_delim (flatten sample) 104 = find_delim_dfa (flatten sample) 104 /\
  co_find_delim (flatten sample) 104 = Some (flatten sample).
Proof.
  split; [|vm_compute; reflexivity].
  apply find_delim_fast_path; [repeat constructor | lia].
Defined.

Lemma strip_color_spec_witness :
  wf sample /\ co_strip_color (cfg := default_config) (flatten sample) = [104; 195; 169].
Proof.
  assert (Hw : wf sample) by (repeat constructor). split; [exact Hw|].
  exact (proj1 (strip_color_spec (cfg := default_config) sample Hw
    ltac:(apply Nat.leb_le; vm_compute; reflexivity))).
Defined.
