(* ===== verification/Words.v ===== *)
(** * Stage 1 of [color_ops.c]: words

    The word functions of [color_ops.c] ([co_words_count], [co_first], [co_rest],
    [co_last], [co_extract]) and the word cursor that the list functions of stage 4 share
    ([wc_init], [wc_next], [count_words], [split_words]).  A word list is the tokens of the
    text cut at every visible delimiter; for the space delimiter the pieces without a
    visible code point are not words. *)

From S2P Require Import Prelude Encoding Scan.

Section Words.
Context {cfg : Config}.

(** ** The functions *)

(** [raw_copy(out, start, end)] *)
Definition raw_copy (start e : bytes) : bytes :=
  let n := length (range start e) in
  let n := if (LBUF_SIZE - 1 <? n)%nat then (LBUF_SIZE - 1)%nat else n in
  take n (range start e).

(** [d ? d : pe] *)
Definition or_pe (d : option bytes) : bytes :=
  match d with Some d => d | None => [] end.

Definition words_count_space (s : bytes * nat) : (bytes * nat) + nat :=
  let '(p, count) := s in
  match p with
  | [] => inr count
  | _ =>
      match co_skip_color p with
      | [] => inr count
      | c :: p' =>
          if c =? 32 then inl (p', count)
          else match co_find_delim (c :: p') 32 with
               | None => inr (S count)
               | Some d => inl (tail d, S count)
               end
      end
  end.

Definition words_count_delim (delim : Z) (s : bytes * nat) : (bytes * nat) + nat :=
  let '(p, count) := s in
  match p with
  | [] => inr count
  | _ => match co_find_delim p delim with
         | None => inr count
         | Some d => inl (tail d, S count)
         end
  end.

Definition co_words_count (data : bytes) (delim : Z) : option nat :=
  if delim =? 32 then iter words_count_space (S (length data)) (data, 0%nat)
  else if (co_visible_length data =? 0)%nat then Some 0%nat
  else iter (words_count_delim delim) (S (length data)) (data, 1%nat).

(** The loop that skips the leading spaces of [co_first]: the state is [p] and
    [content_start]. *)
Definition first_skip (s : bytes * bytes) : (bytes * bytes) + bytes :=
  let '(p, content_start) := s in
  match p with
  | [] => inr content_start
  | _ => match co_skip_color p with
         | [] => inr content_start
         | c :: q => if c =? 32 then inl (q, q) else inr content_start
         end
  end.

Definition co_first (data : bytes) (delim : Z) : option bytes :=
  if delim =? 32 then
    content_start ← iter first_skip (S (length data)) (data, data);
    Some (raw_copy content_start (or_pe (co_find_delim content_start 32)))
  else Some (raw_copy data (or_pe (co_find_delim data delim))).

Definition rest_skip (p : bytes) : bytes + bytes :=
  match p with
  | [] => inr p
  | _ => match co_skip_color p with
         | [] => inr p
         | c :: q => if c =? 32 then inl q else inr (c :: q)
         end
  end.

Definition co_rest (data : bytes) (delim : Z) : option bytes :=
  if delim =? 32 then
    p ← iter rest_skip (S (length data)) data;
    match co_find_delim p 32 with
    | None => Some []
    | Some d => Some (raw_copy (tail d) [])
    end
  else
    match co_find_delim data delim with
    | None => Some []
    | Some d => Some (raw_copy (tail d) [])
    end.

Definition last_scan (delim : Z) (s : bytes * option bytes) : (bytes * option bytes) + option bytes :=
  let '(p, last_delim) := s in
  match p with
  | [] => inr last_delim
  | _ => match co_find_delim p delim with
         | None => inr last_delim
         | Some d => inl (tail d, Some d)
         end
  end.

Definition co_last (data : bytes) (delim : Z) : option bytes :=
  last_delim ← iter (last_scan delim) (S (length data)) (data, None);
  match last_delim with
  | None => Some (raw_copy data [])
  | Some d => Some (raw_copy (tail d) [])
  end.

(** *** [co_extract]

    [iFirst] and [nWords] are [size_t]: their sum wraps at 64 bits. *)

Definition u64 (x : Z) : Z := x mod 2 ^ 64.

Record ex_vars := { ex_p : bytes; ex_out : bytes; ex_iWord : nat; ex_copied : nat }.

(** The body common to both loops once the word [word_start, word_end) is known; [d] is
    the delimiter found.  [inr] is the output at a [break]. *)
Definition extract_word (iFirst nWords osep : Z) (word_start : bytes) (d : option bytes)
    (v : ex_vars) : ex_vars + bytes :=
  let iWord := S (ex_iWord v) in
  let next out copied :=
    match d with
    | None => inr out
    | Some d => inl {| ex_p := tail d; ex_out := out; ex_iWord := iWord; ex_copied := copied |}
    end in
  if (iFirst <=? Z.of_nat iWord) && (Z.of_nat iWord <? u64 (iFirst + nWords)) then
    let out := if (0 <? ex_copied v)%nat then WP_SAFE (ex_out v) osep else ex_out v in
    let out := wp_safe_copy out (range word_start (or_pe d)) in
    let copied := S (ex_copied v) in
    if nWords <=? Z.of_nat copied then inr out else next out copied
  else next (ex_out v) (ex_copied v).

Definition extract_space (iFirst nWords osep : Z) (v : ex_vars) : ex_vars + bytes :=
  if (0 <? length (ex_p v))%nat && (length (ex_out v) <? cap)%nat then
    match co_skip_color (ex_p v) with
    | [] => inr (if (0 <? ex_copied v)%nat then wp_safe_copy (ex_out v) (ex_p v) else ex_out v)
    | c :: q =>
        if c =? 32
        then inl {| ex_p := q; ex_out := ex_out v; ex_iWord := ex_iWord v; ex_copied := ex_copied v |}
        else extract_word iFirst nWords osep (ex_p v) (co_find_delim (c :: q) 32) v
    end
  else inr (ex_out v).

Definition extract_delim (iFirst nWords delim osep : Z) (v : ex_vars) : ex_vars + bytes :=
  extract_word iFirst nWords osep (ex_p v) (co_find_delim (ex_p v) delim) v.

Definition co_extract (data : bytes) (iFirst nWords delim osep : Z) : option bytes :=
  let iFirst := if iFirst =? 0 then 1 else iFirst in
  if (nWords =? 0) || (length data =? 0)%nat then Some []
  else
    let v := {| ex_p := data; ex_out := []; ex_iWord := 0; ex_copied := 0 |} in
    if delim =? 32 then iter (extract_space iFirst nWords osep) (S (length data)) v
    else iter (extract_delim iFirst nWords delim osep) (S (length data)) v.

(** *** The word cursor *)

Record word_cursor_t := {
  wc_p : bytes;
  wc_delim : Z;
  wc_is_space : bool;
  wc_is_empty : bool;
  wc_finished : bool;
  wc_count : nat;
  wc_max_words : nat
}.

Definition wc_init (data : bytes) (delim : Z) (max_words : nat) : word_cursor_t :=
  {| wc_p := data; wc_delim := delim; wc_is_space := delim =? 32;
     wc_is_empty := bool_decide (length data = 0%nat); wc_finished := false;
     wc_count := 0; wc_max_words := max_words |}.

Definition wc_set (c : word_cursor_t) (p : bytes) (count : nat) (finished : bool) : word_cursor_t :=
  {| wc_p := p; wc_delim := wc_delim c; wc_is_space := wc_is_space c;
     wc_is_empty := wc_is_empty c; wc_finished := finished;
     wc_count := count; wc_max_words := wc_max_words c |}.

(** The loop of the space branch of [wc_next]: [Some w] is the word yielded. *)
Definition wc_space_loop (c : word_cursor_t) : word_cursor_t + word_cursor_t * option bytes :=
  if (0 <? length (wc_p c))%nat && (wc_count c <? wc_max_words c)%nat then
    match co_skip_color (wc_p c) with
    | [] => inr (wc_set c (wc_p c) (wc_count c) true, None)
    | ch :: q =>
        if ch =? 32 then inl (wc_set c q (wc_count c) (wc_finished c))
        else
          match co_find_delim (ch :: q) 32 with
          | None => inr (wc_set c (wc_p c) (S (wc_count c)) true, Some (wc_p c))
          | Some d => inr (wc_set c (tail d) (S (wc_count c)) (wc_finished c),
                           Some (range (wc_p c) d))
          end
    end
  else inr (wc_set c (wc_p c) (wc_count c) true, None).

Definition wc_next (c : word_cursor_t) : option (word_cursor_t * option bytes) :=
  if wc_finished c then Some (c, None)
  else if wc_is_space c then iter wc_space_loop (S (length (wc_p c))) c
  else if wc_is_empty c then Some (wc_set c (wc_p c) (wc_count c) true, None)
  else
    let last_word := (wc_set c (wc_p c) (S (wc_count c)) true, Some (wc_p c)) in
    if (wc_count c + 1 <? wc_max_words c)%nat then
      match co_find_delim (wc_p c) (wc_delim c) with
      | Some d => Some (wc_set c (tail d) (S (wc_count c)) false, Some (range (wc_p c) d))
      | None => Some last_word
      end
    else Some last_word.

(** The words a cursor yields until it is exhausted. *)
Fixpoint wc_all (fuel : nat) (c : word_cursor_t) : option (list bytes) :=
  match fuel with
  | O => None
  | S fuel' =>
      '(c', w) ← wc_next c;
      match w with
      | None => Some []
      | Some w => ws ← wc_all fuel' c'; Some (w :: ws)
      end
  end.

Definition split_words (data : bytes) (delim : Z) (max_words : nat) : option (list bytes) :=
  wc_all (S (S (length data))) (wc_init data delim max_words).

Fixpoint wc_count_all (fuel : nat) (c : word_cursor_t) (n : nat) : option nat :=
  match fuel with
  | O => None
  | S fuel' =>
      '(c', w) ← wc_next c;
      match w with
      | None => Some n
      | Some _ => wc_count_all fuel' c' (S n)
      end
  end.

Definition count_words (data : bytes) (delim : Z) (max_words : nat) : option nat :=
  wc_count_all (S (S (length data))) (wc_init data delim max_words) 0.

#[local] Arguments raw_copy : simpl never.
#[local] Arguments co_find_delim : simpl never.

(** ** Segments *)

(** The pieces of a text between the visible delimiters [d]. *)
Fixpoint segs (d : Z) (ts : list tok) : list (list tok) :=
  match ts with
  | [] => [[]]
  | t :: ts' =>
      if decide (t = TVis [d]) then [] :: segs d ts'
      else match segs d ts' with
           | s :: ss => (t :: s) :: ss
           | [] => [[t]]
           end
  end.

(** Putting pieces back together with delimiter [d]. *)
Fixpoint join (d : Z) (ss : list (list tok)) : list tok :=
  match ss with
  | [] => []
  | [s] => s
  | s :: ss' => s ++ TVis [d] :: join d ss'
  end.

Definition has_vis (s : list tok) : bool := existsb is_vis s.

(** The words of a space-separated text. *)
Definition words32 (ts : list tok) : list (list tok) := filter (fun s => has_vis s = true) (segs 32 ts).

(** The words of a text with delimiter [d]. *)
Definition words (d : Z) (ts : list tok) : list (list tok) :=
  if d =? 32 then words32 ts else segs d ts.

(** The pieces from the first one that is a word on. *)
Fixpoint from_word (ss : list (list tok)) : list (list tok) :=
  match ss with
  | [] => []
  | s :: ss' => if has_vis s then ss else from_word ss'
  end.

(** ** Facts about segments *)

Lemma segs_nonempty d ts : segs d ts <> [].
Proof. destruct ts as [|t ts]; cbn; [done|]. case_decide; [done|]. by destruct (segs d ts). Qed.

Lemma segs_none d ts : cut d ts = None -> segs d ts = [ts].
Proof.
  induction ts as [|t ts IH]; intros H; [done|]. cbn in *. case_decide; [done|].
  destruct (cut d ts) as [[l r]|]; [done|]. by rewrite IH.
Qed.

Lemma segs_some d ts l r : cut d ts = Some (l, r) -> segs d ts = l :: segs d r.
Proof.
  revert l. induction ts as [|t ts IH]; intros l H; [done|]. cbn in *. case_decide; [by simplify_eq|].
  destruct (cut d ts) as [[l' r']|]; simplify_eq/=. by rewrite (IH l').
Qed.

Lemma cut_cols d cs ts : has_vis cs = false ->
  cut d (cs ++ ts) = (fun lr => (cs ++ lr.1, lr.2)) <$> cut d ts.
Proof.
  induction cs as [|t cs IH]; intros H; cbn; [by destruct (cut d ts) as [[]|]|].
  cbn in H. apply orb_false_iff in H as [H1 H2]. case_decide; [by subst t|].
  rewrite IH by done. by destruct (cut d ts) as [[]|].
Qed.

Lemma skip_cols_split ts :
  exists cs, ts = cs ++ skip_cols ts /\ has_vis cs = false /\
    (skip_cols ts = [] \/ exists bs us, skip_cols ts = TVis bs :: us).
Proof.
  induction ts as [|[bs|bs] ts (cs & E & Hc & H)].
  - exists []. auto.
  - exists []. eauto 6.
  - exists (TCol bs :: cs). cbn. rewrite <- E. auto.
Qed.

Lemma has_vis_app a b : has_vis (a ++ b) = has_vis a || has_vis b.
Proof. apply existsb_app. Qed.

Lemma wf_vis_head bs ts : wf (TVis bs :: ts) -> exists c bs', bs = c :: bs' /\ (c = 32 -> bs' = []).
Proof.
  intros H. apply wf_cons in H as [H _]. destruct bs as [|c bs]; [done|]. exists c, bs.
  split; [done|]. intros ->. destruct bs as [|b [|c [|d [|e bs]]]]; try done; exfalso; cbn in H;
    unfold cont, in_rng in H; lia.
Qed.

(** How the space loops of [color_ops.c] see a text: nothing visible is left, a space
    comes first, or a word does (the last one, or one that a space ends). *)
Inductive space_view (ts : list tok) : Prop :=
  | sv_end : skip_cols ts = [] -> has_vis ts = false -> cut 32 ts = None -> space_view ts
  | sv_space cs us :
      ts = cs ++ TVis [32] :: us -> has_vis cs = false -> skip_cols ts = TVis [32] :: us ->
      cut 32 ts = Some (cs, us) -> space_view ts
  | sv_last cs c bs us :
      ts = cs ++ TVis (c :: bs) :: us -> skip_cols ts = TVis (c :: bs) :: us ->
      c <> 32 -> has_vis ts = true -> cut 32 (skip_cols ts) = None -> cut 32 ts = None ->
      space_view ts
  | sv_word cs c bs us l r :
      ts = cs ++ TVis (c :: bs) :: us -> skip_cols ts = TVis (c :: bs) :: us ->
      c <> 32 -> has_vis (cs ++ l) = true -> cut 32 (skip_cols ts) = Some (l, r) ->
      cut 32 ts = Some (cs ++ l, r) -> space_view ts.

Lemma space_viewP ts : wf ts -> space_view ts.
Proof.
  intros Hw. destruct (skip_cols_split ts) as (cs & E & Hc & H).
  pose proof (skip_cols_wf ts Hw) as Hw'. remember (skip_cols ts) as q eqn:Eq.
  pose proof (cut_cols 32 cs q Hc) as Hcut. rewrite <- E in Hcut.
  destruct H as [-> | (bs & us & ->)].
  { apply sv_end; [done| |by rewrite Hcut]. by rewrite E, app_nil_r. }
  destruct (wf_vis_head bs us Hw') as (c & bs' & -> & Hsp).
  destruct (decide (c = 32)) as [->|Hne].
  - rewrite (Hsp eq_refl) in *. apply (sv_space ts cs us); try done.
    rewrite Hcut. cbn [cut]. rewrite decide_True by done. cbn. by rewrite app_nil_r.
  - destruct (cut 32 (TVis (c :: bs') :: us)) as [[l r]|] eqn:Ec; cbn in Hcut.
    + apply (sv_word ts cs c bs' us l r); try done; [|by rewrite <- Eq].
      rewrite has_vis_app. apply orb_true_iff. right.
      cbn in Ec. case_decide; [naive_solver|].
      destruct (cut 32 us) as [[]|]; [|done]. by simplify_eq.
    + apply (sv_last ts cs c bs' us); try done; [|by rewrite <- Eq].
      rewrite E, has_vis_app. apply orb_true_iff. by right.
Qed.

Lemma words32_end ts : has_vis ts = false -> cut 32 ts = None -> words32 ts = [].
Proof. intros H Hc. unfold words32. rewrite segs_none, filter_cons by done. rewrite decide_False; [done|congruence]. Qed.
Lemma words32_space ts cs us : has_vis cs = false -> cut 32 ts = Some (cs, us) -> words32 ts = words32 us.
Proof.
  intros H Hc. unfold words32. rewrite (segs_some _ _ _ _ Hc), filter_cons.
  rewrite decide_False; [done|congruence].
Qed.
Lemma words32_last ts : has_vis ts = true -> cut 32 ts = None -> words32 ts = [ts].
Proof. intros H Hc. unfold words32. by rewrite segs_none, filter_cons, decide_True by done. Qed.
Lemma words32_word ts l r : has_vis l = true -> cut 32 ts = Some (l, r) -> words32 ts = l :: words32 r.
Proof. intros H Hc. unfold words32. by rewrite (segs_some _ _ _ _ Hc), filter_cons, decide_True by done. Qed.

(** The bytes of a well-formed text at a token boundary, for the loops' case analysis. *)
Lemma flatten_eq_nil ts : wf ts -> flatten ts = [] -> ts = [].
Proof.
  destruct ts as [|t ts]; intros Hw E; [done|]. apply wf_cons in Hw as [Ht _].
  pose proof (tok_bytes_nonempty t Ht). rewrite flatten_cons in E.
  apply app_eq_nil in E as [E _]. rewrite E in *. cbn in *. lia.
Qed.

Lemma wf_cut d ts l r : wf ts -> cut d ts = Some (l, r) -> wf l /\ wf r.
Proof.
  intros Hw Hc. apply cut_spec in Hc as ->. apply wf_app in Hw as [Hl Hr].
  apply wf_cons in Hr as [_ Hr]. done.
Qed.

Lemma raw_copy_range a b : raw_copy (a ++ b) b = clamp a.
Proof.
  unfold raw_copy, clamp, cap. rewrite range_app.
  destruct (Nat.ltb_spec (LBUF_SIZE - 1) (length a)); [done|]. rewrite !take_ge by lia. done.
Qed.

Lemma raw_copy_nil a : raw_copy a [] = clamp a.
Proof. rewrite <- (raw_copy_range a []). by rewrite app_nil_r. Qed.

Lemma cut_length d ts l r : cut d ts = Some (l, r) -> (length (flatten r) < length (flatten ts))%nat.
Proof.
  intros H. apply cut_spec in H as ->. rewrite flatten_app, flatten_cons, !length_app. cbn. lia.
Qed.

Lemma loop_head {A} ts (x y : A) t us :
  wf ts -> skip_cols ts = t :: us -> match flatten ts with [] => x | _ :: _ => y end = y.
Proof.
  intros Hw Hs. destruct (flatten ts) eqn:E; [|done]. apply flatten_eq_nil in E as ->; done.
Qed.

(** The colour skip and the space search at the head of a loop, from the view. *)
Lemma skip_flatten ts c bs us : wf ts -> skip_cols ts = TVis (c :: bs) :: us ->
  co_skip_color (flatten ts) = c :: bs ++ flatten us.
Proof. intros Hw Hs. by rewrite co_skip_color_flatten, Hs. Qed.

Lemma find_flatten ts c bs us : wf ts -> skip_cols ts = TVis (c :: bs) :: us ->
  co_find_delim (c :: bs ++ flatten us) 32 = (fun lr => 32 :: flatten lr.2) <$> cut 32 (skip_cols ts).
Proof.
  intros Hw Hs. change (c :: bs ++ flatten us) with (flatten (TVis (c :: bs) :: us)).
  rewrite <- Hs. apply co_find_delim_flatten; [by apply skip_cols_wf|lia].
Qed.

Local Ltac head_end ts :=
  match goal with
  | Hw : wf ts, Hs : skip_cols ts = [] |- _ =>
      rewrite (co_skip_color_flatten ts Hw), Hs; cbn [flatten flat_map]
  end.

Lemma words_count_space_total ts fuel :
  wf ts -> (length (flatten ts) < fuel)%nat ->
  iter words_count_space fuel (flatten ts, 0%nat) = Some (length (words32 ts)).
Proof.
  intros Hw Hf.
  destruct (iter_total words_count_space
    (fun s => exists us, wf us /\ s.1 = flatten us /\ (s.2 + length (words32 us) = length (words32 ts))%nat)
    (fun r => r = length (words32 ts)) (fun s => length s.1)) with (fuel := fuel)
    (s := (flatten ts, 0%nat)) as (r & -> & ->); [| |done|done]; [|by exists ts].
  clear. intros [p n] (us & Hw & E & Hn). cbn in E, Hn. subst p.
  unfold words_count_space. destruct (space_viewP us Hw) as
    [Hs Hv Hc | cs vs E Hv Hs Hc | cs c bs vs E Hs Hne Hv Hc' Hc | cs c bs vs l r E Hs Hne Hv Hc' Hc].
  - head_end us. rewrite words32_end in Hn by done. cbn in Hn. destruct (flatten us); cbn; lia.
  - rewrite (loop_head _ _ _ _ _ Hw Hs), (skip_flatten _ _ _ _ Hw Hs). cbn.
    rewrite (words32_space _ _ _ Hv Hc) in Hn.
    split; [|by apply (cut_length 32 us cs)]. exists vs. apply (wf_cut 32) in Hc as [_ ?]; done.
  - rewrite (loop_head _ _ _ _ _ Hw Hs), (skip_flatten _ _ _ _ Hw Hs).
    apply Z.eqb_neq in Hne as ->. rewrite (find_flatten _ _ _ _ Hw Hs), Hc'. cbn.
    rewrite words32_last in Hn by done. cbn in Hn. lia.
  - rewrite (loop_head _ _ _ _ _ Hw Hs), (skip_flatten _ _ _ _ Hw Hs).
    apply Z.eqb_neq in Hne as ->. rewrite (find_flatten _ _ _ _ Hw Hs), Hc'. cbn.
    rewrite (words32_word _ _ _ Hv Hc) in Hn. cbn in Hn.
    split; [|by apply (cut_length 32 us (cs ++ l))]. exists r. apply (wf_cut 32) in Hc as [_ ?]; [|done].
    split_and!; [done|done|lia].
Qed.

Lemma words_count_delim_total d ts n fuel :
  wf ts -> 1 <= d <= 127 -> (length (flatten ts) < fuel)%nat ->
  iter (words_count_delim d) fuel (flatten ts, n) = Some (n + length (segs d ts) - 1)%nat.
Proof.
  intros Hw Hd Hf.
  destruct (iter_total (words_count_delim d)
    (fun s => exists us, wf us /\ s.1 = flatten us /\ (s.2 + length (segs d us) = n + length (segs d ts))%nat)
    (fun r => r = (n + length (segs d ts) - 1)%nat) (fun s => length s.1)) with (fuel := fuel)
    (s := (flatten ts, n)) as (r & -> & ->); [| |done|done]; [|by exists ts].
  clear - Hd. intros [p k] (us & Hw & E & Hn). cbn in E, Hn. subst p. unfold words_count_delim.
  rewrite co_find_delim_flatten by done. destruct (cut d us) as [[l r]|] eqn:Hc; cbn.
  - rewrite (segs_some _ _ _ _ Hc) in Hn. cbn in Hn. destruct (flatten us) eqn:E.
    { apply flatten_eq_nil in E as ->; done. }
    rewrite <- E. split; [|by eapply cut_length]. exists r.
    apply (wf_cut d) in Hc as [_ ?]; [|done]. cbn. split_and!; [done|done|lia].
  - rewrite (segs_none _ _ Hc) in Hn. cbn in Hn. destruct (flatten us); cbn; lia.
Qed.

(** The first word of a space-separated text; without a word, its last piece. *)
Definition first32 (ts : list tok) : list tok :=
  match from_word (segs 32 ts) with
  | s :: _ => s
  | [] => List.last (segs 32 ts) []
  end.

(** What follows the first word of a space-separated text. *)
Definition rest32 (ts : list tok) : list tok := join 32 (tail (from_word (segs 32 ts))).

Lemma join_cons d s ss : ss <> [] -> join d (s :: ss) = s ++ TVis [d] :: join d ss.
Proof. by destruct ss. Qed.

Lemma join_segs d ts : join d (segs d ts) = ts.
Proof.
  remember (length ts) as n eqn:En. revert ts En.
  induction n as [n IH] using lt_wf_ind. intros ts En.
  destruct (cut d ts) as [[l r]|] eqn:Hc; [|by rewrite segs_none].
  rewrite (segs_some _ _ _ _ Hc), join_cons by apply segs_nonempty.
  pose proof (cut_spec _ _ _ _ Hc) as E. rewrite E in En. rewrite length_app in En. cbn in En.
  rewrite (IH (length r)) by lia. done.
Qed.

Lemma last_cons_segs d l ts : List.last (l :: segs d ts) [] = List.last (segs d ts) [].
Proof. pose proof (segs_nonempty d ts). by destruct (segs d ts). Qed.

Lemma raw_copy_first d us : wf us -> 1 <= d <= 127 ->
  raw_copy (flatten us) (or_pe (co_find_delim (flatten us) d)) = clamp (flatten (hd [] (segs d us))).
Proof.
  intros Hw Hd. rewrite co_find_delim_flatten by done.
  destruct (cut d us) as [[l r]|] eqn:Hc; cbn [or_pe fmap option_fmap option_map snd].
  - rewrite (segs_some _ _ _ _ Hc). apply cut_spec in Hc as ->.
    rewrite flatten_app, flatten_cons. apply raw_copy_range.
  - rewrite (segs_none _ _ Hc). apply raw_copy_nil.
Qed.

Lemma first_skip_total ts fuel :
  wf ts -> (length (flatten ts) < fuel)%nat ->
  exists us, iter first_skip fuel (flatten ts, flatten ts) = Some (flatten us) /\ wf us /\
    hd [] (segs 32 us) = first32 ts.
Proof.
  intros Hw Hf.
  destruct (iter_total first_skip
    (fun s => exists us, wf us /\ s = (flatten us, flatten us) /\ first32 us = first32 ts)
    (fun r => exists us, wf us /\ r = flatten us /\ hd [] (segs 32 us) = first32 ts)
    (fun s => length s.1)) with (fuel := fuel) (s := (flatten ts, flatten ts))
    as (r & -> & us & ? & -> & ?); [| |done|by exists us]; [|by exists ts].
  clear. intros s (us & Hw & -> & Hfw). unfold first_skip.
  destruct (space_viewP us Hw) as
    [Hs Hv Hc | cs vs E Hv Hs Hc | cs c bs vs E Hs Hne Hv Hc' Hc | cs c bs vs l r E Hs Hne Hv Hc' Hc].
  - head_end us. assert (hd [] (segs 32 us) = first32 ts).
    { rewrite <- Hfw. unfold first32. rewrite (segs_none _ _ Hc). cbn. by rewrite Hv. }
    destruct (flatten us) eqn:Ef; exists us; done.
  - rewrite (loop_head _ _ _ _ _ Hw Hs), (skip_flatten _ _ _ _ Hw Hs). cbn.
    split; [|by apply (cut_length 32 us cs)]. exists vs.
    pose proof (wf_cut 32 us cs vs Hw Hc) as [_ Hw']. split_and!; [done|done|].
    rewrite <- Hfw. unfold first32. rewrite (segs_some _ _ _ _ Hc), last_cons_segs. cbn. by rewrite Hv.
  - rewrite (loop_head _ _ _ _ _ Hw Hs), (skip_flatten _ _ _ _ Hw Hs).
    apply Z.eqb_neq in Hne as ->. exists us. split_and!; [done|done|]. rewrite <- Hfw.
    unfold first32. rewrite (segs_none _ _ Hc). cbn. by rewrite Hv.
  - rewrite (loop_head _ _ _ _ _ Hw Hs), (skip_flatten _ _ _ _ Hw Hs).
    apply Z.eqb_neq in Hne as ->. exists us. split_and!; [done|done|]. rewrite <- Hfw.
    unfold first32. rewrite (segs_some _ _ _ _ Hc). cbn. by rewrite Hv.
Qed.

Lemma rest_skip_total ts fuel :
  wf ts -> (length (flatten ts) < fuel)%nat ->
  exists us, iter rest_skip fuel (flatten ts) = Some (flatten us) /\ wf us /\
    match cut 32 us with Some (_, r) => r | None => [] end = rest32 ts.
Proof.
  intros Hw Hf.
  destruct (iter_total rest_skip
    (fun s => exists us, wf us /\ s = flatten us /\ rest32 us = rest32 ts)
    (fun r => exists us, wf us /\ r = flatten us /\
       match cut 32 us with Some (_, r) => r | None => [] end = rest32 ts)
    (fun s => length s)) with (fuel := fuel) (s := flatten ts)
    as (r & -> & us & ? & -> & ?); [| |done|by exists us]; [|by exists ts].
  clear. intros s (us & Hw & -> & Hfw). unfold rest_skip.
  destruct (space_viewP us Hw) as
    [Hs Hv Hc | cs vs E Hv Hs Hc | cs c bs vs E Hs Hne Hv Hc' Hc | cs c bs vs l r E Hs Hne Hv Hc' Hc].
  - head_end us. assert ([] = rest32 ts).
    { rewrite <- Hfw. unfold rest32. rewrite (segs_none _ _ Hc). cbn. by rewrite Hv. }
    destruct (flatten us) eqn:Ef; exists us; by rewrite Hc.
  - rewrite (loop_head _ _ _ _ _ Hw Hs), (skip_flatten _ _ _ _ Hw Hs). cbn.
    split; [|by apply (cut_length 32 us cs)]. exists vs.
    pose proof (wf_cut 32 us cs vs Hw Hc) as [_ Hw']. split_and!; [done|done|].
    rewrite <- Hfw. unfold rest32. rewrite (segs_some _ _ _ _ Hc). cbn. by rewrite Hv.
  - rewrite (loop_head _ _ _ _ _ Hw Hs), (skip_flatten _ _ _ _ Hw Hs).
    apply Z.eqb_neq in Hne as ->. exists (skip_cols us).
    split_and!; [by apply skip_cols_wf|by rewrite Hs|]. rewrite Hc', <- Hfw.
    unfold rest32. rewrite (segs_none _ _ Hc). cbn. by rewrite Hv.
  - rewrite (loop_head _ _ _ _ _ Hw Hs), (skip_flatten _ _ _ _ Hw Hs).
    apply Z.eqb_neq in Hne as ->. exists (skip_cols us).
    split_and!; [by apply skip_cols_wf|by rewrite Hs|]. rewrite Hc', <- Hfw.
    unfold rest32. rewrite (segs_some _ _ _ _ Hc). cbn [from_word]. rewrite Hv. cbn. by rewrite join_segs.
Qed.

Lemma last_scan_total d ts fuel :
  wf ts -> 1 <= d <= 127 -> (length (flatten ts) < fuel)%nat ->
  exists r, iter (last_scan d) fuel (flatten ts, None) = Some r /\
    match r with None => flatten ts | Some d => tail d end = flatten (List.last (segs d ts) []).
Proof.
  intros Hw Hd Hf.
  apply (iter_total (last_scan d)
    (fun s => exists us, wf us /\ s.1 = flatten us /\
       match s.2 with None => flatten ts | Some d => tail d end = flatten us /\
       List.last (segs d us) [] = List.last (segs d ts) [])
    (fun r => match r with None => flatten ts | Some d => tail d end = flatten (List.last (segs d ts) []))
    (fun s => length s.1)); [|by exists ts|done].
  clear - Hd. intros [p ld] (us & Hw & E & Hl & Hfw). cbn in E, Hl. subst p. unfold last_scan.
  rewrite co_find_delim_flatten by done. destruct (cut d us) as [[l r]|] eqn:Hc; cbn.
  - destruct (flatten us) eqn:E. { apply flatten_eq_nil in E as ->; done. }
    rewrite <- E. split; [|by eapply cut_length]. exists r.
    pose proof (wf_cut d us l r Hw Hc) as [_ Hw']. split_and!; [done|done|done|].
    rewrite <- Hfw. by rewrite (segs_some _ _ _ _ Hc), last_cons_segs.
  - rewrite (segs_none _ _ Hc) in Hfw. cbn in Hfw. rewrite <- Hfw. by destruct (flatten us).
Qed.

Lemma co_words_count_flatten ts d : wf ts -> 1 <= d <= 127 ->
  co_words_count (flatten ts) d =
  Some (if d =? 32 then length (words32 ts)
        else if (nvis ts =? 0)%nat then 0%nat else length (segs d ts)).
Proof.
  intros Hw Hd. unfold co_words_count. destruct (d =? 32).
  - by apply words_count_space_total; [|lia].
  - rewrite co_visible_length_flatten by done. destruct (nvis ts =? 0)%nat; [done|].
    rewrite words_count_delim_total by (done || lia). f_equal. lia.
Qed.

Lemma co_first_flatten ts d : wf ts -> 1 <= d <= 127 ->
  co_first (flatten ts) d =
  Some (clamp (flatten (if d =? 32 then first32 ts else hd [] (segs d ts)))).
Proof.
  intros Hw Hd. unfold co_first. destruct (d =? 32).
  - destruct (first_skip_total ts (S (length (flatten ts))) Hw ltac:(lia)) as (us & -> & Hus & E).
    cbn [mbind option_bind]. rewrite raw_copy_first by (done || lia). by rewrite E.
  - by rewrite raw_copy_first.
Qed.

Lemma co_rest_flatten ts d : wf ts -> 1 <= d <= 127 ->
  co_rest (flatten ts) d =
  Some (clamp (flatten (if d =? 32 then rest32 ts else join d (tail (segs d ts))))).
Proof.
  intros Hw Hd. unfold co_rest. destruct (d =? 32).
  - destruct (rest_skip_total ts (S (length (flatten ts))) Hw ltac:(lia)) as (us & -> & Hus & <-).
    cbn [mbind option_bind]. rewrite co_find_delim_flatten by (done || lia).
    destruct (cut 32 us) as [[l r]|]; cbn; [by rewrite raw_copy_nil|by rewrite clamp_nil].
  - rewrite co_find_delim_flatten by done. destruct (cut d ts) as [[l r]|] eqn:Hc; cbn.
    + rewrite (segs_some _ _ _ _ Hc). cbn. by rewrite join_segs, raw_copy_nil.
    + rewrite (segs_none _ _ Hc). cbn. by rewrite clamp_nil.
Qed.

Lemma co_last_flatten ts d : wf ts -> 1 <= d <= 127 ->
  co_last (flatten ts) d = Some (clamp (flatten (List.last (segs d ts) []))).
Proof.
  intros Hw Hd. unfold co_last.
  destruct (last_scan_total d ts (S (length (flatten ts))) Hw Hd ltac:(lia)) as (r & -> & <-).
  cbn. destruct r; by rewrite raw_copy_nil.
Qed.

(** ** [co_extract] *)

(** Words with the separator [o] before every one but the first of a list; [started]
    says that words came before. *)
Fixpoint emit (o : Z) (started : bool) (ws : list bytes) : bytes :=
  match ws with
  | [] => []
  | w :: ws' => (if started then [o] else []) ++ w ++ emit o true ws'
  end.

(** The colour that ends a space-separated text after its last word. *)
Definition trailing (ts : list tok) : list tok :=
  let s := List.last (segs 32 ts) [] in if has_vis s then [] else s.

(** The words [iFirst .. iFirst + nWords - 1] of a list (1-based). *)
Definition select {A} (iFirst nWords : nat) (ws : list A) : list A :=
  take nWords (drop (iFirst - 1) ws).

(** What [co_extract] still has to write at the tokens [us], with [i] words seen. *)
Definition extract_rem (space : bool) (d : Z) (f n : nat) (osep : Z) (us : list tok) (i : nat) : bytes :=
  let copied := (i - (f - 1))%nat in
  let sel := select (f - i) (n - copied) (if space then words32 us else segs d us) in
  emit osep (0 <? copied)%nat (map flatten sel) ++
  (if space && (0 <? copied + length sel)%nat && (copied + length sel <? n)%nat
   then flatten (trailing us) else []).

Section Extract.
Context (f n : nat) (osep : Z).
Context (Hf : (1 <= f)%nat) (Hn : (1 <= n)%nat) (Hfn : Z.of_nat f + Z.of_nat n < 2 ^ 64).

Lemma extract_rem_take (sp : bool) d us r w i :
  (f <= S i)%nat -> (i - (f - 1) < n)%nat ->
  (if sp then words32 us else segs d us) = w :: (if sp then words32 r else segs d r) ->
  (sp = true -> trailing us = trailing r) ->
  extract_rem sp d f n osep us i =
  (if (0 <? i - (f - 1))%nat then [osep] else []) ++ flatten w ++ extract_rem sp d f n osep r (S i).
Proof.
  intros Hi Hc Hw Ht. unfold extract_rem, select. rewrite Hw.
  replace (f - i - 1)%nat with 0%nat by lia. replace (f - S i - 1)%nat with 0%nat by lia.
  rewrite !drop_0. replace (n - (i - (f - 1)))%nat with (S (n - (S i - (f - 1)))) by lia.
  cbn [take map emit length]. replace (0 <? S i - (f - 1))%nat with true by (symmetry; apply Nat.ltb_lt; lia).
  rewrite <- !app_assoc. do 4 f_equal.
  match goal with |- context [length ?sel] =>
    replace (S i - (f - 1) + length sel)%nat with (i - (f - 1) + S (length sel))%nat by lia
  end. destruct sp; [by rewrite Ht|done].
Qed.

Lemma extract_rem_skip (sp : bool) d us r w i :
  (S i < f)%nat ->
  (if sp then words32 us else segs d us) = w :: (if sp then words32 r else segs d r) ->
  (sp = true -> trailing us = trailing r) ->
  extract_rem sp d f n osep us i = extract_rem sp d f n osep r (S i).
Proof.
  intros Hi Hw Ht. unfold extract_rem, select. rewrite Hw.
  replace (f - i - 1)%nat with (S (f - S i - 1)) by lia.
  replace (S i - (f - 1))%nat with 0%nat by lia. replace (i - (f - 1))%nat with 0%nat by lia.
  destruct sp; [by rewrite Ht|done].
Qed.

(** Nothing is left to write once [nWords] words are out. *)
Lemma extract_rem_full (sp : bool) d us i : (n <= i - (f - 1))%nat -> extract_rem sp d f n osep us i = [].
Proof.
  intros H. unfold extract_rem, select. replace (n - (i - (f - 1)))%nat with 0%nat by lia.
  rewrite take_0. cbn [map emit app length].
  replace (i - (f - 1) + 0 <? n)%nat with false by (symmetry; apply Nat.ltb_ge; lia).
  by rewrite andb_false_r.
Qed.

Lemma extract_rem_nil (sp : bool) d us i :
  (if sp then words32 us else segs d us) = [] -> (i - (f - 1) < n)%nat ->
  extract_rem sp d f n osep us i =
  if sp && (0 <? i - (f - 1))%nat then flatten (trailing us) else [].
Proof.
  intros Hw Hi. unfold extract_rem, select. rewrite Hw, drop_nil, take_nil. cbn [map emit app length].
  rewrite Nat.add_0_r. replace (i - (f - 1) <? n)%nat with true by (symmetry; by apply Nat.ltb_lt).
  by rewrite andb_true_r.
Qed.

(** The step of either loop at a word [w], with the rest [r] after a delimiter. *)
Lemma extract_word_step (sp : bool) d us w i o ws b nxt :
  (i - (f - 1) < n)%nat ->
  range ws (or_pe ((fun r => b :: flatten r) <$> nxt)) = flatten w ->
  match nxt with
  | None => (if sp then words32 us else segs d us) = [w] /\ (sp = true -> trailing us = [])
  | Some r =>
      (if sp then words32 us else segs d us) = w :: (if sp then words32 r else segs d r) /\
      (sp = true -> trailing us = trailing r)
  end ->
  match extract_word (Z.of_nat f) (Z.of_nat n) osep ws ((fun r => b :: flatten r) <$> nxt)
    {| ex_p := ws; ex_out := clamp o; ex_iWord := i; ex_copied := i - (f - 1) |} with
  | inr out => out = clamp (o ++ extract_rem sp d f n osep us i)
  | inl v => exists r o', nxt = Some r /\
      v = {| ex_p := flatten r; ex_out := clamp o'; ex_iWord := S i; ex_copied := S i - (f - 1) |} /\
      (S i - (f - 1) < n)%nat /\
      clamp (o' ++ extract_rem sp d f n osep r (S i)) = clamp (o ++ extract_rem sp d f n osep us i)
  end.
Proof.
  intros Hi Hr Hd. unfold extract_word. cbn [ex_p ex_out ex_iWord ex_copied]. rewrite Hr.
  replace (u64 (Z.of_nat f + Z.of_nat n)) with (Z.of_nat f + Z.of_nat n)
    by (unfold u64; rewrite Z.mod_small; lia).
  rewrite (Zleb_of_nat n).
  destruct (decide (f <= S i)%nat) as [Hfi|Hfi].
  - replace ((Z.of_nat f <=? Z.of_nat (S i)) && (Z.of_nat (S i) <? Z.of_nat f + Z.of_nat n))
      with true by (symmetry; apply andb_true_intro; split; [apply Z.leb_le|apply Z.ltb_lt]; lia).
    set (sep := if (0 <? i - (f - 1))%nat then [osep] else []).
    replace (if (0 <? i - (f - 1))%nat then WP_SAFE (clamp o) osep else clamp o) with (clamp (o ++ sep))
      by (subst sep; destruct (0 <? i - (f - 1))%nat; by rewrite ?app_nil_r, ?WP_SAFE_clamp).
    rewrite wp_safe_copy_clamp. destruct nxt as [r|]; cbn [fmap option_fmap option_map tail].
    + destruct Hd as (Hw & Ht).
      pose proof (extract_rem_take sp d us r w i Hfi Hi Hw Ht) as E. fold sep in E.
      destruct (Nat.leb_spec n (S (i - (f - 1)))).
      * rewrite E, (extract_rem_full _ _ _ (S i)) by lia. by rewrite app_nil_r, <- app_assoc.
      * exists r, ((o ++ sep) ++ flatten w). split_and!; [done| |lia|].
        -- by replace (S i - (f - 1))%nat with (S (i - (f - 1))) by lia.
        -- by rewrite E, <- !app_assoc.
    + destruct Hd as [Hw Ht].
      assert (E : extract_rem sp d f n osep us i = sep ++ flatten w).
      { unfold extract_rem, select. rewrite Hw. replace (f - i - 1)%nat with 0%nat by lia.
        rewrite drop_0. destruct (n - (i - (f - 1)))%nat eqn:En; [lia|].
        cbn [take map emit]. rewrite take_nil, app_nil_r. fold sep.
        destruct sp; cbn [andb]; rewrite ?(Ht eq_refl); [|by rewrite app_nil_r].
        destruct (_ && _); by rewrite app_nil_r. }
      rewrite E, <- app_assoc. by destruct (n <=? S (i - (f - 1)))%nat.
  - replace ((Z.of_nat f <=? Z.of_nat (S i)) && (Z.of_nat (S i) <? Z.of_nat f + Z.of_nat n))
      with false by (symmetry; apply andb_false_intro1, Z.leb_gt; lia).
    destruct nxt as [r|]; cbn [fmap option_fmap option_map tail].
    + destruct Hd as (Hw & Ht). exists r, o. split_and!; [done| |lia|].
      * by replace (S i - (f - 1))%nat with (i - (f - 1))%nat by lia.
      * by rewrite (extract_rem_skip sp d us r w i) by (done || lia).
    + destruct Hd as [Hw Ht]. unfold extract_rem, select. rewrite Hw.
      replace (f - i - 1)%nat with (S (f - i - 2)) by lia. cbn. rewrite drop_nil, take_nil.
      replace (i - (f - 1))%nat with 0%nat by lia. cbn. by rewrite andb_false_r, app_nil_r.
Qed.

Lemma trailing_cut us l r : cut 32 us = Some (l, r) -> trailing us = trailing r.
Proof. intros Hc. unfold trailing. by rewrite (segs_some _ _ _ _ Hc), last_cons_segs. Qed.
Lemma trailing_none us : cut 32 us = None -> trailing us = if has_vis us then [] else us.
Proof. intros Hc. unfold trailing. by rewrite (segs_none _ _ Hc). Qed.

(** What the loop keeps: the words already copied and those still to copy make [T]. *)
Definition extract_inv (T : bytes) (v : ex_vars) : Prop :=
  exists us o i, wf us /\
    v = {| ex_p := flatten us; ex_out := clamp o; ex_iWord := i; ex_copied := i - (f - 1) |} /\
    (i - (f - 1) < n)%nat /\ clamp (o ++ extract_rem true 32 f n osep us i) = T.

Lemma extract_space_step T v : extract_inv T v ->
  match extract_space (Z.of_nat f) (Z.of_nat n) osep v with
  | inl v' => extract_inv T v' /\ (length (ex_p v') < length (ex_p v))%nat
  | inr out => out = T
  end.
Proof.
  intros (us & o & i & Hw & -> & Hi & HT). unfold extract_space.
  cbn [ex_p ex_out ex_iWord ex_copied].
  destruct (Nat.ltb_spec (length (clamp o)) cap) as [Hcap|Hcap].
  2: { rewrite andb_false_r. rewrite <- HT. by rewrite clamp_full. }
  destruct (space_viewP us Hw) as
    [Hs Hv Hc | cs vs E Hv Hs Hc | cs c bs vs E Hs Hne Hv Hc' Hc | cs c bs vs l r E Hs Hne Hv Hc' Hc].
  - head_end us. rewrite extract_rem_nil in HT by (done || by apply words32_end).
    rewrite (trailing_none us Hc), Hv in HT. cbn [andb] in HT.
    destruct (Nat.ltb_spec 0 (length (flatten us))) as [|Hz]; cbn [andb].
    + destruct (0 <? i - (f - 1))%nat; [by rewrite wp_safe_copy_clamp|by rewrite app_nil_r in HT].
    + destruct (flatten us); [|cbn in Hz; lia]. rewrite <- HT. by destruct (0 <? _)%nat; rewrite app_nil_r.
  - pose proof (cut_length 32 us cs vs Hc). pose proof (wf_cut 32 us cs vs Hw Hc) as [_ Hw'].
    replace (0 <? length (flatten us))%nat with true by (symmetry; apply Nat.ltb_lt; lia).
    rewrite (skip_flatten _ _ _ _ Hw Hs). cbn [andb app ex_p]. rewrite Z.eqb_refl.
    split; [|done]. exists vs, o, i. split_and!; [done|done|done|]. rewrite <- HT. unfold extract_rem.
    by rewrite (words32_space us cs vs Hv Hc), (trailing_cut us cs vs Hc).
  - replace (0 <? length (flatten us))%nat with true.
    2: { symmetry. apply Nat.ltb_lt. rewrite E, flatten_app, flatten_cons, !length_app. cbn. lia. }
    rewrite (skip_flatten _ _ _ _ Hw Hs). cbn [andb]. apply Z.eqb_neq in Hne as ->.
    rewrite (find_flatten _ _ _ _ Hw Hs), Hc'. cbn [fmap option_fmap option_map].
    assert (Hd : words32 us = [us] /\ (true = true -> trailing us = [])).
    { split; [by apply words32_last|]. intros _. by rewrite trailing_none, Hv by done. }
    pose proof (extract_word_step true 32 us us i o (flatten us) 32 None Hi (range_nil _) Hd) as Hst.
    cbn [fmap option_fmap option_map] in Hst.
    destruct (extract_word _ _ _ _ _ _); [by destruct Hst as (? & ? & ? & _)|by rewrite Hst].
  - pose proof (cut_length 32 us _ _ Hc). pose proof (wf_cut 32 us _ _ Hw Hc) as [_ Hw'].
    replace (0 <? length (flatten us))%nat with true by (symmetry; apply Nat.ltb_lt; lia).
    rewrite (skip_flatten _ _ _ _ Hw Hs). cbn [andb]. apply Z.eqb_neq in Hne as ->.
    rewrite (find_flatten _ _ _ _ Hw Hs), Hc'. cbn [fmap option_fmap option_map snd].
    assert (Hr : range (flatten us) (32 :: flatten r) = flatten (cs ++ l)).
    { apply cut_spec in Hc. rewrite Hc at 1. by rewrite flatten_app, flatten_cons, range_app. }
    assert (Hd : words32 us = (cs ++ l) :: words32 r /\ (true = true -> trailing us = trailing r)).
    { split; [by apply words32_word|]. intros _. by apply (trailing_cut us (cs ++ l)). }
    pose proof (extract_word_step true 32 us (cs ++ l) i o (flatten us) 32 (Some r) Hi Hr Hd) as Hst.
    cbn [fmap option_fmap option_map] in Hst.
    destruct (extract_word _ _ _ _ _ _) as [v|out]; [|by rewrite Hst].
    destruct Hst as (r' & o' & [= <-] & -> & Hi' & HT'). cbn [ex_p]. split; [|done].
    exists r, o', (S i). split_and!; [done|done|done|]. by rewrite <- HT, <- HT'.
Qed.

Lemma extract_space_total ts fuel :
  wf ts -> (length (flatten ts) < fuel)%nat ->
  iter (extract_space (Z.of_nat f) (Z.of_nat n) osep) fuel
    {| ex_p := flatten ts; ex_out := []; ex_iWord := 0; ex_copied := 0 |} =
  Some (clamp (extract_rem true 32 f n osep ts 0)).
Proof.
  intros Hw Hl. set (T := clamp (extract_rem true 32 f n osep ts 0)).
  destruct (iter_total (extract_space (Z.of_nat f) (Z.of_nat n) osep) (extract_inv T)
    (fun out => out = T) (fun v => length (ex_p v))) with (fuel := fuel)
    (s := {| ex_p := flatten ts; ex_out := []; ex_iWord := 0; ex_copied := 0 |})
    as (r & -> & ->); [apply extract_space_step| |done|done].
  exists ts, [], 0%nat. rewrite clamp_nil. split_and!; [done|done|lia|done].
Qed.

Lemma extract_delim_total d ts fuel :
  wf ts -> 1 <= d <= 127 -> (length (flatten ts) < fuel)%nat ->
  iter (extract_delim (Z.of_nat f) (Z.of_nat n) d osep) fuel
    {| ex_p := flatten ts; ex_out := []; ex_iWord := 0; ex_copied := 0 |} =
  Some (clamp (extract_rem false d f n osep ts 0)).
Proof.
  intros Hw Hd Hl.
  set (T := clamp (extract_rem false d f n osep ts 0)).
  destruct (iter_total (extract_delim (Z.of_nat f) (Z.of_nat n) d osep)
    (fun v => exists us o i, wf us /\
       v = {| ex_p := flatten us; ex_out := clamp o; ex_iWord := i; ex_copied := i - (f - 1) |} /\
       (i - (f - 1) < n)%nat /\ clamp (o ++ extract_rem false d f n osep us i) = T)
    (fun out => out = T) (fun v => length (ex_p v))) with (fuel := fuel)
    (s := {| ex_p := flatten ts; ex_out := []; ex_iWord := 0; ex_copied := 0 |})
    as (r & -> & ->); [| |done|done].
  2: { exists ts, [], 0%nat. rewrite clamp_nil. split_and!; [done|done|lia|done]. }
  clearbody T. clear Hl Hw. intros v (us & o & i & Hw & -> & Hi & HT). unfold extract_delim.
  cbn [ex_p]. rewrite co_find_delim_flatten by done.
  set (nxt := snd <$> cut d us).
  replace ((fun lr : list tok * list tok => d :: flatten lr.2) <$> cut d us)
    with ((fun r => d :: flatten r) <$> nxt) by (subst nxt; by destruct (cut d us) as [[]|]).
  pose proof (extract_word_step false d us (hd [] (segs d us)) i o (flatten us) d nxt Hi) as Hst.
  destruct (cut d us) as [[l r]|] eqn:Hc; cbn in nxt; subst nxt.
  - specialize (Hst ltac:(cbn [fmap option_fmap option_map or_pe]; rewrite (segs_some _ _ _ _ Hc);
      apply cut_spec in Hc; rewrite Hc at 1; by rewrite flatten_app, flatten_cons, range_app)
      ltac:(by rewrite (segs_some _ _ _ _ Hc))).
    pose proof (cut_length d us _ _ Hc). pose proof (wf_cut d us _ _ Hw Hc) as [_ Hw'].
    destruct (extract_word _ _ _ _ _ _) as [v|out]; [|by rewrite Hst].
    destruct Hst as (r' & o' & [= <-] & -> & Hi' & HT'). cbn [ex_p]. split; [|done].
    exists r, o', (S i). split_and!; [done|done|done|]. by rewrite <- HT, <- HT'.
  - specialize (Hst ltac:(rewrite (segs_none _ _ Hc); apply range_nil)
      ltac:(by rewrite (segs_none _ _ Hc))).
    destruct (extract_word _ _ _ _ _ _); [by destruct Hst as (? & ? & ? & _)|by rewrite Hst].
Qed.
End Extract.

(** The words that [co_extract] selects, with the colour that ends the text when it
    reaches its end. *)
Definition extracted (d : Z) (f n : nat) (osep : Z) (ts : list tok) : bytes :=
  let sel := select f n (words d ts) in
  emit osep false (map flatten sel) ++
  (if (d =? 32) && (0 <? length sel)%nat && (length sel <? n)%nat then flatten (trailing ts) else []).

Lemma words_nil d : words d [] = if d =? 32 then [] else [[]].
Proof. unfold words, words32. by destruct (d =? 32). Qed.

Lemma select_singleton_nil f n : map flatten (select f n [[]]) = [] \/ map flatten (select f n [[]]) = [[]].
Proof.
  unfold select. destruct (f - 1)%nat as [|k]; cbn; [|rewrite drop_nil, take_nil; auto].
  destruct n; cbn; [auto|]. rewrite take_nil. auto.
Qed.

Lemma extracted_nil d f n osep : extracted d f n osep [] = [].
Proof.
  unfold extracted. rewrite words_nil. destruct (d =? 32); cbn [andb].
  - unfold select. rewrite drop_nil, take_nil. done.
  - rewrite app_nil_r. by destruct (select_singleton_nil f n) as [-> | ->].
Qed.

Lemma extracted_zero d f osep ts : extracted d f 0 osep ts = [].
Proof. unfold extracted, select. rewrite take_0. cbn. by rewrite andb_false_r. Qed.

Lemma co_extract_flatten ts d f n osep :
  wf ts -> 1 <= d <= 127 -> Z.of_nat (Nat.max f 1) + Z.of_nat n < 2 ^ 64 ->
  co_extract (flatten ts) (Z.of_nat f) (Z.of_nat n) d osep =
  Some (clamp (extracted d (Nat.max f 1) n osep ts)).
Proof.
  intros Hw Hd Hfn. unfold co_extract.
  destruct n as [|n]; [rewrite extracted_zero; by rewrite clamp_nil|].
  replace (Z.of_nat (S n) =? 0) with false by (symmetry; apply Z.eqb_neq; lia). cbn [orb].
  destruct (Nat.eqb_spec (length (flatten ts)) 0) as [E|E].
  { apply nil_length_inv, flatten_eq_nil in E as ->; [|done]. by rewrite extracted_nil, clamp_nil. }
  replace (if Z.of_nat f =? 0 then 1 else Z.of_nat f) with (Z.of_nat (Nat.max f 1))
    by (destruct (Z.eqb_spec (Z.of_nat f) 0); lia).
  unfold extracted, words. destruct (Z.eqb_spec d 32) as [->|Hne].
  - rewrite extract_space_total by (done || lia). unfold extract_rem.
    by replace (0 - (Nat.max f 1 - 1))%nat with 0%nat by lia; rewrite !Nat.sub_0_r.
  - rewrite extract_delim_total by (done || lia). unfold extract_rem.
    by replace (0 - (Nat.max f 1 - 1))%nat with 0%nat by lia; rewrite !Nat.sub_0_r.
Qed.

(** ** The word cursor *)

(** The pieces under the cap of [max] words: the last one swallows the rest. *)
Fixpoint capped (d : Z) (max : nat) (ss : list (list tok)) : list (list tok) :=
  match ss with
  | [] => [[]]
  | s :: ss' =>
      match ss' with
      | [] => [s]
      | _ => if (2 <=? max)%nat then s :: capped d (max - 1) ss' else [join d ss]
      end
  end.

(** The words that a cursor with the cap [max] yields. *)
Definition cursor_words (d : Z) (max : nat) (ts : list tok) : list (list tok) :=
  if d =? 32 then take max (words32 ts)
  else match ts with [] => [] | _ => capped d max (segs d ts) end.

(** A cursor that has yielded [k] words and stands at the tokens [us]. *)
Record cursor_at (d : Z) (max k : nat) (us : list tok) (c : word_cursor_t) : Prop := {
  ca_p : wc_p c = flatten us;
  ca_wf : wf us;
  ca_delim : wc_delim c = d;
  ca_space : wc_is_space c = (d =? 32);
  ca_empty : wc_is_space c = false -> wc_is_empty c = false;
  ca_finished : wc_finished c = false;
  ca_count : wc_count c = k;
  ca_max : wc_max_words c = max
}.

Lemma wc_space_loop_total max k us c fuel :
  cursor_at 32 max k us c -> (k < max)%nat -> (length (flatten us) < fuel)%nat ->
  exists c' ow, iter wc_space_loop fuel c = Some (c', ow) /\
    match words32 us with
    | [] => ow = None
    | w :: ws => ow = Some (flatten w) /\
        (wc_finished c' = true /\ ws = [] \/
         exists r, cursor_at 32 max (S k) r c' /\ words32 r = ws /\
           (length (flatten r) < length (flatten us))%nat)
    end.
Proof.
  revert us c. induction fuel as [|fuel IH]; intros us c [Hp Hw Hd Hsp He Hf Hk Hm] Hlt Hl; [lia|].
  cbn. unfold wc_space_loop. rewrite Hp, Hk, Hm.
  replace (k <? max)%nat with true by (symmetry; by apply Nat.ltb_lt).
  destruct (space_viewP us Hw) as
    [Hs Hv Hc | cs vs E Hv Hs Hc | cs ch bs vs E Hs Hne Hv Hc' Hc | cs ch bs vs l r E Hs Hne Hv Hc' Hc].
  - head_end us. rewrite words32_end by done.
    destruct ((0 <? length (flatten us))%nat && true); eauto.
  - pose proof (cut_length 32 us cs vs Hc). rewrite (words32_space _ _ _ Hv Hc).
    replace (0 <? length (flatten us))%nat with true by (symmetry; apply Nat.ltb_lt; lia).
    rewrite (skip_flatten _ _ _ _ Hw Hs). cbn [andb app]. rewrite Z.eqb_refl.
    pose proof (wf_cut 32 us cs vs Hw Hc) as [_ Hw'].
    destruct (IH vs (wc_set c (flatten vs) k (wc_finished c))) as (c' & ow & Hi & Hr);
      [by constructor|done|lia|].
    exists c', ow. split; [done|]. destruct (words32 vs) as [|w ws]; [done|].
    destruct Hr as [? [?|(r & ? & ? & ?)]]; split; auto. right. exists r. split_and!; [done|done|lia].
  - rewrite words32_last by done.
    replace (0 <? length (flatten us))%nat with true.
    2: { symmetry. apply Nat.ltb_lt. rewrite E, flatten_app, flatten_cons, !length_app. cbn. lia. }
    rewrite (skip_flatten _ _ _ _ Hw Hs). cbn [andb]. apply Z.eqb_neq in Hne as ->.
    rewrite (find_flatten _ _ _ _ Hw Hs), Hc'. cbn. eexists _, _. split; [done|]. split; [done|]. by left.
  - pose proof (cut_length 32 us _ _ Hc). rewrite (words32_word _ _ _ Hv Hc).
    replace (0 <? length (flatten us))%nat with true by (symmetry; apply Nat.ltb_lt; lia).
    rewrite (skip_flatten _ _ _ _ Hw Hs). cbn [andb]. apply Z.eqb_neq in Hne as ->.
    rewrite (find_flatten _ _ _ _ Hw Hs), Hc'. cbn [fmap option_fmap option_map snd tail].
    pose proof (wf_cut 32 us _ _ Hw Hc) as [_ Hw'].
    eexists _, _. split; [done|]. split.
    + apply cut_spec in Hc. rewrite Hc at 1. by rewrite flatten_app, flatten_cons, range_app.
    + right. exists r. split_and!; [by constructor|done|done].
Qed.

Lemma wc_all_finished fuel c : wc_finished c = true -> wc_all (S fuel) c = Some [].
Proof. intros H. cbn. unfold wc_next. by rewrite H. Qed.

Lemma wc_all_space max fuel k us c :
  cursor_at 32 max k us c -> (length (flatten us) + 1 < fuel)%nat ->
  wc_all fuel c = Some (map flatten (take (max - k) (words32 us))).
Proof.
  revert k us c. induction fuel as [|fuel IH]; intros k us c Hc Hl; [lia|].
  cbn. unfold wc_next. rewrite (ca_finished _ _ _ _ _ Hc), (ca_space _ _ _ _ _ Hc).
  change (32 =? 32) with true. cbn iota. rewrite (ca_p _ _ _ _ _ Hc).
  destruct (Nat.lt_ge_cases k max) as [Hk|Hk].
  2: { replace (max - k)%nat with 0%nat by lia. cbn. unfold wc_space_loop.
       rewrite (ca_count _ _ _ _ _ Hc), (ca_max _ _ _ _ _ Hc).
       replace (k <? max)%nat with false by (symmetry; by apply Nat.ltb_ge).
       by rewrite andb_false_r. }
  destruct (wc_space_loop_total max k us c (S (length (flatten us))) Hc Hk ltac:(lia))
    as (c' & ow & -> & Hr). cbn [mbind option_bind].
  destruct (words32 us) as [|w ws] eqn:Ew; [subst ow; by rewrite take_nil|].
  replace (max - k)%nat with (S (max - S k)) by lia. cbn [take map].
  destruct Hr as [-> [[Hf ->]|(r & Hr & <- & Hlr)]].
  - destruct fuel; [lia|]. rewrite wc_all_finished by done. by rewrite take_nil.
  - by rewrite (IH (S k) r c' Hr) by lia.
Qed.

Lemma capped_one d m ss : (m <= 1)%nat -> capped d m ss = [join d ss].
Proof. destruct m as [|[|m]]; [by destruct ss as [|? []]|by destruct ss as [|? []]|lia]. Qed.

Lemma capped_single d m s : capped d m [s] = [s].
Proof. done. Qed.

Lemma capped_cons d m s ss : ss <> [] -> capped d (S (S m)) (s :: ss) = s :: capped d (S m) ss.
Proof. intros H. destruct ss; [by destruct H|reflexivity]. Qed.

Lemma wc_all_delim d max fuel k us c :
  1 <= d <= 127 -> d <> 32 -> cursor_at d max k us c -> (length (flatten us) + 1 < fuel)%nat ->
  wc_all fuel c = Some (map flatten (capped d (max - k) (segs d us))).
Proof.
  intros Hd Hne. revert k us c. induction fuel as [|fuel IH]; intros k us c Hc Hl; [lia|].
  cbn. unfold wc_next. destruct Hc as [Hp Hw Hdl Hsp He Hf Hk Hm].
  apply Z.eqb_neq in Hne as Hne'. rewrite Hne' in Hsp. rewrite Hf, Hsp, (He Hsp), Hp, Hk, Hm, Hdl.
  assert (Hlast : forall f, (length (flatten us) + 1 < S f)%nat ->
    mbind (M:=option) (fun ws => Some (flatten us :: ws)) (wc_all f (wc_set c (flatten us) (S k) true)) =
    Some [flatten us]).
  { intros [|f] ?; [lia|]. by rewrite wc_all_finished. }
  destruct (Nat.ltb_spec (k + 1) max) as [Hlt|Hge].
  2: { rewrite capped_one by lia. cbn. rewrite join_segs. by apply Hlast. }
  rewrite co_find_delim_flatten by done.
  destruct (cut d us) as [[l r]|] eqn:Hcut; cbn [fmap option_fmap option_map snd tail mbind option_bind].
  - pose proof (cut_length _ _ _ _ Hcut). pose proof (wf_cut d us l r Hw Hcut) as [_ Hw'].
    rewrite (IH (S k) r); [|constructor; cbn; try done; congruence|lia]. cbn.
    destruct (max - S k)%nat as [|m] eqn:Em; [lia|]. replace (max - k)%nat with (S (S m)) by lia.
    rewrite (segs_some _ _ _ _ Hcut), capped_cons by apply segs_nonempty. cbn [map]. do 2 f_equal.
    apply cut_spec in Hcut. rewrite Hcut at 1. by rewrite flatten_app, flatten_cons, range_app.
  - rewrite (segs_none _ _ Hcut), capped_single. by apply Hlast.
Qed.

Lemma split_words_flatten ts d max :
  wf ts -> 1 <= d <= 127 ->
  split_words (flatten ts) d max = Some (map flatten (cursor_words d max ts)).
Proof.
  intros Hw Hd. unfold split_words, cursor_words. destruct (Z.eqb_spec d 32) as [->|Hne].
  - rewrite (wc_all_space max _ 0 ts); [by rewrite Nat.sub_0_r|by constructor|lia].
  - destruct ts as [|t ts].
    + cbn. unfold wc_next, wc_init. cbn. by apply Z.eqb_neq in Hne as ->.
    + rewrite (wc_all_delim d max _ 0 (t :: ts)); [by rewrite Nat.sub_0_r|done|done| |lia].
      constructor; try done. intros _. apply bool_decide_eq_false.
      apply wf_cons in Hw as [Ht _]. pose proof (tok_bytes_nonempty t Ht).
      rewrite flatten_cons, length_app. lia.
Qed.

Lemma wc_count_all_length fuel c n :
  wc_count_all fuel c n = (fun ws => n + length ws)%nat <$> wc_all fuel c.
Proof.
  revert c n. induction fuel as [|fuel IH]; intros c n; [done|]. cbn.
  destruct (wc_next c) as [[c' [w|]]|]; cbn; [|f_equal; lia|done].
  rewrite IH. destruct (wc_all fuel c'); cbn; [f_equal; lia|done].
Qed.

(** *** The cursor on any bytes

    [yields c ws]: the next calls of [wc_next] on [c] give the words [ws], then stop. *)
Inductive yields : word_cursor_t -> list bytes -> Prop :=
  | yields_nil c c' : wc_next c = Some (c', None) -> yields c []
  | yields_cons c c' w ws : wc_next c = Some (c', Some w) -> yields c' ws -> yields c (w :: ws).

Lemma wc_all_yields fuel c ws : wc_all fuel c = Some ws -> yields c ws.
Proof.
  revert c ws. induction fuel as [|fuel IH]; intros c ws H; [done|]. cbn in H.
  destruct (wc_next c) as [[c' [w|]]|] eqn:E; [|by simplify_eq/=; eapply yields_nil|done].
  cbn in H. destruct (wc_all fuel c') as [ws'|] eqn:E'; [|done]. simplify_eq/=.
  eapply yields_cons; eauto.
Qed.

Lemma memchr_suffix s c d : memchr s c = Some d -> exists l, s = l ++ d /\ (0 < length d)%nat.
Proof.
  revert d. induction s as [|b s IH]; intros d H; [done|]. cbn in H. destruct (b =? c).
  - simplify_eq. exists []. cbn. split; [done|lia].
  - apply IH in H as (l & -> & ?). by exists (b :: l).
Qed.

Lemma find_dfa_suffix t cs s found :
  forall d, (ragel_exec (check_delim t) cs s found).2 = Some d ->
  found = Some d \/ exists l, s = l ++ d /\ (0 < length d)%nat.
Proof.
  revert cs found. induction s as [|c s IH]; intros cs found d; [by left|]. cbn [ragel_exec].
  destruct (scan_step cs c) as [cs' done]. case_decide; [by left|].
  unfold check_delim at 1. case_decide; [destruct (_ =? _)|]; cbn [snd].
  - intros [= <-]. right. exists []. cbn. split; [done|lia].
  - intros Hx. apply IH in Hx as [?|(l & -> & ?)]; [by left|right]. by exists (c :: l).
  - intros Hx. apply IH in Hx as [?|(l & -> & ?)]; [by left|right]. by exists (c :: l).
Qed.

(** The delimiter found lies in the text: the rest after it is shorter. *)
Lemma co_find_delim_suffix s t d : co_find_delim s t = Some d ->
  exists l, s = l ++ d /\ (0 < length d)%nat.
Proof.
  unfold co_find_delim. destruct (in_rng 1 127 t); [apply memchr_suffix|].
  unfold find_delim_dfa. intros H. pose proof (find_dfa_suffix t St12 s None d) as Hx.
  destruct (ragel_exec _ _ _ _) as [[cs p] fd]. destruct Hx; [done|done|done].
Qed.

Lemma tail_length (d : bytes) : length (tail d) = (length d - 1)%nat.
Proof. destruct d; cbn; lia. Qed.

Lemma wc_space_loop_any c fuel : (length (wc_p c) < fuel)%nat ->
  exists c' ow, iter wc_space_loop fuel c = Some (c', ow) /\ wc_is_space c' = wc_is_space c /\
    (ow <> None -> wc_finished c' = true \/ (length (wc_p c') < length (wc_p c))%nat).
Proof.
  intros Hf.
  destruct (iter_total wc_space_loop
    (fun d => (length (wc_p d) <= length (wc_p c))%nat /\ wc_is_space d = wc_is_space c)
    (fun r => wc_is_space r.1 = wc_is_space c /\
       (r.2 <> None -> wc_finished r.1 = true \/ (length (wc_p r.1) < length (wc_p c))%nat))
    (fun d => length (wc_p d))) with (fuel := fuel) (s := c) as ([c' ow] & E & ?);
    [|done|done|by exists c', ow].
  clear. intros d [Hl Hs]. unfold wc_space_loop.
  destruct ((0 <? length (wc_p d))%nat && _) eqn:Eb; [|done].
  destruct (co_skip_color_suffix (wc_p d)) as [l El].
  destruct (co_skip_color (wc_p d)) as [|ch q]; [done|].
  apply (f_equal length) in El. rewrite length_app in El. cbn in El.
  destruct (ch =? 32); [cbn; split; [split; [lia|done]|lia]|].
  destruct (co_find_delim (ch :: q) 32) as [e|] eqn:Ed; [|by cbn; auto].
  apply co_find_delim_suffix in Ed as (l' & El' & He). apply (f_equal length) in El'.
  rewrite length_app in El'. cbn in El'. cbn. split; [done|]. intros _. right. rewrite tail_length. lia.
Qed.

(** Every cursor yields finitely many words, whatever the bytes. *)
Lemma wc_next_total c : exists c' ow, wc_next c = Some (c', ow) /\
  (ow <> None -> wc_finished c' = true \/ (length (wc_p c') < length (wc_p c))%nat).
Proof.
  unfold wc_next. destruct (wc_finished c); [by exists c, None|]. destruct (wc_is_space c).
  { destruct (wc_space_loop_any c (S (length (wc_p c))) ltac:(lia)) as (c' & ow & -> & _ & ?). eauto. }
  destruct (wc_is_empty c); [by eexists _, _|].
  destruct (_ <? _)%nat; [|eexists _, _; split; [done|cbn; auto]].
  destruct (co_find_delim _ _) as [e|] eqn:Ed; [|eexists _, _; split; [done|cbn; auto]].
  apply co_find_delim_suffix in Ed as (l' & El' & He). apply (f_equal length) in El'.
  rewrite length_app in El'. eexists _, _. split; [done|]. intros _. right. cbn.
  rewrite tail_length. lia.
Qed.

Lemma wc_all_total fuel c :
  (if wc_finished c then 0 < fuel else length (wc_p c) + 1 < fuel)%nat ->
  exists ws, wc_all fuel c = Some ws.
Proof.
  revert c. induction fuel as [|fuel IH]; intros c Hf; [destruct (wc_finished c); lia|]. cbn.
  destruct (wc_finished c) eqn:Efin.
  { unfold wc_next. rewrite Efin. by eexists. }
  destruct (wc_next_total c) as (c' & [w|] & -> & H); cbn; [|by eexists].
  destruct (IH c') as [ws ->]; [|by eexists].
  destruct (H ltac:(done)) as [->|]; [lia|]. destruct (wc_finished c'); lia.
Qed.

Lemma split_words_total data d max : exists ws, split_words data d max = Some ws.
Proof. apply wc_all_total. cbn. lia. Qed.

Lemma split_words_yields data d max ws :
  split_words data d max = Some ws -> yields (wc_init data d max) ws.
Proof. apply wc_all_yields. Qed.

Lemma count_split data d max : count_words data d max = length <$> split_words data d max.
Proof. unfold count_words, split_words. rewrite wc_count_all_length. done. Qed.

(** *** Facts about word lists that the properties use *)

Lemma emit_true_join d s ss :
  emit d true (map flatten (s :: ss)) = d :: flatten (join d (s :: ss)).
Proof.
  revert s. induction ss as [|s' ss IH]; intros s; [cbn; by rewrite !app_nil_r|].
  specialize (IH s'). rewrite join_cons, flatten_app, flatten_cons by done.
  cbn [map emit] in IH |- *. by rewrite IH.
Qed.

(** Words written with a separator are the bytes of the joined tokens. *)
Lemma emit_join d ss : emit d false (map flatten ss) = flatten (join d ss).
Proof.
  destruct ss as [|s [|s' ss]]; [done|cbn; by rewrite app_nil_r|].
  rewrite join_cons, flatten_app, flatten_cons by done. 
  pose proof (emit_true_join d s' ss) as E. cbn [map emit app] in E |- *. by rewrite E.
Qed.

Lemma capped_nonempty d m ss : capped d m ss <> [].
Proof. destruct ss as [|s [|s' ss]]; cbn [capped]; [done|done|]. by destruct (2 <=? m)%nat. Qed.

Lemma join_capped d m ss : join d (capped d m ss) = join d ss.
Proof.
  revert m. induction ss as [|s ss IH]; intros m; [done|]. cbn [capped]. destruct ss as [|s' ss]; [done|].
  destruct (2 <=? m)%nat; [|done]. by rewrite !join_cons, IH by (done || apply capped_nonempty).
Qed.

Lemma from_word_words ss s ss' : from_word ss = s :: ss' ->
  has_vis s = true /\ filter (fun s => has_vis s = true) ss = s :: filter (fun s => has_vis s = true) ss'.
Proof.
  induction ss as [|x ss IH]; intros H; [done|]. cbn in H. rewrite filter_cons.
  destruct (has_vis x) eqn:E; [simplify_eq; by rewrite decide_True|].
  rewrite decide_False by done. auto.
Qed.

Lemma from_word_suffix ss : exists l, ss = l ++ from_word ss.
Proof.
  induction ss as [|s ss [l IH]]; [by exists []|]. cbn. destruct (has_vis s); [by exists []|].
  exists (s :: l). cbn. by rewrite <- IH.
Qed.

Lemma segs_suffix d ts : forall l ss, segs d ts = l ++ ss -> ss <> [] -> segs d (join d ss) = ss.
Proof.
  remember (length ts) as n eqn:En. revert ts En.
  induction n as [n IH] using lt_wf_ind. intros ts En l ss E Hne.
  destruct l as [|s l]; [cbn in E; subst ss; by rewrite join_segs|].
  destruct (cut d ts) as [[a r]|] eqn:Hc.
  - rewrite (segs_some _ _ _ _ Hc) in E. simplify_eq/=.
    apply (IH (length r) ltac:(apply cut_spec in Hc as ->; rewrite length_app; cbn; lia) r eq_refl l); done.
  - rewrite (segs_none _ _ Hc) in E. cbn in E. injection E as _ E. by apply eq_sym, app_nil in E as [_ ?].
Qed.

(** The words after the first one are the words of the rest. *)
Lemma rest_words d ts l s ss : segs d ts = l ++ s :: ss -> ss <> [] -> segs d (join d ss) = ss.
Proof. intros E Hne. apply (segs_suffix d ts (l ++ [s])); [by rewrite <- app_assoc|done]. Qed.

Lemma wf_join_segs d l ss ts : segs d ts = l ++ ss -> wf ts -> wf (join d ss).
Proof.
  revert ts. induction l as [|s l IH]; intros ts E Hw; cbn in E.
  { rewrite <- E, join_segs. done. }
  destruct (cut d ts) as [[a r]|] eqn:Hc.
  - rewrite (segs_some _ _ _ _ Hc) in E. simplify_eq/=. apply (IH r); [done|]. by eapply wf_cut.
  - rewrite (segs_none _ _ Hc) in E. injection E as _ E. apply eq_sym, app_nil in E as [-> ->]. constructor.
Qed.

Lemma join_prefix_le d l ss : (length (flatten (join d ss)) <= length (flatten (join d (l ++ ss))))%nat.
Proof.
  induction l as [|s l IH]; [done|]. cbn [app]. destruct (decide (l ++ ss = [])) as [E|E].
  - rewrite E. apply app_nil in E as [_ ->]. cbn. lia.
  - rewrite join_cons, flatten_app, flatten_cons, !length_app by done. lia.
Qed.

(** ** Properties *)

(** [co_words_count] terminates and counts the words of the text: the pieces with a
    visible code point for a space, every piece, empty ones too, for another ASCII
    delimiter; a text without a visible code point has no words. *)
Theorem words_count_spec ts d : wf ts -> 1 <= d <= 127 ->
  co_words_count (flatten ts) d =
  Some (if decide (d = 32 \/ co_visible_length (flatten ts) <> 0%nat) then length (words d ts) else 0%nat).
Proof.
  intros Hw Hd. rewrite co_words_count_flatten, co_visible_length_flatten by done. unfold words.
  destruct (Z.eqb_spec d 32); [by rewrite decide_True by auto|].
  destruct (Nat.eqb_spec (nvis ts) 0); [rewrite decide_False by tauto|rewrite decide_True by tauto]; done.
Qed.

(** [co_first] and [co_rest] take a word list apart: on a text with at least one word,
    the first result is the first word, with its colour, and the words of the second are
    the words that follow it. *)
Lemma first_rest_words ts d :
  wf ts -> 1 <= d <= 127 -> (length (flatten ts) <= cap)%nat -> words d ts <> [] ->
  exists f r, wf r /\ co_first (flatten ts) d = Some (flatten f) /\
    co_rest (flatten ts) d = Some (flatten r) /\
    (words d ts = f :: words d r \/ words d ts = [f] /\ r = []).
Proof.
  intros Hw Hd Hl Hne.
  assert (Hex : exists l s ss, segs d ts = l ++ s :: ss /\
    (if d =? 32 then first32 ts else hd [] (segs d ts)) = s /\
    (if d =? 32 then rest32 ts else join d (tail (segs d ts))) = join d ss /\
    words d ts = s :: (if d =? 32 then filter (fun s => has_vis s = true) ss else ss)).
  { unfold words in *. destruct (Z.eqb_spec d 32) as [->|Hd'].
    - destruct (from_word_suffix (segs 32 ts)) as [l El]. unfold first32, rest32, words32 in *.
      destruct (from_word (segs 32 ts)) as [|s ss] eqn:E.
      + exfalso. apply Hne. clear - E. induction (segs 32 ts) as [|x xs IH]; [done|]. cbn in E.
        rewrite filter_cons. destruct (has_vis x); [done|]. rewrite decide_False by done. auto.
      + exists l, s, ss. by apply from_word_words in E as [_ ->].
    - pose proof (segs_nonempty d ts). destruct (segs d ts) as [|s ss]; [done|]. by exists [], s, ss. }
  destruct Hex as (l & s & ss & E & Hf & Hr & Hws). exists s, (join d ss).
  assert (Hlen : (length (flatten (join d (s :: ss))) <= length (flatten ts))%nat).
  { rewrite <- (join_segs d ts), E. apply join_prefix_le. }
  rewrite co_first_flatten, co_rest_flatten, Hf, Hr by done.
  assert (Hs : (length (flatten s) <= length (flatten (join d (s :: ss))))%nat /\
               (length (flatten (join d ss)) <= length (flatten (join d (s :: ss))))%nat).
  { destruct ss; [split; [reflexivity|apply Nat.le_0_l]|]. rewrite join_cons, flatten_app, flatten_cons, !length_app by done. lia. }
  rewrite !clamp_id by lia. split_and!; [|done|done|].
  { apply (wf_join_segs d (l ++ [s]) ss ts); [by rewrite <- app_assoc|done]. }
  rewrite Hws. destruct ss as [|s' ss]; [right; by destruct (d =? 32)|left]. f_equal. unfold words, words32.
  pose proof (rest_words d ts l s (s' :: ss) E ltac:(done)) as Hj.
  destruct (Z.eqb_spec d 32) as [->|]; by rewrite Hj.
Qed.

(** [co_last] returns what follows the last delimiter, the whole text if there is none. *)
Lemma last_word ts d : wf ts -> 1 <= d <= 127 -> (length (flatten ts) <= cap)%nat ->
  exists l, co_last (flatten ts) d = Some (flatten l) /\ (TVis [d] ∉ l) /\
    (ts = l \/ exists a, ts = a ++ TVis [d] :: l).
Proof.
  intros Hw Hd Hl. rewrite co_last_flatten by done. exists (List.last (segs d ts) []).
  assert (H : (TVis [d] ∉ List.last (segs d ts) []) /\
    (ts = List.last (segs d ts) [] \/ exists a, ts = a ++ TVis [d] :: List.last (segs d ts) [])).
  { clear Hw Hl. len_ind ts. destruct (cut d ts) as [[a r]|] eqn:Hc.
    - rewrite (segs_some _ _ _ _ Hc), last_cons_segs. apply cut_spec in Hc as ->.
      destruct (IH (length r) ltac:(rewrite En, length_app; cbn; lia) r eq_refl) as [H1 [H2|[a' H2]]].
      + split; [done|]. right. exists a. by rewrite <- H2.
      + split; [done|]. right. exists (a ++ TVis [d] :: a'). by rewrite <- app_assoc, H2 at 1.
    - rewrite (segs_none _ _ Hc). cbn. split; [by apply cut_none|auto]. }
  destruct H as [Hn H]. split; [|done]. f_equal. apply clamp_id.
  destruct H as [H|[a H]]; [by rewrite <- H|].
  apply (f_equal (fun x => length (flatten x))) in H. rewrite flatten_app, flatten_cons, !length_app in H. lia.
Qed.

(** [co_first] and [co_rest] take a word list apart: on a text with at least one word,
    the first result is the first word, with its colour, and the words of the second are
    the words that follow it.  [co_last] returns what follows the last delimiter, the whole
    text if there is none. *)
Theorem first_rest_last_spec ts d : wf ts -> 1 <= d <= 127 -> (length (flatten ts) <= cap)%nat ->
  (words d ts <> [] ->
   exists f r, wf r /\ co_first (flatten ts) d = Some (flatten f) /\
    co_rest (flatten ts) d = Some (flatten r) /\
    (words d ts = f :: words d r \/ words d ts = [f] /\ r = [])) /\
  (exists l, co_last (flatten ts) d = Some (flatten l) /\ (TVis [d] ∉ l) /\
    (ts = l \/ exists a, ts = a ++ TVis [d] :: l)).
Proof. intros Hw Hd Hl. split; [by apply first_rest_words|by apply last_word]. Qed.

(** [co_extract] copies the words [iFirst] to [iFirst + nWords - 1] with their colour,
    separated by [osep], whatever delimiters were between them; a space-separated text that
    ends before [nWords] words were found also gives its trailing colour.  A first word of
    0 means 1.  The output is cut at the end of the buffer. *)
Theorem extract_spec ts d f n osep :
  wf ts -> 1 <= d <= 127 -> Z.of_nat (Nat.max f 1) + Z.of_nat n < 2 ^ 64 ->
  co_extract (flatten ts) (Z.of_nat f) (Z.of_nat n) d osep =
  let sel := take n (drop (Nat.max f 1 - 1) (words d ts)) in
  let ends := (d =? 32) && (0 <? length sel)%nat && (length sel <? n)%nat in
  Some (clamp (emit osep false (map flatten sel) ++ if ends then flatten (trailing ts) else [])).
Proof. apply co_extract_flatten. Qed.

(** the word cursor yields the words of the text, up to its cap; for a delimiter other
    than a space the last word takes what is left, so that the words and the delimiter give
    the text back.  [count_words] counts what [split_words] yields. *)
Theorem split_words_spec ts d max : wf ts -> 1 <= d <= 127 ->
  exists ws, split_words (flatten ts) d max = Some ws /\
    ws = map flatten (cursor_words d max ts) /\
    count_words (flatten ts) d max = Some (length ws) /\
    (d <> 32 -> emit d false ws = flatten ts) /\
    (d = 32 -> ws = take max (map flatten (words 32 ts))).
Proof.
  intros Hw Hd. eexists. rewrite count_split, split_words_flatten by done.
  split_and!; [done|done|done| |].
  - intros Hne. rewrite emit_join. unfold cursor_words. apply Z.eqb_neq in Hne as ->.
    destruct ts; [done|]. by rewrite join_capped, join_segs.
  - intros ->. by rewrite firstn_map.
Qed.

(** The word cursor always stops, on any bytes and any delimiter, and [count_words]
    agrees with [split_words]. *)
Theorem split_words_terminates data d max :
  exists ws, split_words data d max = Some ws /\ count_words data d max = Some (length ws).
Proof.
  destruct (split_words_total data d max) as [ws E]. exists ws. by rewrite count_split, E.
Qed.
End Words.

(** "a|<red>b  c" as tokens. *)
Definition sample_words : list tok :=
  [TVis [97]; TVis [124]; TCol [239; 152; 129]; TVis [98]; TVis [32]; TVis [32]; TVis [99]].

Lemma sample_words_wf : wf sample_words.
Proof. repeat constructor. Qed.

Lemma words_count_spec_witness :
  co_words_count (flatten sample_words) 32 = Some 2%nat /\ co_words_count (flatten sample_words) 124 = Some 2%nat.
Proof.
  split.
  - rewrite (words_count_spec sample_words 32 sample_words_wf ltac:(lia)). reflexivity.
  - rewrite (words_count_spec sample_words 124 sample_words_wf ltac:(lia)). reflexivity.
Defined.

Lemma first_rest_last_spec_witness :
  (exists f r, wf r /\ co_first (cfg := default_config) (flatten sample_words) 32 = Some (flatten f) /\
    co_rest (cfg := default_config) (flatten sample_words) 32 = Some (flatten r) /\
    (words 32 sample_words = f :: words 32 r \/ words 32 sample_words = [f] /\ r = [])) /\
  (exists l, co_last (cfg := default_config) (flatten sample_words) 32 = Some (flatten l) /\
    (TVis [32] ∉ l) /\ (sample_words = l \/ exists a, sample_words = a ++ TVis [32] :: l)).
Proof.
  destruct (first_rest_last_spec (cfg := default_config) sample_words 32 sample_words_wf ltac:(lia)
    ltac:(apply Nat.leb_le; vm_compute; reflexivity)) as [H1 H2].
  split; [apply H1; vm_compute; discriminate|exact H2].
Defined.

Lemma extract_spec_witness :
  co_extract (cfg := default_config) (flatten sample_words) 2 1 32 45 = Some [99].
Proof.
  change 2 with (Z.of_nat 2) at 1. change 1 with (Z.of_nat 1).
  rewrite (extract_spec (cfg := default_config) sample_words 32 2 1 45 sample_words_wf ltac:(lia) ltac:(lia)).
  vm_compute. reflexivity.
Defined.

Lemma split_words_spec_witness :
  exists ws, split_words (flatten sample_words) 124 9 = Some ws /\
    ws = map flatten (cursor_words 124 9 sample_words) /\
    count_words (flatten sample_words) 124 9 = Some (length ws) /\
    (124 <> 32 -> emit 124 false ws = flatten sample_words) /\
    (124 = 32 -> ws = take 9 (map flatten (words 32 sample_words))).
Proof. apply split_words_spec; [exact sample_words_wf | lia]. Defined.
