(* ===== verification/Lists.v ===== *)
(** * Stage 4 of [color_ops.c]: editing word lists

    [co_splice], [co_insert_word], [co_replace_at], [co_delete_at] and [co_insert_at] with
    the in-place conversion of the positions and the insertion sort [sort_ints] they share.
    They read their words from the cursor of [Words]; each is related to an operation on
    the list of words that [split_words] gives, on any bytes. *)

From S2P Require Import Prelude Encoding Scan Words.
From Stdlib Require Import Sorting.Sorted.

Section Lists.
Context {cfg : Config}.

(** ** The functions *)

Definition max_words : nat := (LBUF_SIZE / 2)%nat.

(** [memcmp(a, b, n) == 0] with the lengths compared first. *)
Definition same_bytes (a b : bytes) : bool := bool_decide (a = b).

(** *** [co_splice] *)

Record splice_vars := { sp_c1 : word_cursor_t; sp_c2 : word_cursor_t; sp_out : bytes }.

(** The [for] loop from index [i], with [todo] iterations left. *)
Fixpoint splice_loop (splain : bytes) (osep : Z) (todo i : nat) (v : splice_vars) : option bytes :=
  match todo with
  | O => Some (sp_out v)
  | S todo' =>
      if (length (sp_out v) <? cap)%nat then
        '(c1, w1) ← wc_next (sp_c1 v);
        match w1 with
        | None => Some (sp_out v)
        | Some r1 =>
            '(c2, w2) ← wc_next (sp_c2 v);
            match w2 with
            | None => Some (sp_out v)
            | Some r2 =>
                let out := if (0 <? i)%nat then WP_SAFE (sp_out v) osep else sp_out v in
                let src := if same_bytes (co_strip_color r1) splain then r2 else r1 in
                splice_loop splain osep todo' (S i)
                  {| sp_c1 := c1; sp_c2 := c2; sp_out := wp_safe_copy out src |}
            end
        end
      else Some (sp_out v)
  end.

Definition co_splice (list1 list2 search : bytes) (delim osep : Z) : option bytes :=
  n1 ← count_words list1 delim max_words;
  n2 ← count_words list2 delim max_words;
  if negb (n1 =? n2)%nat then Some []
  else
    splice_loop (co_strip_color search) osep n1 0
      {| sp_c1 := wc_init list1 delim max_words; sp_c2 := wc_init list2 delim max_words;
         sp_out := [] |}.

(** *** The shared loop

    The variables of the functions below: the cursor, the output, the index of the next
    word and whether a word was emitted. *)
Record list_vars := { lv_c : word_cursor_t; lv_out : bytes; lv_i : nat; lv_emitted : bool }.

(** [if (emitted) WP_SAFE(osep)], the copy of [w], [emitted = 1]. *)
Definition put_word (osep : Z) (w : bytes) (v : list_vars) : list_vars :=
  let out := if lv_emitted v then WP_SAFE (lv_out v) osep else lv_out v in
  {| lv_c := lv_c v; lv_out := wp_safe_copy out w; lv_i := lv_i v; lv_emitted := true |}.

(** One iteration of the copying loops: the separator, the next word, [i++]. *)
Definition copy_word (osep : Z) (v : list_vars) : option list_vars :=
  let out := if lv_emitted v then WP_SAFE (lv_out v) osep else lv_out v in
  '(c, w) ← wc_next (lv_c v);
  let out := match w with Some w => wp_safe_copy out w | None => out end in
  Some {| lv_c := c; lv_out := out; lv_i := S (lv_i v); lv_emitted := true |}.

(** [while (i < i + todo && wp < wp_end)] over [copy_word]. *)
Fixpoint copy_words (osep : Z) (todo : nat) (v : list_vars) : option list_vars :=
  match todo with
  | O => Some v
  | S todo' =>
      if (length (lv_out v) <? cap)%nat then v' ← copy_word osep v; copy_words osep todo' v'
      else Some v
  end.

(** [(void)wc_next(&c, &cw); i++;] *)
Definition skip_word (v : list_vars) : option list_vars :=
  '(c, _) ← wc_next (lv_c v);
  Some {| lv_c := c; lv_out := lv_out v; lv_i := S (lv_i v); lv_emitted := lv_emitted v |}.

Definition list_start (data : bytes) (delim : Z) : list_vars :=
  {| lv_c := wc_init data delim max_words; lv_out := []; lv_i := 0; lv_emitted := false |}.

(** *** [co_insert_word] *)

Fixpoint insert_word_loop (word : bytes) (osep : Z) (nWords ins todo : nat) (v : list_vars)
    : option list_vars :=
  match todo with
  | O => Some v
  | S todo' =>
      if (length (lv_out v) <? cap)%nat then
        let i := lv_i v in
        let v := if (i =? ins)%nat then put_word osep word v else v in
        v ← (if (i <? nWords)%nat then copy_word osep v else Some v);
        insert_word_loop word osep nWords ins todo' v
      else Some v
  end.

Definition co_insert_word (data word : bytes) (iPos : nat) (delim osep : Z) : option bytes :=
  nWords ← count_words data delim max_words;
  let ins := if (0 <? iPos)%nat then (iPos - 1)%nat else 0%nat in
  let ins := if (nWords <? ins)%nat then nWords else ins in
  v ← insert_word_loop word osep nWords ins (S nWords) (list_start data delim);
  Some (lv_out v).

(** *** Positions *)

(** The inner loop of [sort_ints], from [j = j' - 1] down. *)
Fixpoint sort_shift (arr : list Z) (key : Z) (j' : nat) : list Z :=
  match j' with
  | O => <[0%nat := key]> arr
  | S j =>
      if key <? arr !!! j then sort_shift (<[S j := arr !!! j]> arr) key j
      else <[S j := key]> arr
  end.

Definition sort_ints (arr : list Z) : list Z :=
  fold_left (fun a i => sort_shift a (a !!! i) i) (seq 1 (length arr - 1)) arr.

(** The conversion loop: the array, [j] and [nPositions].  [wrap] is [nWords], and
    [nWords + 1] for [co_insert_at]. *)
Record pos_vars := { pv_arr : list Z; pv_j : nat; pv_n : nat }.

Definition convert_body (wrap : Z) (v : pos_vars) : pos_vars + list Z :=
  if (pv_j v <? pv_n v)%nat then
    let p := pv_arr v !!! pv_j v in
    let p := if p <? 0 then p + wrap else p - 1 in
    let arr := <[pv_j v := p]> (pv_arr v) in
    if (p <? 0) || (wrap <=? p)
    then inl {| pv_arr := <[pv_j v := arr !!! (pv_n v - 1)%nat]> arr; pv_j := pv_j v;
                pv_n := (pv_n v - 1)%nat |}
    else inl {| pv_arr := arr; pv_j := S (pv_j v); pv_n := pv_n v |}
  else inr (take (pv_n v) (pv_arr v)).

Definition convert_positions (wrap : Z) (positions : list Z) : option (list Z) :=
  iter (convert_body wrap) (S (length positions))
    {| pv_arr := positions; pv_j := 0; pv_n := length positions |}.

(** [while (j < nPositions - 1 && positions[j] == positions[j + 1]) j++;] *)
Fixpoint skip_dups (p : Z) (ps : list Z) : list Z :=
  match ps with
  | q :: ps' => if p =? q then skip_dups p ps' else ps
  | [] => []
  end.

(** The position loops of the three functions over the sorted positions. *)
Fixpoint replace_loop (word : bytes) (osep : Z) (fuel : nat) (ps : list Z) (v : list_vars)
    : option list_vars :=
  match ps, fuel with
  | [], _ => Some v
  | _, O => None
  | p :: ps', S fuel' =>
      v ← copy_words osep (Z.to_nat p - lv_i v) v;
      v ← skip_word (put_word osep word v);
      replace_loop word osep fuel' (skip_dups p ps') v
  end.

Fixpoint delete_loop (osep : Z) (fuel : nat) (ps : list Z) (v : list_vars) : option list_vars :=
  match ps, fuel with
  | [], _ => Some v
  | _, O => None
  | p :: ps', S fuel' =>
      v ← copy_words osep (Z.to_nat p - lv_i v) v;
      v ← skip_word v;
      delete_loop osep fuel' (skip_dups p ps') v
  end.

Fixpoint insert_loop (word : bytes) (osep : Z) (ps : list Z) (v : list_vars) : option list_vars :=
  match ps with
  | [] => Some v
  | p :: ps' =>
      v ← copy_words osep (Z.to_nat p - lv_i v) v;
      insert_loop word osep ps' (put_word osep word v)
  end.

(** The copy of the whole list that [co_replace_at] and [co_insert_at] make when no
    position is left; the separator depends on [i > 0], which is [lv_emitted] here. *)
Definition copy_list (osep : Z) (nWords : nat) (v : list_vars) : option bytes :=
  v ← copy_words osep nWords v; Some (lv_out v).

Definition finish_list (osep : Z) (nWords : nat) (v : list_vars) : option bytes :=
  v ← copy_words osep (nWords - lv_i v) v; Some (lv_out v).

Definition co_replace_at (data : bytes) (positions : list Z) (word : bytes) (delim osep : Z)
    : option bytes :=
  if (length data =? 0)%nat then Some []
  else
    nWords ← count_words data delim max_words;
    ps ← convert_positions (Z.of_nat nWords) positions;
    if (length ps =? 0)%nat then copy_list osep nWords (list_start data delim)
    else
      v ← replace_loop word osep (length ps) (sort_ints ps) (list_start data delim);
      finish_list osep nWords v.

Definition co_delete_at (data : bytes) (positions : list Z) (delim osep : Z) : option bytes :=
  if (length data =? 0)%nat then Some []
  else
    nWords ← count_words data delim max_words;
    ps ← convert_positions (Z.of_nat nWords) positions;
    v ← delete_loop osep (length ps) (sort_ints ps) (list_start data delim);
    finish_list osep nWords v.

Definition co_insert_at (data : bytes) (positions : list Z) (word : bytes) (delim osep : Z)
    : option bytes :=
  nWords ← count_words data delim max_words;
  if (length data =? 0)%nat && negb (existsb (fun p => (p =? 1) || (p =? -1)) positions)
  then Some []
  else
    ps ← convert_positions (Z.of_nat nWords + 1) positions;
    if (length ps =? 0)%nat then copy_list osep nWords (list_start data delim)
    else
      v ← insert_loop word osep (sort_ints ps) (list_start data delim);
      finish_list osep nWords v.

(** ** [sort_ints] *)

Lemma lookup_total_middle (l : list Z) x r n : n = length l -> (l ++ x :: r) !!! n = x.
Proof. intros ->. apply list_lookup_total_middle. done. Qed.

Lemma insert_middle (l : list Z) x y r n : n = length l -> <[n := y]> (l ++ x :: r) = l ++ y :: r.
Proof. intros ->. by rewrite insert_app_r_alt, Nat.sub_diag by lia. Qed.

(** The inner loop moves the key left past the greater elements before it. *)
Lemma sort_shift_split l x post key :
  exists a b, l = a ++ b /\ sort_shift (l ++ x :: post) key (length l) = a ++ key :: b ++ post /\
    Forall (fun y => key < y) b /\ (a = [] \/ exists a' y, a = a' ++ [y] /\ y <= key).
Proof.
  revert x post. induction l as [|y l IH] using rev_ind; intros x post.
  { exists [], []. cbn. auto. }
  rewrite length_app, Nat.add_1_r. cbn [sort_shift].
  rewrite <- app_assoc. cbn [app]. rewrite lookup_total_middle by done.
  destruct (Z.ltb_spec key y) as [Hlt|Hge].
  - replace (<[S (length l) := y]> (l ++ y :: x :: post)) with (l ++ y :: y :: post).
    2: { change (l ++ y :: x :: post) with (l ++ [y] ++ x :: post). rewrite app_assoc, insert_middle.
         - by rewrite <- app_assoc.
         - rewrite length_app. cbn. lia. }
    destruct (IH y (y :: post)) as (a & b & -> & -> & Hb & Ha). exists a, (b ++ [y]).
    rewrite <- !app_assoc. split_and!; [done|done| |done]. apply Forall_app. auto.
  - exists (l ++ [y]), []. split_and!; [by rewrite app_nil_r| |done|eauto].
    change (l ++ y :: x :: post) with (l ++ [y] ++ x :: post). rewrite app_assoc, insert_middle; [done|].
    rewrite length_app. cbn. lia.
Qed.

Lemma StronglySorted_app_inv (a b : list Z) :
  StronglySorted Z.le (a ++ b) -> StronglySorted Z.le a /\ StronglySorted Z.le b /\
  Forall (fun x => Forall (Z.le x) b) a.
Proof.
  induction a as [|x a IH]; intros H; cbn in *; [split_and!; [constructor|done|constructor]|].
  apply StronglySorted_inv in H as [H1 H2]. apply Forall_app in H2 as [H2 H3].
  apply IH in H1 as (? & ? & ?). split_and!; [by constructor|done|by constructor].
Qed.

Lemma StronglySorted_app_intro (a b : list Z) :
  StronglySorted Z.le a -> StronglySorted Z.le b -> Forall (fun x => Forall (Z.le x) b) a ->
  StronglySorted Z.le (a ++ b).
Proof.
  induction a as [|x a IH]; intros Ha Hb Hab; [done|]. cbn.
  apply StronglySorted_inv in Ha as [? ?]. apply Forall_cons in Hab as [? ?].
  constructor; [auto|]. apply Forall_app. auto.
Qed.

(** One outer iteration keeps the prefix sorted and the array a permutation. *)
Lemma sort_step l x post :
  StronglySorted Z.le l ->
  exists l', sort_shift (l ++ x :: post) x (length l) = l' ++ post /\
    StronglySorted Z.le l' /\ l' ≡ₚ l ++ [x].
Proof.
  intros Hs. destruct (sort_shift_split l x post x) as (a & b & -> & -> & Hb & Ha).
  exists (a ++ x :: b). split_and!; [by rewrite <- app_assoc| |by rewrite <- app_assoc, <- (Permutation_cons_append b)].
  apply StronglySorted_app_inv in Hs as (Hsa & Hsb & Hab).
  apply StronglySorted_app_intro; [done|constructor; [done|]|].
  - eapply Forall_impl; [exact Hb|]. cbn. lia.
  - rewrite Forall_forall in Hab |- *. intros y Hy. constructor; [|auto].
    destruct Ha as [-> | (a' & z & -> & Hz)]; [by apply not_elem_of_nil in Hy|].
    apply elem_of_app in Hy as [Hy|Hy%list_elem_of_singleton]; [|by subst].
    apply StronglySorted_app_inv in Hsa as (_ & _ & Hz'). rewrite Forall_forall in Hz'.
    specialize (Hz' y Hy). apply Forall_cons in Hz' as [? _]. lia.
Qed.

Lemma sort_fold l rest :
  StronglySorted Z.le l ->
  exists r, fold_left (fun a i => sort_shift a (a !!! i) i) (seq (length l) (length rest)) (l ++ rest) = r /\
    StronglySorted Z.le r /\ r ≡ₚ l ++ rest.
Proof.
  revert l. induction rest as [|x rest IH]; intros l Hs; cbn.
  { rewrite app_nil_r. eauto. }
  rewrite lookup_total_middle by done.
  destruct (sort_step l x rest Hs) as (l' & -> & Hs' & Hp).
  assert (El : length l' = S (length l)) by (rewrite Hp, length_app; cbn; lia).
  destruct (IH l' Hs') as (r & Er & Hsr & Hpr). rewrite El in Er. exists r. split_and!; [done|done|].
  by rewrite Hpr, Hp, <- app_assoc.
Qed.

Lemma sort_ints_spec arr : StronglySorted Z.le (sort_ints arr) /\ sort_ints arr ≡ₚ arr.
Proof.
  unfold sort_ints. destruct arr as [|x arr]; [split; [constructor|done]|].
  cbn [length]. rewrite Nat.sub_succ, Nat.sub_0_r.
  destruct (sort_fold [x] arr) as (r & Er & Hs & Hp); [repeat constructor|]. cbn in Er. by rewrite Er.
Qed.

(** ** The conversion of positions *)

(** What a position given by the caller means, and the positions that are in range. *)
Definition to_index (wrap p : Z) : Z := if p <? 0 then p + wrap else p - 1.
Definition indices (wrap : Z) (positions : list Z) : list Z :=
  filter (fun k => 0 <= k < wrap) (map (to_index wrap) positions).

Lemma indices_app wrap a b : indices wrap (a ++ b) = indices wrap a ++ indices wrap b.
Proof. unfold indices. by rewrite map_app, filter_app. Qed.

Lemma indices_cons wrap p ps : indices wrap (p :: ps) =
  (if (to_index wrap p <? 0) || (wrap <=? to_index wrap p) then [] else [to_index wrap p]) ++ indices wrap ps.
Proof.
  unfold indices. cbn [map]. rewrite filter_cons.
  destruct (Z.ltb_spec (to_index wrap p) 0), (Z.leb_spec wrap (to_index wrap p)); cbn;
    case_decide; done || lia.
Qed.

Lemma convert_positions_total wrap positions :
  exists ps, convert_positions wrap positions = Some ps /\ ps ≡ₚ indices wrap positions.
Proof.
  unfold convert_positions.
  apply (iter_total (convert_body wrap)
    (fun v => exists a m g, pv_arr v = a ++ m ++ g /\ pv_j v = length a /\
       pv_n v = (length a + length m)%nat /\ a ++ indices wrap m ≡ₚ indices wrap positions)
    (fun ps => ps ≡ₚ indices wrap positions)
    (fun v => (pv_n v - pv_j v)%nat)); [|exists [], positions, []; by rewrite app_nil_r|cbn; lia].
  intros [arr j n] (a & m & g & E & Ej & En & Hp). cbn in E, Ej, En. subst arr j n.
  unfold convert_body. cbn [pv_arr pv_j pv_n]. destruct m as [|p m].
  { cbn [length]. rewrite Nat.add_0_r, Nat.ltb_irrefl. cbn [app]. rewrite take_app_length.
    by rewrite app_nil_r in Hp. }
  replace (length a <? length a + length (p :: m))%nat with true by (symmetry; apply Nat.ltb_lt; cbn; lia).
  cbn [app]. rewrite lookup_total_middle by done. fold (to_index wrap p).
  rewrite insert_middle by done. rewrite indices_cons in Hp.
  destruct ((to_index wrap p <? 0) || (wrap <=? to_index wrap p)); cbn [pv_arr pv_j pv_n].
  - split; [|cbn; lia]. destruct m as [|l m _] using rev_ind.
    + exists a, [], (to_index wrap p :: g). cbn [length app] in *. split_and!; [|done|lia|done].
      rewrite lookup_total_middle by lia. by rewrite insert_middle.
    + exists a, (l :: m), (l :: g). rewrite <- app_assoc. cbn [app length].
      rewrite length_app. cbn [length].
      change (a ++ to_index wrap p :: m ++ l :: g) with (a ++ (to_index wrap p :: m) ++ l :: g).
      rewrite app_assoc, lookup_total_middle by (rewrite length_app; cbn; lia).
      rewrite <- app_assoc. cbn [app]. rewrite insert_middle by done.
      split_and!; [done|done|lia|]. rewrite <- Hp. cbn [app]. f_equiv.
      rewrite indices_app. rewrite (indices_app wrap [l] m) || change (l :: m) with ([l] ++ m);
        rewrite ?indices_app; apply Permutation_app_comm.
  - split; [|cbn; lia]. exists (a ++ [to_index wrap p]), m, g. rewrite <- !app_assoc.
    rewrite !length_app. cbn [length app] in *. split_and!; [done|lia|lia|done].
Qed.

Lemma indices_range wrap positions : Forall (fun k => 0 <= k < wrap) (indices wrap positions).
Proof. apply Forall_forall. intros k Hk. by apply list_elem_of_filter in Hk as [? _]. Qed.

(** ** The copying loops *)

Lemma emit_app o b (ws us : list bytes) :
  emit o b (ws ++ us) = emit o b ws ++ emit o (b || negb (bool_decide (ws = []))) us.
Proof.
  revert b. induction ws as [|w ws IH]; intros b; cbn; [by rewrite orb_false_r|].
  rewrite IH, orb_true_r, <- !app_assoc. done.
Qed.

(** [at_words v W i rest]: the words [W] are out, as far as they fit; unless the buffer is
    full, the cursor still has the words [rest], the first of them with index [i]. *)
Definition at_words (osep : Z) (v : list_vars) (W : list bytes) (i : nat) (rest : list bytes) : Prop :=
  lv_out v = clamp (emit osep false W) /\
  ((cap <= length (lv_out v))%nat \/
   yields (lv_c v) rest /\ lv_i v = i /\ lv_emitted v = negb (bool_decide (W = []))).

Lemma list_start_at osep data d ws : split_words data d max_words = Some ws ->
  at_words osep (list_start data d) [] 0 ws.
Proof.
  intros H. split; [by rewrite clamp_nil|]. right. by apply split_words_yields in H.
Qed.

(** A full buffer stays as it is. *)
Lemma full_more osep v W W' i rest i' rest' :
  at_words osep v W i rest -> (cap <= length (lv_out v))%nat -> at_words osep v (W ++ W') i' rest'.
Proof.
  intros [Ho _] Hf. split; [|by left]. rewrite emit_app, clamp_full; [done|]. by rewrite <- Ho.
Qed.

Lemma put_sep osep (W : list bytes) w out :
  out = clamp (emit osep false W) ->
  wp_safe_copy (if negb (bool_decide (W = [])) then WP_SAFE out osep else out) w =
  clamp (emit osep false (W ++ [w])).
Proof.
  intros ->. rewrite emit_app. cbn [emit orb]. rewrite app_nil_r.
  destruct (negb (bool_decide (W = []))); cbn [app].
  - by rewrite WP_SAFE_clamp, wp_safe_copy_clamp, <- app_assoc.
  - by rewrite wp_safe_copy_clamp.
Qed.

Lemma app_not_nil (W : list bytes) w : negb (bool_decide (W ++ [w] = [])) = true.
Proof. destruct W; done. Qed.

(** Writing into a full buffer. *)
Lemma put_word_full osep w v : (cap <= length (lv_out v))%nat -> lv_out (put_word osep w v) = lv_out v.
Proof.
  intros Hf. unfold put_word. cbn [lv_out]. rewrite WP_SAFE_full by done.
  destruct (lv_emitted v); by apply wp_safe_copy_full.
Qed.

Lemma put_word_at osep w v W i rest :
  at_words osep v W i rest -> at_words osep (put_word osep w v) (W ++ [w]) i rest.
Proof.
  intros H. destruct (decide (cap <= length (lv_out v))%nat) as [Hf|Hf].
  - pose proof (full_more osep v W [w] i rest i rest H Hf) as [Ho _]. split; rewrite put_word_full by done; auto.
  - destruct H as [Ho [?|(Hy & Hi & He)]]; [lia|]. split.
    + cbn. rewrite He. by apply put_sep.
    + right. split_and!; [done|done|by rewrite app_not_nil].
Qed.

Lemma yields_step c w ws : yields c (w :: ws) -> exists c', wc_next c = Some (c', Some w) /\ yields c' ws.
Proof. intros H. inversion H; subst. eauto. Qed.

Lemma copy_word_at osep v W i w rest :
  at_words osep v W i (w :: rest) ->
  exists v', copy_word osep v = Some v' /\ at_words osep v' (W ++ [w]) (S i) rest.
Proof.
  intros H. unfold copy_word. destruct (wc_next_total (lv_c v)) as (c' & ow & E & _).
  rewrite E. cbn. eexists. split; [done|].
  destruct (decide (cap <= length (lv_out v))%nat) as [Hf|Hf].
  - pose proof (full_more osep v W [w] i (w :: rest) i rest H Hf) as [Ho _].
    rewrite WP_SAFE_full by done.
    replace (if lv_emitted v then lv_out v else lv_out v) with (lv_out v) by (by destruct (lv_emitted v)).
    destruct ow; rewrite ?wp_safe_copy_full by done; by (split; [|left]).
  - destruct H as [Ho [?|(Hy & Hi & He)]]; [lia|].
    apply yields_step in Hy as (c'' & E' & Hy). rewrite E in E'. simplify_eq. split; cbn.
    + rewrite He. by apply put_sep.
    + right. by rewrite app_not_nil.
Qed.

(** The loop copies the next [todo] words. *)
Lemma copy_words_at osep todo v W i rest :
  at_words osep v W i rest -> (todo <= length rest)%nat ->
  exists v', copy_words osep todo v = Some v' /\
    at_words osep v' (W ++ take todo rest) (i + todo) (drop todo rest).
Proof.
  revert v W i rest. induction todo as [|todo IH]; intros v W i rest H Hl; cbn [copy_words].
  { exists v. rewrite take_0, app_nil_r, Nat.add_0_r. done. }
  destruct (Nat.ltb_spec (length (lv_out v)) cap) as [Hf|Hf].
  - destruct rest as [|w rest]; cbn in Hl; [lia|].
    destruct (copy_word_at _ _ _ _ _ _ H) as (v' & -> & Hv'). cbn [mbind option_bind].
    destruct (IH v' (W ++ [w]) (S i) rest Hv' ltac:(lia)) as (v'' & -> & Hv''). exists v''.
    rewrite <- app_assoc in Hv''. cbn in Hv''. by rewrite Nat.add_succ_r.
  - exists v. split; [done|]. by eapply full_more.
Qed.

Lemma skip_word_at osep v W i w rest :
  at_words osep v W i (w :: rest) ->
  exists v', skip_word v = Some v' /\ at_words osep v' W (S i) rest.
Proof.
  intros [Ho H]. unfold skip_word. destruct (wc_next_total (lv_c v)) as (c' & ow & E & _).
  rewrite E. cbn. eexists. split; [done|]. split; [done|]. cbn.
  destruct H as [?|(Hy & Hi & He)]; [by left|right].
  apply yields_step in Hy as (c'' & E' & Hy). rewrite E in E'. simplify_eq. done.
Qed.

(** The loop [while (i < positions[j])] brings the cursor to a position. *)
Lemma copy_to_at osep p v W i rest :
  at_words osep v W i rest -> Z.of_nat i <= p <= Z.of_nat (i + length rest) ->
  exists v', copy_words osep (Z.to_nat p - lv_i v) v = Some v' /\
    at_words osep v' (W ++ take (Z.to_nat p - i) rest) (Z.to_nat p) (drop (Z.to_nat p - i) rest).
Proof.
  intros H Hp. destruct (decide (cap <= length (lv_out v))%nat) as [Hf|Hf].
  - exists v. split; [|by eapply full_more]. destruct (_ - _)%nat; [done|]. cbn [copy_words].
    by replace (length (lv_out v) <? cap)%nat with false by (symmetry; by apply Nat.ltb_ge).
  - assert (Hi : lv_i v = i) by (destruct H as [_ [?|(? & ? & ?)]]; [lia|done]). rewrite Hi.
    destruct (copy_words_at osep (Z.to_nat p - i) v W i rest H ltac:(lia)) as (v' & ? & Hv').
    exists v'. split; [done|]. by replace (i + (Z.to_nat p - i))%nat with (Z.to_nat p) in Hv' by lia.
Qed.

(** The final loop copies the rest. *)
Lemma finish_list_at osep n v W i rest :
  at_words osep v W i rest -> n = (i + length rest)%nat ->
  finish_list osep n v = Some (clamp (emit osep false (W ++ rest))).
Proof.
  intros H ->. unfold finish_list.
  destruct (copy_to_at osep (Z.of_nat (i + length rest)) v W i rest H ltac:(lia)) as (v' & E & Hv').
  rewrite Nat2Z.id in E. rewrite E. cbn. rewrite take_ge in Hv' by lia. by destruct Hv' as [-> _].
Qed.

(** ** The position loops *)

(** The words with those whose index is in [P] replaced, or removed, and the words with
    [word] put before those whose index is in [P], as often as it occurs there; [k] is the
    index of the first word. *)
Fixpoint replaced (word : bytes) (P : list Z) (k : nat) (ws : list bytes) : list bytes :=
  match ws with
  | [] => []
  | w :: ws' => (if decide (Z.of_nat k ∈ P) then word else w) :: replaced word P (S k) ws'
  end.
Fixpoint removed (P : list Z) (k : nat) (ws : list bytes) : list bytes :=
  match ws with
  | [] => []
  | w :: ws' => (if decide (Z.of_nat k ∈ P) then [] else [w]) ++ removed P (S k) ws'
  end.
Fixpoint inserted (word : bytes) (P : list Z) (k : nat) (ws : list bytes) : list bytes :=
  repeat word (count_occ Z.eq_dec P (Z.of_nat k)) ++
  match ws with
  | [] => []
  | w :: ws' => w :: inserted word P (S k) ws'
  end.

(** What the three operations do up to the next position, for [op] one of them. *)
Section UpTo.
Context (op : list Z -> nat -> list bytes -> list bytes).
Context (op_skip : forall P k w ws, Z.of_nat k ∉ P -> op P k (w :: ws) = w :: op P (S k) ws).

Lemma op_up_to P k p ws :
  Forall (Z.le p) P -> Z.of_nat k <= p <= Z.of_nat (k + length ws) ->
  op P k ws = take (Z.to_nat p - k) ws ++ op P (Z.to_nat p) (drop (Z.to_nat p - k) ws).
Proof.
  intros HP. revert k. induction ws as [|w ws IH]; intros k Hk; cbn [length] in Hk.
  - rewrite take_nil, drop_nil. replace (Z.to_nat p) with k by lia. done.
  - destruct (Z.to_nat p - k)%nat as [|m] eqn:E; [replace (Z.to_nat p) with k by lia; done|].
    rewrite op_skip.
    + cbn. rewrite (IH (S k)) by lia. by replace (Z.to_nat p - S k)%nat with m by lia.
    + intros Hin. rewrite Forall_forall in HP. apply HP in Hin. lia.
Qed.
End UpTo.

Lemma replaced_skip word P k w ws : Z.of_nat k ∉ P ->
  replaced word P k (w :: ws) = w :: replaced word P (S k) ws.
Proof. intros H. cbn. by rewrite decide_False. Qed.
Lemma removed_skip P k w ws : Z.of_nat k ∉ P -> removed P k (w :: ws) = w :: removed P (S k) ws.
Proof. intros H. cbn. by rewrite decide_False. Qed.
Lemma inserted_skip word P k w ws : Z.of_nat k ∉ P ->
  inserted word P k (w :: ws) = w :: inserted word P (S k) ws.
Proof.
  intros H. cbn. rewrite (proj1 (count_occ_not_In Z.eq_dec _ _)); [done|].
  by rewrite <- list_elem_of_In.
Qed.

Lemma replaced_nil word k ws : replaced word [] k ws = ws.
Proof. revert k. induction ws as [|w ws IH]; intros k; cbn; [done|]. by rewrite IH. Qed.
Lemma removed_nil k ws : removed [] k ws = ws.
Proof. revert k. induction ws as [|w ws IH]; intros k; cbn; [done|]. by rewrite IH. Qed.
Lemma inserted_nil word k ws : inserted word [] k ws = ws.
Proof. revert k. induction ws as [|w ws IH]; intros k; cbn; [done|]. by rewrite IH. Qed.

(** Positions before [k] do not matter. *)
Lemma replaced_ext word P Q k ws : (forall x, Z.of_nat k <= x -> x ∈ P <-> x ∈ Q) ->
  replaced word P k ws = replaced word Q k ws.
Proof.
  revert k. induction ws as [|w ws IH]; intros k H; [done|]. cbn.
  rewrite (IH (S k)) by (intros; apply H; lia). f_equal.
  destruct (decide (Z.of_nat k ∈ P)) as [Hp|Hp]; rewrite H in Hp by lia;
    by rewrite ?decide_True, ?decide_False by done.
Qed.
Lemma removed_ext P Q k ws : (forall x, Z.of_nat k <= x -> x ∈ P <-> x ∈ Q) ->
  removed P k ws = removed Q k ws.
Proof.
  revert k. induction ws as [|w ws IH]; intros k H; [done|]. cbn.
  rewrite (IH (S k)) by (intros; apply H; lia). f_equal.
  destruct (decide (Z.of_nat k ∈ P)) as [Hp|Hp]; rewrite H in Hp by lia;
    by rewrite ?decide_True, ?decide_False by done.
Qed.
Lemma inserted_perm word P Q k ws : P ≡ₚ Q -> inserted word P k ws = inserted word Q k ws.
Proof.
  intros H. revert k. induction ws as [|w ws IH]; intros k; cbn;
    rewrite (proj1 (Permutation_count_occ Z.eq_dec P Q) H), ?IH; done.
Qed.

Lemma skip_dups_in p ps x : p < x -> x ∈ skip_dups p ps <-> x ∈ p :: ps.
Proof.
  intros Hx. induction ps as [|q ps IH]; cbn.
  { rewrite elem_of_cons, elem_of_nil. intuition lia. }
  destruct (Z.eqb_spec p q) as [->|]; rewrite ?IH, !elem_of_cons; intuition lia.
Qed.

Lemma skip_dups_suffix p ps : exists l, ps = l ++ skip_dups p ps.
Proof.
  induction ps as [|q ps [l IH]]; cbn; [by exists []|].
  destruct (p =? q); [exists (q :: l); cbn; by rewrite <- IH|by exists []].
Qed.

(** After a position, the remaining ones of a sorted list are greater. *)
Lemma skip_dups_sorted p ps : StronglySorted Z.le (p :: ps) ->
  StronglySorted Z.le (skip_dups p ps) /\ Forall (fun q => p < q) (skip_dups p ps).
Proof.
  intros H. apply StronglySorted_inv in H as [Hs Hp]. induction ps as [|q ps IH]; cbn.
  { repeat constructor. }
  apply StronglySorted_inv in Hs as [Hs Hq]. apply Forall_cons in Hp as [Hp Hp'].
  destruct (Z.eqb_spec p q) as [->|]; [by apply IH|]. split; [by constructor|].
  constructor; [lia|]. eapply Forall_impl; [exact Hq|]. cbn. lia.
Qed.

(** What a position loop leaves: the words written and those still to come are [target],
    and the indices add up to [total]. *)
Definition loop_done (osep : Z) (r : option list_vars) (target : list bytes) (total : nat) : Prop :=
  exists v W i rest, r = Some v /\ at_words osep v W i rest /\ W ++ rest = target /\
    (i + length rest = total)%nat.

(** One position: the loop comes to it with the word at the position first. *)
Lemma position_at osep p v W i rest :
  at_words osep v W i rest -> Z.of_nat i <= p < Z.of_nat (i + length rest) ->
  exists v' w rest', copy_words osep (Z.to_nat p - lv_i v) v = Some v' /\
    at_words osep v' (W ++ take (Z.to_nat p - i) rest) (Z.to_nat p) (w :: rest') /\
    drop (Z.to_nat p - i) rest = w :: rest' /\ (Z.to_nat p + S (length rest') = i + length rest)%nat.
Proof.
  intros H Hp. destruct (copy_to_at osep p v W i rest H ltac:(lia)) as (v' & E & Hv').
  destruct (drop (Z.to_nat p - i) rest) as [|w rest'] eqn:Ed.
  - apply (f_equal length) in Ed. rewrite length_drop in Ed. cbn in Ed. lia.
  - exists v', w, rest'. split_and!; [done|done|done|]. apply (f_equal length) in Ed.
    rewrite length_drop in Ed. cbn in Ed. lia.
Qed.

Lemma sorted_ge p ps : StronglySorted Z.le (p :: ps) -> Forall (Z.le p) (p :: ps).
Proof. intros H. apply StronglySorted_inv in H as [_ H]. by constructor. Qed.

Lemma later_range p ps (n : Z) : StronglySorted Z.le (p :: ps) -> Forall (fun q => q < n) ps ->
  Forall (fun q => Z.succ p <= q < n) (skip_dups p ps).
Proof.
  intros Hs Hr. apply skip_dups_sorted in Hs as [_ Hg]. destruct (skip_dups_suffix p ps) as [l E].
  rewrite E in Hr. apply Forall_app in Hr as [_ Hr]. rewrite Forall_forall in *.
  intros q Hq. specialize (Hr q Hq). specialize (Hg q Hq). lia.
Qed.

Lemma skip_dups_length p ps : (length (skip_dups p ps) <= length ps)%nat.
Proof. destruct (skip_dups_suffix p ps) as [l E]. rewrite E at 2. rewrite length_app. lia. Qed.

Lemma replace_loop_done word osep fuel ps v W i rest :
  at_words osep v W i rest -> StronglySorted Z.le ps ->
  Forall (fun p => Z.of_nat i <= p < Z.of_nat (i + length rest)) ps -> (length ps <= fuel)%nat ->
  loop_done osep (replace_loop word osep fuel ps v) (W ++ replaced word ps i rest) (i + length rest).
Proof.
  revert ps v W i rest. induction fuel as [|fuel IH]; intros [|p ps] v W i rest H Hs Hr Hl;
    cbn [length] in Hl; try lia; cbn [replace_loop].
  1,2: by exists v, W, i, rest; rewrite replaced_nil.
  apply Forall_cons in Hr as [Hp Hr].
  destruct (position_at osep p v W i rest H Hp) as (v' & w & rest' & -> & Hv' & Ed & El).
  cbn [mbind option_bind]. apply (put_word_at osep word) in Hv'.
  destruct (skip_word_at _ _ _ _ _ _ Hv') as (v'' & -> & Hv''). cbn [mbind option_bind].
  pose proof (skip_dups_length p ps).
  destruct (IH (skip_dups p ps) v'' _ _ _ Hv'') as (u & U & j & r' & E & Hu & EU & Ej).
  - by apply skip_dups_sorted.
  - eapply Forall_impl; [apply (later_range p ps (Z.of_nat (i + length rest))); [done|]|].
    + eapply Forall_impl; [exact Hr|]. cbn. lia.
    + cbn. lia.
  - lia.
  - exists u, U, j, r'. split_and!; [done|done| |lia]. rewrite EU, <- !app_assoc. f_equal.
    rewrite (op_up_to (replaced word) (replaced_skip word) (p :: ps) i p rest)
      by (lia || by apply sorted_ge). f_equal. rewrite Ed. cbn.
    rewrite decide_True by (rewrite Z2Nat.id by lia; by left). f_equal.
    apply replaced_ext. intros x Hx. apply skip_dups_in. lia.
Qed.

Lemma delete_loop_done osep fuel ps v W i rest :
  at_words osep v W i rest -> StronglySorted Z.le ps ->
  Forall (fun p => Z.of_nat i <= p < Z.of_nat (i + length rest)) ps -> (length ps <= fuel)%nat ->
  loop_done osep (delete_loop osep fuel ps v) (W ++ removed ps i rest) (i + length rest).
Proof.
  revert ps v W i rest. induction fuel as [|fuel IH]; intros [|p ps] v W i rest H Hs Hr Hl;
    cbn [length] in Hl; try lia; cbn [delete_loop].
  1,2: by exists v, W, i, rest; rewrite removed_nil.
  apply Forall_cons in Hr as [Hp Hr].
  destruct (position_at osep p v W i rest H Hp) as (v' & w & rest' & -> & Hv' & Ed & El).
  cbn [mbind option_bind].
  destruct (skip_word_at _ _ _ _ _ _ Hv') as (v'' & -> & Hv''). cbn [mbind option_bind].
  pose proof (skip_dups_length p ps).
  destruct (IH (skip_dups p ps) v'' _ _ _ Hv'') as (u & U & j & r' & E & Hu & EU & Ej).
  - by apply skip_dups_sorted.
  - eapply Forall_impl; [apply (later_range p ps (Z.of_nat (i + length rest))); [done|]|].
    + eapply Forall_impl; [exact Hr|]. cbn. lia.
    + cbn. lia.
  - lia.
  - exists u, U, j, r'. split_and!; [done|done| |lia]. rewrite EU, <- !app_assoc. f_equal.
    rewrite (op_up_to removed removed_skip (p :: ps) i p rest)
      by (lia || by apply sorted_ge). f_equal. rewrite Ed. cbn.
    rewrite decide_True by (rewrite Z2Nat.id by lia; by left). cbn.
    apply removed_ext. intros x Hx. apply skip_dups_in. lia.
Qed.

(** A word inserted at the index the list starts with. *)
Lemma inserted_here word P k ws : inserted word (Z.of_nat k :: P) k ws = word :: inserted word P k ws.
Proof.
  assert (Hlater : forall ws m, (k < m)%nat -> inserted word (Z.of_nat k :: P) m ws = inserted word P m ws).
  { clear ws. induction ws as [|x ws IH]; intros m Hm; cbn [inserted];
      rewrite count_occ_cons_neq by lia; [done|]. by rewrite IH by lia. }
  destruct ws as [|w ws]; cbn [inserted]; rewrite count_occ_cons_eq by done; cbn [repeat app]; [done|].
  by rewrite Hlater by lia.
Qed.

Lemma insert_loop_done word osep ps v W i rest :
  at_words osep v W i rest -> StronglySorted Z.le ps ->
  Forall (fun p => Z.of_nat i <= p <= Z.of_nat (i + length rest)) ps ->
  loop_done osep (insert_loop word osep ps v) (W ++ inserted word ps i rest) (i + length rest).
Proof.
  revert v W i rest. induction ps as [|p ps IH]; intros v W i rest H Hs Hr; cbn [insert_loop].
  { by exists v, W, i, rest; rewrite inserted_nil. }
  apply Forall_cons in Hr as [Hp Hr].
  destruct (copy_to_at osep p v W i rest H Hp) as (v' & -> & Hv'). cbn [mbind option_bind].
  apply (put_word_at osep word) in Hv'. pose proof (sorted_ge _ _ Hs) as Hge.
  apply StronglySorted_inv in Hs as [Hs Hps].
  destruct (IH _ _ _ _ Hv' Hs) as (u & U & j & r' & E & Hu & EU & Ej).
  - rewrite Forall_forall in *. intros q Hq. specialize (Hr q Hq). specialize (Hps q Hq).
    rewrite length_drop. lia.
  - exists u, U, j, r'. rewrite length_drop in Ej. split_and!; [done|done| |lia].
    rewrite EU, <- !app_assoc. f_equal.
    rewrite (op_up_to (inserted word) (inserted_skip word) (p :: ps) i p rest) by (lia || done).
    f_equal. replace (p :: ps) with (Z.of_nat (Z.to_nat p) :: ps) by (f_equal; lia). by rewrite inserted_here.
Qed.

(** *** The other loops *)

Lemma insert_word_loop_done word osep n ins todo v W i rest :
  at_words osep v W i rest -> n = (i + length rest)%nat -> todo = (S n - i)%nat ->
  (if decide (i <= ins)%nat then ins <= n else True)%nat ->
  exists v', insert_word_loop word osep n ins todo v = Some v' /\
    lv_out v' = clamp (emit osep false (W ++
      if decide (i <= ins)%nat then take (ins - i) rest ++ word :: drop (ins - i) rest else rest)).
Proof.
  revert v W i rest. induction todo as [|todo IH]; intros v W i rest H Hn Ht Hins; [lia|].
  cbn [insert_word_loop].
  destruct (Nat.ltb_spec (length (lv_out v)) cap) as [Hf|Hf].
  2: { exists v. split; [done|]. pose proof (full_more osep v W (if decide (i <= ins)%nat then
         take (ins - i) rest ++ word :: drop (ins - i) rest else rest) i rest i rest H Hf) as [Ho _]. done. }
  assert (Hi : lv_i v = i) by (destruct H as [_ [?|(? & ? & ?)]]; [lia|done]). rewrite Hi.
  set (v1 := if (i =? ins)%nat then put_word osep word v else v).
  set (W1 := if decide (i = ins) then W ++ [word] else W).
  assert (H1 : at_words osep v1 W1 i rest).
  { subst v1 W1. destruct (Nat.eqb_spec i ins); [rewrite decide_True by done; by apply put_word_at|].
    by rewrite decide_False. }
  clearbody v1. destruct rest as [|w rest]; cbn [length] in *.
  - replace (i <? n)%nat with false by (symmetry; apply Nat.ltb_ge; lia). cbn [mbind option_bind].
    replace todo with 0%nat by lia. exists v1. split; [done|]. destruct H1 as [-> _]. subst W1.
    case_decide; case_decide; try lia; by rewrite ?take_nil, ?drop_nil, ?app_nil_r.
  - replace (i <? n)%nat with true by (symmetry; apply Nat.ltb_lt; lia).
    destruct (copy_word_at _ _ _ _ _ _ H1) as (v2 & -> & Hv2). cbn [mbind option_bind].
    destruct (IH v2 _ _ _ Hv2 ltac:(lia) ltac:(lia)) as (v' & E & Ho); [by repeat case_decide; lia|].
    exists v'. split; [done|]. rewrite Ho. subst W1. do 2 f_equal.
    destruct (lt_eq_lt_dec i ins) as [[Hlt|<-]|Hgt].
    + rewrite (decide_True (P := (i <= ins)%nat)), (decide_True (P := (S i <= ins)%nat)), decide_False by lia.
      replace (ins - i)%nat with (S (ins - S i)) by lia. by rewrite <- app_assoc.
    + rewrite decide_True, decide_False, decide_True, Nat.sub_diag by lia. cbn. by rewrite <- !app_assoc.
    + rewrite !decide_False by lia. by rewrite <- app_assoc.
Qed.

(** The words of the first list, those equal to [splain] without colour replaced by the
    words of the second list. *)
Definition spliced (splain : bytes) (ws1 ws2 : list bytes) : list bytes :=
  zip_with (fun w1 w2 => if same_bytes (co_strip_color w1) splain then w2 else w1) ws1 ws2.

Lemma splice_loop_out splain osep i v W ws1 ws2 :
  sp_out v = clamp (emit osep false W) -> length W = i ->
  yields (sp_c1 v) ws1 -> yields (sp_c2 v) ws2 -> length ws1 = length ws2 ->
  splice_loop splain osep (length ws1) i v = Some (clamp (emit osep false (W ++ spliced splain ws1 ws2))).
Proof.
  revert i v W ws2. induction ws1 as [|w1 ws1 IH]; intros i v W ws2 Ho Hi H1 H2 Hl; cbn [splice_loop length].
  { cbn. by rewrite app_nil_r, Ho. }
  destruct ws2 as [|w2 ws2]; [done|].
  destruct (Nat.ltb_spec (length (sp_out v)) cap) as [Hf|Hf].
  - apply yields_step in H1 as (c1 & -> & H1). cbn [mbind option_bind].
    apply yields_step in H2 as (c2 & -> & H2). cbn [mbind option_bind].
    unfold spliced. cbn [zip_with]. set (w := if same_bytes (co_strip_color w1) splain then w2 else w1).
    rewrite (IH (S i) _ (W ++ [w]) ws2); [by rewrite <- app_assoc| |by rewrite length_app; cbn; lia|done|done|by injection Hl].
    cbn. rewrite <- (put_sep osep W w (sp_out v) Ho). f_equal.
    destruct W as [|x W]; cbn in Hi; subst i; [done|by rewrite bool_decide_false by done].
  - f_equal. rewrite emit_app, clamp_full; [done|]. by rewrite <- Ho.
Qed.

Lemma split_words_nil d max : split_words [] d max = Some [].
Proof. unfold split_words, wc_init. cbn. unfold wc_next. cbn. by destruct (d =? 32). Qed.

Lemma split_words_data_nil data d max ws :
  split_words data d max = Some ws -> length data = 0%nat -> ws = [].
Proof. intros H E. apply nil_length_inv in E as ->. rewrite split_words_nil in H. congruence. Qed.

(** The words of a list under the cap of the list functions: every list has them. *)
Definition list_words (data : bytes) (d : Z) : list bytes :=
  default [] (split_words data d max_words).

Lemma list_words_split data d : split_words data d max_words = Some (list_words data d).
Proof. unfold list_words. by destruct (split_words_total data d max_words) as [ws ->]. Qed.

Lemma list_words_count data d : count_words data d max_words = Some (length (list_words data d)).
Proof. by rewrite count_split, list_words_split. Qed.

Lemma list_words_nil data d : (length data = 0)%nat -> list_words data d = [].
Proof. intros H. eapply split_words_data_nil; [apply list_words_split|done]. Qed.

Lemma indices_sorted wrap positions ps :
  ps ≡ₚ indices wrap positions ->
  StronglySorted Z.le (sort_ints ps) /\ sort_ints ps ≡ₚ indices wrap positions /\
  Forall (fun p => 0 <= p < wrap) (sort_ints ps).
Proof.
  intros H. destruct (sort_ints_spec ps) as [Hs Hp]. pose proof (transitivity Hp H) as Hp'.
  split_and!; [done|done|]. rewrite Hp'. apply indices_range.
Qed.

(** When no position is in range the list is copied. *)
Lemma copy_list_out osep data d :
  copy_list osep (length (list_words data d)) (list_start data d) =
  Some (clamp (emit osep false (list_words data d))).
Proof.
  pose proof (finish_list_at osep (length (list_words data d)) (list_start data d) [] 0
    (list_words data d) (list_start_at osep data d _ (list_words_split data d)) eq_refl) as H.
  unfold finish_list in H. cbn [lv_i list_start] in H. by rewrite Nat.sub_0_r in H.
Qed.

Lemma loop_finish osep r target total :
  loop_done osep r target total ->
  (v ← r; finish_list osep total v) = Some (clamp (emit osep false target)).
Proof.
  intros (v & W & i & rest & -> & H & <- & <-). cbn [mbind option_bind].
  by rewrite (finish_list_at osep _ v W i rest H).
Qed.

Lemma co_replace_at_words data positions word d osep :
  co_replace_at data positions word d osep =
  Some (clamp (emit osep false
    (replaced word (indices (Z.of_nat (length (list_words data d))) positions) 0 (list_words data d)))).
Proof.
  unfold co_replace_at. destruct (Nat.eqb_spec (length data) 0) as [E|_].
  { rewrite (list_words_nil data d E). by rewrite clamp_nil. }
  rewrite list_words_count. cbn [mbind option_bind]. set (n := length (list_words data d)).
  destruct (convert_positions_total (Z.of_nat n) positions) as (ps & -> & Hp). cbn [mbind option_bind].
  destruct (Nat.eqb_spec (length ps) 0) as [E|_].
  { apply nil_length_inv in E as ->. apply Permutation_nil_l in Hp as <-.
    by rewrite replaced_nil, <- copy_list_out. }
  destruct (indices_sorted _ _ _ Hp) as (Hs & Hperm & Hr).
  pose proof (replace_loop_done word osep (length ps) (sort_ints ps) (list_start data d) [] 0
    (list_words data d) (list_start_at osep data d _ (list_words_split data d)) Hs) as H.
  specialize (H Hr ltac:(by rewrite Hperm, <- Hp)). apply loop_finish in H. cbn [Nat.add app] in H.
  subst n. rewrite H. do 3 f_equal.
  apply replaced_ext. intros x _. by rewrite Hperm.
Qed.

Lemma co_delete_at_words data positions d osep :
  co_delete_at data positions d osep =
  Some (clamp (emit osep false
    (removed (indices (Z.of_nat (length (list_words data d))) positions) 0 (list_words data d)))).
Proof.
  unfold co_delete_at. destruct (Nat.eqb_spec (length data) 0) as [E|_].
  { rewrite (list_words_nil data d E). by rewrite clamp_nil. }
  rewrite list_words_count. cbn [mbind option_bind]. set (n := length (list_words data d)).
  destruct (convert_positions_total (Z.of_nat n) positions) as (ps & -> & Hp). cbn [mbind option_bind].
  destruct (indices_sorted _ _ _ Hp) as (Hs & Hperm & Hr).
  pose proof (delete_loop_done osep (length ps) (sort_ints ps) (list_start data d) [] 0
    (list_words data d) (list_start_at osep data d _ (list_words_split data d)) Hs) as H.
  specialize (H Hr ltac:(by rewrite Hperm, <- Hp)). apply loop_finish in H. cbn [Nat.add app] in H.
  subst n. rewrite H. do 3 f_equal.
  apply removed_ext. intros x _. by rewrite Hperm.
Qed.

Lemma co_insert_at_words data positions word d osep :
  co_insert_at data positions word d osep =
  Some (clamp (emit osep false
    (inserted word (indices (Z.of_nat (length (list_words data d)) + 1) positions) 0 (list_words data d)))).
Proof.
  unfold co_insert_at. rewrite list_words_count. cbn [mbind option_bind].
  destruct ((length data =? 0)%nat && negb _) eqn:Eb.
  { apply andb_prop in Eb as [E Eb]. apply Nat.eqb_eq in E. rewrite (list_words_nil data d E).
    cbn [length]. change (Z.of_nat 0 + 1) with 1. replace (indices 1 positions) with (@nil Z).
    { by rewrite inserted_nil, clamp_nil. }
    symmetry. clear E. induction positions as [|p ps IH]; [done|]. rewrite indices_cons.
    cbn in Eb. rewrite negb_orb in Eb. apply andb_prop in Eb as [Ep Eb]. rewrite (IH Eb), app_nil_r.
    rewrite negb_orb in Ep. apply andb_prop in Ep as [E1 E2]. apply negb_true_iff in E1, E2. byte_hyps.
    unfold to_index. destruct (Z.ltb_spec p 0); repeat case_match; try done; lia. }
  set (n := length (list_words data d)).
  destruct (convert_positions_total (Z.of_nat n + 1) positions) as (ps & -> & Hp). cbn [mbind option_bind].
  destruct (Nat.eqb_spec (length ps) 0) as [E|_].
  { apply nil_length_inv in E as ->. apply Permutation_nil_l in Hp as <-.
    by rewrite inserted_nil, <- copy_list_out. }
  destruct (indices_sorted _ _ _ Hp) as (Hs & Hperm & Hr).
  pose proof (insert_loop_done word osep (sort_ints ps) (list_start data d) [] 0
    (list_words data d) (list_start_at osep data d _ (list_words_split data d)) Hs) as H.
  specialize (H ltac:(eapply Forall_impl; [exact Hr|]; cbn; lia)). apply loop_finish in H.
  cbn [Nat.add app] in H. subst n. rewrite H. do 3 f_equal. by apply inserted_perm.
Qed.

(** ** Properties *)

(** the position conversion terminates and leaves exactly the positions in range, as
    0-based indices: 1 is the first word, -1 the last, and the others are dropped by the
    swap with the last entry, whatever their order; [sort_ints] then sorts them in place. *)
Theorem convert_positions_spec n positions :
  exists ps, convert_positions (Z.of_nat n) positions = Some ps /\
    ps ≡ₚ filter (fun k => 0 <= k < Z.of_nat n)
            (map (fun p => if p <? 0 then p + Z.of_nat n else p - 1) positions) /\
    StronglySorted Z.le (sort_ints ps) /\ sort_ints ps ≡ₚ ps.
Proof.
  destruct (convert_positions_total (Z.of_nat n) positions) as (ps & E & Hp).
  exists ps. split_and!; [done|done|apply sort_ints_spec|apply sort_ints_spec].
Qed.

(** on any text, [co_replace_at] writes the words of the list with those at the given
    positions replaced, each once, in the order of the list. *)
Theorem replace_at_spec data positions word d osep :
  exists ws, split_words data d max_words = Some ws /\
  co_replace_at data positions word d osep =
  Some (clamp (emit osep false
    (imap (fun k w => if decide (Z.of_nat k ∈ indices (Z.of_nat (length ws)) positions)
                      then word else w) ws))).
Proof.
  exists (list_words data d). split; [apply list_words_split|]. rewrite co_replace_at_words. do 3 f_equal.
  generalize (indices (Z.of_nat (length (list_words data d))) positions). intros P.
  assert (H : forall ws k, replaced word P k ws =
    imap (fun j w => if decide (Z.of_nat (k + j) ∈ P) then word else w) ws).
  { induction ws as [|w ws IH]; intros k; [done|]. cbn. rewrite Nat.add_0_r, IH. f_equal.
    apply imap_ext. intros j x _. cbn. by rewrite Nat.add_succ_r. }
  apply H.
Qed.

(** on any text, [co_delete_at] writes the words of the list without those at the given
    positions. *)
Theorem delete_at_spec data positions d osep :
  exists ws, split_words data d max_words = Some ws /\
  co_delete_at data positions d osep =
  Some (clamp (emit osep false
    (removed (indices (Z.of_nat (length ws)) positions) 0 ws))).
Proof.
  exists (list_words data d). split; [apply list_words_split|]. apply co_delete_at_words.
Qed.

(** On any text, [co_insert_at] puts the word before each of the given positions, as
    often as the position is given; the position after the last word is in range.  The
    early return of the code for an empty list is a special case. *)
Lemma insert_at_total data positions word d osep :
  exists ws, split_words data d max_words = Some ws /\
  co_insert_at data positions word d osep =
  Some (clamp (emit osep false
    (inserted word (indices (Z.of_nat (length ws) + 1) positions) 0 ws))).
Proof.
  exists (list_words data d). split; [apply list_words_split|]. apply co_insert_at_words.
Qed.

(** On any text, [co_insert_word] writes the list with the word at position [iPos]
    (1-based; 0 is the front, a position past the end is the end). *)
Lemma insert_word_total data word iPos d osep :
  exists ws, split_words data d max_words = Some ws /\
  let ins := Nat.min (iPos - 1) (length ws) in
  co_insert_word data word iPos d osep =
  Some (clamp (emit osep false (take ins ws ++ word :: drop ins ws))).
Proof.
  exists (list_words data d). split; [apply list_words_split|].
  unfold co_insert_word. rewrite list_words_count. cbn [mbind option_bind].
  set (n := length (list_words data d)).
  assert (Hins : (let ins := if (0 <? iPos)%nat then (iPos - 1)%nat else 0%nat in
                  if (n <? ins)%nat then n else ins) = Nat.min (iPos - 1) n).
  { cbn zeta. destruct (Nat.ltb_spec 0 iPos);
      match goal with |- context [(n <? ?x)%nat] => destruct (Nat.ltb_spec n x) end; lia. }
  cbn zeta in Hins |- *. rewrite Hins.
  destruct (insert_word_loop_done word osep n (Nat.min (iPos - 1) n) (S n) (list_start data d) [] 0
    (list_words data d) (list_start_at osep data d _ (list_words_split data d))) as (v & -> & Hv);
    [done|lia|case_decide; lia|].
  cbn [mbind option_bind]. by rewrite Hv, decide_True, Nat.sub_0_r by lia.
Qed.

(** on any text, [co_insert_at] puts the word before each of the given positions, as
    often as the position is given; the position after the last word is in range.
    [co_insert_word] puts the word at position [iPos] (1-based; 0 is the front, a position
    past the end is the end). *)
Theorem insert_spec data positions word iPos d osep :
  exists ws, split_words data d max_words = Some ws /\
  co_insert_at data positions word d osep =
    Some (clamp (emit osep false
      (inserted word (indices (Z.of_nat (length ws) + 1) positions) 0 ws))) /\
  let ins := Nat.min (iPos - 1) (length ws) in
  co_insert_word data word iPos d osep =
    Some (clamp (emit osep false (take ins ws ++ word :: drop ins ws))).
Proof.
  destruct (insert_at_total data positions word d osep) as (ws & E & H1).
  destruct (insert_word_total data word iPos d osep) as (ws' & E' & H2).
  rewrite E in E'. injection E' as <-. by exists ws.
Qed.

(** on any texts, [co_splice] gives nothing when the lists have different numbers of
    words, and otherwise the first list with the words equal to the search word, colour
    aside, replaced by the words at the same place in the second list. *)
Theorem splice_spec list1 list2 search d osep :
  exists ws1 ws2, split_words list1 d max_words = Some ws1 /\ split_words list2 d max_words = Some ws2 /\
  co_splice list1 list2 search d osep =
  Some (if decide (length ws1 = length ws2)
        then clamp (emit osep false (zip_with (fun w1 w2 =>
               if same_bytes (co_strip_color w1) (co_strip_color search) then w2 else w1) ws1 ws2))
        else []).
Proof.
  exists (list_words list1 d), (list_words list2 d). rewrite !list_words_split. split_and!; [done|done|].
  unfold co_splice. rewrite !list_words_count. cbn [mbind option_bind].
  case_decide as E.
  - rewrite E, Nat.eqb_refl. cbn [negb]. rewrite <- E.
    rewrite (splice_loop_out _ _ 0 _ [] (list_words list1 d) (list_words list2 d)); try done.
    + by rewrite clamp_nil.
    + apply split_words_yields, list_words_split.
    + apply split_words_yields, list_words_split.
  - apply Nat.eqb_neq in E as ->. done.
Qed.
End Lists.
