(* ===== verification/ColorState.v ===== *)
(** * Stage 5 of [color_ops.c]: colour states and colour collapse

    The decoder of colour code points ([parse_bmp_color], [parse_smp_color]), the encoder
    ([find_nearest_palette], [emit_pua_bmp], [emit_pua_smp], [emit_transition]) and the
    functions built on them: [co_collapse_color], [co_apply_color], [consume_pua] and
    [co_merge].  The encoder is shown correct against the decoder: decoding what
    [emit_transition] writes gives the state asked for, up to [cs_eqv], the equivalence of
    states that look the same. *)

From S2P Require Import Prelude Encoding Scan.
From Stdlib Require Import Setoid Morphisms.

(** ** States *)

(** One of the two colour layers of [co_ColorState]: [fg], [fg_r], [fg_g], [fg_b], and
    [bg], [bg_r], [bg_g], [bg_b].  The index is -1 for the default colour, 0-255 for a
    palette entry and -2 for 24-bit RGB. *)
Record layer := Layer { l_idx : Z; l_r : Z; l_g : Z; l_b : Z }.

Record co_ColorState := CS {
  fg : layer; bg : layer;
  intense : bool; underline : bool; blink : bool; inverse : bool
}.

#[export] Instance layer_eq_dec : EqDecision layer.
Proof. solve_decision. Defined.
#[export] Instance cs_eq_dec : EqDecision co_ColorState.
Proof. solve_decision. Defined.

Definition layer_default : layer := Layer (-1) 0 0 0.
Definition CO_CS_NORMAL : co_ColorState := CS layer_default layer_default false false false false.

Definition co_cs_equal (a b : co_ColorState) : bool := bool_decide (a = b).

Definition set_fg (l : layer) (cs : co_ColorState) : co_ColorState :=
  CS l (bg cs) (intense cs) (underline cs) (blink cs) (inverse cs).
Definition set_bg (l : layer) (cs : co_ColorState) : co_ColorState :=
  CS (fg cs) l (intense cs) (underline cs) (blink cs) (inverse cs).
Definition set_intense (cs : co_ColorState) : co_ColorState :=
  CS (fg cs) (bg cs) true (underline cs) (blink cs) (inverse cs).
Definition set_underline (cs : co_ColorState) : co_ColorState :=
  CS (fg cs) (bg cs) (intense cs) true (blink cs) (inverse cs).
Definition set_blink (cs : co_ColorState) : co_ColorState :=
  CS (fg cs) (bg cs) (intense cs) (underline cs) true (inverse cs).
Definition set_inverse (cs : co_ColorState) : co_ColorState :=
  CS (fg cs) (bg cs) (intense cs) (underline cs) (blink cs) true.

(** ** The XTERM palette *)

Definition XC (v : Z) : Z := if v =? 0 then 0 else 55 + 40 * v.
Definition XROW (r g : Z) : list (Z * Z * Z) :=
  map (fun b => (XC r, XC g, XC b)) [0; 1; 2; 3; 4; 5].
Definition XPLANE (r : Z) : list (Z * Z * Z) := flat_map (XROW r) [0; 1; 2; 3; 4; 5].
Definition XG (i : nat) : Z * Z * Z :=
  let v := 8 + 10 * Z.of_nat i in (v, v, v).

Definition xterm_palette : list (Z * Z * Z) :=
  [(0,0,0); (128,0,0); (0,128,0); (128,128,0);
   (0,0,128); (128,0,128); (0,128,128); (192,192,192);
   (128,128,128); (255,0,0); (0,255,0); (255,255,0);
   (0,0,255); (255,0,255); (0,255,255); (255,255,255)]
  ++ flat_map XPLANE [0; 1; 2; 3; 4; 5]
  ++ map XG (seq 0 24).

(** [xterm_palette[idx]] *)
Definition palette (idx : Z) : Z * Z * Z := xterm_palette !!! Z.to_nat idx.
Definition palette_layer (idx : Z) : layer :=
  let '(r, g, b) := palette idx in Layer idx r g b.

(** ** The decoder *)

(** The flag these functions return is not read by any caller; a byte out of range leaves
    the state as it is. *)
Definition parse_bmp_color (p0 p1 p2 : Z) (cs : co_ColorState) : co_ColorState :=
  if (p1 <? 148) || (159 <? p1) then cs
  else
    let cp := Z.lor (Z.lor (Z.shiftl (Z.land p0 15) 12) (Z.shiftl (Z.land p1 63) 6)) (Z.land p2 63) in
    if cp =? 62720 then CO_CS_NORMAL
    else if cp =? 62721 then set_intense cs
    else if cp =? 62724 then set_underline cs
    else if cp =? 62725 then set_blink cs
    else if cp =? 62727 then set_inverse cs
    else if in_rng 62976 63231 cp then set_fg (palette_layer (cp - 62976)) cs
    else if in_rng 63232 63487 cp then set_bg (palette_layer (cp - 63232)) cs
    else cs.

Definition u32 (x : Z) : Z := x mod 2 ^ 32.
Definition u8 (x : Z) : Z := Z.land x 255.

(** [if (cs->fg >= 0 && cs->fg <= 255) cs->fg = -2;] *)
Definition to_rgb (idx : Z) : Z := if (0 <=? idx) && (idx <=? 255) then -2 else idx.

(** The cases CP1 (red high nibble and green) and CP2 (red low nibble and blue). *)
Definition layer_cp1 (hi lo : Z) (l : layer) : layer :=
  Layer (to_rgb (l_idx l)) (u8 (Z.shiftl hi 4)) (u8 lo) (l_b l).
Definition layer_cp2 (hi lo : Z) (l : layer) : layer :=
  Layer (to_rgb (l_idx l)) (u8 (Z.lor (Z.land (l_r l) 240) hi)) (l_g l) (u8 lo).

Definition parse_smp_color (p1 p2 p3 : Z) (cs : co_ColorState) : co_ColorState :=
  if (p1 <? 176) || (179 <? p1) then cs
  else
    let block := p1 - 176 in
    let payload := Z.lor (u32 (Z.shiftl (u32 (p2 - 128)) 6)) (u32 (p3 - 128)) in
    let hi := Z.shiftr payload 8 in
    let lo := Z.land payload 255 in
    if block =? 0 then set_fg (layer_cp1 hi lo (fg cs)) cs
    else if block =? 1 then set_fg (layer_cp2 hi lo (fg cs)) cs
    else if block =? 2 then set_bg (layer_cp1 hi lo (bg cs)) cs
    else set_bg (layer_cp2 hi lo (bg cs)) cs.

(** The two tests for a colour code point at [p] that every loop over coloured text
    starts with: the state and the pointer after it. *)
Definition pua_step (p : bytes) (cs : co_ColorState) : option (bytes * co_ColorState) :=
  match p with
  | p0 :: p1 :: p2 :: q =>
      if (p0 =? 239) && in_rng 148 159 p1 then Some (q, parse_bmp_color p0 p1 p2 cs)
      else
        match q with
        | p3 :: q' =>
            if (p0 =? 243) && in_rng 176 179 p1 then Some (q', parse_smp_color p1 p2 p3 cs) else None
        | [] => None
        end
  | _ => None
  end.

(** ** The encoder *)

(** [dr*dr + dg*dg + db*db] *)
Definition dist (r g b : Z) (c : Z * Z * Z) : Z :=
  let '(cr, cg, cb) := c in
  (r - cr) * (r - cr) + (g - cg) * (g - cg) + (b - cb) * (b - cb).

Fixpoint nearest_loop (r g b : Z) (cs : list (Z * Z * Z)) (i best best_dist : Z) : Z :=
  match cs with
  | [] => best
  | c :: cs' =>
      let d := dist r g b c in
      if d <? best_dist then if d =? 0 then i else nearest_loop r g b cs' (i + 1) i d
      else nearest_loop r g b cs' (i + 1) best best_dist
  end.

Definition find_nearest_palette (r g b : Z) : Z :=
  nearest_loop r g b xterm_palette 0 0 (256 * 256 * 3).

#[global] Arguments palette : simpl never.
#[global] Arguments find_nearest_palette : simpl never.

(** The bytes of the two kinds of code point. *)
Definition bmp_bytes (cp : Z) : bytes :=
  [239; Z.lor 128 (Z.land (Z.shiftr cp 6) 63); Z.lor 128 (Z.land cp 63)].
Definition smp_bytes (block payload : Z) : bytes :=
  [243; 176 + block; Z.lor 128 (Z.land (Z.shiftr payload 6) 63); Z.lor 128 (Z.land payload 63)].

Section Emit.
Context {cfg : Config}.

Definition emit_pua_bmp (out : bytes) (cp : Z) : bytes :=
  if (length out + 3 <=? cap)%nat then out ++ bmp_bytes cp else out.
Definition emit_pua_smp (out : bytes) (block payload : Z) : bytes :=
  if (length out + 4 <=? cap)%nat then out ++ smp_bytes block payload else out.

(** [if (cond) wp += emit_pua_bmp(wp, wp_end, cp);] *)
Definition emit_if (cond : bool) (out : bytes) (cp : Z) : bytes :=
  if cond then emit_pua_bmp out cp else out.

(** Step 3 (foreground: [base] 0xF600, [block] 0) and step 4 (background: 0xF700, 2) of
    [emit_transition]. *)
Definition emit_layer (out : bytes) (base block : Z) (cur new : layer) : bytes :=
  let changed := negb (bool_decide (cur = new)) in
  if changed && negb (l_idx new =? -1) then
    if in_rng 0 255 (l_idx new) then emit_pua_bmp out (base + l_idx new)
    else if l_idx new =? -2 then
      let idx := find_nearest_palette (l_r new) (l_g new) (l_b new) in
      let out := emit_pua_bmp out (base + idx) in
      if negb (bool_decide ((l_r new, l_g new, l_b new) = palette idx)) then
        let out := emit_pua_smp out block
          (Z.lor (Z.shiftl (Z.shiftr (l_r new) 4) 8) (l_g new)) in
        emit_pua_smp out (block + 1)
          (Z.lor (Z.shiftl (Z.land (l_r new) 15) 8) (l_b new))
      else out
    else out
  else out.

Definition need_reset (cur new : co_ColorState) : bool :=
  (intense cur && negb (intense new)) || (underline cur && negb (underline new))
  || (blink cur && negb (blink new)) || (inverse cur && negb (inverse new))
  || (negb (l_idx (fg cur) =? -1) && (l_idx (fg new) =? -1))
  || (negb (l_idx (bg cur) =? -1) && (l_idx (bg new) =? -1)).

Definition emit_transition (out : bytes) (old_cs new_cs : co_ColorState) : bytes :=
  if co_cs_equal old_cs new_cs then out
  else
    let reset := need_reset old_cs new_cs in
    let out := emit_if reset out 62720 in
    let cur := if reset then CO_CS_NORMAL else old_cs in
    let out := emit_if (intense new_cs && negb (intense cur)) out 62721 in
    let out := emit_if (underline new_cs && negb (underline cur)) out 62724 in
    let out := emit_if (blink new_cs && negb (blink cur)) out 62725 in
    let out := emit_if (inverse new_cs && negb (inverse cur)) out 62727 in
    let out := emit_layer out 62976 0 (fg cur) (fg new_cs) in
    emit_layer out 63232 2 (bg cur) (bg new_cs).

(** ** [co_collapse_color] *)

Record cc_vars := {
  cc_p : bytes; cc_out : bytes; cc_emitted : co_ColorState; cc_pending : co_ColorState
}.

Definition collapse_body (v : cc_vars) : cc_vars + bytes :=
  if (0 <? length (cc_p v))%nat && (length (cc_out v) <? cap)%nat then
    match pua_step (cc_p v) (cc_pending v) with
    | Some (q, pending) =>
        inl {| cc_p := q; cc_out := cc_out v; cc_emitted := cc_emitted v; cc_pending := pending |}
    | None =>
        let out := emit_transition (cc_out v) (cc_emitted v) (cc_pending v) in
        let '(after, _) := co_visible_advance (cc_p v) 1 in
        inl {| cc_p := after; cc_out := wp_safe_bytes out (range (cc_p v) after);
               cc_emitted := cc_pending v; cc_pending := cc_pending v |}
    end
  else
    inr (if negb (co_cs_equal (cc_pending v) (cc_emitted v))
         then emit_transition (cc_out v) (cc_emitted v) (cc_pending v) else cc_out v).

(** [fuel] iterations of the loop; [S (length data)] are enough on well-formed text. *)
Definition co_collapse_color_fuel (fuel : nat) (data : bytes) : option bytes :=
  iter collapse_body fuel
    {| cc_p := data; cc_out := []; cc_emitted := CO_CS_NORMAL; cc_pending := CO_CS_NORMAL |}.

Definition co_collapse_color (data : bytes) : option bytes :=
  co_collapse_color_fuel (S (length data)) data.

(** ** [co_apply_color] *)

Definition co_apply_color (data : bytes) (cs : co_ColorState) : bytes :=
  let out := emit_transition [] CO_CS_NORMAL cs in
  if (0 <? length data)%nat then wp_safe_copy out data else out.

(** ** [co_merge] *)

Fixpoint consume_pua (fuel : nat) (p : bytes) (cs : co_ColorState) : bytes * co_ColorState :=
  match fuel with
  | O => (p, cs)
  | S fuel' =>
      match pua_step p cs with
      | Some (q, cs') => consume_pua fuel' q cs'
      | None => (p, cs)
      end
  end.

Definition cplen (ch : Z) : nat :=
  if ch <? 128 then 1 else if ch <? 224 then 2 else if ch <? 240 then 3 else 4.

Record merge_vars := {
  mg_pa : bytes; mg_pb : bytes; mg_out : bytes;
  mg_stateA : co_ColorState; mg_stateB : co_ColorState; mg_emitted : co_ColorState
}.

Definition merge_body (splain : bytes) (v : merge_vars) : merge_vars + merge_vars :=
  if (0 <? length (mg_pa v))%nat && (0 <? length (mg_pb v))%nat && (length (mg_out v) <? cap)%nat then
    let '(pa, stateA) := consume_pua (length (mg_pa v)) (mg_pa v) (mg_stateA v) in
    let '(pb, stateB) := consume_pua (length (mg_pb v)) (mg_pb v) (mg_stateB v) in
    let v := {| mg_pa := pa; mg_pb := pb; mg_out := mg_out v;
                mg_stateA := stateA; mg_stateB := stateB; mg_emitted := mg_emitted v |} in
    match pa, pb with
    | chA :: _, chB :: _ =>
        let cplenA := cplen chA in
        let cplenB := cplen chB in
        let matches := (cplenA =? length splain)%nat && bool_decide (take cplenA pa = splain) in
        let '(state, cp) := if matches then (stateB, take cplenB pb) else (stateA, take cplenA pa) in
        inl {| mg_pa := drop cplenA pa; mg_pb := drop cplenB pb;
               mg_out := wp_safe_bytes (emit_transition (mg_out v) (mg_emitted v) state) cp;
               mg_stateA := stateA; mg_stateB := stateB; mg_emitted := state |}
    | _, _ => inr v
    end
  else inr v.

(** The text to look for: a space if the search text has no visible code point. *)
Definition merge_search (search : bytes) : bytes :=
  let splain := co_strip_color search in
  if (length splain =? 0)%nat then [32] else splain.

Definition co_merge (strA strB search : bytes) : option bytes :=
  let splain := merge_search search in
  if negb (co_visible_length strA =? co_visible_length strB)%nat then Some []
  else
    v ← iter (merge_body splain) (S (length strA))
          {| mg_pa := strA; mg_pb := strB; mg_out := [];
             mg_stateA := CO_CS_NORMAL; mg_stateB := CO_CS_NORMAL; mg_emitted := CO_CS_NORMAL |};
    Some (if negb (co_cs_equal (mg_emitted v) CO_CS_NORMAL)
          then emit_transition (mg_out v) (mg_emitted v) CO_CS_NORMAL else mg_out v).
End Emit.

(** ** The palette *)

Definition is_byte (z : Z) : bool := in_rng 0 255 z.

Lemma palette_length : length xterm_palette = 256%nat.
Proof. reflexivity. Qed.

Lemma palette_bytes : forallb (fun '(r, g, b) => is_byte r && is_byte g && is_byte b) xterm_palette = true.
Proof. vm_compute. reflexivity. Qed.

Lemma palette_byte idx r g b : 0 <= idx < 256 -> palette idx = (r, g, b) ->
  is_byte r && is_byte g && is_byte b = true.
Proof.
  intros Hi E. pose proof palette_bytes as H. rewrite forallb_forall in H.
  apply (H (r, g, b)). rewrite <- E. apply list_elem_of_In. unfold palette.
  apply list_elem_of_lookup_total_2. rewrite palette_length. lia.
Qed.

Lemma dist_nonneg r g b c : 0 <= dist r g b c.
Proof.
  destruct c as [[cr cg] cb]. unfold dist.
  pose proof (Z.square_nonneg (r - cr)). pose proof (Z.square_nonneg (g - cg)).
  pose proof (Z.square_nonneg (b - cb)). lia.
Qed.

Lemma dist_bound r g b c : byte_ok r -> byte_ok g -> byte_ok b ->
  (let '(cr, cg, cb) := c in is_byte cr && is_byte cg && is_byte cb = true) ->
  dist r g b c < 256 * 256 * 3.
Proof.
  destruct c as [[cr cg] cb]. unfold dist, byte_ok, is_byte. intros. byte_hyps.
  assert (Hsq : forall x y, 0 <= x <= 255 -> 0 <= y <= 255 -> (x - y) * (x - y) <= 65025).
  { clear. intros x y Hx Hy. nia. }
  pose proof (Hsq r cr ltac:(lia) ltac:(lia)). pose proof (Hsq g cg ltac:(lia) ltac:(lia)).
  pose proof (Hsq b cb ltac:(lia) ltac:(lia)). lia.
Qed.

(** The loop returns the first entry at the least distance. *)
Lemma nearest_loop_spec r g b cs : forall i best best_dist,
  let res := nearest_loop r g b cs i best best_dist in
  (res = best /\ Forall (fun c => best_dist <= dist r g b c) cs \/
   exists k c, res = i + Z.of_nat k /\ cs !! k = Some c /\ dist r g b c < best_dist /\
     Forall (fun c' => dist r g b c <= dist r g b c') cs /\
     Forall (fun c' => dist r g b c < dist r g b c') (take k cs)).
Proof.
  induction cs as [|c cs IH]; intros i best best_dist; cbn; [left; split; [done|constructor]|].
  destruct (Z.ltb_spec (dist r g b c) best_dist) as [Hlt|Hge].
  - destruct (Z.eqb_spec (dist r g b c) 0) as [E0|Hne].
    + right. exists 0%nat, c. split_and!; [lia|done|done| |constructor].
      constructor; [lia|]. apply Forall_forall. intros c' _. pose proof (dist_nonneg r g b c'). lia.
    + destruct (IH (i + 1) i (dist r g b c)) as [[E Hall]|(k & c' & E & Hk & Hd & Hall & Hfst)]; right.
      * exists 0%nat, c. split_and!; [lia|done|done| |constructor]. constructor; [lia|done].
      * exists (S k), c'. split_and!; [lia|done|lia| |].
        -- constructor; [lia|done].
        -- constructor; [lia|done].
  - destruct (IH (i + 1) best best_dist) as [[E Hall]|(k & c' & E & Hk & Hd & Hall & Hfst)].
    + left. split; [done|]. by constructor.
    + right. exists (S k), c'. split_and!; [lia|done|done| |]; constructor; (lia || done).
Qed.

Definition rgb_bytes (r g b : Z) : Prop := byte_ok r /\ byte_ok g /\ byte_ok b.

Lemma find_nearest_min r g b : rgb_bytes r g b ->
  let i := find_nearest_palette r g b in
  0 <= i < 256 /\
  (forall j, 0 <= j < 256 -> dist r g b (palette i) <= dist r g b (palette j)) /\
  (forall j, 0 <= j < i -> dist r g b (palette i) < dist r g b (palette j)).
Proof.
  intros (Hr & Hg & Hb). unfold find_nearest_palette.
  destruct (nearest_loop_spec r g b xterm_palette 0 0 (256 * 256 * 3))
    as [[_ H]|(k & c & E & Hk & _ & Hall & Hfst)].
  { exfalso. apply Forall_inv in H. pose proof (dist_bound r g b (0, 0, 0) Hr Hg Hb eq_refl). lia. }
  cbn zeta. rewrite E. pose proof (lookup_lt_Some _ _ _ Hk) as Hlt. rewrite palette_length in Hlt.
  assert (Ek : palette (0 + Z.of_nat k) = c).
  { unfold palette. replace (Z.to_nat (0 + Z.of_nat k)) with k by lia. by apply list_lookup_total_correct. }
  rewrite Ek. split_and!; [lia|lia| |].
  - intros j Hj. rewrite Forall_forall in Hall. apply Hall. unfold palette.
    apply list_elem_of_lookup_total_2. rewrite palette_length. lia.
  - intros j Hj. rewrite Forall_forall in Hfst. apply Hfst. unfold palette.
    rewrite <- (lookup_total_take_lt xterm_palette k) by lia. apply list_elem_of_lookup_total_2.
    rewrite length_take, palette_length. lia.
Qed.

(** ** Code points back and forth *)

(** The decoder's arithmetic on the bytes of [bmp_bytes] gives the code point back. *)
Lemma bmp_bytes_decode cp : 62720 <= cp <= 63487 ->
  exists p1 p2, bmp_bytes cp = [239; p1; p2] /\ 148 <= p1 <= 159 /\ 128 <= p2 <= 191 /\
    Z.lor (Z.lor (Z.shiftl (Z.land 239 15) 12) (Z.shiftl (Z.land p1 63) 6)) (Z.land p2 63) = cp.
Proof.
  intros H.
  pose proof (forall_zrange (fun cp => match bmp_bytes cp with
      | [a; p1; p2] => in_rng 148 159 p1 && in_rng 128 191 p2 &&
          (Z.lor (Z.lor (Z.shiftl (Z.land 239 15) 12) (Z.shiftl (Z.land p1 63) 6)) (Z.land p2 63) =? cp)
      | _ => false end) 62720 768 ltac:(vm_compute; reflexivity) cp ltac:(lia)) as E.
  cbn [bmp_bytes] in E. byte_hyps. eexists _, _. split; [reflexivity|]. split_and!; (lia || assumption).
Qed.

Lemma smp_bytes_decode block payload : 0 <= payload < 4096 -> 0 <= block <= 3 ->
  exists p1 p2 p3, smp_bytes block payload = [243; p1; p2; p3] /\ p1 = 176 + block /\
    128 <= p2 <= 191 /\ 128 <= p3 <= 191 /\
    Z.lor (u32 (Z.shiftl (u32 (p2 - 128)) 6)) (u32 (p3 - 128)) = payload.
Proof.
  intros H Hb.
  pose proof (forall_zrange (fun x => match smp_bytes 0 x with
      | [a; _; p2; p3] => in_rng 128 191 p2 && in_rng 128 191 p3 &&
          (Z.lor (u32 (Z.shiftl (u32 (p2 - 128)) 6)) (u32 (p3 - 128)) =? x)
      | _ => false end) 0 4096 ltac:(vm_compute; reflexivity) payload ltac:(lia)) as E.
  cbn [smp_bytes] in E. byte_hyps. eexists _, _, _. split; [reflexivity|]. split_and!; (lia || done).
Qed.

(** ** States that look the same

    A default layer shows no colour of its own, whatever its RGB fields hold, and a 24-bit
    colour that is in the palette looks like its palette entry. *)

Definition layer_eqv (a b : layer) : Prop :=
  (l_idx a = -1 <-> l_idx b = -1) /\
  (l_idx a <> -1 -> l_r a = l_r b /\ l_g a = l_g b /\ l_b a = l_b b).

Definition cs_eqv (a b : co_ColorState) : Prop :=
  layer_eqv (fg a) (fg b) /\ layer_eqv (bg a) (bg b) /\
  intense a = intense b /\ underline a = underline b /\ blink a = blink b /\ inverse a = inverse b.

#[export] Instance layer_eqv_equiv : Equivalence layer_eqv.
Proof.
  split.
  - intros a. split; [done|auto].
  - intros a b [H1 H2]. split; [by rewrite H1|]. intros H. rewrite <- H1 in H.
    destruct (H2 H) as (-> & -> & ->). auto.
  - intros a b c [H1 H2] [H3 H4]. split; [by rewrite H1|]. intros H.
    destruct (H2 H) as (-> & -> & ->). rewrite H1 in H. auto.
Qed.

#[export] Instance cs_eqv_equiv : Equivalence cs_eqv.
Proof.
  split.
  - intros a. unfold cs_eqv. split_and!; reflexivity.
  - intros a b (? & ? & ? & ? & ? & ?). unfold cs_eqv. split_and!; by symmetry.
  - intros a b c (? & ? & ? & ? & ? & ?) (? & ? & ? & ? & ? & ?). unfold cs_eqv.
    split_and!; by etransitivity.
Qed.

(** What a layer and a state hold when they come from colour code points. *)
Definition wf_layer (l : layer) : Prop :=
  (l_idx l = -1 \/ l_idx l = -2 \/ 0 <= l_idx l <= 255 /\ (l_r l, l_g l, l_b l) = palette (l_idx l)) /\
  rgb_bytes (l_r l) (l_g l) (l_b l).
Definition wf_cs (cs : co_ColorState) : Prop := wf_layer (fg cs) /\ wf_layer (bg cs).

(** The state after a token. *)
Definition tok_state (cs : co_ColorState) (t : tok) : co_ColorState :=
  match t with
  | TVis _ => cs
  | TCol bs => match pua_step bs cs with Some (_, cs') => cs' | None => cs end
  end.

(** The state after a text, and what a text shows: the state and the bytes of each visible
    code point. *)
Definition final_state (cs : co_ColorState) (ts : list tok) : co_ColorState := foldl tok_state cs ts.
Fixpoint shown (cs : co_ColorState) (ts : list tok) : list (co_ColorState * bytes) :=
  match ts with
  | [] => []
  | TVis bs :: ts' => (cs, bs) :: shown cs ts'
  | t :: ts' => shown (tok_state cs t) ts'
  end.

(** Two texts that show the same. *)
Definition shown_eqv : relation (list (co_ColorState * bytes)) :=
  Forall2 (fun x y => cs_eqv x.1 y.1 /\ x.2 = y.2).

Lemma final_app cs ts us : final_state cs (ts ++ us) = final_state (final_state cs ts) us.
Proof. apply foldl_app. Qed.
Lemma shown_app cs ts us : shown cs (ts ++ us) = shown cs ts ++ shown (final_state cs ts) us.
Proof.
  revert cs. induction ts as [|[bs|bs] ts IH]; intros cs; [done| |]; cbn.
  - f_equal. apply IH.
  - apply IH.
Qed.

(** *** [pua_step] on tokens *)

Lemma pua_step_col t p cs : wf_tok t = true -> is_vis t = false ->
  pua_step (tok_bytes t ++ p) cs = Some (p, tok_state cs t).
Proof.
  intros Hw. tok_shapes t Hw; try done; unfold tok_state, pua_step; cbn [tok_bytes app]; byte_cases; done.
Qed.

Lemma pua_step_vis t p cs : wf_tok t = true -> is_vis t = true -> pua_step (tok_bytes t ++ p) cs = None.
Proof.
  intros Hw. tok_shapes t Hw; try done; destruct p as [|x [|y [|z p]]]; unfold pua_step;
    cbn [tok_bytes app]; try done; vis_hyps; by byte_cases.
Qed.

Lemma pua_step_nil cs : pua_step [] cs = None.
Proof. done. Qed.

(** *** The decoder respects the equivalence *)

#[export] Instance set_fg_proper : Proper (layer_eqv ==> cs_eqv ==> cs_eqv) set_fg.
Proof. intros l l' Hl a b (? & ? & ? & ? & ? & ?). unfold cs_eqv. by split_and!. Qed.
#[export] Instance set_bg_proper : Proper (layer_eqv ==> cs_eqv ==> cs_eqv) set_bg.
Proof. intros l l' Hl a b (? & ? & ? & ? & ? & ?). unfold cs_eqv. by split_and!. Qed.
#[export] Instance set_intense_proper : Proper (cs_eqv ==> cs_eqv) set_intense.
Proof. intros a b (? & ? & ? & ? & ? & ?). unfold cs_eqv. by split_and!. Qed.
#[export] Instance set_underline_proper : Proper (cs_eqv ==> cs_eqv) set_underline.
Proof. intros a b (? & ? & ? & ? & ? & ?). unfold cs_eqv. by split_and!. Qed.
#[export] Instance set_blink_proper : Proper (cs_eqv ==> cs_eqv) set_blink.
Proof. intros a b (? & ? & ? & ? & ? & ?). unfold cs_eqv. by split_and!. Qed.
#[export] Instance set_inverse_proper : Proper (cs_eqv ==> cs_eqv) set_inverse.
Proof. intros a b (? & ? & ? & ? & ? & ?). unfold cs_eqv. by split_and!. Qed.

Lemma to_rgb_default i : to_rgb i = -1 <-> i = -1.
Proof. unfold to_rgb. destruct (Z.leb_spec 0 i), (Z.leb_spec i 255); cbn; lia. Qed.

#[export] Instance layer_cp1_proper hi lo : Proper (layer_eqv ==> layer_eqv) (layer_cp1 hi lo).
Proof.
  intros a b [H1 H2]. unfold layer_eqv, layer_cp1. cbn. rewrite !to_rgb_default.
  split; [done|]. intros H. by destruct (H2 H) as (_ & _ & ->).
Qed.
#[export] Instance layer_cp2_proper hi lo : Proper (layer_eqv ==> layer_eqv) (layer_cp2 hi lo).
Proof.
  intros a b [H1 H2]. unfold layer_eqv, layer_cp2. cbn. rewrite !to_rgb_default.
  split; [done|]. intros H. by destruct (H2 H) as (-> & -> & _).
Qed.
#[export] Instance fg_proper : Proper (cs_eqv ==> layer_eqv) fg.
Proof. by intros a b (? & _). Qed.
#[export] Instance bg_proper : Proper (cs_eqv ==> layer_eqv) bg.
Proof. by intros a b (_ & ? & _). Qed.

#[export] Instance parse_bmp_proper p0 p1 p2 : Proper (cs_eqv ==> cs_eqv) (parse_bmp_color p0 p1 p2).
Proof.
  intros a b H. unfold parse_bmp_color. cbn zeta. repeat (case_match; [first [reflexivity | by rewrite H]|]). done.
Qed.
#[export] Instance parse_smp_proper p1 p2 p3 : Proper (cs_eqv ==> cs_eqv) (parse_smp_color p1 p2 p3).
Proof.
  intros a b H. unfold parse_smp_color. cbn zeta. repeat (case_match; [by rewrite H|]). by rewrite H.
Qed.

#[export] Instance tok_state_proper t : Proper (cs_eqv ==> cs_eqv) (fun cs => tok_state cs t).
Proof.
  intros a b H. destruct t as [bs|bs]; cbn; [done|]. unfold pua_step.
  destruct bs as [|p0 [|p1 [|p2 [|p3 q]]]]; try done;
    (destruct ((p0 =? 239) && in_rng 148 159 p1); [by apply parse_bmp_proper|]); [done|].
  destruct ((p0 =? 243) && in_rng 176 179 p1); [by apply parse_smp_proper|done].
Qed.

Lemma final_state_proper ts a b : cs_eqv a b -> cs_eqv (final_state a ts) (final_state b ts).
Proof.
  revert a b. induction ts as [|t ts IH]; intros a b H; [done|]. cbn. apply IH.
  by apply (tok_state_proper t).
Qed.

Lemma shown_proper ts a b : cs_eqv a b -> shown_eqv (shown a ts) (shown b ts).
Proof.
  revert a b. induction ts as [|[bs|bs] ts IH]; intros a b H; cbn; [constructor| |].
  - constructor; [done|]. by apply IH.
  - apply IH. by apply (tok_state_proper (TCol bs)).
Qed.

(** ** What [emit_transition] writes, as tokens *)

Definition bmp (cp : Z) : tok := TCol (bmp_bytes cp).
Definition smp (block payload : Z) : tok := TCol (smp_bytes block payload).

Definition trans_layer (base block : Z) (cur new : layer) : list tok :=
  if negb (bool_decide (cur = new)) && negb (l_idx new =? -1) then
    if in_rng 0 255 (l_idx new) then [bmp (base + l_idx new)]
    else if l_idx new =? -2 then
      let idx := find_nearest_palette (l_r new) (l_g new) (l_b new) in
      bmp (base + idx) ::
      if negb (bool_decide ((l_r new, l_g new, l_b new) = palette idx)) then
        [smp block (Z.lor (Z.shiftl (Z.shiftr (l_r new) 4) 8) (l_g new));
         smp (block + 1) (Z.lor (Z.shiftl (Z.land (l_r new) 15) 8) (l_b new))]
      else []
    else []
  else [].

Definition trans_attr (new cur : bool) (cp : Z) : list tok := if new && negb cur then [bmp cp] else [].

(** After the reset, if there is one. *)
Definition trans_from (cur new : co_ColorState) : list tok :=
  trans_attr (intense new) (intense cur) 62721 ++ trans_attr (underline new) (underline cur) 62724 ++
  trans_attr (blink new) (blink cur) 62725 ++ trans_attr (inverse new) (inverse cur) 62727 ++
  trans_layer 62976 0 (fg cur) (fg new) ++ trans_layer 63232 2 (bg cur) (bg new).

Definition transition (old new : co_ColorState) : list tok :=
  if co_cs_equal old new then []
  else if need_reset old new then bmp 62720 :: trans_from CO_CS_NORMAL new
  else trans_from old new.

Section EmitTokens.
Context {cfg : Config}.

(** The writers append the bytes of the tokens when these fit. *)
Lemma emit_pua_bmp_fits out cp : (length out + 3 <= cap)%nat ->
  emit_pua_bmp out cp = out ++ flatten [bmp cp].
Proof. intros H. unfold emit_pua_bmp. by rewrite (proj2 (Nat.leb_le _ _) H). Qed.

Lemma emit_pua_smp_fits out block payload : (length out + 4 <= cap)%nat ->
  emit_pua_smp out block payload = out ++ flatten [smp block payload].
Proof. intros H. unfold emit_pua_smp. by rewrite (proj2 (Nat.leb_le _ _) H). Qed.

Lemma emit_layer_fits out base block cur new :
  (length out + length (flatten (trans_layer base block cur new)) <= cap)%nat ->
  emit_layer out base block cur new = out ++ flatten (trans_layer base block cur new).
Proof.
  unfold emit_layer, trans_layer. intros H.
  destruct (negb (bool_decide (cur = new)) && negb (l_idx new =? -1)); [|by rewrite app_nil_r].
  destruct (in_rng 0 255 (l_idx new)); [apply emit_pua_bmp_fits; cbn in H; lia|].
  destruct (l_idx new =? -2); [|by rewrite app_nil_r]. cbn zeta in *.
  destruct (negb (bool_decide (_ = _))); cbn in H.
  - rewrite emit_pua_bmp_fits by lia.
    rewrite (emit_pua_smp_fits (out ++ _)) by (rewrite length_app; cbn; lia).
    rewrite emit_pua_smp_fits by (rewrite !length_app; cbn; lia). by rewrite <- !app_assoc.
  - apply emit_pua_bmp_fits. lia.
Qed.

Lemma emit_attr_fits out new cur cp :
  (length out + length (flatten (trans_attr new cur cp)) <= cap)%nat ->
  emit_if (new && negb cur) out cp = out ++ flatten (trans_attr new cur cp).
Proof.
  unfold trans_attr, emit_if. destruct (new && negb cur); intros H; [apply emit_pua_bmp_fits; cbn in H; lia|].
  by rewrite app_nil_r.
Qed.

Lemma emit_transition_fits out old new :
  (length out + length (flatten (transition old new)) <= cap)%nat ->
  emit_transition out old new = out ++ flatten (transition old new).
Proof.
  unfold emit_transition, transition. destruct (co_cs_equal old new); [by rewrite app_nil_r|].
  intros H. cbn zeta.
  assert (Hfrom : forall o cur, (length o + length (flatten (trans_from cur new)) <= cap)%nat ->
    emit_layer (emit_layer
      (emit_if (inverse new && negb (inverse cur)) (emit_if (blink new && negb (blink cur))
        (emit_if (underline new && negb (underline cur)) (emit_if (intense new && negb (intense cur))
          o 62721) 62724) 62725) 62727)
      62976 0 (fg cur) (fg new)) 63232 2 (bg cur) (bg new) = o ++ flatten (trans_from cur new)).
  { clear. intros o cur H. unfold trans_from in *. rewrite !flatten_app in *. rewrite !length_app in H.
    rewrite (emit_attr_fits o) by lia.
    rewrite (emit_attr_fits (_ ++ _)) by (rewrite !length_app; lia).
    rewrite (emit_attr_fits (_ ++ _)) by (rewrite !length_app; lia).
    rewrite (emit_attr_fits (_ ++ _)) by (rewrite !length_app; lia).
    rewrite (emit_layer_fits (_ ++ _)) by (rewrite !length_app; lia).
    rewrite (emit_layer_fits (_ ++ _)) by (rewrite !length_app; lia). by rewrite <- !app_assoc. }
  destruct (need_reset old new); [|by apply Hfrom].
  rewrite flatten_cons, length_app in H. cbn [tok_bytes bmp bmp_bytes length] in H.
  unfold emit_if at 5. rewrite emit_pua_bmp_fits by lia.
  rewrite Hfrom by (rewrite length_app; cbn; lia). by rewrite <- app_assoc.
Qed.

(** The writers never overrun the buffer. *)
Lemma emit_pua_bmp_cap out cp : (length out <= cap)%nat -> (length (emit_pua_bmp out cp) <= cap)%nat.
Proof.
  unfold emit_pua_bmp. destruct (Nat.leb_spec (length out + 3) cap); [|done].
  rewrite length_app. cbn. lia.
Qed.
Lemma emit_pua_smp_cap out b p : (length out <= cap)%nat -> (length (emit_pua_smp out b p) <= cap)%nat.
Proof.
  unfold emit_pua_smp. destruct (Nat.leb_spec (length out + 4) cap); [|done].
  rewrite length_app. cbn. lia.
Qed.
Lemma emit_if_cap c out cp : (length out <= cap)%nat -> (length (emit_if c out cp) <= cap)%nat.
Proof. unfold emit_if. destruct c; [apply emit_pua_bmp_cap|done]. Qed.
Lemma emit_layer_cap out base block cur new :
  (length out <= cap)%nat -> (length (emit_layer out base block cur new) <= cap)%nat.
Proof.
  intros H. unfold emit_layer. cbn zeta.
  repeat (case_match; try done); auto using emit_pua_bmp_cap, emit_pua_smp_cap.
Qed.
Lemma emit_transition_cap out old new :
  (length out <= cap)%nat -> (length (emit_transition out old new) <= cap)%nat.
Proof.
  intros H. unfold emit_transition. destruct (co_cs_equal old new); [done|].
  auto 10 using emit_if_cap, emit_layer_cap.
Qed.
End EmitTokens.

(** *** The tokens of a transition are colour code points *)

Lemma bmp_wf cp : 62720 <= cp <= 63487 -> wf_tok (bmp cp) = true.
Proof.
  intros H. destruct (bmp_bytes_decode cp H) as (p1 & p2 & E & H1 & H2 & _).
  unfold bmp, wf_tok. rewrite E. cbn. unfold cont. by byte_cases.
Qed.

Lemma smp_wf block payload : 0 <= block <= 3 -> 0 <= payload < 4096 -> wf_tok (smp block payload) = true.
Proof.
  intros Hb H. destruct (smp_bytes_decode block payload H Hb) as (p1 & p2 & p3 & E & -> & H2 & H3 & _).
  unfold smp, wf_tok. rewrite E. cbn. unfold cont. by byte_cases.
Qed.

(** *** Decoding a transition *)

Lemma tok_state_bmp cs cp : 62720 <= cp <= 63487 ->
  tok_state cs (bmp cp) =
  if cp =? 62720 then CO_CS_NORMAL
  else if cp =? 62721 then set_intense cs
  else if cp =? 62724 then set_underline cs
  else if cp =? 62725 then set_blink cs
  else if cp =? 62727 then set_inverse cs
  else if in_rng 62976 63231 cp then set_fg (palette_layer (cp - 62976)) cs
  else if in_rng 63232 63487 cp then set_bg (palette_layer (cp - 63232)) cs
  else cs.
Proof.
  intros H. destruct (bmp_bytes_decode cp H) as (p1 & p2 & E & H1 & _ & Ecp).
  unfold tok_state, bmp. rewrite E. unfold pua_step. byte_cases. unfold parse_bmp_color.
  cbn zeta. rewrite Ecp. by byte_cases.
Qed.

Lemma tok_state_smp cs block payload : 0 <= block <= 3 -> 0 <= payload < 4096 ->
  let hi := Z.shiftr payload 8 in let lo := Z.land payload 255 in
  tok_state cs (smp block payload) =
  if block =? 0 then set_fg (layer_cp1 hi lo (fg cs)) cs
  else if block =? 1 then set_fg (layer_cp2 hi lo (fg cs)) cs
  else if block =? 2 then set_bg (layer_cp1 hi lo (bg cs)) cs
  else set_bg (layer_cp2 hi lo (bg cs)) cs.
Proof.
  intros Hb H. destruct (smp_bytes_decode block payload H Hb) as (p1 & p2 & p3 & E & -> & _ & _ & Ep).
  unfold tok_state, smp. rewrite E. unfold pua_step. byte_cases. unfold parse_smp_color.
  cbn zeta. rewrite Ep. replace (176 + block - 176) with block by lia. by byte_cases.
Qed.

(** A byte split into nibbles by the encoder and put together by the decoder. *)
Lemma payload_fields h g : 0 <= h < 16 -> 0 <= g <= 255 ->
  let payload := Z.lor (Z.shiftl h 8) g in
  0 <= payload < 4096 /\ Z.shiftr payload 8 = h /\ Z.land payload 255 = g.
Proof.
  intros Hh Hg.
  pose proof (forall_zrange (fun h => forallb (fun g =>
    let payload := Z.lor (Z.shiftl h 8) g in
    in_rng 0 4095 payload && (Z.shiftr payload 8 =? h) && (Z.land payload 255 =? g)) (zrange 0 256))
    0 16 ltac:(vm_compute; reflexivity) h ltac:(lia)) as E.
  pose proof (forall_zrange _ _ _ E g ltac:(lia)) as E'. cbn beta zeta in E' |- *. byte_hyps. lia.
Qed.

Lemma nibbles r : byte_ok r ->
  0 <= Z.shiftr r 4 < 16 /\ 0 <= Z.land r 15 < 16 /\
  u8 (Z.lor (Z.land (u8 (Z.shiftl (Z.shiftr r 4) 4)) 240) (Z.land r 15)) = r.
Proof.
  intros Hr. unfold byte_ok in Hr.
  pose proof (forall_zrange (fun r => in_rng 0 15 (Z.shiftr r 4) && in_rng 0 15 (Z.land r 15) &&
    (u8 (Z.lor (Z.land (u8 (Z.shiftl (Z.shiftr r 4) 4)) 240) (Z.land r 15)) =? r))
    0 256 ltac:(vm_compute; reflexivity) r ltac:(lia)) as E.
  cbn beta in E. byte_hyps. lia.
Qed.

Lemma u8_id x : 0 <= x <= 255 -> u8 x = x.
Proof. intros H. unfold u8. change 255 with (Z.ones 8). rewrite Z.land_ones, Z.mod_small; lia. Qed.

(** The two code points of a 24-bit colour set the three components. *)
Lemma layer_cps i r g b l : rgb_bytes r g b -> 0 <= i <= 255 -> l_idx l = i ->
  let pr := Z.lor (Z.shiftl (Z.shiftr r 4) 8) g in
  let pb := Z.lor (Z.shiftl (Z.land r 15) 8) b in
  layer_cp2 (Z.shiftr pb 8) (Z.land pb 255) (layer_cp1 (Z.shiftr pr 8) (Z.land pr 255) l) =
  Layer (-2) r g b.
Proof.
  intros (Hr & Hg & Hb) Hi Hl. destruct (nibbles r Hr) as (H1 & H2 & H3).
  destruct (payload_fields _ g H1 Hg) as (_ & E1 & E2).
  destruct (payload_fields _ b H2 Hb) as (_ & E3 & E4). cbn zeta. rewrite E1, E2, E3, E4.
  unfold layer_cp1, layer_cp2. cbn. rewrite H3, !u8_id, Hl by done. f_equal. unfold to_rgb.
  by rewrite (proj2 (Z.leb_le 0 i)), (proj2 (Z.leb_le i 255)) by lia.
Qed.

(** The foreground and the background go through the same steps. *)
Section Layer.
Context (base block : Z) (get : co_ColorState -> layer) (set : layer -> co_ColorState -> co_ColorState).
Context (Hbase : forall cs idx, 0 <= idx <= 255 ->
  tok_state cs (bmp (base + idx)) = set (palette_layer idx) cs).
Context (Hcp1 : forall cs payload, 0 <= payload < 4096 ->
  tok_state cs (smp block payload) = set (layer_cp1 (Z.shiftr payload 8) (Z.land payload 255) (get cs)) cs).
Context (Hcp2 : forall cs payload, 0 <= payload < 4096 ->
  tok_state cs (smp (block + 1) payload) = set (layer_cp2 (Z.shiftr payload 8) (Z.land payload 255) (get cs)) cs).
Context (set_set : forall l l' cs, set l (set l' cs) = set l cs).
Context (get_set : forall l cs, get (set l cs) = l) (set_get : forall cs, set (get cs) cs = cs).

Lemma trans_layer_state cs cur new :
  layer_eqv (get cs) cur -> (l_idx new = -1 -> l_idx cur = -1) -> wf_layer new ->
  exists l, final_state cs (trans_layer base block cur new) = set l cs /\ layer_eqv l new.
Proof.
  intros Hcs Hd [Hk Hb]. unfold trans_layer. case_bool_decide as Hch; cbn [negb andb].
  { exists (get cs). rewrite set_get. split; [done|]. by rewrite <- Hch. }
  destruct (Z.eqb_spec (l_idx new) (-1)) as [Hn|Hn]; cbn [negb andb].
  { exists (get cs). rewrite set_get. split; [done|]. destruct Hcs as [H1 _]. split; [tauto|].
    intros H. exfalso. tauto. }
  destruct Hk as [Hk|[Hk|[Hk Hp]]]; [done| |].
  - rewrite Hk. byte_cases. destruct (find_nearest_min _ _ _ Hb) as (Hi & _).
    set (i := find_nearest_palette _ _ _) in *. unfold final_state. cbn [foldl].
    rewrite Hbase by lia. unfold palette_layer. destruct (palette i) as [[r g] b] eqn:Ep.
    case_bool_decide as E; cbn [negb foldl].
    + injection E as E1 E2 E3. exists (Layer i r g b). split; [done|]. split; cbn; [lia|]. by rewrite E1, E2, E3.
    + pose proof Hb as (Hr & Hg & Hbb). destruct (nibbles _ Hr) as (H1 & H2 & _).
      destruct (payload_fields _ _ H1 Hg) as (P1 & _). destruct (payload_fields _ _ H2 Hbb) as (P2 & _).
      rewrite Hcp1, Hcp2 by done. rewrite !set_set, !get_set. eexists. split; [done|].
      rewrite (layer_cps i) by (done || lia). split; cbn; [lia|done].
  - rewrite (proj2 (in_rng_true 0 255 (l_idx new))) by lia. unfold final_state. cbn [foldl].
    rewrite Hbase by lia. exists (palette_layer (l_idx new)). split; [done|].
    unfold palette_layer. rewrite <- Hp. by split.
Qed.

Lemma trans_layer_wf cur new : base = 62976 \/ base = 63232 -> 0 <= block <= 2 -> wf_layer new ->
  wf (trans_layer base block cur new).
Proof.
  intros Hbs Hbl [Hk Hb]. unfold trans_layer. destruct (_ && _); [|constructor].
  destruct (in_rng 0 255 (l_idx new)) eqn:E.
  { byte_hyps. repeat constructor. apply bmp_wf. lia. }
  destruct (l_idx new =? -2); [|constructor]. cbn zeta. destruct (find_nearest_min _ _ _ Hb) as (Hi & _).
  constructor; [apply bmp_wf; lia|]. destruct (negb _); [|constructor].
  pose proof Hb as (Hr & Hg & Hbb). destruct (nibbles _ Hr) as (H1 & H2 & _).
  destruct (payload_fields _ _ H1 Hg) as (P1 & _). destruct (payload_fields _ _ H2 Hbb) as (P2 & _).
  repeat constructor; apply smp_wf; (done || lia).
Qed.
End Layer.

Definition attr_state (set : co_ColorState -> co_ColorState) (new cur : bool) (cs : co_ColorState) : co_ColorState :=
  if new && negb cur then set cs else cs.

Lemma trans_attr_state cs new cur cp set :
  (forall cs, tok_state cs (bmp cp) = set cs) ->
  final_state cs (trans_attr new cur cp) = attr_state set new cur cs.
Proof. intros H. unfold trans_attr, attr_state. destruct (new && negb cur); [apply H|done]. Qed.

Lemma trans_attr_wf new cur cp : 62720 <= cp <= 63487 -> wf (trans_attr new cur cp).
Proof. intros H. unfold trans_attr. destruct (_ && _); [repeat constructor; by apply bmp_wf|constructor]. Qed.

Lemma trans_fg_state cs cur new :
  layer_eqv (fg cs) cur -> (l_idx new = -1 -> l_idx cur = -1) -> wf_layer new ->
  exists l, final_state cs (trans_layer 62976 0 cur new) = set_fg l cs /\ layer_eqv l new.
Proof.
  apply trans_layer_state; try done; try (by intros []); intros c x Hx.
  - rewrite tok_state_bmp by lia. byte_cases. by replace (62976 + x - 62976) with x by lia.
  - rewrite tok_state_smp by lia. done.
  - rewrite tok_state_smp by lia. done.
Qed.

Lemma trans_bg_state cs cur new :
  layer_eqv (bg cs) cur -> (l_idx new = -1 -> l_idx cur = -1) -> wf_layer new ->
  exists l, final_state cs (trans_layer 63232 2 cur new) = set_bg l cs /\ layer_eqv l new.
Proof.
  apply trans_layer_state; try done; try (by intros []); intros c x Hx.
  - rewrite tok_state_bmp by lia. byte_cases. by replace (63232 + x - 63232) with x by lia.
  - rewrite tok_state_smp by lia. done.
  - rewrite tok_state_smp by lia. done.
Qed.

(** Without a reset: every attribute of the state is kept and no layer goes to default. *)
Lemma trans_from_state cs cur new :
  cs_eqv cs cur -> need_reset cur new = false -> wf_cs new ->
  cs_eqv (final_state cs (trans_from cur new)) new.
Proof.
  intros (Hfg & Hbg & Hi & Hu & Hb & Hv) Hr [Hwf Hwb]. unfold trans_from. rewrite !final_app.
  rewrite (trans_attr_state _ _ _ 62721 set_intense), (trans_attr_state _ _ _ 62724 set_underline),
    (trans_attr_state _ _ _ 62725 set_blink), (trans_attr_state _ _ _ 62727 set_inverse)
    by (intros; by rewrite tok_state_bmp by lia).
  unfold need_reset in Hr. rewrite !orb_false_iff, !andb_false_iff, !negb_false_iff, !Z.eqb_eq, !Z.eqb_neq in Hr.
  destruct Hr as (((((Ri & Ru) & Rb) & Rv) & Rf) & Rg).
  set (cs1 := attr_state set_inverse _ _ _).
  assert (E1 : fg cs1 = fg cs /\ bg cs1 = bg cs /\ intense cs1 = intense new /\ underline cs1 = underline new /\
               blink cs1 = blink new /\ inverse cs1 = inverse new).
  { assert (A : forall n c, c = false \/ n = true -> (if n && negb c then true else c) = n).
    { intros [] [] [?|?]; done. }
    rewrite <- (A _ _ Ri), <- (A _ _ Ru), <- (A _ _ Rb), <- (A _ _ Rv).
    clear - Hi Hu Hb Hv. subst cs1. unfold attr_state.
    destruct (intense new && _), (underline new && _), (blink new && _), (inverse new && _); done. }
  clearbody cs1. destruct E1 as (Ef & Eb & Ei & Eu & Ebl & Ev).
  destruct (trans_fg_state cs1 (fg cur) (fg new)) as (lf & -> & Hlf);
    [by rewrite Ef|intros; tauto|done|].
  destruct (trans_bg_state (set_fg lf cs1) (bg cur) (bg new)) as (lb & -> & Hlb);
    [cbn; by rewrite Eb|intros; tauto|done|].
  unfold cs_eqv. cbn. by split_and!.
Qed.

Lemma need_reset_normal new : need_reset CO_CS_NORMAL new = false.
Proof. unfold need_reset. cbn. rewrite !Z.eqb_refl. done. Qed.

(** Decoding a transition from any state that looks like the old one gives a state that
    looks like the new one. *)
Lemma transition_state cs old new :
  cs_eqv cs old -> wf_cs new -> cs_eqv (final_state cs (transition old new)) new.
Proof.
  intros H Hw. unfold transition, co_cs_equal. case_bool_decide as E; [by subst|].
  destruct (need_reset old new) eqn:Er.
  - cbn [final_state foldl]. rewrite tok_state_bmp by lia.
    apply trans_from_state; [done|apply need_reset_normal|done].
  - by apply trans_from_state.
Qed.

Lemma trans_from_wf cur new : wf_cs new -> wf (trans_from cur new).
Proof.
  intros [Hf Hb]. unfold trans_from. rewrite !wf_app.
  split_and!; try (apply trans_attr_wf; lia); apply trans_layer_wf; (done || lia || auto).
Qed.

Lemma transition_wf old new : wf_cs new -> wf (transition old new).
Proof.
  intros H. unfold transition. destruct (co_cs_equal old new); [constructor|].
  destruct (need_reset old new); [|by apply trans_from_wf].
  constructor; [by apply bmp_wf|by apply trans_from_wf].
Qed.

Lemma transition_cols old new : Forall (fun t => is_vis t = false) (transition old new).
Proof.
  assert (Ha : forall n c cp, Forall (fun t => is_vis t = false) (trans_attr n c cp)).
  { intros n c cp. unfold trans_attr. destruct (_ && _); repeat constructor. }
  assert (Hl : forall base block c n, Forall (fun t => is_vis t = false) (trans_layer base block c n)).
  { intros base block c n. unfold trans_layer. destruct (_ && _); [|constructor].
    destruct (in_rng _ _ _); [repeat constructor|]. destruct (_ =? _); [|constructor]. cbn zeta.
    constructor; [done|]. destruct (negb _); repeat constructor. }
  unfold transition, trans_from. destruct (co_cs_equal old new); [constructor|].
  destruct (need_reset old new); rewrite ?Forall_cons, !Forall_app; auto 10.
Qed.

(** *** The states that decoding produces *)

Lemma palette_layer_wf i : 0 <= i <= 255 -> wf_layer (palette_layer i).
Proof.
  intros Hi. unfold palette_layer. destruct (palette i) as [[r g] b] eqn:E.
  pose proof (palette_byte i r g b ltac:(lia) E) as H. unfold is_byte in H. byte_hyps.
  split; cbn; [auto|]. unfold rgb_bytes, byte_ok. lia.
Qed.

Lemma u8_byte x : byte_ok (u8 x).
Proof. unfold u8. change 255 with (Z.ones 8). rewrite Z.land_ones by lia. unfold byte_ok. pose proof (Z.mod_pos_bound x (2 ^ 8) ltac:(lia)). lia. Qed.

Lemma wf_layer_rgb i r g b l : wf_layer l -> i = to_rgb (l_idx l) -> rgb_bytes r g b -> wf_layer (Layer i r g b).
Proof.
  intros [Hk Hb] -> Hr. split; [|done]. cbn. unfold to_rgb.
  destruct Hk as [->|[->|[? ?]]]; [auto|auto|]. right. left.
  by rewrite (proj2 (Z.leb_le _ _)), (proj2 (Z.leb_le _ _)) by lia.
Qed.

Lemma parse_bmp_wf p0 p1 p2 cs : wf_cs cs -> wf_cs (parse_bmp_color p0 p1 p2 cs).
Proof.
  intros [Hf Hb]. unfold parse_bmp_color. cbn zeta. repeat (case_match; [|]); try done.
  - split; split; cbn; auto; unfold rgb_bytes, byte_ok; lia.
  - byte_hyps. split; [|done]. apply palette_layer_wf. lia.
  - byte_hyps. split; [done|]. apply palette_layer_wf. lia.
Qed.

Lemma parse_smp_wf p1 p2 p3 cs : wf_cs cs -> wf_cs (parse_smp_color p1 p2 p3 cs).
Proof.
  intros [Hf Hb]. unfold parse_smp_color. cbn zeta.
  pose proof Hf as [_ (? & ? & ?)]. pose proof Hb as [_ (? & ? & ?)].
  repeat (case_match; [|]); try done; split; try done;
    (eapply wf_layer_rgb; [| reflexivity |]; [done|]); unfold rgb_bytes; auto using u8_byte.
Qed.

Lemma pua_step_wf p cs q cs' : pua_step p cs = Some (q, cs') -> wf_cs cs -> wf_cs cs'.
Proof.
  unfold pua_step. intros H Hw. destruct p as [|p0 [|p1 [|p2 p]]]; try done.
  destruct (_ && _); [simplify_eq; by apply parse_bmp_wf|].
  destruct p as [|p3 p]; [done|]. destruct (_ && _); [simplify_eq; by apply parse_smp_wf|done].
Qed.

Lemma tok_state_wf cs t : wf_cs cs -> wf_cs (tok_state cs t).
Proof.
  intros H. destruct t as [bs|bs]; cbn; [done|]. destruct (pua_step bs cs) as [[q cs']|] eqn:E; [|done].
  by eapply pua_step_wf.
Qed.

Lemma normal_wf : wf_cs CO_CS_NORMAL.
Proof. split; split; cbn; auto; unfold rgb_bytes, byte_ok; lia. Qed.

(** ** [co_collapse_color] on well-formed text *)

(** The tokens of the collapsed text, from the state [e] written so far and the pending
    state [p]. *)
Fixpoint collapsed (e p : co_ColorState) (ts : list tok) : list tok :=
  match ts with
  | [] => transition e p
  | TVis bs :: ts' => transition e p ++ TVis bs :: collapsed p p ts'
  | t :: ts' => collapsed e (tok_state p t) ts'
  end.

Lemma shown_cols cs ts us : Forall (fun t => is_vis t = false) ts ->
  shown cs (ts ++ us) = shown (final_state cs ts) us.
Proof.
  intros H. rewrite shown_app. replace (shown cs ts) with (@nil (co_ColorState * bytes)); [done|].
  clear us. revert cs. induction H as [|[bs|bs] ts Ht H IH]; intros cs; cbn; [done|done|]. apply IH.
Qed.

(** The collapsed text shows what the text shows and leaves the same state. *)
Lemma collapsed_shown d e p ts : cs_eqv d e -> wf_cs p ->
  shown_eqv (shown d (collapsed e p ts)) (shown p ts) /\
  cs_eqv (final_state d (collapsed e p ts)) (final_state p ts).
Proof.
  revert d e p. induction ts as [|[bs|bs] ts IH]; intros d e p He Hp; cbn [collapsed].
  - rewrite <- (app_nil_r (transition e p)), shown_cols, final_app by apply transition_cols.
    cbn. split; [constructor|by apply transition_state].
  - rewrite shown_cols, final_app by apply transition_cols. cbn.
    pose proof (transition_state d e p He Hp) as Ht. destruct (IH _ p p Ht Hp) as [H1 H2].
    split; [|done]. by constructor.
  - cbn. apply IH; [done|]. by apply (tok_state_wf p (TCol bs)).
Qed.

Lemma collapsed_wf e p ts : wf_cs p -> wf ts -> wf (collapsed e p ts).
Proof.
  revert e p. induction ts as [|[bs|bs] ts IH]; intros e p Hp Hw; cbn [collapsed].
  - by apply transition_wf.
  - apply wf_cons in Hw as [Ht Hw]. apply wf_app. split; [by apply transition_wf|].
    apply wf_cons. auto.
  - apply wf_cons in Hw as [Ht Hw]. apply IH; [|done]. by apply (tok_state_wf p (TCol bs)).
Qed.

Lemma shown_vis_strip cs ts : map snd (shown cs ts) = map tok_bytes (strip ts).
Proof.
  revert cs. induction ts as [|[bs|bs] ts IH]; intros cs; [done| |]; unfold strip.
  - rewrite filter_cons_True by done. cbn. f_equal. apply IH.
  - rewrite filter_cons_False by done. apply IH.
Qed.

Section Collapse.
Context {cfg : Config}.

Lemma co_visible_advance_vis bs ts : wf (TVis bs :: ts) ->
  co_visible_advance (bs ++ flatten ts) 1 = (flatten ts, 1%nat).
Proof.
  intros Hw. change (bs ++ flatten ts) with (flatten (TVis bs :: ts)).
  rewrite co_visible_advance_flatten by done. cbn [adv]. by rewrite adv_0, nvis_vis.
Qed.

(** Nothing is written to a full buffer. *)
Lemma emit_transition_full out old new : (cap <= length out)%nat -> (length out <= cap)%nat ->
  emit_transition out old new = out.
Proof.
  intros H1 H2. assert (Hb : forall cp, emit_pua_bmp out cp = out).
  { intros cp. unfold emit_pua_bmp. by rewrite (proj2 (Nat.leb_gt _ _)) by lia. }
  assert (Hs : forall b x, emit_pua_smp out b x = out).
  { intros b x. unfold emit_pua_smp. by rewrite (proj2 (Nat.leb_gt _ _)) by lia. }
  assert (Hi : forall c cp, emit_if c out cp = out) by (intros [] cp; [apply Hb|done]).
  assert (Hl : forall base block c n, emit_layer out base block c n = out).
  { intros. unfold emit_layer. cbn zeta. rewrite !Hb, !Hs. by repeat case_match. }
  unfold emit_transition. destruct (co_cs_equal old new); [done|]. cbn zeta. by rewrite !Hi, !Hl.
Qed.

Lemma wp_safe_bytes_fits out s : (length out + length s <= cap)%nat -> wp_safe_bytes out s = out ++ s.
Proof.
  intros H. rewrite <- (clamp_id out) by lia. rewrite wp_safe_bytes_clamp, clamp_id; [|rewrite length_app; lia].
  by rewrite clamp_id by lia.
Qed.

Lemma collapse_fits ts fuel :
  wf ts -> (length (flatten (collapsed CO_CS_NORMAL CO_CS_NORMAL ts)) <= cap)%nat ->
  (length (flatten ts) < fuel)%nat ->
  co_collapse_color_fuel fuel (flatten ts) = Some (flatten (collapsed CO_CS_NORMAL CO_CS_NORMAL ts)).
Proof.
  intros Hw Hfit Hfuel. set (T := flatten (collapsed _ _ ts)) in *. unfold co_collapse_color_fuel.
  destruct (iter_total collapse_body
    (fun v => exists us, wf us /\ cc_p v = flatten us /\
       cc_out v ++ flatten (collapsed (cc_emitted v) (cc_pending v) us) = T)
    (fun r => r = T) (fun v => length (cc_p v))) with (fuel := fuel)
    (s := {| cc_p := flatten ts; cc_out := []; cc_emitted := CO_CS_NORMAL; cc_pending := CO_CS_NORMAL |})
    as (r & -> & ->); [|by exists ts|done|done].
  clear Hw Hfuel. intros [p out e pend] (us & Hw & E & HT). cbn in E, HT. subst p.
  unfold collapse_body. cbn [cc_p cc_out cc_emitted cc_pending].
  assert (Hlen : (length out + length (flatten (collapsed e pend us)) <= cap)%nat)
    by (rewrite <- HT, length_app in Hfit; done).
  destruct ((0 <? length (flatten us))%nat && (length out <? cap)%nat) eqn:Eb.
  - apply andb_prop in Eb as [Hne _]. apply Nat.ltb_lt in Hne.
    destruct us as [|[bs|bs] us]; [cbn in Hne; lia| |]; apply wf_cons in Hw as Hw'; destruct Hw' as [Ht Hus];
      pose proof (tok_bytes_nonempty _ Ht); rewrite flatten_cons in *; cbn [tok_bytes] in *.
    + rewrite (pua_step_vis (TVis bs)) by done. rewrite co_visible_advance_vis by done.
      cbn [cc_p cc_out cc_emitted cc_pending collapsed] in *.
      rewrite flatten_app, flatten_cons, !length_app in Hlen. cbn [tok_bytes] in Hlen.
      rewrite emit_transition_fits, range_app by lia.
      rewrite wp_safe_bytes_fits by (rewrite length_app; lia).
      split; [|rewrite length_app; lia]. exists us. split_and!; [done|done|].
      rewrite <- HT, flatten_app, flatten_cons, <- !app_assoc. done.
    + rewrite (pua_step_col (TCol bs)) by done. cbn [cc_p cc_out cc_emitted cc_pending].
      split; [|rewrite length_app; lia]. by exists us.
  - assert (Hr : (if negb (co_cs_equal pend e) then emit_transition out e pend else out) =
                 emit_transition out e pend).
    { unfold co_cs_equal. case_bool_decide; [|done]. subst. unfold emit_transition, co_cs_equal.
      by rewrite bool_decide_true. }
    rewrite Hr. apply andb_false_iff in Eb as [Eb|Eb]; apply Nat.ltb_ge in Eb.
    + assert (us = []) as ->.
      { destruct us as [|t us]; [done|]. apply wf_cons in Hw as [Ht _].
        pose proof (tok_bytes_nonempty t Ht). rewrite flatten_cons, length_app in Eb. lia. }
      cbn [collapsed] in *. rewrite emit_transition_fits; done.
    + rewrite emit_transition_full by lia. rewrite <- HT.
      destruct (flatten (collapsed e pend us)) eqn:E; [by rewrite app_nil_r|cbn in Hlen; lia].
Qed.

Lemma collapse_cap fuel data r : co_collapse_color_fuel fuel data = Some r -> (length r <= cap)%nat.
Proof.
  apply (iter_inv collapse_body (fun v => length (cc_out v) <= cap)%nat (fun r => length r <= cap)%nat);
    [|cbn; lia].
  intros v Hv. unfold collapse_body. destruct (_ && _).
  - destruct (pua_step _ _) as [[q c]|]; [done|]. destruct (co_visible_advance _ _) as [a k]. cbn.
    auto using wp_safe_bytes_cap, emit_transition_cap.
  - destruct (negb _); auto using emit_transition_cap.
Qed.

(** On well-formed text the loop ends, also when the output does not fit. *)
Lemma collapse_ends ts : wf ts -> exists r, co_collapse_color (flatten ts) = Some r.
Proof.
  intros Hw. unfold co_collapse_color, co_collapse_color_fuel.
  destruct (iter_total collapse_body (fun v => exists us, wf us /\ cc_p v = flatten us) (fun _ => True)
    (fun v => length (cc_p v))) with (fuel := S (length (flatten ts)))
    (s := {| cc_p := flatten ts; cc_out := []; cc_emitted := CO_CS_NORMAL; cc_pending := CO_CS_NORMAL |})
    as (r & -> & _); [|by exists ts|cbn; lia|by exists r].
  clear Hw. intros [p out e pend] (us & Hw & E). cbn in E. subst p. unfold collapse_body.
  cbn [cc_p cc_out cc_emitted cc_pending]. destruct (_ && _) eqn:Eb; [|done].
  apply andb_prop in Eb as [Hne _]. apply Nat.ltb_lt in Hne.
  destruct us as [|[bs|bs] us]; [cbn in Hne; lia| |]; apply wf_cons in Hw as Hw'; destruct Hw' as [Ht Hus];
    pose proof (tok_bytes_nonempty _ Ht); rewrite flatten_cons in *; cbn [tok_bytes] in *.
  - rewrite (pua_step_vis (TVis bs)), co_visible_advance_vis by done.
    cbn [cc_p]. split; [by exists us|rewrite length_app; lia].
  - rewrite (pua_step_col (TCol bs)) by done. cbn [cc_p]. split; [by exists us|rewrite length_app; lia].
Qed.

(** A byte that starts no code point. *)
Definition stray (b : Z) : Prop := 128 <= b <= 193 \/ 245 <= b <= 255.

Lemma stray_stays b rest cs : stray b -> pua_step (b :: rest) cs = None /\ co_visible_advance (b :: rest) 1 = (b :: rest, 0%nat).
Proof.
  intros Hb. assert (E : scan_step St12 b = (St0, None)) by (unfold scan_step; destruct Hb as [Hb|Hb]; by byte_cases).
  split.
  - unfold stray in Hb. unfold pua_step. destruct rest as [|x [|y [|z rest]]]; try done;
      rewrite !(proj2 (Z.eqb_neq b _)) by lia; done.
  - unfold co_visible_advance. cbn [ragel_exec]. rewrite E. done.
Qed.

Lemma co_visible_advance_tok bs rest : wf_tok (TVis bs) = true -> co_visible_advance (bs ++ rest) 1 = (rest, 1%nat).
Proof.
  intros Ht. unfold co_visible_advance. destruct (ragel_exec_tok (vis_hit 1) (TVis bs) rest 0%nat Ht) as [cs E].
  cbn [tok_bytes tok_kind] in E. rewrite E.
  assert (tok_run (vis_hit 1) true KVis bs rest 0%nat = inr (rest, 1%nat)) as ->; [|done].
  change bs with (tok_bytes (TVis bs)) at 1. change KVis with (tok_kind (TVis bs)).
  assert (Hv : is_vis (TVis bs) = true) by done. revert Hv. revert Ht. generalize (TVis bs). clear. intros t Ht.
  tok_shapes t Ht; try done.
Qed.

(** It is never passed: the loop does not end, unless the buffer is full before. *)
Lemma collapse_diverges ts b rest fuel : wf ts -> stray b ->
  (length (flatten (collapsed CO_CS_NORMAL CO_CS_NORMAL ts)) < cap)%nat ->
  co_collapse_color_fuel fuel (flatten ts ++ b :: rest) = None.
Proof.
  intros Hw Hb Hc. apply (iter_diverges collapse_body (fun v => exists us, wf us /\ cc_p v = flatten us ++ b :: rest /\
    (length (cc_out v) + length (flatten (collapsed (cc_emitted v) (cc_pending v) us)) < cap)%nat)); [|by exists ts].
  clear Hw Hc. intros [p out e pend] (us & Hw & E & Hlen). cbn [cc_p cc_out cc_emitted cc_pending] in *. subst p.
  unfold collapse_body. cbn [cc_p cc_out cc_emitted cc_pending].
  assert (0 < length (flatten us ++ b :: rest))%nat by (rewrite length_app; cbn; lia).
  rewrite (proj2 (Nat.ltb_lt 0 _)), (proj2 (Nat.ltb_lt _ cap)) by lia. cbn [andb].
  destruct us as [|[bs|bs] us].
  - cbn [flatten flat_map app]. destruct (stray_stays b rest pend Hb) as [-> ->]. eexists. split; [reflexivity|]. exists [].
    cbn [collapsed] in Hlen. rewrite emit_transition_fits by lia.
    cbn [cc_p cc_out cc_emitted cc_pending]. split_and!; [done|done|].
    rewrite <- (app_nil_l (b :: rest)) at 1. rewrite range_app. cbn [wp_safe_bytes foldl]. cbn [collapsed].
    unfold transition at 2, co_cs_equal. rewrite bool_decide_true by done. rewrite length_app. cbn. lia.
  - apply wf_cons in Hw as [Ht Hus]. rewrite flatten_cons. cbn [tok_bytes]. rewrite <- app_assoc.
    rewrite (pua_step_vis (TVis bs)), co_visible_advance_tok by done. eexists. split; [reflexivity|]. exists us.
    cbn [collapsed] in Hlen. rewrite flatten_app, flatten_cons, !length_app in Hlen. cbn [tok_bytes] in Hlen.
    cbn [cc_p cc_out cc_emitted cc_pending]. rewrite emit_transition_fits, range_app by lia.
    rewrite wp_safe_bytes_fits by (rewrite length_app; lia). split_and!; [done|done|]. rewrite !length_app. lia.
  - apply wf_cons in Hw as [Ht Hus]. rewrite flatten_cons. cbn [tok_bytes]. rewrite <- app_assoc.
    rewrite (pua_step_col (TCol bs)) by done. eexists. split; [reflexivity|]. by exists us.
Qed.
End Collapse.

(** ** [co_merge] on well-formed text *)

(** The tokens of the merged text, from the state written so far and what the two texts
    show: the second text where the first one shows [splain]. *)
Definition merge_pick (splain : bytes) (x y : co_ColorState * bytes) : co_ColorState * bytes :=
  if bool_decide (x.2 = splain) then y else x.
Fixpoint painted (e : co_ColorState) (xs : list (co_ColorState * bytes)) : list tok :=
  match xs with
  | [] => transition e CO_CS_NORMAL
  | (s, bs) :: xs' => transition e s ++ TVis bs :: painted s xs'
  end.

Lemma painted_shown d e xs : cs_eqv d e -> Forall (fun x => wf_cs x.1) xs ->
  shown_eqv (shown d (painted e xs)) xs /\ cs_eqv (final_state d (painted e xs)) CO_CS_NORMAL.
Proof.
  revert d e. induction xs as [|[s bs] xs IH]; intros d e He Hx; cbn [painted].
  - rewrite <- (app_nil_r (transition e _)), shown_cols, final_app by apply transition_cols. cbn.
    split; [constructor|]. apply transition_state; [done|apply normal_wf].
  - apply Forall_cons in Hx as [Hs Hx]. rewrite shown_cols, final_app by apply transition_cols. cbn.
    pose proof (transition_state d e s He Hs) as Ht. destruct (IH _ s Ht Hx) as [H1 H2].
    split; [|done]. by constructor.
Qed.

Lemma shown_wf cs ts : wf_cs cs -> Forall (fun x => wf_cs x.1) (shown cs ts).
Proof.
  revert cs. induction ts as [|[bs|bs] ts IH]; intros cs H; cbn; [constructor| |].
  - constructor; [done|]. by apply IH.
  - apply IH. by apply (tok_state_wf cs (TCol bs)).
Qed.

Lemma shown_length cs ts : length (shown cs ts) = nvis ts.
Proof.
  revert cs. induction ts as [|[bs|bs] ts IH]; intros cs; [done| |]; cbn [shown].
  - rewrite nvis_vis. cbn. f_equal. apply IH.
  - by rewrite nvis_col.
Qed.

Section Merge.
Context {cfg : Config}.

Lemma shown_head_length cs ts x xs : wf ts -> shown cs ts = x :: xs -> (0 < length x.2)%nat.
Proof.
  intros Hw. revert cs. induction ts as [|[b|b] ts IH]; intros cs H; cbn in H; [done| |];
    apply wf_cons in Hw as [Ht Hw].
  - injection H as <- _. exact (tok_bytes_nonempty _ Ht).
  - by eapply IH.
Qed.

Lemma consume_pua_flatten ts cs fuel : wf ts -> (length (flatten ts) <= fuel)%nat ->
  exists cs', consume_pua fuel (flatten ts) cs = (flatten (skip_cols ts), cs') /\
    shown cs ts = shown cs' (skip_cols ts).
Proof.
  revert cs fuel. induction ts as [|[bs|bs] ts IH]; intros cs fuel Hw Hf.
  - exists cs. by destruct fuel.
  - apply wf_cons in Hw as [Ht _]. exists cs. cbn [skip_cols]. rewrite flatten_cons.
    destruct fuel as [|fuel]; [done|]. cbn [consume_pua]. by rewrite pua_step_vis.
  - apply wf_cons in Hw as [Ht Hw]. rewrite flatten_cons, length_app in *.
    pose proof (tok_bytes_nonempty _ Ht). destruct fuel as [|fuel]; [lia|]. cbn [consume_pua skip_cols].
    rewrite pua_step_col by done. apply (IH _ fuel); [done|lia].
Qed.

Lemma cplen_tok t p : wf_tok t = true -> is_vis t = true ->
  exists c q, tok_bytes t ++ p = c :: q /\ cplen c = length (tok_bytes t).
Proof.
  intros Ht. tok_shapes t Ht; try done; eexists _, _; (split; [reflexivity|]);
    unfold cplen; cbn [tok_bytes length]; vis_hyps; by byte_cases.
Qed.

Lemma skip_cols_shown cs ts : skip_cols ts = [] -> shown cs ts = [].
Proof. revert cs. induction ts as [|[bs|bs] ts IH]; intros cs H; cbn; [done|done|]. by apply IH. Qed.

(** What the loop has left to write. *)
Definition merge_rest (splain : bytes) (v : merge_vars) (ts us : list tok) : list tok :=
  painted (mg_emitted v) (zip_with (merge_pick splain) (shown (mg_stateA v) ts) (shown (mg_stateB v) us)).

Lemma skip_cols_length ts : wf ts -> (length (flatten (skip_cols ts)) <= length (flatten ts))%nat.
Proof.
  intros Hw. rewrite <- co_skip_color_flatten by done. destruct (co_skip_color_suffix (flatten ts)) as [l E].
  apply (f_equal length) in E. rewrite length_app in E. lia.
Qed.

(** When the buffer is full there is nothing left to show. *)
Lemma merge_rest_nil splain e ts us xs ys : wf ts -> wf us -> nvis ts = nvis us ->
  shown xs ts <> [] -> (0 < length (flatten (painted e (zip_with (merge_pick splain) (shown xs ts) (shown ys us)))))%nat.
Proof.
  intros Hw Hu Hn Hne. destruct (shown xs ts) as [|x xs'] eqn:Ex; [done|].
  pose proof (shown_length ys us) as El. rewrite <- Hn, <- (shown_length xs), Ex in El.
  destruct (shown ys us) as [|y ys'] eqn:Ey; [done|]. cbn [zip_with painted].
  pose proof (shown_head_length _ _ _ _ Hw Ex). pose proof (shown_head_length _ _ _ _ Hu Ey).
  destruct (merge_pick splain x y) as [s bs] eqn:Ep. cbn [painted].
  rewrite flatten_app, flatten_cons, !length_app. cbn [tok_bytes].
  assert (0 < length bs)%nat; [|lia]. unfold merge_pick in Ep. destruct (bool_decide _); subst; done.
Qed.

Lemma merge_body_step splain v ts us T :
  wf ts -> wf us -> mg_pa v = flatten ts -> mg_pb v = flatten us -> nvis ts = nvis us ->
  mg_out v ++ flatten (merge_rest splain v ts us) = T -> (length T <= cap)%nat ->
  match merge_body splain v with
  | inr v' => mg_out v' ++ flatten (transition (mg_emitted v') CO_CS_NORMAL) = T
  | inl v' => exists ts' us', wf ts' /\ wf us' /\ mg_pa v' = flatten ts' /\ mg_pb v' = flatten us' /\
      nvis ts' = nvis us' /\ mg_out v' ++ flatten (merge_rest splain v' ts' us') = T /\
      (length (mg_pa v') < length (mg_pa v))%nat
  end.
Proof.
  destruct v as [pa pb out sa sb e]. cbn. intros Hw Hu -> -> Hn HT Hcap. unfold merge_rest in *. cbn in HT.
  unfold merge_body. cbn [mg_pa mg_pb mg_out mg_stateA mg_stateB mg_emitted].
  assert (Hend : shown sa ts = [] -> out ++ flatten (transition e CO_CS_NORMAL) = T)
    by (intros E; rewrite E in HT; exact HT).
  assert (Hfull : (cap <= length out)%nat -> out ++ flatten (transition e CO_CS_NORMAL) = T).
  { intros Hf. apply Hend. rewrite <- HT, length_app in Hcap.
    destruct (decide (shown sa ts = [])) as [|Hne]; [done|exfalso].
    pose proof (merge_rest_nil splain e ts us sa sb Hw Hu Hn Hne). lia. }
  destruct (_ && _) eqn:Eb.
  2: { apply andb_false_iff in Eb as [Eb|Eb]; [apply andb_false_iff in Eb as [Eb|Eb]|]; apply Nat.ltb_ge in Eb; cbn.
       - apply Hend. destruct ts as [|t ts]; [done|]. exfalso. apply wf_cons in Hw as [Ht _].
         pose proof (tok_bytes_nonempty t Ht). rewrite flatten_cons, length_app in Eb. lia.
       - apply Hend, nil_length_inv. rewrite shown_length, Hn. destruct us as [|t us]; [done|]. exfalso.
         apply wf_cons in Hu as [Ht _]. pose proof (tok_bytes_nonempty t Ht).
         rewrite flatten_cons, length_app in Eb. lia.
       - by apply Hfull. }
  apply andb_prop in Eb as [Eb _]. apply andb_prop in Eb as [Ea _]. apply Nat.ltb_lt in Ea.
  destruct (consume_pua_flatten ts sa _ Hw (Nat.le_refl _)) as (sa' & -> & Ha).
  destruct (consume_pua_flatten us sb _ Hu (Nat.le_refl _)) as (sb' & -> & Hb).
  pose proof (skip_cols_length ts Hw) as Hla. pose proof (skip_cols_wf ts Hw) as Hwa.
  pose proof (skip_cols_wf us Hu) as Hwb.
  destruct (skip_cols_head ts) as [Ea'|(a & ta & Ea')]; rewrite Ea' in *.
  { cbn. apply Hend. by rewrite Ha. }
  destruct (skip_cols_head us) as [Eb'|(b & tb & Eb')]; rewrite Eb' in *.
  { exfalso. pose proof (f_equal length Hb) as El. rewrite shown_length, <- Hn, <- (shown_length sa), Ha in El. done. }
  apply wf_cons in Hwa as [Hta Hwa]. apply wf_cons in Hwb as [Htb Hwb].
  rewrite !flatten_cons in *. cbn [tok_bytes] in *.
  destruct (cplen_tok (TVis a) (flatten ta) Hta eq_refl) as (c & q & Ec & Hc).
  destruct (cplen_tok (TVis b) (flatten tb) Htb eq_refl) as (c' & q' & Ec' & Hc').
  cbn [tok_bytes] in *. rewrite Ec, Ec'. cbn [mg_pa mg_pb mg_out mg_stateA mg_stateB mg_emitted].
  rewrite <- Ec, <- Ec', Hc, Hc', !take_app_length, !drop_app_length.
  assert (Em : (length a =? length splain)%nat && bool_decide (a = splain) = bool_decide (a = splain)).
  { case_bool_decide as Ed; [subst; by rewrite Nat.eqb_refl|by rewrite andb_false_r]. }
  rewrite Em, Ha, Hb in *. cbn [shown zip_with] in HT. unfold merge_pick at 1 in HT. cbn [fst snd] in HT.
  set (pick := if bool_decide (a = splain) then (sb', b) else (sa', a)) in *.
  destruct pick as [s bs] eqn:Ep. cbn [painted] in HT. rewrite flatten_app, flatten_cons in HT.
  cbn [tok_bytes mg_pa mg_pb mg_out mg_stateA mg_stateB mg_emitted] in HT |- *.
  rewrite <- HT, !length_app in Hcap. rewrite emit_transition_fits by lia.
  rewrite wp_safe_bytes_fits by (rewrite length_app; lia).
  exists ta, tb. split_and!; [done|done|done|done| | |].
  - pose proof (f_equal length Ha) as La. pose proof (f_equal length Hb) as Lb.
    rewrite !shown_length, nvis_vis in La. rewrite !shown_length, nvis_vis in Lb. lia.
  - by rewrite <- !app_assoc.
  - pose proof (tok_bytes_nonempty _ Hta) as Hp. cbn in Hp. rewrite length_app in Hla. lia.
Qed.

Definition merge_spec (search : bytes) (ts us : list tok) : list tok :=
  painted CO_CS_NORMAL (zip_with (merge_pick (merge_search search))
    (shown CO_CS_NORMAL ts) (shown CO_CS_NORMAL us)).

Lemma co_merge_flatten search ts us : wf ts -> wf us -> nvis ts = nvis us ->
  (length (flatten (merge_spec search ts us)) <= cap)%nat ->
  co_merge (flatten ts) (flatten us) search = Some (flatten (merge_spec search ts us)).
Proof.
  intros Hw Hu Hn Hcap. unfold co_merge. rewrite !co_visible_length_flatten, Hn, Nat.eqb_refl by done.
  cbn [negb]. set (T := flatten (merge_spec search ts us)) in *.
  destruct (iter_total (merge_body (merge_search search))
    (fun v => exists ts us, wf ts /\ wf us /\ mg_pa v = flatten ts /\ mg_pb v = flatten us /\ nvis ts = nvis us /\
       mg_out v ++ flatten (merge_rest (merge_search search) v ts us) = T)
    (fun v => mg_out v ++ flatten (transition (mg_emitted v) CO_CS_NORMAL) = T)
    (fun v => length (mg_pa v))) with (fuel := S (length (flatten ts)))
    (s := {| mg_pa := flatten ts; mg_pb := flatten us; mg_out := [];
             mg_stateA := CO_CS_NORMAL; mg_stateB := CO_CS_NORMAL; mg_emitted := CO_CS_NORMAL |})
    as (v & Ev & Hv).
  - intros v (ts' & us' & ? & ? & ? & ? & ? & HT).
    pose proof (merge_body_step (merge_search search) v ts' us' T) as Hst.
    destruct (merge_body _ v) as [v'|v']; [|by apply Hst].
    destruct Hst as (ts2 & us2 & ? & ? & ? & ? & ? & ? & ?); try done. split; [|done]. by exists ts2, us2.
  - by exists ts, us.
  - cbn. lia.
  - cbn zeta. rewrite Ev. cbn [mbind option_bind]. f_equal.
    rewrite <- Hv in Hcap |- *. rewrite length_app in Hcap. rewrite emit_transition_fits by done.
    unfold co_cs_equal. case_bool_decide as E; [|done]. rewrite E. cbn [negb]. by rewrite app_nil_r.
Qed.
End Merge.

(** ** Properties *)

(** [find_nearest_palette] returns a palette index at the least Euclidean distance, the
    first one at that distance. *)
Theorem find_nearest_palette_spec r g b : rgb_bytes r g b ->
  let i := find_nearest_palette r g b in
  0 <= i < 256 /\
  (forall j, 0 <= j < 256 -> dist r g b (palette i) <= dist r g b (palette j)) /\
  (forall j, 0 <= j < i -> dist r g b (palette i) < dist r g b (palette j)).
Proof. apply find_nearest_min. Qed.

Lemma find_nearest_palette_spec_witness :
  rgb_bytes 250 3 1 /\ 0 <= find_nearest_palette 250 3 1 < 256 /\ find_nearest_palette 250 3 1 = 9.
Proof.
  assert (H : rgb_bytes 250 3 1) by (unfold rgb_bytes, byte_ok; lia).
  split; [exact H|]. split; [exact (proj1 (find_nearest_palette_spec 250 3 1 H))|vm_compute; reflexivity].
Defined.

(** the decoder keeps the invariant of colour states on any bytes: a palette index comes
    with the RGB of its entry, and every component is a byte; and it respects the
    equivalence of states that look the same. *)
Theorem pua_step_invariant p cs cs2 q cs' :
  wf_cs cs -> cs_eqv cs cs2 -> pua_step p cs = Some (q, cs') ->
  wf_cs cs' /\ q `suffix_of` p /\ exists cs2', pua_step p cs2 = Some (q, cs2') /\ cs_eqv cs' cs2'.
Proof.
  intros Hw He H. split; [by eapply pua_step_wf|]. unfold pua_step in *.
  destruct p as [|p0 [|p1 [|p2 p]]]; try done. destruct (_ && _).
  - simplify_eq. split; [by exists [p0; p1; p2]|]. eexists. split; [done|]. by apply parse_bmp_proper.
  - destruct p as [|p3 p]; [done|]. destruct (_ && _); [|done]. simplify_eq.
    split; [by exists [p0; p1; p2; p3]|]. eexists. split; [done|]. by apply parse_smp_proper.
Qed.

Lemma pua_step_invariant_witness :
  wf_cs (parse_bmp_color 239 152 129 CO_CS_NORMAL) /\
  pua_step [239; 152; 129; 97] CO_CS_NORMAL = Some ([97], parse_bmp_color 239 152 129 CO_CS_NORMAL).
Proof.
  assert (E : pua_step [239; 152; 129; 97] CO_CS_NORMAL =
              Some ([97], parse_bmp_color 239 152 129 CO_CS_NORMAL)) by reflexivity.
  split; [|exact E].
  exact (proj1 (pua_step_invariant _ _ CO_CS_NORMAL _ _ normal_wf (reflexivity _) E)).
Defined.

(** C13: decoding what [emit_transition] writes, from any state that looks like the old one,
    gives a state that looks like the new one; when the code points fit the buffer they are
    well-formed colour code points. *)
Theorem emit_transition_roundtrip {cfg : Config} out cs old new :
  cs_eqv cs old -> wf_cs new -> (length out + length (flatten (transition old new)) <= cap)%nat ->
  exists ts, emit_transition out old new = out ++ flatten ts /\ wf ts /\
    Forall (fun t => is_vis t = false) ts /\ cs_eqv (final_state cs ts) new.
Proof.
  intros He Hw Hf. exists (transition old new).
  split_and!; [by apply emit_transition_fits|by apply transition_wf|apply transition_cols|by apply transition_state].
Qed.

(** Intense on a 24-bit foreground. *)
Definition sample_cs : co_ColorState := CS (Layer (-2) 1 2 3) layer_default true false false false.

Lemma sample_cs_wf : wf_cs sample_cs.
Proof. split; split; cbn; auto; unfold rgb_bytes, byte_ok; lia. Qed.

Lemma emit_transition_roundtrip_witness :
  exists ts, emit_transition (cfg := default_config) [] CO_CS_NORMAL sample_cs = [] ++ flatten ts /\ wf ts /\
    Forall (fun t => is_vis t = false) ts /\ cs_eqv (final_state CO_CS_NORMAL ts) sample_cs.
Proof.
  apply emit_transition_roundtrip; [reflexivity | exact sample_cs_wf |].
  apply Nat.leb_le. vm_compute. reflexivity.
Defined.

(** C28: [co_collapse_color] terminates on well-formed text and, when its output fits, writes
    well-formed text that shows every visible code point in the colour it had and leaves
    the same final state. *)
Theorem collapse_color_shown {cfg : Config} ts :
  wf ts -> (length (flatten (collapsed CO_CS_NORMAL CO_CS_NORMAL ts)) <= cap)%nat ->
  exists us, co_collapse_color (flatten ts) = Some (flatten us) /\ wf us /\
    shown_eqv (shown CO_CS_NORMAL us) (shown CO_CS_NORMAL ts) /\
    cs_eqv (final_state CO_CS_NORMAL us) (final_state CO_CS_NORMAL ts).
Proof.
  intros Hw Hf. exists (collapsed CO_CS_NORMAL CO_CS_NORMAL ts).
  destruct (collapsed_shown CO_CS_NORMAL CO_CS_NORMAL CO_CS_NORMAL ts (reflexivity _) normal_wf).
  split_and!; [apply collapse_fits; (done || lia)|by apply collapsed_wf, Hw; apply normal_wf|done|done].
Qed.

(** Red, then green, then "a", a reset, "b": the red is redundant. *)
Definition sample_redundant : list tok := [bmp 62977; bmp 62978; TVis [97]; bmp 62720; TVis [98]].

Lemma collapse_color_shown_witness :
  (exists us, co_collapse_color (cfg := default_config) (flatten sample_redundant) = Some (flatten us) /\ wf us /\
    shown_eqv (shown CO_CS_NORMAL us) (shown CO_CS_NORMAL sample_redundant) /\
    cs_eqv (final_state CO_CS_NORMAL us) (final_state CO_CS_NORMAL sample_redundant)) /\
  co_collapse_color (cfg := default_config) (flatten sample_redundant) =
    Some (flatten [bmp 62978; TVis [97]; bmp 62720; TVis [98]]).
Proof.
  split; [|vm_compute; reflexivity].
  apply collapse_color_shown; [repeat constructor|]. apply Nat.leb_le. vm_compute. reflexivity.
Defined.

(** C40: [co_collapse_color] returns on every well-formed text, and whatever it returns, on any
    bytes, leaves room for the NUL.  On a well-formed text followed by a byte that starts no code
    point and anything else it never returns, as long as the buffer is not full when it comes to
    that byte. *)
Theorem collapse_color_bounds {cfg : Config} :
  (forall ts, wf ts -> exists r, co_collapse_color (flatten ts) = Some r /\ (length r <= LBUF_SIZE - 1)%nat) /\
  (forall fuel data r, co_collapse_color_fuel fuel data = Some r -> (length r <= LBUF_SIZE - 1)%nat) /\
  (forall ts b rest fuel, wf ts -> stray b ->
     (length (flatten (collapsed CO_CS_NORMAL CO_CS_NORMAL ts)) < LBUF_SIZE - 1)%nat ->
     co_collapse_color_fuel fuel (flatten ts ++ b :: rest) = None).
Proof.
  split; [|split; [apply collapse_cap|intros ts b rest fuel; apply collapse_diverges]].
  intros ts Hw. destruct (collapse_ends ts Hw) as [r E]. exists r. split; [done|]. by eapply collapse_cap.
Qed.

(** A buffer of six bytes: the text is cut; and a stray byte between two letters. *)
Lemma collapse_color_bounds_witness :
  (exists r, co_collapse_color (cfg := {| LBUF_SIZE := 6 |}) (flatten (sample_redundant ++ sample_redundant)) = Some r
     /\ (length r <= 5)%nat) /\
  co_collapse_color_fuel (cfg := default_config) 1000 [97; 128; 98] = None.
Proof.
  split.
  - apply (proj1 (collapse_color_bounds (cfg := {| LBUF_SIZE := 6 |}))). repeat constructor.
  - apply (proj2 (proj2 (collapse_color_bounds (cfg := default_config))) [TVis [97]] 128 [98] 1000%nat);
      [repeat constructor|left; lia|apply Nat.ltb_lt; vm_compute; reflexivity].
Defined.

(** [co_apply_color] gives a text that shows the visible code points of its argument as
    they are shown from the given state, that is with the state as the default colour. *)
Theorem apply_color_shown {cfg : Config} ts cs :
  wf ts -> wf_cs cs -> (length (flatten (transition CO_CS_NORMAL cs ++ ts)) <= cap)%nat ->
  exists us, co_apply_color (flatten ts) cs = flatten us /\ wf us /\
    shown_eqv (shown CO_CS_NORMAL us) (shown cs ts).
Proof.
  intros Hw Hc Hf. exists (transition CO_CS_NORMAL cs ++ ts). rewrite flatten_app, length_app in Hf.
  split_and!.
  - unfold co_apply_color. cbn zeta. rewrite emit_transition_fits by (cbn; lia). cbn [app].
    rewrite flatten_app. destruct (Nat.ltb_spec 0 (length (flatten ts))) as [|Hz].
    + rewrite <- (clamp_id (flatten (transition _ _))) by lia.
      rewrite wp_safe_copy_clamp, clamp_id; [by rewrite clamp_id by lia|rewrite length_app; lia].
    + destruct (flatten ts); [by rewrite app_nil_r|cbn in Hz; lia].
  - apply wf_app. split; [by apply transition_wf|done].
  - rewrite shown_cols by apply transition_cols. apply shown_proper. by apply transition_state.
Qed.

Lemma apply_color_shown_witness :
  exists us, co_apply_color (cfg := default_config) (flatten sample) sample_cs = flatten us /\ wf us /\
    shown_eqv (shown CO_CS_NORMAL us) (shown sample_cs sample).
Proof.
  apply apply_color_shown; [repeat constructor | exact sample_cs_wf |].
  apply Nat.leb_le. vm_compute. reflexivity.
Defined.

(** [co_merge] terminates on well-formed texts of the same visible length and, when its
    output fits, shows the second text at the code points where the first one shows the
    search text and the first text elsewhere, and ends in the default state. *)
Theorem merge_shown {cfg : Config} search ts us :
  wf ts -> wf us -> nvis ts = nvis us -> (length (flatten (merge_spec search ts us)) <= cap)%nat ->
  exists vs, co_merge (flatten ts) (flatten us) search = Some (flatten vs) /\
    shown_eqv (shown CO_CS_NORMAL vs)
      (zip_with (fun x y => if bool_decide (x.2 = merge_search search) then y else x)
         (shown CO_CS_NORMAL ts) (shown CO_CS_NORMAL us)) /\
    cs_eqv (final_state CO_CS_NORMAL vs) CO_CS_NORMAL.
Proof.
  intros Hw Hu Hn Hf. exists (merge_spec search ts us). split; [by apply co_merge_flatten|].
  apply painted_shown; [done|].
  pose proof (shown_wf CO_CS_NORMAL ts normal_wf) as H1. pose proof (shown_wf CO_CS_NORMAL us normal_wf) as H2.
  revert H1 H2. generalize (shown CO_CS_NORMAL ts) (shown CO_CS_NORMAL us). intros xs.
  induction xs as [|x xs IH]; intros [|y ys] H1 H2; cbn; try constructor.
  - apply Forall_cons in H1 as [? _]. apply Forall_cons in H2 as [? _]. unfold merge_pick. by case_match.
  - apply Forall_cons in H1 as [_ ?]. apply Forall_cons in H2 as [_ ?]. by apply IH.
Qed.

Lemma merge_shown_witness :
  exists vs, co_merge (cfg := default_config) (flatten [TVis [97]; TVis [32]]) (flatten [bmp 62977; TVis [98]; TVis [99]]) [32]
      = Some (flatten vs) /\
    shown_eqv (shown CO_CS_NORMAL vs)
      (zip_with (fun x y => if bool_decide (x.2 = merge_search (cfg := default_config) [32]) then y else x)
         (shown CO_CS_NORMAL [TVis [97]; TVis [32]]) (shown CO_CS_NORMAL [bmp 62977; TVis [98]; TVis [99]])) /\
    cs_eqv (final_state CO_CS_NORMAL vs) CO_CS_NORMAL.
Proof.
  apply merge_shown; [repeat constructor | repeat constructor | reflexivity |].
  apply Nat.leb_le. vm_compute. reflexivity.
Defined.
