(* ===== verification/Substring.v ===== *)
(** * Stages 1 to 4 of [color_ops.c]: substrings, repetition, reversal

    [co_left], [co_right], [co_mid] and [co_delete] cut a text at visible positions and keep
    the colour of what they keep; [co_repeat] checks the size of its result before it
    writes; [co_reverse] writes every element straight to its final place in the output
    buffer, which is modelled as an array of bytes. *)

From S2P Require Import Prelude Encoding Scan Words.

Section Substring.
Context {cfg : Config}.

(** ** The functions *)

Definition co_left (data : bytes) (n : nat) : bytes := co_copy_visible data n.

Definition co_right (data : bytes) (n : nat) : bytes :=
  let total := co_visible_length data in
  if (total <=? n)%nat then raw_copy data []
  else
    let skip := (total - n)%nat in
    raw_copy (co_visible_advance data skip).1 [].

Definition co_mid (data : bytes) (iStart nCount : nat) : bytes :=
  if (nCount =? 0)%nat then []
  else
    let p := if (0 <? iStart)%nat then (co_visible_advance data iStart).1 else data in
    co_copy_visible p nCount.

(** The loop of [co_delete] that skips [todo] more visible code points. *)
Fixpoint delete_skip (todo : nat) (p : bytes) : bytes :=
  match todo with
  | O => p
  | S todo' =>
      if (0 <? length p)%nat then
        match co_skip_color p with
        | [] => []
        | q => delete_skip todo' (co_visible_advance q 1).1
        end
      else p
  end.

Definition co_delete (data : bytes) (iStart nCount : nat) : bytes :=
  if (nCount =? 0)%nat then
    take (if (length data <? LBUF_SIZE - 1)%nat then length data else LBUF_SIZE - 1) data
  else
    let out := if (0 <? iStart)%nat then co_copy_visible data iStart else [] in
    let p := if (0 <? iStart)%nat then (co_visible_advance data iStart).1 else data in
    let p := co_skip_color (delete_skip nCount p) in
    if (0 <? length p)%nat then wp_safe_copy out p else out.

(** The copying loop of [co_repeat]. *)
Fixpoint repeat_copy (data : bytes) (count : nat) (out : bytes) : bytes :=
  match count with
  | O => out
  | S count' => repeat_copy data count' (out ++ data)
  end.

Definition co_repeat (data : bytes) (count : nat) : bytes :=
  if (count =? 0)%nat || (length data =? 0)%nat then []
  else if ((LBUF_SIZE - 1) / length data <? count)%nat then []
  else repeat_copy data count [].

(** [wp_safe_copy(out + dst, wp_end, src, n)] into the array [buf] of [cap] bytes. *)
Definition write_at (buf : list Z) (dst : nat) (src : bytes) : list Z :=
  let avail := (cap - dst)%nat in
  let n := if (avail <? length src)%nat then avail else length src in
  take dst buf ++ take n src ++ drop (dst + n) buf.

Record rev_vars := { rv_p : bytes; rv_buf : list Z }.

Definition reverse_body (leading_len : nat) (v : rev_vars) : rev_vars + list Z :=
  let place elem_end :=
    let dst := (leading_len + length elem_end)%nat in
    if (dst <? cap)%nat then write_at (rv_buf v) dst (range (rv_p v) elem_end) else rv_buf v in
  match rv_p v with
  | [] => inr (rv_buf v)
  | _ =>
      match co_skip_color (rv_p v) with
      | [] => inr (place [])
      | p =>
          let elem_end := (co_visible_advance p 1).1 in
          inl {| rv_p := elem_end; rv_buf := place elem_end |}
      end
  end.

(** [init] is what the output array holds before the call. *)
Definition co_reverse (init : list Z) (data : bytes) : option bytes :=
  let leading_end := co_skip_color data in
  let leading_len := (length data - length leading_end)%nat in
  let buf := if (0 <? leading_len)%nat then write_at init 0 (range data leading_end) else init in
  buf ← iter (reverse_body leading_len) (S (length data)) {| rv_p := leading_end; rv_buf := buf |};
  let total := if (cap <? length data)%nat then cap else length data in
  Some (take total buf).

(** ** Cutting at visible positions *)

Lemma strip_app ts us : strip (ts ++ us) = strip ts ++ strip us.
Proof. apply filter_app. Qed.
Lemma strip_vis bs ts : strip (TVis bs :: ts) = TVis bs :: strip ts.
Proof. done. Qed.
Lemma strip_col bs ts : strip (TCol bs :: ts) = strip ts.
Proof. done. Qed.

Lemma strip_pre n ts : strip (pre n ts) = take n (strip ts).
Proof.
  revert n. induction ts as [|[bs|bs] ts IH]; intros [|n]; rewrite ?pre_0; try done.
  - cbn [pre]. rewrite !strip_vis. cbn. by rewrite IH.
  - apply (IH (S n)).
Qed.
Lemma strip_adv n ts : strip (adv n ts) = drop n (strip ts).
Proof.
  revert n. induction ts as [|[bs|bs] ts IH]; intros [|n]; rewrite ?adv_0; try done.
  - cbn [adv]. rewrite strip_vis. apply IH.
  - apply (IH (S n)).
Qed.
Lemma strip_length ts : length (strip ts) = nvis ts.
Proof. done. Qed.
Lemma strip_skip_cols ts : strip (skip_cols ts) = strip ts.
Proof. induction ts as [|[bs|bs] ts IH]; [done|done|]. apply IH. Qed.

Lemma adv_adv n m ts : adv m (adv n ts) = adv (n + m) ts.
Proof.
  revert n. induction ts as [|[bs|bs] ts IH]; intros [|n]; rewrite ?adv_0; try done.
  - by destruct m.
  - apply IH.
  - apply (IH (S n)).
Qed.
Lemma adv_skip_cols n ts : (0 < n)%nat -> adv n (skip_cols ts) = adv n ts.
Proof. intros Hn. induction ts as [|[bs|bs] ts IH]; [done|done|]. destruct n; [lia|]. apply IH. Qed.

Lemma flatten_length_app ts us : length (flatten (ts ++ us)) = (length (flatten ts) + length (flatten us))%nat.
Proof. by rewrite flatten_app, length_app. Qed.

Lemma adv_length n ts : (length (flatten (adv n ts)) <= length (flatten ts))%nat.
Proof. pose proof (f_equal (fun x => length (flatten x)) (pre_adv n ts)) as E. cbn in E. rewrite flatten_length_app in E. lia. Qed.
Lemma pre_length n ts : (length (flatten (pre n ts)) <= length (flatten ts))%nat.
Proof. pose proof (f_equal (fun x => length (flatten x)) (pre_adv n ts)) as E. cbn in E. rewrite flatten_length_app in E. lia. Qed.

Lemma delete_skip_flatten n ts : wf ts -> delete_skip n (flatten ts) = flatten (adv n ts).
Proof.
  revert ts. induction n as [|n IH]; intros ts Hw; [by rewrite adv_0|]. cbn [delete_skip].
  destruct (Nat.ltb_spec 0 (length (flatten ts))) as [_|Hz].
  2: { assert (flatten ts = []) as E by (apply nil_length_inv; lia). rewrite E.
       apply flatten_eq_nil in E as ->; done. }
  rewrite co_skip_color_flatten by done. pose proof (skip_cols_wf ts Hw) as Hw'.
  rewrite <- (adv_skip_cols (S n)) by lia. destruct (skip_cols_head ts) as [->|(bs & us & E)]; [done|].
  rewrite E in *. destruct (flatten (TVis bs :: us)) as [|c q] eqn:Ef.
  { apply flatten_eq_nil in Ef; [done|done]. }
  rewrite <- Ef, co_visible_advance_flatten by done. cbn [fst adv]. rewrite adv_0. apply IH.
  by apply wf_cons in Hw' as [_ ?].
Qed.

Lemma co_right_flatten ts n : wf ts ->
  co_right (flatten ts) n = clamp (flatten (adv (nvis ts - n) ts)).
Proof.
  intros Hw. unfold co_right. rewrite co_visible_length_flatten, co_visible_advance_flatten by done.
  cbn [fst]. destruct (Nat.leb_spec (nvis ts) n); rewrite raw_copy_nil; [|done].
  replace (nvis ts - n)%nat with 0%nat by lia. by rewrite adv_0.
Qed.

Lemma co_mid_flatten ts i n : wf ts -> co_mid (flatten ts) i n = clamp (flatten (pre n (adv i ts))).
Proof.
  intros Hw. unfold co_mid. destruct (Nat.eqb_spec n 0) as [->|_]; [by rewrite pre_0, clamp_nil|].
  replace (if (0 <? i)%nat then _ else _) with (flatten (adv i ts)).
  - apply co_copy_visible_flatten. by apply wf_pre_adv.
  - rewrite co_visible_advance_flatten by done. destruct i; [by rewrite adv_0|done].
Qed.

Lemma co_delete_flatten ts i n : wf ts ->
  co_delete (flatten ts) i n =
  clamp (flatten (if (n =? 0)%nat then ts else pre i ts ++ skip_cols (adv (i + n) ts))).
Proof.
  intros Hw. unfold co_delete. destruct (Nat.eqb_spec n 0) as [->|_].
  { destruct (Nat.ltb_spec (length (flatten ts)) (LBUF_SIZE - 1)); unfold clamp, cap; [|done].
    by rewrite !take_ge by lia. }
  replace (if (0 <? i)%nat then (co_visible_advance (flatten ts) i).1 else flatten ts) with (flatten (adv i ts))
    by (rewrite co_visible_advance_flatten by done; destruct i; [by rewrite adv_0|done]).
  replace (if (0 <? i)%nat then co_copy_visible (flatten ts) i else []) with (clamp (flatten (pre i ts)))
    by (rewrite co_copy_visible_flatten by done; destruct i; [by rewrite pre_0, clamp_nil|done]).
  pose proof (proj2 (wf_pre_adv i ts Hw)) as Ha.
  rewrite delete_skip_flatten, adv_adv, co_skip_color_flatten by (done || by apply wf_pre_adv).
  rewrite flatten_app, wp_safe_copy_clamp.
  destruct (Nat.ltb_spec 0 (length (flatten (skip_cols (adv (i + n) ts))))) as [|Hz]; [done|].
  destruct (flatten (skip_cols _)); [by rewrite app_nil_r|cbn in Hz; lia].
Qed.

(** ** [co_repeat] *)

Lemma repeat_copy_concat data count out : repeat_copy data count out = out ++ concat (repeat data count).
Proof.
  revert out. induction count as [|n IH]; intros out; cbn; [by rewrite app_nil_r|].
  by rewrite IH, <- app_assoc.
Qed.

Lemma concat_repeat_length (data : bytes) count :
  length (concat (repeat data count)) = (count * length data)%nat.
Proof. induction count as [|n IH]; [done|]. cbn. rewrite length_app, IH. lia. Qed.

(** ** [co_reverse] *)

(** The elements of a text: colours and the visible code point they precede; colours at the
    end of the text are an element of their own. *)
Fixpoint elems (acc : list tok) (ts : list tok) : list (list tok) :=
  match ts with
  | [] => match acc with [] => [] | _ => [acc] end
  | TVis bs :: ts' => (acc ++ [TVis bs]) :: elems [] ts'
  | t :: ts' => elems (acc ++ [t]) ts'
  end.

Definition rev_elems (ts : list tok) : list tok := concat (rev (elems [] ts)).

(** The colours a text starts with. *)
Fixpoint lead (ts : list tok) : list tok :=
  match ts with
  | TCol bs :: ts' => TCol bs :: lead ts'
  | _ => []
  end.

Lemma lead_skip ts : lead ts ++ skip_cols ts = ts.
Proof. induction ts as [|[bs|bs] ts IH]; cbn; [done|done|by rewrite IH]. Qed.

Lemma elems_step acc ts :
  elems acc ts = match skip_cols ts with
                 | [] => match acc ++ ts with [] => [] | e => [e] end
                 | _ => (acc ++ pre 1 ts) :: elems [] (adv 1 ts)
                 end.
Proof.
  revert acc. induction ts as [|[bs|bs] ts IH]; intros acc; cbn.
  - rewrite app_nil_r. by destruct acc.
  - by rewrite pre_0, adv_0.
  - rewrite IH. destruct (skip_cols ts) eqn:E; by rewrite <- app_assoc.
Qed.

Lemma rev_elems_end us : us <> [] -> skip_cols us = [] -> rev_elems us = us.
Proof.
  intros Hne Hs. unfold rev_elems. rewrite elems_step, Hs. cbn [app].
  destruct us; [done|]. cbn. by rewrite app_nil_r.
Qed.

Lemma rev_elems_step us : skip_cols us <> [] -> rev_elems us = rev_elems (adv 1 us) ++ pre 1 us.
Proof.
  intros Hs. unfold rev_elems. rewrite elems_step. destruct (skip_cols us); [done|]. cbn [app rev].
  rewrite concat_app. cbn. by rewrite app_nil_r.
Qed.

Lemma rev_elems_perm ts : rev_elems ts ≡ₚ ts.
Proof.
  remember (length ts) as n eqn:En. revert ts En.
  induction n as [n IH] using lt_wf_ind. intros ts En.
  destruct ts as [|t ts]; [done|]. destruct (skip_cols (t :: ts)) as [|x xs] eqn:E.
  { by rewrite rev_elems_end. }
  pose proof (pre_adv 1 (t :: ts)) as Hpa. rewrite rev_elems_step by congruence.
  rewrite (IH (length (adv 1 (t :: ts)))); [|subst n|done].
  - rewrite Permutation_app_comm. by rewrite Hpa.
  - apply (f_equal length) in Hpa. rewrite length_app in Hpa. rewrite <- Hpa.
    enough (0 < length (pre 1 (t :: ts)))%nat by lia. destruct t; cbn; lia.
Qed.

Lemma flatten_perm_length ts us : ts ≡ₚ us -> length (flatten ts) = length (flatten us).
Proof. induction 1; rewrite ?flatten_cons, ?length_app; lia || congruence. Qed.

Lemma rev_elems_length ts : length (flatten (rev_elems ts)) = length (flatten ts).
Proof. apply flatten_perm_length, rev_elems_perm. Qed.

Lemma strip_cols ts : skip_cols ts = [] -> strip ts = [].
Proof. intros H. rewrite <- strip_skip_cols, H. done. Qed.

Lemma strip_rev_elems ts : strip (rev_elems ts) = rev (strip ts).
Proof.
  remember (length ts) as n eqn:En. revert ts En.
  induction n as [n IH] using lt_wf_ind. intros ts En.
  destruct ts as [|t ts]; [done|]. destruct (skip_cols (t :: ts)) as [|x xs] eqn:E.
  { rewrite rev_elems_end by done. by rewrite strip_cols. }
  rewrite rev_elems_step, strip_app by congruence. rewrite (IH (length (adv 1 (t :: ts)))); [|subst n|done].
  - rewrite strip_adv, strip_pre. rewrite <- strip_skip_cols, E.
    destruct (skip_cols_head (t :: ts)) as [E'|(bs & us & E')]; [congruence|].
    rewrite E' in E. injection E as <- <-. rewrite strip_vis. cbn. by rewrite drop_0.
  - pose proof (pre_adv 1 (t :: ts)) as Hpa. apply (f_equal length) in Hpa.
    rewrite length_app in Hpa. rewrite <- Hpa.
    enough (0 < length (pre 1 (t :: ts)))%nat by lia. destruct t; cbn; lia.
Qed.

(** *** Positional writes *)

Lemma write_at_length buf dst src : length buf = cap -> (dst <= cap)%nat ->
  length (write_at buf dst src) = cap.
Proof.
  intros Hb Hd. unfold write_at. rewrite !length_app, !length_take, length_drop.
  destruct (Nat.ltb_spec (cap - dst) (length src)); lia.
Qed.

Lemma write_at_lookup buf dst src i : length buf = cap -> (dst <= cap)%nat -> (i < cap)%nat ->
  write_at buf dst src !! i =
  if decide (dst <= i < dst + length src)%nat then src !! (i - dst)%nat else buf !! i.
Proof.
  intros Hb Hd Hi. unfold write_at. set (n := if (cap - dst <? length src)%nat then _ else _).
  assert (Hn : n = Nat.min (cap - dst) (length src)).
  { subst n. destruct (Nat.ltb_spec (cap - dst) (length src)); lia. }
  destruct (decide (i < dst)%nat) as [Hlt|Hge].
  - rewrite decide_False by lia. rewrite lookup_app_l by (rewrite length_take; lia).
    by rewrite lookup_take_lt by lia.
  - rewrite lookup_app_r by (rewrite length_take; lia). rewrite length_take, Nat.min_l by lia.
    case_decide as Hc.
    + rewrite lookup_app_l by (rewrite length_take; lia). by rewrite lookup_take_lt by lia.
    + rewrite lookup_app_r by (rewrite length_take; lia). rewrite length_take, lookup_drop.
      f_equal. lia.
Qed.

(** The buffer [buf] agrees with [F] before [lo] and from [hi] on, as far as both go. *)
Definition agrees (F : bytes) (buf : list Z) (lo hi : nat) : Prop :=
  length buf = cap /\
  forall i, (i < cap)%nat -> (i < length F)%nat -> (i < lo \/ hi <= i)%nat -> buf !! i = F !! i.

Lemma agrees_write A e R buf lo : agrees (A ++ e ++ R) buf lo (length A + length e) -> (lo <= length A)%nat ->
  agrees (A ++ e ++ R) (if (length A <? cap)%nat then write_at buf (length A) e else buf) lo (length A).
Proof.
  intros [Hb Ha] Hlo. destruct (Nat.ltb_spec (length A) cap) as [Hc|Hc].
  - split; [apply write_at_length; (done || lia)|]. intros i Hi HF Hr.
    rewrite write_at_lookup by (done || lia). case_decide as Hd.
    + rewrite lookup_app_r by lia. by rewrite lookup_app_l by lia.
    + apply Ha; [done|done|lia].
  - split; [done|]. intros i Hi HF Hr. apply Ha; [done|done|lia].
Qed.

Lemma agrees_full F buf n : agrees F buf n n -> take (if (cap <? length F)%nat then cap else length F) buf = clamp F.
Proof.
  intros [Hb Ha]. apply list_eq. intros i. unfold clamp.
  destruct (decide (i < cap /\ i < length F)%nat) as [[H1 H2]|Hn].
  - rewrite !lookup_take_lt by (destruct (Nat.ltb_spec cap (length F)); lia). apply Ha; lia.
  - rewrite !lookup_ge_None_2; [done| |]; rewrite length_take;
      destruct (Nat.ltb_spec cap (length F)); lia.
Qed.

(** What the loop keeps: the part of [F] from the current element on is written. *)
Definition rev_inv (F L : bytes) (v : rev_vars) : Prop :=
  exists us R, wf us /\ rv_p v = flatten us /\ F = (L ++ flatten (rev_elems us)) ++ R /\
    agrees F (rv_buf v) (length L) (length L + length (flatten us)).

Lemma reverse_step F L v : rev_inv F L v ->
  match reverse_body (length L) v with
  | inl v' => rev_inv F L v' /\ (length (rv_p v') < length (rv_p v))%nat
  | inr buf => agrees F buf (length L) (length L)
  end.
Proof.
  destruct v as [p buf]. intros (us & R & Hw & Ep & EF & Ha). cbn in Ep, Ha. subst p.
  unfold reverse_body. cbn [rv_p rv_buf].
  destruct (flatten us) as [|c q] eqn:Ef; [by rewrite Nat.add_0_r in Ha|]. rewrite <- Ef in *.
  rewrite co_skip_color_flatten by done. destruct (skip_cols_head us) as [Es|(bs & vs & Es)].
  - rewrite Es. cbn [flatten flat_map length]. rewrite range_nil, Nat.add_0_r.
    rewrite rev_elems_end in EF by (by destruct us). rewrite EF, <- app_assoc in *. by apply agrees_write.
  - pose proof (skip_cols_wf us Hw) as Hw'. rewrite Es in *.
    destruct (flatten (TVis bs :: vs)) as [|c' q'] eqn:Ef'; [by apply flatten_eq_nil in Ef'|].
    rewrite <- Ef', co_visible_advance_flatten by done. cbn [fst adv rv_p rv_buf]. rewrite adv_0.
    assert (Ev : vs = adv 1 us) by (rewrite <- (adv_skip_cols 1), Es by lia; cbn; by rewrite adv_0).
    pose proof (pre_adv 1 us) as Hpa. rewrite <- Ev in Hpa.
    rewrite rev_elems_step, <- Ev, flatten_app in EF by congruence.
    assert (Hlen : length (flatten us) = (length (flatten (pre 1 us)) + length (flatten vs))%nat)
      by (by rewrite <- Hpa, flatten_length_app at 1).
    assert (Hr : range (flatten us) (flatten vs) = flatten (pre 1 us)).
    { rewrite <- Hpa at 1. rewrite flatten_app. apply range_app. }
    rewrite Hr. split.
    + exists vs, (flatten (pre 1 us) ++ R). split_and!; [by apply wf_cons in Hw' as [_ ?]|done| |].
      * by rewrite EF, !app_assoc.
      * assert (EF' : F = (L ++ flatten (rev_elems vs)) ++ flatten (pre 1 us) ++ R) by (by rewrite EF, !app_assoc).
         assert (El : (length L + length (flatten vs))%nat = length (L ++ flatten (rev_elems vs)))
           by (by rewrite length_app, rev_elems_length).
         rewrite Hlen in Ha. replace (length L + (length (flatten (pre 1 us)) + length (flatten vs)))%nat
           with ((length L + length (flatten vs)) + length (flatten (pre 1 us)))%nat in Ha by lia.
         rewrite El, EF' in *. apply agrees_write; [done|]. rewrite length_app. lia.
    + assert (0 < length (flatten (pre 1 us)))%nat; [|lia].
      destruct us as [|[b|b] us]; [done| |]; apply wf_cons in Hw as [Ht _];
        pose proof (tok_bytes_nonempty _ Ht); cbn [pre]; rewrite flatten_cons, length_app; lia.
Qed.

Lemma co_reverse_flatten init ts : wf ts -> length init = cap ->
  co_reverse init (flatten ts) = Some (clamp (flatten (lead ts ++ rev_elems (skip_cols ts)))).
Proof.
  intros Hw Hinit. unfold co_reverse. rewrite co_skip_color_flatten by done.
  pose proof (lead_skip ts) as Els. pose proof (skip_cols_wf ts Hw) as Hws.
  set (L := flatten (lead ts)). set (vs0 := skip_cols ts) in *.
  assert (Et : flatten ts = L ++ flatten vs0) by (by rewrite <- Els, flatten_app at 1).
  rewrite Et, length_app, Nat.add_sub, range_app. rewrite flatten_app. fold L.
  set (F := L ++ flatten (rev_elems vs0)).
  set (buf0 := if (0 <? length L)%nat then write_at init 0 L else init).
  assert (H0 : agrees F buf0 (length L) (length L + length (flatten vs0))).
  { subst buf0. split.
    - destruct (0 <? length L)%nat; [apply write_at_length; (done || lia)|done].
    - intros i Hi HF Hr. subst F. rewrite length_app, rev_elems_length in HF.
      destruct (Nat.ltb_spec 0 (length L)); [|lia]. rewrite write_at_lookup by (done || lia).
      rewrite decide_True by lia. rewrite lookup_app_l by lia. f_equal. lia. }
  destruct (iter_total (reverse_body (length L))
    (rev_inv F L)
    (fun buf => agrees F buf (length L) (length L)) (fun v => length (rv_p v)))
    with (fuel := S (length L + length (flatten vs0))) (s := {| rv_p := flatten vs0; rv_buf := buf0 |})
    as (buf & -> & Hbuf).
  - apply reverse_step.
  - exists vs0, []. split_and!; [done|done|by rewrite app_nil_r|done].
  - cbn. lia.
  - cbn [mbind option_bind]. f_equal. rewrite <- (agrees_full F buf (length L)) by done.
    subst F. by rewrite length_app, rev_elems_length.
Qed.

(** ** Properties *)

Lemma strip_color_clamp us : wf us -> (length (flatten us) <= cap)%nat ->
  co_strip_color (clamp (flatten us)) = flatten (strip us).
Proof.
  intros Hw Hl. rewrite clamp_id, co_strip_color_flatten by done. apply clamp_id.
  pose proof (strip_bytes_le us). lia.
Qed.

Lemma wf_skip_adv n ts : wf ts -> wf (pre n ts) /\ wf (adv n ts) /\ wf (skip_cols (adv n ts)).
Proof. intros H. pose proof (wf_pre_adv n ts H) as [? ?]. split_and!; [done|done|by apply skip_cols_wf]. Qed.

Lemma skip_cols_le ts : (length (flatten (skip_cols ts)) <= length (flatten ts))%nat.
Proof.
  pose proof (f_equal (fun x => length (flatten x)) (lead_skip ts)) as E. cbn in E.
  rewrite flatten_length_app in E. lia.
Qed.

(** the visible code points of [co_left], [co_right], [co_mid] and [co_delete] are the
    first [n], the last [n], [n] from position [i] on, and all but these [n]. *)
Theorem substring_visible ts i n : wf ts -> (length (flatten ts) <= cap)%nat ->
  let data := flatten ts in
  let V := strip ts in
  co_strip_color (co_left data n) = flatten (take n V) /\
  co_strip_color (co_right data n) = flatten (drop (length V - n) V) /\
  co_strip_color (co_mid data i n) = flatten (take n (drop i V)) /\
  co_strip_color (co_delete data i n) = flatten (take i V ++ drop (i + n) V).
Proof.
  intros Hw Hl. cbn. rewrite co_right_flatten, co_mid_flatten, co_delete_flatten by done.
  unfold co_left. rewrite co_copy_visible_flatten by done. rewrite strip_length.
  pose proof (wf_skip_adv i ts Hw) as (? & ? & ?). pose proof (wf_skip_adv n ts Hw) as (? & ? & ?).
  pose proof (wf_skip_adv (i + n) ts Hw) as (? & ? & ?).
  pose proof (wf_skip_adv (nvis ts - n) ts Hw) as (? & ? & ?).
  pose proof (wf_skip_adv n (adv i ts)) as Hm.
  pose proof (pre_length n ts). pose proof (adv_length (nvis ts - n) ts).
  pose proof (pre_length n (adv i ts)). pose proof (adv_length i ts).
  split_and!.
  - rewrite strip_color_clamp, strip_pre by (done || lia). done.
  - rewrite strip_color_clamp, strip_adv by (done || lia). done.
  - rewrite strip_color_clamp by (lia || by apply Hm). by rewrite strip_pre, strip_adv.
  - destruct (Nat.eqb_spec n 0) as [->|Hn].
    + rewrite strip_color_clamp by done. by rewrite Nat.add_0_r, take_drop.
    + rewrite strip_color_clamp; [|by apply wf_app|].
      * by rewrite strip_app, strip_skip_cols, strip_pre, strip_adv.
      * rewrite flatten_length_app. pose proof (skip_cols_le (adv (i + n) ts)).
        rewrite <- adv_adv in *. pose proof (adv_length n (adv i ts)).
        pose proof (f_equal (fun x => length (flatten x)) (pre_adv i ts)) as E. cbn in E.
        rewrite flatten_length_app in E. lia.
Qed.

(** [co_repeat] writes [count] copies when they fit the buffer and nothing otherwise; the
    test by division does not overflow. *)
Theorem co_repeat_spec (data : bytes) count :
  co_repeat data count =
  if decide (count * length data <= LBUF_SIZE - 1)%nat then concat (repeat data count) else [].
Proof.
  unfold co_repeat. destruct (Nat.eqb_spec count 0) as [->|Hc]; cbn [orb].
  { by case_decide. }
  destruct (Nat.eqb_spec (length data) 0) as [E|Hd].
  { apply nil_length_inv in E as ->. case_decide; [|done]. clear. by induction count. }
  rewrite repeat_copy_concat. cbn [app].
  destruct (Nat.ltb_spec ((LBUF_SIZE - 1) / length data) count) as [Hlt|Hge].
  - rewrite decide_False; [done|]. intros H.
    pose proof (Nat.div_le_lower_bound (LBUF_SIZE - 1) (length data) count ltac:(lia) ltac:(lia)). lia.
  - rewrite decide_True; [done|]. pose proof (Nat.Div0.mul_div_le (LBUF_SIZE - 1) (length data)). nia.
Qed.

(** [co_reverse] terminates and, whatever the output array held before, every byte of
    its result was written: the leading colour, then the elements (colours with the visible
    code point they precede) in reverse order, cut at the end of the buffer.  The visible
    text is reversed. *)
Theorem reverse_spec init ts : wf ts -> length init = cap ->
  co_reverse init (flatten ts) = Some (clamp (flatten (lead ts ++ rev_elems (skip_cols ts)))) /\
  ((length (flatten ts) <= cap)%nat ->
   co_strip_color (clamp (flatten (lead ts ++ rev_elems (skip_cols ts)))) = flatten (rev (strip ts))).
Proof.
  intros Hw Hi. split; [by apply co_reverse_flatten|]. intros Hl.
  pose proof (lead_skip ts) as Els.
  assert (Hp : lead ts ++ rev_elems (skip_cols ts) ≡ₚ ts) by (rewrite rev_elems_perm; by rewrite Els).
  rewrite strip_color_clamp.
  - rewrite strip_app, strip_rev_elems, strip_skip_cols. f_equal.
    replace (strip (lead ts)) with (@nil tok); [done|]. clear. by induction ts as [|[bs|bs] ts IH].
  - unfold wf. by rewrite Hp.
  - by rewrite (flatten_perm_length _ _ Hp).
Qed.
End Substring.

Lemma substring_visible_witness :
  co_strip_color (cfg := default_config) (co_delete (cfg := default_config) (flatten sample_words) 1 2) =
  flatten (take 1 (strip sample_words) ++ drop 3 (strip sample_words)).
Proof.
  exact (proj2 (proj2 (proj2 (substring_visible (cfg := default_config) sample_words 1 2 sample_words_wf
    ltac:(apply Nat.leb_le; vm_compute; reflexivity))))).
Defined.

(** A buffer of 20 bytes. *)
Definition small_config : Config := {| LBUF_SIZE := 20 |}.

Lemma reverse_spec_witness :
  co_reverse (cfg := small_config) (repeat 255 19) (flatten sample) =
    Some [243; 176; 128; 133; 239; 152; 129; 195; 169; 104].
Proof.
  rewrite (proj1 (reverse_spec (cfg := small_config) (repeat 255 19) sample
    ltac:(repeat constructor) ltac:(reflexivity))).
  vm_compute. reflexivity.
Defined.
