(* ===== verification/Search.v ===== *)
(** * Stages 1 and 2 of [color_ops.c]: searching and replacing

    [co_search] and [co_search_with_end] look for a text whatever the colour between its
    visible code points; [co_edit] replaces every occurrence.  They are characterised by
    the first position of the visible needle in the visible haystack. *)

From S2P Require Import Prelude Encoding Scan Words Substring.

Section Search.
Context {cfg : Config}.

(** ** The functions *)

(** The loop of [co_search] that copies the visible bytes of the needle. *)
Definition plain_body (s : bytes * bytes) : (bytes * bytes) + bytes :=
  let '(np, nplain) := s in
  match np with
  | [] => inr nplain
  | _ =>
      match co_skip_color np with
      | [] => inr nplain
      | np =>
          let after := (co_visible_advance np 1).1 in
          inl (after, nplain ++ range np after)
      end
  end.

(** The comparison at [tp]: where the match ends. *)
Fixpoint match_at (nplain tp : bytes) : option bytes :=
  match nplain with
  | [] => Some tp
  | b :: nplain' =>
      match tp with
      | [] => None
      | _ =>
          match co_skip_color tp with
          | [] => None
          | c :: tp' => if c =? b then match_at nplain' tp' else None
          end
      end
  end.

(** One iteration of the scan: the start and the end of a match. *)
Definition search_body (nplain hp : bytes) : bytes + option (bytes * bytes) :=
  match hp with
  | [] => inr None
  | _ =>
      match co_skip_color hp with
      | [] => inr None
      | hp =>
          match match_at nplain hp with
          | Some tp => inr (Some (hp, tp))
          | None => inl (co_visible_advance hp 1).1
          end
      end
  end.

Definition co_search_with_end (haystack nplain : bytes) : option (option (bytes * bytes)) :=
  iter (search_body nplain) (S (length haystack)) haystack.

(** The outer option is the fuel, the inner one the null pointer. *)
Definition co_search (haystack needle : bytes) : option (option bytes) :=
  match iter plain_body (S (length needle)) (needle, []) with
  | None => None
  | Some [] => Some (Some haystack)
  | Some nplain =>
      match co_search_with_end haystack nplain with
      | None => None
      | Some r => Some (option_map fst r)
      end
  end.

(** The loop of [co_edit]; the state is [p] and the output. *)
Definition edit_body (from to : bytes) (fvis : nat) (s : bytes * bytes)
    : (bytes * bytes) + option bytes :=
  let '(p, out) := s in
  if (0 <? length p)%nat && (length out <? cap)%nat then
    match co_search p from with
    | None => inr None
    | Some None => inr (Some (wp_safe_copy out p))
    | Some (Some m) =>
        let out := if (length m <? length p)%nat then wp_safe_copy out (range p m) else out in
        let out := if (0 <? length to)%nat then wp_safe_copy out to else out in
        inl (co_skip_color (co_visible_advance m fvis).1, out)
    end
  else inr (Some out).

Definition co_edit (str from to : bytes) : option bytes :=
  let original := take (if (length str <? LBUF_SIZE - 1)%nat then length str else LBUF_SIZE - 1) str in
  if (length from =? 0)%nat then Some original
  else if (length (co_strip_color from) =? 0)%nat then Some original
  else
    let fvis := co_visible_length from in
    match iter (edit_body from to fvis) (S (length str)) (str, []) with
    | Some r => r
    | None => None
    end.

(** ** Matching *)

Lemma plain_total ns : wf ns -> iter plain_body (S (length (flatten ns))) (flatten ns, []) = Some (flatten (strip ns)).
Proof.
  intros Hw.
  destruct (iter_total plain_body
    (fun s => exists us, wf us /\ s.1 = flatten us /\ s.2 ++ flatten (strip us) = flatten (strip ns))
    (fun r => r = flatten (strip ns)) (fun s => length s.1)) with (fuel := S (length (flatten ns)))
    (s := (flatten ns, @nil Z)) as (r & -> & ->); [|by exists ns|cbn; lia|done].
  clear. intros [p out] (us & Hw & Ep & HT). cbn in Ep, HT. subst p. unfold plain_body.
  assert (Hend : skip_cols us = [] -> out = flatten (strip ns)).
  { intros Hs. rewrite <- HT, <- strip_skip_cols, Hs. cbn. by rewrite app_nil_r. }
  destruct (flatten us) as [|c q] eqn:Ef.
  { apply Hend. apply flatten_eq_nil in Ef as ->; done. }
  rewrite <- Ef, co_skip_color_flatten by done. pose proof (skip_cols_wf us Hw) as Hw'.
  destruct (skip_cols_head us) as [Es|(bs & vs & Es)].
  { rewrite Es. cbn. by apply Hend. }
  pose proof (skip_cols_le us). rewrite <- strip_skip_cols in HT. rewrite Es in *.
  destruct (flatten (TVis bs :: vs)) as [|c' q'] eqn:Ef'; [by apply flatten_eq_nil in Ef'|].
  rewrite <- Ef' in *. rewrite co_visible_advance_flatten by done. cbn [fst adv]. rewrite adv_0.
  rewrite flatten_cons, range_app in *. apply wf_cons in Hw' as [Ht Hv]. split.
  - exists vs. cbn [fst snd]. split_and!; [done|done|]. rewrite <- HT. by rewrite <- app_assoc.
  - cbn [fst]. pose proof (tok_bytes_nonempty _ Ht). rewrite length_app in *. lia.
Qed.

(** Visible code points with the same first byte have the same length, and only their first
    byte can start a colour. *)
Lemma vis_conts a bs cs : visible (a :: bs) = true -> visible (a :: cs) = true ->
  length bs = length cs /\ Forall (fun c => c <> 239 /\ c <> 243) cs.
Proof.
  intros Hb Hc.
  destruct bs as [|b1 [|b2 [|b3 [|b4 bs]]]], cs as [|c1 [|c2 [|c3 [|c4 cs]]]];
    try discriminate Hb; try discriminate Hc;
    (split; [first [reflexivity | exfalso] | rewrite ?Forall_cons, ?Forall_nil; split_and?; try done]);
    unfold visible, cont, in_rng in *; lia.
Qed.

Lemma skip_not_color c p : c <> 239 -> c <> 243 -> co_skip_color (c :: p) = c :: p.
Proof.
  intros H1 H2. apply Z.eqb_neq in H1, H2. destruct p as [|p1 [|p2 [|p3 p]]]; cbn; try done; by rewrite H1, ?H2.
Qed.

Lemma match_conts bs cs rest q : length bs = length cs -> Forall (fun c => c <> 239 /\ c <> 243) cs ->
  match_at (bs ++ rest) (cs ++ q) = if decide (bs = cs) then match_at rest q else None.
Proof.
  revert cs. induction bs as [|b bs IH]; intros [|c cs] Hl Hc; cbn in Hl; try lia; [by rewrite decide_True|].
  apply Forall_cons in Hc as [[H1 H2] Hc]. cbn [app match_at]. rewrite skip_not_color by done.
  destruct (Z.eqb_spec c b) as [->|Hne]; [|rewrite decide_False; congruence].
  rewrite IH by (done || lia). destruct (decide (bs = cs)) as [->|Hn]; [by rewrite decide_True|].
  rewrite decide_False; congruence.
Qed.

(** One visible code point of the needle against a text. *)
Lemma match_tok b rest us : wf_tok (TVis b) = true -> wf us ->
  match_at (b ++ rest) (flatten us) =
  match skip_cols us with
  | TVis c :: vs => if decide (b = c) then match_at rest (flatten vs) else None
  | _ => None
  end.
Proof.
  intros Hb Hw. pose proof (tok_bytes_nonempty _ Hb) as Hne. destruct b as [|b0 b]; [cbn in Hne; lia|].
  cbn [app match_at]. destruct (flatten us) as [|x y] eqn:Ef.
  { apply flatten_eq_nil in Ef as ->; done. }
  rewrite <- Ef, co_skip_color_flatten by done. pose proof (skip_cols_wf us Hw) as Hw'.
  destruct (skip_cols_head us) as [->|(c & vs & E)]; [done|]. rewrite E in *.
  apply wf_cons in Hw' as [Hc _]. pose proof (tok_bytes_nonempty _ Hc) as Hne'.
  destruct c as [|c0 c]; [cbn in Hne'; lia|]. rewrite flatten_cons. cbn [tok_bytes app].
  destruct (Z.eqb_spec c0 b0) as [->|Hd]; [|rewrite decide_False; congruence].
  destruct (vis_conts b0 b c Hb Hc) as [Hl Hf]. rewrite match_conts by done.
  destruct (decide (b = c)) as [->|Hn]; [by rewrite decide_True|rewrite decide_False; congruence].
Qed.

(** The needle [N] is found at a text whose visible part it starts. *)
Lemma match_at_tokens N us : wf N -> Forall (fun t => is_vis t = true) N -> wf us ->
  match_at (flatten N) (flatten us) =
  if decide (N `prefix_of` strip us) then Some (flatten (adv (length N) us)) else None.
Proof.
  revert us. induction N as [|t N IH]; intros us Hn Hv Hw.
  { rewrite decide_True by apply prefix_nil. by rewrite adv_0. }
  apply wf_cons in Hn as [Ht Hn]. apply Forall_cons in Hv as [Hvt Hv]. destruct t as [b|b]; [|done].
  rewrite flatten_cons. cbn [tok_bytes]. rewrite match_tok by done.
  rewrite <- (strip_skip_cols us), <- (adv_skip_cols _ us) by (cbn; lia). pose proof (skip_cols_wf us Hw) as Hw'.
  destruct (skip_cols_head us) as [->|(c & vs & E)].
  { rewrite decide_False; [done|]. intros [k Hk]. done. }
  rewrite E in *. rewrite strip_vis. apply wf_cons in Hw' as [_ Hvs]. cbn [length adv].
  destruct (decide (b = c)) as [->|Hne].
  - rewrite IH by done. destruct (decide (N `prefix_of` strip vs)) as [Hp|Hp].
    + rewrite decide_True; [done|by apply prefix_cons].
    + rewrite decide_False; [done|]. intros H. by apply prefix_cons_inv_2 in H.
  - rewrite decide_False; [done|]. intros H. apply prefix_cons_inv_1 in H. congruence.
Qed.

(** ** [co_search] *)

(** The tokens before and from the first visible position where [N] starts. *)
Fixpoint find_vis (N us : list tok) : option (list tok * list tok) :=
  match us with
  | [] => None
  | t :: us' =>
      if is_vis t && bool_decide (N `prefix_of` strip us) then Some ([], us)
      else match find_vis N us' with
           | Some (l, r) => Some (t :: l, r)
           | None => None
           end
  end.

Lemma find_vis_cons N t us : find_vis N (t :: us) =
  if is_vis t && bool_decide (N `prefix_of` strip (t :: us)) then Some ([], t :: us)
  else match find_vis N us with Some (l, r) => Some (t :: l, r) | None => None end.
Proof. done. Qed.

Definition found (N us : list tok) : option (list tok) := option_map snd (find_vis N us).

Lemma found_cons N t us : found N (t :: us) =
  if is_vis t && bool_decide (N `prefix_of` strip (t :: us)) then Some (t :: us) else found N us.
Proof. unfold found. rewrite find_vis_cons. destruct (_ && _); [done|]. by destruct (find_vis N us) as [[]|]. Qed.

Lemma found_skip N us : found N (skip_cols us) = found N us.
Proof. induction us as [|[b|b] us IH]; [done|done|]. cbn [skip_cols]. by rewrite found_cons. Qed.

Lemma search_total N us : wf N -> Forall (fun t => is_vis t = true) N -> wf us ->
  co_search_with_end (flatten us) (flatten N) =
  Some (option_map (fun r => (flatten r, flatten (adv (length N) r))) (found N us)).
Proof.
  intros Hn Hv Hw. unfold co_search_with_end.
  set (R := option_map (fun r => (flatten r, flatten (adv (length N) r))) (found N us)).
  destruct (iter_total (search_body (flatten N))
    (fun hp => exists vs, wf vs /\ hp = flatten vs /\
       option_map (fun r => (flatten r, flatten (adv (length N) r))) (found N vs) = R)
    (fun r => r = R) (fun hp => length hp)) with (fuel := S (length (flatten us))) (s := flatten us)
    as (r & -> & ->); [|by exists us|lia|done].
  clear Hw. clearbody R. clear us. intros hp (vs & Hw & -> & HR). unfold search_body.
  destruct (flatten vs) as [|x y] eqn:Ef; [apply flatten_eq_nil in Ef as ->; done|].
  rewrite <- Ef, co_skip_color_flatten by done. rewrite <- found_skip in HR.
  pose proof (skip_cols_wf vs Hw) as Hw'. pose proof (skip_cols_le vs) as Hle.
  destruct (skip_cols_head vs) as [E|(b & ws & E)]; rewrite E in *; [done|].
  destruct (flatten (TVis b :: ws)) as [|x' y'] eqn:Ef'; [by apply flatten_eq_nil in Ef'|].
  rewrite <- Ef' in *. rewrite match_at_tokens by done. rewrite found_cons in HR. cbn [is_vis andb] in HR.
  destruct (decide (N `prefix_of` strip (TVis b :: ws))) as [Hp|Hp].
  - by rewrite bool_decide_true in HR.
  - rewrite bool_decide_false in HR by done. rewrite co_visible_advance_flatten by done.
    cbn [fst adv]. rewrite adv_0. apply wf_cons in Hw' as [Ht Hws]. split; [by exists ws|].
    rewrite flatten_cons, length_app in Hle. pose proof (tok_bytes_nonempty _ Ht). lia.
Qed.

Lemma strip_vis_all ts : Forall (fun t => is_vis t = true) (strip ts).
Proof. apply Forall_forall. intros t Ht. by apply list_elem_of_filter in Ht as []. Qed.

Lemma co_search_flatten us ns : wf us -> wf ns ->
  co_search (flatten us) (flatten ns) =
  Some (match strip ns with [] => Some (flatten us) | N => option_map flatten (found N us) end).
Proof.
  intros Hu Hn. unfold co_search. rewrite plain_total by done. pose proof (wf_strip ns Hn) as Hs.
  destruct (strip ns) as [|t N] eqn:E; [done|].
  destruct (flatten (t :: N)) as [|x y] eqn:Ef; [by apply flatten_eq_nil in Ef|]. rewrite <- Ef.
  rewrite search_total by (done || rewrite <- E; apply strip_vis_all).
  by destruct (found (t :: N) us).
Qed.

(** [find_vis] finds the first position: the needle starts there, and nowhere before. *)
Lemma find_vis_some N us l r : find_vis N us = Some (l, r) ->
  us = l ++ r /\ N `prefix_of` strip r /\ (exists b r', r = TVis b :: r') /\
  (forall k, (k < nvis l)%nat -> ~ N `prefix_of` drop k (strip us)).
Proof.
  revert l. induction us as [|t us IH]; intros l H; [done|]. rewrite find_vis_cons in H.
  destruct (is_vis t && bool_decide (N `prefix_of` strip (t :: us))) eqn:Eb.
  - injection H as <- <-. apply andb_prop in Eb as [Ev Eb]. apply bool_decide_eq_true in Eb.
    split_and!; [done|done| |].
    + destruct t; [by eexists _, _|done].
    + intros k Hk. unfold nvis in Hk. cbn in Hk. lia.
  - destruct (find_vis N us) as [[l' r']|]; [|done]. injection H as <- <-.
    destruct (IH l' eq_refl) as (-> & Hp & Hr & Hk). split_and!; [done|done|done|].
    destruct t as [b|b]; cbn [is_vis andb] in Eb.
    + apply bool_decide_eq_false in Eb. intros [|k] Hlt; [done|]. rewrite nvis_vis in Hlt.
      rewrite strip_vis. cbn [drop]. apply Hk. lia.
    + intros k Hlt. rewrite nvis_col in Hlt. rewrite strip_col. by apply Hk.
Qed.

Lemma find_vis_none N us : N <> [] -> find_vis N us = None -> forall k, ~ N `prefix_of` drop k (strip us).
Proof.
  intros Hne. induction us as [|t us IH]; intros H k.
  { cbn. rewrite drop_nil. intros Hp. by apply prefix_nil_inv in Hp. }
  rewrite find_vis_cons in H. destruct (is_vis t && _) eqn:Eb; [done|].
  destruct (find_vis N us) as [[]|]; [done|]. specialize (IH eq_refl).
  destruct t as [b|b]; cbn [is_vis andb] in Eb.
  - apply bool_decide_eq_false in Eb. destruct k as [|k]; [done|]. rewrite strip_vis. apply IH.
  - rewrite strip_col. apply IH.
Qed.

(** ** [co_edit] *)

(** The text with every occurrence of [N] replaced by [to], left to right. *)
Fixpoint edited (fuel : nat) (N to us : list tok) : list tok :=
  match us, fuel with
  | [], _ => []
  | _, O => us
  | _, S fuel' =>
      match find_vis N us with
      | None => us
      | Some (l, r) => l ++ to ++ edited fuel' N to (skip_cols (adv (length N) r))
      end
  end.

(** The replacement on visible code points alone. *)
Fixpoint replace_all (fuel : nat) (N T V : list tok) : list tok :=
  match V, fuel with
  | [], _ => []
  | _, O => V
  | v :: V', S fuel' =>
      if bool_decide (N `prefix_of` V) then T ++ replace_all fuel' N T (drop (length N) V)
      else v :: replace_all fuel' N T V'
  end.


Section Edit.
Context (N to : list tok) (HN : N <> []).

Lemma edit_rest_shorter us l r : find_vis N us = Some (l, r) ->
  (length (skip_cols (adv (length N) r)) < length us)%nat /\
  (wf us -> (length (flatten (skip_cols (adv (length N) r))) < length (flatten us))%nat).
Proof.
  intros H. apply find_vis_some in H as (-> & _ & (b & r' & ->) & _).
  destruct N as [|t N']; [done|]. cbn [length adv].
  assert (Hlen : forall ts, (length (skip_cols ts) <= length ts)%nat).
  { intros ts. pose proof (f_equal length (lead_skip ts)) as E. rewrite length_app in E. lia. }
  pose proof (f_equal length (pre_adv (length N') r')) as E. rewrite length_app in E.
  pose proof (Hlen (adv (length N') r')). split.
  - rewrite length_app. cbn. lia.
  - intros Hw. apply wf_app in Hw as [_ Hw]. apply wf_cons in Hw as [Ht _].
    pose proof (tok_bytes_nonempty _ Ht). rewrite flatten_length_app, flatten_cons, length_app.
    pose proof (skip_cols_le (adv (length N') r')). pose proof (adv_length (length N') r'). lia.
Qed.

(** *** On visible code points *)

Lemma replace_all_none T V g : (forall k, ~ N `prefix_of` drop k V) -> replace_all g N T V = V.
Proof.
  revert V. induction g as [|g IH]; intros [|v V] H; try done. cbn [replace_all].
  rewrite bool_decide_false by apply (H 0%nat). f_equal. apply IH. intros k. apply (H (S k)).
Qed.

Lemma replace_all_skip T L R g :
  (forall k, (k < length L)%nat -> ~ N `prefix_of` drop k (L ++ R)) -> (length L + length R <= g)%nat ->
  exists g', (length R <= g')%nat /\ replace_all g N T (L ++ R) = L ++ replace_all g' N T R.
Proof.
  revert g. induction L as [|v L IH]; intros g H Hg; [by exists g|]. destruct g as [|g]; [cbn in Hg; lia|].
  cbn [app replace_all]. rewrite bool_decide_false by (apply (H 0%nat); cbn; lia).
  destruct (IH g) as (g' & ? & E); [|cbn in Hg; lia|].
  - intros k Hk. apply (H (S k)). cbn. lia.
  - exists g'. by rewrite E.
Qed.

Lemma replace_all_hit T V g : N `prefix_of` V -> (length V <= g)%nat ->
  exists g', (length (drop (length N) V) <= g')%nat /\
    replace_all g N T V = T ++ replace_all g' N T (drop (length N) V).
Proof.
  intros Hp Hg. destruct V as [|v V]; [by apply prefix_nil_inv in Hp|]. destruct g as [|g]; [cbn in Hg; lia|].
  exists g. cbn [replace_all]. rewrite bool_decide_true by done. split; [|done].
  rewrite length_drop. cbn in *. destruct N; [done|]. cbn. lia.
Qed.

Lemma strip_edited f us g : (length us <= f)%nat -> (nvis us <= g)%nat ->
  strip (edited f N to us) = replace_all g N (strip to) (strip us).
Proof.
  revert us g. induction f as [|f IH]; intros [|t us] g Hf Hg; try (cbn in Hf; lia); try (by destruct g).
  cbn [edited]. destruct (find_vis N (t :: us)) as [[l r]|] eqn:E.
  - pose proof (edit_rest_shorter _ _ _ E) as [Hs _].
    apply find_vis_some in E as (Eu & Hp & _ & Hk). rewrite Eu in *. rewrite !strip_app in *.
    rewrite nvis_app in Hg.
    destruct (replace_all_skip (strip to) (strip l) (strip r) g) as (g' & Hg' & ->);
      [exact Hk|rewrite !strip_length; lia|].
    destruct (replace_all_hit (strip to) (strip r) g' Hp Hg') as (g2 & Hg2 & ->).
    f_equal. f_equal. rewrite <- strip_adv in Hg2 |- *.
    rewrite <- (strip_skip_cols (adv (length N) r)) in Hg2 |- *. apply IH; [lia|done].
  - by rewrite replace_all_none by (by apply find_vis_none).
Qed.
End Edit.

Lemma edit_total ns tos us fuel :
  wf us -> wf ns -> strip ns <> [] -> (length (flatten us) < fuel)%nat ->
  iter (edit_body (flatten ns) (flatten tos) (nvis ns)) fuel (flatten us, []) =
  Some (Some (clamp (flatten (edited (length us) (strip ns) tos us)))).
Proof.
  intros Hw Hn HN Hfuel. set (T := clamp (flatten (edited _ _ _ us))).
  destruct (iter_total (edit_body (flatten ns) (flatten tos) (nvis ns))
    (fun s => exists vs O f, wf vs /\ s = (flatten vs, clamp O) /\ (length vs <= f)%nat /\
       clamp (O ++ flatten (edited f (strip ns) tos vs)) = T)
    (fun r => r = Some T) (fun s => length s.1)) with (fuel := fuel) (s := (flatten us, @nil Z))
    as (r & -> & ->); [| |done|done].
  2: { exists us, [], (length us). by rewrite clamp_nil. }
  clearbody T. clear Hw Hfuel. clear us. intros s (vs & O & f & Hw & -> & Hf & HT). unfold edit_body.
  destruct (Nat.ltb_spec (length (clamp O)) cap) as [Hc|Hc].
  2: { rewrite andb_false_r. f_equal. rewrite <- HT. symmetry. by apply clamp_full. }
  destruct (Nat.ltb_spec 0 (length (flatten vs))) as [Hp|Hp]; cbn [andb].
  2: { assert (vs = []) as -> by (apply flatten_eq_nil; [done|]; destruct (flatten vs); [done|cbn in Hp; lia]).
       f_equal. rewrite <- HT. destruct f; cbn; by rewrite app_nil_r. }
  rewrite co_search_flatten by done. destruct (strip ns) as [|t N] eqn:EN; [done|]. rewrite <- EN in *.
  destruct vs as [|v vs]; [cbn in Hp; lia|]. destruct f as [|f]; [cbn in Hf; lia|]. cbn [edited] in HT.
  unfold found. destruct (find_vis (strip ns) (v :: vs)) as [[l r]|] eqn:Efv; cbn [option_map snd].
  2: { rewrite wp_safe_copy_clamp. by rewrite HT. }
  pose proof (edit_rest_shorter (strip ns) HN _ _ _ Efv) as [Hs1 Hs2].
  pose proof (find_vis_some _ _ _ _ Efv) as (Eu & Hpre & Hr & _).
  assert (Hwr : wf r) by (rewrite Eu in Hw; by apply wf_app in Hw as [_ ?]).
  assert (Hbefore : (if (length (flatten r) <? length (flatten (v :: vs)))%nat
      then wp_safe_copy (clamp O) (range (flatten (v :: vs)) (flatten r)) else clamp O) = clamp (O ++ flatten l)).
  { rewrite Eu, flatten_app, length_app, range_app, wp_safe_copy_clamp.
    destruct (Nat.ltb_spec (length (flatten r)) (length (flatten l) + length (flatten r))) as [|Hz]; [done|].
    destruct (flatten l); [by rewrite app_nil_r|cbn in Hz; lia]. }
  rewrite Hbefore.
  replace (if (0 <? length (flatten tos))%nat then _ else _) with (clamp ((O ++ flatten l) ++ flatten tos)).
  2: { rewrite wp_safe_copy_clamp. destruct (Nat.ltb_spec 0 (length (flatten tos))) as [|Hz]; [done|].
       destruct (flatten tos); [by rewrite app_nil_r|cbn in Hz; lia]. }
  rewrite co_visible_advance_flatten by done. cbn [fst]. change (nvis ns) with (length (strip ns)).
  pose proof (wf_skip_adv (length (strip ns)) r Hwr) as (? & ? & ?).
  rewrite co_skip_color_flatten by done. split; [|by apply Hs2].
  exists (skip_cols (adv (length (strip ns)) r)), ((O ++ flatten l) ++ flatten tos), f.
  split_and!; [done|done|cbn in Hf, Hs1; lia|]. rewrite <- HT, !flatten_app. by rewrite <- !app_assoc.
Qed.

(** ** Properties *)

(** [co_search] terminates and finds the first visible position at which the visible part
    of the haystack continues with the visible part of the needle, whatever the colour in
    either; it returns null only when there is none. *)
Theorem search_spec us ns : wf us -> wf ns -> strip ns <> [] ->
  exists res, co_search (flatten us) (flatten ns) = Some res /\
  match res with
  | Some p => exists l r b r', us = l ++ r /\ r = TVis b :: r' /\ p = flatten r /\
      strip ns `prefix_of` strip r /\
      (forall k, (k < nvis l)%nat -> ~ strip ns `prefix_of` drop k (strip us))
  | None => forall k, ~ strip ns `prefix_of` drop k (strip us)
  end.
Proof.
  intros Hu Hn HN. rewrite co_search_flatten by done. destruct (strip ns) as [|t N] eqn:E; [done|]. rewrite <- E.
  eexists. split; [done|]. unfold found. destruct (find_vis (strip ns) us) as [[l r]|] eqn:Ef; cbn.
  - apply find_vis_some in Ef as (-> & Hp & (b & r' & ->) & Hk). by exists l, (TVis b :: r'), b, r'.
  - apply find_vis_none; [congruence|done].
Qed.

(** [co_edit] terminates; without visible code points in the pattern it copies the text,
    and otherwise the visible part of its result is that of the text with every occurrence
    of the pattern replaced, left to right and without overlap. *)
Theorem edit_spec us ns tos : wf us -> wf ns ->
  exists vs, co_edit (flatten us) (flatten ns) (flatten tos) = Some (clamp (flatten vs)) /\
    strip vs = match strip ns with
               | [] => strip us
               | N => replace_all (length (strip us)) N (strip tos) (strip us)
               end.
Proof.
  intros Hu Hn. unfold co_edit.
  assert (Horig : take (if (length (flatten us) <? LBUF_SIZE - 1)%nat then length (flatten us) else LBUF_SIZE - 1)
    (flatten us) = clamp (flatten us)).
  { unfold clamp, cap. destruct (Nat.ltb_spec (length (flatten us)) (LBUF_SIZE - 1)); [|done].
    by rewrite !take_ge by lia. }
  rewrite Horig. pose proof (wf_strip ns Hn) as Hs.
  destruct (Nat.eqb_spec (length (flatten ns)) 0) as [E|_].
  { apply nil_length_inv, flatten_eq_nil in E as ->; [|done]. by exists us. }
  rewrite co_strip_color_flatten by done.
  destruct (Nat.eqb_spec (length (clamp (flatten (strip ns)))) 0) as [E|E].
  - destruct (strip ns) as [|t N] eqn:EN; [by exists us|].
    assert (Hcap : cap = 0%nat).
    { apply nil_length_inv in E. unfold clamp in E. destruct cap as [|k]; [done|exfalso].
      apply wf_cons in Hs as [Ht _]. pose proof (tok_bytes_nonempty _ Ht) as Hne.
      rewrite flatten_cons in E. destruct (tok_bytes t); [cbn in Hne; lia|done]. }
    exists (edited (length us) (t :: N) tos us). split; [unfold clamp; by rewrite Hcap|].
    by apply strip_edited.
  - assert (HN : strip ns <> []) by (intros EN; rewrite EN in E; by rewrite clamp_nil in E).
    rewrite co_visible_length_flatten, edit_total by (done || lia). eexists. split; [done|].
    destruct (strip ns) as [|t N] eqn:EN; [done|]. rewrite <- EN in *. by apply strip_edited.
Qed.
End Search.

(** Looking for "bc" in "a<red>b<green>cbc". *)
Definition sample_hay : list tok :=
  [TVis [97]; TCol [239; 152; 129]; TVis [98]; TCol [239; 152; 130]; TVis [99]; TVis [98]; TVis [99]].
Definition sample_needle : list tok := [TVis [98]; TVis [99]].

Lemma search_spec_witness :
  exists res, co_search (flatten sample_hay) (flatten sample_needle) = Some res /\
  match res with
  | Some p => exists l r b r', sample_hay = l ++ r /\ r = TVis b :: r' /\ p = flatten r /\
      strip sample_needle `prefix_of` strip r /\
      (forall k, (k < nvis l)%nat -> ~ strip sample_needle `prefix_of` drop k (strip sample_hay))
  | None => forall k, ~ strip sample_needle `prefix_of` drop k (strip sample_hay)
  end.
Proof. apply search_spec; [repeat constructor | repeat constructor | discriminate]. Defined.

Lemma edit_spec_witness :
  exists vs, co_edit (cfg := default_config) (flatten sample_hay) (flatten sample_needle) (flatten [TVis [120]])
      = Some (clamp (cfg := default_config) (flatten vs)) /\
    strip vs = match strip sample_needle with
               | [] => strip sample_hay
               | N => replace_all (length (strip sample_hay)) N (strip [TVis [120]]) (strip sample_hay)
               end.
Proof. apply edit_spec; repeat constructor. Defined.
