(* ===== verification/Splits.v ===== *)
(** * Stage 1 of [color_ops.c]: splitting and squeezing by a text

    [co_split_words] splits a text at every occurrence of a delimiter of several characters, and
    [co_compress_str] reduces runs of one to a single copy. *)

From S2P Require Import Prelude Encoding Scan Words Substring Search.

Section Splits.
Context {cfg : Config}.

(** ** The functions *)

(** The visible bytes of a separator, in a buffer of their own. *)
Definition splain_body (s : bytes * bytes) : (bytes * bytes) + bytes :=
  let '(sp, splain) := s in
  match sp with
  | [] => inr splain
  | _ =>
      match co_skip_color sp with
      | [] => inr splain
      | sp =>
          let after := (co_visible_advance sp 1).1 in
          inl (after, splain ++ take (cap - length splain) (range sp after))
      end
  end.

Definition sep_plain (sep : bytes) : option bytes := iter splain_body (S (length sep)) (sep, []).

(** The offset of a pointer into [data]. *)
Definition offset (data p : bytes) : nat := length data - length p.

(** *** [co_split_words] *)

(** Past spaces and the colours before them. *)
Definition past_spaces_body (p : bytes) : bytes + bytes :=
  match p with
  | [] => inr []
  | _ =>
      match co_skip_color p with
      | [] => inr []
      | c :: q => if c =? 32 then inl q else inr p
      end
  end.

Definition next_space_body (dp : bytes) : bytes + bytes :=
  match dp with
  | [] => inr []
  | _ =>
      match co_skip_color dp with
      | [] => inr []
      | c :: q => if c =? 32 then inr (c :: q) else inl (co_visible_advance (c :: q) 1).1
      end
  end.

Definition past_spaces (p : bytes) : option bytes := iter past_spaces_body (S (length p)) p.
Definition next_space (p : bytes) : option bytes := iter next_space_body (S (length p)) p.

(** The words so far, each by its start and its end. *)
Definition split_space_body (data : bytes) (max_words : nat) (s : bytes * list (nat * nat)) :
    (bytes * list (nat * nat)) + option (list (nat * nat)) :=
  let '(p, ws) := s in
  if (0 <? length p)%nat && (length ws <? max_words)%nat then
    match next_space p with
    | None => inr None
    | Some dp =>
        match past_spaces dp with
        | None => inr None
        | Some p' => inl (p', ws ++ [(offset data p, offset data dp)])
        end
    end
  else inr (Some ws).

Definition split_str_body (data splain : bytes) (max_words : nat) (s : bytes * list (nat * nat)) :
    (bytes * list (nat * nat)) + option (bytes * list (nat * nat)) :=
  let '(p, ws) := s in
  if (length ws + 1 <? max_words)%nat then
    match co_search_with_end p splain with
    | None => inr None
    | Some None => inr (Some (p, ws))
    | Some (Some (found, match_end)) => inl (match_end, ws ++ [(offset data p, offset data found)])
    end
  else inr (Some (p, ws)).

(** The fuel is more than the words that fit. *)
Definition co_split_words (data sep : bytes) (max_words : nat) : option (list (nat * nat)) :=
  if (max_words =? 0)%nat || (length data =? 0)%nat then Some []
  else
    splain ← sep_plain sep;
    if bool_decide (splain = [32]) then
      p ← past_spaces data;
      r ← iter (split_space_body data max_words) (S max_words) (p, []); r
    else
      r ← iter (split_str_body data splain max_words) (S max_words) (data, []);
      '(p, ws) ← r; Some (ws ++ [(offset data p, length data)]).

(** *** [co_compress_str] *)

Definition past_seps_body (splain p : bytes) : bytes + option bytes :=
  match p with
  | [] => inr (Some [])
  | _ =>
      match co_search_with_end p splain with
      | None => inr None
      | Some (Some (next, next_end)) => if (length next =? length p)%nat then inl next_end else inr (Some p)
      | Some None => inr (Some p)
      end
  end.

Definition past_seps (splain p : bytes) : option bytes :=
  r ← iter (past_seps_body splain) (S (length p)) p; r.

Definition compress_str_body (splain sep : bytes) (s : bytes * bytes) : (bytes * bytes) + option bytes :=
  let '(p, out) := s in
  if (0 <? length p)%nat && (length out <? cap)%nat then
    match co_search_with_end p splain with
    | None => inr None
    | Some None => inr (Some (wp_safe_copy out p))
    | Some (Some (found, match_end)) =>
        let out := if (length found <? length p)%nat then wp_safe_copy out (range p found) else out in
        let out := if (length sep <=? cap - length out)%nat then wp_safe_copy out sep else out in
        match past_seps splain match_end with
        | None => inr None
        | Some p => inl (p, out)
        end
    end
  else inr (Some out).

Definition co_compress_str (data sep : bytes) : option bytes :=
  splain ← sep_plain sep;
  match splain with
  | [] => Some (take (if (LBUF_SIZE - 1 <? length data)%nat then LBUF_SIZE - 1 else length data) data)
  | _ => r ← iter (compress_str_body splain sep) (S (length data)) (data, []); r
  end.

(** ** Facts *)

Definition slice (data : bytes) (w : nat * nat) : bytes := take (w.2 - w.1) (drop w.1 data).

Lemma slice_offset A b c : slice (A ++ b ++ c) (offset (A ++ b ++ c) (b ++ c), offset (A ++ b ++ c) c) = b.
Proof.
  unfold slice, offset. cbn [fst snd]. rewrite !length_app.
  replace (length A + (length b + length c) - (length b + length c))%nat with (length A) by lia.
  rewrite drop_app_length. replace (_ - _ - _)%nat with (length b) by lia. apply take_app_length.
Qed.

Lemma clamp_append O x : clamp O ++ take (cap - length (clamp O)) x = clamp (O ++ x).
Proof. unfold clamp. rewrite length_take. rewrite take_app. f_equal. f_equal. lia. Qed.

Lemma sep_plain_flatten ns : wf ns -> sep_plain (flatten ns) = Some (clamp (flatten (strip ns))).
Proof.
  intros Hw. unfold sep_plain.
  destruct (iter_total splain_body
    (fun s => exists us O, wf us /\ s = (flatten us, clamp O) /\ O ++ flatten (strip us) = flatten (strip ns))
    (fun r => r = clamp (flatten (strip ns))) (fun s => length s.1)) with (fuel := S (length (flatten ns)))
    (s := (flatten ns, @nil Z)) as (r & -> & ->); [|exists ns, []; by rewrite clamp_nil|cbn; lia|done].
  clear. intros [p out] (us & O & Hw & [= -> ->] & HT). unfold splain_body.
  assert (Hend : skip_cols us = [] -> clamp O = clamp (flatten (strip ns))).
  { intros Hs. rewrite <- HT, <- strip_skip_cols, Hs. cbn. by rewrite app_nil_r. }
  destruct (flatten us) as [|c q] eqn:Ef.
  { apply Hend. apply flatten_eq_nil in Ef as ->; done. }
  rewrite <- Ef, co_skip_color_flatten by done. pose proof (skip_cols_wf us Hw) as Hw'.
  destruct (skip_cols_head us) as [Es|(bs & vs & Es)].
  { rewrite Es. cbn. by apply Hend. }
  pose proof (skip_cols_le us). rewrite <- strip_skip_cols in HT. rewrite Es in *.
  destruct (flatten (TVis bs :: vs)) as [|c' q'] eqn:Ef'; [by apply flatten_eq_nil in Ef'|].
  rewrite <- Ef' in *. rewrite co_visible_advance_flatten by done. cbn [fst adv]. rewrite adv_0.
  rewrite flatten_cons, range_app in *. apply wf_cons in Hw' as [Ht Hv]. split.
  - exists vs, (O ++ tok_bytes (TVis bs)). rewrite clamp_append. split_and!; [done|done|]. rewrite <- HT.
    by rewrite <- app_assoc.
  - cbn [fst]. pose proof (tok_bytes_nonempty _ Ht). rewrite length_app in *. lia.
Qed.

(** A word begins here, after colours at most. *)
Definition begins (us : list tok) : Prop := exists c bs vs, skip_cols us = TVis (c :: bs) :: vs /\ c <> 32.

Lemma past_spaces_flatten us : wf us -> exists A us', past_spaces (flatten us) = Some (flatten us') /\ wf us'
  /\ us = A ++ us' /\ words32 us' = words32 us /\ (us' = [] \/ begins us').
Proof.
  intros Hw. unfold past_spaces.
  destruct (iter_total past_spaces_body
    (fun p => exists A vs, wf vs /\ p = flatten vs /\ us = A ++ vs /\ words32 vs = words32 us)
    (fun r => exists A us', r = flatten us' /\ wf us' /\ us = A ++ us' /\ words32 us' = words32 us /\
      (us' = [] \/ begins us'))
    (fun p => length p)) with (fuel := S (length (flatten us))) (s := flatten us)
    as (r & -> & A & us' & -> & H); [|by exists [], us|lia|by exists A, us'].
  clear Hw. intros p (A & vs & Hw & -> & -> & HW). unfold past_spaces_body.
  destruct (space_viewP vs Hw) as
    [Hs Hv Hc | cs ws E Hv Hs Hc | cs ch bs ws E Hs Hne Hv Hc' Hc | cs ch bs ws l r E Hs Hne Hv Hc' Hc].
  - assert (exists A' us', @nil Z = flatten us' /\ wf us' /\ A ++ vs = A' ++ us' /\ words32 us' = words32 (A ++ vs)
      /\ (us' = [] \/ begins us')) as Hend.
    { exists (A ++ vs), []. rewrite app_nil_r, <- HW, (words32_end vs) by done.
      split_and!; [done|by constructor|done|reflexivity|by left]. }
    destruct (flatten vs) eqn:Ef; [exact Hend|]. rewrite <- Ef, co_skip_color_flatten, Hs by done. exact Hend.
  - pose proof (cut_length 32 vs cs ws Hc) as Hlen. destruct (flatten vs) eqn:Ef; [cbn in Hlen; lia|]. rewrite <- Ef in *.
    rewrite (skip_flatten _ _ _ _ Hw Hs). cbn [app]. rewrite Z.eqb_refl. pose proof (wf_cut 32 vs cs ws Hw Hc) as [_ Hw'].
    split; [|lia]. exists (A ++ cs ++ [TVis [32]]), ws. rewrite <- (words32_space _ _ _ Hv Hc), HW.
    split_and!; [done|done| |done]. rewrite E. by rewrite <- !app_assoc.
  - destruct (flatten vs) eqn:Ef; [by apply flatten_eq_nil in Ef; [rewrite Ef in Hs|]|]. rewrite <- Ef.
    rewrite (skip_flatten _ _ _ _ Hw Hs). cbn [app]. rewrite (proj2 (Z.eqb_neq _ _) Hne).
    exists A, vs. split_and!; [done|done|done|done|right; by exists ch, bs, ws].
  - destruct (flatten vs) eqn:Ef; [by apply flatten_eq_nil in Ef; [rewrite Ef in Hs|]|]. rewrite <- Ef.
    rewrite (skip_flatten _ _ _ _ Hw Hs). cbn [app]. rewrite (proj2 (Z.eqb_neq _ _) Hne).
    exists A, vs. split_and!; [done|done|done|done|right; by exists ch, bs, ws].
Qed.

(** Where the word that begins a text ends. *)
Definition at_space (us : list tok) : list tok := match cut 32 us with Some (_, r) => TVis [32] :: r | None => [] end.

Lemma at_space_vis c bs us : c <> 32 -> at_space (TVis (c :: bs) :: us) = at_space us.
Proof. intros Hc. unfold at_space. cbn. case_decide; [naive_solver|]. by destruct (cut 32 us) as [[]|]. Qed.

Lemma at_space_cols cs us : has_vis cs = false -> at_space (cs ++ us) = at_space us.
Proof. intros Hc. unfold at_space. rewrite cut_cols by done. by destruct (cut 32 us) as [[]|]. Qed.

Lemma at_space_skip us : at_space (skip_cols us) = at_space us.
Proof. destruct (skip_cols_split us) as (cs & E & Hc & _). rewrite E at 2. by rewrite at_space_cols. Qed.

Lemma next_space_flatten us : wf us -> next_space (flatten us) = Some (flatten (at_space us)).
Proof.
  intros Hw. unfold next_space.
  destruct (iter_total next_space_body (fun p => exists vs, wf vs /\ p = flatten vs /\ at_space vs = at_space us)
    (fun r => r = flatten (at_space us)) (fun p => length p)) with (fuel := S (length (flatten us))) (s := flatten us)
    as (r & -> & ->); [|by exists us|lia|done].
  clear Hw. intros p (vs & Hw & -> & HT). unfold next_space_body. rewrite <- at_space_skip in HT.
  pose proof (skip_cols_wf vs Hw) as Hw'. pose proof (skip_cols_le vs) as Hle.
  destruct (skip_cols_head vs) as [Es|(bs & ws & Es)]; rewrite Es in *.
  { rewrite <- HT. destruct (flatten vs) eqn:Ef; [done|]. by rewrite <- Ef, co_skip_color_flatten, Es. }
  destruct (wf_vis_head bs ws Hw') as (c & bs' & -> & Hsp).
  destruct (flatten vs) eqn:Ef; [apply flatten_eq_nil in Ef as ->; done|]. rewrite <- Ef in *.
  rewrite (skip_flatten _ _ _ _ Hw Es). cbn [app]. destruct (Z.eqb_spec c 32) as [->|Hne].
  - rewrite (Hsp eq_refl) in *. rewrite <- HT. done.
  - rewrite at_space_vis in HT by done. change (c :: bs' ++ flatten ws) with (flatten (TVis (c :: bs') :: ws)).
    rewrite co_visible_advance_flatten by done. cbn [fst adv]. rewrite adv_0. apply wf_cons in Hw' as [Ht Hws].
    split; [by exists ws|]. rewrite flatten_cons, length_app in Hle. pose proof (tok_bytes_nonempty _ Ht). lia.
Qed.

(** The first word of a text that begins with one. *)
Lemma begins_word us : wf us -> begins us -> exists w, us = w ++ at_space us /\ words32 us = w :: words32 (at_space us).
Proof.
  intros Hw (c & bs & vs & Hs & Hne). unfold at_space.
  destruct (space_viewP us Hw) as
    [Hs' Hv Hc | cs ws E Hv Hs' Hc | cs ch bs' ws E Hs' Hne' Hv Hc' Hc | cs ch bs' ws l r E Hs' Hne' Hv Hc' Hc];
    rewrite Hs in Hs'; [done|congruence| |].
  - exists us. rewrite Hc, app_nil_r. by rewrite words32_last.
  - exists (cs ++ l). rewrite Hc. split; [by apply cut_spec|]. rewrite (words32_word _ _ _ Hv Hc). done.
Qed.

(** ** [co_split_words] *)

Lemma at_space_wf us : wf us -> wf (at_space us).
Proof.
  intros Hw. unfold at_space. destruct (cut 32 us) as [[l r]|] eqn:Hc; [|by constructor].
  by apply (wf_cut 32 us l r Hw) in Hc as [_ ?]; constructor.
Qed.

(** The words of a text whose separator is the space. *)
Lemma split_space_run A us ws max fuel : wf us -> (us = [] \/ begins us) -> (max - length ws < fuel)%nat ->
  exists W, iter (split_space_body (flatten (A ++ us)) max) fuel (flatten us, ws) = Some (Some (ws ++ W)) /\
    slice (flatten (A ++ us)) <$> W = flatten <$> take (max - length ws) (words32 us).
Proof.
  revert A us ws. induction fuel as [|fuel IH]; intros A us ws Hw Hb Hf; [lia|]. cbn [iter]. unfold split_space_body at 1.
  destruct Hb as [->|Hb].
  { exists []. rewrite (app_nil_r ws). split; [done|]. by destruct (_ - _)%nat. }
  destruct (begins_word us Hw Hb) as (w & E & HW). pose proof (at_space_wf us Hw) as Hw'.
  destruct (past_spaces_flatten (at_space us) Hw') as (B & vs & Hp & Hv & E' & HW' & Hb').
  assert (0 < length (flatten us))%nat as Hl.
  { destruct Hb as (c & bs & r & Hs & _). destruct (flatten us) eqn:Ef; [|cbn; lia].
    apply flatten_eq_nil in Ef; [by rewrite Ef in Hs|done]. }
  rewrite (proj2 (Nat.ltb_lt _ _) Hl). cbn [andb]. destruct (Nat.ltb_spec (length ws) max) as [Hm|Hm].
  2: { exists []. rewrite (app_nil_r ws). split; [done|]. by replace (max - length ws)%nat with 0%nat by lia. }
  rewrite next_space_flatten, Hp by done.
  assert (Ed : A ++ us = (A ++ w ++ B) ++ vs) by (rewrite E at 1; rewrite E'; by rewrite <- !app_assoc).
  edestruct (IH (A ++ w ++ B) vs) as (W & HW1 & HW2); [done|done| |rewrite Ed; eexists (_ :: W); rewrite HW1].
  { rewrite length_app. cbn. lia. }
  rewrite <- app_assoc. split; [done|]. rewrite fmap_cons, HW2, length_app. cbn [length].
  replace (max - length ws)%nat with (S (max - (length ws + 1)))%nat by lia. rewrite HW. cbn [take].
  rewrite fmap_cons, HW'.
  f_equal. rewrite <- Ed. pose proof (slice_offset (flatten A) (flatten w) (flatten (at_space us))) as H.
  by rewrite <- !flatten_app, <- E in H.
Qed.

(** The pieces that a separator of several code points makes, of at most [n] cuts. *)
Fixpoint pieces (n : nat) (N us : list tok) : list (list tok) :=
  match n with
  | O => [us]
  | S n' =>
      match find_vis N us with
      | None => [us]
      | Some (l, r) => l :: pieces n' N (adv (length N) r)
      end
  end.

Lemma split_str_run N A us ws max fuel : wf N -> Forall (fun t => is_vis t = true) N -> wf us ->
  (max - length ws < fuel)%nat ->
  exists q W, iter (split_str_body (flatten (A ++ us)) (flatten N) max) fuel (flatten us, ws) = Some (Some (q,
    ws ++ W)) /\
    slice (flatten (A ++ us)) <$> (W ++ [(offset (flatten (A ++ us)) q, length (flatten (A ++ us)))]) =
    flatten <$> pieces (max - length ws - 1) N us.
Proof.
  intros HN HV. revert A us ws. induction fuel as [|fuel IH]; intros A us ws Hw Hf; [lia|]. cbn [iter].
  unfold split_str_body at 1.
  assert (Hlast : slice (flatten (A ++ us)) <$> ([] ++ [(offset (flatten (A ++ us)) (flatten us),
    length (flatten (A ++ us)))]) =
      flatten <$> [us]).
  { pose proof (slice_offset (flatten A) (flatten us) []) as H. rewrite app_nil_r in H.
    unfold offset at 2 in H. cbn [length] in H. rewrite Nat.sub_0_r in H. rewrite flatten_app. cbn [app fmap list_fmap].
    by rewrite H. }
  destruct (Nat.ltb_spec (length ws + 1) max) as [Hm|Hm].
  2: { exists (flatten us), []. rewrite (app_nil_r ws). split; [done|]. rewrite Hlast.
       by replace (max - length ws - 1)%nat with 0%nat by lia. }
  rewrite search_total by done. unfold found.
  replace (max - length ws - 1)%nat with (S (max - (length ws + 1) - 1)) by lia. cbn [pieces].
  destruct (find_vis N us) as [[l r]|] eqn:Ef; cbn [option_map snd].
  2: { exists (flatten us), []. by rewrite (app_nil_r ws). }
  destruct (find_vis_some _ _ _ _ Ef) as (Eu & _).
  assert (Hr : wf r) by (rewrite Eu in Hw; by apply wf_app in Hw as [_ ?]).
  pose proof (pre_adv (length N) r) as Ep.
  assert (Ed : A ++ us = (A ++ l ++ pre (length N) r) ++ adv (length N) r) by (rewrite Eu, <- Ep at 1;
    by rewrite <- !app_assoc).
  edestruct (IH (A ++ l ++ pre (length N) r) (adv (length N) r)) as (q & W & HW1 & HW2);
    [by apply wf_pre_adv| |rewrite Ed; eexists q, (_ :: W); rewrite HW1].
  { rewrite length_app. cbn. lia. }
  rewrite <- app_assoc. split; [done|]. cbn [app]. rewrite !fmap_cons, HW2, length_app. cbn [length].
  f_equal. rewrite <- Ed, Eu, !flatten_app. apply slice_offset.
Qed.

(** ** [co_compress_str] *)

(** The pieces with one copy of the separator between two of them. *)
Fixpoint intersperse (S : list tok) (ps : list (list tok)) : list tok :=
  match ps with
  | [] => []
  | [p] => p
  | p :: ps' => p ++ S ++ intersperse S ps'
  end.

(** The pieces after the first without the empty ones, the last one kept. *)
Fixpoint compact (ps : list (list tok)) : list (list tok) :=
  match ps with
  | [] => []
  | [p] => [p]
  | [] :: ps' => compact ps'
  | p :: ps' => p :: compact ps'
  end.

Definition squeeze_pieces (ps : list (list tok)) : list (list tok) :=
  match ps with [] => [] | p :: ps' => p :: compact ps' end.

Lemma compact_nonempty ps : ps <> [] -> compact ps <> [].
Proof. induction ps as [|[|t p] [|q ps] IH]; intros H; try done. by apply IH. Qed.

Lemma intersperse_cons S p ps : ps <> [] -> intersperse S (p :: ps) = p ++ S ++ intersperse S ps.
Proof. by destruct ps. Qed.

Lemma pieces_nonempty n N us : pieces n N us <> [].
Proof. destruct n; cbn; [done|]. by destruct (find_vis N us) as [[]|]. Qed.

Section Separator.
Context (N : list tok) (HN : N <> []).

Lemma rest_shorter us l r : find_vis N us = Some (l, r) ->
  (length (adv (length N) r) < length us)%nat /\
  (wf us -> wf l /\ wf r /\ (length (flatten (adv (length N) r)) < length (flatten us))%nat).
Proof.
  intros H. apply find_vis_some in H as (-> & _ & (b & r' & ->) & _). destruct N as [|t N']; [done|]. cbn [length adv].
  pose proof (f_equal length (pre_adv (length N') r')) as E. rewrite length_app in E. split.
  - rewrite length_app. cbn. lia.
  - intros Hw. apply wf_app in Hw as [Hl Hw]. split_and!; [done|done|]. apply wf_cons in Hw as [Ht _].
    pose proof (tok_bytes_nonempty _ Ht). rewrite flatten_length_app, flatten_cons, length_app.
    pose proof (adv_length (length N') r'). lia.
Qed.

Lemma pieces_enough f g us : (length us <= f)%nat -> (length us <= g)%nat -> pieces f N us = pieces g N us.
Proof.
  revert g us. induction f as [|f IH]; intros g us Hf Hg.
  { destruct us; [|cbn in Hf; lia]. by destruct g. }
  destruct g as [|g]; [destruct us; [done|cbn in Hg; lia]|]. cbn [pieces].
  destruct (find_vis N us) as [[l r]|] eqn:E; [|done]. pose proof (rest_shorter _ _ _ E) as [Hs _].
  f_equal. apply IH; lia.
Qed.

Definition all_pieces (us : list tok) : list (list tok) := pieces (length us) N us.

Lemma all_pieces_none us : find_vis N us = None -> all_pieces us = [us].
Proof. unfold all_pieces. intros E. destruct us; [done|]. cbn [length pieces]. by rewrite E. Qed.

Lemma all_pieces_some us l r : find_vis N us = Some (l, r) -> all_pieces us = l :: all_pieces (adv (length N) r).
Proof.
  unfold all_pieces. intros E. pose proof (rest_shorter _ _ _ E) as [Hs _]. destruct us as [|t us]; [done|].
  cbn [length pieces]. rewrite E. f_equal. apply pieces_enough; cbn in Hs; lia.
Qed.

Context (HNw : wf N) (HNv : Forall (fun t => is_vis t = true) N).

Lemma past_seps_flatten us : wf us -> exists vs, past_seps (flatten N) (flatten us) = Some (flatten vs) /\ wf vs /\
  (length (flatten vs) <= length (flatten us))%nat /\ compact (all_pieces us) = squeeze_pieces (all_pieces vs).
Proof.
  intros Hw. unfold past_seps.
  destruct (iter_total (past_seps_body (flatten N))
    (fun p => exists vs, wf vs /\ p = flatten vs /\ (length p <= length (flatten us))%nat /\
       compact (all_pieces us) = compact (all_pieces vs))
    (fun r => exists vs, r = Some (flatten vs) /\ wf vs /\ (length (flatten vs) <= length (flatten us))%nat /\
       compact (all_pieces us) = squeeze_pieces (all_pieces vs))
    (fun p => length p)) with (fuel := S (length (flatten us))) (s := flatten us)
    as (r & -> & vs & -> & H); [|by exists us|lia|by exists vs].
  clear Hw. intros p (vs & Hw & -> & Hl & HC). unfold past_seps_body.
  assert (Hstop : compact (all_pieces vs) = squeeze_pieces (all_pieces vs) ->
    exists us', Some (flatten vs) = Some (flatten us') /\
    wf us' /\ (length (flatten us') <= length (flatten us))%nat /\
      compact (all_pieces us) = squeeze_pieces (all_pieces us')).
  { intros E. exists vs. by rewrite HC. }
  destruct (flatten vs) as [|x y] eqn:Ef.
  { apply Hstop. apply flatten_eq_nil in Ef as ->; done. }
  rewrite <- Ef in *. rewrite search_total by done. unfold found.
  destruct (find_vis N vs) as [[l r]|] eqn:E; cbn [option_map snd].
  2: { apply Hstop. rewrite all_pieces_none by done. by destruct vs. }
  pose proof (rest_shorter _ _ _ E) as [_ (Hwl & Hwr & Hs)]; [done|]. rewrite (all_pieces_some _ _ _ E) in *.
  pose proof (pieces_nonempty (length (adv (length N) r)) N (adv (length N) r)) as Hne.
  fold (all_pieces (adv (length N) r)) in Hne.
  pose proof (find_vis_some _ _ _ _ E) as (Eu & _).
  assert (Hln : length (flatten vs) = (length (flatten l) + length (flatten r))%nat) by (by rewrite Eu,
    flatten_length_app).
  rewrite Hln. destruct l as [|t l].
  - cbn [flatten length Nat.add app]. cbn in Hln. rewrite Nat.eqb_refl. split; [|lia]. exists (adv (length N) r).
    split_and!; [by apply wf_pre_adv|done|lia|].
    rewrite HC. by destruct (all_pieces (adv (length N) r)).
  - destruct (Nat.eqb_spec (length (flatten r)) (length (flatten (t :: l)) + length (flatten r))) as [Hz|_].
    { apply wf_cons in Hwl as [Ht _]. pose proof (tok_bytes_nonempty _ Ht). rewrite flatten_cons, length_app in Hz. lia. }
    apply Hstop. by destruct (all_pieces (adv (length N) r)).
Qed.

(** The loop, with the text it still makes. *)
Lemma compress_str_run S us : wf us -> (length (flatten (intersperse S (squeeze_pieces (all_pieces us)))) <= cap)%nat ->
  iter (compress_str_body (flatten N) (flatten S)) (1 + length (flatten us)) (flatten us, []) =
  Some (Some (flatten (intersperse S (squeeze_pieces (all_pieces us))))).
Proof.
  set (T := flatten (intersperse S (squeeze_pieces (all_pieces us)))). intros Hw HT.
  destruct (iter_total (compress_str_body (flatten N) (flatten S))
    (fun s => exists vs O, wf vs /\ s = (flatten vs, O) /\
      O ++ flatten (intersperse S (squeeze_pieces (all_pieces vs))) = T)
    (fun r => r = Some T) (fun s => length s.1)) with (fuel := (1 + length (flatten us))%nat) (s := (flatten us, @nil Z))
    as (r & -> & ->); [|by exists us, []|cbn; lia|done].
  clearbody T. clear Hw us. intros s (vs & O & Hw & -> & HO). unfold compress_str_body.
  pose proof (f_equal length HO) as Hlen. rewrite length_app in Hlen.
  destruct (Nat.ltb_spec (length O) cap) as [Hc|Hc].
  2: { rewrite andb_false_r. destruct (flatten (intersperse _ _)); [by rewrite <- HO, app_nil_r|cbn in Hlen; lia]. }
  destruct (Nat.ltb_spec 0 (length (flatten vs))) as [Hp|Hp]; cbn [andb].
  2: { assert (vs = []) as -> by (apply flatten_eq_nil; [done|]; destruct (flatten vs); [done|cbn in Hp; lia]).
       cbn in HO. by rewrite app_nil_r in HO; subst. }
  rewrite search_total by done. unfold found.
  assert (Hcopy : forall x, (length O + length x <= cap)%nat -> wp_safe_copy O x = O ++ x).
  { intros x Hx. rewrite <- (clamp_id O) at 1 by lia.
    rewrite wp_safe_copy_clamp, clamp_id; [done|rewrite length_app; lia]. }
  destruct (find_vis N vs) as [[l r]|] eqn:E; cbn [option_map snd].
  2: { rewrite (all_pieces_none vs E) in HO, Hlen. cbn [squeeze_pieces compact intersperse] in HO, Hlen.
       rewrite Hcopy by lia. by rewrite HO. }
  destruct (rest_shorter _ _ _ E) as [_ (Hwl & Hwr & Hs)]; [done|]. pose proof (find_vis_some _ _ _ _ E) as (Eu & _).
  destruct (past_seps_flatten (adv (length N) r)) as (q & -> & Hq & Hql & HC); [by apply wf_pre_adv|].
  rewrite (all_pieces_some _ _ _ E) in HO, Hlen. cbn [squeeze_pieces] in HO, Hlen.
  rewrite intersperse_cons, HC, !flatten_app in HO, Hlen by (apply compact_nonempty, pieces_nonempty).
  rewrite !length_app in Hlen. replace (if (length (flatten r) <? _)%nat then _ else O) with (O ++ flatten l).
  2: { rewrite Eu, flatten_app, length_app, range_app.
       destruct (Nat.ltb_spec (length (flatten r)) (length (flatten l) + length (flatten r))) as [|Hz].
       - by rewrite Hcopy by lia.
       - destruct (flatten l); [by rewrite app_nil_r|cbn in Hz; lia]. }
  rewrite length_app, (proj2 (Nat.leb_le _ _)) by lia.
  rewrite <- (clamp_id (O ++ flatten l)), wp_safe_copy_clamp, clamp_id by (rewrite ?length_app; lia).
  split; [|cbn [fst]; lia]. exists q, ((O ++ flatten l) ++ flatten S). split_and!; [done|done|]. rewrite <- HO.
  by rewrite <- !app_assoc.
Qed.

End Separator.

(** ** Properties *)

Definition absent (N V : list tok) : Prop := forall k, ~ N `prefix_of` drop k V.

Lemma absent_prefix N L R : N <> [] -> (forall k, (k < length L)%nat -> ~ N `prefix_of` drop k (L ++ R)) -> absent N L.
Proof.
  intros HN H k Hp. destruct (Nat.ltb_spec k (length L)) as [Hk|Hk].
  - apply (H k Hk). rewrite drop_app_le by lia. by apply prefix_app_r.
  - rewrite drop_ge in Hp by done. by apply prefix_nil_inv in Hp.
Qed.

Lemma pieces_joined n N us : N <> [] -> exists qs q, pieces n N us = qs ++ [q] /\
  strip us = intersperse N (strip <$> qs ++ [q]) /\ (length qs <= n)%nat /\
  Forall (fun p => absent N (strip p)) qs /\ ((length qs < n)%nat -> absent N (strip q)).
Proof.
  intros HN. revert us. induction n as [|n IH]; intros us; cbn [pieces].
  { exists [], us. split_and!; [done|done|done|by constructor|cbn; lia]. }
  destruct (find_vis N us) as [[l r]|] eqn:E.
  2: { exists [], us. split_and!; [done|done|cbn; lia|by constructor|]. intros _. exact (find_vis_none N us HN E). }
  destruct (IH (adv (length N) r)) as (qs & q & -> & HS & Hl & HF & HQ).
  apply find_vis_some in E as (-> & [R HR] & _ & Hk). exists (l :: qs), q. cbn [length app]. split_and!; [done| |lia| |].
  - rewrite fmap_cons, intersperse_cons, <- HS, strip_app, strip_adv, HR, drop_app_length; [done|]. by destruct qs.
  - constructor; [|done]. rewrite strip_app in Hk. apply absent_prefix with (R := strip r); [done|].
    intros k Hlt. apply Hk. by rewrite strip_length in Hlt.
  - intros Hlt. apply HQ. lia.
Qed.

Lemma flatten_space N : wf N -> Forall (fun t => is_vis t = true) N -> flatten N = [32] -> N = [TVis [32]].
Proof.
  intros Hw HV H. destruct N as [|[b|b] N]; [done| |by apply Forall_cons in HV as [? _]].
  rewrite flatten_cons in H. apply wf_cons in Hw as [Ht Hw]. pose proof (tok_bytes_nonempty _ Ht).
  cbn [tok_bytes] in *. destruct b as [|c [|c' b]]; cbn [app length] in *; [lia| |done].
  injection H as -> Hn. apply flatten_eq_nil in Hn; [by subst|done].
Qed.

(** The start of a run, whichever the separator. *)
Lemma co_split_words_unfold us ns max : wf ns -> us <> [] -> wf us -> (0 < max)%nat ->
  (length (flatten (strip ns)) <= cap)%nat ->
  co_split_words (flatten us) (flatten ns) max =
  if bool_decide (flatten (strip ns) = [32]) then
    p ← past_spaces (flatten us);
    r ← iter (split_space_body (flatten us) max) (S max) (p, []); r
  else
    r ← iter (split_str_body (flatten us) (flatten (strip ns)) max) (S max) (flatten us, []);
    '(p, ws) ← r; Some (ws ++ [(offset (flatten us) p, length (flatten us))]).
Proof.
  intros Hn Hu Hw Hm Hc. unfold co_split_words. rewrite (proj2 (Nat.eqb_neq max 0)) by lia.
  destruct (Nat.eqb_spec (length (flatten us)) 0) as [Hz|_].
  { destruct (flatten us) eqn:Ef; [|done]. by apply flatten_eq_nil in Ef. }
  cbn [orb]. rewrite sep_plain_flatten by done. cbn [mbind option_bind]. by rewrite clamp_id.
Qed.

(** A separator that is a space cuts a text into its words, as many as fit: each with the colours before it,
    the spaces around it left out. *)
Theorem split_words_space us ns max : wf ns -> strip ns = [TVis [32]] -> us <> [] -> wf us -> (0 < max)%nat ->
  (0 < cap)%nat ->
  exists ws, co_split_words (flatten us) (flatten ns) max = Some ws /\
    slice (flatten us) <$> ws = flatten <$> take max (words32 us).
Proof.
  intros Hn HS Hu Hw Hm Hc. rewrite co_split_words_unfold by (done || rewrite HS; cbn; lia).
  rewrite HS. rewrite bool_decide_true by done.
  destruct (past_spaces_flatten us Hw) as (A & vs & -> & Hv & E & HW & Hb). cbn [mbind option_bind].
  destruct (split_space_run A vs [] max (S max) Hv Hb) as (W & H1 & H2); [cbn; lia|].
  rewrite <- E in *. exists W. rewrite H1. split; [done|]. rewrite H2, HW. cbn [length]. by rewrite Nat.sub_0_r.
Qed.

Lemma split_words_pieces us ns max : wf ns -> flatten (strip ns) <> [32] -> us <> [] -> wf us -> (0 < max)%nat ->
  (length (flatten (strip ns)) <= cap)%nat ->
  exists ws, co_split_words (flatten us) (flatten ns) max = Some ws /\
    slice (flatten us) <$> ws = flatten <$> pieces (max - 1) (strip ns) us.
Proof.
  intros Hn HS Hu Hw Hm Hc. rewrite co_split_words_unfold by done. rewrite bool_decide_false by done.
  destruct (split_str_run (strip ns) [] us [] max (S max)) as (q & W & H1 & H2);
    [by apply wf_strip|apply strip_vis_all|done|cbn; lia|].
  cbn [app] in *. rewrite H1. exists (W ++ [(offset (flatten us) q, length (flatten us))]). split; [done|].
  rewrite H2. cbn [length]. by rewrite Nat.sub_0_r.
Qed.

(** Any other separator cuts a text at each of its occurrences from the left: the pieces joined by the separator
    are the text's visible part, no piece before the last holds the separator, nor does the last one unless all
    the pieces that fit are taken. *)
Theorem split_words_joined us ns max : wf ns -> strip ns <> [] -> flatten (strip ns) <> [32] -> us <> [] -> wf us ->
  (0 < max)%nat -> (length (flatten (strip ns)) <= cap)%nat ->
  exists ws qs q, co_split_words (flatten us) (flatten ns) max = Some ws /\ (length ws <= max)%nat /\
    slice (flatten us) <$> ws = flatten <$> qs ++ [q] /\
    strip us = intersperse (strip ns) (strip <$> qs ++ [q]) /\
    Forall (fun p => absent (strip ns) (strip p)) qs /\ ((length ws < max)%nat -> absent (strip ns) (strip q)).
Proof.
  intros Hn HN HS Hu Hw Hm Hc. destruct (split_words_pieces us ns max) as (ws & E & HP); [done..|].
  destruct (pieces_joined (max - 1) (strip ns) us HN) as (qs & q & Eq & Hj & Hl & HF & HQ). rewrite Eq in HP.
  pose proof (f_equal length HP) as Hlen. rewrite !length_fmap, length_app in Hlen. cbn in Hlen.
  exists ws, qs, q. split_and!; [done|lia|done|done|done|]. intros ?. apply HQ. lia.
Qed.

Lemma pieces_colour n us : pieces n [] (skip_cols us) = match skip_cols us with [] => [[]] | _ => replicate n [] ++
  [skip_cols us] end.
Proof.
  destruct (skip_cols_head us) as [->|(b & vs & ->)]; [by destruct n|]. induction n as [|n IH]; [done|].
  cbn [pieces]. rewrite find_vis_cons. rewrite bool_decide_true by apply prefix_nil. cbn [is_vis andb length].
  rewrite adv_0. by rewrite IH.
Qed.

(** A separator without a visible code point cuts a text that has one into as many pieces as fit, empty but for the
    colours of the first and the last, which is the text. *)
Theorem split_words_blank us ns max : wf ns -> strip ns = [] -> skip_cols us <> [] -> wf us -> (1 < max)%nat ->
  exists ws, co_split_words (flatten us) (flatten ns) max = Some ws /\ length ws = max /\
    slice (flatten us) <$> ws = flatten (lead us) :: replicate (max - 2) [] ++ [flatten (skip_cols us)].
Proof.
  intros Hn HS Hu Hw Hm.
  assert (H : exists ws, co_split_words (flatten us) (flatten ns) max = Some ws /\
    slice (flatten us) <$> ws = flatten <$> pieces (max - 1) (strip ns) us).
  { apply split_words_pieces; [done|by rewrite HS|by intros ->|done|lia|]. rewrite HS. cbn. lia. }
  destruct H as (ws & E & HP).
  assert (HF : find_vis [] us = Some (lead us, skip_cols us)).
  { clear -Hu. induction us as [|[b|b] us IH]; [done| |].
    - rewrite find_vis_cons, bool_decide_true by apply prefix_nil. done.
    - cbn [skip_cols] in *. rewrite find_vis_cons. cbn [is_vis andb]. by rewrite IH. }
  rewrite HS in HP. replace (max - 1)%nat with (S (max - 2)) in HP by lia. cbn [pieces length] in HP.
  rewrite HF, adv_0, pieces_colour in HP. exists ws. split_and!; [done| |].
  - apply (f_equal length) in HP. rewrite length_fmap in HP. rewrite HP, length_fmap. cbn [length].
    destruct (skip_cols us); [done|]. rewrite length_app, length_replicate. cbn. lia.
  - rewrite HP. destruct (skip_cols us) as [|t vs]; [done|]. by rewrite fmap_cons, fmap_app, fmap_replicate.
Qed.

(** C39: [co_compress_str] gives the pieces of the text between separators, without the empty ones between
    two others, joined by one copy of the separator, colours included, when that fits.  When the separator
    is not the space and the text is not empty, these pieces are what [co_split_words] makes.  (At the
    space, its default, [co_split_words] drops the spaces at both ends, which [co_compress_str] keeps:
    [space_is_kept].) *)
Theorem compress_str_spec us ns : wf ns -> strip ns <> [] -> wf us -> (length (flatten (strip ns)) <= cap)%nat ->
  let ps := pieces (length us) (strip ns) us in
  (length (flatten (intersperse ns (squeeze_pieces ps))) <= cap)%nat ->
  co_compress_str (flatten us) (flatten ns) = Some (flatten (intersperse ns (squeeze_pieces ps))) /\
  (flatten (strip ns) <> [32] -> us <> [] -> exists ws,
     co_split_words (flatten us) (flatten ns) (S (length us)) = Some ws /\ slice (flatten us) <$> ws = flatten <$> ps).
Proof.
  intros Hn HN Hw Hc ps Hcap. split.
  - unfold co_compress_str. rewrite sep_plain_flatten by done. cbn [mbind option_bind]. rewrite clamp_id by done.
    destruct (flatten (strip ns)) as [|x y] eqn:Ef; [apply flatten_eq_nil in Ef; [done|by apply wf_strip]|].
    rewrite <- Ef.
    rewrite (compress_str_run (strip ns)) by (done || by apply wf_strip || apply strip_vis_all). done.
  - intros HS Hu. destruct (split_words_pieces us ns (S (length us))) as (ws & E & HP); [done|done|done|done|lia|done|].
    exists ws. split; [done|]. rewrite HP. by rewrite Nat.sub_1_r.
Qed.

End Splits.

(** ** Examples *)

(** "x, , y, , z": the second run has a colour between its separators. *)
Definition sample_sep : list tok := [TCol [239; 152; 129]; TVis [44]; TVis [32]].
Definition sample_list : list tok :=
  [TVis [120]; TVis [44]; TVis [32]; TVis [44]; TVis [32]; TVis [121]; TVis [44]; TVis [32]; TCol [239; 152; 130];
   TVis [44]; TCol [239; 152; 131]; TVis [32]; TVis [122]].

(** The first run is squeezed to one separator, the second one is not. *)
Lemma compress_str_spec_witness :
  co_compress_str (cfg := default_config) (flatten sample_list) (flatten sample_sep) =
    Some (flatten ([TVis [120]] ++ sample_sep ++ [TVis [121]] ++ sample_sep ++ [TCol [239; 152;
      130]] ++ sample_sep ++ [TVis [122]])) /\
  co_split_words (cfg := default_config) (flatten sample_list) (flatten sample_sep) 14 =
    Some [(0, 1); (3, 3); (5, 6); (8, 11); (16, 17)]%nat.
Proof.
  destruct (compress_str_spec (cfg := default_config) sample_list sample_sep) as [-> H];
    [repeat constructor|done|repeat constructor|apply Nat.leb_le; vm_compute; reflexivity..|].
  split; vm_compute; reflexivity.
Defined.

Example space_is_kept :
  co_compress_str (cfg := default_config) [32; 97] [32] = Some [32; 97] /\
  co_split_words (cfg := default_config) [32; 97] [32] 4 = Some [(1, 2)]%nat.
Proof. vm_compute. done. Qed.

(** A separator that does not fit is left out, and what follows it is written all the same. *)
Example separator_left_out :
  co_compress_str (cfg := {| LBUF_SIZE := 5 |}) [97; 97; 97; 44; 32; 98; 99] [44; 32] = Some [97; 97; 97; 98].
Proof. vm_compute. reflexivity. Qed.

(** A separator that is but a colour, and one that is the space. *)
Example colour_separator :
  co_split_words (cfg := default_config) [97; 32; 98] [239; 152; 129] 4 = Some [(0, 0); (0, 0); (0, 0); (0, 3)]%nat /\
  co_split_words (cfg := default_config) [32; 97; 32; 32; 239; 152; 129; 98; 32] [32] 4 = Some [(1, 2); (4, 8)]%nat.
Proof. vm_compute. done. Qed.
