(* ===== verification/Trim.v ===== *)
(** * Stages 1 to 3 of [color_ops.c]: trimming, squeezing runs, positions

    [co_trim] and [co_trim_pattern] cut characters from the ends of a text, [co_compress]
    squeezes runs of a character, [co_lpos] lists the positions of a character and
    [co_member] the position of a word. *)

From S2P Require Import Prelude Encoding Scan Words Substring ColorState.

Section Trim.
Context {cfg : Config}.

(** ** The functions *)

(** Whether the visible code point that starts with [c] is trimmed (or squeezed). *)
Definition is_trim (trim_char c : Z) : bool :=
  if trim_char =? 0 then (c =? 32) || (c =? 9) else c =? trim_char.

(** The loop that trims left: [p] and the colour run last passed; the result is [start] and
    that run. *)
Definition trim_left_body (data : bytes) (trim_char : Z) (s : bytes * option bytes)
    : (bytes * option bytes) + (bytes * option bytes) :=
  let '(p, color_prefix) := s in
  match p with
  | [] => inr (data, color_prefix)
  | _ =>
      let q := co_skip_color p in
      let color_prefix := if (length q <? length p)%nat then Some (range p q) else color_prefix in
      match q with
      | [] => inr ([], color_prefix)
      | c :: q' => if is_trim trim_char c then inl (q', color_prefix) else inr (q, color_prefix)
      end
  end.

(** The loop that trims right: [p] and [last_nontrim_end]. *)
Definition trim_right_body (trim_char : Z) (s : bytes * bytes) : (bytes * bytes) + bytes :=
  let '(p, last_nontrim_end) := s in
  match p with
  | [] => inr last_nontrim_end
  | _ =>
      match co_skip_color p with
      | [] => inr last_nontrim_end
      | c :: q' =>
          let after := (co_visible_advance (c :: q') 1).1 in
          inl (after, if is_trim trim_char c then last_nontrim_end else after)
      end
  end.

Definition co_trim (data : bytes) (trim_char : Z) (trim_flags : Z) : option bytes :=
  '(start, color_prefix) ←
    (if Z.testbit trim_flags 0
     then iter (trim_left_body data trim_char) (S (length data)) (data, None)
     else Some (data, None));
  e ← (if Z.testbit trim_flags 1
       then iter (trim_right_body trim_char) (S (length start)) (start, start)
       else Some []);
  let empty := (length start <=? length e)%nat in
  if empty && bool_decide (color_prefix = None) then Some []
  else
    let out := match color_prefix with
               | Some c => if negb empty then wp_safe_copy [] c else []
               | None => []
               end in
    Some (if negb empty then wp_safe_copy out (range start e) else out).

(** *** [co_compress] *)

Record compress_vars := { cp_p : bytes; cp_out : bytes; cp_in_run : bool }.

Definition compress_body (compress_char : Z) (v : compress_vars) : compress_vars + bytes :=
  if (0 <? length (cp_p v))%nat && (length (cp_out v) <? cap)%nat then
    let q := co_skip_color (cp_p v) in
    let out := if cp_in_run v then cp_out v else wp_safe_bytes (cp_out v) (range (cp_p v) q) in
    match q with
    | [] => inr out
    | c :: q' =>
        if is_trim compress_char c
        then inl {| cp_p := q'; cp_out := (if cp_in_run v then out else WP_SAFE out c); cp_in_run := true |}
        else
          let after := (co_visible_advance q 1).1 in
          inl {| cp_p := after; cp_out := wp_safe_bytes out (range q after); cp_in_run := false |}
    end
  else inr (cp_out v).

Definition co_compress (data : bytes) (compress_char : Z) : option bytes :=
  iter (compress_body compress_char) (S (length data))
    {| cp_p := data; cp_out := []; cp_in_run := false |}.

(** *** [co_lpos] *)

(** [snprintf("%zu")] *)
Fixpoint decimal (fuel : nat) (n : nat) : bytes :=
  match fuel with
  | O => []
  | S fuel' =>
      (if (n <? 10)%nat then [] else decimal fuel' (n / 10)) ++ [48 + Z.of_nat (n mod 10)]
  end.

Record lpos_vars := { lp_p : bytes; lp_out : bytes; lp_idx : nat; lp_first : bool }.

Definition lpos_body (pattern : Z) (v : lpos_vars) : lpos_vars + bytes :=
  match lp_p v with
  | [] => inr (lp_out v)
  | _ =>
      match co_skip_color (lp_p v) with
      | [] => inr (lp_out v)
      | c :: q' =>
          let hit := (c <? 128) && (c =? pattern) in
          let out := if hit
            then wp_safe_copy (if lp_first v then lp_out v else WP_SAFE (lp_out v) 32)
                   (decimal (S (lp_idx v)) (lp_idx v))
            else lp_out v in
          inl {| lp_p := (co_visible_advance (c :: q') 1).1; lp_out := out; lp_idx := S (lp_idx v);
                 lp_first := if hit then false else lp_first v |}
      end
  end.

Definition co_lpos (data : bytes) (pattern : Z) : option bytes :=
  iter (lpos_body pattern) (S (length data))
    {| lp_p := data; lp_out := []; lp_idx := 0; lp_first := true |}.

(** *** [co_member] *)

Fixpoint skip_spaces (p : bytes) : bytes :=
  match p with
  | c :: p' => if c =? 32 then skip_spaces p' else p
  | [] => []
  end.
(** [while (pe > p && pe[-1] == ' ') pe--;] *)
Definition drop_end_spaces (p : bytes) : bytes := rev (skip_spaces (rev p)).

Definition member_body (tplain : bytes) (delim : Z) (s : bytes * nat) : (bytes * nat) + nat :=
  let '(p, word_num) := s in
  let word_num := S word_num in
  let d := co_find_delim p delim in
  if bool_decide (co_strip_color (range p (or_pe d)) = tplain) then inr word_num
  else
    match d with
    | None => inr 0%nat
    | Some d => inl (if delim =? 32 then skip_spaces (tail d) else tail d, word_num)
    end.

Definition co_member (target data : bytes) (delim : Z) : option nat :=
  let tplain := co_strip_color target in
  let p := if delim =? 32 then drop_end_spaces (skip_spaces data) else data in
  iter (member_body tplain delim) (S (length p)) (p, 0%nat).

(** *** [co_trim_pattern] *)

(** [while (i < len && data[i] == pattern[i % plen]) i++;] from [i] on. *)
Fixpoint cycle_prefix (pattern p : bytes) (i : nat) : nat :=
  match p with
  | c :: p' => if c =? pattern !!! (i mod length pattern)%nat then cycle_prefix pattern p' (S i) else i
  | [] => i
  end.

(** The right loop, over the bytes before [end] in reverse, [dist] the pattern index. *)
Fixpoint cycle_suffix (pattern r : bytes) (dist : nat) : nat :=
  match r with
  | c :: r' =>
      if c =? pattern !!! dist
      then S (cycle_suffix pattern r' (if (0 <? dist)%nat then (dist - 1)%nat else (length pattern - 1)%nat))
      else 0%nat
  | [] => 0%nat
  end.

Definition co_trim_pattern (data pattern : bytes) (trim_flags : Z) : bytes :=
  if (length data =? 0)%nat || (length pattern =? 0)%nat then clamp data
  else
    let start := if Z.testbit trim_flags 0 then cycle_prefix pattern data 0 else 0%nat in
    let e := if Z.testbit trim_flags 1
      then (length data - cycle_suffix pattern (rev (drop start data)) (length pattern - 1))%nat
      else length data in
    if (e <=? start)%nat then []
    else take (if (LBUF_SIZE - 1 <? e - start)%nat then LBUF_SIZE - 1 else e - start)%nat (drop start data).

(** ** Trimming *)

Definition trimmed (tc : Z) (t : tok) : bool :=
  match t with TVis (c :: _) => is_trim tc c | _ => false end.

(** The list without the trimmed code points it starts, or ends, with. *)
Fixpoint ltrim (tc : Z) (V : list tok) : list tok :=
  match V with
  | t :: V' => if trimmed tc t then ltrim tc V' else V
  | [] => []
  end.
Definition rtrim (tc : Z) (V : list tok) : list tok := rev (ltrim tc (rev V)).

Definition all_trimmed (tc : Z) (V : list tok) : Prop := Forall (fun t => trimmed tc t = true) V.

Lemma ltrim_app tc A B : all_trimmed tc A -> ltrim tc (A ++ B) = ltrim tc B.
Proof. induction 1 as [|t A Ht H IH]; [done|]. cbn. by rewrite Ht. Qed.

Lemma ltrim_all tc A : all_trimmed tc A -> ltrim tc A = [].
Proof. intros H. rewrite <- (app_nil_r A). by rewrite ltrim_app. Qed.

Lemma rtrim_app tc A B : all_trimmed tc B -> (A = [] \/ exists A' t, A = A' ++ [t] /\ trimmed tc t = false) ->
  rtrim tc (A ++ B) = A.
Proof.
  intros HB HA. unfold rtrim. rewrite rev_app_distr, ltrim_app by (unfold all_trimmed; by rewrite <- Permutation_rev).
  destruct HA as [->|(A' & t & -> & Ht)]; [done|]. rewrite rev_app_distr. cbn. rewrite Ht.
  cbn. by rewrite rev_involutive.
Qed.

(** The visible token the pointer stands at after a colour skip. *)
Lemma skip_head us : wf us ->
  (skip_cols us = [] /\ co_skip_color (flatten us) = []) \/
  exists c b vs, skip_cols us = TVis (c :: b) :: vs /\ wf (TVis (c :: b) :: vs) /\
    co_skip_color (flatten us) = c :: b ++ flatten vs /\
    (co_visible_advance (c :: b ++ flatten vs) 1).1 = flatten vs.
Proof.
  intros Hw. rewrite co_skip_color_flatten by done. pose proof (skip_cols_wf us Hw) as Hw'.
  destruct (skip_cols_head us) as [->|(b & vs & E)]; [by left|right]. rewrite E in *.
  pose proof Hw' as Hv. apply wf_cons in Hv as [Ht _]. pose proof (tok_bytes_nonempty _ Ht).
  destruct b as [|c b]; [cbn in *; lia|]. exists c, b, vs. split_and!; [done|done|done|].
  change (c :: b ++ flatten vs) with (flatten (TVis (c :: b) :: vs)).
  rewrite co_visible_advance_flatten by done. cbn. by rewrite adv_0.
Qed.

Lemma trim_char_ascii tc c b : 0 <= tc <= 127 -> wf_tok (TVis (c :: b)) = true -> is_trim tc c = true -> b = [].
Proof.
  intros Htc Hw Ht.
  assert (Hc : 1 <= c <= 127 \/ c < 128).
  { right. unfold is_trim in Ht. destruct (tc =? 0); [|byte_hyps; lia].
    apply orb_prop in Ht as [Ht|Ht]; byte_hyps; lia. }
  cbn in Hw. destruct b as [|b1 [|b2 [|b3 [|b4 b]]]]; try done; exfalso; unfold visible, cont, in_rng in Hw; lia.
Qed.

Lemma trim_right_total tc us fuel : 0 <= tc <= 127 -> wf us -> (length (flatten us) < fuel)%nat ->
  exists keep rest, us = keep ++ rest /\
    iter (trim_right_body tc) fuel (flatten us, flatten us) = Some (flatten rest) /\
    strip keep = rtrim tc (strip us) /\ (keep = [] <-> all_trimmed tc (strip us)).
Proof.
  intros Htc Hw Hf.
  destruct (iter_total (trim_right_body tc)
    (fun s => exists keep pend vs, us = keep ++ pend ++ vs /\ s = (flatten vs, flatten (pend ++ vs)) /\
       all_trimmed tc (strip pend) /\ (keep = [] \/ exists k t, strip keep = k ++ [t] /\ trimmed tc t = false))
    (fun e => exists keep rest, us = keep ++ rest /\ e = flatten rest /\
       all_trimmed tc (strip rest) /\ (keep = [] \/ exists k t, strip keep = k ++ [t] /\ trimmed tc t = false))
    (fun s => length s.1)) with (fuel := fuel) (s := (flatten us, flatten us))
    as (e & -> & keep & rest & Eu & -> & Ht & Hk).
  - intros s (keep & pend & vs & Eu & -> & Ht & Hk). unfold trim_right_body.
    assert (Hwv : wf vs) by (rewrite Eu in Hw; apply wf_app in Hw as [_ Hw]; by apply wf_app in Hw as [_ Hw]).
    assert (Hend : skip_cols vs = [] -> exists keep0 rest, us = keep0 ++ rest /\ flatten (pend ++ vs) = flatten rest /\
       all_trimmed tc (strip rest) /\ (keep0 = [] \/ exists k t, strip keep0 = k ++ [t] /\ trimmed tc t = false)).
    { intros Hs. exists keep, (pend ++ vs). split_and!; [done|done| |done].
      by rewrite strip_app, (strip_cols vs Hs), app_nil_r. }
    destruct (flatten vs) as [|x y] eqn:Ef; [apply Hend; by apply flatten_eq_nil in Ef as ->|]. rewrite <- Ef.
    pose proof (lead_skip vs) as El. pose proof (skip_cols_le vs) as Hle.
    destruct (skip_head vs Hwv) as [[Hs ->]|(c & b & ws & Es & Hw' & -> & Ha)]; [by apply Hend|].
    rewrite Ha. cbn [fst]. rewrite Es in *. split.
    2: { rewrite flatten_cons, length_app in Hle. cbn in Hle |- *. lia. }
    destruct (is_trim tc c) eqn:Etr.
    + exists keep, (pend ++ lead vs ++ [TVis (c :: b)]), ws. split_and!; [|f_equal| |done].
      * rewrite Eu. rewrite <- El at 1. rewrite <- !app_assoc. done.
      * f_equal. rewrite <- El at 1. rewrite <- !app_assoc. done.
      * rewrite !strip_app, strip_vis. unfold all_trimmed. rewrite !Forall_app. split_and!; [done| |by repeat constructor].
        clear. induction vs as [|[v|v] vs IH]; cbn; [constructor|constructor|done].
    + exists (keep ++ pend ++ lead vs ++ [TVis (c :: b)]), [], ws. split_and!; [|done|constructor|].
      * rewrite Eu. rewrite <- El at 1. rewrite <- !app_assoc. done.
      * right. exists (strip (keep ++ pend ++ lead vs)), (TVis (c :: b)). split; [|done].
        rewrite !app_assoc, strip_app. done.
  - exists [], [], us. split_and!; [done|done|constructor|by left].
  - done.
  - exists keep, rest. split_and!; [done|done| |].
    + rewrite Eu, strip_app. symmetry. apply rtrim_app; [done|].
      destruct Hk as [->|(k & t & E & ?)]; [by left|right]. eauto.
    + split; [intros ->; by rewrite Eu|]. intros Hall. destruct Hk as [->|(k & t & E & Hnt)]; [done|exfalso].
      rewrite Eu, strip_app, E in Hall. unfold all_trimmed in Hall. rewrite !Forall_app, Forall_singleton in Hall.
      destruct Hall as [[_ Hall] _]. congruence.
Qed.

(** Where the left loop stops: at the first code point that is not trimmed, or, when there is
    none, at the end after a colour and at the beginning otherwise. *)
(** A run of colour, or none. *)
Definition colour_run (pref : option bytes) : Prop :=
  pref = None \/ exists cs, pref = Some (flatten cs) /\ wf cs /\ strip cs = [].

(** What the loop keeps, and what holds when it ends. *)
Definition trim_left_inv (tc : Z) (us : list tok) (s : bytes * option bytes) : Prop :=
  exists pre vs, us = pre ++ vs /\ s.1 = flatten vs /\ all_trimmed tc (strip pre) /\ colour_run s.2 /\
    (length (default [] s.2) + length (flatten vs) <= length (flatten us))%nat.

Definition trim_left_post (tc : Z) (us : list tok) (r : bytes * option bytes) : Prop :=
  colour_run r.2 /\
  (all_trimmed tc (strip us) /\ (r.1 = flatten us \/ r.1 = []) \/
   exists pre c b vs, us = pre ++ TVis (c :: b) :: vs /\ r.1 = flatten (TVis (c :: b) :: vs) /\
     is_trim tc c = false /\ all_trimmed tc (strip pre) /\
     (length (default [] r.2) + length r.1 <= length (flatten us))%nat).

Lemma strip_lead vs : strip (lead vs) = [].
Proof. induction vs as [|[v|v] vs IH]; cbn; [done|done|done]. Qed.

(** The colour run that the loop remembers when it passes the colour before a code point. *)
Lemma trim_left_run pref vs n : colour_run pref -> wf vs ->
  (length (flatten vs) <= n)%nat -> (length (default [] pref) + length (flatten vs) <= n)%nat ->
  let pref' := if (length (flatten (skip_cols vs)) <? length (flatten vs))%nat
               then Some (range (flatten vs) (flatten (skip_cols vs))) else pref in
  colour_run pref' /\ (length (default [] pref') + length (flatten (skip_cols vs)) <= n)%nat.
Proof.
  intros Hp Hw Hv Hn pref'. pose proof (lead_skip vs) as El.
  assert (Hwl : wf (lead vs)) by (rewrite <- El in Hw; by apply wf_app in Hw as [? _]).
  assert (Hlead : length (flatten vs) = (length (flatten (lead vs)) + length (flatten (skip_cols vs)))%nat)
    by (rewrite <- El at 1; by rewrite flatten_length_app).
  subst pref'. destruct (Nat.ltb_spec (length (flatten (skip_cols vs))) (length (flatten vs))); [|by split; [|lia]].
  assert (Er : range (flatten vs) (flatten (skip_cols vs)) = flatten (lead vs))
    by (rewrite <- El at 1; rewrite flatten_app; apply range_app).
  rewrite Er. split; [right; exists (lead vs); split_and!; auto using strip_lead|]. cbn. lia.
Qed.

Lemma trim_left_step tc us s : 0 <= tc <= 127 -> wf us -> trim_left_inv tc us s ->
  match trim_left_body (flatten us) tc s with
  | inl s' => trim_left_inv tc us s' /\ (length s'.1 < length s.1)%nat
  | inr r => trim_left_post tc us r
  end.
Proof.
  intros Htc Hw. destruct s as [p pref]. intros (pre & vs & Eu & Ep & Ht & Hp & Hlen).
  cbn [fst snd] in *. subst p. unfold trim_left_body.
  assert (Hwv : wf vs) by (rewrite Eu in Hw; by apply wf_app in Hw as [_ Hw]).
  destruct (flatten vs) as [|x y] eqn:Ef.
  { split; [done|]. left. split; [|by left]. apply flatten_eq_nil in Ef as ->; [|done]. by rewrite Eu, app_nil_r. }
  rewrite <- Ef in *. pose proof (lead_skip vs) as El. rewrite co_skip_color_flatten by done.
  pose proof (trim_left_run pref vs (length (flatten us)) Hp Hwv
    ltac:(rewrite Eu, flatten_length_app; lia) Hlen) as Hrun. cbn zeta in Hrun.
  set (pref' := if (length (flatten (skip_cols vs)) <? length (flatten vs))%nat then _ else pref) in *. clearbody pref'. destruct Hrun as [Hp1 Hp2]. pose proof (skip_cols_length vs Hwv) as Hlead.
  destruct (skip_cols_head vs) as [Es|(b & ws & Es)].
  { rewrite Es. split; [done|]. left. split; [|by right]. rewrite Eu, strip_app, (strip_cols vs Es). by rewrite app_nil_r. }
  pose proof (skip_cols_wf vs Hwv) as Hw'. rewrite Es in *. pose proof Hw' as Hv. apply wf_cons in Hv as [Htok Hws'].
  pose proof (tok_bytes_nonempty _ Htok) as Hne. destruct b as [|c b]; [cbn in Hne; lia|].
  rewrite flatten_cons in *. cbn [tok_bytes app] in *. destruct (is_trim tc c) eqn:Etr.
  - pose proof (trim_char_ascii tc c b Htc Htok Etr) as ->. cbn [app length] in *. split; [|cbn; lia].
    exists (pre ++ lead vs ++ [TVis [c]]), ws. cbn [fst snd]. split_and!; [|done| |done|lia].
    + rewrite Eu. rewrite <- El at 1. by rewrite <- !app_assoc.
    + rewrite !strip_app, strip_lead, strip_vis. unfold all_trimmed. rewrite Forall_app. split; [done|by repeat constructor].
  - split; [done|]. right. exists (pre ++ lead vs), c, b, ws. split_and!; [|done|done| |done].
    + rewrite Eu. rewrite <- El at 1. by rewrite <- !app_assoc.
    + by rewrite strip_app, strip_lead, app_nil_r.
Qed.

Lemma trim_left_total tc us fuel : 0 <= tc <= 127 -> wf us -> (length (flatten us) < fuel)%nat ->
  exists start pref, iter (trim_left_body (flatten us) tc) fuel (flatten us, None) = Some (start, pref) /\
    trim_left_post tc us (start, pref).
Proof.
  intros Htc Hw Hf.
  destruct (iter_total (trim_left_body (flatten us) tc) (trim_left_inv tc us) (trim_left_post tc us)
    (fun s => length s.1)) with (fuel := fuel) (s := (flatten us, @None bytes))
    as ([start pref] & -> & Hr); [by intros s; apply trim_left_step| |done|by exists start, pref].
  exists [], us. split_and!; [done|done|constructor|by left|done].
Qed.

Lemma rtrim_all tc V : all_trimmed tc V -> rtrim tc V = [].
Proof. intros H. change V with ([] ++ V). apply rtrim_app; [done|by left]. Qed.

(** The visible part of what [co_trim] writes once it has found its pointers. *)
Lemma trim_output pref keep rest :
  (pref = None \/ exists cs, pref = Some (flatten cs) /\ wf cs /\ strip cs = []) ->
  wf keep -> keep <> [] -> (length (default [] pref) + length (flatten keep) <= cap)%nat ->
  let start := flatten (keep ++ rest) in let e := flatten rest in
  let empty := (length start <=? length e)%nat in
  empty = false /\
  co_strip_color (wp_safe_copy (match pref with Some c => wp_safe_copy [] c | None => [] end) (range start e)) =
  flatten (strip keep).
Proof.
  intros Hp Hw Hne Hl. cbn zeta. rewrite flatten_app, range_app, length_app. split.
  { apply Nat.leb_gt. destruct keep as [|t keep]; [done|]. apply wf_cons in Hw as [Ht _].
    pose proof (tok_bytes_nonempty _ Ht). rewrite flatten_cons, length_app. lia. }
  destruct Hp as [->|(cs & -> & Hcs & Es)]; cbn in Hl.
  - rewrite wp_safe_copy_nil. apply strip_color_clamp; [done|lia].
  - rewrite wp_safe_copy_nil, wp_safe_copy_clamp, <- flatten_app.
    rewrite strip_color_clamp; [by rewrite strip_app, Es| |rewrite flatten_length_app; lia].
    by apply wf_app.
Qed.

(** Trimming the end of [us], after the colour run [pref]. *)
Lemma trim_right_out tc pref us : 0 <= tc <= 127 -> wf us -> (length (default [] pref) + length (flatten us) <= cap)%nat ->
  colour_run pref ->
  exists r, (e ← iter (trim_right_body tc) (S (length (flatten us))) (flatten us, flatten us);
    let empty := (length (flatten us) <=? length e)%nat in
    if empty && bool_decide (pref = None) then Some []
    else
      let out := match pref with Some c => if negb empty then wp_safe_copy [] c else [] | None => [] end in
      Some (if negb empty then wp_safe_copy out (range (flatten us) e) else out)) = Some r /\
    co_strip_color r = flatten (rtrim tc (strip us)).
Proof.
  intros Htc Hw Hl Hp.
  destruct (trim_right_total tc us (S (length (flatten us))) Htc Hw ltac:(lia)) as (keep & rest & -> & -> & Hk & Hnil).
  cbn [mbind option_bind]. cbn zeta. destruct (decide (keep = [])) as [->|Hne].
  - cbn [app]. rewrite Nat.leb_refl. cbn [negb andb]. exists []. split.
    + case_bool_decide as E; [done|]. by destruct pref.
    + rewrite rtrim_all by (by apply Hnil). done.
  - apply wf_app in Hw as [Hwk _]. rewrite flatten_length_app in Hl.
    destruct (trim_output pref keep rest Hp Hwk Hne ltac:(lia)) as [-> Hout]. cbn [negb andb].
    eexists. split; [done|]. rewrite <- Hk, <- Hout. done.
Qed.

(** on well-formed text [co_trim] terminates and removes from the visible text the
    trimmed characters at the end, at both ends, or at the start; trimming the start only
    is right when some character remains. *)
Theorem trim_spec tc ts : 0 <= tc <= 127 -> wf ts -> (length (flatten ts) <= cap)%nat ->
  let V := strip ts in
  (exists r, co_trim (flatten ts) tc 2 = Some r /\ co_strip_color r = flatten (rtrim tc V)) /\
  (exists r, co_trim (flatten ts) tc 3 = Some r /\ co_strip_color r = flatten (rtrim tc (ltrim tc V))) /\
  (ltrim tc V <> [] -> exists r, co_trim (flatten ts) tc 1 = Some r /\ co_strip_color r = flatten (ltrim tc V)).
Proof.
  intros Htc Hw Hl V. unfold co_trim. change (Z.testbit 2 0) with false. change (Z.testbit 2 1) with true.
  change (Z.testbit 3 0) with true. change (Z.testbit 3 1) with true.
  change (Z.testbit 1 0) with true. change (Z.testbit 1 1) with false. cbn iota.
  split_and!.
  - apply (trim_right_out tc None ts Htc Hw); [cbn; lia|by left].
  - destruct (trim_left_total tc ts (S (length (flatten ts))) Htc Hw ltac:(lia)) as (start & pref & -> & Hp & Hc); cbn [fst snd] in Hp, Hc.
    cbn [mbind option_bind]. destruct Hc as [[Hall [->| ->]]|(pre & c & b & vs & Et & -> & Hnt & Hpre & Hlen)].
    + pose proof (trim_right_total tc ts (S (length (flatten ts))) Htc Hw ltac:(lia)) as (keep & rest & Et & Ei & _ & Hnil).
      rewrite Ei. cbn [mbind option_bind]. cbn zeta. rewrite ltrim_all by done.
      apply Hnil in Hall. rewrite Hall in Et. cbn in Et. subst rest. rewrite Nat.leb_refl. cbn [andb negb].
      exists []. split; [|done]. case_bool_decide; [done|]. by destruct pref.
    + cbn. exists []. rewrite ltrim_all by done. split; [|done]. case_bool_decide; [done|]. by destruct pref.
    + rewrite Et in Hw. apply wf_app in Hw as [_ Hw].
      destruct (trim_right_out tc pref (TVis (c :: b) :: vs) Htc Hw ltac:(lia) Hp) as (r & Er & Hr). exists r. split; [exact Er|].
      rewrite Hr. subst V. rewrite Et, strip_app, ltrim_app, strip_vis by done. cbn [ltrim trimmed]. by rewrite Hnt.
  - intros Hne. destruct (trim_left_total tc ts (S (length (flatten ts))) Htc Hw ltac:(lia)) as (start & pref & -> & Hp & Hc); cbn [fst snd] in Hp, Hc.
    destruct Hc as [[Hall _]|(pre & c & b & vs & Et & -> & Hnt & Hpre & Hlen)].
    { exfalso. apply Hne. by apply ltrim_all. }
    cbn [mbind option_bind]. cbn zeta. rewrite Et in Hw. apply wf_app in Hw as [_ Hw].
    destruct (trim_output pref (TVis (c :: b) :: vs) [] Hp Hw ltac:(done)) as [He Hout].
    { lia. }
    rewrite app_nil_r in *. change (flatten []) with (@nil Z) in *. rewrite He. cbn [negb andb].
    eexists. split; [done|]. rewrite Hout. f_equal.
    subst V. rewrite Et, strip_app, ltrim_app, strip_vis by done. cbn [ltrim trimmed]. by rewrite Hnt.
Qed.

Lemma trim_left_only tc ts : 0 <= tc <= 127 -> wf ts -> Forall (fun t => is_vis t = true) ts ->
  all_trimmed tc ts -> co_trim (flatten ts) tc 1 = Some (clamp (flatten ts)).
Proof.
  intros Htc Hw Hv Ht. unfold co_trim. change (Z.testbit 1 0) with true. change (Z.testbit 1 1) with false. cbn iota.
  destruct (iter_total (trim_left_body (flatten ts) tc)
    (fun s => exists vs, wf vs /\ Forall (fun t => is_vis t = true) vs /\ all_trimmed tc vs /\ s = (flatten vs, None))
    (fun r => r = (flatten ts, None)) (fun s => length s.1))
    with (fuel := S (length (flatten ts))) (s := (flatten ts, @None bytes)) as (r & -> & ->);
    [|by exists ts|cbn; lia|].
  - clear Ht Hv Hw. intros s (vs & Hw & Hv & Ht & ->). unfold trim_left_body.
    destruct vs as [|[b|b] vs]; [done| |by apply Forall_cons in Hv as [? _]].
    apply wf_cons in Hw as [Htok Hw]. apply Forall_cons in Hv as [_ Hv]. apply Forall_cons in Ht as [Htr Ht].
    pose proof (tok_bytes_nonempty _ Htok) as Hne. destruct b as [|c b]; [done|]. cbn in Htr.
    pose proof (trim_char_ascii tc c b Htc Htok Htr) as ->.
    pose proof (co_skip_color_vis (TVis [c]) (flatten vs) Htok eq_refl) as Es. cbn [tok_bytes app] in Es.
    rewrite flatten_cons. cbn [tok_bytes app]. rewrite Es, Nat.ltb_irrefl, Htr. split; [by exists vs|cbn; lia].
  - cbn [mbind option_bind]. cbn zeta. rewrite range_nil.
    destruct (flatten ts) as [|x y]; cbn [length Nat.leb andb negb]; [by rewrite bool_decide_true, clamp_nil|].
    by rewrite wp_safe_copy_nil.
Qed.

(** ** [co_compress] *)

(** The tokens of the squeezed text: after a squeezed character further ones and every colour
    are dropped until another visible code point comes. *)
Fixpoint squeezed (cc : Z) (run : bool) (ts : list tok) : list tok :=
  match ts with
  | [] => []
  | TCol b :: ts' => (if run then [] else [TCol b]) ++ squeezed cc run ts'
  | t :: ts' =>
      if trimmed cc t then (if run then [] else [t]) ++ squeezed cc true ts'
      else t :: squeezed cc false ts'
  end.

(** The list with every run of squeezed code points reduced to its first. *)
Fixpoint squeeze (cc : Z) (run : bool) (V : list tok) : list tok :=
  match V with
  | [] => []
  | t :: V' =>
      if trimmed cc t then (if run then [] else [t]) ++ squeeze cc true V'
      else t :: squeeze cc false V'
  end.

Lemma strip_squeezed cc run ts : strip (squeezed cc run ts) = squeeze cc run (strip ts).
Proof.
  revert run. induction ts as [|[b|b] ts IH]; intros run; [done| |]; cbn [squeezed].
  - rewrite strip_vis. cbn [squeeze]. destruct (trimmed cc (TVis b)).
    + rewrite strip_app, IH. by destruct run.
    + by rewrite strip_vis, IH.
  - rewrite strip_app, IH, strip_col. by destruct run.
Qed.

Lemma squeezed_cols cc run ts :
  squeezed cc run ts = (if run then [] else lead ts) ++ squeezed cc run (skip_cols ts).
Proof.
  induction ts as [|[b|b] ts IH]; cbn [squeezed lead skip_cols]; [by destruct run|by destruct run|].
  rewrite IH. by destruct run.
Qed.

Lemma compress_flatten cc ts : 0 <= cc <= 127 -> wf ts ->
  co_compress (flatten ts) cc = Some (clamp (flatten (squeezed cc false ts))).
Proof.
  intros Hcc Hw. unfold co_compress. set (T := clamp (flatten (squeezed cc false ts))).
  destruct (iter_total (compress_body cc)
    (fun v => exists us O, wf us /\ cp_p v = flatten us /\ cp_out v = clamp O /\
       clamp (O ++ flatten (squeezed cc (cp_in_run v) us)) = T)
    (fun r => r = T) (fun v => length (cp_p v))) with (fuel := S (length (flatten ts)))
    (s := {| cp_p := flatten ts; cp_out := []; cp_in_run := false |}) as (r & -> & ->); [| |cbn; lia|done].
  2: { exists ts, []. by rewrite clamp_nil. }
  clearbody T. clear Hw. clear ts. intros [p out run] (us & O & Hw & Ep & Eo & HT). cbn in Ep, Eo, HT. subst p out.
  unfold compress_body. cbn [cp_p cp_out cp_in_run].
  destruct (Nat.ltb_spec (length (clamp O)) cap) as [Hc|Hc].
  2: { rewrite andb_false_r. rewrite <- HT. symmetry. by apply clamp_full. }
  destruct (Nat.ltb_spec 0 (length (flatten us))) as [Hp|Hp]; cbn [andb].
  2: { assert (us = []) as -> by (apply flatten_eq_nil; [done|]; destruct (flatten us); [done|cbn in Hp; lia]).
       cbn in HT. by rewrite app_nil_r in HT. }
  pose proof (lead_skip us) as El. rewrite squeezed_cols, flatten_app in HT. pose proof (skip_cols_le us) as Hle.
  assert (Eout : (if run then clamp O else wp_safe_bytes (clamp O) (range (flatten us) (co_skip_color (flatten us)))) =
                 clamp (O ++ flatten (if run then [] else lead us))).
  { destruct run; [cbn; by rewrite app_nil_r|]. rewrite co_skip_color_flatten, wp_safe_bytes_clamp by done.
    do 2 f_equal. rewrite <- El at 1. rewrite flatten_app. apply range_app. }
  rewrite Eout. set (O' := O ++ flatten (if run then [] else lead us)) in *. rewrite app_assoc in HT. fold O' in HT.
  destruct (skip_head us Hw) as [[Es ->]|(c & b & vs & Es & Hw' & -> & Ha)].
  { rewrite Es in HT. cbn in HT. by rewrite app_nil_r in HT. }
  rewrite Es in HT, Hle. cbn [squeezed] in HT. cbn [trimmed] in HT. rewrite flatten_cons, length_app in Hle.
  apply wf_cons in Hw' as [Htok Hws]. cbn [tok_bytes] in Hle.
  destruct (is_trim cc c) eqn:Etr.
  - pose proof (trim_char_ascii cc c b Hcc Htok Etr) as ->. cbn [app] in *. cbn [length cp_p] in *. split; [|lia].
    exists vs. rewrite flatten_app in HT. destruct run; cbn [cp_out cp_in_run].
    + exists O'. by split_and!.
    + exists (O' ++ [c]). rewrite WP_SAFE_clamp. split_and!; [done|done|done|]. rewrite <- HT.
      by rewrite <- app_assoc.
  - rewrite Ha. cbn [cp_p cp_out cp_in_run]. split; [|cbn in Hle; lia].
    exists vs, (O' ++ c :: b). change (c :: b ++ flatten vs) with ((c :: b) ++ flatten vs).
    rewrite range_app, wp_safe_bytes_clamp. split_and!; [done|done|done|].
    rewrite <- HT, flatten_cons. by rewrite <- app_assoc.
Qed.

(** ** [co_lpos] *)

(** The decimal digits denote the number. *)
Lemma decimal_value fuel n : (n < fuel)%nat ->
  foldl (fun a d => 10 * a + (d - 48)) 0 (decimal fuel n) = Z.of_nat n.
Proof.
  revert n. induction fuel as [|fuel IH]; intros n Hn; [lia|]. cbn [decimal]. rewrite foldl_app. cbn [foldl].
  pose proof (Nat.div_mod_eq n 10). destruct (Nat.ltb_spec n 10) as [Hlt|Hge].
  - cbn [foldl]. rewrite Nat.mod_small by done. lia.
  - rewrite IH; [lia|]. pose proof (Nat.div_lt n 10). lia.
Qed.

(** The positions of a code point in a list, counted from [k]. *)
Fixpoint positions_of (t : tok) (k : nat) (V : list tok) : list nat :=
  match V with
  | [] => []
  | v :: V' => (if decide (v = t) then [k] else []) ++ positions_of t (S k) V'
  end.

Definition number (n : nat) : bytes := decimal (S n) n.

Lemma lpos_flatten pat ts : 0 <= pat <= 127 -> wf ts ->
  co_lpos (flatten ts) pat =
  Some (clamp (emit 32 false (map number (positions_of (TVis [pat]) 0 (strip ts))))).
Proof.
  intros Hpat Hw. unfold co_lpos. set (T := clamp _).
  destruct (iter_total (lpos_body pat)
    (fun v => exists us O, wf us /\ lp_p v = flatten us /\ lp_out v = clamp O /\
       clamp (O ++ emit 32 (negb (lp_first v)) (map number (positions_of (TVis [pat]) (lp_idx v) (strip us)))) = T)
    (fun r => r = T) (fun v => length (lp_p v))) with (fuel := S (length (flatten ts)))
    (s := {| lp_p := flatten ts; lp_out := []; lp_idx := 0; lp_first := true |}) as (r & -> & ->); [| |cbn; lia|done].
  2: { exists ts, []. by rewrite clamp_nil. }
  clearbody T. clear Hw. clear ts. intros [p out i first] (us & O & Hw & Ep & Eo & HT).
  cbn in Ep, Eo, HT. subst p out. unfold lpos_body. cbn [lp_p lp_out lp_idx lp_first].
  assert (Hend : skip_cols us = [] -> clamp O = T).
  { intros E. rewrite <- HT, (strip_cols us E). cbn. by rewrite app_nil_r. }
  destruct (flatten us) as [|x y] eqn:Ef; [apply Hend; apply flatten_eq_nil in Ef as ->; done|]. rewrite <- Ef.
  pose proof (skip_cols_le us) as Hle. rewrite <- strip_skip_cols in HT.
  destruct (skip_head us Hw) as [[Es ->]|(c & b & vs & Es & Hw' & -> & Ha)]; [by apply Hend|].
  rewrite Es in HT, Hle. rewrite strip_vis in HT. rewrite flatten_cons, length_app in Hle.
  apply wf_cons in Hw' as [Htok Hws]. rewrite Ha. cbn [lp_p lp_out lp_idx lp_first]. split; [|cbn in Hle; lia].
  exists vs.
  assert (Hhit : (c <? 128) && (c =? pat) = bool_decide (TVis (c :: b) = TVis [pat])).
  { case_bool_decide as E.
    - injection E as -> ->. rewrite Z.eqb_refl, (proj2 (Z.ltb_lt _ _)) by lia. done.
    - destruct (Z.ltb_spec c 128), (Z.eqb_spec c pat) as [->|]; try done. exfalso. apply E.
      cbn in Htok. destruct b as [|b1 [|b2 [|b3 [|b4 b]]]]; try done; unfold visible, cont, in_rng in Htok; lia. }
  rewrite Hhit. cbn [positions_of] in HT. case_bool_decide as E; cbn [andb].
  - rewrite decide_True in HT by done. cbn [app map emit] in HT.
    exists (O ++ (if negb first then [32] else []) ++ number i). split_and!; [done|done| |].
    + destruct first; cbn [negb]; rewrite ?WP_SAFE_clamp, wp_safe_copy_clamp; by rewrite <- ?app_assoc.
    + rewrite <- HT, <- !app_assoc. done.
  - rewrite decide_False in HT by done. exists O. by split_and!.
Qed.

(** ** [co_member] *)

(** The 1-based index of the first word with the plain text [tplain], 0 if there is none; [k]
    words came before. *)
Fixpoint word_index (tplain : bytes) (k : nat) (ws : list bytes) : nat :=
  match ws with
  | [] => 0
  | w :: ws' => if bool_decide (co_strip_color w = tplain) then S k else word_index tplain (S k) ws'
  end.

Lemma member_flatten target ts d : wf ts -> 1 <= d <= 127 -> d <> 32 ->
  co_member target (flatten ts) d =
  Some (word_index (co_strip_color target) 0 (map flatten (segs d ts))).
Proof.
  intros Hw Hd Hne. unfold co_member. apply Z.eqb_neq in Hne. rewrite Hne. set (tp := co_strip_color target).
  destruct (iter_total (member_body tp d)
    (fun s => exists us, wf us /\ s.1 = flatten us /\
       word_index tp s.2 (map flatten (segs d us)) = word_index tp 0 (map flatten (segs d ts)))
    (fun r => r = word_index tp 0 (map flatten (segs d ts))) (fun s => length s.1))
    with (fuel := S (length (flatten ts))) (s := (flatten ts, 0%nat)) as (r & -> & ->);
    [|by exists ts|cbn; lia|done].
  intros [p k] (us & Hu & Ep & HT). cbn in Ep, HT. subst p. unfold member_body.
  rewrite co_find_delim_flatten by done. destruct (cut d us) as [[l r]|] eqn:Hc; cbn [fmap option_fmap option_map or_pe snd].
  - rewrite (segs_some _ _ _ _ Hc) in HT. cbn [map word_index] in HT.
    assert (Er : range (flatten us) (d :: flatten r) = flatten l).
    { apply cut_spec in Hc. rewrite Hc. by rewrite flatten_app, flatten_cons, range_app. }
    rewrite Er. case_bool_decide; [done|]. rewrite Hne.
    cbn [tail fst]. split; [|by eapply cut_length]. exists r. split_and!; [|done|done]. by eapply wf_cut.
  - rewrite (segs_none _ _ Hc) in HT. cbn [map word_index] in HT. rewrite range_nil. by case_bool_decide.
Qed.

(** ** Properties *)

(** Trimming the start only leaves a text that consists of trimmed characters as it is,
    although all of them are to be trimmed. *)
Theorem trim_left_keeps_blank tc ts : 0 <= tc <= 127 -> wf ts -> Forall (fun t => is_vis t = true) ts ->
  Forall (fun t => trimmed tc t = true) ts -> co_trim (flatten ts) tc 1 = Some (clamp (flatten ts)).
Proof. apply trim_left_only. Qed.

(** [co_compress] terminates on well-formed text and the visible part of its result has
    every run of the squeezed characters reduced to its first. *)
Theorem compress_spec cc ts : 0 <= cc <= 127 -> wf ts ->
  exists vs, co_compress (flatten ts) cc = Some (clamp (flatten vs)) /\
    strip vs = squeeze cc false (strip ts).
Proof.
  intros Hcc Hw. exists (squeezed cc false ts). split; [by apply compress_flatten|apply strip_squeezed].
Qed.

(** [co_lpos] terminates on well-formed text and writes, separated by spaces, the
    0-based visible positions of the pattern in increasing order, as decimal numbers. *)
Theorem lpos_spec pat ts : 0 <= pat <= 127 -> wf ts ->
  co_lpos (flatten ts) pat =
    Some (clamp (emit 32 false (map number (positions_of (TVis [pat]) 0 (strip ts))))) /\
  (forall n, foldl (fun a d => 10 * a + (d - 48)) 0 (number n) = Z.of_nat n).
Proof.
  intros Hp Hw. split; [by apply lpos_flatten|]. intros n. apply decimal_value. lia.
Qed.

(** for a delimiter other than a space, [co_member] returns the 1-based index of the
    first word of the list equal to the target, colour aside, and 0 if there is none. *)
Theorem member_spec target ts d : wf ts -> 1 <= d <= 127 -> d <> 32 ->
  co_member target (flatten ts) d =
  Some (word_index (co_strip_color target) 0 (map flatten (words d ts))).
Proof.
  intros Hw Hd Hne. rewrite member_flatten by done. unfold words. by apply Z.eqb_neq in Hne as ->.
Qed.
End Trim.

(** "  a b ", two spaces, and "a<red>  <green>b". *)
Definition sample_blanks : list tok := [TVis [32]; TVis [32]; TVis [97]; TVis [32]; TVis [98]; TVis [32]].
Definition sample_runs : list tok :=
  [TVis [97]; TCol [239; 152; 129]; TVis [32]; TVis [32]; TCol [239; 152; 130]; TVis [98]].

Lemma trim_spec_witness :
  exists r, co_trim (cfg := default_config) (flatten sample_blanks) 32 3 = Some r /\
    co_strip_color (cfg := default_config) r = flatten (rtrim 32 (ltrim 32 (strip sample_blanks))).
Proof.
  exact (proj1 (proj2 (trim_spec (cfg := default_config) 32 sample_blanks ltac:(lia) ltac:(repeat constructor)
    ltac:(apply Nat.leb_le; vm_compute; reflexivity)))).
Defined.

Lemma trim_left_keeps_blank_witness :
  co_trim (cfg := default_config) (flatten [TVis [32]; TVis [32]]) 32 1 = Some [32; 32].
Proof.
  rewrite (trim_left_keeps_blank (cfg := default_config) 32 [TVis [32]; TVis [32]]
    ltac:(lia) ltac:(repeat constructor) ltac:(repeat constructor) ltac:(repeat constructor)).
  vm_compute. reflexivity.
Defined.

(** The green that precedes "b" is lost: "b" is shown red. *)
Lemma compress_spec_witness :
  (exists vs, co_compress (cfg := default_config) (flatten sample_runs) 32 = Some (clamp (cfg := default_config) (flatten vs)) /\
    strip vs = squeeze 32 false (strip sample_runs)) /\
  co_compress (cfg := default_config) (flatten sample_runs) 32 =
    Some (flatten [TVis [97]; TCol [239; 152; 129]; TVis [32]; TVis [98]]).
Proof.
  split; [|vm_compute; reflexivity]. apply compress_spec; [lia | repeat constructor].
Defined.

Lemma lpos_spec_witness :
  co_lpos (cfg := default_config) (flatten sample_blanks) 32 = Some [48; 32; 49; 32; 51; 32; 53].
Proof.
  rewrite (proj1 (lpos_spec (cfg := default_config) 32 sample_blanks ltac:(lia) ltac:(repeat constructor))).
  vm_compute. reflexivity.
Defined.

Lemma member_spec_witness :
  co_member (cfg := default_config) [98] (flatten [TVis [97]; TVis [124]; TCol [239; 152; 129]; TVis [98]]) 124 = Some 2%nat.
Proof.
  rewrite (member_spec (cfg := default_config) [98] [TVis [97]; TVis [124]; TCol [239; 152; 129]; TVis [98]] 124
    ltac:(repeat constructor) ltac:(lia) ltac:(lia)).
  vm_compute. reflexivity.
Defined.
