(* ===== verification/Sorting.v ===== *)
(** * The sorting interface and the Shellsort of the rv64 runtime

    [color_ops.c] sorts with [qsort].  The C library's is not in the repository: [Sorter] is
    the operation and [SorterLaws] the promise of the C standard, against which [SortSets]
    is proved.  The freestanding rv64 build links the [qsort] of [rv64/src/softlib.c], a
    Shellsort; it is modelled here and shown to keep the promise. *)

From S2P Require Import Prelude.
From Stdlib Require Import Sorting.Sorted.

(** ** The interface *)

(** A comparison function is a total preorder given by the sign of an [int]. *)
Class CmpOrder {E} (cmp : E -> E -> Z) : Prop := {
  cmp_refl x : cmp x x = 0;
  cmp_opp x y : cmp x y < 0 <-> 0 < cmp y x;
  cmp_trans x y z : cmp x y <= 0 -> cmp y z <= 0 -> cmp x z <= 0
}.

Definition sorted {E} (cmp : E -> E -> Z) : list E -> Prop := StronglySorted (fun x y => cmp x y <= 0).

Lemma sorted_cons {E} (cmp : E -> E -> Z) x l :
  sorted cmp (x :: l) <-> sorted cmp l /\ Forall (fun y => cmp x y <= 0) l.
Proof. split; [apply StronglySorted_inv|]. intros [? ?]. by apply SSorted_cons. Qed.

Lemma sorted_snoc {E} (cmp : E -> E -> Z) l x :
  sorted cmp (l ++ [x]) <-> sorted cmp l /\ Forall (fun y => cmp y x <= 0) l.
Proof.
  induction l as [|z l IH]; cbn [app]; rewrite ?sorted_cons.
  - split; intros _; (split; constructor) || (split; constructor).
  - rewrite IH, Forall_app, !Forall_cons, Forall_nil. tauto.
Qed.

Class Sorter := qsort : forall {E : Type}, (E -> E -> Z) -> list E -> list E.

Class SorterLaws (S : Sorter) : Prop := {
  qsort_perm {E} (cmp : E -> E -> Z) l : qsort cmp l ≡ₚ l;
  qsort_sorted {E} (cmp : E -> E -> Z) l : CmpOrder cmp -> sorted cmp (qsort cmp l)
}.

Section Order.
Context {E : Type} (cmp : E -> E -> Z) {Ho : CmpOrder cmp}.

Lemma cmp_flip x y : 0 < cmp x y <-> cmp y x < 0.
Proof. symmetry. apply cmp_opp. Qed.

Lemma cmp_eq_sym x y : cmp x y = 0 <-> cmp y x = 0.
Proof. pose proof (cmp_opp x y). pose proof (cmp_opp y x). lia. Qed.

Lemma cmp_le_flip x y : cmp x y <= 0 <-> 0 <= cmp y x.
Proof. pose proof (cmp_opp y x). lia. Qed.

Lemma cmp_lt_le_trans x y z : cmp x y < 0 -> cmp y z <= 0 -> cmp x z < 0.
Proof.
  intros H1 H2. pose proof (cmp_trans (cmp:=cmp) x y z ltac:(lia) H2) as H3.
  destruct (Z.eq_dec (cmp x z) 0) as [E0|]; [exfalso|lia].
  pose proof (proj1 (cmp_eq_sym x z) E0). pose proof (cmp_trans (cmp:=cmp) y z x H2 ltac:(lia)) as H4.
  pose proof (proj1 (cmp_le_flip y x) H4). lia.
Qed.

Lemma cmp_le_lt_trans x y z : cmp x y <= 0 -> cmp y z < 0 -> cmp x z < 0.
Proof.
  intros H1 H2. pose proof (cmp_trans (cmp:=cmp) x y z H1 ltac:(lia)) as H3.
  destruct (Z.eq_dec (cmp x z) 0) as [E0|]; [exfalso|lia].
  pose proof (proj1 (cmp_eq_sym x z) E0). pose proof (cmp_trans (cmp:=cmp) z x y ltac:(lia) H1) as H4.
  pose proof (proj1 (cmp_le_flip z y) H4). lia.
Qed.

Lemma cmp_eq_l x y z : cmp x y = 0 -> cmp x z = 0 <-> cmp y z = 0.
Proof.
  assert (H : forall x y, cmp x y = 0 -> cmp x z = 0 -> cmp y z = 0).
  { clear x y. intros x y Hxy Hxz.
    pose proof (proj1 (cmp_eq_sym x y) Hxy). pose proof (proj1 (cmp_eq_sym x z) Hxz).
    pose proof (cmp_trans (cmp:=cmp) y x z ltac:(lia) ltac:(lia)).
    pose proof (cmp_trans (cmp:=cmp) z x y ltac:(lia) ltac:(lia)) as Hzy.
    pose proof (proj1 (cmp_le_flip z y) Hzy). lia. }
  intros Hxy. split; apply H; [done|]. by apply cmp_eq_sym.
Qed.
End Order.

(** ** Shellsort *)

Section Shell.
Context {E : Type} (compar : E -> E -> Z).

(** [memswap] of the elements [i] and [j]. *)
Definition memswap (b : list E) (i j : nat) : list E :=
  match b !! i, b !! j with
  | Some x, Some y => <[i := y]> (<[j := x]> b)
  | _, _ => b
  end.

(** The inner loop from [j]. *)
Fixpoint sift (fuel gap j : nat) (b : list E) : list E :=
  match fuel with
  | O => b
  | S fuel' =>
      match b !! j, b !! (j - gap)%nat with
      | Some x, Some y =>
          if (gap <=? j)%nat && (compar x y <? 0)
          then sift fuel' gap (j - gap) (memswap b j (j - gap))
          else b
      | _, _ => b
      end
  end.

(** [for (i = gap; i < nmemb; i++)] *)
Definition shell_pass (gap : nat) (b : list E) : list E :=
  fold_left (fun b i => sift (S i) gap i b) (seq gap (length b - gap)) b.

(** [while (gap < nmemb / 3) gap = gap * 3 + 1;] *)
Fixpoint gap_up (fuel limit gap : nat) : nat :=
  match fuel with
  | O => gap
  | S fuel' => if (gap <? limit)%nat then gap_up fuel' limit (gap * 3 + 1) else gap
  end.

(** [while (gap >= 1) { ...; gap /= 3; }] *)
Fixpoint shell_loop (fuel gap : nat) (b : list E) : list E :=
  match fuel with
  | O => b
  | S fuel' => if (1 <=? gap)%nat then shell_loop fuel' (gap / 3) (shell_pass gap b) else b
  end.

Definition shellsort (b : list E) : list E :=
  let nmemb := length b in
  let gap := gap_up (S nmemb) (nmemb / 3) 1 in
  shell_loop (S gap) gap b.

(** *** Permutation *)

Lemma memswap_perm b i j : memswap b i j ≡ₚ b.
Proof.
  unfold memswap. destruct (b !! i) as [x|] eqn:Ei; [|done]. destruct (b !! j) as [y|] eqn:Ej; [|done].
  by apply Permutation_insert_swap.
Qed.

Lemma sift_perm fuel gap j b : sift fuel gap j b ≡ₚ b.
Proof.
  revert j b. induction fuel as [|fuel IH]; intros j b; [done|]. cbn.
  destruct (b !! j); [|done]. destruct (b !! (j - gap)%nat); [|done]. destruct (_ && _); [|done].
  by rewrite IH, memswap_perm.
Qed.

Lemma shell_pass_perm gap b : shell_pass gap b ≡ₚ b.
Proof.
  unfold shell_pass. generalize (seq gap (length b - gap)). intros l. revert b.
  induction l as [|i l IH]; intros b; cbn [fold_left]; [done|]. by rewrite IH, sift_perm.
Qed.

Lemma shell_loop_perm fuel gap b : shell_loop fuel gap b ≡ₚ b.
Proof.
  revert gap b. induction fuel as [|fuel IH]; intros gap b; [done|]. cbn [shell_loop].
  destruct (1 <=? gap)%nat; [|done]. by rewrite IH, shell_pass_perm.
Qed.

(** *** The gap sequence *)

(** The gaps 1, 4, 13, 40, ... *)
Inductive knuth : nat -> Prop :=
  | knuth_1 : knuth 1
  | knuth_next g : knuth g -> knuth (g * 3 + 1).

Lemma gap_up_knuth fuel limit gap : knuth gap -> knuth (gap_up fuel limit gap).
Proof.
  revert gap. induction fuel as [|fuel IH]; intros gap H; [done|]. cbn [gap_up].
  destruct (gap <? limit)%nat; [|done]. apply IH. by constructor.
Qed.

(** The fuel is enough: the first loop ends because the gap reaches the limit. *)
Lemma gap_up_limit fuel limit gap : (1 <= gap)%nat -> (limit <= gap + fuel)%nat ->
  (limit <= gap_up fuel limit gap)%nat.
Proof.
  revert gap. induction fuel as [|fuel IH]; intros gap H1 H2; cbn [gap_up]; [lia|].
  destruct (Nat.ltb_spec gap limit); [|done]. apply IH; lia.
Qed.

(** The last pass of the loop has gap 1. *)
Lemma shell_loop_last fuel gap b : knuth gap -> (gap < fuel)%nat ->
  exists b', b' ≡ₚ b /\ shell_loop fuel gap b = shell_pass 1 b'.
Proof.
  revert gap b. induction fuel as [|fuel IH]; intros gap b Hk Hf; [lia|]. cbn [shell_loop].
  destruct Hk as [|g Hk].
  - cbn [Nat.leb]. exists b. split; [done|]. change (1 / 3)%nat with 0%nat. by destruct fuel.
  - replace (1 <=? g * 3 + 1)%nat with true by (symmetry; apply Nat.leb_le; lia).
    replace ((g * 3 + 1) / 3)%nat with g by (apply Nat.div_unique with 1%nat; lia).
    destruct (IH g (shell_pass (g * 3 + 1) b) Hk ltac:(lia)) as (b' & Hb & ->).
    exists b'. split; [|done]. by rewrite Hb, shell_pass_perm.
Qed.

(** *** The pass with gap 1 is an insertion sort *)

Context {Ho : CmpOrder compar}.

Lemma lookup_mid (l : list E) x r n : n = length l -> (l ++ x :: r) !! n = Some x.
Proof. intros ->. by apply list_lookup_middle. Qed.

Lemma memswap_mid (l : list E) x y r :
  memswap (l ++ x :: y :: r) (S (length l)) (length l) = l ++ y :: x :: r.
Proof.
  unfold memswap.
  assert (E1 : (l ++ x :: y :: r) !! S (length l) = Some y).
  { change (l ++ x :: y :: r) with (l ++ [x] ++ y :: r). rewrite app_assoc. apply lookup_mid.
    rewrite length_app. cbn. lia. }
  rewrite E1, lookup_mid by done. rewrite insert_app_r_alt, Nat.sub_diag by lia. cbn.
  rewrite insert_app_r_alt by lia. by replace (S (length l) - length l)%nat with 1%nat by lia.
Qed.

(** The element at the end of a sorted prefix sinks to its place. *)
Lemma sift_insert fuel l x post : (length l < fuel)%nat -> sorted compar l ->
  exists l', sift fuel 1 (length l) (l ++ x :: post) = l' ++ post /\ sorted compar l' /\ l' ≡ₚ l ++ [x].
Proof.
  revert fuel post. induction l as [|y l IH] using rev_ind; intros fuel post Hf Hs.
  { exists [x]. destruct fuel as [|fuel]; [lia|]. split; [|split; [by repeat constructor|done]].
    cbn. by destruct (compar x x <? 0). }
  destruct fuel as [|fuel]; [lia|]. rewrite length_app, Nat.add_1_r in *. cbn [sift].
  rewrite <- app_assoc. cbn [app Nat.sub]. rewrite Nat.sub_0_r.
  assert (E1 : (l ++ y :: x :: post) !! S (length l) = Some x).
  { change (l ++ y :: x :: post) with (l ++ [y] ++ x :: post). rewrite app_assoc. apply lookup_mid.
    rewrite length_app. cbn. lia. }
  rewrite E1, lookup_mid by done. cbn [Nat.leb andb].
  destruct (Z.ltb_spec (compar x y) 0) as [Hlt|Hge].
  - rewrite memswap_mid.
    apply sorted_snoc in Hs as Hs'.
    destruct Hs' as [Hs' Hy]. destruct (IH fuel (y :: post) ltac:(lia) Hs') as (l' & -> & Hl' & Hp).
    exists (l' ++ [y]). split_and!; [by rewrite <- app_assoc| |].
    + apply sorted_snoc. split; [done|]. rewrite Hp. apply Forall_app.
      split; [done|]. constructor; [lia|constructor].
    + rewrite Hp. rewrite <- !app_assoc. cbn. apply Permutation_app_head, Permutation_swap.
  - exists ((l ++ [y]) ++ [x]). split_and!; [by rewrite <- !app_assoc| |done].
    assert (Hx : compar y x <= 0) by (apply (cmp_le_flip compar); lia).
    apply sorted_snoc. split; [done|]. apply sorted_snoc in Hs as [_ Hy].
    apply Forall_app. split; [|by repeat constructor]. eapply Forall_impl; [exact Hy|].
    intros z Hz. by apply (cmp_trans (cmp := compar) z y x).
Qed.

Lemma shell_pass_sorts b : sorted compar (shell_pass 1 b).
Proof.
  unfold shell_pass.
  assert (H : forall rest l, sorted compar l ->
    exists r, fold_left (fun b i => sift (S i) 1 i b) (seq (length l) (length rest)) (l ++ rest) = r /\ sorted compar r).
  { induction rest as [|x rest IH]; intros l Hs; cbn [length seq fold_left].
    - rewrite app_nil_r. eauto.
    - destruct (sift_insert (S (length l)) l x rest ltac:(lia) Hs) as (l' & -> & Hs' & Hp).
      assert (El : length l' = S (length l)) by (rewrite Hp, length_app; cbn; lia).
      rewrite <- El. by apply IH. }
  destruct b as [|x b]; [constructor|]. cbn [length]. rewrite Nat.sub_succ, Nat.sub_0_r.
  destruct (H b [x]) as (r & Er & Hr); [repeat constructor|].
  change (length [x]) with 1%nat in Er. change ([x] ++ b) with (x :: b) in Er. by rewrite Er.
Qed.
End Shell.

(** ** The instance *)

#[export] Instance shell_sorter : Sorter := @shellsort.

Lemma shellsort_perm {E} (cmp : E -> E -> Z) l : shellsort cmp l ≡ₚ l.
Proof. apply shell_loop_perm. Qed.

Lemma shellsort_sorted {E} (cmp : E -> E -> Z) l : CmpOrder cmp -> sorted cmp (shellsort cmp l).
Proof.
  intros Ho. unfold shellsort.
  destruct (shell_loop_last cmp (S (gap_up (S (length l)) (length l / 3) 1)) (gap_up (S (length l)) (length l / 3) 1) l)
    as (b' & _ & ->); [apply gap_up_knuth, knuth_1|lia|]. by apply shell_pass_sorts.
Qed.

#[export] Instance shell_laws : SorterLaws shell_sorter.
Proof. split; intros; [apply shellsort_perm|by apply shellsort_sorted]. Qed.

(** ** The property *)

(** the [qsort] of the freestanding runtime keeps the contract of the C library's: for
    every comparison that is a total preorder it leaves the array sorted, for every
    comparison at all it leaves the same elements, and its gap sequence ends with a pass of
    gap 1. *)
Theorem shellsort_spec {E} (cmp : E -> E -> Z) b :
  shellsort cmp b ≡ₚ b /\ (CmpOrder cmp -> sorted cmp (shellsort cmp b)) /\
  (exists b', b' ≡ₚ b /\ shellsort cmp b = shell_pass cmp 1 b').
Proof.
  split; [apply shellsort_perm|]. split; [apply shellsort_sorted|]. unfold shellsort.
  destruct (shell_loop_last cmp (S (gap_up (S (length b)) (length b / 3) 1)) (gap_up (S (length b)) (length b / 3) 1) b)
    as (b' & Hp & ->); [apply gap_up_knuth, knuth_1|lia|]. by exists b'.
Qed.

#[local] Instance sub_order : CmpOrder Z.sub.
Proof. split; lia. Qed.

Lemma shellsort_spec_witness :
  sorted Z.sub (shellsort Z.sub [5; 3; 9; 1; 3]) /\ shellsort Z.sub [5; 3; 9; 1; 3] = [1; 3; 3; 5; 9].
Proof. split; [exact (proj1 (proj2 (shellsort_spec Z.sub [5; 3; 9; 1; 3])) sub_order)|reflexivity]. Defined.
