(* ===== verification/SortSets.v ===== *)
(** * Stage 4 of [color_ops.c]: sorting and set operations on word lists

    The comparison functions, [co_sort_words], [co_setunion], [co_setdiff] and
    [co_setinter].  The sorting algorithm is the [Sorter] of [Sorting]; the theorems hold
    for every sorter that keeps its promise.  The two heap allocations of each function are
    the arguments [alloc1] and [alloc2]: whether [malloc] succeeds. *)

From S2P Require Import Prelude Encoding Scan Words Lists Sorting.
From Stdlib Require Import Sorting.Sorted.

Section SortSets.
Context {cfg : Config} {sorter : Sorter}.

(** ** The comparison functions *)

(** [start, end] and [plain, plain_len]. *)
Record sort_elem_t := { se_word : bytes; se_plain : bytes }.

Fixpoint memcmp (a b : bytes) (n : nat) : Z :=
  match n, a, b with
  | S n', x :: a', y :: b' => if x =? y then memcmp a' b' n' else x - y
  | _, _, _ => 0
  end.

(** [(la > lb) - (la < lb)] *)
Definition cmp_Z (la lb : Z) : Z := Z.b2z (lb <? la) - Z.b2z (la <? lb).

Definition minlen (a b : bytes) : nat := if (length a <? length b)%nat then length a else length b.

Definition cmp_ascii (sa sb : sort_elem_t) : Z :=
  let r := memcmp (se_plain sa) (se_plain sb) (minlen (se_plain sa) (se_plain sb)) in
  if negb (r =? 0) then r
  else cmp_Z (Z.of_nat (length (se_plain sa))) (Z.of_nat (length (se_plain sb))).

(** [if (c >= 'A' && c <= 'Z') c += 32;] *)
Definition lower (c : Z) : Z := if in_rng 65 90 c then c + 32 else c.

(** The loop over the first [n] bytes: the difference at the first one that differs. *)
Fixpoint ci_loop (a b : bytes) (n : nat) : option Z :=
  match n, a, b with
  | S n', x :: a', y :: b' =>
      let ca := lower x in
      let cb := lower y in
      if negb (ca =? cb) then Some (ca - cb) else ci_loop a' b' n'
  | _, _, _ => None
  end.

Definition cmp_ascii_ci (sa sb : sort_elem_t) : Z :=
  match ci_loop (se_plain sa) (se_plain sb) (minlen (se_plain sa) (se_plain sb)) with
  | Some r => r
  | None => cmp_Z (Z.of_nat (length (se_plain sa))) (Z.of_nat (length (se_plain sb)))
  end.

(** [strtoll(s, NULL, 10)] *)
Fixpoint skip_isspace (s : bytes) : bytes :=
  match s with
  | c :: s' => if (c =? 32) || in_rng 9 13 c then skip_isspace s' else s
  | [] => []
  end.
Fixpoint digits_value (s : bytes) (acc : Z) : Z :=
  match s with
  | c :: s' => if in_rng 48 57 c then digits_value s' (10 * acc + (c - 48)) else acc
  | [] => acc
  end.
Definition saturate (v : Z) : Z := Z.max (- 2 ^ 63) (Z.min (2 ^ 63 - 1) v).
Definition strtoll (s : bytes) : Z :=
  match skip_isspace s with
  | c :: s' =>
      if c =? 45 then saturate (- digits_value s' 0)
      else if c =? 43 then saturate (digits_value s' 0)
      else saturate (digits_value (c :: s') 0)
  | [] => 0
  end.

Definition parse_i64 (p : bytes) : Z := strtoll (take (if (length p <? 63)%nat then length p else 63) p).

Definition cmp_numeric (sa sb : sort_elem_t) : Z := cmp_Z (parse_i64 (se_plain sa)) (parse_i64 (se_plain sb)).

(** [if (la > 0 && *pa == '#') { pa++; la--; }] *)
Definition skip_hash (p : bytes) : bytes :=
  match p with
  | c :: p' => if c =? 35 then p' else p
  | [] => []
  end.

Definition cmp_dbref (sa sb : sort_elem_t) : Z :=
  cmp_Z (parse_i64 (skip_hash (se_plain sa))) (parse_i64 (skip_hash (se_plain sb))).

Definition get_cmp (sort_type : Z) : sort_elem_t -> sort_elem_t -> Z :=
  if (sort_type =? 105) || (sort_type =? 73) then cmp_ascii_ci
  else if (sort_type =? 110) || (sort_type =? 78) then cmp_numeric
  else if (sort_type =? 100) || (sort_type =? 68) then cmp_dbref
  else cmp_ascii.

(** ** Sorting *)

Definition build_sort_elems (words : list bytes) : list sort_elem_t :=
  map (fun w =>
    let cb := if (255 <? length w)%nat then 255%nat else length w in
    {| se_word := w; se_plain := co_strip_color (take cb w) |}) words.

(** The loop of [emit_sorted] from index [i]. *)
Fixpoint emit_sorted (osep : Z) (elems : list sort_elem_t) (i : nat) (out : bytes) : bytes :=
  match elems with
  | [] => out
  | e :: elems' =>
      if (length out <? cap)%nat then
        let out := if (0 <? i)%nat then WP_SAFE out osep else out in
        emit_sorted osep elems' (S i) (wp_safe_copy out (se_word e))
      else out
  end.

Definition co_sort_words (alloc1 alloc2 : bool) (data : bytes) (delim osep sort_type : Z) : option bytes :=
  if negb alloc1 then Some []
  else
    words ← split_words data delim max_words;
    match words with
    | [] => Some []
    | [w] => Some (take (if (LBUF_SIZE - 1 <? length w)%nat then LBUF_SIZE - 1 else length w) w)
    | _ =>
        if negb alloc2 then Some []
        else Some (emit_sorted osep (qsort (get_cmp sort_type) (build_sort_elems words)) 0 [])
    end.

(** ** The merges

    The array under construction is kept in reverse: its head is [merged[nm - 1]]. *)

Section Merges.
Context {E : Type} (cmp : E -> E -> Z).

Definition elems_equal (a b : E) : bool := cmp a b =? 0.

(** [if (nm == 0 || !elems_equal(&merged[nm-1], &e, cmp)) merged[nm++] = e;] *)
Definition push (e : E) (merged : list E) : list E :=
  match merged with
  | [] => [e]
  | m :: _ => if negb (elems_equal m e) then e :: merged else merged
  end.

(** The three loops of [co_setunion] over what is left of the two arrays. *)
Definition union_body (s : list E * list E * list E) : (list E * list E * list E) + list E :=
  let '(e1, e2, merged) := s in
  match e1, e2 with
  | x :: e1', y :: e2' =>
      let r := cmp x y in
      if r <? 0 then inl (e1', e2, push x merged)
      else if 0 <? r then inl (e1, e2', push y merged)
      else inl (e1', e2', push y merged)
  | x :: e1', [] => inl (e1', [], push x merged)
  | [], y :: e2' => inl ([], e2', push y merged)
  | [], [] => inr (rev merged)
  end.

Definition merge_union (e1 e2 : list E) : option (list E) :=
  iter union_body (S (length e1 + length e2)) (e1, e2, []).

(** [while (j < n2 && cmp(&e2[j], &e1[i]) < 0) j++;] *)
Fixpoint drop_less (x : E) (e2 : list E) : list E :=
  match e2 with
  | y :: e2' => if cmp y x <? 0 then drop_less x e2' else e2
  | [] => []
  end.

Fixpoint merge_diff (e1 e2 result : list E) : list E :=
  match e1 with
  | [] => rev result
  | x :: e1' =>
      if match result with m :: _ => elems_equal m x | [] => false end
      then merge_diff e1' e2 result
      else
        let e2 := drop_less x e2 in
        if match e2 with y :: _ => elems_equal x y | [] => false end
        then merge_diff e1' e2 result
        else merge_diff e1' e2 (x :: result)
  end.

Definition inter_body (s : list E * list E * list E) : (list E * list E * list E) + list E :=
  let '(e1, e2, result) := s in
  match e1, e2 with
  | x :: e1', y :: e2' =>
      let r := cmp x y in
      if r <? 0 then inl (e1', e2, result)
      else if 0 <? r then inl (e1, e2', result)
      else inl (e1', e2', push x result)
  | _, _ => inr (rev result)
  end.

Definition merge_inter (e1 e2 : list E) : option (list E) :=
  iter inter_body (S (length e1 + length e2)) (e1, e2, []).
End Merges.

(** ** The set operations *)

(** What the three functions have in common: the words of both lists, sorted. *)
Definition sorted_elems (cmp : sort_elem_t -> sort_elem_t -> Z) (data : bytes) (delim : Z)
    : option (list sort_elem_t) :=
  words ← split_words data delim max_words;
  Some (qsort cmp (build_sort_elems words)).

Definition co_setunion (alloc1 alloc2 : bool) (list1 list2 : bytes) (delim osep sort_type : Z)
    : option bytes :=
  if negb alloc1 then Some []
  else
    let cmp := get_cmp sort_type in
    e1 ← sorted_elems cmp list1 delim;
    e2 ← sorted_elems cmp list2 delim;
    if negb alloc2 then Some []
    else
      match e1, e2 with
      | [x], [y] =>
          if cmp x y =? 0 then Some (emit_sorted osep [x] 0 [])
          else merged ← merge_union cmp e1 e2; Some (emit_sorted osep merged 0 [])
      | _, _ => merged ← merge_union cmp e1 e2; Some (emit_sorted osep merged 0 [])
      end.

Definition co_setdiff (alloc1 alloc2 : bool) (list1 list2 : bytes) (delim osep sort_type : Z)
    : option bytes :=
  if negb alloc1 then Some []
  else
    let cmp := get_cmp sort_type in
    e1 ← sorted_elems cmp list1 delim;
    e2 ← sorted_elems cmp list2 delim;
    if negb alloc2 then Some []
    else Some (emit_sorted osep (merge_diff cmp e1 e2 []) 0 []).

Definition co_setinter (alloc1 alloc2 : bool) (list1 list2 : bytes) (delim osep sort_type : Z)
    : option bytes :=
  if negb alloc1 then Some []
  else
    let cmp := get_cmp sort_type in
    e1 ← sorted_elems cmp list1 delim;
    e2 ← sorted_elems cmp list2 delim;
    if negb alloc2 then Some []
    else result ← merge_inter cmp e1 e2; Some (emit_sorted osep result 0 []).

(** ** The comparison functions are total preorders *)

(** Lexicographic order of byte strings. *)
Fixpoint lex (a b : bytes) : Z :=
  match a, b with
  | [], [] => 0
  | [], _ => -1
  | _, [] => 1
  | x :: a', y :: b' => if x =? y then lex a' b' else x - y
  end.

#[local] Instance lex_order : CmpOrder lex.
Proof.
  split.
  - intros a. induction a as [|x a IH]; cbn; [done|]. by rewrite Z.eqb_refl.
  - intros a. induction a as [|x a IH]; intros [|y b]; cbn; try lia.
    rewrite (Z.eqb_sym y x). destruct (Z.eqb_spec x y); [apply IH|lia].
  - intros a. induction a as [|x a IH]; intros [|y b] [|z c]; cbn; try lia.
    specialize (IH b c).
    destruct (Z.eqb_spec x y), (Z.eqb_spec y z), (Z.eqb_spec x z); lia || (intros; subst; auto).
Qed.

#[local] Instance cmp_Z_order : CmpOrder cmp_Z.
Proof.
  assert (H : forall a b, cmp_Z a b = Z.sgn (a - b)).
  { intros a b. unfold cmp_Z. destruct (Z.ltb_spec a b), (Z.ltb_spec b a); cbn; lia. }
  split.
  - intros x. rewrite H. lia.
  - intros x y. rewrite !H. lia.
  - intros x y z. rewrite !H. lia.
Qed.

(** Comparing keys. *)
Lemma key_order {A K} (key : A -> K) (cmp : K -> K -> Z) (cmpA : A -> A -> Z) :
  CmpOrder cmp -> (forall a b, cmpA a b = cmp (key a) (key b)) -> CmpOrder cmpA.
Proof.
  intros [Hr Hop Ht] H. split; intros; rewrite !H in *.
  - apply Hr.
  - apply Hop.
  - by apply (Ht _ (key y)).
Qed.

Lemma cmp_Z_S n m : cmp_Z (Z.of_nat (S n)) (Z.of_nat (S m)) = cmp_Z (Z.of_nat n) (Z.of_nat m).
Proof.
  assert (H : forall a b, (Z.of_nat (S a) <? Z.of_nat (S b)) = (Z.of_nat a <? Z.of_nat b)).
  { intros a b. destruct (Z.ltb_spec (Z.of_nat a) (Z.of_nat b)); [apply Z.ltb_lt|apply Z.ltb_ge]; lia. }
  unfold cmp_Z. by rewrite !H.
Qed.

Lemma minlen_S x y a b : minlen (x :: a) (y :: b) = S (minlen a b).
Proof.
  unfold minlen. cbn [length].
  destruct (Nat.ltb_spec (S (length a)) (S (length b))), (Nat.ltb_spec (length a) (length b)); lia.
Qed.

Lemma cmp_ascii_lex sa sb : cmp_ascii sa sb = lex (se_plain sa) (se_plain sb).
Proof.
  unfold cmp_ascii. generalize (se_plain sa) (se_plain sb). intros a.
  induction a as [|x a IH]; intros [|y b]; try done.
  rewrite minlen_S. cbn [memcmp lex length]. destruct (Z.eqb_spec x y).
  - rewrite cmp_Z_S. apply IH.
  - by rewrite (proj2 (Z.eqb_neq (x - y) 0)) by lia.
Qed.

Lemma cmp_ascii_ci_lex sa sb :
  cmp_ascii_ci sa sb = lex (map lower (se_plain sa)) (map lower (se_plain sb)).
Proof.
  unfold cmp_ascii_ci. generalize (se_plain sa) (se_plain sb). intros a.
  induction a as [|x a IH]; intros [|y b]; try done.
  rewrite minlen_S. cbn [ci_loop lex length map]. destruct (Z.eqb_spec (lower x) (lower y)); cbn [negb]; [|done].
  rewrite cmp_Z_S. apply IH.
Qed.

#[local] Instance get_cmp_order sort_type : CmpOrder (get_cmp sort_type).
Proof.
  unfold get_cmp. repeat case_match.
  - apply (key_order (fun s => map lower (se_plain s)) lex _ lex_order), cmp_ascii_ci_lex.
  - by apply (key_order (fun s => parse_i64 (se_plain s)) cmp_Z _ cmp_Z_order).
  - by apply (key_order (fun s => parse_i64 (skip_hash (se_plain s))) cmp_Z _ cmp_Z_order).
  - apply (key_order se_plain lex _ lex_order), cmp_ascii_lex.
Qed.

(** ** [emit_sorted] *)

Lemma emit_sorted_clamp osep elems i W :
  i = length W ->
  emit_sorted osep elems i (clamp (emit osep false W)) = clamp (emit osep false (W ++ map se_word elems)).
Proof.
  revert i W. induction elems as [|e elems IH]; intros i W Hi; cbn [emit_sorted map]; [by rewrite app_nil_r|].
  destruct (Nat.ltb_spec (length (clamp (emit osep false W))) cap) as [Hf|Hf].
  - replace (wp_safe_copy _ (se_word e)) with (clamp (emit osep false (W ++ [se_word e]))).
    + rewrite (IH (S i) (W ++ [se_word e])) by (rewrite length_app; cbn; lia). by rewrite <- app_assoc.
    + rewrite <- (put_sep osep W (se_word e) (clamp (emit osep false W))) by done. f_equal.
      subst i. by destruct W.
  - rewrite emit_app. by rewrite clamp_full.
Qed.

Lemma emit_sorted_words osep elems : emit_sorted osep elems 0 [] = clamp (emit osep false (map se_word elems)).
Proof.
  pose proof (emit_sorted_clamp osep elems 0 [] eq_refl) as H.
  cbn [emit app] in H. by rewrite clamp_nil in H.
Qed.

Lemma build_words words : map se_word (build_sort_elems words) = words.
Proof. unfold build_sort_elems. rewrite map_map. cbn. apply map_id. Qed.

(** ** What the merges compute

    Arrays are sets up to the equivalence of the comparison: [has l x] says that [l] holds
    an element equal to [x] for [cmp]. *)

Section MergeSpec.
Context {E : Type} (cmp : E -> E -> Z) {Ho : CmpOrder cmp}.

Definition has (l : list E) (x : E) : Prop := Exists (fun y => cmp y x = 0) l.

(** Strictly increasing: sorted, without duplicates. *)
Definition increasing : list E -> Prop := StronglySorted (fun x y => cmp x y < 0).

(** Every element of [a] is at most every element of [b]. *)
Definition below (a b : list E) : Prop := Forall (fun x => Forall (fun y => cmp x y <= 0) b) a.

Lemma has_nil x : has [] x <-> False.
Proof. apply Exists_nil. Qed.

Lemma has_cons y l x : has (y :: l) x <-> cmp y x = 0 \/ has l x.
Proof. apply Exists_cons. Qed.

Lemma has_rev l x : has (rev l) x <-> has l x.
Proof. unfold has. rewrite !Exists_exists. by setoid_rewrite list_elem_of_In; setoid_rewrite <- in_rev. Qed.

Lemma below_nil b : below [] b.
Proof. constructor. Qed.

(** Elements below the first of a sorted list are below all of it. *)
Lemma le_sorted x y l : sorted cmp (y :: l) -> cmp x y <= 0 -> Forall (fun z => cmp x z <= 0) (y :: l).
Proof.
  intros [_ Hl]%sorted_cons Hxy. constructor; [done|].
  eapply Forall_impl; [done|]. intros z Hz. by apply (cmp_trans x y z).
Qed.

Lemma has_lt x y l : cmp x y < 0 -> sorted cmp (y :: l) -> ~ has (y :: l) x.
Proof.
  intros Hxy Hl Hh. pose proof (le_sorted y y l Hl ltac:(by rewrite cmp_refl)) as Hy.
  apply Exists_exists in Hh as (z & Hz & E0). rewrite Forall_forall in Hy. specialize (Hy z Hz).
  pose proof (cmp_lt_le_trans cmp x y z Hxy Hy). pose proof (proj1 (cmp_eq_sym cmp z x) E0). lia.
Qed.

Lemma has_eq l x y : cmp x y = 0 -> has l x <-> has l y.
Proof.
  intros H. unfold has. rewrite !Exists_exists.
  enough (forall z, cmp z x = 0 <-> cmp z y = 0) as Hz by (by setoid_rewrite Hz).
  intros z. rewrite (cmp_eq_sym cmp z x), (cmp_eq_sym cmp z y). by apply cmp_eq_l.
Qed.

(** *** The array under construction *)

Lemma increasing_snoc l x : increasing (l ++ [x]) <-> increasing l /\ Forall (fun y => cmp y x < 0) l.
Proof.
  unfold increasing. induction l as [|z l IH]; cbn [app].
  - split; intros _; (split; constructor) || (constructor; constructor).
  - split.
    + intros [H1 H2]%StronglySorted_inv. apply IH in H1 as [H1 H3].
      apply Forall_app in H2 as [H2 [H4 _]%Forall_cons]. split; by constructor.
    + intros [[H1 H2]%StronglySorted_inv [H3 H4]%Forall_cons]. constructor; [by apply IH|].
      apply Forall_app. split; [done|by constructor].
Qed.

Lemma increasing_last l m : increasing (rev (m :: l)) -> Forall (fun y => cmp y m <= 0) (m :: l).
Proof.
  cbn [rev]. intros [_ H]%increasing_snoc. constructor; [by rewrite cmp_refl|].
  rewrite Forall_forall in *. intros y Hy. specialize (H y). rewrite list_elem_of_In, <- in_rev, <- list_elem_of_In in H.
  specialize (H Hy). lia.
Qed.

Lemma push_increasing e m : increasing (rev m) -> Forall (fun y => cmp y e <= 0) m -> increasing (rev (push cmp e m)).
Proof.
  intros Hm He. destruct m as [|x m]; cbn [push]; [repeat constructor|].
  unfold elems_equal. destruct (Z.eqb_spec (cmp x e) 0) as [E0|E0]; cbn [negb]; [done|].
  cbn [rev]. apply increasing_snoc. split; [done|].
  pose proof (increasing_last _ _ Hm) as Hl. apply Forall_cons in He as [Hxe _].
  rewrite Forall_forall in *. intros y Hy. change (y ∈ rev (x :: m)) in Hy.
  rewrite list_elem_of_In, <- in_rev, <- list_elem_of_In in Hy.
  apply (cmp_le_lt_trans cmp y x e); [by apply Hl|lia].
Qed.

Lemma push_has e m x : has (push cmp e m) x <-> has m x \/ cmp e x = 0.
Proof.
  destruct m as [|y m]; cbn [push]; [rewrite has_cons; pose proof (has_nil x); tauto|].
  unfold elems_equal. destruct (Z.eqb_spec (cmp y e) 0) as [E0|E0]; cbn [negb]; rewrite !has_cons; [|tauto].
  pose proof (cmp_eq_l cmp y e x E0). tauto.
Qed.

Lemma push_in e m x : x ∈ push cmp e m -> x = e \/ x ∈ m.
Proof.
  destruct m as [|y m]; cbn [push]; [by intros ->%list_elem_of_singleton; left|].
  destruct (negb _); [|by right]. intros [->|]%elem_of_cons; tauto.
Qed.

Lemma push_below e m b : below m b -> Forall (fun y => cmp e y <= 0) b -> below (push cmp e m) b.
Proof. intros Hm He. destruct m as [|y m]; cbn [push]; repeat case_match; try done; by constructor. Qed.

(** The merge loops' invariant: both inputs sorted, the output strictly increasing and
    below what is left of the inputs. *)
Record merging (a b m : list E) : Prop := {
  mg_a : sorted cmp a;
  mg_b : sorted cmp b;
  mg_m : increasing (rev m);
  mg_below_a : below m a;
  mg_below_b : below m b
}.

Lemma below_head m x b : below m (x :: b) -> Forall (fun y => cmp y x <= 0) m /\ below m b.
Proof.
  unfold below. intros H. induction H as [|y m [Hx Hb]%Forall_cons _ [IH1 IH2]]; split; constructor; done.
Qed.

(** Taking the first of [a] when it is at most all of [b]. *)
Lemma merging_push x a b m :
  merging (x :: a) b m -> Forall (fun y => cmp x y <= 0) b -> merging a b (push cmp x m).
Proof.
  intros [Ha Hb Hm Hba Hbb] Hx. apply sorted_cons in Ha as [Ha Hxa].
  apply below_head in Hba as [Hmx Hba].
  split; [done|done|by apply push_increasing|by apply push_below|by apply push_below].
Qed.

Lemma merging_swap a b m : merging a b m -> merging b a m.
Proof. intros []. by split. Qed.

Lemma merging_skip x a b m : merging (x :: a) b m -> merging a b m.
Proof.
  intros [Ha Hb Hm Hba Hbb]. apply sorted_cons in Ha as [Ha _]. apply below_head in Hba as [_ Hba]. by split.
Qed.

Lemma merging_start a b : sorted cmp a -> sorted cmp b -> merging a b [].
Proof. intros Ha Hb. split; [done|done|constructor|constructor|constructor]. Qed.

(** *** The union *)

Definition union_inv (e1 e2 : list E) (s : list E * list E * list E) : Prop :=
  let '(a, b, m) := s in
  merging a b m /\ (forall x, has e1 x \/ has e2 x <-> has m x \/ has a x \/ has b x)
  /\ (forall x, x ∈ m \/ x ∈ a \/ x ∈ b -> x ∈ e1 \/ x ∈ e2).

Definition merge_post (e1 e2 r : list E) (inset : E -> Prop) : Prop :=
  increasing r /\ (forall x, has r x <-> inset x) /\ (forall x, x ∈ r -> x ∈ e1 \/ x ∈ e2).

Lemma rev_post e1 e2 m inset :
  increasing (rev m) -> (forall x, has m x <-> inset x) -> (forall x, x ∈ m -> x ∈ e1 \/ x ∈ e2) ->
  merge_post e1 e2 (rev m) inset.
Proof.
  intros Hm Hh Hin. split; [done|]. split; intros x; [by rewrite has_rev|].
  rewrite list_elem_of_In, <- in_rev, <- list_elem_of_In. apply Hin.
Qed.

Lemma union_step e1 e2 s :
  union_inv e1 e2 s ->
  match union_body cmp s with
  | inl s' => union_inv e1 e2 s' /\ (length s'.1.1 + length s'.1.2 < length s.1.1 + length s.1.2)%nat
  | inr r => merge_post e1 e2 r (fun x => has e1 x \/ has e2 x)
  end.
Proof.
  destruct s as [[a b] m]. intros (Hg & Hh & Hi).
  assert (Hpush : forall x z, z ∈ push cmp x m -> z ∈ m \/ z = x).
  { intros x z [->|]%push_in; auto. }
  destruct a as [|x a], b as [|y b]; cbn -[push].
  - apply rev_post; [apply Hg| |set_solver]. intros x. rewrite Hh, has_nil. tauto.
  - split; [|lia]. split; [by apply merging_swap, merging_push; [apply merging_swap|]|].
    split; intros z; [rewrite Hh, push_has, has_cons; tauto|]. intros Hz. apply Hi. set_solver.
  - split; [|lia]. split; [by apply merging_push|].
    split; intros z; [rewrite Hh, push_has, has_cons; tauto|]. intros Hz. apply Hi. set_solver.
  - destruct (Z.ltb_spec (cmp x y) 0) as [Hr|Hr]; [|destruct (Z.ltb_spec 0 (cmp x y)) as [Hr'|Hr']]; cbn -[push].
    + split; [|lia]. split; [apply merging_push; [done|]; apply le_sorted; [apply Hg|lia]|].
      split; intros z; [rewrite Hh, push_has, !has_cons; tauto|]. intros Hz. apply Hi. set_solver.
    + split; [|lia]. apply cmp_flip in Hr'; [|done].
      split; [apply merging_swap, merging_push; [by apply merging_swap|]; apply le_sorted; [apply Hg|lia]|].
      split; intros z; [rewrite Hh, push_has, !has_cons; tauto|]. intros Hz. apply Hi. set_solver.
    + assert (E0 : cmp x y = 0) by lia. pose proof (proj1 (cmp_eq_sym cmp x y) E0). split; [|lia].
      split; [apply merging_swap, merging_push; [by apply merging_swap, (merging_skip x)|]|].
      { pose proof (le_sorted y x a (mg_a _ _ _ Hg) ltac:(lia)) as Hl. by apply Forall_cons in Hl as [_ ?]. }
      split; intros z; [rewrite Hh, push_has, !has_cons; pose proof (cmp_eq_l cmp x y z E0); tauto|].
      intros Hz. apply Hi. set_solver.
Qed.

Lemma merge_union_spec e1 e2 :
  sorted cmp e1 -> sorted cmp e2 ->
  exists r, merge_union cmp e1 e2 = Some r /\ merge_post e1 e2 r (fun x => has e1 x \/ has e2 x).
Proof.
  intros H1 H2. unfold merge_union.
  apply (iter_total _ (union_inv e1 e2) _ (fun s => (length s.1.1 + length s.1.2)%nat)); cbn; [apply union_step| |lia].
  split; [by apply merging_start|]. split; intros x; [pose proof (has_nil x); tauto|set_solver].
Qed.

(** *** The intersection *)

Definition inter_inv (e1 e2 : list E) (s : list E * list E * list E) : Prop :=
  let '(a, b, m) := s in
  merging a b m /\ (forall x, has e1 x /\ has e2 x <-> has m x \/ (has a x /\ has b x))
  /\ (forall x, x ∈ m \/ x ∈ a \/ x ∈ b -> x ∈ e1 \/ x ∈ e2).

Lemma inter_step e1 e2 s :
  inter_inv e1 e2 s ->
  match inter_body cmp s with
  | inl s' => inter_inv e1 e2 s' /\ (length s'.1.1 + length s'.1.2 < length s.1.1 + length s.1.2)%nat
  | inr r => merge_post e1 e2 r (fun x => has e1 x /\ has e2 x)
  end.
Proof.
  destruct s as [[a b] m]. intros (Hg & Hh & Hi).
  assert (Hpush : forall x z, z ∈ push cmp x m -> z ∈ m \/ z = x).
  { intros x z [->|]%push_in; auto. }
  destruct a as [|x a], b as [|y b]; cbn -[push];
    try (apply rev_post; [apply Hg| |set_solver]; intros z; rewrite Hh, !has_nil; tauto).
  destruct (Z.ltb_spec (cmp x y) 0) as [Hr|Hr]; [|destruct (Z.ltb_spec 0 (cmp x y)) as [Hr'|Hr']]; cbn -[push].
  - split; [|lia]. split; [by apply (merging_skip x)|]. split; [|set_solver].
    intros z. rewrite Hh, (has_cons x). pose proof (has_lt x y b Hr (mg_b _ _ _ Hg)).
    pose proof (has_eq (y :: b) x z). tauto.
  - split; [|lia]. apply cmp_flip in Hr'; [|done].
    split; [by apply merging_swap, (merging_skip y), merging_swap|]. split; [|set_solver].
    intros z. rewrite Hh, (has_cons y). pose proof (has_lt y x a Hr' (mg_a _ _ _ Hg)).
    pose proof (has_eq (x :: a) y z). tauto.
  - assert (E0 : cmp x y = 0) by lia. pose proof (proj1 (cmp_eq_sym cmp x y) E0). split; [|lia].
    split; [apply merging_push; [by apply merging_swap, (merging_skip y), merging_swap|]|].
    { pose proof (le_sorted x y b (mg_b _ _ _ Hg) ltac:(lia)) as Hl. by apply Forall_cons in Hl as [_ ?]. }
    split; intros z; [|set_solver]. rewrite Hh, push_has, !has_cons. pose proof (cmp_eq_l cmp x y z E0). tauto.
Qed.

Lemma merge_inter_spec e1 e2 :
  sorted cmp e1 -> sorted cmp e2 ->
  exists r, merge_inter cmp e1 e2 = Some r /\ merge_post e1 e2 r (fun x => has e1 x /\ has e2 x).
Proof.
  intros H1 H2. unfold merge_inter.
  apply (iter_total _ (inter_inv e1 e2) _ (fun s => (length s.1.1 + length s.1.2)%nat)); cbn; [apply inter_step| |lia].
  split; [by apply merging_start|]. split; intros x; [pose proof (has_nil x); tauto|set_solver].
Qed.

(** *** The difference *)

Lemma drop_less_sorted x b : sorted cmp b -> sorted cmp (drop_less cmp x b).
Proof.
  induction b as [|y b IH]; [done|]. intros Hb. cbn. case_match; [|done].
  apply IH. by apply sorted_cons in Hb as [? _].
Qed.

Lemma drop_less_has x z b : cmp x z <= 0 -> has (drop_less cmp x b) z <-> has b z.
Proof.
  intros Hz. induction b as [|y b IH]; [done|]. cbn. destruct (Z.ltb_spec (cmp y x) 0) as [Hy|]; [|done].
  rewrite IH, has_cons. pose proof (cmp_lt_le_trans cmp y x z Hy Hz). split; [tauto|]. intros [|]; [lia|done].
Qed.

Lemma drop_less_in x b : sorted cmp b ->
  match drop_less cmp x b with y :: _ => elems_equal cmp x y | [] => false end = true <-> has b x.
Proof.
  intros Hb. rewrite <- (drop_less_has x x b) by (by rewrite cmp_refl). apply (drop_less_sorted x) in Hb.
  assert (Hd : match drop_less cmp x b with y :: _ => 0 <= cmp y x | [] => True end).
  { induction b as [|y b IH]; [done|]. cbn. cbn in Hb. destruct (Z.ltb_spec (cmp y x) 0) as [Hy|Hy]; [by apply IH|done]. }
  destruct (drop_less cmp x b) as [|y b']; [rewrite has_nil; by split|].
  unfold elems_equal. rewrite Z.eqb_eq, (cmp_eq_sym cmp), has_cons. split; [by left|]. intros [|Hh]; [done|].
  destruct (Z.eq_dec (cmp y x) 0) as [|Hn]; [done|]. exfalso.
  apply (has_lt x y b'); [apply cmp_flip; [done|lia]|done|]. apply has_cons. by right.
Qed.

Lemma merge_diff_inv e1 e2 a b m :
  merging a [] m -> sorted cmp b -> (forall x, x ∈ m \/ x ∈ a -> x ∈ e1 \/ x ∈ e2) ->
  merge_post e1 e2 (merge_diff cmp a b m) (fun x => has m x \/ (has a x /\ ~ has b x)).
Proof.
  revert b m. induction a as [|x a IH]; intros b m Hg Hb Hi; cbn [merge_diff].
  { apply rev_post; [apply Hg| |set_solver]. intros z. rewrite has_nil. tauto. }
  assert (Hskip : merging a [] m) by (by apply (merging_skip x)).
  assert (Ha : forall z, has a z -> cmp x z <= 0).
  { intros z (w & Hw & E0)%Exists_exists. apply (cmp_trans x w z); [|lia].
    pose proof (proj1 (sorted_cons _ _ _) (mg_a _ _ _ Hg)) as [_ H]. rewrite Forall_forall in H. by apply H. }
  destruct (match m with y :: _ => elems_equal cmp y x | [] => false end) eqn:Em.
  { destruct (IH b m Hskip Hb ltac:(set_solver)) as (P1 & P2 & P3). split; [done|split; [|done]].
    intros z. rewrite P2, has_cons. destruct m as [|y m]; [done|]. apply Z.eqb_eq in Em.
    rewrite has_cons. pose proof (cmp_eq_l cmp y x z Em). tauto. }
  pose proof (drop_less_in x b Hb) as Hin. pose proof (drop_less_sorted x b Hb) as Hb'.
  assert (Heq : forall z, cmp x z = 0 -> has b x <-> has b z) by (intros z; apply has_eq).
  assert (Hd : forall z, has a z -> has (drop_less cmp x b) z <-> has b z) by (intros z Hz; by apply drop_less_has, Ha).
  destruct (match drop_less cmp x b with y :: _ => elems_equal cmp x y | [] => false end) eqn:Ed.
  - destruct (IH _ m Hskip Hb' ltac:(set_solver)) as (P1 & P2 & P3). split; [done|split; [|done]].
    intros z. rewrite P2, has_cons. specialize (Heq z). specialize (Hd z). tauto.
  - replace (x :: m) with (push cmp x m) by (destruct m; cbn [push]; by rewrite ?Em).
    destruct (IH _ (push cmp x m) (merging_push _ _ _ _ Hg (Forall_nil_2 _)) Hb') as (P1 & P2 & P3).
    { intros z [[->|]%push_in|]; set_solver. }
    split; [done|split; [|done]]. intros z. rewrite P2, has_cons, push_has. specialize (Heq z). specialize (Hd z).
    assert (~ has b x) by (intros Hx%Hin; done). tauto.
Qed.

Lemma merge_diff_spec e1 e2 :
  sorted cmp e1 -> sorted cmp e2 ->
  merge_post e1 e2 (merge_diff cmp e1 e2 []) (fun x => has e1 x /\ ~ has e2 x).
Proof.
  intros H1 H2. destruct (merge_diff_inv e1 e2 e1 e2 []) as (P1 & P2 & P3); [|done|set_solver|].
  { by apply merging_start; [|constructor]. }
  split; [done|split; [|done]]. intros x. rewrite P2, has_nil. tauto.
Qed.
End MergeSpec.

(** ** The properties *)

Lemma has_perm {E} (cmp : E -> E -> Z) a b x : a ≡ₚ b -> has cmp a x <-> has cmp b x.
Proof. intros H. unfold has. by rewrite H. Qed.

Lemma merge_post_perm {E} (cmp : E -> E -> Z) a a' b b' r (P Q : E -> Prop) :
  a ≡ₚ a' -> b ≡ₚ b' -> (forall x, P x <-> Q x) -> merge_post cmp a b r P -> merge_post cmp a' b' r Q.
Proof.
  intros Ha Hb HPQ (H1 & H2 & H3). split; [done|]. split; intros x; [by rewrite H2|].
  rewrite <- Ha, <- Hb. apply H3.
Qed.

(** The words of a list with their comparison keys. *)
Definition keyed (data : bytes) (delim : Z) : list sort_elem_t := build_sort_elems (list_words data delim).

Section Laws.
Context {Hs : SorterLaws sorter}.

Lemma sorted_elems_spec sort_type data delim :
  exists es, sorted_elems (get_cmp sort_type) data delim = Some es /\
    es ≡ₚ keyed data delim /\ sorted (get_cmp sort_type) es.
Proof.
  unfold sorted_elems. rewrite list_words_split. eexists. split; [reflexivity|].
  split; [apply qsort_perm|apply qsort_sorted, get_cmp_order].
Qed.

(** [co_sort_words], with any sorter that keeps the contract of [qsort]: the output is
    the text of the words in some order that is sorted for the comparison the sort type
    selects, joined by the output separator and cut at the buffer's capacity; a failed
    allocation gives the empty text.  The sort keys are the stripped first 255 bytes. *)
Theorem sort_words_spec data delim osep sort_type :
  co_sort_words false true data delim osep sort_type = Some [] /\
  ((2 <= length (list_words data delim))%nat ->
   co_sort_words true false data delim osep sort_type = Some []) /\
  exists es, es ≡ₚ keyed data delim /\ sorted (get_cmp sort_type) es /\
    co_sort_words true true data delim osep sort_type = Some (clamp (emit osep false (map se_word es))).
Proof.
  unfold co_sort_words, keyed. cbn [negb]. rewrite list_words_split.
  generalize (list_words data delim). intros words. cbn -[Nat.sub Nat.ltb].
  destruct words as [|w [|w' ws]]; (split; [done|]).
  - split; [done|]. exists []. split_and!; [done|constructor|by rewrite clamp_nil].
  - split; [intros H; cbn in H; exfalso; lia|]. exists (build_sort_elems [w]). split_and!; [done|repeat constructor|].
    cbn -[Nat.sub Nat.ltb]. rewrite app_nil_r. do 2 f_equal. unfold clamp, cap.
    destruct (Nat.ltb_spec (LBUF_SIZE - 1) (length w)); [done|]. by rewrite !take_ge.
  - split; [done|]. exists (qsort (get_cmp sort_type) (build_sort_elems (w :: w' :: ws))).
    split_and!; [apply qsort_perm|apply qsort_sorted, get_cmp_order|by rewrite emit_sorted_words].
Qed.

(** C38: [co_setunion] returns, for every input, the words of a strictly increasing list (so
    sorted and without duplicates) that holds a key exactly when one of the two lists does. *)
Theorem setunion_spec list1 list2 delim osep sort_type :
  exists r, merge_post (get_cmp sort_type) (keyed list1 delim) (keyed list2 delim) r
      (fun x => has (get_cmp sort_type) (keyed list1 delim) x \/ has (get_cmp sort_type) (keyed list2 delim) x) /\
    co_setunion true true list1 list2 delim osep sort_type = Some (clamp (emit osep false (map se_word r))).
Proof.
  destruct (sorted_elems_spec sort_type list1 delim) as (e1 & E1 & P1 & S1).
  destruct (sorted_elems_spec sort_type list2 delim) as (e2 & E2 & P2 & S2).
  destruct (merge_union_spec (get_cmp sort_type) e1 e2 S1 S2) as (r & Er & Hr).
  assert (Hp : forall x, has (get_cmp sort_type) e1 x \/ has (get_cmp sort_type) e2 x <->
    has (get_cmp sort_type) (keyed list1 delim) x \/ has (get_cmp sort_type) (keyed list2 delim) x).
  { intros x. by rewrite (has_perm _ e1 _ x P1), (has_perm _ e2 _ x P2). }
  assert (Hgen : merge_union (get_cmp sort_type) e1 e2 ≫= (fun merged => Some (emit_sorted osep merged 0 [])) =
    Some (clamp (emit osep false (map se_word r)))) by (rewrite Er; cbn; by rewrite emit_sorted_words).
  unfold co_setunion. cbn [negb]. rewrite E1, E2. cbn.
  destruct e1 as [|x [|]], e2 as [|y [|]];
    try (exists r; split; [by apply (merge_post_perm _ _ _ _ _ r _ _ P1 P2 Hp)|done]).
  destruct (Z.eqb_spec (get_cmp sort_type x y) 0) as [E0|].
  - exists [x]. split; [|by rewrite <- emit_sorted_words].
    apply (merge_post_perm _ _ _ _ _ _ _ _ P1 P2 Hp). split; [repeat constructor|]. split; [|set_solver].
    intros z. rewrite !has_cons, !has_nil. pose proof (cmp_eq_l _ x y z E0). tauto.
  - exists r. split; [by apply (merge_post_perm _ _ _ _ _ r _ _ P1 P2 Hp)|done].
Qed.

(** [co_setdiff] returns the words of a strictly increasing list that holds a key
    exactly when the first list does and the second does not; [co_setinter] the words of one
    that holds a key exactly when both do. *)
Theorem setdiff_setinter_spec list1 list2 delim osep sort_type :
  (exists r, merge_post (get_cmp sort_type) (keyed list1 delim) (keyed list2 delim) r
      (fun x => has (get_cmp sort_type) (keyed list1 delim) x /\ ~ has (get_cmp sort_type) (keyed list2 delim) x) /\
    co_setdiff true true list1 list2 delim osep sort_type = Some (clamp (emit osep false (map se_word r)))) /\
  (exists r, merge_post (get_cmp sort_type) (keyed list1 delim) (keyed list2 delim) r
      (fun x => has (get_cmp sort_type) (keyed list1 delim) x /\ has (get_cmp sort_type) (keyed list2 delim) x) /\
    co_setinter true true list1 list2 delim osep sort_type = Some (clamp (emit osep false (map se_word r)))).
Proof.
  destruct (sorted_elems_spec sort_type list1 delim) as (e1 & E1 & P1 & S1).
  destruct (sorted_elems_spec sort_type list2 delim) as (e2 & E2 & P2 & S2).
  unfold co_setdiff, co_setinter. cbn [negb]. rewrite E1, E2. cbn -[merge_inter merge_diff]. split.
  - eexists. split; [|by rewrite emit_sorted_words].
    apply (merge_post_perm _ _ _ _ _ _ _ _ P1 P2) with (2 := merge_diff_spec _ e1 e2 S1 S2).
    intros x. by rewrite (has_perm _ e1 _ x P1), (has_perm _ e2 _ x P2).
  - destruct (merge_inter_spec (get_cmp sort_type) e1 e2 S1 S2) as (r & Er & Hr).
    exists r. rewrite Er. cbn. split; [|by rewrite emit_sorted_words].
    apply (merge_post_perm _ _ _ _ _ _ _ _ P1 P2) with (2 := Hr).
    intros x. by rewrite (has_perm _ e1 _ x P1), (has_perm _ e2 _ x P2).
Qed.
End Laws.
End SortSets.

(** ** Concrete runs *)

(** "b #2 a b" and "#2 c", sorted as text by the Shellsort. *)
Definition list_a : bytes := [98; 32; 35; 50; 32; 97; 32; 98].
Definition list_b : bytes := [35; 50; 32; 99].

Lemma sort_words_spec_witness :
  exists es, es ≡ₚ keyed (cfg := default_config) list_a 32 /\ sorted (get_cmp 97) es /\
    co_sort_words (cfg := default_config) true true list_a 32 124 97 =
      Some (clamp (cfg := default_config) (emit 124 false (map se_word es))).
Proof. exact (proj2 (proj2 (sort_words_spec (cfg := default_config) (Hs := shell_laws) list_a 32 124 97))). Defined.

Example sort_words_run :
  co_sort_words (cfg := default_config) true true list_a 32 124 97 = Some [35; 50; 124; 97; 124; 98; 124; 98].
Proof. vm_compute. reflexivity. Qed.

Lemma setunion_spec_witness :
  (exists r, merge_post (get_cmp 97) (keyed (cfg := default_config) list_a 32) (keyed (cfg := default_config) list_b 32) r
      (fun x => has (get_cmp 97) (keyed (cfg := default_config) list_a 32) x \/
                has (get_cmp 97) (keyed (cfg := default_config) list_b 32) x) /\
    co_setunion (cfg := default_config) true true list_a list_b 32 32 97 =
      Some (clamp (cfg := default_config) (emit 32 false (map se_word r)))) /\
  co_setunion (cfg := default_config) true true list_a list_b 32 32 97 = Some [35; 50; 32; 97; 32; 98; 32; 99].
Proof.
  split; [exact (setunion_spec (cfg := default_config) (Hs := shell_laws) list_a list_b 32 32 97)|].
  vm_compute. reflexivity.
Defined.

Lemma setdiff_setinter_spec_witness :
  (exists r, merge_post (get_cmp 97) (keyed (cfg := default_config) list_a 32) (keyed (cfg := default_config) list_b 32) r
      (fun x => has (get_cmp 97) (keyed (cfg := default_config) list_a 32) x /\
                ~ has (get_cmp 97) (keyed (cfg := default_config) list_b 32) x) /\
    co_setdiff (cfg := default_config) true true list_a list_b 32 32 97 =
      Some (clamp (cfg := default_config) (emit 32 false (map se_word r)))) /\
  co_setdiff (cfg := default_config) true true list_a list_b 32 32 97 = Some [97; 32; 98] /\
  co_setinter (cfg := default_config) true true list_a list_b 32 32 97 = Some [35; 50].
Proof.
  split; [exact (proj1 (setdiff_setinter_spec (cfg := default_config) (Hs := shell_laws) list_a list_b 32 32 97))|].
  split; vm_compute; reflexivity.
Defined.
