(* ===== verification/Render.v ===== *)
(** * Stage 5 of [color_ops.c], rendering: colour code points and terminal escapes

    [co_render_attrs] turns the colour of a text into one attribute record per byte,
    [co_render_ansi16], [co_render_ansi256] and [co_render_truecolor] into the escape
    sequences of a terminal, and [co_parse_ansi] turns escape sequences into colour code
    points. *)

From S2P Require Import Prelude Encoding Scan Words Substring ColorState Trim.

(** The search for the nearest palette entry of an RGB colour, which [stringutil.cpp] does
    in a k-d tree over CIELAB coordinates; the freestanding runtime links a stub. *)
Class NearestPalette := {
  co_nearest_xterm16 : Z * Z * Z -> Z;
  co_nearest_xterm256 : Z * Z * Z -> Z
}.

Class NearestPaletteLaws (N : NearestPalette) : Prop := {
  nearest16_range c : 0 <= co_nearest_xterm16 c <= 15;
  nearest256_range c : 0 <= co_nearest_xterm256 c <= 255
}.

(** The stubs of [softlib.c] return 0. *)
Definition stub_nearest : NearestPalette :=
  {| co_nearest_xterm16 _ := 0; co_nearest_xterm256 _ := 0 |}.

#[export] Instance stub_nearest_laws : NearestPaletteLaws stub_nearest.
Proof. split; cbn; lia. Qed.

Section Render.
Context {cfg : Config} {near : NearestPalette}.

(** ** [co_render_attrs] *)

Record co_color_attr := Attr {
  at_fg : Z; at_bg : Z;
  at_bold : bool; at_underline : bool; at_blink : bool; at_inverse : bool;
  at_fg_type : Z; at_bg_type : Z
}.

(** [(r << 16) | (g << 8) | b] *)
Definition rgb24 (l : layer) : Z :=
  Z.lor (Z.lor (Z.shiftl (l_r l) 16) (Z.shiftl (l_g l) 8)) (l_b l).

(** The type and the colour of one layer. *)
Definition attr_type (l : layer) : Z := if l_idx l =? -1 then 0 else if l_idx l =? -2 then 2 else 1.
Definition attr_color (l : layer) : Z :=
  if l_idx l =? -1 then 0 else rgb24 l.

Definition cs_to_attr (cs : co_ColorState) : co_color_attr :=
  Attr (attr_color (fg cs)) (attr_color (bg cs)) (intense cs) (underline cs) (blink cs) (inverse cs)
    (attr_type (fg cs)) (attr_type (bg cs)).

Record ra_vars := { ra_p : bytes; ra_out : bytes; ra_attrs : list co_color_attr; ra_cs : co_ColorState }.

Definition attrs_body (v : ra_vars) : ra_vars + (bytes * list co_color_attr) :=
  if (0 <? length (ra_p v))%nat && (length (ra_out v) <? cap)%nat then
    match pua_step (ra_p v) (ra_cs v) with
    | Some (q, cs) =>
        inl {| ra_p := q; ra_out := ra_out v; ra_attrs := ra_attrs v; ra_cs := cs |}
    | None =>
        let n := cplen (hd 0 (ra_p v)) in
        if (length (ra_p v) <? n)%nat then inr (ra_out v, ra_attrs v)
        else if (cap <? length (ra_out v) + n)%nat then inr (ra_out v, ra_attrs v)
        else
          inl {| ra_p := drop n (ra_p v); ra_out := ra_out v ++ take n (ra_p v);
                 ra_attrs := ra_attrs v ++ repeat (cs_to_attr (ra_cs v)) n; ra_cs := ra_cs v |}
    end
  else inr (ra_out v, ra_attrs v).

(** The text and the attributes. *)
Definition co_render_attrs (data : bytes) : option (bytes * list co_color_attr) :=
  iter attrs_body (S (length data))
    {| ra_p := data; ra_out := []; ra_attrs := []; ra_cs := CO_CS_NORMAL |}.

(** ** Escape sequences *)

Definition ESC : Z := 27.

(** [snprintf("%d")] *)
Definition fmt_d (z : Z) : bytes :=
  if z <? 0 then 45 :: number (Z.to_nat (- z)) else number (Z.to_nat z).

(** [snprintf(params + plen, ..., "%s...", plen ? ";" : "", ...)]: the parameters so far and
    the new ones.  The longest parameter string has 41 bytes, the buffers have 64 and 128. *)
Definition add_param (params s : bytes) : bytes :=
  params ++ (if (0 <? length params)%nat then [59] else []) ++ s.
Definition add_if (cond : bool) (params s : bytes) : bytes := if cond then add_param params s else params.

(** [if (wp + n <= wp_end)] the [n] bytes [s]. *)
Definition put_fits (out s : bytes) : bytes :=
  if (length out + length s <=? cap)%nat then out ++ s else out.

(** ESC [ 0 m *)
Definition sgr0 : bytes := [ESC; 91; 48; 109].
(** [if (plen > 0 && wp + 2 + plen + 1 <= wp_end)] ESC [ params m *)
Definition put_params (out params : bytes) : bytes :=
  if (0 <? length params)%nat then put_fits out ([ESC; 91] ++ params ++ [109]) else out.

(** [adjusted]: with [bNoBleed] the default foreground becomes colour 7. *)
Definition adjust (bNoBleed : bool) (cs : co_ColorState) : co_ColorState :=
  if bNoBleed && (l_idx (fg cs) =? -1)
  then set_fg (Layer 7 (l_r (fg cs)) (l_g (fg cs)) (l_b (fg cs))) cs else cs.

(** [need_reset] for resolved colours, -1 for the default. *)
Definition sgr_reset (old new : co_ColorState) (old_fg old_bg new_fg new_bg : Z) : bool :=
  (intense old && negb (intense new)) || (underline old && negb (underline new))
  || (blink old && negb (blink new)) || (inverse old && negb (inverse new))
  || (negb (old_fg =? -1) && (new_fg =? -1)) || (negb (old_bg =? -1) && (new_bg =? -1)).

(** The parameters of the attributes. *)
Definition attr_params (reset bNoFlash : bool) (old new : co_ColorState) : bytes :=
  let params := add_if (intense new && (reset || negb (intense old))) [] [49] in
  let params := add_if (underline new && (reset || negb (underline old))) params [52] in
  let params := add_if (blink new && (reset || negb (blink old)) && negb bNoFlash) params [53] in
  add_if (inverse new && (reset || negb (inverse old))) params [55].

Definition layer_rgb (l : layer) : Z * Z * Z := (l_r l, l_g l, l_b l).

(** [resolve_fg16] and [resolve_bg16] *)
Definition resolve16 (l : layer) : Z :=
  if l_idx l =? -1 then -1
  else if in_rng 0 15 (l_idx l) then l_idx l
  else if in_rng 0 255 (l_idx l) then co_nearest_xterm16 (palette (l_idx l))
  else if l_idx l =? -2 then co_nearest_xterm16 (layer_rgb l)
  else -1.

Definition emit_ansi16 (bNoBleed bNoFlash : bool) (out : bytes) (old_cs new_cs : co_ColorState) : bytes :=
  let new_cs := adjust bNoBleed new_cs in
  if co_cs_equal old_cs new_cs then out
  else
    let old_fg := resolve16 (fg old_cs) in
    let old_bg := resolve16 (bg old_cs) in
    let new_fg := resolve16 (fg new_cs) in
    let new_bg := resolve16 (bg new_cs) in
    let reset := sgr_reset old_cs new_cs old_fg old_bg new_fg new_bg in
    let out := if reset then put_fits out sgr0 else out in
    let params := attr_params reset bNoFlash old_cs new_cs in
    let params :=
      if (0 <=? new_fg) && (reset || negb (new_fg =? old_fg)) then
        if 8 <=? new_fg
        then add_param (add_if (negb (intense new_cs)) params [49]) (fmt_d (30 + (new_fg - 8)))
        else add_param params (fmt_d (30 + new_fg))
      else params in
    let params :=
      add_if ((0 <=? new_bg) && (reset || negb (new_bg =? old_bg))) params
        (fmt_d (40 + (if 8 <=? new_bg then new_bg - 8 else new_bg))) in
    put_params out params.

(** [resolve_fg256] and [resolve_bg256] *)
Definition resolve256 (l : layer) : Z :=
  if l_idx l =? -1 then -1
  else if in_rng 0 255 (l_idx l) then l_idx l
  else if l_idx l =? -2 then co_nearest_xterm256 (layer_rgb l)
  else -1.

(** "38;5;" and "48;5;", "38;2;" and "48;2;" *)
Definition indexed (base : bytes) (n : Z) : bytes := base ++ [59; 53; 59] ++ fmt_d n.
Definition rgb_param (base : bytes) (l : layer) : bytes :=
  base ++ [59; 50; 59] ++ fmt_d (l_r l) ++ [59] ++ fmt_d (l_g l) ++ [59] ++ fmt_d (l_b l).

Definition emit_ansi256 (bNoBleed bNoFlash : bool) (out : bytes) (old_cs new_cs : co_ColorState) : bytes :=
  let new_cs := adjust bNoBleed new_cs in
  if co_cs_equal old_cs new_cs then out
  else
    let old_fg := resolve256 (fg old_cs) in
    let old_bg := resolve256 (bg old_cs) in
    let new_fg := resolve256 (fg new_cs) in
    let new_bg := resolve256 (bg new_cs) in
    let reset := sgr_reset old_cs new_cs old_fg old_bg new_fg new_bg in
    let out := if reset then put_fits out sgr0 else out in
    let params := attr_params reset bNoFlash old_cs new_cs in
    let params := add_if ((0 <=? new_fg) && (reset || negb (new_fg =? old_fg))) params (indexed [51; 56] new_fg) in
    let params := add_if ((0 <=? new_bg) && (reset || negb (new_bg =? old_bg))) params (indexed [52; 56] new_bg) in
    put_params out params.

(** The parameters of one layer in [emit_truecolor]. *)
Definition true_param (reset : bool) (base : bytes) (old new : layer) (params : bytes) : bytes :=
  let changed := reset || negb (bool_decide (old = new)) in
  if changed && negb (l_idx new =? -1)
  then add_param params (if l_idx new =? -2 then rgb_param base new else indexed base (l_idx new))
  else params.

Definition emit_truecolor (bNoBleed bNoFlash : bool) (out : bytes) (old_cs new_cs : co_ColorState) : bytes :=
  let new_cs := adjust bNoBleed new_cs in
  if co_cs_equal old_cs new_cs then out
  else
    let reset := sgr_reset old_cs new_cs (l_idx (fg old_cs)) (l_idx (bg old_cs)) (l_idx (fg new_cs)) (l_idx (bg new_cs)) in
    let out := if reset then put_fits out sgr0 else out in
    let params := attr_params reset bNoFlash old_cs new_cs in
    let params := true_param reset [51; 56] (fg old_cs) (fg new_cs) params in
    let params := true_param reset [52; 56] (bg old_cs) (bg new_cs) params in
    put_params out params.

(** *** The loop of the three renderers *)

Record rd_vars := { rd_p : bytes; rd_out : bytes; rd_cs : co_ColorState; rd_emitted : co_ColorState }.

Definition client_normal (bNoBleed : bool) : co_ColorState :=
  if bNoBleed then set_fg (palette_layer 7) CO_CS_NORMAL else CO_CS_NORMAL.

Definition render_body (emit : bytes -> co_ColorState -> co_ColorState -> bytes) (bNoBleed : bool)
    (v : rd_vars) : rd_vars + (bytes * co_ColorState) :=
  if (0 <? length (rd_p v))%nat && (length (rd_out v) <? cap)%nat then
    match pua_step (rd_p v) (rd_cs v) with
    | Some (q, cs) =>
        inl {| rd_p := q; rd_out := rd_out v; rd_cs := cs; rd_emitted := rd_emitted v |}
    | None =>
        let out := emit (rd_out v) (rd_emitted v) (rd_cs v) in
        let emitted := if bNoBleed && (l_idx (fg (rd_cs v)) =? -1) then client_normal bNoBleed else rd_cs v in
        let n := cplen (hd 0 (rd_p v)) in
        if (length (rd_p v) <? n)%nat then inr (out, emitted)
        else if (cap <? length out + n)%nat then inr (out, emitted)
        else
          inl {| rd_p := drop n (rd_p v); rd_out := out ++ take n (rd_p v);
                 rd_cs := rd_cs v; rd_emitted := emitted |}
    end
  else inr (rd_out v, rd_emitted v).

(** The loop and the return to the normal state, with the text [suffix] when [bNoBleed]. *)
Definition render (emit : bytes -> co_ColorState -> co_ColorState -> bytes) (suffix : bytes)
    (data : bytes) (bNoBleed : bool) : option bytes :=
  '(out, emitted) ← iter (render_body emit bNoBleed) (S (length data))
    {| rd_p := data; rd_out := []; rd_cs := CO_CS_NORMAL; rd_emitted := client_normal bNoBleed |};
  Some (if negb (co_cs_equal emitted (client_normal bNoBleed))
        then put_fits out (if bNoBleed then suffix else sgr0) else out).

Definition co_render_ansi16 (data : bytes) (bNoBleed bNoFlash : bool) : option bytes :=
  render (emit_ansi16 bNoBleed bNoFlash) [ESC; 91; 48; 109; ESC; 91; 51; 55; 109] data bNoBleed.
Definition co_render_ansi256 (data : bytes) (bNoBleed bNoFlash : bool) : option bytes :=
  render (emit_ansi256 bNoBleed bNoFlash)
    [ESC; 91; 48; 109; ESC; 91; 51; 56; 59; 53; 59; 55; 109] data bNoBleed.
Definition co_render_truecolor (data : bytes) (bNoBleed bNoFlash : bool) : option bytes :=
  render (emit_truecolor bNoBleed bNoFlash)
    [ESC; 91; 48; 109; ESC; 91; 51; 56; 59; 53; 59; 55; 109] data bNoBleed.
End Render.

(** ** [co_parse_ansi]

    The destination's size is [LBUF_SIZE] of the configuration: [dst_cap]. *)

Section Parse.
Context {cfg : Config}.

(** [if (x < 0) x = 0; if (x > 255) x = 255;] *)
Definition clamp255 (x : Z) : Z := if x <? 0 then 0 else if 255 <? x then 255 else x.

(** [emit_sgr_as_pua] over the parameters that are left. *)
Fixpoint sgr_loop (out : bytes) (params : list Z) : bytes :=
  match params with
  | [] => out
  | p :: ps =>
      if p =? 0 then sgr_loop (emit_pua_bmp out 62720) ps
      else if p =? 1 then sgr_loop (emit_pua_bmp out 62721) ps
      else if p =? 4 then sgr_loop (emit_pua_bmp out 62724) ps
      else if p =? 5 then sgr_loop (emit_pua_bmp out 62725) ps
      else if p =? 7 then sgr_loop (emit_pua_bmp out 62727) ps
      else if in_rng 30 37 p then sgr_loop (emit_pua_bmp out (62976 + (p - 30))) ps
      else if in_rng 40 47 p then sgr_loop (emit_pua_bmp out (63232 + (p - 40))) ps
      else if in_rng 90 97 p then sgr_loop (emit_pua_bmp out (62976 + 8 + (p - 90))) ps
      else if in_rng 100 107 p then sgr_loop (emit_pua_bmp out (63232 + 8 + (p - 100))) ps
      else if p =? 39 then sgr_loop (emit_pua_bmp out 62720) ps
      else if p =? 49 then sgr_loop (emit_pua_bmp out 62720) ps
      else if (p =? 38) || (p =? 48) then
        match ps with
        | mode :: ps1 =>
            match ps1 with
            | idx :: ps2 =>
                if mode =? 5 then
                  sgr_loop (emit_pua_bmp out ((if p =? 38 then 62976 else 63232) + clamp255 idx)) ps2
                else
                  match ps2 with
                  | g :: b :: ps4 =>
                      if mode =? 2 then
                        let r := clamp255 idx in
                        let g := clamp255 g in
                        let b := clamp255 b in
                        let block_base := if p =? 38 then 0 else 2 in
                        let cp1 := Z.lor (Z.shiftl (Z.land (Z.shiftr r 4) 15) 8) g in
                        let cp2 := Z.lor (Z.shiftl (Z.land r 15) 8) b in
                        sgr_loop (emit_pua_smp (emit_pua_smp out block_base cp1) (block_base + 1) cp2) ps4
                      else sgr_loop out ps
                  | _ => sgr_loop out ps
                  end
            | [] => sgr_loop out ps
            end
        | [] => sgr_loop out ps
        end
      else sgr_loop out ps
  end.

Definition emit_sgr_as_pua (out : bytes) (params : list Z) : bytes :=
  match params with
  | [] => emit_pua_bmp out 62720
  | _ => sgr_loop out params
  end.

Inductive ansi_state := Normal | GotEsc | InCSI.

Record pa_vars := { pa_out : bytes; pa_state : ansi_state; pa_params : list Z; pa_cur : Z }.

(** One iteration, for the byte [ch]. *)
Definition ansi_step (v : pa_vars) (ch : Z) : pa_vars :=
  let set st := {| pa_out := pa_out v; pa_state := st; pa_params := pa_params v; pa_cur := pa_cur v |} in
  match pa_state v with
  | Normal =>
      if ch =? ESC then set GotEsc
      else {| pa_out := pa_out v ++ [ch]; pa_state := Normal; pa_params := pa_params v; pa_cur := pa_cur v |}
  | GotEsc =>
      if ch =? 91 then {| pa_out := pa_out v; pa_state := InCSI; pa_params := []; pa_cur := -1 |}
      else set Normal
  | InCSI =>
      if in_rng 48 57 ch then
        let cur := (if pa_cur v <? 0 then 0 else pa_cur v) * 10 + (ch - 48) in
        {| pa_out := pa_out v; pa_state := InCSI; pa_params := pa_params v;
           pa_cur := if 9999 <? cur then 9999 else cur |}
      else if ch =? 59 then
        {| pa_out := pa_out v; pa_state := InCSI;
           pa_params := if (length (pa_params v) <? 16)%nat
                        then pa_params v ++ [if pa_cur v <? 0 then 0 else pa_cur v] else pa_params v;
           pa_cur := -1 |}
      else if ch =? 109 then
        let params := if (0 <=? pa_cur v) && (length (pa_params v) <? 16)%nat
                      then pa_params v ++ [pa_cur v] else pa_params v in
        {| pa_out := emit_sgr_as_pua (pa_out v) params; pa_state := Normal; pa_params := params; pa_cur := pa_cur v |}
      else if in_rng 64 126 ch then set Normal
      else v
  end.

Fixpoint ansi_loop (p : bytes) (v : pa_vars) : pa_vars :=
  match p with
  | ch :: p' => if (length (pa_out v) <? cap)%nat then ansi_loop p' (ansi_step v ch) else v
  | [] => v
  end.

Definition co_parse_ansi (src : bytes) : bytes :=
  pa_out (ansi_loop src {| pa_out := []; pa_state := Normal; pa_params := []; pa_cur := -1 |}).
End Parse.

(** ** Every loop ends, and the output fits, on any bytes *)

Lemma pua_step_length p cs q cs' : pua_step p cs = Some (q, cs') -> (length q < length p)%nat.
Proof.
  unfold pua_step. intros H. destruct p as [|p0 [|p1 [|p2 p]]]; try done.
  destruct (_ && _); [simplify_eq; cbn; lia|]. destruct p as [|p3 p]; [done|].
  destruct (_ && _); [simplify_eq; cbn; lia|done].
Qed.

Lemma cplen_pos c : (1 <= cplen c)%nat.
Proof. unfold cplen. repeat case_match; lia. Qed.

Section Bounds.
Context {cfg : Config} {near : NearestPalette}.

Lemma render_attrs_bounds data :
  exists r, co_render_attrs data = Some r /\ (length r.1 <= cap)%nat /\ length r.2 = length r.1.
Proof.
  apply (iter_total attrs_body
    (fun v => (length (ra_out v) <= cap)%nat /\ length (ra_attrs v) = length (ra_out v))
    _ (fun v => length (ra_p v))); cbn; [|lia|lia].
  intros [p out attrs cs]. cbn. intros [Hc Ha]. unfold attrs_body. cbn [ra_p ra_out ra_attrs ra_cs].
  destruct (Nat.ltb_spec 0 (length p)) as [Hp|]; [|done]. destruct (_ <? cap)%nat; [|done]. cbn [andb].
  destruct (pua_step p cs) as [[q cs']|] eqn:E; [by split; [|by apply pua_step_length in E]|].
  pose proof (cplen_pos (hd 0 p)). destruct (Nat.ltb_spec (length p) (cplen (hd 0 p))); [done|].
  destruct (Nat.ltb_spec cap (length out + cplen (hd 0 p))); [done|]. cbn.
  rewrite !length_app, repeat_length, length_take, length_drop. lia.
Qed.

Lemma put_fits_cap out s : (length out <= cap)%nat -> (length (put_fits out s) <= cap)%nat.
Proof.
  intros H. unfold put_fits. destruct (Nat.leb_spec (length out + length s) cap); [|done].
  rewrite length_app. lia.
Qed.

Lemma put_params_cap out ps : (length out <= cap)%nat -> (length (put_params out ps) <= cap)%nat.
Proof. intros H. unfold put_params. case_match; auto using put_fits_cap. Qed.

Lemma emit_caps nb nf out o n : (length out <= cap)%nat ->
  (length (emit_ansi16 nb nf out o n) <= cap)%nat /\ (length (emit_ansi256 nb nf out o n) <= cap)%nat /\
  (length (emit_truecolor nb nf out o n) <= cap)%nat.
Proof.
  intros H. unfold emit_ansi16, emit_ansi256, emit_truecolor. cbn zeta.
  destruct (co_cs_equal _ _); [done|].
  split_and!; apply put_params_cap; destruct (sgr_reset _ _ _ _ _ _); auto using put_fits_cap.
Qed.

Lemma render_bounds emit suffix data nb :
  (forall out o n, (length out <= cap)%nat -> (length (emit out o n) <= cap)%nat) ->
  exists r, render emit suffix data nb = Some r /\ (length r <= cap)%nat.
Proof.
  intros He. unfold render.
  destruct (iter_total (render_body emit nb) (fun v => length (rd_out v) <= cap)%nat
    (fun r => length r.1 <= cap)%nat (fun v => length (rd_p v))) with (fuel := S (length data))
    (s := {| rd_p := data; rd_out := []; rd_cs := CO_CS_NORMAL; rd_emitted := client_normal nb |})
    as ([out emitted] & -> & Hr); [|cbn; lia|cbn; lia|].
  - intros [p out cs e]. cbn. intros Hc. unfold render_body. cbn [rd_p rd_out rd_cs rd_emitted].
    destruct (Nat.ltb_spec 0 (length p)) as [Hp|]; [|done]. destruct (_ <? cap)%nat; [|done]. cbn [andb].
    destruct (pua_step p cs) as [[q cs']|] eqn:E; [by split; [|by apply pua_step_length in E]|].
    pose proof (cplen_pos (hd 0 p)). specialize (He out e cs Hc).
    destruct (Nat.ltb_spec (length p) (cplen (hd 0 p))); [done|].
    destruct (Nat.ltb_spec cap (length (emit out e cs) + cplen (hd 0 p))); [done|]. cbn.
    rewrite length_app, length_take, length_drop. lia.
  - cbn. eexists. split; [done|]. cbn in Hr. destruct (negb _); auto using put_fits_cap.
Qed.

Lemma sgr_loop_cap params : forall out, (length out <= cap)%nat -> (length (sgr_loop out params) <= cap)%nat.
Proof.
  induction params as [params IH] using (well_founded_induction (well_founded_ltof _ (@length Z))).
  intros out H. unfold ltof in IH. destruct params as [|p ps]; [done|].
  pose proof (fun out => IH ps ltac:(cbn; lia) out) as IHp.
  cbn [sgr_loop]. repeat (case_match; [by auto using emit_pua_bmp_cap|]).
  destruct (_ || _); [|by auto]. destruct ps as [|mode [|idx ps]]; [by auto|by auto|].
  destruct (mode =? 5); [apply IH; [cbn; lia|by auto using emit_pua_bmp_cap]|].
  destruct ps as [|g [|b ps]]; [by auto|by auto|].
  destruct (mode =? 2); [apply IH; [cbn; lia|by auto using emit_pua_smp_cap]|by auto].
Qed.

Lemma ansi_step_cap v ch : (length (pa_out v) < cap)%nat -> (length (pa_out (ansi_step v ch)) <= cap)%nat.
Proof.
  intros H. unfold ansi_step. cbn zeta. destruct (pa_state v).
  - case_match; cbn; rewrite ?length_app; cbn; lia.
  - case_match; cbn; lia.
  - destruct (in_rng 48 57 ch); [cbn; lia|]. destruct (ch =? 59); [cbn; lia|].
    destruct (ch =? 109); [|destruct (in_rng 64 126 ch); cbn; lia].
    cbn [pa_out]. generalize (if (0 <=? pa_cur v) && (length (pa_params v) <? 16)%nat
      then pa_params v ++ [pa_cur v] else pa_params v).
    intros [|p ps]; [apply emit_pua_bmp_cap|apply sgr_loop_cap]; lia.
Qed.

Lemma parse_ansi_cap src : (length (co_parse_ansi src) <= cap)%nat.
Proof.
  unfold co_parse_ansi.
  assert (H : forall v, (length (pa_out v) <= cap)%nat -> (length (pa_out (ansi_loop src v)) <= cap)%nat).
  { induction src as [|ch src IH]; intros v Hv; cbn [ansi_loop]; [done|].
    destruct (Nat.ltb_spec (length (pa_out v)) cap); [|done]. by apply IH, ansi_step_cap. }
  apply H. cbn. lia.
Qed.
End Bounds.

(** ** [co_render_attrs] on well-formed text *)

Section Attrs.
Context {cfg : Config}.

Definition attrs_of (xs : list (co_ColorState * bytes)) : list co_color_attr :=
  concat (map (fun x => repeat (cs_to_attr x.1) (length x.2)) xs).

Lemma flatten_vis_shown cs ts : flatten (strip ts) = concat (map snd (shown cs ts)).
Proof. by rewrite shown_vis_strip, <- flat_map_concat_map. Qed.

Lemma hd_cplen bs ts : wf_tok (TVis bs) = true -> cplen (hd 0 (bs ++ flatten ts)) = length bs.
Proof.
  intros H. destruct (cplen_tok (TVis bs) (flatten ts) H eq_refl) as (c & q & E & Hc).
  cbn [tok_bytes] in *. by rewrite E.
Qed.

Lemma render_attrs_flatten ts : wf ts -> (length (flatten (strip ts)) <= cap)%nat ->
  co_render_attrs (flatten ts) = Some (flatten (strip ts), attrs_of (shown CO_CS_NORMAL ts)).
Proof.
  intros Hw Hfit. rewrite (flatten_vis_shown CO_CS_NORMAL) in *.
  set (T := concat (map snd (shown CO_CS_NORMAL ts))) in *.
  destruct (iter_total attrs_body
    (fun v => exists us, wf us /\ ra_p v = flatten us /\ ra_out v ++ concat (map snd (shown (ra_cs v) us)) = T /\
       ra_attrs v ++ attrs_of (shown (ra_cs v) us) = attrs_of (shown CO_CS_NORMAL ts))
    (fun r => r = (T, attrs_of (shown CO_CS_NORMAL ts))) (fun v => length (ra_p v)))
    with (fuel := S (length (flatten ts)))
    (s := {| ra_p := flatten ts; ra_out := []; ra_attrs := []; ra_cs := CO_CS_NORMAL |})
    as (r & Er & ->); [|by exists ts|cbn; lia|exact Er].
  clear Hw. intros [p out attrs cs] (us & Hw & E & HT & HA). cbn [ra_p ra_out ra_attrs ra_cs] in *. subst p.
  unfold attrs_body. cbn [ra_p ra_out ra_attrs ra_cs].
  assert (Hl : (length out + length (concat (map snd (shown cs us))) <= cap)%nat)
    by (rewrite <- HT, length_app in Hfit; lia).
  destruct us as [|[bs|bs] us].
  - cbn in *. by rewrite !app_nil_r in *; subst.
  - apply wf_cons in Hw as [Ht Hw]. pose proof (tok_bytes_nonempty _ Ht) as Hb.
    cbn [shown map concat snd] in HT, HA, Hl. unfold attrs_of in HA. cbn [map concat fst snd] in HA.
    rewrite flatten_cons in *. cbn [tok_bytes] in *. rewrite length_app in Hl.
    rewrite (proj2 (Nat.ltb_lt 0 _)) by (rewrite length_app; lia).
    rewrite (proj2 (Nat.ltb_lt (length out) _)) by lia. cbn [andb].
    rewrite (pua_step_vis (TVis bs)), hd_cplen by done.
    rewrite (proj2 (Nat.ltb_ge _ _)) by (rewrite length_app; lia).
    rewrite (proj2 (Nat.ltb_ge _ _)) by lia. rewrite take_app_length, drop_app_length. cbn.
    split; [|rewrite length_app; lia]. exists us. by rewrite <- !app_assoc.
  - apply wf_cons in Hw as [Ht Hw]. pose proof (tok_bytes_nonempty _ Ht) as Hb.
    rewrite flatten_cons. rewrite (pua_step_col (TCol bs)) by done.
    destruct (_ && _) eqn:Eb.
    + cbn. split; [by exists us|rewrite length_app; cbn in Hb; lia].
    + apply andb_false_iff in Eb as [Eb|Eb]; apply Nat.ltb_ge in Eb; [rewrite length_app in Eb; lia|].
      cbn [shown] in *. destruct (shown (tok_state cs (TCol bs)) us) as [|x xs] eqn:Ex.
      * cbn in *. by rewrite !app_nil_r in *; subst.
      * exfalso. cbn in Hl. rewrite length_app in Hl.
        pose proof (shown_head_length _ _ _ _ Hw Ex). lia.
Qed.
End Attrs.

(** ** Palette texts

    The texts whose colours are the default and palette entries: no 24-bit colour, and no
    escape character among the visible code points. *)

Definition pal_layer (l : layer) : Prop := l = layer_default \/ exists i, 0 <= i <= 255 /\ l = palette_layer i.
Definition pal_cs (cs : co_ColorState) : Prop := pal_layer (fg cs) /\ pal_layer (bg cs).
Definition pal_tok (t : tok) : Prop :=
  match t with TVis bs => ESC ∉ bs | TCol bs => length bs = 3%nat end.

#[global] Arguments palette_layer : simpl never.

Lemma palette_layer_idx i : l_idx (palette_layer i) = i.
Proof. unfold palette_layer. by destruct (palette i) as [[r g] b]. Qed.

Lemma pal_layer_cases l : pal_layer l ->
  (l = layer_default /\ l_idx l = -1) \/ (0 <= l_idx l <= 255 /\ l = palette_layer (l_idx l)).
Proof. intros [->|(i & Hi & ->)]; [by left|right]. by rewrite palette_layer_idx. Qed.

Lemma pal_layer_eq a b : pal_layer a -> pal_layer b -> bool_decide (a = b) = (l_idx a =? l_idx b).
Proof.
  intros Ha Hb. destruct (pal_layer_cases a Ha) as [[Ea Ia]|[Ia Ea]], (pal_layer_cases b Hb) as [[Eb Ib]|[Ib Eb]];
    destruct (Z.eqb_spec (l_idx a) (l_idx b)) as [E|E].
  all: first [exfalso; lia | apply bool_decide_eq_true; congruence | apply bool_decide_eq_false; congruence].
Qed.

Lemma pal_normal : pal_cs CO_CS_NORMAL.
Proof. split; by left. Qed.

Lemma pal_layer_wf l : pal_layer l -> wf_layer l.
Proof. intros [->|(i & Hi & ->)]; [apply normal_wf|by apply palette_layer_wf]. Qed.

Lemma pal_cs_wf cs : pal_cs cs -> wf_cs cs.
Proof. intros [? ?]. split; by apply pal_layer_wf. Qed.

Lemma pal_tok_state cs bs : pal_cs cs -> wf_tok (TCol bs) = true -> length bs = 3%nat ->
  pal_cs (tok_state cs (TCol bs)).
Proof.
  intros [Hf Hb] Hw Hl. unfold tok_state. destruct bs as [|p0 [|p1 [|p2 [|]]]]; try done.
  cbn [pua_step]. destruct (_ && _); [|done]. unfold parse_bmp_color. cbn zeta.
  repeat (case_match; [by try apply pal_normal|]).
  case_match; [byte_hyps; split; [right; eexists; split; [|reflexivity]; lia|done]|].
  case_match; [byte_hyps; split; [done|right; eexists; split; [|reflexivity]; lia]|done].
Qed.

(** ** The escape sequence of a transition *)

(** Parameters as numbers and as text. *)
Fixpoint joined (ps : list Z) : bytes :=
  match ps with
  | [] => []
  | p :: ps' => fmt_d p ++ match ps' with [] => [] | _ => 59 :: joined ps' end
  end.

Lemma fmt_d_nonempty z : fmt_d z <> [].
Proof.
  unfold fmt_d, number. case_match; [done|]. cbn [decimal]. by destruct (if (_ <? 10)%nat then _ else _).
Qed.

Lemma joined_app ps qs : ps <> [] -> qs <> [] -> joined (ps ++ qs) = joined ps ++ 59 :: joined qs.
Proof.
  intros Hp Hq. induction ps as [|p ps IH]; [done|]. destruct ps as [|p' ps].
  - cbn [app joined]. destruct qs; [done|]. by rewrite app_nil_r.
  - change ((p :: p' :: ps) ++ qs) with (p :: (p' :: ps) ++ qs). cbn [joined].
    change (match (p' :: ps) ++ qs with [] => [] | _ => 59 :: joined ((p' :: ps) ++ qs) end)
      with (59 :: joined ((p' :: ps) ++ qs)). rewrite IH by done. by rewrite <- app_assoc.
Qed.

Lemma joined_nil ps : joined ps = [] -> ps = [].
Proof. destruct ps as [|p ps]; [done|]. cbn. intros [H _]%app_nil. by destruct (fmt_d_nonempty p). Qed.

Definition sgr_if (c : bool) (ps : list Z) : list Z := if c then ps else [].

Lemma add_if_joined c ps qs : qs <> [] ->
  add_if c (joined ps) (joined qs) = joined (ps ++ sgr_if c qs).
Proof.
  intros Hq. destruct c; [|by unfold sgr_if; rewrite app_nil_r]. unfold add_if, add_param.
  destruct ps as [|p ps]; [done|]. rewrite joined_app by done.
  destruct (Nat.ltb_spec 0 (length (joined (p :: ps)))) as [|Hl]; [done|].
  destruct (joined (p :: ps)) eqn:E; [by apply joined_nil in E|cbn in Hl; lia].
Qed.

(** The parameters of a transition between palette states. *)
Definition sgr_params (reset : bool) (old new : co_ColorState) : list Z :=
  sgr_if (intense new && (reset || negb (intense old))) [1] ++
  sgr_if (underline new && (reset || negb (underline old))) [4] ++
  sgr_if (blink new && (reset || negb (blink old))) [5] ++
  sgr_if (inverse new && (reset || negb (inverse old))) [7] ++
  sgr_if ((0 <=? l_idx (fg new)) && (reset || negb (l_idx (fg new) =? l_idx (fg old)))) [38; 5; l_idx (fg new)] ++
  sgr_if ((0 <=? l_idx (bg new)) && (reset || negb (l_idx (bg new) =? l_idx (bg old)))) [48; 5; l_idx (bg new)].

Definition esc (ps : list Z) : bytes := [ESC; 91] ++ joined ps ++ [109].

Definition escs (ps : list Z) : bytes := match ps with [] => [] | _ => esc ps end.

Definition sgr_text (old new : co_ColorState) : bytes :=
  if co_cs_equal old new then []
  else (if need_reset old new then esc [0] else []) ++
    escs (sgr_params (need_reset old new) old new).

(** A writer that writes the escape sequence of the transition when it fits. *)
Definition writes_sgr {cfg : Config} (emit : bytes -> co_ColorState -> co_ColorState -> bytes) : Prop :=
  forall out old new, pal_cs old -> pal_cs new -> (length out + length (sgr_text old new) <= cap)%nat ->
    emit out old new = out ++ sgr_text old new.

Section EmitSgr.
Context {cfg : Config} {near : NearestPalette}.

Lemma attr_params_joined reset old new :
  attr_params reset false old new =
  joined (sgr_if (intense new && (reset || negb (intense old))) [1] ++
    sgr_if (underline new && (reset || negb (underline old))) [4] ++
    sgr_if (blink new && (reset || negb (blink old))) [5] ++
    sgr_if (inverse new && (reset || negb (inverse old))) [7]).
Proof.
  unfold attr_params. rewrite andb_true_r. change (add_if ?c [] [49]) with (add_if c (joined []) (joined [1])).
  change [52] with (joined [4]). change [53] with (joined [5]). change [55] with (joined [7]).
  rewrite !add_if_joined by done. by rewrite <- !app_assoc.
Qed.

Lemma put_sgr (out : bytes) (reset : bool) (ps : list Z) :
  (length out + length ((if reset then esc [0%Z] else []) ++ escs ps) <= cap)%nat ->
  put_params (if reset then put_fits out sgr0 else out) (joined ps) =
  out ++ (if reset then esc [0] else []) ++ escs ps.
Proof.
  intros H. change (esc [0]) with sgr0 in *. rewrite length_app in H.
  assert (E : (if reset then put_fits out sgr0 else out) = out ++ if reset then sgr0 else []).
  { destruct reset; [|by rewrite app_nil_r]. unfold put_fits. by rewrite (proj2 (Nat.leb_le _ _)) by lia. }
  rewrite E, app_assoc. unfold put_params. destruct ps as [|p ps]; [by rewrite app_nil_r|].
  destruct (Nat.ltb_spec 0 (length (joined (p :: ps)))) as [_|Hl].
  - unfold put_fits. rewrite (proj2 (Nat.leb_le _ _)); [done|]. unfold escs, esc in H. rewrite length_app. lia.
  - destruct (joined (p :: ps)) eqn:Ej; [by apply joined_nil in Ej|cbn in Hl; lia].
Qed.

Lemma pal_resolve256 l : pal_layer l -> resolve256 l = l_idx l.
Proof.
  intros H. unfold resolve256. destruct (pal_layer_cases l H) as [[_ E]|[E _]]; [by rewrite E|]. by byte_cases.
Qed.

Lemma sgr_reset_need old new :
  sgr_reset old new (l_idx (fg old)) (l_idx (bg old)) (l_idx (fg new)) (l_idx (bg new)) = need_reset old new.
Proof. reflexivity. Qed.

Lemma indexed_fg n : indexed [51; 56] n = joined [38; 5; n].
Proof.
  change (joined [38; 5; n]) with (([51; 56] ++ [59; 53; 59]) ++ fmt_d n ++ []). by rewrite app_nil_r.
Qed.

Lemma indexed_bg n : indexed [52; 56] n = joined [48; 5; n].
Proof.
  change (joined [48; 5; n]) with (([52; 56] ++ [59; 53; 59]) ++ fmt_d n ++ []). by rewrite app_nil_r.
Qed.

Lemma emit_ansi256_sgr : writes_sgr (emit_ansi256 false false).
Proof.
  intros out old new [Hof Hob] [Hnf Hnb] Hfit. unfold emit_ansi256, sgr_text in *. cbn [adjust andb] in *. cbn zeta.
  destruct (co_cs_equal old new); [by rewrite app_nil_r|].
  rewrite !pal_resolve256, sgr_reset_need, attr_params_joined by done.
  rewrite indexed_fg, indexed_bg, !add_if_joined by done. rewrite <- !app_assoc.
  apply (put_sgr out (need_reset old new) (sgr_params (need_reset old new) old new)), Hfit.
Qed.

(** A layer of [emit_truecolor]. *)
Lemma true_param_pal reset base old new params : pal_layer old -> pal_layer new ->
  true_param reset base old new params =
  add_if ((0 <=? l_idx new) && (reset || negb (l_idx new =? l_idx old))) params (indexed base (l_idx new)).
Proof.
  intros Ho Hn. unfold true_param. cbn zeta. rewrite pal_layer_eq, (Z.eqb_sym (l_idx old)) by done.
  destruct (pal_layer_cases new Hn) as [[_ E]|[E _]].
  - rewrite E. cbn. by rewrite andb_false_r.
  - rewrite (proj2 (Z.eqb_neq _ (-1))), (proj2 (Z.eqb_neq _ (-2))), (proj2 (Z.leb_le 0 _)) by lia.
    cbn [negb]. by rewrite andb_true_r.
Qed.

Lemma emit_truecolor_sgr : writes_sgr (emit_truecolor false false).
Proof.
  intros out old new [Hof Hob] [Hnf Hnb] Hfit. unfold emit_truecolor, sgr_text in *. cbn [adjust andb] in *. cbn zeta.
  destruct (co_cs_equal old new); [by rewrite app_nil_r|].
  rewrite sgr_reset_need, !true_param_pal, attr_params_joined, indexed_fg, indexed_bg, !add_if_joined by done.
  rewrite <- !app_assoc.
  apply (put_sgr out (need_reset old new) (sgr_params (need_reset old new) old new)), Hfit.
Qed.

(** *** The rendered text *)

Fixpoint ansi_text (e p : co_ColorState) (ts : list tok) : bytes :=
  match ts with
  | [] => if co_cs_equal e CO_CS_NORMAL then [] else sgr0
  | TVis bs :: ts' => sgr_text e p ++ bs ++ ansi_text p p ts'
  | t :: ts' => ansi_text e (tok_state p t) ts'
  end.

Lemma ansi_text_nil e p ts : wf ts -> ansi_text e p ts = [] -> ansi_text e p [] = [].
Proof.
  revert p. induction ts as [|[bs|bs] ts IH]; intros p Hw H; [done| |]; apply wf_cons in Hw as [Ht Hw].
  - cbn in H. apply app_nil in H as [_ [-> _]%app_nil]. by pose proof (tok_bytes_nonempty _ Ht).
  - exact (IH _ Hw H).
Qed.

Lemma render_fits emit suffix ts : writes_sgr emit -> wf ts -> Forall pal_tok ts ->
  (length (ansi_text CO_CS_NORMAL CO_CS_NORMAL ts) <= cap)%nat ->
  render emit suffix (flatten ts) false = Some (ansi_text CO_CS_NORMAL CO_CS_NORMAL ts).
Proof.
  intros He Hw Hp Hfit. unfold render. cbn [client_normal]. set (T := ansi_text _ _ ts) in *.
  destruct (iter_total (render_body emit false)
    (fun v => exists us, wf us /\ Forall pal_tok us /\ pal_cs (rd_emitted v) /\ pal_cs (rd_cs v) /\
       rd_p v = flatten us /\ rd_out v ++ ansi_text (rd_emitted v) (rd_cs v) us = T)
    (fun r => r.1 ++ (if co_cs_equal r.2 CO_CS_NORMAL then [] else sgr0) = T) (fun v => length (rd_p v)))
    with (fuel := S (length (flatten ts)))
    (s := {| rd_p := flatten ts; rd_out := []; rd_cs := CO_CS_NORMAL; rd_emitted := CO_CS_NORMAL |})
    as ([out e] & -> & Hr); [|exists ts; split_and!; auto using pal_normal|cbn; lia|].
  2: { cbn in Hr |- *. f_equal. destruct (co_cs_equal e CO_CS_NORMAL); cbn [negb]; [by rewrite app_nil_r in Hr|].
       unfold put_fits. rewrite <- Hr, length_app in Hfit. by rewrite (proj2 (Nat.leb_le _ _)). }
  clear Hw Hp. intros [p out cs e] (us & Hw & Hp & Hpe & Hpc & E & HT). cbn [rd_p rd_out rd_cs rd_emitted] in *. subst p.
  unfold render_body. cbn [rd_p rd_out rd_cs rd_emitted andb].
  assert (Hl : (length out + length (ansi_text e cs us) <= cap)%nat) by (rewrite <- HT, length_app in Hfit; lia).
  destruct us as [|[bs|bs] us]; [done| |]; apply Forall_cons in Hp as [Hpt Hp];
    apply wf_cons in Hw as [Ht Hw]; pose proof (tok_bytes_nonempty _ Ht) as Hb; cbn [tok_bytes] in Hb.
  - cbn [ansi_text] in *. rewrite flatten_cons. cbn [tok_bytes]. rewrite !length_app in Hl.
    rewrite (proj2 (Nat.ltb_lt 0 _)), (proj2 (Nat.ltb_lt (length out) _)) by (rewrite ?length_app; lia).
    cbn [andb]. rewrite (pua_step_vis (TVis bs)), hd_cplen, He by (done || lia).
    rewrite (proj2 (Nat.ltb_ge _ _)) by (rewrite length_app; lia).
    rewrite (proj2 (Nat.ltb_ge _ _)) by (rewrite length_app; lia). rewrite take_app_length, drop_app_length.
    cbn [rd_p rd_out rd_cs rd_emitted]. split; [|rewrite length_app; lia]. exists us. by rewrite <- !app_assoc.
  - rewrite flatten_cons, (pua_step_col (TCol bs)) by done. cbn [tok_bytes]. destruct (_ && _) eqn:Eb.
    + cbn [rd_p rd_out rd_cs rd_emitted]. split; [|rewrite length_app; lia].
      exists us. cbn [ansi_text] in HT. split_and!; auto using pal_tok_state.
    + apply andb_false_iff in Eb as [Eb|Eb]; apply Nat.ltb_ge in Eb; [rewrite length_app in Eb; lia|].
      cbn [fst snd]. rewrite <- HT. f_equal.
      destruct (ansi_text e cs (TCol bs :: us)) eqn:Ea; [|cbn in Hl; lia].
      by apply (ansi_text_nil e cs (TCol bs :: us)) in Ea; [|apply wf_cons].
Qed.
End EmitSgr.

(** ** Parsing the rendered text *)

Section ParseSgr.
Context {cfg : Config}.

Lemma ansi_loop_cons c s v : (length (pa_out v) < cap)%nat -> ansi_loop (c :: s) v = ansi_loop s (ansi_step v c).
Proof. intros H. cbn [ansi_loop]. by rewrite (proj2 (Nat.ltb_lt _ _) H). Qed.

Lemma ansi_plain s rest v : ESC ∉ s -> pa_state v = Normal -> (length (pa_out v) + length s <= cap)%nat ->
  exists v', ansi_loop (s ++ rest) v = ansi_loop rest v' /\ pa_state v' = Normal /\ pa_out v' = pa_out v ++ s.
Proof.
  revert v. induction s as [|c s IH]; intros v Hs Hv Hl.
  { exists v. by rewrite app_nil_r. }
  cbn in Hl. apply not_elem_of_cons in Hs as [Hc Hs]. cbn [app ansi_loop].
  rewrite (proj2 (Nat.ltb_lt _ _)) by lia. unfold ansi_step at 1. rewrite Hv. cbn zeta.
  rewrite (proj2 (Z.eqb_neq c ESC)) by congruence.
  destruct (IH {| pa_out := pa_out v ++ [c]; pa_state := Normal; pa_params := pa_params v; pa_cur := pa_cur v |}
    Hs eq_refl) as (v' & -> & Hn & Ho); [cbn; rewrite length_app; cbn; lia|].
  exists v'. split_and!; [done|done|]. rewrite Ho. cbn. by rewrite <- app_assoc.
Qed.

(** *** The digits of a parameter *)

Definition in_csi (out : bytes) (ps : list Z) (cur : Z) : pa_vars :=
  {| pa_out := out; pa_state := InCSI; pa_params := ps; pa_cur := cur |}.

Definition digit_cur (cur ch : Z) : Z :=
  let cur := (if cur <? 0 then 0 else cur) * 10 + (ch - 48) in if 9999 <? cur then 9999 else cur.

Lemma ansi_digits s rest out ps cur : forallb (in_rng 48 57) s = true -> (length out < cap)%nat ->
  ansi_loop (s ++ rest) (in_csi out ps cur) = ansi_loop rest (in_csi out ps (foldl digit_cur cur s)).
Proof.
  intros Hs Hl. revert cur. induction s as [|c s IH]; intros cur; [done|].
  cbn in Hs. apply andb_prop in Hs as [Hc Hs]. cbn [app ansi_loop foldl]. cbn [in_csi pa_out].
  rewrite (proj2 (Nat.ltb_lt _ _) Hl). unfold ansi_step at 1. cbn [pa_state in_csi pa_cur pa_params]. rewrite Hc.
  apply (IH Hs).
Qed.

Lemma fmt_d_digits n : 0 <= n <= 255 ->
  forallb (in_rng 48 57) (fmt_d n) = true /\ foldl digit_cur (-1) (fmt_d n) = n.
Proof.
  intros Hn.
  assert (H : forallb (fun n => forallb (in_rng 48 57) (fmt_d n) && (foldl digit_cur (-1) (fmt_d n) =? n))
    (zrange 0 256) = true) by (vm_compute; reflexivity).
  pose proof (forall_zrange _ 0 256 H n ltac:(lia)) as Hn'. cbn beta in Hn'.
  apply andb_prop in Hn' as [H1 H2]. apply Z.eqb_eq in H2. split; [exact H1|exact H2].
Qed.

Lemma ansi_params ps : forall rest out qs, ps <> [] -> Forall (fun p => 0 <= p <= 255) ps ->
  (length qs + length ps <= 16)%nat -> (length out < cap)%nat ->
  exists v, ansi_loop (joined ps ++ [109] ++ rest) (in_csi out qs (-1)) = ansi_loop rest v /\
    pa_state v = Normal /\ pa_out v = emit_sgr_as_pua out (qs ++ ps).
Proof.
  induction ps as [|p ps IH]; intros rest out qs Hne Hp Hlen Hout; [done|]. apply Forall_cons in Hp as [Hpp Hp].
  destruct (fmt_d_digits p Hpp) as [Hd Hf]. cbn [joined length] in *. rewrite <- app_assoc, ansi_digits, Hf by done.
  destruct ps as [|p' ps].
  - cbn [app ansi_loop]. cbn [in_csi pa_out]. rewrite (proj2 (Nat.ltb_lt _ _) Hout).
    eexists. split; [reflexivity|]. unfold ansi_step. cbn [pa_state in_csi pa_cur pa_params pa_out].
    change (in_rng 48 57 109) with false. change (109 =? 59) with false. change (109 =? 109) with true. cbn iota.
    rewrite (proj2 (Z.leb_le 0 p)) by lia. rewrite (proj2 (Nat.ltb_lt (length qs) 16)) by (cbn in Hlen; lia). done.
  - cbn [app ansi_loop]. cbn [in_csi pa_out]. rewrite (proj2 (Nat.ltb_lt _ _) Hout).
    unfold ansi_step at 1. cbn [pa_state in_csi pa_cur pa_params pa_out].
    change (in_rng 48 57 59) with false. change (59 =? 59) with true. cbn iota.
    rewrite (proj2 (Z.ltb_ge p 0)) by lia. rewrite (proj2 (Nat.ltb_lt (length qs) 16)) by lia.
    destruct (IH rest out (qs ++ [p])) as (v & E & Hv & Ho); [done|done|rewrite length_app; cbn in *; lia|done|].
    exists v. split_and!; [exact E|done|]. rewrite Ho. by rewrite <- app_assoc.
Qed.

Lemma ansi_esc ps rest v : ps <> [] -> Forall (fun p => 0 <= p <= 255) ps -> (length ps <= 16)%nat ->
  pa_state v = Normal -> (length (pa_out v) < cap)%nat ->
  exists v', ansi_loop (esc ps ++ rest) v = ansi_loop rest v' /\ pa_state v' = Normal /\
    pa_out v' = emit_sgr_as_pua (pa_out v) ps.
Proof.
  intros Hne Hp Hl Hv Hout. unfold esc. rewrite <- !app_assoc. cbn [app]. rewrite ansi_loop_cons by done.
  assert (E : ansi_step v ESC = {| pa_out := pa_out v; pa_state := GotEsc; pa_params := pa_params v; pa_cur := pa_cur v |})
    by (unfold ansi_step; by rewrite Hv).
  rewrite E, ansi_loop_cons by done. exact (ansi_params ps rest (pa_out v) [] Hne Hp Hl Hout).
Qed.

(** *** The parameters of a transition are decoded to what [emit_transition] writes *)

Lemma sgr_loop_attr c p cp out ps : 
  (forall out, sgr_loop out (p :: ps) = sgr_loop (emit_pua_bmp out cp) ps) ->
  sgr_loop out (sgr_if c [p] ++ ps) = sgr_loop (emit_if c out cp) ps.
Proof. intros H. destruct c; [apply H|done]. Qed.

Lemma clamp255_id n : 0 <= n <= 255 -> clamp255 n = n.
Proof. intros H. unfold clamp255. by byte_cases. Qed.

Lemma sgr_loop_fg cur new ps out b : pal_layer cur -> pal_layer new ->
  b = (0 <=? l_idx new) && negb (l_idx new =? l_idx cur) ->
  sgr_loop out (sgr_if b [38; 5; l_idx new] ++ ps) = sgr_loop (emit_layer out 62976 0 cur new) ps.
Proof.
  intros Hc Hn ->. unfold emit_layer. cbn zeta. rewrite pal_layer_eq, (Z.eqb_sym (l_idx cur)) by done.
  destruct (pal_layer_cases new Hn) as [[_ E]|[E _]].
  - rewrite E. cbn. by rewrite andb_false_r.
  - rewrite (proj2 (Z.eqb_neq _ (-1))), (proj2 (Z.leb_le 0 _)) by lia. cbn [negb]. rewrite andb_true_r.
    destruct (negb _); [|done]. cbn [sgr_if andb app]. byte_cases. change (sgr_loop out (38 :: 5 :: l_idx new :: ps))
      with (sgr_loop (emit_pua_bmp out (62976 + clamp255 (l_idx new))) ps). by rewrite clamp255_id.
Qed.

Lemma sgr_loop_bg cur new ps out b : pal_layer cur -> pal_layer new ->
  b = (0 <=? l_idx new) && negb (l_idx new =? l_idx cur) ->
  sgr_loop out (sgr_if b [48; 5; l_idx new] ++ ps) = sgr_loop (emit_layer out 63232 2 cur new) ps.
Proof.
  intros Hc Hn ->. unfold emit_layer. cbn zeta. rewrite pal_layer_eq, (Z.eqb_sym (l_idx cur)) by done.
  destruct (pal_layer_cases new Hn) as [[_ E]|[E _]].
  - rewrite E. cbn. by rewrite andb_false_r.
  - rewrite (proj2 (Z.eqb_neq _ (-1))), (proj2 (Z.leb_le 0 _)) by lia. cbn [negb]. rewrite andb_true_r.
    destruct (negb _); [|done]. cbn [sgr_if andb app]. byte_cases. change (sgr_loop out (48 :: 5 :: l_idx new :: ps))
      with (sgr_loop (emit_pua_bmp out (63232 + clamp255 (l_idx new))) ps). by rewrite clamp255_id.
Qed.

Definition sgr_from (reset : bool) (old : co_ColorState) : co_ColorState := if reset then CO_CS_NORMAL else old.

Lemma reset_attr (reset n : bool) old f : f CO_CS_NORMAL = false ->
  n && (reset || negb (f old)) = n && negb (f (sgr_from reset old)).
Proof. intros Hf. destruct reset; cbn; [by rewrite Hf|done]. Qed.

Lemma reset_layer (reset : bool) (old new : layer) :
  (0 <=? l_idx new) && (reset || negb (l_idx new =? l_idx old)) =
  (0 <=? l_idx new) && negb (l_idx new =? l_idx (if reset then layer_default else old)).
Proof.
  destruct reset; [|done]. cbn. destruct (Z.leb_spec 0 (l_idx new)); [|done]. by rewrite (proj2 (Z.eqb_neq _ (-1))) by lia.
Qed.

Lemma sgr_params_decode out reset old new : pal_cs old -> pal_cs new ->
  sgr_loop out (sgr_params reset old new) =
  let cur := sgr_from reset old in
  let out := emit_if (intense new && negb (intense cur)) out 62721 in
  let out := emit_if (underline new && negb (underline cur)) out 62724 in
  let out := emit_if (blink new && negb (blink cur)) out 62725 in
  let out := emit_if (inverse new && negb (inverse cur)) out 62727 in
  emit_layer (emit_layer out 62976 0 (fg cur) (fg new)) 63232 2 (bg cur) (bg new).
Proof.
  intros [Hof Hob] [Hnf Hnb]. unfold sgr_params. cbn zeta.
  rewrite (reset_attr reset (intense new) old intense), (reset_attr reset (underline new) old underline),
    (reset_attr reset (blink new) old blink), (reset_attr reset (inverse new) old inverse) by done.
  rewrite (sgr_loop_attr _ 1 62721), (sgr_loop_attr _ 4 62724), (sgr_loop_attr _ 5 62725), (sgr_loop_attr _ 7 62727) by done.
  rewrite !reset_layer. rewrite (sgr_loop_fg (fg (sgr_from reset old))); [|by destruct reset; [left|]|done|by destruct reset].
  rewrite <- (app_nil_r (sgr_if _ _)).
  rewrite (sgr_loop_bg (bg (sgr_from reset old))); [done|by destruct reset; [left|]|done|by destruct reset].
Qed.

Lemma sgr_params_range reset old new : pal_cs old -> pal_cs new ->
  Forall (fun p => 0 <= p <= 255) (sgr_params reset old new) /\ (length (sgr_params reset old new) <= 16)%nat.
Proof.
  intros _ [Hf Hb]. unfold sgr_params. split.
  - assert (H : forall l, pal_layer l -> (0 <=? l_idx l) = true -> 0 <= l_idx l <= 255).
    { intros l Hl H%Z.leb_le. destruct (pal_layer_cases l Hl) as [[_ ?]|[? _]]; lia. }
    rewrite !Forall_app. split_and!; unfold sgr_if; destruct (_ && _) eqn:E; try done;
      apply andb_prop in E as [E _]; repeat constructor; try lia; by apply H.
  - rewrite !length_app. unfold sgr_if. repeat case_match; cbn; lia.
Qed.

(** Parsing the escape sequence of a transition writes the transition. *)
Lemma ansi_sgr_text old new rest v : pal_cs old -> pal_cs new -> pa_state v = Normal ->
  (length (pa_out v) + length (flatten (transition old new)) < cap)%nat ->
  exists v', ansi_loop (sgr_text old new ++ rest) v = ansi_loop rest v' /\ pa_state v' = Normal /\
    pa_out v' = pa_out v ++ flatten (transition old new).
Proof.
  intros Ho Hn Hv Hl. rewrite <- emit_transition_fits by lia.
  assert (Hr : exists v1, ansi_loop ((if need_reset old new then esc [0] else []) ++
      escs (sgr_params (need_reset old new) old new) ++ rest) v =
      ansi_loop (escs (sgr_params (need_reset old new) old new) ++ rest) v1 /\ pa_state v1 = Normal /\
      pa_out v1 = emit_if (need_reset old new) (pa_out v) 62720).
  { destruct (need_reset old new); [|by exists v]. apply ansi_esc; [done|repeat constructor; lia|cbn; lia|done|lia]. }
  unfold sgr_text, emit_transition, transition in *. destruct (co_cs_equal old new); [by exists v|].
  destruct Hr as (v1 & E & Hv1 & Ho1). rewrite <- app_assoc, E. cbn zeta. rewrite <- Ho1.
  pose proof (sgr_params_range (need_reset old new) old new Ho Hn) as [Hp Hlen].
  pose proof (sgr_params_decode (pa_out v1) (need_reset old new) old new Ho Hn) as Hd.
  cbn zeta in Hd. unfold sgr_from in Hd. rewrite <- Hd.
  unfold escs. destruct (sgr_params _ _ _) as [|p ps] eqn:Ep; [by exists v1|].
  apply (ansi_esc (p :: ps)); [done|done|done|done|]. rewrite Ho1.
  destruct (need_reset old new); cbn [emit_if]; [|lia].
  cbn [flatten flat_map] in Hl. rewrite length_app in Hl.
  rewrite emit_pua_bmp_fits by (cbn in Hl; lia). rewrite length_app. cbn in *. lia.
Qed.
End ParseSgr.

(** *** The text that rendering and parsing gives *)

Fixpoint rendered (e p : co_ColorState) (ts : list tok) : list tok :=
  match ts with
  | [] => if co_cs_equal e CO_CS_NORMAL then [] else [bmp 62720]
  | TVis bs :: ts' => transition e p ++ TVis bs :: rendered p p ts'
  | t :: ts' => rendered e (tok_state p t) ts'
  end.

Lemma rendered_shown d e p ts : cs_eqv d e -> wf_cs p ->
  shown_eqv (shown d (rendered e p ts)) (shown p ts) /\ cs_eqv (final_state d (rendered e p ts)) CO_CS_NORMAL.
Proof.
  revert d e p. induction ts as [|[bs|bs] ts IH]; intros d e p He Hp; cbn [rendered].
  - unfold co_cs_equal. case_bool_decide as E; [subst; by split; [constructor|]|].
    cbn [final_state foldl shown bmp]. fold (bmp 62720). rewrite tok_state_bmp by lia. by split; [constructor|].
  - rewrite shown_cols, final_app by apply transition_cols. cbn.
    pose proof (transition_state d e p He Hp) as Ht. destruct (IH _ p p Ht Hp) as [H1 H2].
    split; [|done]. by constructor.
  - cbn. apply IH; [done|]. by apply (tok_state_wf p (TCol bs)).
Qed.

Lemma rendered_wf e p ts : wf_cs p -> wf ts -> wf (rendered e p ts).
Proof.
  revert e p. induction ts as [|[bs|bs] ts IH]; intros e p Hp Hw; cbn [rendered].
  - destruct (co_cs_equal _ _); [constructor|]. constructor; [by apply bmp_wf|constructor].
  - apply wf_cons in Hw as [Ht Hw]. apply wf_app. split; [by apply transition_wf|].
    apply wf_cons. auto.
  - apply wf_cons in Hw as [Ht Hw]. apply IH; [|done]. by apply (tok_state_wf p (TCol bs)).
Qed.

Lemma parse_rendered {cfg : Config} ts e p v : wf ts -> Forall pal_tok ts -> pal_cs e -> pal_cs p ->
  pa_state v = Normal -> (length (pa_out v) + length (flatten (rendered e p ts)) < cap)%nat ->
  pa_out (ansi_loop (ansi_text e p ts) v) = pa_out v ++ flatten (rendered e p ts).
Proof.
  revert e p v. induction ts as [|[bs|bs] ts IH]; intros e p v Hw Hp He Hpp Hv Hl; cbn [ansi_text rendered] in *.
  - destruct (co_cs_equal e CO_CS_NORMAL); [by rewrite app_nil_r|].
    destruct (ansi_esc [0] [] v) as (v' & E & _ & Ho); [done|repeat constructor; lia|cbn; lia|done|lia|].
    rewrite app_nil_r in E. change (esc [0]) with sgr0 in E. rewrite E. cbn [ansi_loop]. rewrite Ho.
    apply emit_pua_bmp_fits. cbn in Hl. lia.
  - apply wf_cons in Hw as [Ht Hw]. apply Forall_cons in Hp as [Hb Hp].
    rewrite flatten_app, flatten_cons in *. cbn [tok_bytes] in *. rewrite !length_app in Hl.
    destruct (ansi_sgr_text e p (bs ++ ansi_text p p ts) v) as (v1 & -> & Hv1 & Ho1); [done|done|done|lia|].
    destruct (ansi_plain bs (ansi_text p p ts) v1) as (v2 & -> & Hv2 & Ho2);
      [done|done|rewrite Ho1, length_app; lia|].
    rewrite IH, Ho2, Ho1, <- !app_assoc; [done|done|done|done|done|done|].
    rewrite Ho2, Ho1, !length_app. lia.
  - apply wf_cons in Hw as [Ht Hw]. apply Forall_cons in Hp as [Hb Hp]. apply IH; auto using pal_tok_state.
Qed.

(** ** The properties *)

(** [co_render_attrs] separates a text into its visible bytes and their attributes: one
    attribute per byte, that of the state in which its code point is shown. *)
Theorem render_attrs_spec {cfg : Config} ts : wf ts -> (length (flatten (strip ts)) <= cap)%nat ->
  co_render_attrs (flatten ts) =
    Some (flatten (strip ts),
          concat (map (fun x => repeat (cs_to_attr x.1) (length x.2)) (shown CO_CS_NORMAL ts))) /\
  flatten (strip ts) = concat (map snd (shown CO_CS_NORMAL ts)).
Proof. intros Hw Hl. split; [by apply render_attrs_flatten|apply flatten_vis_shown]. Qed.

(** C29: rendering a palette text for a terminal, with 256 colours or 24-bit colour, and
    parsing the escape sequences gives a text that shows what the first one shows and ends
    in the default colour. *)
Theorem render_parse_roundtrip {rcfg pcfg : Config} {near : NearestPalette} ts :
  wf ts -> Forall pal_tok ts ->
  (length (ansi_text CO_CS_NORMAL CO_CS_NORMAL ts) <= cap (cfg := rcfg))%nat ->
  (length (flatten (rendered CO_CS_NORMAL CO_CS_NORMAL ts)) < cap (cfg := pcfg))%nat ->
  exists a us, co_render_ansi256 (cfg := rcfg) (flatten ts) false false = Some a /\
    co_render_truecolor (cfg := rcfg) (flatten ts) false false = Some a /\
    co_parse_ansi (cfg := pcfg) a = flatten us /\ wf us /\
    shown_eqv (shown CO_CS_NORMAL us) (shown CO_CS_NORMAL ts) /\ cs_eqv (final_state CO_CS_NORMAL us) CO_CS_NORMAL.
Proof.
  intros Hw Hp Hr Hl. exists (ansi_text CO_CS_NORMAL CO_CS_NORMAL ts), (rendered CO_CS_NORMAL CO_CS_NORMAL ts).
  split; [apply render_fits; auto using emit_ansi256_sgr|].
  split; [apply render_fits; auto using emit_truecolor_sgr|].
  split; [by apply (parse_rendered (cfg := pcfg)); auto using pal_normal|].
  split; [by apply rendered_wf; [apply normal_wf|]|]. apply rendered_shown; [reflexivity|apply normal_wf].
Qed.

(** the renderers and the parser end on any bytes, well formed or not, and their output
    leaves room for the NUL; [co_render_attrs] writes as many attributes as bytes. *)
Theorem render_any_bytes {cfg : Config} {near : NearestPalette} data bNoBleed bNoFlash :
  (exists r, co_render_ansi16 data bNoBleed bNoFlash = Some r /\ (length r <= LBUF_SIZE - 1)%nat) /\
  (exists r, co_render_ansi256 data bNoBleed bNoFlash = Some r /\ (length r <= LBUF_SIZE - 1)%nat) /\
  (exists r, co_render_truecolor data bNoBleed bNoFlash = Some r /\ (length r <= LBUF_SIZE - 1)%nat) /\
  (exists text attrs, co_render_attrs data = Some (text, attrs) /\ (length text <= LBUF_SIZE - 1)%nat /\
    length attrs = length text) /\
  (length (co_parse_ansi data) <= LBUF_SIZE - 1)%nat.
Proof.
  split_and!; try (apply render_bounds; intros out o n H;
    destruct (emit_caps bNoBleed bNoFlash out o n H) as (? & ? & ?); done).
  - destruct (render_attrs_bounds data) as ([text attrs] & E & H1 & H2). by exists text, attrs.
  - apply parse_ansi_cap.
Qed.

(** ** Where the code loses or leaks attributes *)

(** The 24-bit colour of ESC[38;2;r;g;bm is lost: the parser writes only the two code points
    that refine a palette colour, and from the default foreground these leave the default. *)
Theorem parse_truecolor_lost {cfg : Config} r g b : rgb_bytes r g b -> (12 <= cap)%nat ->
  exists cs, l_idx (fg cs) = -1 /\ exists ts, co_parse_ansi (esc [38; 2; r; g; b] ++ [97]) = flatten ts /\
    wf ts /\ shown CO_CS_NORMAL ts = [(cs, [97])].
Proof.
  intros (Hr & Hg & Hb) Hc. unfold byte_ok in *.
  assert (Hn : forall x, 0 <= Z.land x 15 < 16).
  { intros x. change 15 with (Z.ones 4). rewrite Z.land_ones by lia. apply Z.mod_pos_bound. lia. }
  set (cp1 := Z.lor (Z.shiftl (Z.land (Z.shiftr r 4) 15) 8) g). set (cp2 := Z.lor (Z.shiftl (Z.land r 15) 8) b).
  assert (H1 : 0 <= cp1 < 4096) by apply (payload_fields _ g (Hn _) Hg).
  assert (H2 : 0 <= cp2 < 4096) by apply (payload_fields _ b (Hn _) Hb).
  assert (Hw : wf [smp 0 cp1; smp 1 cp2; TVis [97]])
    by (repeat constructor; [apply smp_wf; lia|apply smp_wf; lia]).
  set (cs := final_state CO_CS_NORMAL [smp 0 cp1; smp 1 cp2]). exists cs. split.
  { unfold cs. cbn [final_state foldl]. rewrite !tok_state_smp by lia. reflexivity. }
  exists [smp 0 cp1; smp 1 cp2; TVis [97]]. split_and!; [|done|reflexivity].
  unfold co_parse_ansi.
  destruct (ansi_esc [38; 2; r; g; b] [97] {| pa_out := []; pa_state := Normal; pa_params := []; pa_cur := -1 |})
    as (v & -> & Hv & Ho); [done|repeat constructor; lia|cbn; lia|done|cbn; lia|].
  cbn [pa_out] in Ho. change (emit_sgr_as_pua [] [38; 2; r; g; b]) with (emit_pua_smp (emit_pua_smp [] 0
    (Z.lor (Z.shiftl (Z.land (Z.shiftr (clamp255 r) 4) 15) 8) (clamp255 g))) 1
    (Z.lor (Z.shiftl (Z.land (clamp255 r) 15) 8) (clamp255 b))) in Ho.
  rewrite !clamp255_id in Ho by done. fold cp1 cp2 in Ho.
  rewrite (emit_pua_smp_fits []), emit_pua_smp_fits in Ho by (cbn; lia).
  destruct (ansi_plain [97] [] v) as (v' & E & _ & Ho'); [set_solver|done|rewrite Ho; cbn; lia|].
  cbn [app] in E. rewrite E. cbn [ansi_loop]. rewrite Ho', Ho. reflexivity.
Qed.


(** From a bright colour to a dark one of the 16: the bold that stands for the brightness is
    not turned off. *)
Example ansi16_bright_leaks :
  forallb (fun k => forallb (fun j =>
    bool_decide (emit_ansi16 (cfg := default_config) (near := stub_nearest) false false []
        (set_fg (palette_layer (8 + k)) CO_CS_NORMAL) (set_fg (palette_layer j) CO_CS_NORMAL) =
      esc [30 + j])) (zrange 0 8)) (zrange 0 8) = true.
Proof. vm_compute. reflexivity. Qed.

(** With [bNoBleed] the state after a code point in the default foreground is taken to be
    the normal one, whatever its attributes: here the underline of "a" is never turned off,
    neither for "b" nor at the end. *)
Definition underlined_a_b : list tok := [bmp 62724; TVis [97]; bmp 62720; TVis [98]].

Example nobleed_underline_leaks :
  co_render_truecolor (cfg := default_config) (flatten underlined_a_b) true false =
    Some (esc [4; 38; 5; 7] ++ [97] ++ esc [38; 5; 7] ++ [98]).
Proof. vm_compute. reflexivity. Qed.

(** ** Concrete runs *)

(** "<bold><fg 200>a<reset><bg 7>" and an e with an acute accent. *)
Definition sample_render : list tok :=
  [bmp 62721; bmp (62976 + 200); TVis [97]; bmp 62720; bmp (63232 + 7); TVis [195; 169]].

Lemma sample_render_wf : wf sample_render.
Proof. repeat constructor. Qed.

Lemma render_attrs_spec_witness :
  co_render_attrs (cfg := default_config) (flatten sample_render) =
    Some ([97; 195; 169], Attr 16711895 0 true false false false 1 0 ::
      repeat (Attr 0 12632256 false false false false 0 1) 2).
Proof.
  rewrite (proj1 (render_attrs_spec (cfg := default_config) sample_render sample_render_wf
    ltac:(apply Nat.leb_le; vm_compute; reflexivity))).
  vm_compute. reflexivity.
Defined.

Lemma render_parse_roundtrip_witness :
  exists a us, co_render_ansi256 (cfg := default_config) (near := stub_nearest) (flatten sample_render) false false = Some a /\
    co_render_truecolor (cfg := default_config) (flatten sample_render) false false = Some a /\
    co_parse_ansi (cfg := default_config) a = flatten us /\ wf us /\
    shown_eqv (shown CO_CS_NORMAL us) (shown CO_CS_NORMAL sample_render) /\
    cs_eqv (final_state CO_CS_NORMAL us) CO_CS_NORMAL.
Proof.
  apply render_parse_roundtrip; [exact sample_render_wf| | |].
  - repeat constructor; cbn; rewrite ?not_elem_of_cons; (repeat split); try apply not_elem_of_nil; discriminate.
  - apply Nat.leb_le. vm_compute. reflexivity.
  - apply Nat.ltb_lt. vm_compute. reflexivity.
Defined.

Lemma parse_truecolor_lost_witness :
  exists cs, l_idx (fg cs) = -1 /\
    exists ts, co_parse_ansi (cfg := default_config) (esc [38; 2; 18; 52; 86] ++ [97]) = flatten ts /\
    wf ts /\ shown CO_CS_NORMAL ts = [(cs, [97])].
Proof.
  apply parse_truecolor_lost; [unfold rgb_bytes, byte_ok; lia|apply Nat.leb_le; vm_compute; reflexivity].
Defined.
