(* ===== verification/Html.v ===== *)
(** * [color_ops.c]: the HTML renderer and [co_escape]

    [co_render_html] writes the colour of a text as tags and escapes the four characters
    that HTML reserves; [co_escape] puts a backslash before the characters that the softcode
    evaluator reserves. *)

From S2P Require Import Prelude Encoding Scan Words Substring ColorState Trim Render.

Section Html.
Context {cfg : Config}.

(** ** [co_render_html] *)

(** [snprintf("%02X")] of a byte *)
Definition hex_digit (n : Z) : Z := if n <? 10 then 48 + n else 55 + n.
Definition fmt_02X (n : Z) : bytes := [hex_digit (Z.shiftr n 4); hex_digit (Z.land n 15)].
(** "#%02X%02X%02X" *)
Definition html_rgb (c : Z * Z * Z) : bytes :=
  let '(r, g, b) := c in [35] ++ fmt_02X r ++ fmt_02X g ++ fmt_02X b.

Definition has_color (cs : co_ColorState) : bool :=
  negb (l_idx (fg cs) =? -1) || negb (l_idx (bg cs) =? -1).

(** The components -1 that stand for no colour are [None]. *)
Definition html_layer (l : layer) : option (Z * Z * Z) :=
  if in_rng 0 255 (l_idx l) then Some (palette (l_idx l))
  else if l_idx l =? -2 then Some (layer_rgb l) else None.
Definition html_fg (cs : co_ColorState) : option (Z * Z * Z) :=
  if intense cs && in_rng 0 7 (l_idx (fg cs)) then Some (palette (l_idx (fg cs) + 8)) else html_layer (fg cs).

(** "<COLOR ", "BACK=" and the closing tags *)
Definition s_COLOR : bytes := [60; 67; 79; 76; 79; 82; 32].
Definition s_BACK : bytes := [66; 65; 67; 75; 61].
Definition s_end_COLOR : bytes := [60; 47; 67; 79; 76; 79; 82; 62].

Definition color_tag (cs : co_ColorState) : bytes :=
  match html_fg cs, html_layer (bg cs) with
  | Some f, Some b => s_COLOR ++ html_rgb f ++ [32] ++ html_rgb b ++ [62]
  | Some f, None => s_COLOR ++ html_rgb f ++ [62]
  | None, Some b => s_COLOR ++ s_BACK ++ html_rgb b ++ [62]
  | None, None => []
  end.

(** "<c>" and "</c>" *)
Definition tag_open (c : Z) : bytes := [60; c; 62].
Definition tag_close (c : Z) : bytes := [60; 47; c; 62].

(** [if (cond) { ...; if (wp + tlen <= wp_end) ... }] *)
Definition put_if (cond : bool) (out s : bytes) : bytes := if cond then put_fits out s else out.

Definition color_changed (old new : co_ColorState) : bool :=
  negb (bool_decide (fg old = fg new) && bool_decide (bg old = bg new)).

(** An attribute's tag is closed when the colour changes or the attribute goes, and opened
    when it comes or the colour has changed. *)
Definition closes (changed old new : bool) : bool := if changed then old else old && negb new.
Definition opens (changed old new : bool) : bool := new && (changed || negb old).

Definition emit_html (out : bytes) (old new : co_ColorState) : bytes :=
  if co_cs_equal old new then out
  else
    let changed := color_changed old new in
    let out := put_if (closes changed (inverse old) (inverse new)) out (tag_close 83) in
    let out := put_if (closes changed (blink old) (blink new)) out (tag_close 73) in
    let out := put_if (closes changed (underline old) (underline new)) out (tag_close 85) in
    let out := put_if (closes changed (intense old) (intense new)) out (tag_close 66) in
    let out := put_if (has_color old && changed) out s_end_COLOR in
    let out := put_if (has_color new && changed) out (color_tag new) in
    let out := put_if (opens changed (intense old) (intense new)) out (tag_open 66) in
    let out := put_if (opens changed (underline old) (underline new)) out (tag_open 85) in
    let out := put_if (opens changed (blink old) (blink new)) out (tag_open 73) in
    put_if (opens changed (inverse old) (inverse new)) out (tag_open 83).

(** "&lt;", "&gt;", "&amp;" and "&quot;" *)
Definition html_entity (c : Z) : option bytes :=
  if c =? 60 then Some [38; 108; 116; 59]
  else if c =? 62 then Some [38; 103; 116; 59]
  else if c =? 38 then Some [38; 97; 109; 112; 59]
  else if c =? 34 then Some [38; 113; 117; 111; 116; 59]
  else None.

Definition html_body (v : rd_vars) : rd_vars + (bytes * co_ColorState) :=
  if (0 <? length (rd_p v))%nat && (length (rd_out v) <? cap)%nat then
    match pua_step (rd_p v) (rd_cs v) with
    | Some (q, cs) =>
        inl {| rd_p := q; rd_out := rd_out v; rd_cs := cs; rd_emitted := rd_emitted v |}
    | None =>
        let c := hd 0 (rd_p v) in
        let out := emit_html (rd_out v) (rd_emitted v) (rd_cs v) in
        match html_entity c with
        | Some s =>
            inl {| rd_p := tail (rd_p v); rd_out := put_fits out s; rd_cs := rd_cs v; rd_emitted := rd_cs v |}
        | None =>
            let n := cplen c in
            if (length (rd_p v) <? n)%nat then inr (out, rd_cs v)
            else if (cap <? length out + n)%nat then inr (out, rd_cs v)
            else
              inl {| rd_p := drop n (rd_p v); rd_out := out ++ take n (rd_p v);
                     rd_cs := rd_cs v; rd_emitted := rd_cs v |}
        end
    end
  else inr (rd_out v, rd_emitted v).

Definition co_render_html (data : bytes) : option bytes :=
  '(out, emitted) ← iter html_body (S (length data))
    {| rd_p := data; rd_out := []; rd_cs := CO_CS_NORMAL; rd_emitted := CO_CS_NORMAL |};
  Some (if negb (co_cs_equal emitted CO_CS_NORMAL) then emit_html out emitted CO_CS_NORMAL else out).

(** ** [co_escape] *)

(** The table [co_isescape]: $ % ( ) , ; [ \ ] ^ { } *)
Definition co_isescape (c : Z) : bool :=
  existsb (Z.eqb c) [36; 37; 40; 41; 44; 59; 91; 92; 93; 94; 123; 125].

Record es_vars := { es_p : bytes; es_out : bytes; es_bFirst : bool }.

Definition escape_body (v : es_vars) : es_vars + bytes :=
  if (0 <? length (es_p v))%nat && (length (es_out v) <? cap)%nat then
    let q := co_skip_color (es_p v) in
    let colour := range (es_p v) q in
    let n := if (cap - length (es_out v) <? length colour)%nat then (cap - length (es_out v))%nat else length colour in
    let out := es_out v ++ take n colour in
    let p := drop n (es_p v) in
    match p with
    | [] => inr out
    | ch :: _ =>
        let n := cplen ch in
        if (length p <? n)%nat then inr out
        else
          let esc := es_bFirst v || ((ch <? 128) && co_isescape ch) in
          let out := if esc then WP_SAFE out 92 else out in
          inl {| es_p := drop n p; es_out := wp_safe_bytes out (take n p);
                 es_bFirst := if esc then false else es_bFirst v |}
    end
  else inr (es_out v).

Definition co_escape (data : bytes) : option bytes :=
  iter escape_body (S (length data)) {| es_p := data; es_out := []; es_bFirst := true |}.
End Html.

(** ** HTML as events

    The specification of the renderer: opening and closing tags and text, and the machine
    that reads them.  It refuses to open a tag that is open or to close one that is not. *)

Inductive html_tag := TB | TU | TI | TS.
#[export] Instance html_tag_eq_dec : EqDecision html_tag.
Proof. solve_decision. Defined.

Inductive html_event :=
  | Open (t : html_tag) | Close (t : html_tag)
  | OpenColor (tag : bytes) | CloseColor
  | Text (bs : bytes).

Definition tag_char (t : html_tag) : Z := match t with TB => 66 | TU => 85 | TI => 73 | TS => 83 end.

(** The text of a visible code point. *)
Definition html_text (bs : bytes) : bytes := default bs (html_entity (hd 0 bs)).

Definition print_event (e : html_event) : bytes :=
  match e with
  | Open t => tag_open (tag_char t)
  | Close t => tag_close (tag_char t)
  | OpenColor tag => tag
  | CloseColor => s_end_COLOR
  | Text bs => html_text bs
  end.
Definition print_events : list html_event -> bytes := flat_map print_event.

(** What is open: the colour tag, and the attribute tags. *)
Record html_state := { hs_color : option bytes; hs_tag : html_tag -> bool }.
Definition html_closed : html_state := {| hs_color := None; hs_tag _ := false |}.
Definition set_tag (t : html_tag) (b : bool) (st : html_state) : html_state :=
  {| hs_color := hs_color st; hs_tag u := if decide (u = t) then b else hs_tag st u |}.
Definition set_color (c : option bytes) (st : html_state) : html_state :=
  {| hs_color := c; hs_tag := hs_tag st |}.

(** The final state and the text with what is open around it. *)
Fixpoint read_html (st : html_state) (es : list html_event) : option (html_state * list (html_state * bytes)) :=
  match es with
  | [] => Some (st, [])
  | Open t :: es' => if hs_tag st t then None else read_html (set_tag t true st) es'
  | Close t :: es' => if hs_tag st t then read_html (set_tag t false st) es' else None
  | OpenColor tag :: es' =>
      if bool_decide (tag = []) then None
      else match hs_color st with None => read_html (set_color (Some tag) st) es' | Some _ => None end
  | CloseColor :: es' =>
      match hs_color st with Some _ => read_html (set_color None st) es' | None => None end
  | Text bs :: es' =>
      match read_html st es' with Some (st', xs) => Some (st', (st, bs) :: xs) | None => None end
  end.

Definition attr (cs : co_ColorState) (t : html_tag) : bool :=
  match t with TB => intense cs | TU => underline cs | TI => blink cs | TS => inverse cs end.

Definition with_intense (b : bool) (cs : co_ColorState) : co_ColorState :=
  CS (fg cs) (bg cs) b (underline cs) (blink cs) (inverse cs).

(** The tags of a state: one for each attribute, and the colour tag of its colours.  The
    colour tag of a dark foreground depends on the boldness when it was opened. *)
Definition shows (st : html_state) (cs : co_ColorState) : Prop :=
  (forall t, hs_tag st t = attr cs t) /\
  (if has_color cs then exists b, hs_color st = Some (color_tag (with_intense b cs)) else hs_color st = None).

(** *** The events of the renderer *)

Definition ev_if (c : bool) (e : html_event) : list html_event := if c then [e] else [].

Definition html_trans (old new : co_ColorState) : list html_event :=
  if co_cs_equal old new then []
  else
    let changed := color_changed old new in
    ev_if (closes changed (inverse old) (inverse new)) (Close TS) ++
    ev_if (closes changed (blink old) (blink new)) (Close TI) ++
    ev_if (closes changed (underline old) (underline new)) (Close TU) ++
    ev_if (closes changed (intense old) (intense new)) (Close TB) ++
    ev_if (has_color old && changed) CloseColor ++
    ev_if (has_color new && changed) (OpenColor (color_tag new)) ++
    ev_if (opens changed (intense old) (intense new)) (Open TB) ++
    ev_if (opens changed (underline old) (underline new)) (Open TU) ++
    ev_if (opens changed (blink old) (blink new)) (Open TI) ++
    ev_if (opens changed (inverse old) (inverse new)) (Open TS).

(** The events of a text, from the state written so far and the state of the text. *)
Fixpoint html_events (e p : co_ColorState) (ts : list tok) : list html_event :=
  match ts with
  | [] => html_trans e CO_CS_NORMAL
  | TVis bs :: ts' => html_trans e p ++ Text bs :: html_events p p ts'
  | t :: ts' => html_events e (tok_state p t) ts'
  end.

(** *** The tags are balanced *)

Lemma read_close c t st es : (c = true -> hs_tag st t = true) ->
  read_html st (ev_if c (Close t) ++ es) = read_html (if c then set_tag t false st else st) es.
Proof. intros H. destruct c; [|done]. cbn. by rewrite H. Qed.

Lemma read_open c t st es : (c = true -> hs_tag st t = false) ->
  read_html st (ev_if c (Open t) ++ es) = read_html (if c then set_tag t true st else st) es.
Proof. intros H. destruct c; [|done]. cbn. by rewrite H. Qed.

Lemma read_close_color c st es : (c = true -> is_Some (hs_color st)) ->
  read_html st (ev_if c CloseColor ++ es) = read_html (if c then set_color None st else st) es.
Proof. intros H. destruct c; [|done]. cbn. by destruct (H eq_refl) as [x ->]. Qed.

Lemma read_open_color c tag st es : (c = true -> hs_color st = None /\ tag <> []) ->
  read_html st (ev_if c (OpenColor tag) ++ es) = read_html (if c then set_color (Some tag) st else st) es.
Proof. intros H. destruct c; [|done]. cbn. destruct (H eq_refl) as [-> Ht]. by rewrite bool_decide_false. Qed.

Lemma set_tag_eq c t b st : hs_tag (if c : bool then set_tag t b st else st) t = if c then b else hs_tag st t.
Proof. destruct c; [|done]. cbn. by rewrite decide_True. Qed.
Lemma set_tag_ne c t u b st : u <> t -> hs_tag (if c : bool then set_tag t b st else st) u = hs_tag st u.
Proof. intros H. destruct c; [|done]. cbn. by rewrite decide_False. Qed.
Lemma set_tag_color c t b st : hs_color (if c : bool then set_tag t b st else st) = hs_color st.
Proof. by destruct c. Qed.
Lemma set_color_tag c x st u : hs_tag (if c : bool then set_color x st else st) u = hs_tag st u.
Proof. by destruct c. Qed.
Lemma set_color_eq c x st : hs_color (if c : bool then set_color x st else st) = if c then x else hs_color st.
Proof. by destruct c. Qed.

Lemma html_layer_none l : wf_layer l -> html_layer l = None -> l_idx l = -1.
Proof.
  intros [[H|[H|[H _]]] _]; [done| |]; unfold html_layer; [by rewrite H|]. by byte_cases.
Qed.

Lemma color_tag_nonempty cs : wf_cs cs -> has_color cs = true -> color_tag cs <> [].
Proof.
  intros [Hf Hb] H. unfold color_tag. destruct (html_fg cs) as [c|] eqn:Ef, (html_layer (bg cs)) eqn:Eb; try done.
  exfalso. unfold has_color in H. rewrite (html_layer_none _ Hb Eb) in H. unfold html_fg in Ef.
  destruct (intense cs && in_rng 0 7 (l_idx (fg cs))); [done|]. by rewrite (html_layer_none _ Hf Ef) in H.
Qed.

Lemma color_unchanged old new b : color_changed old new = false ->
  has_color new = has_color old /\ color_tag (with_intense b new) = color_tag (with_intense b old).
Proof.
  unfold color_changed. intros H. apply negb_false_iff, andb_prop in H as [Hf%bool_decide_eq_true Hb%bool_decide_eq_true].
  unfold has_color, color_tag, html_fg, with_intense. cbn. by rewrite Hf, Hb.
Qed.

Ltac read_tags :=
  repeat first [rewrite set_tag_color | rewrite set_color_eq | rewrite set_color_tag
               | rewrite set_tag_eq | rewrite set_tag_ne by done].

(** Reading a transition between the tags of two states. *)
Lemma read_trans st old new es : shows st old -> wf_cs new ->
  exists st', read_html st (html_trans old new ++ es) = read_html st' es /\ shows st' new.
Proof.
  intros [Ht Hc] Hw. unfold html_trans, co_cs_equal. case_bool_decide as Eq; [subst; by exists st|].
  cbn zeta. rewrite <- !app_assoc. set (k := color_changed old new).
  assert (Hcl : forall t, closes k (attr old t) (attr new t) = true -> attr old t = true)
    by (intros t; unfold closes; destruct k; [done|by intros [??]%andb_prop]).
  rewrite !read_close by (intros H; read_tags; rewrite Ht; by apply Hcl).
  rewrite read_close_color by (intros [Hh _]%andb_prop; read_tags; rewrite Hh in Hc; destruct Hc as [b ->]; eauto).
  rewrite read_open_color.
  2: { intros [Hh Hk]%andb_prop. split; [|by apply color_tag_nonempty]. read_tags. rewrite Hk, andb_true_r.
       by destruct (has_color old). }
  assert (Hop : forall t, opens k (attr old t) (attr new t) = true ->
      (if closes k (attr old t) (attr new t) then false else attr old t) = false)
    by (intros t; unfold opens, closes; by destruct k, (attr old t), (attr new t)).
  do 4 (rewrite read_open by (intros H; read_tags; rewrite Ht;
    first [exact (Hop TB H) | exact (Hop TU H) | exact (Hop TI H) | exact (Hop TS H)])).
  eexists. split; [reflexivity|]. split.
  - assert (Hall : forall t, (if opens k (attr old t) (attr new t) then true
        else if closes k (attr old t) (attr new t) then false else attr old t) = attr new t)
      by (intros t; unfold opens, closes; by destruct k, (attr old t), (attr new t)).
    intros t. rewrite <- Hall. destruct t; read_tags; by rewrite Ht.
  - read_tags. destruct k eqn:Ek; rewrite ?andb_true_r, ?andb_false_r.
    + destruct (has_color new); [exists (intense new); by destruct new|]. by destruct (has_color old).
    + destruct (color_unchanged old new true Ek) as [-> _]. destruct (has_color old); [|done].
      destruct Hc as [b ->]. exists b. f_equal. symmetry. by apply color_unchanged.
Qed.

Lemma read_events st e p ts : shows st e -> wf_cs p ->
  exists st' xs, read_html st (html_events e p ts) = Some (st', xs) /\ shows st' CO_CS_NORMAL /\
    Forall2 (fun x y => shows x.1 y.1 /\ x.2 = y.2) xs (shown p ts).
Proof.
  revert st e p. induction ts as [|[bs|bs] ts IH]; intros st e p Hs Hp; cbn [html_events shown].
  - destruct (read_trans st e CO_CS_NORMAL [] Hs normal_wf) as (st' & E & Hs'). rewrite app_nil_r in E.
    exists st', []. by rewrite E.
  - destruct (read_trans st e p (Text bs :: html_events p p ts) Hs Hp) as (st1 & -> & Hs1). cbn [read_html].
    destruct (IH st1 p p Hs1 Hp) as (st' & xs & -> & Hs' & Hx). exists st', ((st1, bs) :: xs).
    split_and!; [done|done|]. by constructor.
  - apply IH; [done|]. by apply (tok_state_wf p (TCol bs)).
Qed.

(** ** The renderer writes the events *)

Lemma print_app a b : print_events (a ++ b) = print_events a ++ print_events b.
Proof. apply flat_map_app. Qed.

Section Write.
Context {cfg : Config}.

Lemma put_if_event c out e s : print_event e = s ->
  (length out + length (print_events (ev_if c e)) <= cap)%nat ->
  put_if c out s = out ++ print_events (ev_if c e).
Proof.
  intros <- H. unfold put_if. destruct c; [|by rewrite app_nil_r]. cbn in *. rewrite app_nil_r in *.
  unfold put_fits. by rewrite (proj2 (Nat.leb_le _ _)).
Qed.

Lemma emit_html_fits out old new : (length out + length (print_events (html_trans old new)) <= cap)%nat ->
  emit_html out old new = out ++ print_events (html_trans old new).
Proof.
  unfold emit_html, html_trans. destruct (co_cs_equal old new); [by rewrite app_nil_r|]. cbn zeta.
  rewrite !print_app, !length_app. intros H.
  rewrite (put_if_event _ out (Close TS)), (put_if_event _ _ (Close TI) (tag_close 73)),
    (put_if_event _ _ (Close TU) (tag_close 85)), (put_if_event _ _ (Close TB) (tag_close 66)),
    (put_if_event _ _ CloseColor s_end_COLOR), (put_if_event _ _ (OpenColor (color_tag new)) (color_tag new)),
    (put_if_event _ _ (Open TB) (tag_open 66)), (put_if_event _ _ (Open TU) (tag_open 85)),
    (put_if_event _ _ (Open TI) (tag_open 73)), (put_if_event _ _ (Open TS) (tag_open 83))
    by (done || (rewrite ?length_app; lia)).
  by rewrite <- !app_assoc.
Qed.

(** A reserved character is a code point of its own. *)
Lemma entity_tok bs s : wf_tok (TVis bs) = true -> html_entity (hd 0 bs) = Some s -> exists c, bs = [c].
Proof.
  intros Ht H. assert (Hc : hd 0 bs < 128).
  { unfold html_entity in H. destruct (Z.eqb_spec (hd 0 bs) 60); [lia|]. destruct (Z.eqb_spec (hd 0 bs) 62); [lia|].
    destruct (Z.eqb_spec (hd 0 bs) 38); [lia|]. destruct (Z.eqb_spec (hd 0 bs) 34); [lia|done]. }
  pose proof (hd_cplen bs [] Ht) as Hl. cbn [flatten flat_map] in Hl. rewrite app_nil_r in Hl.
  unfold cplen in Hl. rewrite (proj2 (Z.ltb_lt _ _) Hc) in Hl.
  destruct bs as [|c [|]]; cbn in Hl; try lia. by exists c.
Qed.

Lemma html_text_nonempty bs : bs <> [] -> html_text bs <> [].
Proof. intros H. unfold html_text, html_entity. repeat (case_match; [done|]). done. Qed.

Lemma html_events_nil e p ts : wf ts -> print_events (html_events e p ts) = [] ->
  print_events (html_events e p []) = [].
Proof.
  revert p. induction ts as [|[bs|bs] ts IH]; intros p Hw H; [done| |]; apply wf_cons in Hw as [Ht Hw].
  - cbn [html_events] in H. rewrite print_app in H. apply app_nil in H as [_ H]. cbn in H.
    apply app_nil in H as [H _]. destruct (html_text_nonempty bs); [|done]. intros ->.
    by pose proof (tok_bytes_nonempty _ Ht).
  - exact (IH _ Hw H).
Qed.

Definition html_inv (T : bytes) (v : rd_vars) : Prop :=
  exists us, wf us /\ rd_p v = flatten us /\
    rd_out v ++ print_events (html_events (rd_emitted v) (rd_cs v) us) = T.

Lemma html_step T v : (length T <= cap)%nat -> html_inv T v ->
  match html_body v with
  | inl v' => html_inv T v' /\ (length (rd_p v') < length (rd_p v))%nat
  | inr r => r.1 ++ print_events (html_trans r.2 CO_CS_NORMAL) = T
  end.
Proof.
  intros Hfit. destruct v as [p out cs e]. intros (us & Hw & E & HT). cbn [rd_p rd_out rd_cs rd_emitted] in *. subst p.
  unfold html_body. cbn [rd_p rd_out rd_cs rd_emitted].
  assert (Hl : (length out + length (print_events (html_events e cs us)) <= cap)%nat)
    by (rewrite <- HT, length_app in Hfit; lia).
  destruct us as [|[bs|bs] us]; [done| |]; apply wf_cons in Hw as [Ht Hw];
    pose proof (tok_bytes_nonempty _ Ht) as Hb; cbn [tok_bytes] in Hb.
  - cbn [html_events] in *. rewrite print_app, length_app in Hl. rewrite print_app in HT.
    cbn [print_events flat_map print_event] in Hl, HT. fold print_events in Hl, HT. rewrite length_app in Hl.
    rewrite flatten_cons. cbn [tok_bytes].
    assert (Hne : html_text bs <> []) by (apply html_text_nonempty; by intros ->).
    assert (Hn : (0 < length (html_text bs))%nat) by (destruct (html_text bs); [done|cbn; lia]).
    rewrite (proj2 (Nat.ltb_lt 0 _)), (proj2 (Nat.ltb_lt (length out) _)) by (rewrite ?length_app; lia).
    cbn [andb]. rewrite (pua_step_vis (TVis bs)), hd_cplen, emit_html_fits by (done || lia).
    replace (hd 0 (bs ++ flatten us)) with (hd 0 bs) by (destruct bs; [cbn in Hb; lia|done]).
    unfold html_text in *. destruct (html_entity (hd 0 bs)) as [s|] eqn:Ee; cbn [default] in *; unfold id in *.
    + destruct (entity_tok bs s Ht Ee) as [c ->]. split; [|cbn; lia]. exists us. split_and!; [done|done|].
      cbn [rd_out rd_emitted rd_cs]. unfold put_fits.
      rewrite (proj2 (Nat.leb_le _ _)) by (rewrite length_app; lia). by rewrite <- HT, <- !app_assoc.
    + rewrite (proj2 (Nat.ltb_ge _ _)) by (rewrite length_app; lia).
      rewrite (proj2 (Nat.ltb_ge _ _)) by (rewrite length_app; lia). rewrite take_app_length, drop_app_length.
      split; [|cbn; rewrite length_app; lia]. exists us. split_and!; [done|done|].
      cbn [rd_out rd_emitted rd_cs]. by rewrite <- HT, <- !app_assoc.
  - rewrite flatten_cons, (pua_step_col (TCol bs)) by done. cbn [tok_bytes]. destruct (_ && _) eqn:Eb.
    + split; [by exists us|cbn; rewrite length_app; lia].
    + apply andb_false_iff in Eb as [Eb|Eb]; apply Nat.ltb_ge in Eb; [rewrite length_app in Eb; lia|].
      cbn [fst snd]. rewrite <- HT. f_equal.
      destruct (print_events (html_events e cs (TCol bs :: us))) eqn:Ea; [|cbn in Hl; lia].
      apply (html_events_nil e cs (TCol bs :: us)) in Ea; [done|by apply wf_cons].
Qed.

Lemma render_html_fits ts : wf ts ->
  (length (print_events (html_events CO_CS_NORMAL CO_CS_NORMAL ts)) <= cap)%nat ->
  co_render_html (flatten ts) = Some (print_events (html_events CO_CS_NORMAL CO_CS_NORMAL ts)).
Proof.
  intros Hw Hfit. unfold co_render_html. set (T := print_events _) in *.
  destruct (iter_total html_body (html_inv T) (fun r => r.1 ++ print_events (html_trans r.2 CO_CS_NORMAL) = T)
    (fun v => length (rd_p v))) with (fuel := S (length (flatten ts)))
    (s := {| rd_p := flatten ts; rd_out := []; rd_cs := CO_CS_NORMAL; rd_emitted := CO_CS_NORMAL |})
    as ([out e] & -> & Hr); [by intros v; apply html_step|by exists ts|cbn; lia|].
  cbn [mbind option_bind fst snd] in *. f_equal. destruct (co_cs_equal e CO_CS_NORMAL) eqn:Ee; cbn [negb].
  - unfold html_trans in Hr. rewrite Ee in Hr. by rewrite app_nil_r in Hr.
  - rewrite emit_html_fits; [done|]. by rewrite <- Hr, length_app in Hfit.
Qed.
End Write.

(** ** [co_escape] on well-formed text *)

Definition reserved (bs : bytes) : bool := (hd 0 bs <? 128) && co_isescape (hd 0 bs).

(** The escaped text: a backslash before the first visible code point and before every
    reserved one. *)
Fixpoint escaped (first : bool) (ts : list tok) : list tok :=
  match ts with
  | [] => []
  | TVis bs :: ts' => (if first || reserved bs then [TVis [92]] else []) ++ TVis bs :: escaped false ts'
  | t :: ts' => t :: escaped first ts'
  end.

(** What the softcode evaluator does: a backslash protects the next code point. *)
Fixpoint unescape (V : list tok) : list tok :=
  match V with
  | [] => []
  | t :: V' =>
      if bool_decide (t = TVis [92])
      then match V' with [] => [] | u :: V'' => u :: unescape V'' end
      else t :: unescape V'
  end.

Lemma unescape_escaped first ts : unescape (strip (escaped first ts)) = strip ts.
Proof.
  revert first. induction ts as [|[bs|bs] ts IH]; intros first; [done| |].
  - cbn [escaped]. rewrite strip_app, !strip_vis. destruct (first || reserved bs) eqn:E.
    + change (strip [TVis [92]]) with [TVis [92]]. cbn [app unescape].
      rewrite bool_decide_true by done. by rewrite IH.
    + change (strip []) with (@nil tok). cbn [app unescape].
      rewrite bool_decide_false; [by rewrite IH|]. intros [= ->]. by rewrite orb_true_r in E.
  - cbn [escaped]. apply IH.
Qed.

Lemma escaped_lead first ts : escaped first ts = lead ts ++ escaped first (skip_cols ts).
Proof. induction ts as [|[bs|bs] ts IH]; [done|done|]. cbn. by rewrite IH. Qed.

Section Escape.
Context {cfg : Config}.

Definition escape_inv (T : bytes) (v : es_vars) : Prop :=
  exists us, wf us /\ es_p v = flatten us /\ es_out v ++ flatten (escaped (es_bFirst v) us) = T.

Lemma escape_step T v : (length T <= cap)%nat -> escape_inv T v ->
  match escape_body v with
  | inl v' => escape_inv T v' /\ (length (es_p v') < length (es_p v))%nat
  | inr r => r = T
  end.
Proof.
  intros Hfit. destruct v as [p out first]. intros (us & Hw & E & HT). cbn [es_p es_out es_bFirst] in *. subst p.
  unfold escape_body. cbn [es_p es_out es_bFirst].
  assert (Hl : (length out + length (flatten (escaped first us)) <= cap)%nat)
    by (rewrite <- HT, length_app in Hfit; lia).
  destruct (_ && _) eqn:Eb.
  2: { apply andb_false_iff in Eb as [Eb|Eb]; apply Nat.ltb_ge in Eb.
       - assert (flatten us = []) as Eu by (destruct (flatten us); [done|cbn in Eb; lia]).
         apply flatten_eq_nil in Eu as ->; [|done]. by rewrite app_nil_r in HT.
       - rewrite <- HT. destruct (flatten (escaped first us)); [by rewrite app_nil_r|cbn in Hl; lia]. }
  pose proof (lead_skip us) as El. pose proof (skip_cols_wf us Hw) as Hws. rewrite co_skip_color_flatten by done.
  assert (Eu : flatten us = flatten (lead us) ++ flatten (skip_cols us)) by (rewrite <- El at 1; apply flatten_app).
  rewrite escaped_lead, flatten_app, length_app in Hl. rewrite escaped_lead, flatten_app in HT.
  rewrite Eu, range_app. rewrite (proj2 (Nat.ltb_ge _ _)) by lia. rewrite take_ge, drop_app_length by lia.
  destruct (skip_cols_head us) as [Es|(bs & vs & Es)]; rewrite Es in *.
  { cbn in *. by rewrite app_nil_r in HT. }
  apply wf_cons in Hws as [Ht Hws]. pose proof (tok_bytes_nonempty _ Ht) as Hb. cbn [tok_bytes] in Hb.
  rewrite flatten_cons. cbn [tok_bytes]. destruct bs as [|ch bs]; [cbn in Hb; lia|]. cbn [app].
  pose proof (hd_cplen (ch :: bs) vs Ht) as Hc. cbn [app hd] in Hc. rewrite Hc.
  rewrite (proj2 (Nat.ltb_ge _ _)) by (cbn; rewrite length_app; lia).
  change (ch :: bs ++ flatten vs) with ((ch :: bs) ++ flatten vs). rewrite take_app_length, drop_app_length.
  split; [|cbn [es_p]; rewrite !length_app; cbn; lia].
  exists vs. cbn [es_p es_out es_bFirst]. split_and!; [done|done|].
  cbn [escaped] in HT, Hl. unfold reserved in HT, Hl. cbn [hd] in HT, Hl. rewrite flatten_app, flatten_cons in HT, Hl.
  cbn [tok_bytes] in HT, Hl. rewrite !length_app in Hl.
  destruct (first || _) eqn:Ee.
  - cbn [flatten flat_map tok_bytes app length] in HT, Hl. rewrite <- (clamp_id (out ++ flatten (lead us))) by (rewrite length_app; lia).
    rewrite WP_SAFE_clamp, wp_safe_bytes_clamp, clamp_id by (rewrite !length_app; cbn; lia).
    by rewrite <- HT, <- !app_assoc.
  - destruct first; [done|]. rewrite wp_safe_bytes_fits by (rewrite length_app; cbn in *; lia).
    by rewrite <- HT, <- !app_assoc.
Qed.

Lemma escape_fits ts : wf ts -> (length (flatten (escaped true ts)) <= cap)%nat ->
  co_escape (flatten ts) = Some (flatten (escaped true ts)).
Proof.
  intros Hw Hfit. set (T := flatten (escaped true ts)) in *.
  destruct (iter_total escape_body (escape_inv T) (fun r => r = T) (fun v => length (es_p v)))
    with (fuel := S (length (flatten ts))) (s := {| es_p := flatten ts; es_out := []; es_bFirst := true |})
    as (r & Er & ->); [by intros v; apply escape_step|by exists ts|cbn; lia|exact Er].
Qed.
End Escape.

(** ** The properties *)

(** What a reader of HTML makes of bytes: tags are left out and entities stand for their characters.  The
    state is whether a tag or an entity is being read. *)
Inductive html_lexer := InText | InTag | InEntity (name : bytes).

Definition entity_char (name : bytes) : bytes :=
  if bool_decide (name = [108; 116]) then [60]
  else if bool_decide (name = [103; 116]) then [62]
  else if bool_decide (name = [97; 109; 112]) then [38]
  else if bool_decide (name = [113; 117; 111; 116]) then [34]
  else [].

Fixpoint html_reader (q : html_lexer) (s : bytes) : bytes :=
  match s with
  | [] => []
  | c :: s' =>
      match q with
      | InText =>
          if c =? 60 then html_reader InTag s'
          else if c =? 38 then html_reader (InEntity []) s'
          else c :: html_reader InText s'
      | InTag => html_reader (if c =? 62 then InText else InTag) s'
      | InEntity name =>
          if c =? 59 then entity_char name ++ html_reader InText s' else html_reader (InEntity (name ++ [c])) s'
      end
  end.

Lemma vis_bytes t : wf_tok t = true -> is_vis t = true ->
  (exists c, tok_bytes t = [c]) \/ Forall (fun b => 128 <= b) (tok_bytes t).
Proof.
  intros Ht. tok_shapes t Ht; try done; cbn [tok_bytes]; vis_hyps;
    first [left; by eexists | right; repeat constructor; lia].
Qed.

(** Bytes that are neither the start of a tag nor that of an entity. *)
Lemma reader_text bs s : Forall (fun c => c <> 60 /\ c <> 38) bs -> html_reader InText (bs ++ s) = bs ++ html_reader InText s.
Proof.
  induction 1 as [|c bs [H1 H2] _ IH]; [done|]. cbn [app html_reader].
  rewrite (proj2 (Z.eqb_neq _ _) H1), (proj2 (Z.eqb_neq _ _) H2). by rewrite IH.
Qed.

(** The text of a code point is read as the code point. *)
Lemma reader_html_text bs s : wf_tok (TVis bs) = true -> html_reader InText (html_text bs ++ s) = bs ++ html_reader InText s.
Proof.
  intros Ht. unfold html_text. destruct (html_entity (hd 0 bs)) as [e|] eqn:E.
  - destruct (entity_tok bs e Ht E) as [c ->]. cbn [hd default] in *. unfold id. revert E. unfold html_entity.
    destruct (Z.eqb_spec c 60) as [->|]; [by intros [= <-]|]. destruct (Z.eqb_spec c 62) as [->|]; [by intros [= <-]|].
    destruct (Z.eqb_spec c 38) as [->|]; [by intros [= <-]|]. destruct (Z.eqb_spec c 34) as [->|]; [by intros [= <-]|done].
  - cbn [default]. apply reader_text. unfold html_entity in E.
    destruct (Z.eqb_spec (hd 0 bs) 60); [done|]. destruct (Z.eqb_spec (hd 0 bs) 62); [done|].
    destruct (Z.eqb_spec (hd 0 bs) 38); [done|].
    destruct (vis_bytes (TVis bs) Ht eq_refl) as [[c Ec]|H]; cbn [tok_bytes] in *.
    + subst bs. cbn [hd] in *. by repeat constructor.
    + eapply Forall_impl; [exact H|]. cbn beta. lia.
Qed.

Lemma reader_tag bs s : Forall (fun c => c <> 62) bs -> html_reader InTag (bs ++ 62 :: s) = html_reader InText s.
Proof.
  induction 1 as [|c bs H _ IH]; [done|]. cbn [app html_reader]. by rewrite (proj2 (Z.eqb_neq _ _) H).
Qed.

(** A tag is left out. *)
Definition a_tag (s : bytes) : Prop := exists bs, s = 60 :: bs ++ [62] /\ Forall (fun c => c <> 62) bs.

Lemma reader_a_tag t s : a_tag t -> html_reader InText (t ++ s) = html_reader InText s.
Proof.
  intros (bs & -> & H). cbn [app html_reader]. rewrite <- app_assoc. by apply reader_tag.
Qed.

Lemma html_rgb_inner c : Forall (fun c => c <> 62) (html_rgb c).
Proof.
  destruct c as [[r g] b]. unfold html_rgb, fmt_02X.
  assert (H : forall n, hex_digit n <> 62) by (intros n; unfold hex_digit; case_match; lia).
  cbn [app]. by repeat constructor.
Qed.

Lemma color_tag_tag cs : has_color cs = true -> wf_cs cs -> a_tag (color_tag cs).
Proof.
  intros Hc Hw. pose proof (color_tag_nonempty cs Hw Hc) as Hne. unfold color_tag, a_tag, s_COLOR, s_BACK in *.
  pose proof html_rgb_inner as H. destruct (html_fg cs) as [f|], (html_layer (bg cs)) as [b|]; [| | |done].
  - exists ([67; 79; 76; 79; 82; 32] ++ html_rgb f ++ [32] ++ html_rgb b). split; [by rewrite <- !app_assoc|].
    rewrite !Forall_app. split_and!; [by repeat constructor|done|by repeat constructor|done].
  - exists ([67; 79; 76; 79; 82; 32] ++ html_rgb f). split; [by rewrite <- !app_assoc|].
    rewrite !Forall_app. split_and!; [by repeat constructor|done].
  - exists ([67; 79; 76; 79; 82; 32] ++ [66; 65; 67; 75; 61] ++ html_rgb b). split; [by rewrite <- !app_assoc|].
    rewrite !Forall_app. split_and!; [by repeat constructor|by repeat constructor|done].
Qed.

Lemma reader_ev_if (c : bool) e s : (c = true -> a_tag (print_event e)) ->
  html_reader InText (print_events (ev_if c e) ++ s) = html_reader InText s.
Proof. destruct c; [|done]. intros H. cbn. rewrite app_nil_r. by apply reader_a_tag, H. Qed.

Lemma reader_trans old new s : wf_cs new ->
  html_reader InText (print_events (html_trans old new) ++ s) = html_reader InText s.
Proof.
  intros Hw. unfold html_trans. destruct (co_cs_equal old new); [done|]. cbn zeta. rewrite !print_app, <- !app_assoc.
  assert (Ho : forall t, a_tag (print_event (Open t))) by (intros t; exists [tag_char t]; split; [done|by destruct t; repeat constructor]).
  assert (Hc : forall t, a_tag (print_event (Close t)))
    by (intros t; exists [47; tag_char t]; split; [done|by destruct t; repeat constructor]).
  rewrite !reader_ev_if; try done.
  - intros [Hh _]%andb_prop. by apply color_tag_tag.
  - intros _. exists [47; 67; 79; 76; 79; 82]. split; [done|by repeat constructor].
Qed.

Lemma reader_events e p ts : wf ts -> wf_cs p -> html_reader InText (print_events (html_events e p ts)) = flatten (strip ts).
Proof.
  intros Hw. revert e p. induction ts as [|[bs|bs] ts IH]; intros e p Hp; cbn [html_events].
  - rewrite <- (app_nil_r (print_events _)). rewrite reader_trans by apply normal_wf. done.
  - apply wf_cons in Hw as [Ht Hw]. rewrite print_app, reader_trans by done.
    change (print_events (Text bs :: html_events p p ts)) with (html_text bs ++ print_events (html_events p p ts)).
    rewrite reader_html_text by done. rewrite strip_vis, flatten_cons, IH by done. done.
  - apply wf_cons in Hw as [Ht Hw]. rewrite strip_col. apply IH; [done|]. by apply (tok_state_wf p (TCol bs)).
Qed.

Lemma closed_shows : shows html_closed CO_CS_NORMAL.
Proof. unfold shows. split; [by intros []|done]. Qed.

(** C30: The HTML of a text that fits is a sequence of tags and text in which no tag is opened twice
    or closed when it is not open; every visible code point, in order, stands under exactly the
    attribute tags of the state it is shown in and under a colour tag of its colours if it has one;
    at the end no tag is open.  (Tags may close in another order than they were opened.)  A reader of
    the bytes that leaves out tags and replaces entities by their characters gets the visible bytes of
    the text back, whatever characters it holds. *)
Theorem html_spec {cfg : Config} ts : wf ts ->
  (length (print_events (html_events CO_CS_NORMAL CO_CS_NORMAL ts)) <= cap)%nat ->
  exists es st xs, co_render_html (flatten ts) = Some (print_events es) /\
    read_html html_closed es = Some (st, xs) /\
    (forall t, hs_tag st t = false) /\ hs_color st = None /\
    Forall2 (fun x y => shows x.1 y.1 /\ x.2 = y.2) xs (shown CO_CS_NORMAL ts) /\
    html_reader InText (print_events es) = flatten (strip ts).
Proof.
  intros Hw Hfit. exists (html_events CO_CS_NORMAL CO_CS_NORMAL ts).
  destruct (read_events html_closed CO_CS_NORMAL CO_CS_NORMAL ts) as (st & xs & E & [Ht Hc] & Hx);
    [apply closed_shows|apply normal_wf|].
  exists st, xs. split; [by apply render_html_fits|]. split; [done|].
  split; [intros t; rewrite Ht; by destruct t|]. split; [done|]. split; [done|by apply reader_events, normal_wf].
Qed.

(** [co_escape] puts a backslash before the first visible code point and before every
    reserved one and keeps the colours; dropping the backslashes, each of which protects the
    code point after it, gives the visible text back. *)
Theorem escape_roundtrip {cfg : Config} ts : wf ts -> (length (flatten (escaped true ts)) <= cap)%nat ->
  exists us, co_escape (flatten ts) = Some (flatten us) /\ us = escaped true ts /\
    unescape (strip us) = strip ts /\
    filter (fun t => is_vis t = false) us = filter (fun t => is_vis t = false) ts.
Proof.
  intros Hw Hfit. exists (escaped true ts). split_and!; [by apply escape_fits|done|apply unescape_escaped|].
  generalize true. clear. intros first. revert first. induction ts as [|[bs|bs] ts IH]; intros first; [done| |].
  - cbn [escaped]. rewrite filter_app, !filter_cons_False by done.
    destruct (first || reserved bs); cbn [app]; rewrite ?filter_cons_False by done; apply IH.
  - cbn [escaped]. rewrite !filter_cons_True by done. f_equal. apply IH.
Qed.

(** ** Concrete runs *)

(** "<bold><fg 1>a<reset><underline>&" *)
Definition sample_html : list tok := [bmp 62721; bmp 62977; TVis [97]; bmp 62720; bmp 62724; TVis [38]].

Lemma html_spec_witness :
  exists es st xs, co_render_html (cfg := default_config) (flatten sample_html) = Some (print_events es) /\
    read_html html_closed es = Some (st, xs) /\
    (forall t, hs_tag st t = false) /\ hs_color st = None /\
    Forall2 (fun x y => shows x.1 y.1 /\ x.2 = y.2) xs (shown CO_CS_NORMAL sample_html) /\
    html_reader InText (print_events es) = flatten [TVis [97]; TVis [38]].
Proof.
  apply html_spec; [repeat constructor|apply Nat.leb_le; vm_compute; reflexivity].
Defined.

(** Tags are balanced but not nested: "<bold><underline>a<reset><underline>b" gives
    <B><U>a</B>b</U>. *)
Example html_not_nested :
  co_render_html (cfg := default_config)
    (flatten [bmp 62721; bmp 62724; TVis [97]; bmp 62720; bmp 62724; TVis [98]]) =
  Some (tag_open 66 ++ tag_open 85 ++ [97] ++ tag_close 66 ++ [98] ++ tag_close 85).
Proof. vm_compute. reflexivity. Qed.

(** The brightness of a dark colour depends on whether the bold came before it. *)
Example html_bold_order :
  co_render_html (cfg := default_config) (flatten [bmp 62977; TVis [97]; bmp 62721; TVis [98]]) =
    Some (s_COLOR ++ html_rgb (128, 0, 0) ++ [62] ++ [97] ++ tag_open 66 ++ [98] ++ tag_close 66 ++ s_end_COLOR) /\
  co_render_html (cfg := default_config) (flatten [bmp 62977; bmp 62721; TVis [98]]) =
    Some (s_COLOR ++ html_rgb (255, 0, 0) ++ [62] ++ tag_open 66 ++ [98] ++ tag_close 66 ++ s_end_COLOR).
Proof. split; vm_compute; reflexivity. Qed.

(** "a<red>%b" *)
Definition sample_escape : list tok := [TVis [97]; bmp 62977; TVis [37]; TVis [98]].

Lemma escape_roundtrip_witness :
  (exists us, co_escape (cfg := default_config) (flatten sample_escape) = Some (flatten us) /\
    us = escaped true sample_escape /\ unescape (strip us) = strip sample_escape /\
    filter (fun t => is_vis t = false) us = filter (fun t => is_vis t = false) sample_escape) /\
  co_escape (cfg := default_config) (flatten sample_escape) =
    Some (flatten [TVis [92]; TVis [97]; bmp 62977; TVis [92]; TVis [37]; TVis [98]]).
Proof.
  split; [|vm_compute; reflexivity].
  apply escape_roundtrip; [repeat constructor|apply Nat.leb_le; vm_compute; reflexivity].
Defined.
