(* ===== verification/Machine.v ===== *)
(** * Machine integers of the C and C++ code

    Signed arithmetic of [w] bits is checked: an operation whose result does not fit is
    undefined behaviour, [None].  Unsigned arithmetic and conversions wrap ([wrap], [sgn]). *)

From S2P Require Import Prelude.

(** ** Ranges *)

Definition smin (w : Z) : Z := - 2 ^ (w - 1).
Definition smax (w : Z) : Z := 2 ^ (w - 1) - 1.

Definition in_s (w z : Z) : Prop := smin w <= z <= smax w.
Definition in_u (w z : Z) : Prop := 0 <= z < 2 ^ w.
#[export] Instance in_s_dec w z : Decision (in_s w z) := _.
#[export] Instance in_u_dec w z : Decision (in_u w z) := _.

(** ** Checked signed arithmetic *)

Definition ck (w z : Z) : option Z :=
  if (smin w <=? z) && (z <=? smax w) then Some z else None.

Definition cadd (w x y : Z) : option Z := ck w (x + y).
Definition csub (w x y : Z) : option Z := ck w (x - y).
Definition cmul (w x y : Z) : option Z := ck w (x * y).

(** [x / y] and [x % y]: truncated, undefined for a zero divisor and for the one quotient
    that does not fit. *)
Definition cquot (w x y : Z) : option Z := if y =? 0 then None else ck w (Z.quot x y).
Definition crem (w x y : Z) : option Z :=
  if (y =? 0) || ((x =? smin w) && (y =? -1)) then None else Some (Z.rem x y).

Lemma ck_some w z : in_s w z -> ck w z = Some z.
Proof. unfold ck, in_s. intros H. by replace ((smin w <=? z) && (z <=? smax w)) with true by lia. Qed.

Lemma ck_none w z : ~ in_s w z -> ck w z = None.
Proof.
  unfold ck, in_s. intros H.
  by replace ((smin w <=? z) && (z <=? smax w)) with false by lia.
Qed.

Lemma bind_some {A B} (a : A) (f : A -> option B) : (Some a ≫= f) = f a.
Proof. done. Qed.

Lemma bind_eq {A B} (o : option A) (f : A -> option B) a : o = Some a -> (o ≫= f) = f a.
Proof. by intros ->. Qed.

Lemma smin_neg w : smin w <= 0.
Proof. unfold smin. pose proof (Z.pow_nonneg 2 (w - 1)). lia. Qed.

Lemma in_s32 z : in_s 32 z <-> -2147483648 <= z <= 2147483647.
Proof. done. Qed.

Lemma in_s64 z : in_s 64 z <-> -9223372036854775808 <= z <= 9223372036854775807.
Proof. done. Qed.

Lemma quot_div_nonneg x y : 0 <= x -> 0 < y -> Z.quot x y = x / y.
Proof. intros. apply Z.quot_div_nonneg; lia. Qed.

Lemma rem_mod_nonneg x y : 0 <= x -> 0 < y -> Z.rem x y = x mod y.
Proof. intros. apply Z.rem_mod_nonneg; lia. Qed.

Lemma cquot_pos w x y : 0 <= x -> 0 < y -> in_s w x -> cquot w x y = Some (x / y).
Proof.
  intros Hx Hy Hw. unfold cquot. replace (y =? 0) with false by lia.
  rewrite quot_div_nonneg by lia. apply ck_some. unfold in_s in *.
  assert (0 <= x / y <= x) by (split; [apply Z.div_pos; lia | apply Z.div_le_upper_bound; nia]).
  pose proof (smin_neg w). lia.
Qed.

Lemma crem_pos w x y : 0 <= x -> 0 < y -> crem w x y = Some (x mod y).
Proof.
  intros Hx Hy. unfold crem. replace ((y =? 0) || _) with false by lia.
  by rewrite rem_mod_nonneg.
Qed.

Lemma ck_bind {B} w z (f : Z -> option B) : in_s w z -> (ck w z ≫= f) = f z.
Proof. intros. by apply bind_eq, ck_some. Qed.

(** Discharges the range check of the next checked operation of the goal. *)
Ltac ck_step :=
  match goal with
  | |- context [Some ?z ≫= ?f] => rewrite (bind_some z f)
  | |- context [ck ?w ?z ≫= ?f] =>
      rewrite (ck_bind w z f) by (unfold in_s, smin, smax in *; lia)
  | |- context [ck ?w ?z] => rewrite (ck_some w z) by (unfold in_s, smin, smax in *; lia)
  end.

(** ** Wrap-around *)

Definition wrap (w z : Z) : Z := z mod 2 ^ w.

(** The signed reading of an unsigned [w]-bit value, which is also the conversion of any
    integer to a signed type of [w] bits. *)
Definition sgn (w z : Z) : Z :=
  let u := wrap w z in if u <? 2 ^ (w - 1) then u else u - 2 ^ w.

Lemma wrap_range w z : 0 <= w -> in_u w (wrap w z).
Proof. intros. apply Z.mod_pos_bound, Z.pow_pos_nonneg; lia. Qed.

Lemma wrap_small w z : in_u w z -> wrap w z = z.
Proof. apply Z.mod_small. Qed.

Lemma pow2_half w : 0 < w -> 2 ^ w = 2 * 2 ^ (w - 1).
Proof. intros. rewrite <- Z.pow_succ_r by lia. f_equal. lia. Qed.

Lemma sgn_range w z : 0 < w -> in_s w (sgn w z).
Proof.
  intros Hw. unfold sgn, in_s, smin, smax. pose proof (wrap_range w z ltac:(lia)) as H.
  unfold in_u in H. rewrite (pow2_half w) in * by lia. cbn zeta.
  destruct (Z.ltb_spec (wrap w z) (2 ^ (w - 1))); lia.
Qed.

Lemma sgn_small w z : 0 < w -> in_s w z -> sgn w z = z.
Proof.
  intros Hw [Hl Hu]. unfold smin, smax, sgn, wrap in *. cbn zeta.
  pose proof (pow2_half w Hw) as Hp. pose proof (Z.pow_pos_nonneg 2 (w - 1) ltac:(lia) ltac:(lia)).
  destruct (decide (0 <= z)) as [H0|H0].
  - rewrite Z.mod_small by lia. by replace (z <? 2 ^ (w - 1)) with true by lia.
  - rewrite <- (Z.mod_add _ 1) by lia. rewrite Z.mod_small by lia.
    replace (z + 1 * 2 ^ w <? 2 ^ (w - 1)) with false by lia. lia.
Qed.

Lemma wrap_sgn w z : 0 < w -> wrap w (sgn w z) = wrap w z.
Proof.
  intros Hw. unfold sgn. cbn zeta. pose proof (Z.pow_pos_nonneg 2 w ltac:(lia) ltac:(lia)).
  destruct (wrap w z <? 2 ^ (w - 1)); unfold wrap.
  - apply Z.mod_mod; lia.
  - by rewrite Zminus_mod, Z.mod_same, Z.sub_0_r, !Z.mod_mod by lia.
Qed.

Lemma sgn_wrap w z : sgn w (wrap w z) = sgn w z.
Proof.
  unfold sgn, wrap. destruct (decide (2 ^ w = 0)) as [->|]; [by rewrite !Z.mod_0_r|].
  by rewrite Z.mod_mod.
Qed.

Lemma wrap_eq_sgn w x y : wrap w x = wrap w y -> sgn w x = sgn w y.
Proof. intros H. by rewrite <- (sgn_wrap w x), <- (sgn_wrap w y), H. Qed.

Lemma wrap_wrap w z : wrap w (wrap w z) = wrap w z.
Proof.
  unfold wrap. destruct (decide (2 ^ w = 0)) as [->|]; [by rewrite !Z.mod_0_r|].
  by rewrite Z.mod_mod.
Qed.

Lemma wrap_add_l w x y : wrap w (wrap w x + y) = wrap w (x + y).
Proof. unfold wrap. apply Zplus_mod_idemp_l. Qed.

Lemma wrap_add_r w x y : wrap w (x + wrap w y) = wrap w (x + y).
Proof. unfold wrap. apply Zplus_mod_idemp_r. Qed.

Lemma wrap_sub_l w x y : wrap w (wrap w x - y) = wrap w (x - y).
Proof. unfold wrap. apply Zminus_mod_idemp_l. Qed.

Lemma wrap_sub_r w x y : wrap w (x - wrap w y) = wrap w (x - y).
Proof. unfold wrap. apply Zminus_mod_idemp_r. Qed.

Lemma wrap_mul_l w x y : wrap w (wrap w x * y) = wrap w (x * y).
Proof. unfold wrap. apply Zmult_mod_idemp_l. Qed.

Lemma wrap_mul_r w x y : wrap w (x * wrap w y) = wrap w (x * y).
Proof. unfold wrap. apply Zmult_mod_idemp_r. Qed.

Lemma quot_rem_facts a b :
  b <> 0 -> a = b * Z.quot a b + Z.rem a b /\ Z.abs (Z.rem a b) < Z.abs b /\
            (0 <= a -> 0 <= Z.rem a b) /\ (a <= 0 -> Z.rem a b <= 0).
Proof.
  intros Hb. split; [apply Z.quot_rem'|]. split; [by apply Z.rem_bound_abs|].
  split; intros; [by apply Z.rem_nonneg | by apply Z.rem_nonpos].
Qed.

Lemma smin_lt w : 1 < w -> smin w < -1 /\ smax w = - smin w - 1.
Proof.
  intros Hw. unfold smin, smax. pose proof (Z.pow_gt_1 2 (w - 1) ltac:(lia)). lia.
Qed.

(** Runs the next step of the option monad with the equation [lem] for its operation. *)
Ltac bind_step lem := erewrite bind_eq by (apply lem; unfold in_s, smin, smax; lia).

Create Rewrite HintDb wrap.
#[export] Hint Rewrite wrap_wrap wrap_add_l wrap_add_r wrap_sub_l wrap_sub_r
  wrap_mul_l wrap_mul_r sgn_wrap : wrap.
