(* ===== verification/Calendar.v ===== *)
(** * The calendar of [src/mux/lib/timeutil.cpp]

    The division functions that round towards minus infinity, the conversions between dates
    of the proleptic Gregorian calendar and fixed day numbers with the cache of
    [GregorianFromFixed], and the conversions between linear time (100 ns ticks since 1601)
    and [FIELDEDTIME].  The specification is the calendar itself: lengths of months and the
    day after a date. *)

From S2P Require Import Prelude Machine.

(** ** Division that rounds down

    The bodies are the same for [int] and [int64_t]; [w] is the width.  The platform
    truncates ([SMALLEST_INT_GTE_NEG_QUOTIENT]). *)

Section Division.
Variable w : Z.

Definition mod_body (x y : Z) : option Z :=
  if y <? 0 then
    if x <=? 0 then
      if (smin w =? x) && (-1 =? y) then Some 0 else crem w x y
    else
      x1 ← csub w x 1; r ← crem w x1 y; s ← cadd w r y; cadd w s 1
  else if x <? 0 then
    x1 ← cadd w x 1; r ← crem w x1 y; s ← cadd w r y; csub w s 1
  else crem w x y.

Definition floor_body (x y : Z) : option Z :=
  if y <? 0 then
    if x <=? 0 then cquot w x y
    else a ← csub w x y; b ← csub w a 1; cquot w b y
  else if x <? 0 then a ← csub w x y; b ← cadd w a 1; cquot w b y
  else cquot w x y.
End Division.

Definition iMod : Z -> Z -> option Z := mod_body 32.
Definition i64Mod : Z -> Z -> option Z := mod_body 64.
Definition iFloorDivision : Z -> Z -> option Z := floor_body 32.

Definition i64FloorDivision (x y : Z) : option Z :=
  if (smin 64 =? x) && (-1 =? y) then Some (smin 64) else floor_body 64 x y.

(** The quotient and [*piMod]. *)
Definition iFloorDivisionMod (x y : Z) : option (Z * Z) :=
  m ← mod_body 32 x y; q ← floor_body 32 x y; Some (q, m).
Definition i64FloorDivisionMod (x y : Z) : option (Z * Z) :=
  m ← mod_body 64 x y; q ← floor_body 64 x y; Some (q, m).

(** ** Dates *)

Definition daystab : list Z := [31; 29; 31; 30; 31; 30; 31; 31; 30; 31; 30; 31].

Definition isLeapYear (iYear : Z) : option bool :=
  m4 ← iMod iYear 4;
  if negb (m4 =? 0) then Some false
  else
    wMod ← iMod iYear 400;
    Some (negb ((wMod =? 100) || (wMod =? 200) || (wMod =? 300))).

Definition isValidDate (iYear iMonth iDay : Z) : option bool :=
  if (iYear <? -27256) || (30826 <? iYear) then Some false
  else if (iMonth <? 1) || (12 <? iMonth) then Some false
  else if (iDay <? 1) || (nth (Z.to_nat (iMonth - 1)) daystab 0 <? iDay) then Some false
  else if (iMonth =? 2) && (iDay =? 29) then isLeapYear iYear
  else Some true.

Definition FixedFromGregorian (iYear iMonth iDay : Z) : option Z :=
  iYear ← csub 32 iYear 1;
  f ← cmul 32 365 iYear;
  a ← iFloorDivision iYear 4; f ← cadd 32 f a;
  a ← iFloorDivision iYear 100; f ← csub 32 f a;
  a ← iFloorDivision iYear 400; f ← cadd 32 f a;
  m ← cmul 32 367 iMonth; m ← csub 32 m 362;
  a ← iFloorDivision m 12; f ← cadd 32 f a;
  f ← cadd 32 f iDay;
  if 2 <? iMonth then
    y1 ← cadd 32 iYear 1;
    lp ← isLeapYear y1;
    csub 32 f (if lp : bool then 1 else 2)
  else Some f.

Definition FixedFromGregorian_Adjusted (iYear iMonth iDay : Z) : option Z :=
  f ← FixedFromGregorian iYear iMonth iDay; csub 32 f 584389.

Record GregorianDate := { gd_iYear : Z; gd_iMonth : Z; gd_iDayOfYear : Z;
                          gd_iDayOfMonth : Z; gd_iDayOfWeek : Z }.

(** The static variables of [GregorianFromFixed]. *)
Record jan_cache := { cache_iYear : Z; cache_iJan1st : Z; cache_iMar1st : Z }.
Definition cache_init : jan_cache :=
  {| cache_iYear := 99999; cache_iJan1st := 0; cache_iMar1st := 0 |}.

Definition GregorianFromFixed (c : jan_cache) (iFixedDay : Z) : option (jan_cache * GregorianDate) :=
  d0 ← csub 32 iFixedDay 1;
  '(n400, d1) ← iFloorDivisionMod d0 146097;
  '(n100, d2) ← iFloorDivisionMod d1 36524;
  '(n4, d3) ← iFloorDivisionMod d2 1461;
  '(n1, d4) ← iFloorDivisionMod d3 365;
  y400 ← cmul 32 400 n400; y100 ← cmul 32 100 n100; y4 ← cmul 32 4 n4;
  y ← cadd 32 y400 y100; y ← cadd 32 y y4; y ← cadd 32 y n1;
  iYear ← (if negb (n100 =? 4) && negb (n1 =? 4) then cadd 32 y 1 else Some y);
  c' ← (if iYear =? cache_iYear c then Some c
        else
          j ← FixedFromGregorian iYear 1 1;
          m ← FixedFromGregorian iYear 3 1;
          Some {| cache_iYear := iYear; cache_iJan1st := j; cache_iMar1st := m |});
  iPriorDays ← csub 32 iFixedDay (cache_iJan1st c');
  iCorrection ← (if iFixedDay <? cache_iMar1st c' then Some 0
                 else lp ← isLeapYear iYear; Some (if lp : bool then 1 else 2));
  s ← cadd 32 iPriorDays iCorrection;
  s ← cmul 32 12 s;
  s ← cadd 32 s 373;
  iMonth ← cquot 32 s 367;
  f1 ← FixedFromGregorian iYear iMonth 1;
  d ← csub 32 iFixedDay f1;
  iDayOfMonth ← cadd 32 d 1;
  iDayOfYear ← cadd 32 iPriorDays 1;
  iDayOfWeek ← iMod iFixedDay 7;
  Some (c', {| gd_iYear := iYear; gd_iMonth := iMonth; gd_iDayOfYear := iDayOfYear;
               gd_iDayOfMonth := iDayOfMonth; gd_iDayOfWeek := iDayOfWeek |}).

Definition GregorianFromFixed_Adjusted (c : jan_cache) (iFixedDay : Z) :
  option (jan_cache * GregorianDate) :=
  f ← cadd 32 iFixedDay 584389; GregorianFromFixed c f.

(** ** Fielded and linear time *)

Record FIELDEDTIME := {
  iYear : Z; iMonth : Z; iDayOfWeek : Z; iDayOfMonth : Z; iDayOfYear : Z; iHour : Z;
  iMinute : Z; iSecond : Z; iMillisecond : Z; iMicrosecond : Z; iNanosecond : Z }.

Definition ft_zero : FIELDEDTIME := Build_FIELDEDTIME 0 0 0 0 0 0 0 0 0 0 0.

Definition FACTOR_100NS_PER_SECOND : Z := 10000000.
Definition FACTOR_100NS_PER_MINUTE : Z := FACTOR_100NS_PER_SECOND * 60.
Definition FACTOR_100NS_PER_HOUR : Z := FACTOR_100NS_PER_MINUTE * 60.
Definition FACTOR_100NS_PER_DAY : Z := FACTOR_100NS_PER_HOUR * 24.

Definition set_dow (ft : FIELDEDTIME) (d : Z) : FIELDEDTIME :=
  Build_FIELDEDTIME (iYear ft) (iMonth ft) d (iDayOfMonth ft) (iDayOfYear ft) (iHour ft)
    (iMinute ft) (iSecond ft) (iMillisecond ft) (iMicrosecond ft) (iNanosecond ft).

(** The result, [*ft] and [*plt] after the call. *)
Definition FieldedTimeToLinearTime (ft : FIELDEDTIME) : option (bool * FIELDEDTIME * Z) :=
  v ← isValidDate (iYear ft) (iMonth ft) (iDayOfMonth ft);
  if negb v then Some (false, ft, 0)
  else
    iFixedDay ← FixedFromGregorian_Adjusted (iYear ft) (iMonth ft) (iDayOfMonth ft);
    d1 ← cadd 32 iFixedDay 1; dow ← iMod d1 7;
    lt ← cmul 64 iFixedDay FACTOR_100NS_PER_DAY;
    a ← cmul 64 (iHour ft) FACTOR_100NS_PER_HOUR; lt ← cadd 64 lt a;
    a ← cmul 64 (iMinute ft) FACTOR_100NS_PER_MINUTE; lt ← cadd 64 lt a;
    a ← cmul 64 (iSecond ft) FACTOR_100NS_PER_SECOND; lt ← cadd 64 lt a;
    a ← cmul 32 (iMicrosecond ft) 10; lt ← cadd 64 lt a;
    a ← cmul 32 (iMillisecond ft) 10000; lt ← cadd 64 lt a;
    a ← cquot 32 (iNanosecond ft) 100; lt ← cadd 64 lt a;
    Some (true, set_dow ft (wrap 16 dow), lt).

Definition LinearTimeToFieldedTime (c : jan_cache) (lt : Z) :
  option (jan_cache * (bool * FIELDEDTIME)) :=
  '(d, ns100) ← i64FloorDivisionMod lt FACTOR_100NS_PER_DAY;
  let d0 := sgn 32 d in
  '(c', gd) ← GregorianFromFixed_Adjusted c d0;
  v ← isValidDate (gd_iYear gd) (gd_iMonth gd) (gd_iDayOfMonth gd);
  if negb v then Some (c', (false, ft_zero))
  else
    h ← cquot 64 ns100 FACTOR_100NS_PER_HOUR; ns100 ← crem 64 ns100 FACTOR_100NS_PER_HOUR;
    mi ← cquot 64 ns100 FACTOR_100NS_PER_MINUTE; ns100 ← crem 64 ns100 FACTOR_100NS_PER_MINUTE;
    s ← cquot 64 ns100 FACTOR_100NS_PER_SECOND; ns100 ← crem 64 ns100 FACTOR_100NS_PER_SECOND;
    ms ← cquot 64 ns100 10000; ns100 ← crem 64 ns100 10000;
    us ← cquot 64 ns100 10; ns100 ← crem 64 ns100 10;
    ns ← cmul 64 ns100 100;
    Some (c', (true,
      Build_FIELDEDTIME (sgn 16 (gd_iYear gd)) (wrap 16 (gd_iMonth gd)) (wrap 16 (gd_iDayOfWeek gd))
        (wrap 16 (gd_iDayOfMonth gd)) (wrap 16 (gd_iDayOfYear gd)) (wrap 16 h) (wrap 16 mi)
        (wrap 16 s) (wrap 16 ms) (wrap 16 us) (wrap 16 ns))).

(** ** The division functions compute the quotient and remainder that round down *)

Lemma crem_some w x y :
  y <> 0 -> ~ (x = smin w /\ y = -1) -> crem w x y = Some (Z.rem x y).
Proof. intros Hy Hm. unfold crem. by replace ((y =? 0) || _) with false by lia. Qed.

Lemma mod_body_spec w x y :
  1 < w -> in_s w x -> in_s w y -> y <> 0 -> mod_body w x y = Some (x mod y).
Proof.
  intros Hw Hx Hy H0. destruct (smin_lt w Hw) as [Hm HM]. unfold mod_body, csub, cadd, in_s in *.
  destruct (Z.ltb_spec y 0).
  - destruct (Z.leb_spec x 0).
    + destruct (Z.eqb_spec (smin w) x), (Z.eqb_spec (-1) y); cbn.
      { subst. f_equal. apply Z.mod_unique with (q := - smin w); lia. }
      all: rewrite crem_some by lia; f_equal;
        pose proof (quot_rem_facts x y H0) as (E & B & _ & B');
        eapply Z.mod_unique; [|exact E]; lia.
    + rewrite ck_some by (unfold in_s; lia). cbn. rewrite crem_some by lia. cbn.
      pose proof (quot_rem_facts (x - 1) y H0) as (E & B & B' & _).
      rewrite ck_some by (unfold in_s; lia). cbn. rewrite ck_some by (unfold in_s; lia).
      f_equal. apply Z.mod_unique with (q := Z.quot (x - 1) y - 1); lia.
  - destruct (Z.ltb_spec x 0).
    + rewrite ck_some by (unfold in_s; lia). cbn. rewrite crem_some by lia. cbn.
      pose proof (quot_rem_facts (x + 1) y H0) as (E & B & _ & B').
      rewrite ck_some by (unfold in_s; lia). cbn. rewrite ck_some by (unfold in_s; lia).
      f_equal. apply Z.mod_unique with (q := Z.quot (x + 1) y - 1); lia.
    + rewrite crem_some by lia. f_equal. apply Z.rem_mod_nonneg; lia.
Qed.

Lemma cquot_some w x y :
  1 < w -> y <> 0 -> in_s w x -> ~ (x = smin w /\ y = -1) -> cquot w x y = Some (Z.quot x y).
Proof.
  intros Hw Hy Hx Hm. destruct (smin_lt w Hw) as [H1 H2]. unfold cquot, in_s in *.
  replace (y =? 0) with false by lia. apply ck_some. unfold in_s.
  pose proof (quot_rem_facts x y Hy) as (E & B & P & N).
  assert (Z.abs (Z.quot x y) <= Z.abs x) by nia.
  destruct (decide (Z.quot x y = - smin w)) as [Eq|]; [|lia].
  exfalso. rewrite Eq in *. nia.
Qed.

(** The quotient that rounds down is computed when [x - y] does not overflow. *)
Lemma floor_body_spec w x y :
  1 < w -> in_s w x -> in_s w y -> y <> 0 -> ~ (x = smin w /\ y = -1) ->
  floor_body w x y =
    if decide ((x < 0 < y \/ y < 0 < x) /\ ~ in_s w (x - y)) then None else Some (x / y).
Proof.
  intros Hw Hx Hy H0 Hm. destruct (smin_lt w Hw) as [H1 H2].
  unfold floor_body, csub, cadd. unfold in_s in Hx, Hy.
  destruct (Z.ltb_spec y 0); [destruct (Z.leb_spec x 0) | destruct (Z.ltb_spec x 0)].
  1, 4: rewrite decide_False by lia; rewrite cquot_some by (unfold in_s; lia); f_equal;
    pose proof (quot_rem_facts x y H0) as (E & B & P & N);
    apply Z.div_unique with (r := Z.rem x y); lia.
  all: case_decide as D; [rewrite (ck_none w (x - y)) by tauto; done|];
    assert (in_s w (x - y)) as Hs by (destruct (decide (in_s w (x - y))); [done | exfalso; apply D; split; [lia | done]]);
    rewrite (ck_some w (x - y)) by done; unfold in_s in Hs; cbn;
    rewrite ck_some by (unfold in_s; lia); cbn;
    rewrite cquot_some by (unfold in_s; lia); f_equal.
  - pose proof (quot_rem_facts (x - y - 1) y H0) as (E & B & P & N).
    apply Z.div_unique with (r := Z.rem (x - y - 1) y + y + 1); lia.
  - pose proof (quot_rem_facts (x - y + 1) y H0) as (E & B & P & N).
    apply Z.div_unique with (r := Z.rem (x - y + 1) y + y - 1); lia.
Qed.

(** ** The calendar

    [leap], [days_in_month] and [next_day] are the Gregorian calendar; [fixed_of] is the
    number of days up to a date, 1 January of year 1 being day 1. *)

Definition leap (y : Z) : bool :=
  (y mod 4 =? 0) && (negb (y mod 100 =? 0) || (y mod 400 =? 0)).

Definition days_in_month (y m : Z) : Z :=
  if m =? 2 then (if leap y then 29 else 28)
  else if (m =? 4) || (m =? 6) || (m =? 9) || (m =? 11) then 30 else 31.

Definition valid_date (y m d : Z) : Prop := 1 <= m <= 12 /\ 1 <= d <= days_in_month y m.

Definition next_day (p : Z * Z * Z) : Z * Z * Z :=
  let '(y, m, d) := p in
  if d <? days_in_month y m then (y, m, d + 1)
  else if m <? 12 then (y, m + 1, 1) else (y + 1, 1, 1).

Definition year_length (y : Z) : Z := if leap y then 366 else 365.

Definition jan1 (y : Z) : Z := 365 * (y - 1) + (y - 1) / 4 - (y - 1) / 100 + (y - 1) / 400 + 1.

(** Days before the first of month [m]. *)
Definition month_off (y m : Z) : Z :=
  (367 * m - 362) / 12 - (if 2 <? m then (if leap y then 1 else 2) else 0).

Definition fixed_of (y m d : Z) : Z := jan1 y + month_off y m + d - 1.

Lemma jan1_succ y : jan1 (y + 1) = jan1 y + year_length y.
Proof.
  unfold jan1, year_length, leap. replace (y + 1 - 1) with y by lia.
  destruct (Z.eqb_spec (y mod 4) 0), (Z.eqb_spec (y mod 100) 0), (Z.eqb_spec (y mod 400) 0);
    cbn; Z.div_mod_to_equations; lia.
Qed.

(** Case analysis on a month. *)
Ltac month_cases m :=
  let H := fresh in
  assert (m = 1 \/ m = 2 \/ m = 3 \/ m = 4 \/ m = 5 \/ m = 6 \/ m = 7 \/ m = 8 \/ m = 9 \/
          m = 10 \/ m = 11 \/ m = 12) as H by lia;
  destruct_or! H; subst m.

Lemma month_off_succ y m :
  1 <= m < 12 -> month_off y (m + 1) = month_off y m + days_in_month y m.
Proof.
  intros H. month_cases m; try lia; unfold month_off, days_in_month;
    destruct (leap y); reflexivity.
Qed.

Lemma month_off_dec y : month_off y 1 = 0 /\ month_off y 12 + 31 = year_length y.
Proof. unfold month_off, year_length. destruct (leap y); done. Qed.

Lemma days_in_month_pos y m : 28 <= days_in_month y m <= 31.
Proof. unfold days_in_month. repeat case_match; lia. Qed.

Lemma month_off_bound y m :
  1 <= m <= 12 -> 0 <= month_off y m /\ month_off y m + days_in_month y m <= year_length y.
Proof.
  intros H. month_cases m; unfold month_off, days_in_month, year_length; destruct (leap y);
    split; vm_compute; discriminate.
Qed.

(** The fixed day of the day after a date is the next fixed day. *)
Lemma fixed_next y m d :
  valid_date y m d ->
  let '(y', m', d') := next_day (y, m, d) in
  valid_date y' m' d' /\ fixed_of y' m' d' = fixed_of y m d + 1.
Proof.
  intros [Hm Hd]. unfold next_day. pose proof (days_in_month_pos y (m + 1)).
  pose proof (days_in_month_pos (y + 1) 1).
  destruct (Z.ltb_spec d (days_in_month y m)); [unfold valid_date, fixed_of; lia|].
  destruct (Z.ltb_spec m 12).
  - unfold valid_date, fixed_of. rewrite month_off_succ by lia. lia.
  - unfold valid_date, fixed_of. rewrite jan1_succ. assert (m = 12) as -> by lia.
    destruct (month_off_dec y) as [_ E]. destruct (month_off_dec (y + 1)) as [-> _].
    change (days_in_month y 12) with 31 in *. lia.
Qed.

(** A fixed day lies in exactly one year. *)
Lemma jan1_mono y z : y <= z -> jan1 y <= jan1 z.
Proof. intros H. unfold jan1. Z.div_mod_to_equations. lia. Qed.

Lemma fixed_in_year y m d :
  valid_date y m d -> jan1 y <= fixed_of y m d < jan1 (y + 1).
Proof.
  intros [Hm Hd]. pose proof (month_off_bound y m Hm). rewrite jan1_succ. unfold fixed_of. lia.
Qed.

Lemma month_off_mono y m m' :
  1 <= m -> m < m' -> m' <= 12 -> month_off y m + days_in_month y m <= month_off y m'.
Proof.
  intros H1 H2 H3. rewrite <- month_off_succ by lia.
  unfold month_off. destruct (leap y), (Z.ltb_spec 2 (m + 1)), (Z.ltb_spec 2 m');
    Z.div_mod_to_equations; lia.
Qed.

Lemma fixed_inj y m d y' m' d' :
  valid_date y m d -> valid_date y' m' d' -> fixed_of y m d = fixed_of y' m' d' ->
  (y, m, d) = (y', m', d').
Proof.
  intros Hv Hv' E.
  pose proof (fixed_in_year _ _ _ Hv) as B. pose proof (fixed_in_year _ _ _ Hv') as B'.
  assert (y = y') as <-.
  { destruct (Z.lt_total y y') as [L|[L|L]]; [|done|].
    - pose proof (jan1_mono (y + 1) y' ltac:(lia)). lia.
    - pose proof (jan1_mono (y' + 1) y ltac:(lia)). lia. }
  destruct Hv as [Hm Hd], Hv' as [Hm' Hd']. unfold fixed_of in E.
  assert (m = m') as <-.
  { destruct (Z.lt_total m m') as [L|[L|L]]; [|done|].
    - pose proof (month_off_mono y m m' ltac:(lia) L ltac:(lia)). lia.
    - pose proof (month_off_mono y m' m ltac:(lia) L ltac:(lia)). lia. }
  repeat f_equal. lia.
Qed.

(** ** The code computes the calendar *)

(** One checked operation or division by a constant. *)
Ltac fit := unfold in_s, smin, smax; lia.
Ltac ck_ops :=
  repeat (unfold cadd, csub, cmul; ck_step; cbn [mbind option_bind]).

Lemma iMod_eq x y : in_s 32 x -> 0 < y <= smax 32 -> iMod x y = Some (x mod y).
Proof. intros. apply mod_body_spec; fit || (unfold in_s, smin, smax in *; lia). Qed.

Lemma iFloorDivision_eq x y :
  in_s 32 x -> 0 < y <= smax 32 -> in_s 32 (x - y) -> iFloorDivision x y = Some (x / y).
Proof.
  intros Hx Hy Hs. unfold iFloorDivision. unfold in_s, smin, smax in *.
  rewrite floor_body_spec by fit. apply decide_False. unfold in_s, smin, smax. tauto.
Qed.

Lemma iFloorDivisionMod_eq x y :
  in_s 32 x -> 0 < y <= smax 32 -> in_s 32 (x - y) ->
  iFloorDivisionMod x y = Some (x / y, x mod y).
Proof.
  intros Hx Hy Hs. unfold iFloorDivisionMod. pose proof (iMod_eq x y Hx Hy) as E.
  unfold iMod in E. rewrite E. pose proof (iFloorDivision_eq x y Hx Hy Hs) as E'.
  unfold iFloorDivision in E'. by rewrite E'.
Qed.

Lemma isLeapYear_eq y : in_s 32 y -> isLeapYear y = Some (leap y).
Proof.
  intros Hy. unfold isLeapYear. rewrite !iMod_eq by (done || fit). cbn [mbind option_bind].
  unfold leap. destruct (Z.eqb_spec (y mod 4) 0) as [E4|]; cbn; [|done]. f_equal.
  destruct (Z.eqb_spec (y mod 100) 0), (Z.eqb_spec (y mod 400) 0); cbn;
    destruct (Z.eqb_spec (y mod 400) 100), (Z.eqb_spec (y mod 400) 200),
      (Z.eqb_spec (y mod 400) 300); cbn; try done; exfalso; Z.div_mod_to_equations; lia.
Qed.

Lemma nth_daystab m : 1 <= m <= 12 ->
  nth (Z.to_nat (m - 1)) daystab 0 = if m =? 2 then 29 else days_in_month 0 m.
Proof. intros H. by month_cases m. Qed.

Lemma days_in_month_year y m : m <> 2 -> days_in_month y m = days_in_month 0 m.
Proof. intros. unfold days_in_month. by replace (m =? 2) with false by lia. Qed.

(** [isValidDate] accepts the dates of the calendar in its range of years. *)
Lemma isValidDate_eq y m d :
  in_s 32 y ->
  exists b, isValidDate y m d = Some b /\
    (b = true <-> -27256 <= y <= 30826 /\ valid_date y m d).
Proof.
  intros Hy. unfold isValidDate, valid_date.
  destruct ((y <? -27256) || _) eqn:E1; [exists false; split; [done|lia]|].
  destruct ((m <? 1) || _) eqn:E2; [exists false; split; [done|lia]|].
  rewrite nth_daystab by lia.
  destruct (Z.eqb_spec m 2) as [->|Hm].
  - change (days_in_month y 2) with (if leap y then 29 else 28).
    destruct ((d <? 1) || _) eqn:E3; [exists false; split; [done|]|].
    { destruct (leap y); lia. }
    cbn [andb]. rewrite isLeapYear_eq by done.
    destruct (Z.eqb_spec d 29); eexists; (split; [done|]); destruct (leap y); lia.
  - rewrite (days_in_month_year y m) by done.
    destruct ((d <? 1) || _) eqn:E3; eexists; (split; [done|lia]).
Qed.

Lemma FixedFromGregorian_eq y m d :
  -40000 <= y <= 40000 -> 1 <= m <= 12 -> 0 <= d <= 400 ->
  FixedFromGregorian y m d = Some (fixed_of y m d).
Proof.
  intros Hy Hm Hd. unfold FixedFromGregorian.
  assert (-40002 <= (y - 1) / 4 <= 40000 /\ -40002 <= (y - 1) / 100 <= 40000 /\
          -40002 <= (y - 1) / 400 <= 40000 /\ 0 <= (367 * m - 362) / 12 <= 400)
    by (Z.div_mod_to_equations; lia).
  unfold cadd, csub, cmul.
  repeat (first [ck_step | rewrite iFloorDivision_eq by fit]; cbn [mbind option_bind]).
  unfold fixed_of, jan1, month_off. destruct (Z.ltb_spec 2 m); [|f_equal; lia].
  repeat ck_step.
  rewrite isLeapYear_eq by fit. cbn [mbind option_bind]. replace (y - 1 + 1) with y by lia.
  destruct (leap y); ck_step; f_equal; lia.
Qed.

(** The year that [GregorianFromFixed] computes is the year the day lies in. *)
Definition year_of (n : Z) : Z :=
  let d0 := n - 1 in
  let n400 := d0 / 146097 in let d1 := d0 mod 146097 in
  let n100 := d1 / 36524 in let d2 := d1 mod 36524 in
  let n4 := d2 / 1461 in let d3 := d2 mod 1461 in
  let n1 := d3 / 365 in
  let y := 400 * n400 + 100 * n100 + 4 * n4 + n1 in
  if negb (n100 =? 4) && negb (n1 =? 4) then y + 1 else y.

Lemma jan1_parts n400 n100 n4 n1 :
  0 <= n100 <= 3 -> 0 <= n4 <= 24 -> 0 <= n1 <= 3 ->
  jan1 (400 * n400 + 100 * n100 + 4 * n4 + n1 + 1) =
    146097 * n400 + 36524 * n100 + 1461 * n4 + 365 * n1 + 1.
Proof.
  intros. unfold jan1. rewrite Z.add_simpl_r.
  replace ((400 * n400 + 100 * n100 + 4 * n4 + n1) / 4) with (100 * n400 + 25 * n100 + n4)
    by (apply Z.div_unique with (r := n1); lia).
  replace ((400 * n400 + 100 * n100 + 4 * n4 + n1) / 100) with (4 * n400 + n100)
    by (apply Z.div_unique with (r := 4 * n4 + n1); lia).
  replace ((400 * n400 + 100 * n100 + 4 * n4 + n1) / 400) with n400
    by (apply Z.div_unique with (r := 100 * n100 + 4 * n4 + n1); lia).
  lia.
Qed.

Lemma leap_parts n400 n100 n4 :
  0 <= n100 <= 3 -> 0 <= n4 <= 24 -> (n4 = 24 -> n100 = 3) ->
  leap (400 * n400 + 100 * n100 + 4 * n4 + 4) = true.
Proof.
  intros. unfold leap.
  destruct (Z.eqb_spec ((400 * n400 + 100 * n100 + 4 * n4 + 4) mod 4) 0),
    (Z.eqb_spec ((400 * n400 + 100 * n100 + 4 * n4 + 4) mod 100) 0),
    (Z.eqb_spec ((400 * n400 + 100 * n100 + 4 * n4 + 4) mod 400) 0); cbn; try done;
    exfalso; Z.div_mod_to_equations; lia.
Qed.

Lemma year_of_spec n : jan1 (year_of n) <= n < jan1 (year_of n + 1).
Proof.
  unfold year_of. rewrite jan1_succ.
  pose proof (Z.div_mod (n - 1) 146097 ltac:(lia)).
  pose proof (Z.mod_pos_bound (n - 1) 146097 ltac:(lia)).
  set (n400 := (n - 1) / 146097) in *. set (d1 := (n - 1) mod 146097) in *.
  pose proof (Z.div_mod d1 36524 ltac:(lia)). pose proof (Z.mod_pos_bound d1 36524 ltac:(lia)).
  set (n100 := d1 / 36524) in *. set (d2 := d1 mod 36524) in *.
  pose proof (Z.div_mod d2 1461 ltac:(lia)). pose proof (Z.mod_pos_bound d2 1461 ltac:(lia)).
  set (n4 := d2 / 1461) in *. set (d3 := d2 mod 1461) in *.
  pose proof (Z.div_mod d3 365 ltac:(lia)). pose proof (Z.mod_pos_bound d3 365 ltac:(lia)).
  set (n1 := d3 / 365) in *. set (d4 := d3 mod 365) in *.
  assert (0 <= n100 <= 4 /\ 0 <= n4 <= 24 /\ 0 <= n1 <= 4) as (B1 & B2 & B3) by lia.
  clearbody n400 n100 n4 n1 d1 d2 d3 d4.
  destruct (Z.eqb_spec n100 4) as [->|N1]; [|destruct (Z.eqb_spec n1 4) as [->|N2]]; cbn [negb andb].
  - assert (n4 = 0 /\ n1 = 0 /\ d4 = 0) as (-> & -> & ->) by lia.
    pose proof (jan1_parts n400 3 24 3 ltac:(lia) ltac:(lia) ltac:(lia)) as J.
    pose proof (leap_parts n400 3 24 ltac:(lia) ltac:(lia) ltac:(lia)) as L.
    replace (400 * n400 + 100 * 4 + 4 * 0 + 0) with (400 * n400 + 100 * 3 + 4 * 24 + 4) by lia.
    unfold year_length. rewrite L.
    replace (400 * n400 + 100 * 3 + 4 * 24 + 3 + 1) with (400 * n400 + 100 * 3 + 4 * 24 + 4) in J by lia.
    lia.
  - pose proof (jan1_parts n400 n100 n4 3 ltac:(lia) ltac:(lia) ltac:(lia)) as J.
    pose proof (leap_parts n400 n100 n4 ltac:(lia) ltac:(lia) ltac:(lia)) as L.
    unfold year_length. rewrite L.
    replace (400 * n400 + 100 * n100 + 4 * n4 + 3 + 1) with (400 * n400 + 100 * n100 + 4 * n4 + 4) in J by lia.
    lia.
  - rewrite jan1_parts by lia.
    assert (365 <= year_length (400 * n400 + 100 * n100 + 4 * n4 + n1 + 1))
      by (unfold year_length; destruct (leap _); lia). lia.
Qed.

(** The month and day the code computes from the day of the year. *)
Definition month_of (l : bool) (p : Z) : Z :=
  (12 * (p + (if p <? (if l then 60 else 59) then 0 else if l then 1 else 2)) + 373) / 367.

Definition month_ok (l : bool) (p : Z) : bool :=
  let m := month_of l p in
  let off := (367 * m - 362) / 12 - (if 2 <? m then (if l then 1 else 2) else 0) in
  let dim := if m =? 2 then (if l then 29 else 28)
             else if (m =? 4) || (m =? 6) || (m =? 9) || (m =? 11) then 30 else 31 in
  (1 <=? m) && (m <=? 12) && (off <=? p) && (p <? off + dim).

Lemma month_of_spec y p :
  0 <= p < year_length y ->
  let m := month_of (leap y) p in
  1 <= m <= 12 /\ month_off y m <= p < month_off y m + days_in_month y m.
Proof.
  intros Hp. cbn zeta.
  assert (month_ok (leap y) p = true) as H.
  { unfold year_length in Hp. destruct (leap y).
    - apply (forall_zrange (month_ok true) 0 366); [vm_compute; reflexivity | lia].
    - apply (forall_zrange (month_ok false) 0 365); [vm_compute; reflexivity | lia]. }
  unfold month_ok, month_off, days_in_month in *. cbn zeta in H. lia.
Qed.

Definition date_of (n : Z) : GregorianDate :=
  let y := year_of n in let p := n - jan1 y in let m := month_of (leap y) p in
  {| gd_iYear := y; gd_iMonth := m; gd_iDayOfYear := p + 1;
     gd_iDayOfMonth := p - month_off y m + 1; gd_iDayOfWeek := n mod 7 |}.

(** The cache is as the static initialisers leave it, or holds the days of its year. *)
Definition cache_ok (c : jan_cache) : Prop :=
  cache_iYear c = 99999 \/
  cache_iJan1st c = fixed_of (cache_iYear c) 1 1 /\ cache_iMar1st c = fixed_of (cache_iYear c) 3 1.

Definition days_ok (n : Z) : Prop := -12000000 <= n <= 12000000.

Lemma year_of_bound n : days_ok n -> -36000 <= year_of n <= 36000.
Proof.
  unfold days_ok. intros H. pose proof (year_of_spec n) as [H1 H2]. split.
  - destruct (Z.le_gt_cases (-36000) (year_of n)); [done|].
    pose proof (jan1_mono (year_of n + 1) (-36000) ltac:(lia)).
    assert (jan1 (-36000) <= -12000001) by (vm_compute; discriminate). lia.
  - destruct (Z.le_gt_cases (year_of n) 36000); [done|].
    pose proof (jan1_mono 36000 (year_of n) ltac:(lia)).
    assert (12000001 <= jan1 36000) by (vm_compute; discriminate). lia.
Qed.

Lemma fixed_jan1 y : fixed_of y 1 1 = jan1 y.
Proof. unfold fixed_of. change (month_off y 1) with 0. lia. Qed.

Lemma fixed_mar1 y : fixed_of y 3 1 = jan1 y + (if leap y then 60 else 59).
Proof. unfold fixed_of, month_off. change ((367 * 3 - 362) / 12) with 61. change (2 <? 3) with true.
  destruct (leap y); lia. Qed.

(** The date that the code computes and its calendar meaning. *)
Lemma date_of_spec n :
  let g := date_of n in
  valid_date (gd_iYear g) (gd_iMonth g) (gd_iDayOfMonth g) /\
  fixed_of (gd_iYear g) (gd_iMonth g) (gd_iDayOfMonth g) = n /\
  gd_iDayOfYear g = n - fixed_of (gd_iYear g) 1 1 + 1 /\ 1 <= gd_iDayOfYear g <= 366.
Proof.
  cbn. pose proof (year_of_spec n) as H. rewrite jan1_succ in H.
  destruct (month_of_spec (year_of n) (n - jan1 (year_of n)) ltac:(lia)) as [Hm Hp].
  rewrite fixed_jan1. unfold valid_date, fixed_of.
  assert (year_length (year_of n) <= 366) by (unfold year_length; destruct (leap _); lia). lia.
Qed.

Lemma GregorianFromFixed_eq c n :
  cache_ok c -> days_ok n ->
  exists c', GregorianFromFixed c n = Some (c', date_of n) /\ cache_ok c'.
Proof.
  intros Hc Hn. pose proof (year_of_bound n Hn) as Hy. pose proof (year_of_spec n) as Hs.
  rewrite jan1_succ in Hs. assert (365 <= year_length (year_of n) <= 366) as Hl
    by (unfold year_length; destruct (leap _); lia).
  destruct (month_of_spec (year_of n) (n - jan1 (year_of n)) ltac:(lia)) as [Hm Hp].
  unfold days_ok in Hn. unfold GregorianFromFixed, csub, cmul, cadd. ck_step. cbn [mbind option_bind].
  pose proof (Z.mod_pos_bound (n - 1) 146097 ltac:(lia)) as B1.
  pose proof (Z.mod_pos_bound ((n - 1) mod 146097) 36524 ltac:(lia)) as B2.
  pose proof (Z.mod_pos_bound (((n - 1) mod 146097) mod 36524) 1461 ltac:(lia)) as B3.
  do 4 (rewrite iFloorDivisionMod_eq by fit; cbn [mbind option_bind]).
  assert (-100 <= (n - 1) / 146097 <= 100) by (Z.div_mod_to_equations; lia).
  assert (0 <= ((n - 1) mod 146097) / 36524 <= 4) by (Z.div_mod_to_equations; lia).
  assert (0 <= (((n - 1) mod 146097) mod 36524) / 1461 <= 24) by (Z.div_mod_to_equations; lia).
  assert (0 <= ((((n - 1) mod 146097) mod 36524) mod 1461) / 365 <= 4) by (Z.div_mod_to_equations; lia).
  repeat ck_step.
  rewrite (bind_eq _ _ (year_of n))
    by (unfold year_of; cbn zeta; destruct (negb _ && negb _); done).
  set (y := year_of n) in *.
  assert (exists c', (if y =? cache_iYear c then Some c
      else FixedFromGregorian y 1 1 ≫= λ j, FixedFromGregorian y 3 1 ≫= λ m,
        Some {| cache_iYear := y; cache_iJan1st := j; cache_iMar1st := m |}) = Some c' /\
      cache_iJan1st c' = jan1 y /\ cache_iMar1st c' = fixed_of y 3 1 /\ cache_ok c')
    as (c' & -> & HJ & HM & Hc').
  { destruct (Z.eqb_spec y (cache_iYear c)) as [E|].
    - exists c. destruct Hc as [Hc|[HJ HM]]; [lia|]. rewrite E, <- fixed_jan1. repeat split; try done.
      by right.
    - rewrite !FixedFromGregorian_eq by lia. cbn. rewrite <- fixed_jan1. eexists. repeat split.
      by right. }
  cbn [mbind option_bind]. exists c'. split; [|done]. rewrite HJ, HM, fixed_mar1.
  ck_step. cbn [mbind option_bind].
  set (p := n - jan1 y) in *.
  rewrite (bind_eq _ _ (if p <? (if leap y then 60 else 59) then 0 else if leap y then 1 else 2)).
  2: { rewrite isLeapYear_eq by fit. cbn. unfold p.
       destruct (leap y); repeat case_match; try done; lia. }
  assert (0 <= (if p <? (if leap y then 60 else 59) then 0 else if leap y then 1 else 2) <= 2)
    by (repeat case_match; lia).
  repeat ck_step.
  rewrite cquot_pos by fit. cbn [mbind option_bind]. fold (month_of (leap y) p).
  assert (fixed_of y (month_of (leap y) p) 1 = jan1 y + month_off y (month_of (leap y) p)) as E
    by (unfold fixed_of; lia).
  assert (days_in_month y (month_of (leap y) p) <= 31) by apply days_in_month_pos.
  rewrite FixedFromGregorian_eq by lia. cbn [mbind option_bind]. rewrite E.
  repeat ck_step. rewrite iMod_eq by fit. cbn [mbind option_bind].
  unfold date_of. fold y. cbn zeta. fold p. do 3 f_equal. lia.
Qed.

(** ** Linear time *)

Definition valid_fields (ft : FIELDEDTIME) : Prop :=
  -27256 <= iYear ft <= 30826 /\ valid_date (iYear ft) (iMonth ft) (iDayOfMonth ft) /\
  0 <= iHour ft <= 23 /\ 0 <= iMinute ft <= 59 /\ 0 <= iSecond ft <= 59 /\
  0 <= iMillisecond ft <= 999 /\ 0 <= iMicrosecond ft <= 999 /\
  0 <= iNanosecond ft <= 999.

Definition days_1601 (ft : FIELDEDTIME) : Z :=
  fixed_of (iYear ft) (iMonth ft) (iDayOfMonth ft) - 584389.

Definition ticks_of_day (ft : FIELDEDTIME) : Z :=
  iHour ft * 36000000000 + iMinute ft * 600000000 + iSecond ft * 10000000 +
  iMillisecond ft * 10000 + iMicrosecond ft * 10 + iNanosecond ft / 100.

Definition linear_of (ft : FIELDEDTIME) : Z := days_1601 ft * 864000000000 + ticks_of_day ft.

Lemma days_1601_range ft :
  valid_fields ft -> -10539806 < days_1601 ft < 10674578.
Proof.
  intros (Hy & Hv & _). pose proof (fixed_in_year _ _ _ Hv) as [H1 H2].
  pose proof (jan1_mono (-27256) (iYear ft) ltac:(lia)).
  pose proof (jan1_mono (iYear ft + 1) 30827 ltac:(lia)). unfold days_1601.
  assert (-9955416 < jan1 (-27256)) by (vm_compute; done).
  assert (jan1 30827 <= 11258967) by (vm_compute; discriminate). lia.
Qed.

Lemma ticks_of_day_range ft : valid_fields ft -> 0 <= ticks_of_day ft < 864000000000.
Proof. intros (_ & _ & H). unfold ticks_of_day. Z.div_mod_to_equations. lia. Qed.

Lemma linear_of_day ft :
  valid_fields ft -> linear_of ft / 864000000000 = days_1601 ft /\
                     linear_of ft mod 864000000000 = ticks_of_day ft.
Proof.
  intros H. pose proof (ticks_of_day_range ft H) as Hr. unfold linear_of. split; symmetry.
  - apply Z.div_unique with (r := ticks_of_day ft); lia.
  - apply Z.mod_unique with (q := days_1601 ft); lia.
Qed.

Lemma dow_shift n : (n - 584389 + 1) mod 7 = n mod 7.
Proof. Z.div_mod_to_equations. lia. Qed.

Lemma FieldedTimeToLinearTime_eq ft :
  valid_fields ft ->
  FieldedTimeToLinearTime ft =
    Some (true, set_dow ft (fixed_of (iYear ft) (iMonth ft) (iDayOfMonth ft) mod 7), linear_of ft).
Proof.
  intros Hv. pose proof (days_1601_range ft Hv) as Hd. pose proof Hv as (Hy & Hm & Ht).
  unfold FieldedTimeToLinearTime.
  destruct (isValidDate_eq (iYear ft) (iMonth ft) (iDayOfMonth ft) ltac:(fit)) as (b & -> & Hb).
  rewrite bind_some. replace b with true by (symmetry; tauto). cbn [negb].
  unfold FixedFromGregorian_Adjusted, days_1601 in *.
  pose proof (days_in_month_pos (iYear ft) (iMonth ft)). destruct Hm as [Hm1 Hm2].
  rewrite FixedFromGregorian_eq, bind_some by lia.
  unfold csub, cadd, cmul. repeat ck_step.
  bind_step iMod_eq.
  unfold FACTOR_100NS_PER_DAY, FACTOR_100NS_PER_HOUR, FACTOR_100NS_PER_MINUTE,
    FACTOR_100NS_PER_SECOND.
  repeat ck_step.
  bind_step cquot_pos.
  assert (0 <= iNanosecond ft / 100 <= 9) by (Z.div_mod_to_equations; lia).
  repeat ck_step.
  rewrite dow_shift. repeat f_equal.
  - apply wrap_small. unfold in_u. pose proof (Z.mod_pos_bound (fixed_of (iYear ft) (iMonth ft) (iDayOfMonth ft)) 7).
    change (2 ^ 16) with 65536. lia.
  - unfold linear_of, ticks_of_day, days_1601. lia.
Qed.

(** The bounds of the linear times that have a date. *)
Definition lt_earliest : Z := -9106390656000000000.
Definition lt_latest : Z := 9222834527999999999.

(** The [FIELDEDTIME] of a linear time, computed from its date and its ticks of the day. *)
Definition fields_of (lt : Z) : FIELDEDTIME :=
  let g := date_of (lt / 864000000000 + 584389) in
  let t := lt mod 864000000000 in
  Build_FIELDEDTIME (gd_iYear g) (gd_iMonth g) (gd_iDayOfWeek g) (gd_iDayOfMonth g) (gd_iDayOfYear g)
    (t / 36000000000) (t mod 36000000000 / 600000000) (t mod 36000000000 mod 600000000 / 10000000)
    (t mod 36000000000 mod 600000000 mod 10000000 / 10000)
    (t mod 36000000000 mod 600000000 mod 10000000 mod 10000 / 10)
    (t mod 36000000000 mod 600000000 mod 10000000 mod 10000 mod 10 * 100).

Lemma year_range_days n :
  -27256 <= year_of n <= 30826 <-> -9955415 <= n <= 11258965.
Proof.
  pose proof (year_of_spec n) as [H1 H2].
  assert (jan1 (-27256) = -9955415 /\ jan1 30827 = 11258966) as [J1 J2] by (split; vm_compute; reflexivity).
  split; intros H.
  - pose proof (jan1_mono (-27256) (year_of n)). pose proof (jan1_mono (year_of n + 1) 30827). lia.
  - split.
    + destruct (Z.le_gt_cases (-27256) (year_of n)); [done|].
      pose proof (jan1_mono (year_of n + 1) (-27256)). lia.
    + destruct (Z.le_gt_cases (year_of n) 30826); [done|].
      pose proof (jan1_mono 30827 (year_of n)). lia.
Qed.

Lemma lt_range_days lt :
  lt_earliest <= lt <= lt_latest <-> -9955415 <= lt / 864000000000 + 584389 <= 11258965.
Proof. unfold lt_earliest, lt_latest. Z.div_mod_to_equations. lia. Qed.

Lemma date_of_dow n : 0 <= gd_iDayOfWeek (date_of n) <= 6.
Proof. cbn. pose proof (Z.mod_pos_bound n 7 ltac:(lia)). lia. Qed.

Lemma fields_of_dow lt :
  iDayOfWeek (fields_of lt) =
    fixed_of (iYear (fields_of lt)) (iMonth (fields_of lt)) (iDayOfMonth (fields_of lt)) mod 7.
Proof.
  unfold fields_of. cbn zeta. cbn [iYear iMonth iDayOfMonth iDayOfWeek].
  by destruct (date_of_spec (lt / 864000000000 + 584389)) as (_ & -> & _).
Qed.

Lemma set_dow_id ft : set_dow ft (iDayOfWeek ft) = ft.
Proof. by destruct ft. Qed.

Lemma fields_of_valid lt :
  lt_earliest <= lt <= lt_latest ->
  valid_fields (fields_of lt) /\ linear_of (fields_of lt) = lt /\ iNanosecond (fields_of lt) mod 100 = 0.
Proof.
  intros H. apply lt_range_days, year_range_days in H.
  destruct (date_of_spec (lt / 864000000000 + 584389)) as (Hv & E & _).
  set (g := date_of (lt / 864000000000 + 584389)) in *.
  unfold valid_fields, linear_of, days_1601, ticks_of_day, fields_of. fold g. cbn zeta.
  cbn [iYear iMonth iDayOfMonth iHour iMinute iSecond iMillisecond iMicrosecond iNanosecond].
  rewrite E. change (gd_iYear g) with (year_of (lt / 864000000000 + 584389)) in *.
  clearbody g. split; [split; [exact H|split; [exact Hv|]]|split]; clear; Z.div_mod_to_equations; lia.
Qed.

Lemma i64FloorDivisionMod_eq x y :
  in_s 64 x -> 0 < y <= smax 64 -> in_s 64 (x - y) ->
  i64FloorDivisionMod x y = Some (x / y, x mod y).
Proof.
  intros Hx Hy Hs. unfold i64FloorDivisionMod. unfold in_s, smin, smax in *.
  rewrite mod_body_spec by (done || fit). cbn. rewrite floor_body_spec by fit.
  rewrite decide_False by (unfold in_s, smin, smax; tauto). done.
Qed.

Lemma i64FloorDivisionMod_pos lt :
  smin 64 + 864000000000 <= lt <= smax 64 ->
  i64FloorDivisionMod lt FACTOR_100NS_PER_DAY = Some (lt / 864000000000, lt mod 864000000000).
Proof.
  change FACTOR_100NS_PER_DAY with 864000000000. unfold smin, smax. intros H.
  apply i64FloorDivisionMod_eq; fit.
Qed.

(** The conversions to [unsigned short] lose nothing. *)
Lemma wrap_div lo x y : 0 <= x < lo -> 0 < y -> lo <= y * 65536 -> wrap 16 (x / y) = x / y.
Proof.
  intros Hx Hy Hl. apply wrap_small. unfold in_u. change (2 ^ 16) with 65536. split.
  - apply Z.div_pos; lia.
  - apply Z.div_lt_upper_bound; lia.
Qed.

Lemma split_ticks gd t (c' : jan_cache) :
  0 <= t < 864000000000 -> -27256 <= gd_iYear gd <= 30826 -> 1 <= gd_iMonth gd <= 12 ->
  1 <= gd_iDayOfMonth gd <= 31 -> 1 <= gd_iDayOfYear gd <= 366 -> 0 <= gd_iDayOfWeek gd <= 6 ->
  (h ← cquot 64 t FACTOR_100NS_PER_HOUR; t ← crem 64 t FACTOR_100NS_PER_HOUR;
   mi ← cquot 64 t FACTOR_100NS_PER_MINUTE; t ← crem 64 t FACTOR_100NS_PER_MINUTE;
   s ← cquot 64 t FACTOR_100NS_PER_SECOND; t ← crem 64 t FACTOR_100NS_PER_SECOND;
   ms ← cquot 64 t 10000; t ← crem 64 t 10000;
   us ← cquot 64 t 10; t ← crem 64 t 10;
   ns ← cmul 64 t 100;
   Some (c', (true,
     Build_FIELDEDTIME (sgn 16 (gd_iYear gd)) (wrap 16 (gd_iMonth gd)) (wrap 16 (gd_iDayOfWeek gd))
       (wrap 16 (gd_iDayOfMonth gd)) (wrap 16 (gd_iDayOfYear gd)) (wrap 16 h) (wrap 16 mi)
       (wrap 16 s) (wrap 16 ms) (wrap 16 us) (wrap 16 ns)))) =
  Some (c', (true,
     Build_FIELDEDTIME (gd_iYear gd) (gd_iMonth gd) (gd_iDayOfWeek gd) (gd_iDayOfMonth gd)
       (gd_iDayOfYear gd) (t / 36000000000) (t mod 36000000000 / 600000000)
       (t mod 36000000000 mod 600000000 / 10000000)
       (t mod 36000000000 mod 600000000 mod 10000000 / 10000)
       (t mod 36000000000 mod 600000000 mod 10000000 mod 10000 / 10)
       (t mod 36000000000 mod 600000000 mod 10000000 mod 10000 mod 10 * 100))).
Proof.
  intros Ht Hy Hm Hd Hdy Hw.
  pose proof (Z.mod_pos_bound t 36000000000 ltac:(lia)) as B1.
  set (t1 := t mod 36000000000) in *.
  pose proof (Z.mod_pos_bound t1 600000000 ltac:(lia)) as B2. set (t2 := t1 mod 600000000) in *.
  pose proof (Z.mod_pos_bound t2 10000000 ltac:(lia)) as B3. set (t3 := t2 mod 10000000) in *.
  pose proof (Z.mod_pos_bound t3 10000 ltac:(lia)) as B4. set (t4 := t3 mod 10000) in *.
  pose proof (Z.mod_pos_bound t4 10 ltac:(lia)) as B5. set (t5 := t4 mod 10) in *.
  change FACTOR_100NS_PER_HOUR with 36000000000. change FACTOR_100NS_PER_MINUTE with 600000000.
  change FACTOR_100NS_PER_SECOND with 10000000.
  do 5 (bind_step cquot_pos; bind_step crem_pos; fold t1 t2 t3 t4 t5). unfold cmul. ck_step.
  rewrite (sgn_small 16) by fit.
  rewrite (wrap_div 864000000000 t), (wrap_div 36000000000 t1), (wrap_div 600000000 t2),
    (wrap_div 10000000 t3), (wrap_div 10000 t4) by lia.
  by rewrite !(wrap_small 16) by (unfold in_u; lia).
Qed.

Lemma LinearTimeToFieldedTime_eq c lt :
  cache_ok c -> smin 64 + 864000000000 <= lt <= smax 64 ->
  exists c', LinearTimeToFieldedTime c lt =
    Some (c', if decide (lt_earliest <= lt <= lt_latest) then (true, fields_of lt)
              else (false, ft_zero)) /\ cache_ok c'.
Proof.
  intros Hc Hlt. unfold LinearTimeToFieldedTime.
  rewrite (bind_eq _ _ _ (i64FloorDivisionMod_pos lt Hlt)). unfold smin, smax in Hlt.
  assert (-10675200 <= lt / 864000000000 <= 10675200) as Hd by (Z.div_mod_to_equations; lia).
  rewrite (sgn_small 32) by fit. cbn zeta.
  destruct (GregorianFromFixed_eq c (lt / 864000000000 + 584389) Hc ltac:(unfold days_ok; lia))
    as (c' & E & Hc').
  unfold GregorianFromFixed_Adjusted, cadd at 1. rewrite ck_bind, E, bind_some by fit.
  exists c'. split; [|done]. set (n := lt / 864000000000 + 584389) in *.
  pose proof (date_of_spec n) as (Hv & _ & _ & Hyd). pose proof (date_of_dow n) as Hw.
  pose proof (lt_range_days lt) as R. fold n in R. rewrite <- year_range_days in R.
  pose proof (year_of_bound n ltac:(unfold days_ok; lia)) as Hyb.
  change (year_of n) with (gd_iYear (date_of n)) in R, Hyb.
  unfold fields_of. fold n. set (gd := date_of n) in *. clearbody gd. cbn zeta.
  destruct (isValidDate_eq (gd_iYear gd) (gd_iMonth gd) (gd_iDayOfMonth gd) ltac:(fit)) as (b & -> & Hb).
  rewrite bind_some. case_decide as D.
  2: { replace b with false; [done|]. destruct b; [|done]. exfalso. tauto. }
  replace b with true by (symmetry; tauto). cbn [negb]. apply R in D.
  pose proof (days_in_month_pos (gd_iYear gd) (gd_iMonth gd)). destruct Hv as [Hm Hdd].
  apply split_ticks; try lia. apply Z.mod_pos_bound; lia.
Qed.

(** ** The properties *)

(** [i64FloorDivision], behind the softcode function [floordiv()], returns the
    quotient rounded down unless computing it overflows, and it overflows exactly when the
    signs differ and [x - y] does not fit: the result is then undefined. *)
Theorem i64FloorDivision_spec x y :
  in_s 64 x -> in_s 64 y -> y <> 0 ->
  i64FloorDivision x y =
    if decide (x = smin 64 /\ y = -1) then Some (smin 64)
    else if decide ((x < 0 < y \/ y < 0 < x) /\ ~ in_s 64 (x - y)) then None
    else Some (x / y).
Proof.
  intros Hx Hy H0. unfold i64FloorDivision.
  destruct (Z.eqb_spec (smin 64) x), (Z.eqb_spec (-1) y); cbn [andb];
    (case_decide as D; [try (exfalso; lia)|try (exfalso; lia)]); try done;
    apply floor_body_spec; lia || done.
Qed.

Lemma i64FloorDivision_witness :
  in_s 64 (smin 64) /\ i64FloorDivision (smin 64) 5 = None /\ i64FloorDivision (-9) 5 = Some (-2).
Proof.
  split; [done|]. split; [|reflexivity].
  rewrite (i64FloorDivision_spec (smin 64) 5); [reflexivity|done..].
Defined.

(** C23: For day numbers of twelve million days around the year 1, about 32,800 years each way, the
    conversions count the days of the proleptic Gregorian calendar, whatever the cache holds from
    earlier calls, and leave it consistent.  Day 1 is 1 January of the year 1, a Monday; the date of the
    next day is the next date, with the next day of the week; and the day of a date is the day that gave
    it.  The adjusted functions are the same ones counting from 1 January 1601, and [isValidDate]
    answers on every year of 32 bits: it accepts the dates of the calendar in the years from -27256 to
    30826. *)
Theorem gregorian_spec c n :
  cache_ok c -> days_ok n -> days_ok (n + 1) ->
  (exists c1, GregorianFromFixed c 1 = Some (c1, {| gd_iYear := 1; gd_iMonth := 1; gd_iDayOfYear := 1;
     gd_iDayOfMonth := 1; gd_iDayOfWeek := 1 |})) /\
  FixedFromGregorian_Adjusted 1601 1 1 = Some 0 /\
  (exists c' g c'' g', GregorianFromFixed c n = Some (c', g) /\ cache_ok c' /\
    GregorianFromFixed c' (n + 1) = Some (c'', g') /\ cache_ok c'' /\
    GregorianFromFixed_Adjusted c (n - 584389) = Some (c', g) /\
    valid_date (gd_iYear g) (gd_iMonth g) (gd_iDayOfMonth g) /\
    FixedFromGregorian (gd_iYear g) (gd_iMonth g) (gd_iDayOfMonth g) = Some n /\
    FixedFromGregorian_Adjusted (gd_iYear g) (gd_iMonth g) (gd_iDayOfMonth g) = Some (n - 584389) /\
    FixedFromGregorian (gd_iYear g) 1 1 = Some (n - gd_iDayOfYear g + 1) /\
    (gd_iYear g', gd_iMonth g', gd_iDayOfMonth g') = next_day (gd_iYear g, gd_iMonth g, gd_iDayOfMonth g) /\
    gd_iDayOfWeek g' = (gd_iDayOfWeek g + 1) mod 7) /\
  (forall y m d, in_s 32 y -> exists b, isValidDate y m d = Some b /\
    (b = true <-> -27256 <= y <= 30826 /\ valid_date y m d)).
Proof.
  intros Hc Hn Hn'.
  assert (H1 : days_ok 1) by (unfold days_ok; lia).
  destruct (GregorianFromFixed_eq c 1 Hc H1) as (c1 & E1 & _).
  destruct (GregorianFromFixed_eq c n Hc Hn) as (c' & E & Hc').
  destruct (GregorianFromFixed_eq c' (n + 1) Hc' Hn') as (c'' & E' & Hc'').
  split; [exists c1; rewrite E1; do 2 f_equal|]. split; [vm_compute; reflexivity|]. split; [|exact isValidDate_eq].
  exists c', (date_of n), c'', (date_of (n + 1)).
  destruct (date_of_spec n) as (Hv & F & D & _). destruct (date_of_spec (n + 1)) as (Hv' & F' & _).
  pose proof (year_of_bound n Hn) as Hy. change (year_of n) with (gd_iYear (date_of n)) in Hy.
  pose proof (fixed_next _ _ _ Hv) as Hnx.
  pose proof (days_in_month_pos (gd_iYear (date_of n)) (gd_iMonth (date_of n))).
  assert (FF : FixedFromGregorian (gd_iYear (date_of n)) (gd_iMonth (date_of n)) (gd_iDayOfMonth (date_of n)) = Some n)
    by (rewrite FixedFromGregorian_eq; [by rewrite F| | |]; destruct Hv; lia).
  unfold days_ok in *. unfold GregorianFromFixed_Adjusted, FixedFromGregorian_Adjusted. rewrite FF. cbn [mbind option_bind].
  unfold cadd, csub. repeat ck_step. cbn [mbind option_bind]. replace (n - 584389 + 584389) with n by lia.
  split_and!; try done; try apply Hv.
  - rewrite FixedFromGregorian_eq by lia. f_equal. lia.
  - destruct (next_day _) as [[y m] d] eqn:En. destruct Hnx as [Hvx Fx].
    apply fixed_inj; [done..|]. lia.
  - cbn. by rewrite Zplus_mod_idemp_l.
Qed.

Lemma gregorian_spec_witness :
  cache_ok cache_init /\
  (exists c' g, GregorianFromFixed cache_init 738945 = Some (c', g) /\
     FixedFromGregorian (gd_iYear g) (gd_iMonth g) (gd_iDayOfMonth g) = Some 738945) /\
  GregorianFromFixed cache_init 738945 =
    Some ({| cache_iYear := 2024; cache_iJan1st := 738886; cache_iMar1st := 738946 |},
          Build_GregorianDate 2024 2 60 29 4) /\
  next_day (2024, 2, 29) = (2024, 3, 1).
Proof.
  assert (cache_ok cache_init) as Hc by (left; reflexivity).
  destruct (gregorian_spec cache_init 738945 Hc ltac:(unfold days_ok; lia) ltac:(unfold days_ok; lia))
    as (_ & _ & (c' & g & _ & _ & E & _ & _ & _ & _ & _ & F & _) & _).
  split; [exact Hc|]. split; [exists c', g; split; [exact E|exact F]|]. split; vm_compute; reflexivity.
Defined.

(** C25: [LinearTimeToFieldedTime] answers for every time more than a day above the least
    [int64_t], whatever the cache holds: it accepts exactly the times of the years -27256 to
    30826, the fields are in their ranges, and [FieldedTimeToLinearTime] of the fields is
    the time again, with the fields unchanged, the day of the week included. *)
Theorem linear_roundtrip c lt :
  cache_ok c -> smin 64 + FACTOR_100NS_PER_DAY <= lt <= smax 64 ->
  exists c' b ft, LinearTimeToFieldedTime c lt = Some (c', (b, ft)) /\ cache_ok c' /\
    (b = true <-> lt_earliest <= lt <= lt_latest) /\
    (b = true -> valid_fields ft /\ FieldedTimeToLinearTime ft = Some (true, ft, lt)).
Proof.
  intros Hc Hlt. destruct (LinearTimeToFieldedTime_eq c lt Hc Hlt) as (c' & -> & Hc').
  case_decide as D; [exists c', true, (fields_of lt) | exists c', false, ft_zero].
  - destruct (fields_of_valid lt D) as (Hv & E & _). do 2 (split; [done|]). split; [tauto|]. intros _.
    split; [done|]. rewrite FieldedTimeToLinearTime_eq by done.
    by rewrite E, <- fields_of_dow, set_dow_id.
  - do 2 (split; [done|]). split; [|done]. split; [done|tauto].
Qed.

Lemma linear_roundtrip_witness :
  cache_ok cache_init /\
  (exists c' ft, LinearTimeToFieldedTime cache_init 133536600001234567 = Some (c', (true, ft)) /\
     FieldedTimeToLinearTime ft = Some (true, ft, 133536600001234567)) /\
  LinearTimeToFieldedTime cache_init 133536600001234567 =
    Some ({| cache_iYear := 2024; cache_iJan1st := 738886; cache_iMar1st := 738946 |},
          (true, Build_FIELDEDTIME 2024 2 4 29 60 6 0 0 123 456 700)).
Proof.
  assert (cache_ok cache_init) as Hc by (left; reflexivity).
  destruct (linear_roundtrip cache_init 133536600001234567 Hc ltac:(split; vm_compute; discriminate))
    as (c' & b & ft & E & _ & Hb & F).
  assert (b = true) as -> by (apply Hb; split; vm_compute; discriminate).
  split; [exact Hc|]. split; [exists c', ft; split; [exact E|exact (proj2 (F eq_refl))]|].
  vm_compute. reflexivity.
Defined.
