(* ===== verification/Decimal.v ===== *)
(** * Integers as text: [src/mux/lib/mathutil.cpp]

    [mux_ui64toa], [mux_i64toa], [mux_ui64tox], [mux_ui64too] and [mux_atoi64], against the
    value of a list of digits.  A C string is the list of its bytes without the NUL: reading
    at its end gives 0 ([chr_at]). *)

From Stdlib Require Import Strings.String Strings.Ascii.
From S2P Require Import Prelude Machine.
Local Open Scope Z_scope.

(** ** Strings and characters *)

Definition chr_at (s : bytes) (i : nat) : Z := nth i s 0.

Fixpoint bytes_of (s : string) : bytes :=
  match s with
  | EmptyString => []
  | String a s' => Z.of_nat (nat_of_ascii a) :: bytes_of s'
  end.

(** The tables [mux_isdigit] and [mux_isspace] of [stringutil.cpp]. *)
Definition mux_isdigit (b : Z) : bool := in_rng 48 57 b.
Definition mux_isspace (b : Z) : bool := in_rng 9 13 b || (b =? 32).

(** ** Writing *)

(** [ReverseDigits(buf + first, buf + last)]: the bytes of [buf] between the two indices. *)
Definition reverse_body (st : bytes * Z * Z) : (bytes * Z * Z) + bytes :=
  let '(buf, pFirst, pLast) := st in
  if pFirst <? pLast then
    let temp := chr_at buf (Z.to_nat pLast) in
    let buf := <[Z.to_nat pLast := chr_at buf (Z.to_nat pFirst)]> buf in
    let buf := <[Z.to_nat pFirst := temp]> buf in
    inl (buf, pFirst + 1, pLast - 1)
  else inr buf.

Definition ReverseDigits (buf : bytes) (pFirst pLast : Z) : option bytes :=
  iter reverse_body (S (length buf)) (buf, pFirst, pLast).

Definition Digits100 : bytes := bytes_of
  "00102030405060708090011121314151617181910212223242526272829203132333435363738393041424344454647484940515253545556575859506162636465666768696071727374757677787970818283848586878889809192939495969798999"%string.

(** The loop that writes two decimal digits at a time, the least significant first. *)
Definition utoa_body (st : Z * bytes) : (Z * bytes) + bytes :=
  let '(uval, out) := st in
  if 99 <? uval then
    let z := Z.to_nat (Z.shiftl (uval mod 100) 1) in
    inl (uval / 100, out ++ [chr_at Digits100 z; chr_at Digits100 (z + 1)])
  else
    let z := Z.to_nat (Z.shiftl uval 1) in
    inr (out ++ chr_at Digits100 z ::
         (if 9 <? uval then [chr_at Digits100 (z + 1)] else [])).

(** More iterations than a 64-bit value has digits. *)
Definition digit_fuel : nat := 65.

Definition mux_ui64toa (uval : Z) : option bytes :=
  out ← iter utoa_body digit_fuel (uval, []);
  ReverseDigits out 0 (Z.of_nat (length out) - 1).

Definition mux_i64toa (val : Z) : option bytes :=
  if val <? 0 then
    let uval := if val =? smin 64 then wrap 64 (smax 64) + 1 else wrap 64 (- val) in
    d ← mux_ui64toa uval; Some (45 :: d)
  else mux_ui64toa val.

(** Hexadecimal and octal: one digit at a time from the table [pDigits]. *)
Definition Digits16U : bytes := bytes_of "0123456789ABCDEF".
Definition Digits16L : bytes := bytes_of "0123456789abcdef".
Definition Digits8 : bytes := bytes_of "01234567".

Definition uto_body (base : Z) (pDigits : bytes) (st : Z * bytes) : (Z * bytes) + bytes :=
  let '(uval, out) := st in
  if base - 1 <? uval then inl (uval / base, out ++ [chr_at pDigits (Z.to_nat (uval mod base))])
  else inr (out ++ [chr_at pDigits (Z.to_nat uval)]).

Definition mux_ui64tox (uval : Z) (bUpperCase : bool) : option bytes :=
  out ← iter (uto_body 16 (if bUpperCase then Digits16U else Digits16L)) digit_fuel (uval, []);
  ReverseDigits out 0 (Z.of_nat (length out) - 1).

Definition mux_ui64too (uval : Z) : option bytes :=
  out ← iter (uto_body 8 Digits8) digit_fuel (uval, []);
  ReverseDigits out 0 (Z.of_nat (length out) - 1).

(** ** Reading *)

Definition TableATOI (a b : Z) : Z :=
  nth (Z.to_nat b) (nth (Z.to_nat a) (map (fun k => zrange (10 * Z.of_nat k) 10) (seq 0 10)) []) 0.

(** The do-while loop over the digits; [c0] is the digit at [pString]. *)
Definition atoi_body (st : bytes * Z) : (bytes * Z) + Z :=
  let '(pString, sum) := st in
  let c0 := chr_at pString 0 in
  let c1 := chr_at pString 1 in
  if mux_isdigit c1 then
    let sum := wrap 64 (100 * sum + TableATOI (c0 - 48) (c1 - 48)) in
    let pString := drop 2 pString in
    if mux_isdigit (chr_at pString 0) then inl (pString, sum) else inr sum
  else inr (wrap 64 (10 * sum + (c0 - 48))).

Fixpoint skip_while (p : Z -> bool) (s : bytes) : bytes :=
  match s with
  | b :: s' => if p b then skip_while p s' else s
  | [] => []
  end.

Definition mux_atoi64 (pString : bytes) : option Z :=
  let finish LeadingCharacter pString :=
    sum ← iter atoi_body (S (length pString)) (pString, 0);
    Some (sgn 64 (if LeadingCharacter =? 45 then wrap 64 (- sum) else sum)) in
  if negb (mux_isdigit (chr_at pString 0)) then
    let pString := skip_while mux_isspace pString in
    let LeadingCharacter := chr_at pString 0 in
    let pString := if (LeadingCharacter =? 45) || (LeadingCharacter =? 43) then drop 1 pString
                   else pString in
    if negb (mux_isdigit (chr_at pString 0)) then Some 0 else finish LeadingCharacter pString
  else finish 0 pString.

(** ** Digits and values *)

(** The value of a digit, decimal or hexadecimal. *)
Definition digit (b : Z) : Z :=
  if in_rng 48 57 b then b - 48 else if in_rng 65 70 b then b - 55
  else if in_rng 97 102 b then b - 87 else -1.

Definition value (base : Z) (s : bytes) : Z := foldl (fun acc b => base * acc + digit b) 0 s.

(** The same number with the least significant digit first. *)
Definition le_value (base : Z) (s : bytes) : Z := foldr (fun b acc => digit b + base * acc) 0 s.

Definition is_digit_of (base b : Z) : Prop := 0 <= digit b < base.

(** [s] is the numeral of [v]: digits of the base, the first not 0 unless it is the only one. *)
Definition numeral (base v : Z) (s : bytes) : Prop :=
  value base s = v /\ Forall (is_digit_of base) s /\
  exists b r, s = b :: r /\ (digit b = 0 -> r = []).

Lemma value_app base s t : value base (s ++ t) = value base s * base ^ Z.of_nat (length t) + value base t.
Proof.
  unfold value. rewrite foldl_app. generalize (foldl (fun acc b => base * acc + digit b) 0 s).
  induction t as [|b t IH] using rev_ind; intros a; cbn [foldl length]; [rewrite Z.pow_0_r; ring|].
  rewrite !foldl_app, length_app. cbn [foldl length]. rewrite IH.
  replace (Z.of_nat (length t + 1)) with (Z.succ (Z.of_nat (length t))) by lia.
  rewrite Z.pow_succ_r by lia. ring.
Qed.

Lemma value_reverse base s : value base (reverse s) = le_value base s.
Proof.
  induction s as [|b s IH]; [done|]. rewrite reverse_cons.
  unfold value in *. rewrite foldl_app. cbn [foldl]. rewrite IH.
  change (le_value base (b :: s)) with (digit b + base * le_value base s). ring.
Qed.

Lemma le_value_app base s t :
  le_value base (s ++ t) = le_value base s + base ^ Z.of_nat (length s) * le_value base t.
Proof.
  induction s as [|b s IH].
  - cbn [app length]. change (le_value base []) with 0. rewrite Z.pow_0_r. ring.
  - cbn [app length]. change (le_value base (b :: s ++ t)) with (digit b + base * le_value base (s ++ t)).
    change (le_value base (b :: s)) with (digit b + base * le_value base s).
    rewrite IH, Nat2Z.inj_succ, Z.pow_succ_r by lia. ring.
Qed.

(** ** The writers *)

Lemma chr_at_lookup s i b : s !! i = Some b -> chr_at s i = b.
Proof. intros H. unfold chr_at. rewrite nth_lookup, H. done. Qed.

Lemma reverse_lookup' (s : bytes) i : (i < length s)%nat -> reverse s !! i = s !! (length s - 1 - i)%nat.
Proof. intros H. rewrite reverse_lookup by done. f_equal. lia. Qed.

(** What the swaps have done when the two pointers are at [i] and [j]. *)
Definition swapped (orig buf : bytes) (i j : Z) : Prop :=
  length buf = length orig /\ i + j = Z.of_nat (length orig) - 1 /\ 0 <= i /\
  forall k, (k < length orig)%nat ->
    buf !! k = if decide (i <= Z.of_nat k <= j) then orig !! k else reverse orig !! k.

Lemma swapped_step orig buf i j :
  swapped orig buf i j -> i < j ->
  swapped orig (<[Z.to_nat i := chr_at buf (Z.to_nat j)]>
                  (<[Z.to_nat j := chr_at buf (Z.to_nat i)]> buf)) (i + 1) (j - 1).
Proof.
  intros (Hl & Hs & Hi & Hk) Hij. split_and!; [by rewrite !length_insert| lia..|].
  intros k Hkl.
  assert (forall q, (q < length orig)%nat -> i <= Z.of_nat q <= j -> orig !! q = Some (chr_at buf q)) as G.
  { intros q Hq Hqr. specialize (Hk q Hq). rewrite decide_True in Hk by done.
    destruct (lookup_lt_is_Some_2 orig q Hq) as [b Hb]. rewrite Hb in *.
    by rewrite (chr_at_lookup _ _ _ Hk). }
  destruct (decide (k = Z.to_nat i)) as [->|N1].
  { rewrite list_lookup_insert_eq by (rewrite length_insert; lia).
    rewrite decide_False, reverse_lookup' by lia.
    replace (length orig - 1 - Z.to_nat i)%nat with (Z.to_nat j) by lia.
    symmetry. apply G; lia. }
  rewrite list_lookup_insert_ne by lia.
  destruct (decide (k = Z.to_nat j)) as [->|N2].
  { rewrite list_lookup_insert_eq by lia. rewrite decide_False, reverse_lookup' by lia.
    replace (length orig - 1 - Z.to_nat j)%nat with (Z.to_nat i) by lia.
    symmetry. apply G; lia. }
  rewrite list_lookup_insert_ne by lia. rewrite Hk by done. repeat case_decide; try done; lia.
Qed.

Lemma ReverseDigits_eq s :
  ReverseDigits s 0 (Z.of_nat (length s) - 1) = Some (reverse s).
Proof.
  unfold ReverseDigits.
  edestruct (iter_total reverse_body
    (fun '(buf, i, j) => swapped s buf i j) (fun r => r = reverse s)
    (fun '(buf, i, j) => Z.to_nat (j - i))) with (fuel := S (length s)) (s := (s, 0, Z.of_nat (length s) - 1))
    as (r & E & ->).
  - intros [[buf i] j] H. unfold reverse_body. destruct (Z.ltb_spec i j) as [L|L].
    + split; [by apply swapped_step | lia].
    + destruct H as (Hl & Hs & Hi & Hk). apply list_eq. intros k.
      destruct (decide (k < length s)%nat) as [Lk|Lk].
      * rewrite Hk by done. case_decide; [|done]. rewrite reverse_lookup' by done. f_equal. lia.
      * rewrite !lookup_ge_None_2; [done| rewrite length_reverse; lia | lia].
  - repeat split; try lia. intros k Hk. rewrite decide_True by lia. done.
  - lia.
  - exact E.
Qed.

(** A loop that appends digits, the least significant first, until one remains. *)
Definition le_numeral (base v : Z) (s : bytes) : Prop :=
  le_value base s = v /\ Forall (is_digit_of base) s /\
  exists b r, s = r ++ [b] /\ (digit b = 0 -> r = []).

Lemma le_numeral_reverse base v s : le_numeral base v s -> numeral base v (reverse s).
Proof.
  intros (E & F & b & r & -> & H). split; [by rewrite value_reverse|].
  split; [by apply Forall_reverse|]. rewrite reverse_app. exists b, (reverse r).
  split; [done|]. intros D. by rewrite (H D).
Qed.

(** What holds of the digits written so far, [uval] being left: [v] is the number. *)
Definition writing (base v : Z) (st : Z * bytes) : Prop :=
  let '(uval, out) := st in
  0 <= uval /\ le_value base out + base ^ Z.of_nat (length out) * uval = v /\
  Forall (is_digit_of base) out /\ (uval = 0 -> out = []).

Lemma writing_app base v u out u' ds :
  2 <= base -> writing base v (u, out) -> 0 <= u' ->
  le_value base ds + base ^ Z.of_nat (length ds) * u' = u -> Forall (is_digit_of base) ds ->
  (u' = 0 -> ds = [] /\ out = []) -> writing base v (u', out ++ ds).
Proof.
  intros Hb (Hu & E & F & H0) Hu' E' F' H0'. split; [done|]. split; [|split].
  - rewrite le_value_app, length_app, Nat2Z.inj_add, Z.pow_add_r by lia. rewrite <- E, <- E'. ring.
  - by apply Forall_app.
  - intros ->. by destruct (H0' eq_refl) as [-> ->].
Qed.

(** Writing the last digits of a number gives its numeral. *)
Lemma writing_last base v u out r b :
  writing base v (u, out) -> le_value base (r ++ [b]) = u -> Forall (is_digit_of base) (r ++ [b]) ->
  (digit b = 0 -> u = 0 /\ r = []) -> le_numeral base v (out ++ r ++ [b]).
Proof.
  intros (Hu & E & F & H0) E' F' Hz. split; [|split].
  - rewrite le_value_app, E'. done.
  - by apply Forall_app.
  - exists b, (out ++ r). split; [by rewrite app_assoc|]. intros D.
    destruct (Hz D) as [-> ->]. by rewrite (H0 eq_refl).
Qed.

Lemma Digits100_spec k :
  0 <= k < 100 ->
  chr_at Digits100 (Z.to_nat (Z.shiftl k 1)) = 48 + k mod 10 /\
  chr_at Digits100 (Z.to_nat (Z.shiftl k 1) + 1) = 48 + k / 10.
Proof.
  intros H.
  assert ((chr_at Digits100 (Z.to_nat (Z.shiftl k 1)) =? 48 + k mod 10) &&
          (chr_at Digits100 (Z.to_nat (Z.shiftl k 1) + 1) =? 48 + k / 10) = true) as E.
  { apply (forall_zrange (fun k => (chr_at Digits100 (Z.to_nat (Z.shiftl k 1)) =? 48 + k mod 10) &&
      (chr_at Digits100 (Z.to_nat (Z.shiftl k 1) + 1) =? 48 + k / 10)) 0 100); [vm_compute; reflexivity|lia]. }
  byte_hyps. done.
Qed.

Lemma digit_dec k : 0 <= k < 10 -> digit (48 + k) = k.
Proof. intros. unfold digit. byte_cases. lia. Qed.

Lemma is_digit_dec k : 0 <= k < 10 -> is_digit_of 10 (48 + k).
Proof. intros. unfold is_digit_of. rewrite digit_dec by done. lia. Qed.

Lemma utoa_body_step v st :
  writing 10 v st ->
  match utoa_body st with
  | inl st' => writing 10 v st' /\ (Z.to_nat (Z.log2 (fst st')) < Z.to_nat (Z.log2 (fst st)))%nat
  | inr s => le_numeral 10 v s
  end.
Proof.
  destruct st as [u out]. intros H. pose proof H as (Hu & _). unfold utoa_body.
  destruct (Z.ltb_spec 99 u) as [L|L].
  - pose proof (Z.mod_pos_bound u 100 ltac:(lia)) as Hk.
    destruct (Digits100_spec (u mod 100) ltac:(lia)) as [E1 E2]. cbv zeta.
    rewrite E1, E2. set (k := u mod 100) in *.
    assert (0 <= k mod 10 < 10 /\ 0 <= k / 10 < 10) as [K1 K2] by (Z.div_mod_to_equations; lia).
    split.
    + eapply writing_app; [lia | exact H | Z.div_mod_to_equations; lia | | | ].
      * cbn [le_value foldr length]. rewrite !digit_dec by done. change (10 ^ Z.of_nat 2) with 100.
        unfold k. Z.div_mod_to_equations. lia.
      * repeat constructor; by apply is_digit_dec.
      * intros. exfalso. Z.div_mod_to_equations. lia.
    + cbn [fst]. assert (Z.log2 (u / 100) < Z.log2 u); [|pose proof (Z.log2_nonneg (u / 100)); lia].
      assert (u / 100 <= u / 2) by (Z.div_mod_to_equations; lia).
      pose proof (Z.log2_le_mono _ _ H0). rewrite <- Z.div2_div, Z.div2_spec, Z.log2_shiftr in H1 by lia.
      pose proof (Z.log2_pos u ltac:(lia)). lia.
  - destruct (Digits100_spec u ltac:(lia)) as [E1 E2]. cbv zeta. rewrite E1, E2.
    destruct (Z.ltb_spec 9 u) as [L9|L9].
    + apply (writing_last 10 v u out [48 + u mod 10] (48 + u / 10) H); cbn [le_value foldr app];
        assert (0 <= u mod 10 < 10 /\ 0 <= u / 10 < 10) as [K1 K2] by (Z.div_mod_to_equations; lia);
        rewrite ?digit_dec by done.
      * Z.div_mod_to_equations. lia.
      * repeat constructor; by apply is_digit_dec.
      * intros. exfalso. Z.div_mod_to_equations. lia.
    + apply (writing_last 10 v u out [] (48 + u mod 10) H); cbn [le_value foldr app];
        rewrite ?(Z.mod_small u 10), ?digit_dec by lia; [lia| |by intros].
      repeat constructor; apply is_digit_dec; lia.
Qed.

Lemma writing_start base v : 0 <= v -> writing base v (v, []).
Proof.
  intros. split; [done|]. cbn [length le_value foldr]. change (Z.of_nat 0) with 0.
  rewrite Z.pow_0_r. split; [lia|]. by split.
Qed.

Lemma log2_fuel v : 0 <= v < 2 ^ 64 -> (Z.to_nat (Z.log2 v) < digit_fuel)%nat.
Proof.
  intros H. unfold digit_fuel. destruct (decide (v = 0)) as [->|]; [cbn; lia|].
  pose proof (Z.log2_lt_pow2 v 64 ltac:(lia)). lia.
Qed.

Lemma mux_ui64toa_numeral v :
  0 <= v < 2 ^ 64 -> exists s, mux_ui64toa v = Some s /\ numeral 10 v s.
Proof.
  intros H. unfold mux_ui64toa.
  destruct (iter_total utoa_body (writing 10 v) (le_numeral 10 v) (fun st => Z.to_nat (Z.log2 (fst st)))
    (utoa_body_step v) digit_fuel (v, [])) as (s & -> & Hs).
  - apply writing_start; lia.
  - by apply log2_fuel.
  - rewrite bind_some, ReverseDigits_eq. eauto using le_numeral_reverse.
Qed.

(** A table of digits for a base. *)
Definition digit_table (base : Z) (pDigits : bytes) : bool :=
  forallb (fun k => digit (chr_at pDigits (Z.to_nat k)) =? k) (zrange 0 (Z.to_nat base)).

Lemma uto_body_step base tab v st :
  2 <= base -> digit_table base tab = true -> writing base v st ->
  match uto_body base tab st with
  | inl st' => writing base v st' /\ (Z.to_nat (Z.log2 (fst st')) < Z.to_nat (Z.log2 (fst st)))%nat
  | inr s => le_numeral base v s
  end.
Proof.
  intros Hb Ht H. destruct st as [u out]. pose proof H as (Hu & _).
  assert (forall k, 0 <= k < base -> digit (chr_at tab (Z.to_nat k)) = k) as T.
  { intros k Hk. apply Z.eqb_eq.
    apply (forall_zrange (fun k => digit (chr_at tab (Z.to_nat k)) =? k) 0 (Z.to_nat base)); [done|lia]. }
  unfold uto_body. destruct (Z.ltb_spec (base - 1) u) as [L|L].
  - pose proof (Z.mod_pos_bound u base ltac:(lia)) as Hk.
    pose proof (Z.div_mod u base ltac:(lia)) as Hd.
    assert (0 < u / base) by (apply Z.div_str_pos; lia). split.
    + eapply writing_app; [lia | exact H | lia | | | ].
      * cbn [le_value foldr length]. rewrite T by lia. change (Z.of_nat 1) with 1.
        rewrite Z.pow_1_r. lia.
      * repeat constructor; rewrite T; lia.
      * intros. exfalso. lia.
    + cbn [fst]. assert (Z.log2 (u / base) < Z.log2 u); [|pose proof (Z.log2_nonneg (u / base)); lia].
      assert (u / base <= u / 2) as Hle by (apply Z.div_le_compat_l; lia).
      apply Z.log2_le_mono in Hle. rewrite <- Z.div2_div, Z.div2_spec, Z.log2_shiftr in Hle by lia.
      pose proof (Z.log2_pos u ltac:(lia)). lia.
  - apply (writing_last base v u out [] (chr_at tab (Z.to_nat u)) H); cbn [le_value foldr app];
      rewrite ?T by lia; [lia| |by intros].
    repeat constructor; rewrite T; lia.
Qed.

Lemma uto_numeral base tab v :
  2 <= base -> digit_table base tab = true -> 0 <= v < 2 ^ 64 ->
  exists s, (out ← iter (uto_body base tab) digit_fuel (v, []);
             ReverseDigits out 0 (Z.of_nat (length out) - 1)) = Some s /\ numeral base v s.
Proof.
  intros Hb Ht H.
  destruct (iter_total (uto_body base tab) (writing base v) (le_numeral base v)
    (fun st => Z.to_nat (Z.log2 (fst st))) (fun st => uto_body_step base tab v st Hb Ht)
    digit_fuel (v, [])) as (s & -> & Hs).
  - apply writing_start; lia.
  - by apply log2_fuel.
  - rewrite bind_some, ReverseDigits_eq. eauto using le_numeral_reverse.
Qed.

(** ** The reader *)

Fixpoint digit_run (s : bytes) : bytes :=
  match s with
  | b :: s' => if mux_isdigit b then b :: digit_run s' else []
  | [] => []
  end.

Lemma TableATOI_spec a b : 0 <= a < 10 -> 0 <= b < 10 -> TableATOI a b = 10 * a + b.
Proof.
  intros Ha Hb.
  assert (forallb (fun b => TableATOI a b =? 10 * a + b) (zrange 0 10) = true) as H.
  { apply (forall_zrange (fun a => forallb (fun b => TableATOI a b =? 10 * a + b) (zrange 0 10)) 0 10);
      [vm_compute; reflexivity|lia]. }
  apply Z.eqb_eq, (forall_zrange (fun b => TableATOI a b =? 10 * a + b) 0 10); [done|lia].
Qed.

Lemma isdigit_digit b : mux_isdigit b = true -> digit b = b - 48 /\ 48 <= b <= 57.
Proof. unfold mux_isdigit. intros H. byte_hyps. unfold digit. byte_cases. lia. Qed.

(** The value of the digits from here on, [sum] being the value of the digits before. *)
Definition atoi_value (st : bytes * Z) : Z :=
  wrap 64 (snd st * 10 ^ Z.of_nat (length (digit_run (fst st))) + value 10 (digit_run (fst st))).

Lemma value_cons2 b c s :
  value 10 (b :: c :: s) = (10 * digit b + digit c) * 10 ^ Z.of_nat (length s) + value 10 s.
Proof.
  change (b :: c :: s) with ([b; c] ++ s). rewrite value_app. do 2 f_equal.
Qed.

Lemma atoi_body_step st :
  mux_isdigit (chr_at (fst st) 0) = true ->
  match atoi_body st with
  | inl st' => mux_isdigit (chr_at (fst st') 0) = true /\ (length (fst st') < length (fst st))%nat /\
               atoi_value st' = atoi_value st
  | inr r => r = atoi_value st
  end.
Proof.
  destruct st as [s sum]. cbn [fst]. intros H0. unfold atoi_body.
  destruct s as [|b s]; [discriminate|]. unfold chr_at in *. cbn [nth] in *.
  destruct (isdigit_digit b H0) as [D0 B0].
  destruct s as [|c s]; cbn [nth drop].
  - change (mux_isdigit 0) with false. cbn iota. unfold atoi_value. cbn [fst snd digit_run].
    rewrite H0. cbn [digit_run length]. unfold value. cbn [foldl]. rewrite D0. f_equal.
    change (10 ^ Z.of_nat 1) with 10. lia.
  - destruct (mux_isdigit c) eqn:H1.
    + destruct (isdigit_digit c H1) as [D1 B1]. rewrite TableATOI_spec by lia.
      assert (atoi_value (s, wrap 64 (100 * sum + (10 * (b - 48) + (c - 48)))) = atoi_value (b :: c :: s, sum)) as E.
      { unfold atoi_value. cbn [fst snd digit_run]. rewrite H0, H1. cbn [length].
        rewrite value_cons2, D0, D1, !Nat2Z.inj_succ, !Z.pow_succ_r by lia.
        rewrite <- wrap_add_l, wrap_mul_l, wrap_add_l. f_equal. ring. }
      rewrite drop_0. destruct (mux_isdigit (nth 0 s 0)) eqn:H2.
      * split; [done|]. split; [cbn [fst length]; lia|done].
      * rewrite <- E. unfold atoi_value. cbn [fst snd].
        replace (digit_run s) with ([] : bytes) by (destruct s; cbn in *; [done|by rewrite H2]).
        cbn [length value foldl]. change (Z.of_nat 0) with 0. rewrite Z.pow_0_r, Z.mul_1_r, Z.add_0_r.
        by rewrite wrap_wrap.
    + unfold atoi_value. cbn [fst snd digit_run]. rewrite H0, H1.
      cbn [length]. unfold value. cbn [foldl]. rewrite D0. f_equal. change (10 ^ Z.of_nat 1) with 10. lia.
Qed.

Lemma atoi_loop s :
  mux_isdigit (chr_at s 0) = true ->
  iter atoi_body (S (length s)) (s, 0) = Some (wrap 64 (value 10 (digit_run s))).
Proof.
  intros H. rewrite (iter_value atoi_body (fun st => mux_isdigit (chr_at (fst st) 0) = true)
    atoi_value (fun st => length (fst st)) atoi_body_step); cbn [fst]; [|done|lia].
  unfold atoi_value. cbn [fst snd]. done.
Qed.

(** What [mux_atoi64] reads: spaces, one sign, digits; anything else ends the number. *)
Definition atoi_spec (s : bytes) : Z :=
  let s := skip_while mux_isspace s in
  match s with
  | b :: s' => if b =? 45 then sgn 64 (- value 10 (digit_run s'))
               else if b =? 43 then sgn 64 (value 10 (digit_run s'))
               else sgn 64 (value 10 (digit_run s))
  | [] => 0
  end.

Lemma digit_run_nil s : mux_isdigit (chr_at s 0) = false -> digit_run s = [].
Proof. destruct s as [|b s]; [done|]. cbn. by intros ->. Qed.

Lemma digit_not_sign b : mux_isdigit b = true -> (b =? 45) = false /\ (b =? 43) = false /\ mux_isspace b = false.
Proof. unfold mux_isdigit, mux_isspace. intros H. byte_hyps. byte_cases. done. Qed.

Lemma sgn_neg_wrap x : sgn 64 (wrap 64 (- wrap 64 x)) = sgn 64 (- x).
Proof. apply wrap_eq_sgn. rewrite wrap_wrap. apply (wrap_sub_r 64 0 x). Qed.

Lemma mux_atoi64_eq s : mux_atoi64 s = Some (atoi_spec s).
Proof.
  unfold mux_atoi64. destruct (mux_isdigit (chr_at s 0)) eqn:H0; cbn [negb].
  - destruct s as [|b s]; [discriminate|]. cbn in H0. unfold atoi_spec.
    destruct (digit_not_sign b H0) as (N1 & N2 & N3). cbn [skip_while]. rewrite N3, N1, N2.
    rewrite atoi_loop by done. rewrite bind_some. change (0 =? 45) with false.
    cbv iota. by rewrite sgn_wrap.
  - unfold atoi_spec. set (t := skip_while mux_isspace s). destruct t as [|b t]; [done|].
    change (chr_at (b :: t) 0) with b. change (drop 1 (b :: t)) with t. cbv zeta.
    destruct (Z.eqb_spec b 45) as [->|N1]; [|destruct (Z.eqb_spec b 43) as [->|N2]]; cbn [orb].
    + destruct (mux_isdigit (chr_at t 0)) eqn:H1; cbn [negb]; [|by rewrite digit_run_nil].
      rewrite atoi_loop, bind_some by done. change (45 =? 45) with true.
      cbv iota. by rewrite sgn_neg_wrap.
    + destruct (mux_isdigit (chr_at t 0)) eqn:H1; cbn [negb]; [|by rewrite digit_run_nil].
      rewrite atoi_loop, bind_some by done. change (43 =? 45) with false.
      cbv iota. by rewrite sgn_wrap.
    + destruct (mux_isdigit (chr_at (b :: t) 0)) eqn:H1; cbn [negb]; [|by rewrite digit_run_nil].
      rewrite atoi_loop, bind_some by done. replace (b =? 45) with false by lia.
      cbv iota. by rewrite sgn_wrap.
Qed.

(** ** The properties *)

Lemma digit_run_app s r :
  forallb mux_isdigit s = true -> mux_isdigit (chr_at r 0) = false -> digit_run (s ++ r) = s.
Proof.
  intros H Hr. induction s as [|b s IH]; cbn [app digit_run]; [by apply digit_run_nil|].
  cbn in H. apply andb_prop in H as [-> H]. by rewrite IH.
Qed.

Lemma value_single base b : value base [b] = digit b.
Proof. unfold value. cbn [foldl]. lia. Qed.

Lemma value_bound base s :
  2 <= base -> Forall (is_digit_of base) s -> 0 <= value base s < base ^ Z.of_nat (length s).
Proof.
  intros Hb. induction s as [|b s IH] using rev_ind; intros F; [by cbn|].
  apply Forall_app in F as [F Fb]. rewrite Forall_singleton in Fb. specialize (IH F).
  rewrite value_app, length_app. cbn [length]. rewrite Nat2Z.inj_add, Z.pow_add_r by lia.
  change (Z.of_nat 1) with 1. rewrite Z.pow_1_r, value_single.
  unfold is_digit_of in Fb. nia.
Qed.

Lemma is_digit_of_10 b : is_digit_of 10 b -> in_rng 48 57 b = true.
Proof. unfold is_digit_of, digit. intros H. apply in_rng_true.
  repeat case_match; byte_hyps; lia. Qed.

Lemma digits_forallb s : Forall (is_digit_of 10) s -> forallb mux_isdigit s = true.
Proof.
  induction 1 as [|b s Hb _ IH]; [done|]. cbn. rewrite IH. unfold mux_isdigit.
  by rewrite is_digit_of_10.
Qed.

(** A numeral has no more digits than its value needs. *)
Lemma numeral_length base v s n :
  2 <= base -> numeral base v s -> v < base ^ Z.of_nat n -> (0 < n)%nat -> (length s <= n)%nat.
Proof.
  intros Hb (E & F & b & r & -> & Hz) Hv Hn. destruct (decide (length r = 0)%nat); [cbn; lia|].
  assert (digit b <> 0) by (intros D; apply Hz in D; by subst).
  apply Forall_cons in F as [Fb F]. pose proof (value_bound base r Hb F) as [Hr _].
  change (b :: r) with ([b] ++ r) in E. rewrite value_app, value_single in E.
  unfold is_digit_of in Fb. cbn [length].
  pose proof (Z.pow_pos_nonneg base (Z.of_nat (length r)) ltac:(lia) ltac:(lia)).
  assert (base ^ Z.of_nat (length r) < base ^ Z.of_nat n) as Hlt by nia.
  apply Z.pow_lt_mono_r_iff in Hlt; lia.
Qed.

Lemma i64toa_atoi64 v rest :
  in_s 64 v -> mux_isdigit (chr_at rest 0) = false ->
  exists s ds, mux_i64toa v = Some s /\ s = (if v <? 0 then [45] else []) ++ ds /\
    numeral 10 (Z.abs v) ds /\ (length s <= 20)%nat /\ mux_atoi64 (s ++ rest) = Some v.
Proof.
  intros Hv Hr. assert (0 <= Z.abs v < 2 ^ 64) as Ha by (unfold in_s, smin, smax in Hv; lia).
  destruct (mux_ui64toa_numeral (Z.abs v) Ha) as (ds & E & Hn).
  assert (forallb mux_isdigit ds = true) as Fd.
  { apply digits_forallb, Hn. }
  assert (length ds <= 19)%nat as Hl
    by (apply (numeral_length 10 (Z.abs v)); [lia|done| |lia];
        unfold in_s, smin, smax in Hv; change (10 ^ Z.of_nat 19) with 10000000000000000000; lia).
  exists ((if v <? 0 then [45] else []) ++ ds), ds.
  assert (mux_i64toa v = Some ((if v <? 0 then [45] else []) ++ ds)) as ->.
  { unfold mux_i64toa. destruct (Z.ltb_spec v 0); [|by replace v with (Z.abs v) by lia].
    replace (if v =? smin 64 then wrap 64 (smax 64) + 1 else wrap 64 (- v)) with (Z.abs v).
    { by rewrite E. }
    destruct (Z.eqb_spec v (smin 64)) as [->|]; [reflexivity|].
    rewrite wrap_small by (unfold in_u, in_s, smin, smax in *; lia). lia. }
  split_and!; [done|done|exact Hn| |].
  { rewrite length_app. destruct (v <? 0); cbn [length]; lia. }
  rewrite mux_atoi64_eq. f_equal. unfold atoi_spec. destruct Hn as (Ev & _ & b & r & -> & _).
  destruct (Z.ltb_spec v 0) as [L|L]; cbn [app skip_while].
  - change (mux_isspace 45) with false. cbv iota. rewrite Z.eqb_refl.
    change (b :: r ++ rest) with ((b :: r) ++ rest).
    rewrite (digit_run_app (b :: r) rest Fd Hr), Ev. rewrite sgn_small; [lia|lia|].
    unfold in_s, smin, smax in *. lia.
  - assert (mux_isdigit b = true) as Hb by (cbn in Fd; by apply andb_prop in Fd as [-> _]).
    destruct (digit_not_sign b Hb) as (N1 & N2 & ->). rewrite N1, N2.
    change (b :: r ++ rest) with ((b :: r) ++ rest).
    rewrite (digit_run_app (b :: r) rest Fd Hr), Ev. rewrite sgn_small; [lia|lia|].
    unfold in_s, smin, smax in *. lia.
Qed.

(** C32: Every [int64_t] is written as its decimal numeral, a minus sign first when it is
    negative, and fits the 21 bytes of [I64BUF_SIZE] with its NUL; reading the text back
    gives the number, whatever follows it that is not a digit. *)
Theorem decimal_roundtrip v rest :
  in_s 64 v -> mux_isdigit (chr_at rest 0) = false ->
  exists s ds, mux_i64toa v = Some s /\ s = (if v <? 0 then [45] else []) ++ ds /\
    numeral 10 (Z.abs v) ds /\ (length s <= 20)%nat /\ mux_atoi64 (s ++ rest) = Some v.
Proof. apply i64toa_atoi64. Qed.

Lemma decimal_roundtrip_witness :
  in_s 64 (smin 64) /\
  (exists s, mux_i64toa (smin 64) = Some s /\ mux_atoi64 (s ++ [44]) = Some (smin 64)) /\
  mux_i64toa (smin 64) = Some (bytes_of "-9223372036854775808") /\
  mux_atoi64 (bytes_of "-9223372036854775808,") = Some (smin 64).
Proof.
  assert (in_s 64 (smin 64)) as H by (split; vm_compute; discriminate).
  destruct (decimal_roundtrip (smin 64) [44] H eq_refl) as (s & ds & E & _ & _ & _ & F).
  split; [exact H|]. split; [exists s; split; [exact E|exact F]|]. split; vm_compute; reflexivity.
Defined.

(** Hexadecimal and octal texts are numerals of their bases. *)
Lemma radix_spec v bUpperCase :
  in_u 64 v ->
  (exists s, mux_ui64tox v bUpperCase = Some s /\ numeral 16 v s) /\
  (exists s, mux_ui64too v = Some s /\ numeral 8 v s).
Proof.
  intros H. split; apply uto_numeral; try lia; try exact H; try reflexivity.
  destruct bUpperCase; reflexivity.
Qed.
