(* ===== verification/TimeText.v ===== *)
(** * Times as text: [src/mux/lib/timeutil.cpp] and [timeabsolute.cpp]

    The date format [Ddd Mmm DD HH:MM:SS.f YYYY]: [ReturnDateString] writes it,
    [do_convtime] and [SetString] read it.  The seconds format: [ConvertToSecondsString]
    and [ParseFractionalSecondsString]. *)

From Stdlib Require Import Strings.String.
From S2P Require Import Prelude Machine Calendar Decimal.
Local Open Scope Z_scope.

(** ** Formatting

    [%0<nWidth>d] of [mux_vsnprintf] in [stringutil.cpp]; [mux_ltoa] is [mux_i64toa] where
    [long] has 64 bits. *)

Definition mux_ltoa : Z -> option bytes := mux_i64toa.

Definition fmt_0d (nWidth : nat) (i : Z) : option bytes :=
  Buff ← mux_ltoa i;
  let nPadding := (nWidth - length Buff)%nat in
  Some (if (chr_at Buff 0 =? 45) && (0 <? nPadding)%nat
        then 45 :: repeat 48 nPadding ++ drop 1 Buff
        else repeat 48 nPadding ++ Buff).

(** The fields and literal characters of a format, one after the other: the first that does
    not fit [nLimit] bytes ends the output. *)
Fixpoint sprint (nLimit : nat) (out : bytes) (pieces : list bytes) : bytes :=
  match pieces with
  | [] => out
  | p :: ps => if (nLimit <? length out + length p)%nat then out else sprint nLimit (out ++ p) ps
  end.

Definition DayOfWeekString : list bytes :=
  map bytes_of ["Sun"; "Mon"; "Tue"; "Wed"; "Thu"; "Fri"; "Sat"]%string.
Definition monthtab : list bytes :=
  map bytes_of ["Jan"; "Feb"; "Mar"; "Apr"; "May"; "Jun"; "Jul"; "Aug"; "Sep"; "Oct"; "Nov"; "Dec"]%string.

(** Back from index [p] over zeros; the text ends after the byte reached. *)
Fixpoint cut_zeros (buffer : bytes) (p : nat) : bytes :=
  if chr_at buffer p =? 48 then match p with O => [] | S p' => cut_zeros buffer p' end
  else take (S p) buffer.

Definition clamp_frac (nFracDigits : Z) : Z :=
  if nFracDigits <? 0 then 0 else if 7 <? nFracDigits then 7 else nFracDigits.

Definition ReturnDateString (c : jan_cache) (m_tAbsolute nFracDigits : Z) :
  option (jan_cache * bytes) :=
  '(c', (b, ft)) ← LinearTimeToFieldedTime c m_tAbsolute;
  if negb b then Some (c', [])
  else
    let nFracDigits := clamp_frac nFracDigits in
    buffer ←
      (if (0 <? nFracDigits) &&
          (negb (iMillisecond ft =? 0) || negb (iMicrosecond ft =? 0) || negb (iNanosecond ft =? 0))
       then
         ms ← fmt_0d 3 (iMillisecond ft); us ← fmt_0d 3 (iMicrosecond ft);
         ns ← fmt_0d 3 (iNanosecond ft);
         Some (cut_zeros (sprint 10 [] [[46]; ms; us; ns]) (Z.to_nat (1 + (nFracDigits - 1))))
       else Some []);
    d ← fmt_0d 2 (iDayOfMonth ft); h ← fmt_0d 2 (iHour ft); mi ← fmt_0d 2 (iMinute ft);
    s ← fmt_0d 2 (iSecond ft); y ← fmt_0d 4 (iYear ft);
    Some (c', sprint 41 []
      [nth (Z.to_nat (iDayOfWeek ft)) DayOfWeekString []; [32];
       nth (Z.to_nat (iMonth ft - 1)) monthtab []; [32]; d; [32]; h; [58]; mi; [58]; s; buffer; [32]; y]).

(** ** Reading a date *)

Definition mux_isalpha (b : Z) : bool := in_rng 65 90 b || in_rng 97 122 b.
Definition mux_toupper_ascii (b : Z) : Z := if in_rng 97 122 b then b - 32 else b.

Definition MonthTabHash : list Z :=
  [0x004a414e; 0x00464542; 0x004d4152; 0x00415052; 0x004d4159; 0x004a554e;
   0x004a554c; 0x00415547; 0x00534550; 0x004f4354; 0x004e4f56; 0x00444543].

Definition not_space (b : Z) : bool := negb (b =? 32).
Definition is_space (b : Z) : bool := b =? 32.

(** The letters up to a space or the end, with the number read and the hash; [None] at a
    character that is not a letter. *)
Fixpoint letters (q : bytes) (n : nat) (iHash : Z) : option (nat * Z * bytes) :=
  match q with
  | b :: q' =>
      if b =? 32 then Some (n, iHash, q)
      else if negb (mux_isalpha b) then None
      else letters q' (S n) (Z.lor (wrap 32 (Z.shiftl iHash 8)) (mux_toupper_ascii b))
  | [] => Some (n, iHash, q)
  end.

Definition ParseThreeLetters (p : bytes) : option (Z * bytes) :=
  '(n, iHash, q) ← letters (skip_while is_space p) 0 0;
  if negb (n =? 3)%nat then None else Some (sgn 32 iHash, skip_while is_space q).

(** The index of the month with this hash, 12 if there is none. *)
Fixpoint find_hash (tab : list Z) (iHash : Z) (i : nat) : nat :=
  match tab with
  | [] => i
  | h :: tab' => if iHash =? h then i else find_hash tab' iHash (S i)
  end.

Definition ParseDecimalSeconds (n : nat) (p : bytes) : option (Z * Z * Z) :=
  let n := if (9 <? n)%nat then 9%nat else n in
  ns ← mux_atoi64 (take n p ++ repeat 48 (9 - n));
  let iNano := wrap 16 (Z.rem ns 1000) in
  let ns := Z.quot ns 1000 in
  Some (wrap 16 (Z.quot ns 1000), wrap 16 (Z.rem ns 1000), iNano).

(** To the next [c], past it, and past the spaces after it. *)
Definition past_char (c : Z) (p : bytes) : bytes :=
  let p := skip_while (fun b => negb (b =? c)) p in
  let p := if chr_at p 0 =? c then drop 1 p else p in
  skip_while is_space p.

(** The parts of [do_convtime], in the order of the text.  The outer option is undefined
    behaviour; the inner one is the boolean result, with what was read when it is true. *)

(** The month, which may follow the day of the week: its index from 0. *)
Definition convtime_month (str : bytes) : option (nat * bytes) :=
  '(iHash, p) ← ParseThreeLetters str;
  let i := find_hash MonthTabHash iHash 0 in
  if (i =? 12)%nat then
    '(iHash, p) ← ParseThreeLetters p;
    let i := find_hash MonthTabHash iHash 0 in
    if (i =? 12)%nat then None else Some (i, p)
  else Some (i, p).

(** Hours, minutes, seconds and the fraction. *)
Definition convtime_clock (p : bytes) : option (option (Z * Z * Z * (Z * Z * Z) * bytes)) :=
  h ← mux_atoi64 p; let hour := wrap 16 h in
  if (23 <? hour) || ((hour =? 0) && negb (chr_at p 0 =? 48)) then Some None
  else
    let p := past_char 58 p in
    mi ← mux_atoi64 p; let minute := wrap 16 mi in
    if (59 <? minute) || ((minute =? 0) && negb (chr_at p 0 =? 48)) then Some None
    else
      let p := past_char 58 p in
      s ← mux_atoi64 p; let second := wrap 16 s in
      if (59 <? second) || ((second =? 0) && negb (chr_at p 0 =? 48)) then Some None
      else
        let p := skip_while mux_isdigit p in
        '(frac, p) ←
          (if chr_at p 0 =? 46 then
             let p := drop 1 p in
             let n := (length p - length (skip_while not_space p))%nat in
             frac ← ParseDecimalSeconds n p; Some (frac, p)
           else Some ((0, 0, 0), p));
        Some (Some (hour, minute, second, frac, skip_while is_space (skip_while not_space p))).

(** The year, and nothing after it. *)
Definition convtime_year (p : bytes) : option (option Z) :=
  if (5 <? length p - length (skip_while mux_isdigit p))%nat then Some None
  else
    y ← mux_atoi64 p;
    if (y <? -27256) || (30826 <? y) then Some None
    else if negb (chr_at (skip_while is_space (skip_while mux_isdigit p)) 0 =? 0) then Some None
    else Some (Some (sgn 16 y)).

Definition do_convtime (str : bytes) : option (option FIELDEDTIME) :=
  match convtime_month str with
  | None => Some None
  | Some (i, p) =>
      let month := wrap 16 (Z.of_nat i + 1) in
      d ← mux_atoi64 p; let day := wrap 16 d in
      if (day <? 1) || (nth i daystab 0 <? day) then Some None
      else
        c ← convtime_clock (skip_while is_space (skip_while not_space p));
        match c with
        | None => Some None
        | Some (hour, minute, second, (ms, us, ns), p) =>
            y ← convtime_year p;
            match y with
            | None => Some None
            | Some year =>
                v ← isValidDate year month day;
                Some (if v : bool then
                        Some (Build_FIELDEDTIME year month 0 day 0 hour minute second ms us ns)
                      else None)
            end
        end
  end.

(** [CLinearTimeAbsolute::SetString]: the result and [m_tAbsolute]. *)
Definition SetString (arg_tBuffer : bytes) : option (bool * Z) :=
  r ← do_convtime arg_tBuffer;
  match r with
  | Some ft =>
      '(b, _, lt) ← FieldedTimeToLinearTime ft;
      Some (if b : bool then (true, lt) else (false, 0))
  | None => Some (false, 0)
  end.

(** ** Digits in a text *)

(** [ds] is a text of digits with the value [v]. *)
Definition digits (v : Z) (ds : bytes) : Prop :=
  forallb mux_isdigit ds = true /\ ds <> [] /\ value 10 ds = v.

Lemma skip_while_app p s c r :
  forallb p s = true -> p c = false -> skip_while p (s ++ c :: r) = c :: r.
Proof.
  intros H Hc. induction s as [|b s IH]; cbn; [by rewrite Hc|].
  cbn in H. apply andb_prop in H as [-> H]. auto.
Qed.

Lemma skip_while_all p s : forallb p s = true -> skip_while p s = [].
Proof.
  induction s as [|b s IH]; [done|]. cbn. intros H. apply andb_prop in H as [-> H]. auto.
Qed.

Lemma skip_while_none p s : p (chr_at s 0) = false -> skip_while p s = s.
Proof. destruct s as [|b s]; [done|]. cbn. by intros ->. Qed.

Lemma forallb_impl (p q : Z -> bool) s :
  (forall b, p b = true -> q b = true) -> forallb p s = true -> forallb q s = true.
Proof.
  intros Hi. induction s as [|b s IH]; [done|]. cbn. intros H. apply andb_prop in H as [Hb H].
  by rewrite (Hi b Hb), (IH H).
Qed.

Lemma digits_first v ds r : digits v ds -> mux_isdigit (chr_at (ds ++ r) 0) = true.
Proof.
  intros (H & Hn & _). destruct ds as [|b ds]; [done|]. cbn in *. by apply andb_prop in H as [-> _].
Qed.

Lemma digits_Forall s : forallb mux_isdigit s = true -> Forall (is_digit_of 10) s.
Proof.
  induction s as [|c s IH]; [done|]. cbn. intros H. apply andb_prop in H as [Hc H].
  constructor; [|auto]. destruct (isdigit_digit c Hc). unfold is_digit_of. lia.
Qed.

Lemma digits_zero v ds r : digits v ds -> v = 0 -> chr_at (ds ++ r) 0 = 48.
Proof.
  intros (H & Hn & Hv) ->. destruct ds as [|b ds]; [done|]. cbn in H. apply andb_prop in H as [Hb H].
  change (b :: ds) with ([b] ++ ds) in Hv. rewrite value_app, value_single in Hv.
  destruct (isdigit_digit b Hb) as [Hd Hr].
  pose proof (digits_Forall ds H) as F.
  pose proof (value_bound 10 ds ltac:(lia) F).
  pose proof (Z.pow_pos_nonneg 10 (Z.of_nat (length ds)) ltac:(lia) ltac:(lia)).
  cbn. nia.
Qed.

Lemma atoi_digits v ds r :
  digits v ds -> v <= smax 64 -> mux_isdigit (chr_at r 0) = false ->
  mux_atoi64 (ds ++ r) = Some v.
Proof.
  intros H Hv Hr. rewrite mux_atoi64_eq. f_equal. unfold atoi_spec.
  pose proof (digits_first v ds r H) as H1. destruct H as (H & Hn & E).
  destruct ds as [|b ds]; [done|]. cbn [app skip_while] in *. cbn in H1.
  destruct (digit_not_sign b H1) as (N1 & N2 & ->). rewrite N1, N2.
  change (b :: ds ++ r) with ((b :: ds) ++ r). rewrite digit_run_app by done. rewrite E.
  apply sgn_small; [lia|]. unfold in_s. split; [|done].
  assert (0 <= v); [|unfold smin; lia]. rewrite <- E.
  apply value_bound; [lia|]. by apply digits_Forall.
Qed.

Lemma digit_facts b :
  mux_isdigit b = true -> not_space b = true /\ negb (b =? 58) = true /\ is_space b = false.
Proof. unfold mux_isdigit, not_space, is_space. intros H. byte_hyps. byte_cases. done. Qed.

Lemma fmt_0d_spec w v :
  0 <= v < 10 ^ 9 -> (0 < w)%nat -> exists ds, fmt_0d w v = Some ds /\ digits v ds /\
    (forall n, (w <= n)%nat -> v < 10 ^ Z.of_nat n -> (length ds <= n)%nat) /\ (w <= length ds)%nat.
Proof.
  intros Hv Hw. unfold fmt_0d, mux_ltoa, mux_i64toa. replace (v <? 0) with false by lia.
  destruct (mux_ui64toa_numeral v ltac:(lia)) as (s & -> & Hn). rewrite bind_some.
  pose proof Hn as (E & F & b & r & Es & _). pose proof (digits_forallb s F) as D.
  assert ((chr_at s 0 =? 45) = false) as ->.
  { subst s. cbn in *. apply andb_prop in D as [D _]. by apply digit_not_sign in D as (-> & _). }
  cbn [andb]. eexists. split; [done|]. split.
  - split; [|split].
    + rewrite forallb_app, D. generalize (w - length s)%nat. intros n. induction n; done.
    + subst s. intros H. apply app_nil in H as [_ H]. done.
    + rewrite value_app, E. enough (value 10 (repeat 48 (w - length s)) = 0) as -> by lia.
      generalize (w - length s)%nat. intros n. unfold value. induction n; [done|exact IHn].
  - rewrite length_app, repeat_length. split; [|lia]. intros n Hwn Hb.
    pose proof (numeral_length 10 v s n ltac:(lia) Hn Hb ltac:(lia)). lia.
Qed.

(** Arithmetic with the small powers of ten of the fields. *)
Ltac pow_lia :=
  change (10 ^ Z.of_nat 2) with 100; change (10 ^ Z.of_nat 3) with 1000;
  change (10 ^ Z.of_nat 5) with 100000; change (10 ^ 9) with 1000000000; lia.

(** A number that fits its field fills it exactly. *)
Lemma fmt_0d_fits w v :
  (0 < w <= 9)%nat -> 0 <= v < 10 ^ Z.of_nat w ->
  exists ds, fmt_0d w v = Some ds /\ digits v ds /\ length ds = w.
Proof.
  intros Hw Hv. assert (10 ^ Z.of_nat w <= 10 ^ 9) by (apply Z.pow_le_mono_r; lia).
  destruct (fmt_0d_spec w v ltac:(lia) ltac:(lia)) as (ds & E & D & L1 & L2).
  exists ds. split; [done|]. split; [done|]. specialize (L1 w ltac:(lia) ltac:(lia)). lia.
Qed.

(** ** The date format *)

Definition letters3 (s : bytes) : bool :=
  (length s =? 3)%nat && forallb (fun b => mux_isalpha b && negb (b =? 32)) s.

Definition hash3 (s : bytes) : Z :=
  foldl (fun h b => Z.lor (wrap 32 (Z.shiftl h 8)) (mux_toupper_ascii b)) 0 s.

Lemma letters_app s r n h :
  forallb (fun b => mux_isalpha b && negb (b =? 32)) s = true ->
  letters (s ++ 32 :: r) n h =
    Some ((n + length s)%nat,
          foldl (fun h b => Z.lor (wrap 32 (Z.shiftl h 8)) (mux_toupper_ascii b)) h s, 32 :: r).
Proof.
  revert n h. induction s as [|b s IH]; intros n h H; cbn [app letters foldl length].
  - rewrite Z.eqb_refl. by rewrite Nat.add_0_r.
  - cbn in H. apply andb_prop in H as [Hb H]. apply andb_prop in Hb as [Ha Hb].
    apply negb_true_iff in Hb. rewrite Hb, Ha. cbn [negb]. rewrite IH by done. do 3 f_equal. lia.
Qed.

Lemma ParseThreeLetters_app s r :
  letters3 s = true -> ParseThreeLetters (s ++ 32 :: r) = Some (sgn 32 (hash3 s), skip_while is_space r).
Proof.
  intros H. apply andb_prop in H as [Hl H]. apply Nat.eqb_eq in Hl. unfold ParseThreeLetters.
  rewrite skip_while_none.
  2: { destruct s as [|b s]; [done|]. cbn in *. apply andb_prop in H as [Hb _].
       apply andb_prop in Hb as [_ Hb]. by apply negb_true_iff in Hb. }
  rewrite letters_app by done. rewrite bind_some. cbn [Nat.add]. rewrite Hl. done.
Qed.

(** The names of days are no months, and the names of months are found. *)
Lemma day_names d :
  0 <= d <= 6 -> let s := nth (Z.to_nat d) DayOfWeekString [] in
  letters3 s = true /\ find_hash MonthTabHash (sgn 32 (hash3 s)) 0 = 12%nat.
Proof.
  intros H. cbn zeta.
  pose proof (forall_zrange (fun d => let s := nth (Z.to_nat d) DayOfWeekString [] in
    letters3 s && (find_hash MonthTabHash (sgn 32 (hash3 s)) 0 =? 12)%nat) 0 7
    ltac:(vm_compute; reflexivity) d ltac:(lia)) as E.
  apply andb_prop in E as [E1 E2]. apply Nat.eqb_eq in E2. done.
Qed.

Lemma month_names m :
  1 <= m <= 12 -> let s := nth (Z.to_nat (m - 1)) monthtab [] in
  letters3 s = true /\ find_hash MonthTabHash (sgn 32 (hash3 s)) 0 = Z.to_nat (m - 1).
Proof.
  intros H. cbn zeta.
  pose proof (forall_zrange (fun m => let s := nth (Z.to_nat (m - 1)) monthtab [] in
    letters3 s && (find_hash MonthTabHash (sgn 32 (hash3 s)) 0 =? Z.to_nat (m - 1))%nat) 1 12
    ltac:(vm_compute; reflexivity) m ltac:(lia)) as E.
  apply andb_prop in E as [E1 E2]. apply Nat.eqb_eq in E2. done.
Qed.

(** A number of the format: [mux_atoi64] reads it and the cast keeps it. *)
Lemma atoi16 v ds r :
  digits v ds -> 0 <= v < 65536 -> mux_isdigit (chr_at r 0) = false ->
  exists x, mux_atoi64 (ds ++ r) = Some x /\ wrap 16 x = v.
Proof.
  intros H Hv Hr. exists v. split; [apply atoi_digits; [done|unfold smax; lia|done]|].
  by apply wrap_small.
Qed.

Lemma digits_skip p v ds c r :
  digits v ds -> (forall b, mux_isdigit b = true -> p b = true) -> p c = false ->
  skip_while p (ds ++ c :: r) = c :: r.
Proof. intros (H & _) Hp Hc. apply skip_while_app; [|done]. eapply forallb_impl; eauto. Qed.

Lemma digits_no_space v ds r : digits v ds -> skip_while is_space (ds ++ r) = ds ++ r.
Proof.
  intros H. apply skip_while_none. apply (digits_first v ds r) in H.
  by apply digit_facts in H as (_ & _ & ->).
Qed.

(** The seconds' fraction as [ReturnDateString] writes it. *)
Definition fraction (ms us ns : Z) (f : bytes) : Prop :=
  (f = [] /\ ms = 0 /\ us = 0 /\ ns = 0) \/
  exists fs, f = 46 :: fs /\ forallb mux_isdigit fs = true /\ (length fs <= 9)%nat /\
    digits (ms * 1000000 + us * 1000 + ns) (fs ++ repeat 48 (9 - length fs)).

Lemma ParseDecimalSeconds_eq fs r ms us ns :
  (length fs <= 9)%nat -> 0 <= ms <= 999 -> 0 <= us <= 999 -> 0 <= ns <= 999 ->
  digits (ms * 1000000 + us * 1000 + ns) (fs ++ repeat 48 (9 - length fs)) ->
  ParseDecimalSeconds (length fs) (fs ++ r) = Some (ms, us, ns).
Proof.
  intros Hl Hm Hu Hn H. unfold ParseDecimalSeconds.
  replace (9 <? length fs)%nat with false by (symmetry; apply Nat.ltb_ge; done).
  rewrite take_app_length.
  pose proof (atoi_digits _ _ [] H ltac:(unfold smax; lia) eq_refl) as E. rewrite app_nil_r in E.
  rewrite E, bind_some. cbv zeta.
  set (t := ms * 1000000 + us * 1000 + ns).
  rewrite (Z.quot_div_nonneg t 1000), (Z.rem_mod_nonneg t 1000) by (unfold t; lia).
  replace (t mod 1000) with ns
    by (apply Z.mod_unique with (q := ms * 1000 + us); unfold t; lia).
  replace (t / 1000) with (ms * 1000 + us)
    by (apply Z.div_unique with (r := ns); unfold t; lia).
  rewrite Z.quot_div_nonneg, Z.rem_mod_nonneg by lia.
  replace ((ms * 1000 + us) mod 1000) with us by (apply Z.mod_unique with (q := ms); lia).
  replace ((ms * 1000 + us) / 1000) with ms by (apply Z.div_unique with (r := us); lia).
  by rewrite !wrap_small by (unfold in_u; lia).
Qed.

Lemma space_digits y ys r : digits y ys -> skip_while is_space (32 :: ys ++ r) = ys ++ r.
Proof.
  intros H. cbn [skip_while]. change (is_space 32) with true. cbv iota. exact (digits_no_space y ys r H).
Qed.

(** The fraction and the space after it. *)
Lemma convtime_fraction ms us ns f y ys :
  fraction ms us ns f -> 0 <= ms <= 999 -> 0 <= us <= 999 -> 0 <= ns <= 999 -> digits y ys ->
  exists p', (if chr_at (f ++ 32 :: ys) 0 =? 46 then
     let p := drop 1 (f ++ 32 :: ys) in
     let n := (length p - length (skip_while not_space p))%nat in
     frac ← ParseDecimalSeconds n p; Some (frac, p)
   else Some ((0, 0, 0), f ++ 32 :: ys)) = Some ((ms, us, ns), p') /\
   skip_while is_space (skip_while not_space p') = ys.
Proof.
  intros Hf Hm Hu Hn Hy. pose proof (space_digits y ys [] Hy) as E. rewrite app_nil_r in E.
  destruct Hf as [(-> & -> & -> & ->)|(fs & -> & Hd & Hl & H)].
  - exists (32 :: ys). split; [done|]. exact E.
  - exists (fs ++ 32 :: ys). cbn [app]. change (chr_at (46 :: fs ++ 32 :: ys) 0 =? 46) with true.
    cbv iota. change (drop 1 (46 :: fs ++ 32 :: ys)) with (fs ++ 32 :: ys).
    assert (skip_while not_space (fs ++ 32 :: ys) = 32 :: ys) as Es.
    { apply skip_while_app; [|done]. eapply forallb_impl; [|exact Hd]. intros b Hb.
      by apply digit_facts in Hb as (-> & _). }
    cbv zeta. rewrite Es.
    replace (length (fs ++ 32%Z :: ys) - length (32%Z :: ys))%nat with (length fs)
      by (rewrite length_app; lia).
    rewrite (ParseDecimalSeconds_eq fs _ ms us ns) by done. split; [done|exact E].
Qed.

(** ** Texts of the format *)

(** One number of the format: in range, and its text as the code tests it. *)
Lemma field_ok hi v ds r :
  digits v ds -> 0 <= v <= hi ->
  ((hi <? v) || ((v =? 0) && negb (chr_at (ds ++ r) 0 =? 48))) = false.
Proof.
  intros H Hh. replace (hi <? v) with false by lia. cbn [orb].
  destruct (Z.eqb_spec v 0) as [->|]; [|done]. by rewrite (digits_zero 0 ds r H eq_refl).
Qed.

Lemma past_colon v ds w es r :
  digits v ds -> digits w es -> past_char 58 (ds ++ 58 :: es ++ r) = es ++ r.
Proof.
  intros H H'. unfold past_char.
  rewrite (digits_skip _ v ds 58) by (try done; intros b Hb; by apply digit_facts in Hb as (_ & -> & _)).
  change (chr_at (58 :: es ++ r) 0 =? 58) with true. cbv iota zeta.
  exact (digits_no_space w es r H').
Qed.

Lemma convtime_clock_text h mi s ms us ns hs mis ss f y ys :
  0 <= h <= 23 -> 0 <= mi <= 59 -> 0 <= s <= 59 -> 0 <= ms <= 999 -> 0 <= us <= 999 ->
  0 <= ns <= 999 -> digits h hs -> digits mi mis -> digits s ss -> fraction ms us ns f ->
  digits y ys ->
  convtime_clock (hs ++ 58 :: mis ++ 58 :: ss ++ f ++ 32 :: ys) =
    Some (Some (h, mi, s, (ms, us, ns), ys)).
Proof.
  intros Hh Hmi Hs Hms Hus Hns Dh Dmi Ds Hf Dy. unfold convtime_clock.
  destruct (atoi16 _ hs (58 :: mis ++ 58 :: ss ++ f ++ 32 :: ys) Dh ltac:(lia) eq_refl) as (x & -> & Ex).
  rewrite bind_some, Ex, field_ok by done. cbv zeta. rewrite (past_colon h hs mi mis) by done.
  destruct (atoi16 _ mis (58 :: ss ++ f ++ 32 :: ys) Dmi ltac:(lia) eq_refl) as (x1 & -> & Ex1).
  rewrite bind_some, Ex1, field_ok by done. rewrite (past_colon mi mis s ss) by done.
  assert (exists c r, f ++ 32 :: ys = c :: r /\ mux_isdigit c = false) as (c & r & Ec & Hc).
  { destruct Hf as [(-> & _)|(fs & -> & _)]; eexists _, _; done. }
  rewrite Ec. destruct (atoi16 _ ss (c :: r) Ds ltac:(lia) Hc) as (x2 & -> & Ex2).
  rewrite bind_some, Ex2, field_ok by done.
  rewrite (digits_skip mux_isdigit s ss c r) by done. rewrite <- Ec.
  destruct (convtime_fraction ms us ns f y ys) as (p' & Ef & E); [done..|].
  cbv zeta in Ef. by rewrite Ef, bind_some, E.
Qed.

Lemma convtime_year_text y ys :
  digits y ys -> 0 <= y <= 30826 -> (length ys <= 5)%nat -> convtime_year ys = Some (Some y).
Proof.
  intros H Hy Hl. unfold convtime_year. rewrite skip_while_all by apply H.
  replace (5 <? length ys - length ([] : bytes))%nat with false
    by (symmetry; apply Nat.ltb_ge; cbn; lia).
  pose proof (atoi_digits y ys [] H ltac:(unfold smax; lia) eq_refl) as E. rewrite app_nil_r in E.
  rewrite E, bind_some. replace ((y <? -27256) || _) with false by lia.
  cbn. by rewrite sgn_small by (unfold in_s, smin, smax; lia).
Qed.

(** A text of the format. *)
Definition date_text (dn mn d h mi s f y : bytes) : bytes :=
  dn ++ 32 :: mn ++ 32 :: d ++ 32 :: h ++ 58 :: mi ++ 58 :: s ++ f ++ 32 :: y.

Definition set_no_dow (ft : FIELDEDTIME) : FIELDEDTIME :=
  Build_FIELDEDTIME (iYear ft) (iMonth ft) 0 (iDayOfMonth ft) 0 (iHour ft) (iMinute ft)
    (iSecond ft) (iMillisecond ft) (iMicrosecond ft) (iNanosecond ft).

Lemma convtime_month_text dow m v ds r :
  0 <= dow <= 6 -> 1 <= m <= 12 -> digits v ds ->
  convtime_month (nth (Z.to_nat dow) DayOfWeekString [] ++ 32 ::
                  nth (Z.to_nat (m - 1)) monthtab [] ++ 32 :: ds ++ r) =
    Some (Z.to_nat (m - 1), ds ++ r).
Proof.
  intros Hd Hm H. destruct (day_names dow Hd) as [L1 F1]. destruct (month_names m Hm) as [L2 F2].
  unfold convtime_month. rewrite ParseThreeLetters_app, bind_some, F1 by done. cbn [Nat.eqb].
  set (mn := nth _ monthtab []) in *.
  rewrite (skip_while_none is_space (mn ++ 32 :: ds ++ r)).
  2: { clear -L2. destruct mn as [|b mn]; [done|]. cbn in *.
       apply andb_prop in L2 as [_ L2]. apply andb_prop in L2 as [L2 _].
       apply andb_prop in L2 as [_ L2]. by apply negb_true_iff in L2. }
  rewrite ParseThreeLetters_app, bind_some, F2 by done.
  replace (Z.to_nat (m - 1) =? 12)%nat with false by (symmetry; apply Nat.eqb_neq; lia).
  by rewrite (digits_no_space v ds).
Qed.

Lemma convtime_text ft dow ds hs mis ss f ys :
  valid_fields ft -> 0 <= iYear ft -> 0 <= dow <= 6 ->
  digits (iDayOfMonth ft) ds -> digits (iHour ft) hs -> digits (iMinute ft) mis ->
  digits (iSecond ft) ss -> digits (iYear ft) ys -> (length ys <= 5)%nat ->
  fraction (iMillisecond ft) (iMicrosecond ft) (iNanosecond ft) f ->
  do_convtime (date_text (nth (Z.to_nat dow) DayOfWeekString [])
                 (nth (Z.to_nat (iMonth ft - 1)) monthtab []) ds hs mis ss f ys) =
    Some (Some (set_no_dow ft)).
Proof.
  intros (Hy & Hv & Hh & Hmi & Hs & Hms & Hus & Hns) Hy0 Hdow Dd Dh Dmi Ds Dy Ly Hf.
  pose proof Hv as [Hm Hd]. pose proof (days_in_month_pos (iYear ft) (iMonth ft)) as Hdm.
  unfold do_convtime, date_text. rewrite (convtime_month_text dow (iMonth ft) _ ds) by done.
  match goal with |- context [mux_atoi64 (ds ++ ?r)] =>
    destruct (atoi16 _ ds r Dd ltac:(lia) eq_refl) as (x & -> & Ex) end.
  rewrite bind_some, Ex, nth_daystab by lia.
  replace ((iDayOfMonth ft <? 1) || ((if iMonth ft =? 2 then 29 else days_in_month 0 (iMonth ft)) <?
    iDayOfMonth ft)) with false.
  2: { symmetry. apply orb_false_iff. split; [lia|]. destruct (Z.eqb_spec (iMonth ft) 2) as [E|E].
       - rewrite E in *. change (days_in_month (iYear ft) 2) with (if leap (iYear ft) then 29 else 28) in *.
         destruct (leap (iYear ft)); lia.
       - rewrite <- (days_in_month_year (iYear ft)) by done. lia. }
  rewrite (digits_skip not_space _ ds 32)
    by (try exact Dd; try done; intros b Hb; by apply digit_facts in Hb as (-> & _)).
  rewrite (space_digits _ hs _ Dh).
  rewrite (convtime_clock_text (iHour ft) (iMinute ft) (iSecond ft) (iMillisecond ft)
    (iMicrosecond ft) (iNanosecond ft) hs mis ss f (iYear ft) ys) by done.
  rewrite bind_some, (convtime_year_text (iYear ft)), bind_some by (try done; lia).
  replace (wrap 16 (Z.of_nat (Z.to_nat (iMonth ft - 1)) + 1)) with (iMonth ft)
    by (rewrite wrap_small; [lia | unfold in_u; lia]).
  destruct (isValidDate_eq (iYear ft) (iMonth ft) (iDayOfMonth ft) ltac:(fit)) as (b & -> & Hb).
  rewrite bind_some. by replace b with true by (symmetry; tauto).
Qed.

(** ** Writing a date *)

Lemma sprint_all nLimit out ps :
  (length out + length (concat ps) <= nLimit)%nat -> sprint nLimit out ps = out ++ concat ps.
Proof.
  revert out. induction ps as [|p ps IH]; intros out H; cbn [sprint concat]; [by rewrite app_nil_r|].
  cbn [concat] in H. rewrite length_app in H.
  replace (nLimit <? length out + length p)%nat with false by (symmetry; apply Nat.ltb_ge; lia).
  rewrite IH by (rewrite length_app; lia). by rewrite app_assoc.
Qed.

Lemma cut_zeros_stop s p : chr_at s p <> 48 -> cut_zeros s p = take (S p) s.
Proof. intros H. destruct p; cbn [cut_zeros]; by replace (_ =? 48) with false by lia. Qed.

Lemma cut_zeros_spec pre ds p :
  (p <= length ds)%nat ->
  exists k, (k <= p)%nat /\ cut_zeros (pre ++ 46 :: ds) (length pre + p) = pre ++ 46 :: take k ds /\
    take p ds = take k ds ++ repeat 48 (p - k).
Proof.
  assert (forall i, chr_at (pre ++ 46 :: ds) (length pre + S i) = chr_at ds i /\
                    chr_at (pre ++ 46 :: ds) (length pre + 0) = 46) as N
    by (intros i; unfold chr_at; by rewrite !app_nth2_plus).
  assert (forall i, take (S (length pre + i)) (pre ++ 46 :: ds) = pre ++ 46 :: take i ds) as T
    by (intros i; by rewrite <- Nat.add_succ_r, take_app_add).
  induction p as [|p IH]; intros Hp.
  - exists 0%nat. rewrite cut_zeros_stop, T; [by repeat split|]. by rewrite (proj2 (N 0%nat)).
  - destruct (lookup_lt_is_Some_2 ds p Hp) as [b Hb].
    pose proof (proj1 (N p)) as Np. rewrite (chr_at_lookup _ _ _ Hb) in Np.
    destruct (decide (b = 48)) as [->|].
    + destruct (IH ltac:(lia)) as (k & Hk & E & E'). exists k. split; [lia|]. split.
      * rewrite Nat.add_succ_r in *. cbn [cut_zeros]. by rewrite Np.
      * rewrite (take_S_r _ _ _ Hb), E'. replace (S p - k)%nat with (p - k + 1)%nat by lia.
        by rewrite repeat_app, app_assoc.
    + exists (S p). rewrite cut_zeros_stop, T by congruence.
      by rewrite Nat.sub_diag, app_nil_r.
Qed.

Lemma digits3_hundreds v ds :
  digits v ds -> length ds = 3%nat -> v mod 100 = 0 -> exists a, ds = [a; 48; 48].
Proof.
  intros (H & _ & E) L Hv. destruct ds as [|a [|b [|c [|? ?]]]]; try discriminate. exists a.
  cbn in H. repeat (apply andb_prop in H as [?Hd H]).
  destruct (isdigit_digit _ Hd) as [Da Ra], (isdigit_digit _ Hd0) as [Db Rb],
    (isdigit_digit _ Hd1) as [Dc Rc].
  unfold value in E. cbn [foldl] in E. rewrite Da, Db, Dc in E.
  assert (b = 48 /\ c = 48) as [-> ->] by (Z.div_mod_to_equations; lia). done.
Qed.

Lemma digits_app v ds w es :
  digits v ds -> digits w es -> digits (v * 10 ^ Z.of_nat (length es) + w) (ds ++ es).
Proof.
  intros (H1 & H2 & H3) (H4 & H5 & H6). split; [|split].
  - by rewrite forallb_app, H1, H4.
  - intros E. by apply app_nil in E as [-> _].
  - by rewrite value_app, H3, H6.
Qed.

(** The fraction that is written is one that is read back. *)
Lemma fraction_written ms us ns m3 u3 n3 :
  0 <= ms <= 999 -> 0 <= us <= 999 -> 0 <= ns <= 999 -> ns mod 100 = 0 ->
  digits ms m3 -> digits us u3 -> digits ns n3 ->
  length m3 = 3%nat -> length u3 = 3%nat -> length n3 = 3%nat ->
  let b := cut_zeros (sprint 10 [] [[46]; m3; u3; n3]) 7 in
  fraction ms us ns b /\ (length b <= 8)%nat.
Proof.
  intros Hm Hu Hn Hh Dm Du Dn Lm Lu Ln. cbn zeta.
  rewrite sprint_all by (cbn; rewrite !length_app; cbn; lia). cbn [concat app]. rewrite app_nil_r.
  destruct (digits3_hundreds ns n3 Dn Ln Hh) as [a Ea].
  pose proof (digits_app _ _ _ _ Dm (digits_app _ _ _ _ Du Dn)) as D.
  set (ds := m3 ++ u3 ++ n3) in *. assert (length ds = 9%nat) as L by (unfold ds; rewrite !length_app; lia).
  destruct (cut_zeros_spec [] ds 7 ltac:(lia)) as (k & Hk & Ec & E). cbn [app length Nat.add] in Ec.
  rewrite Ec.
  split; [|cbn [length]; rewrite length_take; lia].
  right. exists (take k ds). split; [done|]. rewrite length_take, Nat.min_l by lia.
  split; [|split; [lia|]].
  - destruct D as (F & _). rewrite <- (take_drop k ds), forallb_app in F. by apply andb_prop in F as [-> _].
  - replace (repeat 48 (9 - k)) with (repeat 48 (7 - k) ++ [48; 48]).
    2: { replace (9 - k)%nat with ((7 - k) + 2)%nat by lia. by rewrite repeat_app. }
    rewrite app_assoc, <- E.
    replace (take 7 ds ++ [48; 48]) with ds.
    2: { transitivity (take 7 ds ++ drop 7 ds); [by rewrite take_drop|]. f_equal.
         unfold ds. rewrite Ea. rewrite app_assoc, drop_app_ge by (rewrite length_app; lia).
         by replace (7 - length (m3 ++ u3))%nat with 1%nat by (rewrite length_app; lia). }
    replace (ms * 1000000 + us * 1000 + ns) with
      (ms * 10 ^ Z.of_nat (length (u3 ++ n3)) + (us * 10 ^ Z.of_nat (length n3) + ns)); [exact D|].
    rewrite length_app, Lu, Ln. cbn. lia.
Qed.

Lemma ReturnDateString_eq c lt :
  cache_ok c -> lt_earliest <= lt <= lt_latest -> 0 <= iYear (fields_of lt) ->
  exists c' ds hs mis ss f ys, let ft := fields_of lt in
    ReturnDateString c lt 7 =
      Some (c', date_text (nth (Z.to_nat (iDayOfWeek ft)) DayOfWeekString [])
                  (nth (Z.to_nat (iMonth ft - 1)) monthtab []) ds hs mis ss f ys) /\ cache_ok c' /\
    digits (iDayOfMonth ft) ds /\ digits (iHour ft) hs /\ digits (iMinute ft) mis /\
    digits (iSecond ft) ss /\ digits (iYear ft) ys /\ (length ys <= 5)%nat /\
    fraction (iMillisecond ft) (iMicrosecond ft) (iNanosecond ft) f.
Proof.
  intros Hc Hlt Hy0. destruct (LinearTimeToFieldedTime_eq c lt Hc) as (c' & E & Hc').
  { unfold lt_earliest, lt_latest, smin, smax in *. lia. }
  rewrite decide_True in E by done. destruct (fields_of_valid lt Hlt) as (Hv & _ & H100).
  pose proof Hv as (Hy & [Hm Hd] & Hh & Hmi & Hs & Hms & Hus & Hns).
  pose proof (days_in_month_pos (iYear (fields_of lt)) (iMonth (fields_of lt))) as Hdm.
  assert (0 <= iDayOfWeek (fields_of lt) <= 6) as Hw by apply date_of_dow.
  set (ft := fields_of lt) in *. clearbody ft.
  destruct (fmt_0d_fits 3 (iMillisecond ft) ltac:(lia) ltac:(pow_lia)) as (m3 & E1 & D1 & L1).
  destruct (fmt_0d_fits 3 (iMicrosecond ft) ltac:(lia) ltac:(pow_lia)) as (u3 & E2 & D2 & L2).
  destruct (fmt_0d_fits 3 (iNanosecond ft) ltac:(lia) ltac:(pow_lia)) as (n3 & E3 & D3 & L3).
  destruct (fmt_0d_fits 2 (iDayOfMonth ft) ltac:(lia) ltac:(pow_lia)) as (ds & E4 & D4 & L4).
  destruct (fmt_0d_fits 2 (iHour ft) ltac:(lia) ltac:(pow_lia)) as (hs & E5 & D5 & L5).
  destruct (fmt_0d_fits 2 (iMinute ft) ltac:(lia) ltac:(pow_lia)) as (mis & E6 & D6 & L6).
  destruct (fmt_0d_fits 2 (iSecond ft) ltac:(lia) ltac:(pow_lia)) as (ss & E7 & D7 & L7).
  destruct (fmt_0d_spec 4 (iYear ft) ltac:(pow_lia) ltac:(lia)) as (ys & E8 & D8 & L8 & _).
  specialize (L8 5%nat ltac:(lia) ltac:(pow_lia)).
  assert (exists f, (if (0 <? clamp_frac 7) &&
      (negb (iMillisecond ft =? 0) || negb (iMicrosecond ft =? 0) || negb (iNanosecond ft =? 0))
    then ms ← fmt_0d 3 (iMillisecond ft); us ← fmt_0d 3 (iMicrosecond ft);
         ns ← fmt_0d 3 (iNanosecond ft);
         Some (cut_zeros (sprint 10 [] [[46]; ms; us; ns]) (Z.to_nat (1 + (clamp_frac 7 - 1))))
    else Some []) = Some f /\
    fraction (iMillisecond ft) (iMicrosecond ft) (iNanosecond ft) f /\ (length f <= 8)%nat)
    as (f & Ef & Hf & Lf).
  { destruct (fraction_written _ _ _ m3 u3 n3 Hms Hus Hns H100 D1 D2 D3 L1 L2 L3) as [Hf Lf].
    change (0 <? clamp_frac 7) with true. cbn [andb]. destruct (negb _ || _ || _) eqn:Z0.
    - rewrite E1, E2, E3. eexists. split; [done|]. split; [exact Hf|exact Lf].
    - exists []. split; [done|]. split; [|cbn; lia]. left. split; [done|lia]. }
  exists c', ds, hs, mis, ss, f, ys. cbn zeta. split_and!; try done.
  unfold ReturnDateString. rewrite E, bind_some. cbn [negb]. cbv zeta. cbv zeta in Ef.
  rewrite Ef, bind_some, E4, E5, E6, E7, E8. cbn [mbind option_bind]. do 2 f_equal.
  destruct (day_names _ Hw) as [W1 _]. destruct (month_names _ Hm) as [W2 _].
  apply andb_prop in W1 as [W1 _], W2 as [W2 _]. apply Nat.eqb_eq in W1, W2.
  rewrite sprint_all.
  - cbn [concat app]. unfold date_text. by rewrite !app_nil_r.
  - cbn [concat length Nat.add]. rewrite !length_app. cbn [length]. lia.
Qed.

Lemma set_no_dow_valid ft : valid_fields ft -> valid_fields (set_no_dow ft).
Proof. done. Qed.

Lemma set_no_dow_linear ft : linear_of (set_no_dow ft) = linear_of ft.
Proof. by destruct ft. Qed.

(** C26: Every time with a date of the years 0 to 30826 survives being written by
    [ReturnDateString] with seven digits of fraction and read back by [SetString], to the
    tick. *)
Theorem date_string_roundtrip c lt :
  cache_ok c -> lt_earliest <= lt <= lt_latest -> 0 <= iYear (fields_of lt) ->
  exists c' s, ReturnDateString c lt 7 = Some (c', s) /\ cache_ok c' /\
               do_convtime s = Some (Some (set_no_dow (fields_of lt))) /\
               SetString s = Some (true, lt).
Proof.
  intros Hc Hlt Hy. destruct (ReturnDateString_eq c lt Hc Hlt Hy)
    as (c' & ds & hs & mis & ss & f & ys & E & Hc' & Dd & Dh & Dm & Ds & Dy & Ly & Hf).
  destruct (fields_of_valid lt Hlt) as (Hv & El & _). eexists c', _. split; [exact E|]. split; [done|].
  assert (0 <= iDayOfWeek (fields_of lt) <= 6) as Hw by apply date_of_dow.
  pose proof (convtime_text _ _ ds hs mis ss f ys Hv Hy Hw Dd Dh Dm Ds Dy Ly Hf) as R.
  split; [exact R|]. unfold SetString. rewrite R, bind_some.
  rewrite (FieldedTimeToLinearTime_eq _ (set_no_dow_valid _ Hv)), bind_some.
  by rewrite set_no_dow_linear, El.
Qed.

Lemma date_string_roundtrip_witness :
  cache_ok cache_init /\ lt_earliest <= 133536600001234567 <= lt_latest /\
  (exists c' s, ReturnDateString cache_init 133536600001234567 7 = Some (c', s) /\
     SetString s = Some (true, 133536600001234567)) /\
  SetString (bytes_of "Thu Feb 29 06:00:00.1234567 2024") = Some (true, 133536600001234567).
Proof.
  assert (cache_ok cache_init) as Hc by (left; reflexivity).
  assert (lt_earliest <= 133536600001234567 <= lt_latest) as Hl by (split; vm_compute; discriminate).
  destruct (date_string_roundtrip cache_init 133536600001234567 Hc Hl ltac:(vm_compute; discriminate))
    as (c' & s & E & _ & _ & F).
  split; [exact Hc|]. split; [exact Hl|]. split; [exists c', s; split; [exact E|exact F]|].
  vm_compute. reflexivity.
Defined.

(** The casts to [unsigned short] before the range checks let days and hours far out of
    range through: day 65565 is read as 29, hour 65542 as 6. *)
Example convtime_wraps :
  SetString (bytes_of "Feb 65565 65542:00:00 2024") = SetString (bytes_of "Feb 29 06:00:00 2024") /\
  SetString (bytes_of "Feb 29 06:00:00 2024") = Some (true, 133536600000000000).
Proof. split; vm_compute; reflexivity. Qed.

(** Years before 0 have dates and are written, but are not read. *)
Example convtime_negative_year :
  exists c, ReturnDateString cache_init (-600000000000000000) 0 =
    Some (c, bytes_of "Fri Sep 04 13:20:00 -301") /\
  do_convtime (bytes_of "Fri Sep 04 13:20:00 -301") = Some None.
Proof. eexists. split; vm_compute; reflexivity. Qed.

(** A fraction that is 0 in the digits asked for leaves its point. *)
Example date_string_point :
  exists c, ReturnDateString cache_init 133536600000000500 3 =
    Some (c, bytes_of "Thu Feb 29 06:00:00. 2024").
Proof. eexists. vm_compute. reflexivity. Qed.

(** ** Seconds as text *)

Definition ConvertToSecondsString (n64 nFracDigits : Z) : option bytes :=
  '(lt, Leftover) ← i64FloorDivisionMod n64 FACTOR_100NS_PER_SECOND;
  buffer ← mux_i64toa lt;
  if Leftover =? 0 then Some buffer
  else
    let nFracDigits := clamp_frac nFracDigits in
    if 0 <? nFracDigits then
      buf ← mux_i64toa Leftover;
      Some (cut_zeros (buffer ++ 46 :: repeat 48 (7 - length buf) ++ buf)
              (length buffer + 1 + Z.to_nat (nFracDigits - 1)))
    else Some buffer.

(** The result and [i64]. *)
Definition ParseFractionalSecondsString (str : bytes) : option (bool * Z) :=
  let cursor := skip_while mux_isspace str in
  let bMinus := chr_at cursor 0 =? 45 in
  let cursor := if bMinus then drop 1 cursor else cursor in
  if bMinus && (chr_at cursor 0 =? 0) then Some (false, 0)
  else
    let int_part := digit_run cursor in
    let cursor := skip_while mux_isdigit cursor in
    let cursor := if chr_at cursor 0 =? 46 then drop 1 cursor else cursor in
    let frac_part := digit_run cursor in
    let cursor := skip_while mux_isspace (skip_while mux_isdigit cursor) in
    let bGotOne := (0 <? length int_part)%nat || (0 <? length frac_part)%nat in
    if negb (chr_at cursor 0 =? 0) || negb bGotOne then Some (false, 0)
    else
      let nBufferAvailable := if bMinus then 55%nat else 56%nat in
      if (nBufferAvailable <? length int_part)%nat then
        Some (true, if bMinus then smin 64 else smax 64)
      else
        let frac := take 7 frac_part in
        i64 ← mux_atoi64 ((if bMinus then [45] else []) ++ int_part ++ frac ++
                          repeat 48 (7 - length frac));
        Some (true, i64).

Lemma digit_run_text ds r :
  forallb mux_isdigit ds = true -> mux_isdigit (chr_at r 0) = false ->
  skip_while mux_isdigit (ds ++ r) = r.
Proof.
  intros H Hr. destruct r as [|c r]; [rewrite app_nil_r; by apply skip_while_all|].
  by apply skip_while_app.
Qed.

Lemma atoi_signed (neg : bool) v ds :
  digits v ds ->
  mux_atoi64 ((if neg then [45] else []) ++ ds) = Some (sgn 64 (if neg then - v else v)).
Proof.
  intros D. pose proof (digits_first v ds [] D) as H1. destruct D as (H & Hn & E).
  rewrite app_nil_r in H1. rewrite mux_atoi64_eq. f_equal. unfold atoi_spec.
  pose proof (digit_run_app ds [] H eq_refl) as R. rewrite app_nil_r in R.
  destruct neg; cbn [app skip_while].
  - change (mux_isspace 45) with false. cbv iota. by rewrite Z.eqb_refl, R, E.
  - destruct ds as [|b ds]; [done|]. cbn in H1. cbn [skip_while].
    destruct (digit_not_sign b H1) as (N1 & N2 & ->). by rewrite N1, N2, R, E.
Qed.

Definition point_text (fs : bytes) : bytes := match fs with [] => [] | _ => 46 :: fs end.

(** What is read from a sign, digits and perhaps a point with more digits. *)
Lemma parse_seconds_text (neg : bool) v ds fs n :
  digits v ds -> (length ds <= 19)%nat -> forallb mux_isdigit fs = true -> (length fs <= 7)%nat ->
  value 10 (fs ++ repeat 48 (7 - length fs)) = n ->
  ParseFractionalSecondsString ((if neg then [45] else []) ++ ds ++ point_text fs) =
    Some (true, sgn 64 (if neg then - (v * 10000000 + n) else v * 10000000 + n)).
Proof.
  intros D Ld Df Lf En. unfold ParseFractionalSecondsString.
  set (t := point_text fs).
  assert (mux_isdigit (chr_at t 0) = false) as Ht by (unfold t; destruct fs; done).
  pose proof (digits_first v ds t D) as H1. pose proof D as (H & Hn & E).
  assert (skip_while mux_isspace ((if neg then [45] else []) ++ ds ++ t) =
          (if neg then [45] else []) ++ ds ++ t) as ->.
  { apply skip_while_none. destruct neg; [done|]. cbn [app].
    by apply digit_not_sign in H1 as (_ & _ & ->). }
  assert ((chr_at ((if neg then [45] else []) ++ ds ++ t) 0 =? 45) = neg) as ->.
  { destruct neg; [done|]. cbn [app]. by apply digit_not_sign in H1 as (-> & _). }
  assert ((if neg then drop 1 ((if neg then [45] else []) ++ ds ++ t)
           else (if neg then [45] else []) ++ ds ++ t) = ds ++ t) as -> by (by destruct neg).
  cbv zeta. replace (chr_at (ds ++ t) 0 =? 0) with false
    by (symmetry; apply Z.eqb_neq; intros Ez; by rewrite Ez in H1).
  rewrite andb_false_r, digit_run_app, digit_run_text by done.
  assert ((if chr_at t 0 =? 46 then drop 1 t else t) = fs) as -> by (unfold t; by destruct fs).
  pose proof (digit_run_app fs [] Df eq_refl) as R. rewrite app_nil_r in R. rewrite R.
  rewrite (skip_while_all mux_isdigit fs Df). cbn [skip_while].
  change (chr_at [] 0 =? 0) with true. cbn [negb orb].
  replace (0 <? length ds)%nat with true by (symmetry; apply Nat.ltb_lt; destruct ds; [done|cbn; lia]).
  cbn [orb negb].
  replace ((if neg then 55%nat else 56%nat) <? length ds)%nat with false
    by (symmetry; apply Nat.ltb_ge; destruct neg; lia).
  rewrite (take_ge fs) by lia.
  assert (digits n (fs ++ repeat 48 (7 - length fs))) as Dn.
  { split; [|split; [|done]].
    - rewrite forallb_app, Df. generalize (7 - length fs)%nat. intros k. by induction k.
    - intros Z0. apply (f_equal length) in Z0. rewrite length_app, repeat_length in Z0. cbn in Z0. lia. }
  pose proof (digits_app _ _ _ _ D Dn) as Da.
  replace (length (fs ++ repeat 48 (7 - length fs))) with 7%nat in Da
    by (rewrite length_app, repeat_length; lia).
  change (10 ^ Z.of_nat 7) with 10000000 in Da. by rewrite (atoi_signed neg _ _ Da).
Qed.

Lemma numeral_digits v ds : numeral 10 v ds -> digits v ds.
Proof.
  intros (E & F & b & r & -> & _). split; [by apply digits_forallb|]. by split.
Qed.

(** The digits after the point: seven, then the zeros at the end cut. *)
Lemma seconds_fraction r buf pre :
  0 < r < 10000000 -> numeral 10 r buf ->
  exists fs, cut_zeros (pre ++ 46 :: repeat 48 (7 - length buf) ++ buf) (length pre + 7) =
               pre ++ point_text fs /\
    forallb mux_isdigit fs = true /\ (length fs <= 7)%nat /\
    value 10 (fs ++ repeat 48 (7 - length fs)) = r.
Proof.
  intros Hr Hn. pose proof (numeral_length 10 r buf 7 ltac:(lia) Hn ltac:(cbn; lia) ltac:(lia)) as L.
  destruct (numeral_digits r buf Hn) as (Db & _ & Ev).
  set (ds := repeat 48 (7 - length buf) ++ buf).
  assert (length ds = 7%nat) as Lds by (unfold ds; rewrite length_app, repeat_length; lia).
  assert (value 10 ds = r) as Vd.
  { unfold ds. rewrite value_app, Ev. enough (value 10 (repeat 48 (7 - length buf)) = 0) as -> by lia.
    generalize (7 - length buf)%nat. intros n. unfold value. induction n; [done|exact IHn]. }
  destruct (cut_zeros_spec pre ds 7 ltac:(lia)) as (k & Hk & -> & E).
  rewrite (take_ge ds 7) in E by lia. exists (take k ds).
  assert (length (take k ds) = k) as Lk by (rewrite length_take; lia). rewrite Lk, <- E.
  split_and!; [|  |lia|done].
  - destruct (take k ds) eqn:T; [|done]. exfalso. cbn in Lk. subst k. cbn in E. rewrite E in Vd.
    vm_compute in Vd. lia.
  - assert (forallb mux_isdigit ds = true) as F.
    { unfold ds. rewrite forallb_app, Db. generalize (7 - length buf)%nat. intros n. by induction n. }
    rewrite <- (take_drop k ds), forallb_app in F. by apply andb_prop in F as [-> _].
Qed.

(** A non-negative time written by [ConvertToSecondsString] with seven digits is read
    back by [ParseFractionalSecondsString] exactly.  A negative time is not: the seconds are
    rounded down and the rest, which is positive, is written after the point, so that the
    text means a time that is less by twice the rest, and the two agree only when the time
    is a whole number of seconds. *)
Theorem seconds_roundtrip n :
  smin 64 + FACTOR_100NS_PER_SECOND <= n <= smax 64 ->
  exists s, ConvertToSecondsString n 7 = Some s /\
    ParseFractionalSecondsString s =
      Some (true, if n <? 0 then sgn 64 (n - 2 * (n mod FACTOR_100NS_PER_SECOND)) else n).
Proof.
  change FACTOR_100NS_PER_SECOND with 10000000. intros Hn. unfold ConvertToSecondsString.
  unfold smin, smax in Hn. change FACTOR_100NS_PER_SECOND with 10000000.
  rewrite i64FloorDivisionMod_eq, bind_some by (unfold in_s, smin, smax; lia).
  pose proof (Z.mod_pos_bound n 10000000 ltac:(lia)) as Hr. pose proof (Z.div_mod n 10000000 ltac:(lia)) as Hd.
  set (lt := n / 10000000) in *. set (r := n mod 10000000) in *.
  assert (in_s 64 lt) as Hlt by (unfold in_s, smin, smax; lia).
  destruct (decimal_roundtrip lt [] Hlt eq_refl) as (s & ds & -> & -> & Hds & _). rewrite bind_some.
  pose proof (numeral_digits _ _ Hds) as D.
  pose proof (numeral_length 10 _ ds 19 ltac:(lia) Hds ltac:(cbn; lia) ltac:(lia)) as Ld.
  assert ((n <? 0) = (lt <? 0)) as -> by lia.
  assert (forall fs, forallb mux_isdigit fs = true -> (length fs <= 7)%nat ->
    value 10 (fs ++ repeat 48 (7 - length fs)) = r ->
    ParseFractionalSecondsString (((if lt <? 0 then [45] else []) ++ ds) ++ point_text fs) =
      Some (true, if lt <? 0 then sgn 64 (n - 2 * r) else n)) as P.
  { intros fs Df Lf Ef. rewrite <- app_assoc.
    rewrite (parse_seconds_text (lt <? 0) _ ds fs r D Ld Df Lf Ef). do 2 f_equal.
    destruct (Z.ltb_spec lt 0); [f_equal; lia|].
    rewrite sgn_small by (unfold in_s, smin, smax; lia). lia. }
  destruct (Z.eqb_spec r 0) as [R0|R0].
  - eexists. split; [done|]. specialize (P [] eq_refl ltac:(cbn; lia) (eq_sym R0)).
    cbn [point_text] in P. by rewrite app_nil_r in P.
  - change (0 <? clamp_frac 7) with true. cbv iota. change (Z.to_nat (clamp_frac 7 - 1)) with 6%nat.
    destruct (decimal_roundtrip r [] ltac:(unfold in_s, smin, smax; lia) eq_refl)
      as (s' & buf & -> & -> & Hb & _).
    replace (r <? 0) with false by lia. cbn [app]. rewrite Z.abs_eq in Hb by lia. rewrite bind_some.
    destruct (seconds_fraction r buf ((if lt <? 0 then [45] else []) ++ ds) ltac:(lia) Hb)
      as (fs & Ec & Df & Lf & Ef).
    eexists. split; [done|]. rewrite <- Nat.add_assoc. change (1 + 6)%nat with 7%nat.
    rewrite Ec. by apply P.
Qed.

Lemma seconds_roundtrip_witness :
  smin 64 + FACTOR_100NS_PER_SECOND <= -5000000 <= smax 64 /\
  (exists s, ConvertToSecondsString (-5000000) 7 = Some s /\
     ParseFractionalSecondsString s = Some (true, -15000000)) /\
  ConvertToSecondsString (-5000000) 7 = Some (bytes_of "-1.5") /\
  ParseFractionalSecondsString (bytes_of "-1.5") = Some (true, -15000000).
Proof.
  assert (smin 64 + FACTOR_100NS_PER_SECOND <= -5000000 <= smax 64) as H
    by (split; vm_compute; discriminate).
  destruct (seconds_roundtrip (-5000000) H) as (s & E & F).
  split; [exact H|]. split; [exists s; split; [exact E|rewrite F; vm_compute; reflexivity]|].
  split; vm_compute; reflexivity.
Defined.

(** A number of seconds that does not fit wraps around: only more than 56 digits saturate. *)
Example seconds_wrap :
  ParseFractionalSecondsString (bytes_of "1844674407371") = Some (true, 448384) /\
  ParseFractionalSecondsString (bytes_of "1844674407370955161600") = Some (true, 0).
Proof. split; vm_compute; reflexivity. Qed.

(** [CLinearTimeAbsolute::SetSecondsString]: the result and [m_tAbsolute]. *)
Definition EPOCH_OFFSET : Z := 116444736000000000.
Definition EARLIEST_VALID_DATE : Z := -9106391088000000000.
Definition LATEST_VALID_DATE : Z := 9222834959999999999.

Definition SetSecondsString (m_tAbsolute : Z) (arg_szSeconds : bytes) : option (bool * Z) :=
  '(b, t) ← ParseFractionalSecondsString arg_szSeconds;
  if negb b then Some (false, m_tAbsolute)
  else
    t ← cadd 64 t EPOCH_OFFSET;
    if (EARLIEST_VALID_DATE <=? t) && (t <=? LATEST_VALID_DATE) then Some (true, t)
    else Some (false, m_tAbsolute).

(** The limits are twelve hours wider than the dates on either side: the last time accepted
    has no date, and is written as the empty text.  A number of more than 56 digits reads as
    the largest [int64_t], and adding the epoch to it is undefined. *)
Example seconds_limits :
  SetSecondsString 0 (bytes_of "910639022399.9999999") = Some (true, LATEST_VALID_DATE) /\
  (exists c, ReturnDateString cache_init LATEST_VALID_DATE 0 = Some (c, [])) /\
  SetSecondsString 0 (repeat 57 57) = None.
Proof.
  split; [vm_compute; reflexivity|]. split; [eexists; vm_compute; reflexivity|].
  vm_compute. reflexivity.
Qed.
