(* ===== verification/RvIsa.v ===== *)
(** * The RV64 machine of the JIT: decoder and reference interpreter

    [src/mux/include/dbt_decoder.h] and the integer part of
    [src/mux/modules/engine/dbt_interp.cpp]: fetch, decode and execute on a flat
    bounds-checked memory.  A [uint64_t] is a [Z] below [2^64]. *)

From S2P Require Import Prelude Machine.

(** ** Bits *)

Lemma land_low_high a b n :
  0 <= n -> 0 <= b < 2 ^ n -> a mod 2 ^ n = 0 -> Z.land a b = 0.
Proof.
  intros Hn Hb Ha. apply Z.bits_inj'. intros i Hi. rewrite Z.land_spec, Z.bits_0.
  destruct (Z.lt_ge_cases i n).
  - rewrite <- (Z.mod_pow2_bits_low a n i) by lia. by rewrite Ha, Z.bits_0.
  - rewrite <- (Z.mod_small b (2 ^ n)) by lia. rewrite Z.mod_pow2_bits_high by lia. apply andb_false_r.
Qed.

(** [|] of parts that do not overlap is their sum. *)
Lemma lor_add a b n : 0 <= n -> 0 <= b < 2 ^ n -> a mod 2 ^ n = 0 -> Z.lor a b = a + b.
Proof.
  intros Hn Hb Ha. pose proof (land_low_high a b n Hn Hb Ha) as H.
  by rewrite Z.add_nocarry_lxor, Z.lxor_lor.
Qed.

Lemma lor_shift a b n : 0 <= n -> 0 <= a < 2 ^ n -> Z.lor a (Z.shiftl b n) = a + b * 2 ^ n.
Proof.
  intros Hn Ha. rewrite Z.lor_comm, Z.shiftl_mul_pow2 by done.
  rewrite (lor_add _ _ n) by (try done; apply Z.mod_mul; lia). lia.
Qed.

(** A mask of [k] bits from bit [n]. *)
Lemma land_mask x n k :
  0 <= n -> 0 <= k -> Z.land x (Z.shiftl (Z.ones k) n) = (x / 2 ^ n) mod 2 ^ k * 2 ^ n.
Proof.
  intros Hn Hk. rewrite <- Z.land_ones, <- Z.shiftr_div_pow2, <- Z.shiftl_mul_pow2 by done.
  apply Z.bits_inj'. intros i Hi. rewrite Z.land_spec, !Z.shiftl_spec by done.
  destruct (Z.lt_ge_cases i n).
  - rewrite !(Z.testbit_neg_r _ (i - n)) by lia. apply andb_false_r.
  - rewrite Z.land_spec, Z.shiftr_spec by lia. do 2 f_equal. lia.
Qed.

Lemma land_ones_mod x k m : 0 <= k -> m = Z.ones k -> Z.land x m = x mod 2 ^ k.
Proof. intros Hk ->. by apply Z.land_ones. Qed.

(** ** The decoder *)

Definition OP_LUI : Z := 0x37.
Definition OP_AUIPC : Z := 0x17.
Definition OP_JAL : Z := 0x6F.
Definition OP_JALR : Z := 0x67.
Definition OP_BRANCH : Z := 0x63.
Definition OP_LOAD : Z := 0x03.
Definition OP_STORE : Z := 0x23.
Definition OP_IMM : Z := 0x13.
Definition OP_REG : Z := 0x33.
Definition OP_IMM32 : Z := 0x1B.
Definition OP_REG32 : Z := 0x3B.
Definition OP_FENCE : Z := 0x0F.
Definition OP_SYSTEM : Z := 0x73.
Definition OP_FP_LOAD : Z := 0x07.
Definition OP_FP_STORE : Z := 0x27.
Definition OP_FMADD : Z := 0x43.
Definition OP_FMSUB : Z := 0x47.
Definition OP_FNMSUB : Z := 0x4B.
Definition OP_FNMADD : Z := 0x4F.
Definition OP_FP : Z := 0x53.

Record rv64_insn_t := Insn {
  opcode : Z; rd : Z; rs1 : Z; rs2 : Z; rs3 : Z; funct3 : Z; funct7 : Z; imm : Z }.

Definition decode_imm (op word : Z) : Z :=
  if (op =? OP_LUI) || (op =? OP_AUIPC) then sgn 32 (Z.land word 0xFFFFF000)
  else if op =? OP_JAL then
    sgn 32 (Z.lor (Z.lor (Z.lor (if Z.shiftr word 31 =? 0 then 0 else 0xFFF00000)
                                (Z.land word 0x000FF000))
                         (Z.land (Z.shiftr word 9) 0x00000800))
                  (Z.land (Z.shiftr word 20) 0x000007FE))
  else if op =? OP_BRANCH then
    sgn 32 (Z.lor (Z.lor (Z.lor (if Z.shiftr word 31 =? 0 then 0 else 0xFFFFF000)
                                (Z.land (wrap 32 (Z.shiftl word 4)) 0x00000800))
                         (Z.land (Z.shiftr word 20) 0x000007E0))
                  (Z.land (Z.shiftr word 7) 0x0000001E))
  else if (op =? OP_STORE) || (op =? OP_FP_STORE) then
    sgn 32 (Z.lor (Z.lor (if Z.shiftr word 31 =? 0 then 0 else 0xFFFFF000)
                         (Z.land (Z.shiftr word 20) 0xFE0))
                  (Z.land (Z.shiftr word 7) 0x1F))
  else if (op =? OP_FMADD) || (op =? OP_FMSUB) || (op =? OP_FNMSUB) || (op =? OP_FNMADD) ||
          (op =? OP_FP) then 0
  else Z.shiftr (sgn 32 word) 20.

Definition rv64_decode (word : Z) : rv64_insn_t :=
  let opcode := Z.land word 0x7F in
  {| opcode := opcode;
     rd := Z.land (Z.shiftr word 7) 0x1F;
     funct3 := Z.land (Z.shiftr word 12) 0x07;
     rs1 := Z.land (Z.shiftr word 15) 0x1F;
     rs2 := Z.land (Z.shiftr word 20) 0x1F;
     rs3 := Z.land (Z.shiftr word 27) 0x1F;
     funct7 := Z.land (Z.shiftr word 25) 0x7F;
     imm := decode_imm opcode word |}.

(** ** State and memory *)

Record rv64_state_t := State {
  x : list Z; pc : Z; insn_count : Z; f : list Z; fcsr : Z }.

Definition xget (st : rv64_state_t) (r : Z) : Z := nth (Z.to_nat r) (x st) 0.
Definition fget (st : rv64_state_t) (r : Z) : Z := nth (Z.to_nat r) (f st) 0.

(** [if (insn.rd) state->x[insn.rd] = v;] *)
Definition xset (st : rv64_state_t) (r v : Z) : rv64_state_t :=
  if r =? 0 then st
  else State (<[Z.to_nat r := v]> (x st)) (pc st) (insn_count st) (f st) (fcsr st).

Definition fset (st : rv64_state_t) (r v : Z) : rv64_state_t :=
  State (x st) (pc st) (insn_count st) (<[Z.to_nat r := v]> (f st)) (fcsr st).

Definition set_pc (st : rv64_state_t) (p : Z) : rv64_state_t :=
  State (x st) p (insn_count st) (f st) (fcsr st).

Definition set_fcsr (st : rv64_state_t) (c : Z) : rv64_state_t :=
  State (x st) (pc st) (insn_count st) (f st) c.

(** The memory is the array [data] of [size] bytes. *)
Definition mem_check (data : bytes) (addr len : Z) : bool :=
  (addr <=? Z.of_nat (length data)) && (len <=? Z.of_nat (length data) - addr).

(** [n] bytes, little-endian. *)
Definition le_bytes (data : bytes) (addr : Z) (n : nat) : Z :=
  foldr (fun b acc => b + 256 * acc) 0 (take n (drop (Z.to_nat addr) data)).

Definition mem_read (n : nat) (data : bytes) (addr : Z) : Z :=
  if negb (mem_check data addr (Z.of_nat n)) then 0 else le_bytes data addr n.

Fixpoint split_le (n : nat) (v : Z) : bytes :=
  match n with O => [] | S n' => v mod 256 :: split_le n' (v / 256) end.

Definition mem_write (n : nat) (data : bytes) (addr v : Z) : bytes :=
  if negb (mem_check data addr (Z.of_nat n)) then data
  else take (Z.to_nat addr) data ++ split_le n v ++ drop (Z.to_nat addr + n) data.

(** ** Arithmetic *)

Definition sext32 (v : Z) : Z := wrap 64 (sgn 32 v).

(** With [__int128]. *)
Definition mulh_ss (a b : Z) : Z := wrap 64 (Z.shiftr (sgn 64 a * sgn 64 b) 64).
Definition mulh_su (a b : Z) : Z := wrap 64 (Z.shiftr (sgn 64 a * b) 64).
Definition mulh_uu (a b : Z) : Z := wrap 64 (Z.shiftr (a * b) 64).

(** Without: 32-bit halves. *)
Definition mulh_uu_split (a b : Z) : Z :=
  let a_lo := Z.land a 0xFFFFFFFF in let a_hi := Z.shiftr a 32 in
  let b_lo := Z.land b 0xFFFFFFFF in let b_hi := Z.shiftr b 32 in
  let p0 := wrap 64 (a_lo * b_lo) in let p1 := wrap 64 (a_lo * b_hi) in
  let p2 := wrap 64 (a_hi * b_lo) in let p3 := wrap 64 (a_hi * b_hi) in
  let carry := Z.shiftr (wrap 64 (wrap 64 (Z.shiftr p0 32 + Z.land p1 0xFFFFFFFF) +
                                  Z.land p2 0xFFFFFFFF)) 32 in
  wrap 64 (wrap 64 (wrap 64 (p3 + Z.shiftr p1 32) + Z.shiftr p2 32) + carry).

Definition neg128 (negate : bool) (hi lo : Z) : Z :=
  if negate then
    let lo := wrap 64 (wrap 64 (Z.lnot lo) + 1) in
    wrap 64 (wrap 64 (Z.lnot hi) + (if lo =? 0 then 1 else 0))
  else hi.

Definition mulh_ss_split (a b : Z) : Z :=
  let na := sgn 64 a <? 0 in let nb := sgn 64 b <? 0 in
  let a := if na then wrap 64 (- a) else a in
  let b := if nb then wrap 64 (- b) else b in
  neg128 (xorb na nb) (mulh_uu_split a b) (wrap 64 (a * b)).

Definition mulh_su_split (a b : Z) : Z :=
  let na := sgn 64 a <? 0 in
  let a := if na then wrap 64 (- a) else a in
  neg128 na (mulh_uu_split a b) (wrap 64 (a * b)).

Definition b2z (b : bool) : Z := if b then 1 else 0.

(** DIV, REM, DIVU and REMU at width [w]; operands and result are unsigned [w]-bit values. *)
Definition rv_div (w a b : Z) : Z :=
  if b =? 0 then 2 ^ w - 1
  else if (sgn w a =? smin w) && (sgn w b =? -1) then wrap w (smin w)
  else wrap w (Z.quot (sgn w a) (sgn w b)).
Definition rv_rem (w a b : Z) : Z :=
  if b =? 0 then a
  else if (sgn w a =? smin w) && (sgn w b =? -1) then 0
  else wrap w (Z.rem (sgn w a) (sgn w b)).
Definition rv_divu (w a b : Z) : Z := if b =? 0 then 2 ^ w - 1 else a / b.
Definition rv_remu (w a b : Z) : Z := if b =? 0 then a else a mod b.

(** ** Execution *)

Inductive outcome :=
| Next (st : rv64_state_t) (data : bytes)
| Halt (rc : Z) (st : rv64_state_t) (data : bytes)
| Fault
| Double (i : rv64_insn_t).   (** a computation on doubles, which is not modelled *)

(** [OP_IMM]: [imm64] is [imm] as an unsigned 64-bit value. *)
Definition alu_imm (i : rv64_insn_t) (src : Z) : Z :=
  let imm64 := wrap 64 (imm i) in
  let shamt := Z.land (wrap 32 (imm i)) 0x3F in
  match funct3 i with
  | 0 => wrap 64 (src + imm64)
  | 2 => b2z (sgn 64 src <? imm i)
  | 3 => b2z (src <? imm64)
  | 4 => Z.lxor src imm64
  | 6 => Z.lor src imm64
  | 7 => Z.land src imm64
  | 1 => wrap 64 (Z.shiftl src shamt)
  | 5 => if negb (Z.land (funct7 i) 0x20 =? 0) then wrap 64 (Z.shiftr (sgn 64 src) shamt)
         else Z.shiftr src shamt
  | _ => 0
  end.

Definition alu_reg (i : rv64_insn_t) (a b : Z) : Z :=
  if funct7 i =? 0x01 then
    match funct3 i with
    | 0 => wrap 64 (a * b)
    | 1 => mulh_ss a b
    | 2 => mulh_su a b
    | 3 => mulh_uu a b
    | 4 => rv_div 64 a b
    | 5 => rv_divu 64 a b
    | 6 => rv_rem 64 a b
    | 7 => rv_remu 64 a b
    | _ => 0
    end
  else
    let alt := negb (Z.land (funct7 i) 0x20 =? 0) in
    match funct3 i with
    | 0 => if alt then wrap 64 (a - b) else wrap 64 (a + b)
    | 1 => wrap 64 (Z.shiftl a (Z.land b 0x3F))
    | 2 => b2z (sgn 64 a <? sgn 64 b)
    | 3 => b2z (a <? b)
    | 4 => Z.lxor a b
    | 5 => if alt then wrap 64 (Z.shiftr (sgn 64 a) (Z.land b 0x3F)) else Z.shiftr a (Z.land b 0x3F)
    | 6 => Z.lor a b
    | 7 => Z.land a b
    | _ => 0
    end.

(** The 32-bit operations; [None] is an illegal [funct3]. *)
Definition alu_imm32 (i : rv64_insn_t) (src : Z) : option Z :=
  let shamt := Z.land (wrap 32 (imm i)) 0x1F in
  match funct3 i with
  | 0 => Some (wrap 32 (src + wrap 32 (imm i)))
  | 1 => Some (wrap 32 (Z.shiftl src shamt))
  | 5 => Some (if negb (Z.land (funct7 i) 0x20 =? 0) then wrap 32 (Z.shiftr (sgn 32 src) shamt)
               else Z.shiftr src shamt)
  | _ => None
  end.

Definition alu_reg32 (i : rv64_insn_t) (a b : Z) : option Z :=
  if funct7 i =? 0x01 then
    match funct3 i with
    | 0 => Some (wrap 32 (a * b))
    | 4 => Some (rv_div 32 a b)
    | 5 => Some (rv_divu 32 a b)
    | 6 => Some (rv_rem 32 a b)
    | 7 => Some (rv_remu 32 a b)
    | _ => None
    end
  else
    let alt := negb (Z.land (funct7 i) 0x20 =? 0) in
    match funct3 i with
    | 0 => Some (if alt then wrap 32 (a - b) else wrap 32 (a + b))
    | 1 => Some (wrap 32 (Z.shiftl a (Z.land b 0x1F)))
    | 5 => Some (if alt then wrap 32 (Z.shiftr (sgn 32 a) (Z.land b 0x1F))
                 else Z.shiftr a (Z.land b 0x1F))
    | _ => None
    end.

Definition branch_taken (fn a b : Z) : option bool :=
  match fn with
  | 0 => Some (a =? b)
  | 1 => Some (negb (a =? b))
  | 4 => Some (sgn 64 a <? sgn 64 b)
  | 5 => Some (sgn 64 b <=? sgn 64 a)
  | 6 => Some (a <? b)
  | 7 => Some (b <=? a)
  | _ => None
  end.

Definition load (fn : Z) (data : bytes) (addr : Z) : option Z :=
  match fn with
  | 0 => Some (wrap 64 (sgn 8 (mem_read 1 data addr)))
  | 1 => Some (wrap 64 (sgn 16 (mem_read 2 data addr)))
  | 2 => Some (sext32 (mem_read 4 data addr))
  | 3 => Some (mem_read 8 data addr)
  | 4 => Some (mem_read 1 data addr)
  | 5 => Some (mem_read 2 data addr)
  | 6 => Some (mem_read 4 data addr)
  | _ => None
  end.

Definition store (fn : Z) (data : bytes) (addr v : Z) : option bytes :=
  match fn with
  | 0 => Some (mem_write 1 data addr (wrap 8 v))
  | 1 => Some (mem_write 2 data addr (wrap 16 v))
  | 2 => Some (mem_write 4 data addr (wrap 32 v))
  | 3 => Some (mem_write 8 data addr v)
  | _ => None
  end.

(** The control registers: [fflags], [frm] and [fcsr]. *)
Definition csr_read (addr c : Z) : option Z :=
  if addr =? 1 then Some (Z.land c 0x1F)
  else if addr =? 2 then Some (Z.land (Z.shiftr c 5) 0x7)
  else if addr =? 3 then Some (Z.land c 0xFF)
  else None.

Definition csr_write (addr c v : Z) : Z :=
  if addr =? 1 then Z.lor (Z.land c (wrap 32 (Z.lnot 0x1F))) (Z.land (wrap 32 v) 0x1F)
  else if addr =? 2 then Z.lor (Z.land c (wrap 32 (Z.lnot 0xE0))) (Z.shiftl (Z.land (wrap 32 v) 0x7) 5)
  else if addr =? 3 then Z.land (wrap 32 v) 0xFF
  else c.

(** CSRRW, CSRRS and CSRRC and their immediate forms, [src] being the register or the
    immediate. *)
Definition csr_exec (i : rv64_insn_t) (st : rv64_state_t) (src : Z) : option rv64_state_t :=
  let csr_addr := Z.land (wrap 32 (imm i)) 0xFFF in
  csr_val ← csr_read csr_addr (fcsr st);
  let new_val := match Z.land (funct3 i) 3 with
                 | 1 => src | 2 => Z.lor csr_val src
                 | _ => Z.land csr_val (wrap 64 (Z.lnot src)) end in
  let st := xset st (rd i) csr_val in
  Some (set_fcsr st (csr_write csr_addr (fcsr st) new_val)).

Section Machine.
(** The callback: the state and the memory after it, and its result. *)
Variable ecall_handler : rv64_state_t -> bytes -> rv64_state_t * bytes * Z.

(** The end of an iteration: [state->x[0] = 0; state->pc = next_pc;] *)
Definition finish (st : rv64_state_t) (next_pc : Z) (data : bytes) : outcome :=
  Next (State (<[0%nat := 0]> (x st)) next_pc (insn_count st) (f st) (fcsr st)) data.

(** One iteration after the fetch: [i] is the decoded instruction, and [insn_count] has been
    counted. *)
Definition exec (i : rv64_insn_t) (st : rv64_state_t) (data : bytes) : outcome :=
  let next_pc := wrap 64 (pc st + 4) in
  let imm64 := wrap 64 (imm i) in
  let jump := wrap 64 (pc st + imm64) in
  let a := xget st (rs1 i) in let b := xget st (rs2 i) in
  let addr := wrap 64 (a + imm64) in
  let fin st := finish st next_pc data in
  let op := opcode i in
  if op =? OP_LUI then fin (xset st (rd i) imm64)
  else if op =? OP_AUIPC then fin (xset st (rd i) jump)
  else if op =? OP_JAL then finish (xset st (rd i) next_pc) jump data
  else if op =? OP_JALR then
    finish (xset st (rd i) next_pc) (Z.land addr (wrap 64 (Z.lnot 1))) data
  else if op =? OP_BRANCH then
    match branch_taken (funct3 i) a b with
    | None => Fault
    | Some taken => finish st (if taken then jump else next_pc) data
    end
  else if op =? OP_LOAD then
    match load (funct3 i) data addr with None => Fault | Some v => fin (xset st (rd i) v) end
  else if op =? OP_STORE then
    match store (funct3 i) data addr b with
    | None => Fault | Some data => finish st next_pc data end
  else if op =? OP_IMM then fin (xset st (rd i) (alu_imm i a))
  else if op =? OP_REG then fin (xset st (rd i) (alu_reg i a b))
  else if op =? OP_IMM32 then
    match alu_imm32 i (wrap 32 a) with None => Fault | Some v => fin (xset st (rd i) (sext32 v)) end
  else if op =? OP_REG32 then
    match alu_reg32 i (wrap 32 a) (wrap 32 b) with
    | None => Fault | Some v => fin (xset st (rd i) (sext32 v)) end
  else if op =? OP_FENCE then fin st
  else if op =? OP_SYSTEM then
    if (imm i =? 0) && (funct3 i =? 0) then
      let '(st, data, rc) := ecall_handler (set_pc st next_pc) data in
      if 0 <=? rc then Halt rc st data
      else finish st (pc st) data
    else if (imm i =? 1) && (funct3 i =? 0) then Fault
    else if in_rng 1 3 (funct3 i) then
      match csr_exec i st a with None => Fault | Some st => fin st end
    else if in_rng 5 7 (funct3 i) then
      match csr_exec i st (rs1 i) with None => Fault | Some st => fin st end
    else Fault
  else if op =? OP_FP_LOAD then
    if funct3 i =? 3 then fin (fset st (rd i) (mem_read 8 data addr)) else Fault
  else if op =? OP_FP_STORE then
    if funct3 i =? 3 then finish st next_pc (mem_write 8 data addr (fget st (rs2 i)))
    else Fault
  else if (op =? OP_FMADD) || (op =? OP_FMSUB) || (op =? OP_FNMSUB) || (op =? OP_FNMADD) ||
          (op =? OP_FP) then Double i
  else Fault.

(** One iteration of the loop of [rv64_interp_run]. *)
Definition step (st : rv64_state_t) (data : bytes) : outcome :=
  if negb (mem_check data (pc st) 4) then Fault
  else
    let word := mem_read 4 data (pc st) in
    exec (rv64_decode word)
         (State (x st) (pc st) (wrap 64 (insn_count st + 1)) (f st) (fcsr st)) data.

Definition interp_body (s : rv64_state_t * bytes) :
  (rv64_state_t * bytes) + outcome :=
  match step (fst s) (snd s) with
  | Next st data => inl (st, data)
  | o => inr o
  end.

Definition rv64_interp_run (fuel : nat) (st : rv64_state_t) (data : bytes) : option outcome :=
  iter interp_body fuel (st, data).
End Machine.

(** ** The arithmetic helpers *)

Lemma u64_pow : 2 ^ 64 = 4294967296 * 4294967296.
Proof. reflexivity. Qed.

Lemma div_mod_unique_u a q r : 0 <= r < 2 ^ 64 -> a = q * 2 ^ 64 + r -> a / 2 ^ 64 = q.
Proof. intros Hr ->. symmetry. apply Z.div_unique with (r := r); lia. Qed.

(** A product of two 64-bit values from the products of their halves. *)
Lemma halves_product ah al bh bl :
  0 <= ah < 2 ^ 32 -> 0 <= al < 2 ^ 32 -> 0 <= bh < 2 ^ 32 -> 0 <= bl < 2 ^ 32 ->
  let p0 := al * bl in let p1 := al * bh in let p2 := ah * bl in let p3 := ah * bh in
  let mid := p0 / 2 ^ 32 + p1 mod 2 ^ 32 + p2 mod 2 ^ 32 in
  0 <= p0 < 2 ^ 64 /\ 0 <= p1 < 2 ^ 64 /\ 0 <= p2 < 2 ^ 64 /\ 0 <= p3 < 2 ^ 64 /\
  0 <= mid < 3 * 2 ^ 32 /\
  (ah * 2 ^ 32 + al) * (bh * 2 ^ 32 + bl) =
    (p3 + p1 / 2 ^ 32 + p2 / 2 ^ 32 + mid / 2 ^ 32) * 2 ^ 64 + (mid mod 2 ^ 32 * 2 ^ 32 + p0 mod 2 ^ 32) /\
  0 <= mid mod 2 ^ 32 * 2 ^ 32 + p0 mod 2 ^ 32 < 2 ^ 64.
Proof.
  intros Ha Hl Hb Hm p0 p1 p2 p3 mid.
  change (2 ^ 64) with (2 ^ 32 * 2 ^ 32). set (w := 2 ^ 32) in *.
  assert (0 < w) by done.
  assert (0 <= p0 < w * w /\ 0 <= p1 < w * w /\ 0 <= p2 < w * w /\ 0 <= p3 < w * w) as (B0 & B1 & B2 & B3)
    by (unfold p0, p1, p2, p3; nia).
  assert (0 <= p0 / w < w) as D0 by (split; [apply Z.div_pos; lia | apply Z.div_lt_upper_bound; lia]).
  pose proof (Z.mod_pos_bound p1 w ltac:(lia)). pose proof (Z.mod_pos_bound p2 w ltac:(lia)).
  pose proof (Z.mod_pos_bound p0 w ltac:(lia)). pose proof (Z.mod_pos_bound mid w ltac:(lia)).
  pose proof (Z.div_mod p0 w ltac:(lia)). pose proof (Z.div_mod p1 w ltac:(lia)).
  pose proof (Z.div_mod p2 w ltac:(lia)). pose proof (Z.div_mod mid w ltac:(lia)) as Dm.
  assert (0 <= mid < 3 * w) by (unfold mid; lia).
  assert (mid * w = (p0 / w + p1 mod w + p2 mod w) * w) by (unfold mid; ring).
  split_and!; lia || nia.
Qed.

Lemma mulh_uu_eq a b : in_u 64 a -> in_u 64 b -> mulh_uu_split a b = mulh_uu a b.
Proof.
  unfold in_u. intros Ha Hb. unfold mulh_uu_split, mulh_uu.
  rewrite !(land_ones_mod _ 32 0xFFFFFFFF) by (lia || reflexivity). rewrite !Z.shiftr_div_pow2 by lia.
  assert (0 <= a / 2 ^ 32 < 2 ^ 32 /\ 0 <= b / 2 ^ 32 < 2 ^ 32) as [A1 B1]
    by (Z.div_mod_to_equations; lia).
  pose proof (Z.mod_pos_bound a (2 ^ 32) ltac:(lia)) as A0.
  pose proof (Z.mod_pos_bound b (2 ^ 32) ltac:(lia)) as B0.
  destruct (halves_product _ _ _ _ A1 A0 B1 B0) as (P0 & P1 & P2 & P3 & M & E & R). cbv zeta in *.
  rewrite !(wrap_small 64 (_ * _)) by done.
  set (p0 := a mod 2 ^ 32 * (b mod 2 ^ 32)) in *. set (p1 := a mod 2 ^ 32 * (b / 2 ^ 32)) in *.
  set (p2 := a / 2 ^ 32 * (b mod 2 ^ 32)) in *. set (p3 := a / 2 ^ 32 * (b / 2 ^ 32)) in *.
  pose proof (Z.mod_pos_bound p1 (2 ^ 32) ltac:(lia)). pose proof (Z.mod_pos_bound p2 (2 ^ 32) ltac:(lia)).
  assert (0 <= p0 / 2 ^ 32) by (apply Z.div_pos; lia).
  rewrite (wrap_small 64 (p0 / 2 ^ 32 + _)), (wrap_small 64 (_ + p2 mod 2 ^ 32)) by (unfold in_u; lia).
  set (mid := p0 / 2 ^ 32 + p1 mod 2 ^ 32 + p2 mod 2 ^ 32) in *.
  assert (0 <= p1 / 2 ^ 32 /\ 0 <= p2 / 2 ^ 32 /\ 0 <= mid / 2 ^ 32) as (Q1 & Q2 & Q3)
    by (split_and!; apply Z.div_pos; lia).
  replace (a / 2 ^ 32 * 2 ^ 32 + a mod 2 ^ 32) with a in E by (Z.div_mod_to_equations; lia).
  replace (b / 2 ^ 32 * 2 ^ 32 + b mod 2 ^ 32) with b in E by (Z.div_mod_to_equations; lia).
  pose proof (div_mod_unique_u _ _ _ R E) as D.
  assert (a * b / 2 ^ 64 < 2 ^ 64) by (apply Z.div_lt_upper_bound; nia).
  rewrite D, (wrap_small 64 (p3 + p1 / 2 ^ 32)) by (unfold in_u; lia).
  by rewrite (wrap_small 64 (p3 + p1 / 2 ^ 32 + p2 / 2 ^ 32)) by (unfold in_u; lia).
Qed.

Lemma neg128_spec p (negate : bool) :
  0 <= p < 2 ^ 128 ->
  neg128 negate (wrap 64 (p / 2 ^ 64)) (wrap 64 p) =
    wrap 64 ((if negate then - p else p) / 2 ^ 64).
Proof.
  intros Hp. destruct negate; [|done]. unfold neg128, Z.lnot.
  assert (0 <= p / 2 ^ 64 < 2 ^ 64) as Hh by (Z.div_mod_to_equations; lia).
  rewrite (wrap_small 64 (p / 2 ^ 64)) by done. cbv zeta. autorewrite with wrap.
  replace (Z.pred (- wrap 64 p) + 1) with (0 - wrap 64 p) by lia. rewrite wrap_sub_r.
  assert ((wrap 64 (0 - p) =? 0) = (p mod 2 ^ 64 =? 0)) as ->.
  { unfold wrap. destruct (Z.eqb_spec ((0 - p) mod 2 ^ 64) 0), (Z.eqb_spec (p mod 2 ^ 64) 0); try done;
      exfalso; Z.div_mod_to_equations; lia. }
  f_equal. destruct (Z.eqb_spec (p mod 2 ^ 64) 0); Z.div_mod_to_equations; lia.
Qed.

Lemma abs_u64 a : in_u 64 a -> (if sgn 64 a <? 0 then wrap 64 (- a) else a) = Z.abs (sgn 64 a) /\
  0 <= Z.abs (sgn 64 a) <= 2 ^ 63.
Proof.
  intros Ha. unfold in_u in Ha. unfold sgn. rewrite (wrap_small 64 a) by done. cbv zeta.
  change (64 - 1) with 63. destruct (Z.ltb_spec a (2 ^ 63)) as [L|L].
  - replace (a <? 0) with false by lia. lia.
  - replace (a - 2 ^ 64 <? 0) with true by lia.
    assert (wrap 64 (- a) = 2 ^ 64 - a) as -> by (symmetry; apply Z.mod_unique with (q := -1); lia).
    lia.
Qed.

(** The fallbacks for hosts without 128-bit integers compute the high half of the
    product, signed by signed, signed by unsigned and unsigned by unsigned, as the code with
    [__int128] does. *)
Theorem mulh_fallback a b :
  in_u 64 a -> in_u 64 b ->
  mulh_uu_split a b = mulh_uu a b /\ mulh_ss_split a b = mulh_ss a b /\
  mulh_su_split a b = mulh_su a b.
Proof.
  intros Ha Hb. split; [by apply mulh_uu_eq|].
  destruct (abs_u64 a Ha) as [Ea Ra], (abs_u64 b Hb) as [Eb Rb].
  assert (in_u 64 (Z.abs (sgn 64 a)) /\ in_u 64 (Z.abs (sgn 64 b))) as [Ua Ub]
    by (unfold in_u; lia).
  unfold mulh_ss_split, mulh_su_split, mulh_ss, mulh_su. rewrite Ea, Eb. split.
  - rewrite mulh_uu_eq by done. unfold mulh_uu. rewrite !Z.shiftr_div_pow2 by lia.
    rewrite neg128_spec by (split; nia). f_equal. f_equal.
    destruct (Z.ltb_spec (sgn 64 a) 0), (Z.ltb_spec (sgn 64 b) 0); cbn [xorb]; nia.
  - rewrite mulh_uu_eq by done. unfold mulh_uu. rewrite !Z.shiftr_div_pow2 by lia.
    unfold in_u in Hb. rewrite neg128_spec by (split; nia). f_equal. f_equal.
    destruct (Z.ltb_spec (sgn 64 a) 0); nia.
Qed.

Lemma mulh_fallback_witness :
  in_u 64 (2 ^ 64 - 3) /\ mulh_ss_split (2 ^ 64 - 3) 5 = 2 ^ 64 - 1.
Proof.
  assert (in_u 64 (2 ^ 64 - 3)) as H by (split; vm_compute; [discriminate|reflexivity]).
  split; [exact H|].
  rewrite (proj1 (proj2 (mulh_fallback (2 ^ 64 - 3) 5 H ltac:(split; vm_compute; [discriminate|reflexivity])))).
  vm_compute. reflexivity.
Defined.

(** Division and remainder follow the instruction set: rounding towards zero with the
    sign of the dividend, all ones and the dividend for a zero divisor, and the least
    number with remainder zero for the one overflow. *)
Theorem division_spec w a b :
  1 < w -> in_u w a -> in_u w b ->
  (b = 0 -> rv_div w a b = 2 ^ w - 1 /\ rv_rem w a b = a /\
            rv_divu w a b = 2 ^ w - 1 /\ rv_remu w a b = a) /\
  (sgn w a = smin w -> sgn w b = -1 -> rv_div w a b = a /\ rv_rem w a b = 0) /\
  (b <> 0 -> ~ (sgn w a = smin w /\ sgn w b = -1) ->
     sgn w a = sgn w b * sgn w (rv_div w a b) + sgn w (rv_rem w a b) /\
     Z.abs (sgn w (rv_rem w a b)) < Z.abs (sgn w b) /\
     (0 <= sgn w a -> 0 <= sgn w (rv_rem w a b)) /\ (sgn w a <= 0 -> sgn w (rv_rem w a b) <= 0)) /\
  (b <> 0 -> a = b * rv_divu w a b + rv_remu w a b /\ 0 <= rv_remu w a b < b).
Proof.
  intros Hw Ha Hb. unfold rv_div, rv_rem, rv_divu, rv_remu.
  assert (forall z, in_u w z -> wrap w (sgn w z) = z) as W by (intros z Hz; rewrite wrap_sgn, wrap_small by (done || lia); done).
  split_and!.
  - intros ->. rewrite Z.eqb_refl. done.
  - intros Ea Eb. destruct (Z.eqb_spec b 0) as [->|].
    + exfalso. rewrite sgn_small in Eb by ((split; [apply smin_neg|unfold smax; pose proof (Z.pow_pos_nonneg 2 (w - 1)); lia]) || lia). lia.
    + rewrite Ea, Eb, !Z.eqb_refl. cbn [andb]. rewrite <- Ea. split; [by apply W|done].
  - intros Hb0 Hov. replace (b =? 0) with false by lia.
    replace ((sgn w a =? smin w) && (sgn w b =? -1)) with false by lia.
    assert (sgn w b <> 0) as Hs by (intros E; apply Hb0; rewrite <- (W b Hb), E; apply wrap_small; split; lia || apply Hb).
    pose proof (sgn_range w a ltac:(lia)) as Ra. pose proof (sgn_range w b ltac:(lia)) as Rb.
    destruct (smin_lt w Hw) as [M1 M2]. unfold in_s in Ra, Rb.
    pose proof (quot_rem_facts (sgn w a) (sgn w b) Hs) as (E & B & P & N).
    assert (Z.abs (Z.quot (sgn w a) (sgn w b)) <= Z.abs (sgn w a)) by nia.
    assert (Z.quot (sgn w a) (sgn w b) <> - smin w) by (intros Eq; apply Hov; rewrite Eq in E; nia).
    rewrite !sgn_wrap. rewrite !(sgn_small w (Z.quot _ _)), !(sgn_small w (Z.rem _ _))
      by (lia || (unfold in_s; lia)). tauto.
  - intros Hb0. replace (b =? 0) with false by lia. unfold in_u in *.
    split; [apply Z.div_mod; lia | apply Z.mod_pos_bound; lia].
Qed.

Lemma division_spec_witness :
  in_u 64 (2 ^ 63) /\ (rv_div 64 (2 ^ 63) (2 ^ 64 - 1) = 2 ^ 63 /\ rv_rem 64 (2 ^ 63) (2 ^ 64 - 1) = 0) /\ rv_div 64 (2 ^ 64 - 7) 2 = 2 ^ 64 - 3.
Proof.
  assert (in_u 64 (2 ^ 63)) as H by (split; vm_compute; [discriminate|reflexivity]).
  destruct (division_spec 64 (2 ^ 63) (2 ^ 64 - 1) eq_refl H ltac:(split; vm_compute; [discriminate|reflexivity]))
    as (_ & T & _).
  split; [exact H|]. split; [apply T; vm_compute; reflexivity|]. vm_compute. reflexivity.
Defined.

(** ** The state keeps its types *)

Record state_ok (st : rv64_state_t) : Prop := {
  ok_x : length (x st) = 32%nat /\ Forall (in_u 64) (x st);
  ok_x0 : xget st 0 = 0;
  ok_pc : in_u 64 (pc st);
  ok_count : in_u 64 (insn_count st);
  ok_f : length (f st) = 32%nat /\ Forall (in_u 64) (f st);
  ok_fcsr : in_u 32 (fcsr st) }.

Definition data_ok (data : bytes) : Prop := Forall byte_ok data.

Lemma in_u_ones w z : 0 <= w -> in_u w z <-> Z.land z (Z.ones w) = z.
Proof.
  intros Hw. rewrite Z.land_ones by done. unfold in_u. split; [apply Z.mod_small|].
  intros <-. apply Z.mod_pos_bound, Z.pow_pos_nonneg; lia.
Qed.

Lemma in_u_lor w a b : 0 <= w -> in_u w a -> in_u w b -> in_u w (Z.lor a b).
Proof.
  intros Hw. rewrite !in_u_ones by done. intros Ha Hb. by rewrite Z.land_lor_distr_l, Ha, Hb.
Qed.

Lemma in_u_lxor w a b : 0 <= w -> in_u w a -> in_u w b -> in_u w (Z.lxor a b).
Proof.
  intros Hw. rewrite !in_u_ones by done. intros Ha Hb.
  apply Z.bits_inj'. intros i Hi.
  apply (f_equal (fun z => Z.testbit z i)) in Ha, Hb. rewrite Z.land_spec in Ha, Hb.
  rewrite Z.land_spec, Z.lxor_spec.
  destruct (Z.testbit (Z.ones w) i); [apply andb_true_r|].
  rewrite andb_false_r in *. by rewrite <- Ha, <- Hb.
Qed.

Lemma in_u_land w a b : 0 <= w -> in_u w a -> in_u w (Z.land a b).
Proof.
  intros Hw. rewrite !in_u_ones by done. intros Ha.
  by rewrite <- Z.land_assoc, (Z.land_comm b), Z.land_assoc, Ha.
Qed.

Lemma in_u_shiftr w a n : 0 <= n -> in_u w a -> in_u w (Z.shiftr a n).
Proof.
  unfold in_u. intros Hn Ha. rewrite Z.shiftr_div_pow2 by done.
  pose proof (Z.pow_pos_nonneg 2 n ltac:(lia) Hn).
  split; [apply Z.div_pos; lia | apply Z.div_lt_upper_bound; nia].
Qed.

Lemma in_u_b2z w b : 0 < w -> in_u w (b2z b).
Proof. intros. unfold in_u. pose proof (Z.pow_gt_1 2 w). destruct b; cbn; lia. Qed.

Lemma in_u_mono w w' z : w <= w' -> in_u w z -> in_u w' z.
Proof. unfold in_u. intros H Hz. pose proof (Z.pow_le_mono_r 2 w w'). lia. Qed.

Lemma in_u_0 w : 0 <= w -> in_u w 0.
Proof. intros. unfold in_u. pose proof (Z.pow_pos_nonneg 2 w). lia. Qed.

Create HintDb rv.
#[export] Hint Resolve in_u_lor in_u_lxor in_u_land in_u_shiftr in_u_b2z in_u_0 wrap_range : rv.
#[export] Hint Extern 1 (_ <= _) => lia : rv.
#[export] Hint Extern 1 (_ < _) => lia : rv.

Lemma land_nonneg_r a b : 0 <= b -> 0 <= Z.land a b.
Proof. intros. apply Z.land_nonneg. by right. Qed.
#[export] Hint Resolve land_nonneg_r : rv.

Lemma rv_divs_ok w a b :
  1 < w -> in_u w a -> in_u w b ->
  in_u w (rv_div w a b) /\ in_u w (rv_rem w a b) /\ in_u w (rv_divu w a b) /\ in_u w (rv_remu w a b).
Proof.
  intros Hw Ha Hb. pose proof (Z.pow_gt_1 2 w ltac:(lia)).
  assert (in_u w (2 ^ w - 1)) by (unfold in_u; lia).
  unfold rv_div, rv_rem, rv_divu, rv_remu. destruct (Z.eqb_spec b 0); [done|].
  split_and!; try (case_match; auto with rv); unfold in_u in *.
  - split; [apply Z.div_pos; lia | apply Z.div_lt_upper_bound; nia].
  - pose proof (Z.mod_pos_bound a b ltac:(lia)). lia.
Qed.

Lemma mem_read_ok n data addr : data_ok data -> in_u (8 * Z.of_nat n) (mem_read n data addr).
Proof.
  intros Hd. unfold mem_read. case_match; [apply in_u_0; lia|]. unfold le_bytes.
  assert (Forall byte_ok (take n (drop (Z.to_nat addr) data))) as F by (by apply Forall_take, Forall_drop).
  assert (length (take n (drop (Z.to_nat addr) data)) <= n)%nat as L by (rewrite length_take; lia).
  revert F L. generalize (take n (drop (Z.to_nat addr) data)). clear. intros l F. revert n.
  induction F as [|b l Hb F IH]; intros n L; cbn [foldr]; [apply in_u_0; lia|].
  destruct n as [|n]; [cbn in L; lia|]. specialize (IH n ltac:(cbn in L; lia)).
  unfold in_u, byte_ok in *. replace (8 * Z.of_nat (S n)) with (8 + 8 * Z.of_nat n) by lia.
  rewrite Z.pow_add_r by lia. change (2 ^ 8) with 256. lia.
Qed.

Lemma split_le_ok n v : data_ok (split_le n v) /\ length (split_le n v) = n.
Proof.
  revert v. induction n as [|n IH]; intros v; cbn [split_le length].
  { split; [apply List.Forall_nil|reflexivity]. }
  destruct (IH (v / 256)) as [H1 H2]. split; [|by rewrite H2]. apply Forall_cons; split; [|exact H1].
  unfold byte_ok. pose proof (Z.mod_pos_bound v 256). lia.
Qed.

Lemma mem_write_ok n data addr v :
  data_ok data -> 0 <= addr ->
  data_ok (mem_write n data addr v) /\ length (mem_write n data addr v) = length data.
Proof.
  intros Hd Ha. unfold mem_write. destruct (mem_check data addr (Z.of_nat n)) eqn:C; cbn [negb]; [|done].
  unfold mem_check in C. destruct (split_le_ok n v) as [H1 H2]. split.
  - unfold data_ok in *. apply Forall_app; split; [by apply Forall_take|].
    apply Forall_app; split; [done | by apply Forall_drop].
  - rewrite !length_app, H2, length_take, length_drop. lia.
Qed.

Lemma xget_ok st r : state_ok st -> in_u 64 (xget st r).
Proof.
  intros [[_ Hx] _ _ _ _ _]. unfold xget.
  destruct (nth_in_or_default (Z.to_nat r) (x st) 0) as [H| ->]; [|by apply in_u_0].
  by apply (proj1 (List.Forall_forall _ _) Hx).
Qed.

Lemma fget_ok st r : state_ok st -> in_u 64 (fget st r).
Proof.
  intros [_ _ _ _ [_ Hx] _]. unfold fget.
  destruct (nth_in_or_default (Z.to_nat r) (f st) 0) as [H| ->]; [|by apply in_u_0].
  by apply (proj1 (List.Forall_forall _ _) Hx).
Qed.

Lemma xset_ok st r v : 0 <= r -> state_ok st -> in_u 64 v -> state_ok (xset st r v).
Proof.
  intros Hr [[Lx Hx] H0 Hp Hc Hf Hs] Hv. unfold xset. destruct (Z.eqb_spec r 0); [done|].
  constructor; cbn; try done.
  - rewrite length_insert. split; [done|]. by apply Forall_insert.
  - unfold xget in *. cbn [x] in *. destruct (x st) as [|y l]; [done|].
    destruct (Z.to_nat r) eqn:E; [lia|]. done.
Qed.

Lemma fset_ok st r v : state_ok st -> in_u 64 v -> state_ok (fset st r v).
Proof.
  intros [Hx H0 Hp Hc [Lf Hf] Hs] Hv. constructor; cbn; try done.
  rewrite length_insert. split; [done|]. by apply Forall_insert.
Qed.

(** What the end of an iteration promises of a memory of [n] bytes. *)
Definition next_ok (n : nat) (o : outcome) : Prop :=
  match o with
  | Next st d | Halt _ st d => state_ok st /\ data_ok d /\ length d = n
  | _ => True
  end.

Lemma finish_ok st p data :
  state_ok st -> data_ok data -> in_u 64 p -> next_ok (length data) (finish st p data).
Proof.
  intros [[Lx Hx] H0 Hp Hc Hf Hs] Hd Hpc. split_and!; try done. constructor; cbn; try done.
  - rewrite length_insert. split; [done|]. apply Forall_insert; [done|by apply in_u_0].
  - unfold xget. cbn. by destruct (x st).
Qed.

Lemma alu_imm_ok i v : in_u 64 v -> in_u 64 (alu_imm i v).
Proof.
  intros Hv. unfold alu_imm. pose proof (land_nonneg_r (wrap 32 (imm i)) 0x3F ltac:(lia)).
  repeat case_match; auto 6 with rv.
Qed.

Lemma alu_reg_ok i a b : in_u 64 a -> in_u 64 b -> in_u 64 (alu_reg i a b).
Proof.
  intros Ha Hb. unfold alu_reg, mulh_ss, mulh_su, mulh_uu.
  destruct (rv_divs_ok 64 a b ltac:(lia) Ha Hb) as (D1 & D2 & D3 & D4).
  pose proof (land_nonneg_r b 0x3F ltac:(lia)).
  repeat case_match; auto 6 with rv.
Qed.

Lemma load_ok fn data addr v : data_ok data -> load fn data addr = Some v -> in_u 64 v.
Proof.
  intros Hd. unfold load, sext32.
  repeat case_match; intros [= <-]; try (apply wrap_range; lia);
    eapply in_u_mono; try apply mem_read_ok; lia || done.
Qed.

Lemma store_ok fn data addr v data' :
  data_ok data -> 0 <= addr -> store fn data addr v = Some data' ->
  data_ok data' /\ length data' = length data.
Proof. intros Hd Ha. unfold store. repeat case_match; intros [= <-]; by apply mem_write_ok. Qed.

Lemma csr_write_ok addr c v : in_u 32 c -> in_u 32 (csr_write addr c v).
Proof.
  intros Hc. unfold csr_write.
  assert (forall v m, 0 <= m < 2 ^ 32 -> in_u 32 (Z.land v m)) as L
    by (intros; rewrite Z.land_comm; apply in_u_land; [lia|done]).
  repeat case_match; try done; try (apply L; lia); apply in_u_lor; try lia; try (by apply in_u_land);
    try (apply L; lia).
  rewrite Z.shiftl_mul_pow2, (land_ones_mod _ 3) by (lia || reflexivity). unfold in_u.
  pose proof (Z.mod_pos_bound (wrap 32 v) (2 ^ 3)). lia.
Qed.

Lemma csr_exec_ok i st src st' :
  0 <= rd i -> state_ok st -> csr_exec i st src = Some st' -> state_ok st'.
Proof.
  intros Hr Hst. unfold csr_exec. destruct (csr_read _ _) as [c|] eqn:E; [|done]. cbn zeta.
  rewrite bind_some. intros [= <-].
  assert (in_u 32 (fcsr st)) as Hf by apply Hst.
  assert (in_u 32 c) as Hc.
  { unfold csr_read in E. repeat case_match; simplify_eq; auto with rv. }
  assert (state_ok (xset st (rd i) c)) as [X X0 P C F S]
    by (apply xset_ok; [done|done|]; eapply in_u_mono, Hc; lia).
  constructor; try done. by apply csr_write_ok.
Qed.

Lemma decode_fields word : 0 <= rd (rv64_decode word) /\ 0 <= rs1 (rv64_decode word) < 32.
Proof.
  unfold rv64_decode. cbn. rewrite !(land_ones_mod _ 5) by (lia || reflexivity).
  pose proof (Z.mod_pos_bound (Z.shiftr word 7) (2 ^ 5)).
  pose proof (Z.mod_pos_bound (Z.shiftr word 15) (2 ^ 5)). lia.
Qed.

Definition handler_ok (eh : rv64_state_t -> bytes -> rv64_state_t * bytes * Z) : Prop :=
  forall st d, state_ok st -> data_ok d ->
    state_ok (fst (fst (eh st d))) /\ data_ok (snd (fst (eh st d))) /\
    length (snd (fst (eh st d))) = length d.

Lemma exec_ok eh i st data :
  handler_ok eh -> 0 <= rd i -> 0 <= rs1 i < 32 -> state_ok st -> data_ok data ->
  next_ok (length data) (exec eh i st data).
Proof.
  intros Heh Hr Hr1 Hst Hd. unfold exec. cbv zeta.
  pose proof (xget_ok st (rs1 i) Hst) as Ha. pose proof (xget_ok st (rs2 i) Hst) as Hb.
  assert (forall z, in_u 64 (wrap 64 z)) as W by (intros; apply wrap_range; lia).
  assert (forall v, in_u 64 v -> state_ok (xset st (rd i) v)) as X by (intros; by apply xset_ok).
  repeat match goal with
  | |- next_ok _ (finish (xset _ _ _) _ _) => apply finish_ok; [apply X|done|]
  | |- next_ok _ (finish _ _ data) => apply finish_ok; [done|done|]
  | |- in_u 64 (wrap 64 _) => apply W
  | |- in_u 64 (sext32 _) => apply W
  | |- next_ok _ (if ?b then _ else _) => destruct b
  | |- in_u 64 (if ?b then _ else _) => destruct b
  | |- next_ok _ Fault => done
  | |- next_ok _ (Double _) => done
  | |- next_ok _ (match ?o with None => _ | _ => _ end) => destruct o eqn:?
  end; try (apply finish_ok; try done).
  - apply in_u_land; [lia|apply W].
  - by eapply load_ok.
  - eapply store_ok in Heqo as [D <-]; [|done|apply W]. apply finish_ok; [done|done|apply W].
  - by apply alu_imm_ok.
  - by apply alu_reg_ok.
  - destruct (Heh (set_pc st (wrap 64 (pc st + 4))) data) as (H1 & H2 & H3); [|done|].
    { destruct Hst as [? ? ? ? ? ?]. constructor; try done. apply W. }
    destruct (eh _ data) as [[st' d'] rc]. cbn [fst snd] in *.
    destruct (0 <=? rc); [done|]. rewrite <- H3. apply finish_ok; [done|done|apply H1].
  - by eapply csr_exec_ok, Heqo.
  - by eapply csr_exec_ok, Heqo.
  - apply fset_ok; [done|]. by apply (mem_read_ok 8).
  - destruct (mem_write_ok 8 data (wrap 64 (xget st (rs1 i) + wrap 64 (imm i))) (fget st (rs2 i)))
      as [D L]; [done|apply W|]. rewrite <- L at 1. apply finish_ok; [done|done|apply W].
Qed.

Lemma step_ok eh st data :
  handler_ok eh -> state_ok st -> data_ok data -> next_ok (length data) (step eh st data).
Proof.
  intros Heh [Hx H0 Hp Hc Hf Hs] Hd. unfold step. destruct (negb _); [done|]. cbv zeta.
  apply exec_ok; try done; try apply decode_fields.
  constructor; try done. apply wrap_range. lia.
Qed.

(** ** What one instruction may change *)

(** The instructions of the interpreter, as a table by opcode. *)
Definition legal (i : rv64_insn_t) : bool :=
  let f3 l := existsb (Z.eqb (funct3 i)) l in
  let op := opcode i in
  if op =? OP_BRANCH then f3 [0; 1; 4; 5; 6; 7]
  else if op =? OP_LOAD then f3 [0; 1; 2; 3; 4; 5; 6]
  else if op =? OP_STORE then f3 [0; 1; 2; 3]
  else if op =? OP_IMM32 then f3 [0; 1; 5]
  else if op =? OP_REG32 then if funct7 i =? 1 then f3 [0; 4; 5; 6; 7] else f3 [0; 1; 5]
  else if op =? OP_SYSTEM then
    f3 [0] && (imm i =? 0)
    || f3 [1; 2; 3; 5; 6; 7] && existsb (Z.eqb (Z.land (wrap 32 (imm i)) 0xFFF)) [1; 2; 3]
  else if (op =? OP_FP_LOAD) || (op =? OP_FP_STORE) then f3 [3]
  else existsb (Z.eqb op) [OP_LUI; OP_AUIPC; OP_JAL; OP_JALR; OP_IMM; OP_REG; OP_FENCE;
                           OP_FMADD; OP_FMSUB; OP_FNMSUB; OP_FNMADD; OP_FP].

(** Computation on doubles. *)
Definition fp_compute (i : rv64_insn_t) : bool :=
  existsb (Z.eqb (opcode i)) [OP_FMADD; OP_FMSUB; OP_FNMSUB; OP_FNMADD; OP_FP].

Definition is_ecall (i : rv64_insn_t) : bool := (opcode i =? OP_SYSTEM) && (imm i =? 0) && (funct3 i =? 0).

Definition writes_x (i : rv64_insn_t) : bool :=
  existsb (Z.eqb (opcode i)) [OP_LUI; OP_AUIPC; OP_JAL; OP_JALR; OP_LOAD; OP_IMM; OP_REG; OP_IMM32; OP_REG32; OP_SYSTEM].

(** The bytes that a store writes. *)
Definition width (i : rv64_insn_t) : nat :=
  if opcode i =? OP_STORE then nth (Z.to_nat (funct3 i)) [1; 2; 4; 8]%nat 0%nat
  else if opcode i =? OP_FP_STORE then 8%nat else 0%nat.

Definition address (i : rv64_insn_t) (st : rv64_state_t) : Z := wrap 64 (xget st (rs1 i) + wrap 64 (imm i)).

Definition stored (i : rv64_insn_t) (st : rv64_state_t) : Z :=
  if opcode i =? OP_STORE then xget st (rs2 i) else fget st (rs2 i).

(** [data'] is [data] with the [n] low bytes of [v] at [addr], if there is room for all of them. *)
Definition written (n : nat) (addr v : Z) (data data' : bytes) : Prop :=
  (Z.of_nat (length data) < addr + Z.of_nat n -> data' = data)
  /\ (addr + Z.of_nat n <= Z.of_nat (length data) ->
      le_bytes data' addr n = v mod 2 ^ (8 * Z.of_nat n)
      /\ forall k, ~ addr <= Z.of_nat k < addr + Z.of_nat n -> data' !! k = data !! k).

(** What the instruction [i] may change of a state and a memory. *)
Record confined (i : rv64_insn_t) (st : rv64_state_t) (data : bytes) (st' : rv64_state_t) (data' : bytes) : Prop := {
  cf_x r : 0 <= r -> r <> rd i \/ writes_x i = false -> xget st' r = xget st r;
  cf_f r : 0 <= r -> r <> rd i \/ opcode i <> OP_FP_LOAD -> fget st' r = fget st r;
  cf_fcsr : opcode i <> OP_SYSTEM -> fcsr st' = fcsr st;
  cf_pc : opcode i <> OP_BRANCH -> opcode i <> OP_JAL -> opcode i <> OP_JALR -> pc st' = wrap 64 (pc st + 4);
  cf_count : insn_count st' = insn_count st;
  cf_mem : written (width i) (address i st) (stored i st) data data' }.

Lemma xget_xset st r v q : 0 <= r -> 0 <= q -> q <> r -> xget (xset st r v) q = xget st q.
Proof.
  intros Hr Hq Hn. unfold xset. destruct (r =? 0); [done|]. unfold xget. cbn [x].
  rewrite !nth_lookup, list_lookup_insert_ne by lia. done.
Qed.

Lemma fget_fset st r v q : 0 <= r -> 0 <= q -> q <> r -> fget (fset st r v) q = fget st q.
Proof. intros Hr Hq Hn. unfold fget. cbn [f fset]. by rewrite !nth_lookup, list_lookup_insert_ne by lia. Qed.

Lemma xset_rest st r v : f (xset st r v) = f st /\ fcsr (xset st r v) = fcsr st /\ insn_count (xset st r v) = insn_count st
  /\ pc (xset st r v) = pc st.
Proof. unfold xset. by destruct (r =? 0). Qed.

(** Without the sum that could wrap around. *)
Lemma mem_check_room data addr n : 0 <= n -> mem_check data addr n = (addr + n <=? Z.of_nat (length data)).
Proof. unfold mem_check. lia. Qed.

Lemma written_none addr v data : written 0 addr v data data.
Proof. split; [done|]. intros _. split; [by rewrite Z.mod_1_r|done]. Qed.

Lemma foldr_split_le n v : foldr (fun b acc => b + 256 * acc) 0 (split_le n v) = v mod 2 ^ (8 * Z.of_nat n).
Proof.
  revert v. induction n as [|n IH]; intros v; cbn [split_le foldr]; [by rewrite Z.mod_1_r|].
  rewrite IH. replace (8 * Z.of_nat (S n)) with (8 + 8 * Z.of_nat n) by lia. rewrite Z.pow_add_r by lia.
  change (2 ^ 8) with 256. rewrite Z.rem_mul_r by (try apply Z.pow_pos_nonneg; lia). done.
Qed.

Lemma mem_write_written n data addr v : 0 <= addr -> written n addr v data (mem_write n data addr v).
Proof.
  intros Ha. unfold written, mem_write. rewrite mem_check_room by lia.
  destruct (Z.leb_spec (addr + Z.of_nat n) (Z.of_nat (length data))) as [C|C]; cbn [negb]; [|split; [done|lia]].
  split; [lia|]. intros _. pose proof (proj2 (split_le_ok n v)) as L.
  assert (La : length (take (Z.to_nat addr) data) = Z.to_nat addr) by (rewrite length_take; lia). split.
  - unfold le_bytes. rewrite drop_app_length' by done. rewrite take_app_length' by done. apply foldr_split_le.
  - intros k Hk. destruct (decide (Z.of_nat k < addr)).
    + rewrite lookup_app_l by lia. by rewrite lookup_take_lt by lia.
    + rewrite lookup_app_r by lia. rewrite lookup_app_r by lia. rewrite lookup_drop. f_equal. lia.
Qed.

Lemma written_low n addr v w data data' : 8 * Z.of_nat n <= w -> written n addr (wrap w v) data data' -> written n addr v data data'.
Proof.
  intros Hw [H1 H2]. split; [done|]. intros C. destruct (H2 C) as [E Hk]. split; [|done]. rewrite E. unfold wrap.
  replace w with (8 * Z.of_nat n + (w - 8 * Z.of_nat n)) by lia. rewrite Z.pow_add_r by lia.
  set (p := 2 ^ (8 * Z.of_nat n)). assert (0 < p) by (apply Z.pow_pos_nonneg; lia).
  assert (0 < 2 ^ (w - 8 * Z.of_nat n)) by (apply Z.pow_pos_nonneg; lia).
  rewrite Z.rem_mul_r by lia. rewrite Z.mul_comm, Z_mod_plus_full. by apply Z.mod_mod; lia.
Qed.

(** The ways an instruction can end. *)
Definition ends (eh : rv64_state_t -> bytes -> rv64_state_t * bytes * Z) (i : rv64_insn_t) (st : rv64_state_t)
    (data : bytes) (o : outcome) : Prop :=
  match o with
  | Next st' data' =>
      legal i = true /\ fp_compute i = false /\ (is_ecall i = false -> confined i st data st' data')
  | Halt rc st' data' =>
      is_ecall i = true /\ eh (set_pc st (wrap 64 (pc st + 4))) data = (st', data', rc) /\ 0 <= rc
  | Fault => legal i = false
  | Double j => j = i /\ fp_compute i = true
  end.

Lemma xget_finish st r : 0 <= r -> xget st 0 = 0 -> nth (Z.to_nat r) (<[0%nat := 0]> (x st)) 0 = xget st r.
Proof.
  unfold xget. intros Hr. destruct (x st) as [|y l]; [done|]. change (nth (Z.to_nat 0) (y :: l) 0) with y. by intros ->.
Qed.

(** An instruction that writes a register and no memory. *)
Lemma writes_confined i st data v p c :
  0 <= rd i -> xget st 0 = 0 -> writes_x i = true -> width i = O ->
  (opcode i <> OP_JAL -> opcode i <> OP_JALR -> p = wrap 64 (pc st + 4)) -> (opcode i <> OP_SYSTEM -> c = fcsr st) ->
  confined i st data (State (<[0%nat := 0]> (x (xset st (rd i) v))) p (insn_count st) (f st) c) data.
Proof.
  intros Hr H0 Hw Hs Hp Hc.
  assert (H0' : xget (xset st (rd i) v) 0 = 0).
  { unfold xset. destruct (Z.eqb_spec (rd i) 0); [done|]. revert H0. unfold xget. cbn [x]. destruct (x st); [done|].
    destruct (Z.to_nat (rd i)) eqn:E; [lia|done]. }
  constructor; cbn [x pc f fcsr insn_count]; try done.
  - intros r Hq [Hn|Hn]; [|congruence]. unfold xget at 1. cbn [x]. rewrite xget_finish by done. by apply xget_xset.
  - rewrite Hs. apply written_none.
Qed.

Lemma finish_xset st r v p data : finish (xset st r v) p data =
  Next (State (<[0%nat := 0]> (x (xset st r v))) p (insn_count st) (f st) (fcsr st)) data.
Proof. unfold finish. by destruct (xset_rest st r v) as (-> & -> & -> & _). Qed.

(** One that writes none. *)
Lemma leaves_confined i st data p data' fs :
  xget st 0 = 0 -> (opcode i <> OP_BRANCH -> p = wrap 64 (pc st + 4)) ->
  (forall r, 0 <= r -> r <> rd i \/ opcode i <> OP_FP_LOAD -> nth (Z.to_nat r) fs 0 = fget st r) ->
  written (width i) (address i st) (stored i st) data data' ->
  confined i st data (State (<[0%nat := 0]> (x st)) p (insn_count st) fs (fcsr st)) data'.
Proof.
  intros H0 Hp Hf Hw. constructor; cbn [x pc f fcsr insn_count]; try done; [|by auto].
  intros r Hq _. unfold xget at 1. cbn [x]. by apply xget_finish.
Qed.

Lemma csr_exec_some i st src :
  match csr_exec i st src with
  | Some st' => existsb (Z.eqb (Z.land (wrap 32 (imm i)) 0xFFF)) [1; 2; 3] = true
      /\ exists v c, st' = set_fcsr (xset st (rd i) v) c
  | None => existsb (Z.eqb (Z.land (wrap 32 (imm i)) 0xFFF)) [1; 2; 3] = false
  end.
Proof.
  unfold csr_exec, csr_read. cbn [existsb].
  destruct (_ =? 1); [by split; [|eexists _, _]|]. destruct (_ =? 2); [by split; [|eexists _, _]|].
  destruct (_ =? 3); [by split; [|eexists _, _]|done].
Qed.

Lemma funct3_cases z : 0 <= z < 8 -> z = 0 \/ z = 1 \/ z = 2 \/ z = 3 \/ z = 4 \/ z = 5 \/ z = 6 \/ z = 7.
Proof. lia. Qed.

(** Decides the tables for an opcode [E]. *)
Ltac by_opcode E := unfold legal, fp_compute, is_ecall, writes_x, width, stored; rewrite E; try reflexivity.

Lemma exec_ends_system eh i st data :
  opcode i = OP_SYSTEM -> 0 <= rd i -> 0 <= funct3 i < 8 -> xget st 0 = 0 ->
  ends eh i st data
    (if (imm i =? 0) && (funct3 i =? 0) then
       let '(st1, data, rc) := eh (set_pc st (wrap 64 (pc st + 4))) data in
       if 0 <=? rc then Halt rc st1 data else finish st1 (pc st1) data
     else if (imm i =? 1) && (funct3 i =? 0) then Fault
     else if in_rng 1 3 (funct3 i) then
       match csr_exec i st (xget st (rs1 i)) with
       | None => Fault | Some st1 => finish st1 (wrap 64 (pc st + 4)) data end
     else if in_rng 5 7 (funct3 i) then
       match csr_exec i st (rs1 i) with
       | None => Fault | Some st1 => finish st1 (wrap 64 (pc st + 4)) data end
     else Fault).
Proof.
  intros E Hr H3 H0. apply funct3_cases in H3.
  assert (Hc : forall src, existsb (Z.eqb (funct3 i)) [1; 2; 3; 5; 6; 7] = true -> (funct3 i =? 0) = false ->
    ends eh i st data
      match csr_exec i st src with None => Fault | Some st1 => finish st1 (wrap 64 (pc st + 4)) data end).
  { intros src H1 H2. pose proof (csr_exec_some i st src) as H. destruct (csr_exec i st src) as [st1|].
    - destruct H as (HC & v & c & ->). split; [by_opcode E; cbn [existsb] in *; by rewrite H1, HC, orb_true_r|].
      split; [by_opcode E|]. intros _. unfold finish, set_fcsr. cbn [x pc f fcsr insn_count].
      destruct (xset_rest st (rd i) v) as (-> & _ & -> & _). apply writes_confined; try done; by_opcode E.
    - cbn [ends]. by_opcode E. cbn [existsb] in *. rewrite H2, H1, H. reflexivity. }
  destruct ((imm i =? 0) && (funct3 i =? 0)) eqn:Ee.
  { apply andb_prop in Ee as [Ei Ef].
    assert (Hec : is_ecall i = true /\ legal i = true) by (split; by_opcode E; cbn; by rewrite Ei, Ef).
    destruct Hec as [Hec Hl]. destruct (eh _ data) as [[st1 d1] rc] eqn:Eh. destruct (Z.leb_spec 0 rc); [done|].
    split; [done|]. split; [by_opcode E|]. congruence. }
  assert (Hf : (funct3 i =? 0) = true \/ funct3 i = 4 -> ends eh i st data Fault).
  { cbn [ends]. intros [Hz|Hz]; by_opcode E; cbn [existsb].
    - rewrite Hz in *. rewrite andb_true_r in Ee. rewrite Ee. apply Z.eqb_eq in Hz. by rewrite Hz.
    - by rewrite Hz. }
  destruct ((imm i =? 1) && (funct3 i =? 0)) eqn:E1; [apply andb_prop in E1 as [_ E1]; auto|].
  destruct H3 as [H3|[H3|[H3|[H3|[H3|[H3|[H3|H3]]]]]]]; rewrite H3 in *;
    (* by the range of [funct3] *)
    lazymatch goal with |- context [in_rng 1 3 ?k] =>
      let v := eval vm_compute in (in_rng 1 3 k) in change (in_rng 1 3 k) with v end;
    lazymatch goal with |- context [in_rng 5 7 ?k] =>
      let v := eval vm_compute in (in_rng 5 7 k) in change (in_rng 5 7 k) with v | _ => idtac end;
    cbv iota; first [by apply Hc|apply Hf; by auto].
Qed.

Lemma exec_ends eh i st data :
  0 <= rd i -> 0 <= funct3 i < 8 -> xget st 0 = 0 -> ends eh i st data (exec eh i st data).
Proof.
  intros Hr Hr3 H0. pose proof (funct3_cases _ Hr3) as H3. unfold exec. cbv zeta.
  assert (Hw : forall v p c, writes_x i = true -> width i = O ->
    (opcode i <> OP_JAL -> opcode i <> OP_JALR -> p = wrap 64 (pc st + 4)) -> (opcode i <> OP_SYSTEM -> c = fcsr st) ->
    legal i = true -> fp_compute i = false ->
    ends eh i st data (Next (State (<[0%nat := 0]> (x (xset st (rd i) v))) p (insn_count st) (f st) c) data)).
  { intros. split; [done|]. split; [done|]. intros _. by apply writes_confined. }
  destruct (Z.eqb_spec (opcode i) OP_LUI) as [E|N1].
  { rewrite finish_xset. apply Hw; try done; by_opcode E. }
  destruct (Z.eqb_spec (opcode i) OP_AUIPC) as [E|N2].
  { rewrite finish_xset. apply Hw; try done; by_opcode E. }
  destruct (Z.eqb_spec (opcode i) OP_JAL) as [E|N3].
  { rewrite finish_xset. apply Hw; try done; by_opcode E. }
  destruct (Z.eqb_spec (opcode i) OP_JALR) as [E|N4].
  { rewrite finish_xset. apply Hw; try done; by_opcode E. }
  destruct (Z.eqb_spec (opcode i) OP_BRANCH) as [E|N5].
  { assert (Hb : forall p, confined i st data (State (<[0%nat := 0]> (x st)) p (insn_count st) (f st) (fcsr st)) data).
    { intros p. apply leaves_confined; [done|done|done|]. by_opcode E. apply written_none. }
    destruct H3 as [H3|[H3|[H3|[H3|[H3|[H3|[H3|H3]]]]]]]; rewrite H3; cbn [branch_taken ends];
      try (split_and!; [by_opcode E; by rewrite H3|by_opcode E|intros _; apply Hb]); by_opcode E; by rewrite H3. }
  destruct (Z.eqb_spec (opcode i) OP_LOAD) as [E|N6].
  { destruct H3 as [H3|[H3|[H3|[H3|[H3|[H3|[H3|H3]]]]]]]; rewrite H3; cbn [load ends]; rewrite ?finish_xset;
      try (apply Hw; try done; by_opcode E; by rewrite H3); by_opcode E; by rewrite H3. }
  destruct (Z.eqb_spec (opcode i) OP_STORE) as [E|N7].
  { pose proof (wrap_range 64 (xget st (rs1 i) + wrap 64 (imm i)) ltac:(lia)) as Ha. unfold in_u in Ha.
    assert (Hm : forall n w v, width i = n -> stored i st = v -> 8 * Z.of_nat n <= w -> legal i = true ->
      ends eh i st data (finish st (wrap 64 (pc st + 4))
        (mem_write n data (wrap 64 (xget st (rs1 i) + wrap 64 (imm i))) (wrap w v)))).
    { intros n w v <- <- Hn Hl. split; [done|]. split; [by_opcode E|]. intros _.
      apply leaves_confined; [done|done|done|]. eapply written_low; [exact Hn|]. apply mem_write_written. lia. }
    assert (Hs : stored i st = xget st (rs2 i)) by (by by_opcode E).
    destruct H3 as [H3|[H3|[H3|[H3|[H3|[H3|[H3|H3]]]]]]]; rewrite H3; cbn [store];
      try (apply Hm; [by_opcode E; by rewrite H3|done|lia|by_opcode E; by rewrite H3]);
      try (cbn [ends]; by_opcode E; by rewrite H3).
    split; [by_opcode E; by rewrite H3|]. split; [by_opcode E|]. intros _. apply leaves_confined; [done|done|done|].
    replace (width i) with 8%nat by (by_opcode E; by rewrite H3). rewrite Hs. apply mem_write_written. lia. }
  destruct (Z.eqb_spec (opcode i) OP_IMM) as [E|N8].
  { rewrite finish_xset. apply Hw; try done; by_opcode E. }
  destruct (Z.eqb_spec (opcode i) OP_REG) as [E|N9].
  { rewrite finish_xset. apply Hw; try done; by_opcode E. }
  destruct (Z.eqb_spec (opcode i) OP_IMM32) as [E|N10].
  { unfold alu_imm32. destruct H3 as [H3|[H3|[H3|[H3|[H3|[H3|[H3|H3]]]]]]]; rewrite H3; cbn [ends]; rewrite ?finish_xset;
      try (apply Hw; try done; by_opcode E; by rewrite H3); by_opcode E; by rewrite H3. }
  destruct (Z.eqb_spec (opcode i) OP_REG32) as [E|N11].
  { unfold alu_reg32. destruct (funct7 i =? 1) eqn:E7;
      destruct H3 as [H3|[H3|[H3|[H3|[H3|[H3|[H3|H3]]]]]]]; rewrite H3; cbn [ends]; rewrite ?finish_xset;
      try (apply Hw; try done; by_opcode E; by rewrite E7, H3); by_opcode E; by rewrite E7, H3. }
  destruct (Z.eqb_spec (opcode i) OP_FENCE) as [E|N12].
  { split; [by_opcode E|]. split; [by_opcode E|]. intros _. apply leaves_confined; [done|done|done|].
    by_opcode E. apply written_none. }
  destruct (Z.eqb_spec (opcode i) OP_SYSTEM) as [E|N13]; [by apply exec_ends_system|].
  destruct (Z.eqb_spec (opcode i) OP_FP_LOAD) as [E|N14].
  { destruct (Z.eqb_spec (funct3 i) 3) as [E3|N]; [|cbn [ends]; by_opcode E; cbn; by rewrite (proj2 (Z.eqb_neq _ _) N)].
    split; [by_opcode E; by rewrite E3|]. split; [by_opcode E|]. intros _. unfold finish, fset. cbn [x pc f fcsr insn_count].
    apply leaves_confined; [done|done| |].
    - intros r Hq [Hn|Hn]; [by apply (fget_fset st)|done].
    - by_opcode E. apply written_none. }
  destruct (Z.eqb_spec (opcode i) OP_FP_STORE) as [E|N15].
  { destruct (Z.eqb_spec (funct3 i) 3) as [E3|N]; [|cbn [ends]; by_opcode E; cbn; by rewrite (proj2 (Z.eqb_neq _ _) N)].
    split; [by_opcode E; by rewrite E3|]. split; [by_opcode E|]. intros _. apply leaves_confined; [done|done|done|].
    by_opcode E. apply mem_write_written. apply wrap_range. lia. }
  destruct (_ || _) eqn:EF.
  - split; [done|]. unfold fp_compute. cbn [existsb]. rewrite orb_false_r. rewrite <- !orb_assoc in EF. exact EF.
  - cbn [ends]. rewrite !orb_false_iff in EF. destruct EF as [[[[F1 F2] F3] F4] F5]. unfold legal. cbn [existsb].
    apply Z.eqb_neq in N1, N2, N3, N4, N5, N6, N7, N8, N9, N10, N11, N12, N13, N14, N15.
    by rewrite F1, F2, F3, F4, F5, N1, N2, N3, N4, N5, N6, N7, N8, N9, N10, N11, N12, N13, N14, N15.
Qed.

(** [state->insn_count++] *)
Definition count_insn (st : rv64_state_t) : rv64_state_t :=
  State (x st) (pc st) (wrap 64 (insn_count st + 1)) (f st) (fcsr st).

Lemma decode_funct3 word : 0 <= funct3 (rv64_decode word) < 8.
Proof.
  unfold rv64_decode. cbn [funct3]. rewrite (land_ones_mod _ 3) by (lia || reflexivity).
  apply Z.mod_pos_bound. lia.
Qed.


(** The system call that stops the machine. *)
Definition exit_handler (st : rv64_state_t) (data : bytes) : rv64_state_t * bytes * Z :=
  (st, data, 0).

(** [ADDI x5, x0, 7; SD x5, 24(x0); ECALL]. *)
Definition demo_code : bytes :=
  split_le 4 0x00700293 ++ split_le 4 0x00503C23 ++ split_le 4 0x00000073 ++ repeat 0 20.

Definition state0 : rv64_state_t := State (repeat 0 32) 0 0 (repeat 0 32) 0.

Lemma state0_ok : state_ok state0.
Proof.
  assert (Forall (in_u 64) (repeat 0 32)) by (apply List.Forall_forall; intros z Hz;
    apply repeat_spec in Hz as ->; by apply in_u_0).
  constructor; try done; by apply in_u_0.
Qed.

