(* ===== verification/RvEnc.v ===== *)
(** * The instruction encoders of the JIT's code generator

    The encoders at the top of [src/mux/modules/engine/hir_codegen.cpp] against the decoder
    of [dbt_decoder.h] ([RvIsa]), and the range checks of pc-relative offsets.  Registers and
    [funct] fields are the [uint8_t] arguments; [uint32_t] values are [Z] below [2^32]. *)

From S2P Require Import Prelude Machine RvIsa.

Definition BR_BEQ : Z := 0.
Definition BR_BNE : Z := 1.
Definition BR_BGE : Z := 5.
Definition BR_BGEU : Z := 7.
Definition LD_LD : Z := 3.
Definition LD_LBU : Z := 4.
Definition ST_SB : Z := 0.
Definition ST_SD : Z := 3.
Definition ALU_ADDI : Z := 0.
Definition ALU_SLLI : Z := 1.
Definition ALU_SRLI : Z := 5.
Definition ALU_ADD : Z := 0.
Definition ALU_SLL : Z := 1.
Definition ALU_SLT : Z := 2.
Definition ALU_XOR : Z := 4.
Definition ALU_SRL : Z := 5.
Definition ALU_OR : Z := 6.
Definition ALU_AND : Z := 7.

Infix "<<" := Z.shiftl (at level 34, left associativity) : Z_scope.
Infix ">>" := Z.shiftr (at level 34, left associativity) : Z_scope.
Infix "||b" := Z.lor (at level 52, left associativity) : Z_scope.
Infix "&b" := Z.land (at level 45, left associativity) : Z_scope.

Definition rv_i_type (opcode rd funct3 rs1 imm : Z) : Z :=
  opcode ||b (rd << 7) ||b (funct3 << 12) ||b (rs1 << 15) ||b
  wrap 32 ((wrap 32 imm &b 0xFFF) << 20).

Definition rv_u_type (opcode rd imm : Z) : Z :=
  opcode ||b (rd << 7) ||b (wrap 32 imm &b 0xFFFFF000).

Definition rv_ADDI (rd rs1 imm : Z) : Z := rv_i_type OP_IMM rd ALU_ADDI rs1 imm.
Definition rv_LUI (rd imm : Z) : Z := rv_u_type OP_LUI rd imm.
Definition rv_SLLI (rd rs1 shamt : Z) : Z := rv_i_type OP_IMM rd ALU_SLLI rs1 shamt.
Definition rv_SRLI (rd rs1 shamt : Z) : Z := rv_i_type OP_IMM rd ALU_SRLI rs1 shamt.
Definition rv_ECALL : Z := rv_i_type OP_SYSTEM 0 0 0 0.

Definition rv_r_type (opcode rd funct3 rs1 rs2 funct7 : Z) : Z :=
  opcode ||b (rd << 7) ||b (funct3 << 12) ||b (rs1 << 15) ||b (rs2 << 20) ||b
  wrap 32 (wrap 32 funct7 << 25).
Definition rv_ADD (rd rs1 rs2 : Z) : Z := rv_r_type OP_REG rd ALU_ADD rs1 rs2 0x00.
Definition rv_SUB (rd rs1 rs2 : Z) : Z := rv_r_type OP_REG rd ALU_ADD rs1 rs2 0x20.

Definition rv_b_type (funct3 rs1 rs2 imm : Z) : Z :=
  let u := wrap 32 imm in
  OP_BRANCH ||b (((u >> 11) &b 1) << 7) ||b (((u >> 1) &b 0xF) << 8)
  ||b (wrap 32 funct3 << 12) ||b (wrap 32 rs1 << 15) ||b (wrap 32 rs2 << 20)
  ||b (((u >> 5) &b 0x3F) << 25) ||b (((u >> 12) &b 1) << 31).
Definition rv_BEQ (rs1 rs2 off : Z) : Z := rv_b_type BR_BEQ rs1 rs2 off.
Definition rv_BNE (rs1 rs2 off : Z) : Z := rv_b_type BR_BNE rs1 rs2 off.
Definition rv_BGE (rs1 rs2 off : Z) : Z := rv_b_type BR_BGE rs1 rs2 off.
Definition rv_BGEU (rs1 rs2 off : Z) : Z := rv_b_type BR_BGEU rs1 rs2 off.

Definition rv_SB (base src off : Z) : Z :=
  let u := wrap 32 off in
  OP_STORE ||b ((u &b 0x1F) << 7) ||b (wrap 32 ST_SB << 12) ||b (wrap 32 base << 15)
  ||b (wrap 32 src << 20) ||b (((u >> 5) &b 0x7F) << 25).

Definition rv_LBU (rd base off : Z) : Z := rv_i_type OP_LOAD rd LD_LBU base off.

Definition rv_SD (base src off : Z) : Z :=
  let u := wrap 32 off in
  OP_STORE ||b ((u &b 0x1F) << 7) ||b (wrap 32 ST_SD << 12) ||b (wrap 32 base << 15)
  ||b (wrap 32 src << 20) ||b (((u >> 5) &b 0x7F) << 25).

Definition rv_LD (rd base off : Z) : Z := rv_i_type OP_LOAD rd LD_LD base off.

Definition rv_JAL (rd imm : Z) : Z :=
  let u := wrap 32 imm in
  OP_JAL ||b (wrap 32 rd << 7) ||b (((u >> 12) &b 0xFF) << 12) ||b (((u >> 11) &b 1) << 20)
  ||b (((u >> 1) &b 0x3FF) << 21) ||b (((u >> 20) &b 1) << 31).

Definition rv_jal_offset_ok (off : Z) : bool := (- (1 << 20) <=? off) && (off <=? (1 << 20) - 2).
Definition rv_branch_offset_ok (off : Z) : bool := (- (1 << 12) <=? off) && (off <=? (1 << 12) - 2).

(** The fields of [rv_compiler] that [rv_push_jal] uses. *)
Record rv_compiler := RvCompiler { code : list Z; out_exhausted : bool }.

Definition rv_push_jal (rc : rv_compiler) (rd off : Z) : rv_compiler :=
  let rc := if negb (rv_jal_offset_ok off) then RvCompiler (code rc) true else rc in
  RvCompiler (code rc ++ [rv_JAL rd off]) (out_exhausted rc).

Definition rv_MUL (rd rs1 rs2 : Z) : Z := rv_r_type OP_REG rd 0 rs1 rs2 0x01.
Definition rv_DIV (rd rs1 rs2 : Z) : Z := rv_r_type OP_REG rd 4 rs1 rs2 0x01.
Definition rv_REM (rd rs1 rs2 : Z) : Z := rv_r_type OP_REG rd 6 rs1 rs2 0x01.
Definition rv_AND (rd rs1 rs2 : Z) : Z := rv_r_type OP_REG rd ALU_AND rs1 rs2 0x00.
Definition rv_OR (rd rs1 rs2 : Z) : Z := rv_r_type OP_REG rd ALU_OR rs1 rs2 0x00.
Definition rv_XOR (rd rs1 rs2 : Z) : Z := rv_r_type OP_REG rd ALU_XOR rs1 rs2 0x00.
Definition rv_SLT (rd rs1 rs2 : Z) : Z := rv_r_type OP_REG rd ALU_SLT rs1 rs2 0x00.
Definition rv_SLL (rd rs1 rs2 : Z) : Z := rv_r_type OP_REG rd ALU_SLL rs1 rs2 0x00.
Definition rv_SRL (rd rs1 rs2 : Z) : Z := rv_r_type OP_REG rd ALU_SRL rs1 rs2 0x00.

(** The double-precision encoders. *)
Definition rv_FADD_D (fd fs1 fs2 : Z) : Z := rv_r_type OP_FP fd 7 fs1 fs2 0x01.
Definition rv_FSUB_D (fd fs1 fs2 : Z) : Z := rv_r_type OP_FP fd 7 fs1 fs2 0x05.
Definition rv_FMUL_D (fd fs1 fs2 : Z) : Z := rv_r_type OP_FP fd 7 fs1 fs2 0x09.
Definition rv_FDIV_D (fd fs1 fs2 : Z) : Z := rv_r_type OP_FP fd 7 fs1 fs2 0x0D.
Definition rv_FSQRT_D (fd fs1 : Z) : Z := rv_r_type OP_FP fd 7 fs1 0 0x2D.
Definition rv_FSGNJN_D (fd fs1 fs2 : Z) : Z := rv_r_type OP_FP fd 1 fs1 fs2 0x11.
Definition rv_FNEG_D (fd fs : Z) : Z := rv_FSGNJN_D fd fs fs.
Definition rv_FCVT_D_L (fd rs1 : Z) : Z := rv_r_type OP_FP fd 7 rs1 2 0x69.
Definition rv_FCVT_L_D (rd fs1 : Z) : Z := rv_r_type OP_FP rd 1 fs1 2 0x61.
Definition rv_FMV_X_D (rd fs1 : Z) : Z := rv_r_type OP_FP rd 0 fs1 0 0x71.
Definition rv_FMV_D_X (fd rs1 : Z) : Z := rv_r_type OP_FP fd 0 rs1 0 0x79.
Definition rv_FEQ_D (rd fs1 fs2 : Z) : Z := rv_r_type OP_FP rd 2 fs1 fs2 0x51.
Definition rv_FLT_D (rd fs1 fs2 : Z) : Z := rv_r_type OP_FP rd 1 fs1 fs2 0x51.
Definition rv_FLE_D (rd fs1 fs2 : Z) : Z := rv_r_type OP_FP rd 0 fs1 fs2 0x51.
Definition rv_FLD (fd base off : Z) : Z := rv_i_type OP_FP_LOAD fd 3 base off.
Definition rv_FSD (base fs off : Z) : Z :=
  OP_FP_STORE ||b wrap 32 ((off &b 0x1F) << 7) ||b (3 << 12) ||b (base << 15) ||b (fs << 20)
  ||b wrap 32 (((off >> 5) &b 0x7F) << 25).

(** ** Fields of a word written as a sum *)

Ltac masks :=
  rewrite ?(land_ones_mod _ 12 0xFFF), ?(land_ones_mod _ 10 0x3FF), ?(land_ones_mod _ 8 0xFF),
    ?(land_ones_mod _ 7 0x7F), ?(land_ones_mod _ 6 0x3F), ?(land_ones_mod _ 5 0x1F),
    ?(land_ones_mod _ 4 0xF), ?(land_ones_mod _ 3 0x07), ?(land_ones_mod _ 1 1)
    by (lia || reflexivity).

(** From the innermost [lor] outwards. *)
Ltac lor_sums :=
  match goal with |- context [?op ||b (?d << 7)] => rewrite (lor_shift op) by lia end;
  repeat (rewrite (lor_shift (_ + _)) by lia).

Definition reg (r : Z) : Prop := 0 <= r < 32.

Lemma i_type_sum op d f3 s i :
  0 <= op < 128 -> reg d -> 0 <= f3 < 8 -> reg s ->
  rv_i_type op d f3 s i = op + d * 2 ^ 7 + f3 * 2 ^ 12 + s * 2 ^ 15 + i mod 2 ^ 12 * 2 ^ 20.
Proof.
  unfold reg. intros. unfold rv_i_type. masks. unfold wrap at 2.
  rewrite Z.mod_mod_divide by (lia || (exists (2 ^ 20); lia)).
  pose proof (Z.mod_pos_bound i (2 ^ 12)).
  rewrite wrap_small by (unfold in_u; rewrite Z.shiftl_mul_pow2 by lia; lia).
  lor_sums. reflexivity.
Qed.

Lemma r_type_sum op d f3 s t f7 :
  0 <= op < 128 -> reg d -> 0 <= f3 < 8 -> reg s -> reg t -> 0 <= f7 < 128 ->
  rv_r_type op d f3 s t f7 =
    op + d * 2 ^ 7 + f3 * 2 ^ 12 + s * 2 ^ 15 + t * 2 ^ 20 + f7 * 2 ^ 25.
Proof.
  unfold reg. intros. unfold rv_r_type.
  rewrite !wrap_small by (unfold in_u; rewrite ?Z.shiftl_mul_pow2, ?wrap_small by (unfold in_u; lia); lia).
  lor_sums. reflexivity.
Qed.

(** A field that starts at bit [n]. *)
Lemma field lo v n : 0 <= n -> 0 <= lo < 2 ^ n -> (lo + v * 2 ^ n) >> n = v.
Proof.
  intros Hn H. rewrite Z.shiftr_div_pow2 by done.
  rewrite Z.div_add by lia. rewrite Z.div_small; lia.
Qed.

Lemma sgn_pos w z : 0 < w -> 0 <= z < 2 ^ w -> sgn w z = if z <? 2 ^ (w - 1) then z else z - 2 ^ w.
Proof. intros. unfold sgn. by rewrite wrap_small. Qed.

(** The arithmetic shift that extracts a signed [k]-bit field at the top of a word. *)
Lemma sra_field lo v : 0 <= lo < 2 ^ 20 -> sgn 32 (lo + v mod 2 ^ 12 * 2 ^ 20) >> 20 = sgn 12 v.
Proof.
  intros H. pose proof (Z.mod_pos_bound v (2 ^ 12)). rewrite <- (sgn_wrap 12 v). unfold wrap.
  rewrite !sgn_pos by lia. rewrite Z.shiftr_div_pow2 by lia.
  case_match; case_match; Z.div_mod_to_equations; lia.
Qed.

(** *** I-type *)
Lemma decode_i op d f3 s i :
  0 <= op < 128 -> reg d -> 0 <= f3 < 8 -> reg s ->
  let w := rv_i_type op d f3 s i in
  opcode (rv64_decode w) = op /\ rd (rv64_decode w) = d /\ funct3 (rv64_decode w) = f3 /\
  rs1 (rv64_decode w) = s /\ funct7 (rv64_decode w) = i mod 2 ^ 12 / 2 ^ 5.
Proof.
  intros Ho Hd Hf Hs. cbv zeta. rewrite i_type_sum by done. unfold reg in *.
  pose proof (Z.mod_pos_bound i (2 ^ 12)).
  cbn [rv64_decode opcode rd funct3 rs1 funct7]. masks. rewrite !Z.shiftr_div_pow2 by lia.
  split_and!; Z.div_mod_to_equations; lia.
Qed.

Lemma imm_i op d f3 s i :
  op ∈ [OP_IMM; OP_LOAD; OP_JALR; OP_IMM32; OP_SYSTEM; OP_FP_LOAD] ->
  reg d -> 0 <= f3 < 8 -> reg s -> in_s 12 i -> imm (rv64_decode (rv_i_type op d f3 s i)) = i.
Proof.
  intros Hop Hd Hf Hs Hi.
  assert (0 <= op < 128) as Ho by (repeat (apply elem_of_cons in Hop as [->|Hop]; [done|]); by apply elem_of_nil in Hop).
  destruct (decode_i op d f3 s i Ho Hd Hf Hs) as [E _]. unfold rv64_decode in *. cbn [imm opcode] in *.
  rewrite E. transitivity (sgn 32 (rv_i_type op d f3 s i) >> 20).
  { repeat (apply elem_of_cons in Hop as [->|Hop]; [reflexivity|]). by apply elem_of_nil in Hop. }
  unfold reg in *. rewrite i_type_sum, sra_field by (done || lia). by apply sgn_small.
Qed.

(** *** R-type *)
Lemma decode_r op d f3 s t f7 :
  0 <= op < 128 -> reg d -> 0 <= f3 < 8 -> reg s -> reg t -> 0 <= f7 < 128 ->
  let i := rv64_decode (rv_r_type op d f3 s t f7) in
  opcode i = op /\ rd i = d /\ funct3 i = f3 /\ rs1 i = s /\ rs2 i = t /\ funct7 i = f7.
Proof.
  intros Ho Hd Hf Hs Ht H7. cbv zeta. rewrite r_type_sum by done. unfold reg in *.
  cbn [rv64_decode opcode rd funct3 rs1 rs2 funct7]. masks. rewrite !Z.shiftr_div_pow2 by lia.
  split_and!; Z.div_mod_to_equations; lia.
Qed.

(** *** Pieces of an immediate *)
Lemma wrap_field n k v : 0 <= n -> 0 <= k -> n + k <= 32 ->
  (wrap 32 v >> n) &b Z.ones k = v / 2 ^ n mod 2 ^ k.
Proof.
  intros Hn Hk H. rewrite Z.land_ones by done. unfold wrap. rewrite <- Z.shiftr_div_pow2 by done.
  apply Z.bits_inj'. intros i Hi. destruct (Z.lt_ge_cases i k).
  - rewrite !Z.mod_pow2_bits_low, !Z.shiftr_spec, Z.mod_pow2_bits_low by lia. done.
  - rewrite !Z.mod_pow2_bits_high by lia. done.
Qed.

Lemma wrap_field_at n k m v :
  0 <= n -> 0 <= k -> n + k <= 32 -> m = Z.ones k -> (wrap 32 v >> n) &b m = v / 2 ^ n mod 2 ^ k.
Proof. intros ? ? ? ->. by apply wrap_field. Qed.

Lemma land_mask_at x n k m :
  0 <= n -> 0 <= k -> m = Z.ones k << n -> x &b m = x / 2 ^ n mod 2 ^ k * 2 ^ n.
Proof. intros Hn Hk ->. by apply land_mask. Qed.

Ltac bound_mods :=
  repeat match goal with
  | |- context [?a mod 2 ^ ?k] =>
      lazymatch goal with
      | _ : 0 <= a mod 2 ^ k < 2 ^ k |- _ => fail
      | _ => pose proof (Z.mod_pos_bound a (2 ^ k) ltac:(lia))
      end
  end.

(** The sign bits of an immediate. *)
Ltac lor_sign n :=
  match goal with
  | |- context [(if ?b then ?p else ?q) ||b ?y] =>
      rewrite (lor_add (if b then p else q) y n) by (bound_mods; try lia; case_match; reflexivity)
  end.

(** *** S-type *)
Definition s_sum op f3 s t i :=
  op + i mod 2 ^ 5 * 2 ^ 7 + f3 * 2 ^ 12 + s * 2 ^ 15 + t * 2 ^ 20 + i / 2 ^ 5 mod 2 ^ 7 * 2 ^ 25.

Lemma wrap_land_5 v : wrap 32 v &b 0x1F = v mod 2 ^ 5.
Proof. pose proof (wrap_field 0 5 v) as H. rewrite Z.shiftr_0_r, Z.div_1_r in H. by apply H. Qed.

Lemma s_type_sum f3 s t i :
  reg s -> reg t -> 0 <= f3 < 8 ->
  OP_STORE ||b ((wrap 32 i &b 0x1F) << 7) ||b (wrap 32 f3 << 12) ||b (wrap 32 s << 15)
    ||b (wrap 32 t << 20) ||b (((wrap 32 i >> 5) &b 0x7F) << 25) = s_sum OP_STORE f3 s t i.
Proof.
  unfold reg. intros. rewrite wrap_land_5. rewrite (wrap_field_at 5 7 0x7F) by (lia || reflexivity).
  rewrite !wrap_small by (unfold in_u; lia). unfold s_sum, OP_STORE. bound_mods.
  lor_sums. reflexivity.
Qed.

Lemma decode_s f3 s t i :
  reg s -> reg t -> 0 <= f3 < 8 -> in_s 12 i ->
  let d := rv64_decode (s_sum OP_STORE f3 s t i) in
  opcode d = OP_STORE /\ funct3 d = f3 /\ rs1 d = s /\ rs2 d = t /\ imm d = i.
Proof.
  unfold reg, in_s, smin, smax. intros Hs Ht Hf Hi. cbv zeta.
  assert (0 <= s_sum OP_STORE f3 s t i < 2 ^ 32) as Hw by (unfold s_sum, OP_STORE; bound_mods; lia).
  assert (opcode (rv64_decode (s_sum OP_STORE f3 s t i)) = OP_STORE) as Eo.
  { cbn [rv64_decode opcode]. masks. unfold s_sum, OP_STORE. Z.div_mod_to_equations; lia. }
  split; [done|]. unfold rv64_decode in *. cbn [opcode funct3 rs1 rs2 imm] in *. rewrite Eo.
  change (decode_imm OP_STORE ?w) with
    (sgn 32 ((if w >> 31 =? 0 then 0 else 0xFFFFF000) ||b ((w >> 20) &b 0xFE0) ||b ((w >> 7) &b 0x1F))).
  masks. rewrite (land_mask_at _ 5 7) by (lia || reflexivity). rewrite !Z.shiftr_div_pow2 by lia.
  set (w := s_sum OP_STORE f3 s t i) in *.
  assert (w / 2 ^ 12 mod 2 ^ 3 = f3 /\ w / 2 ^ 15 mod 2 ^ 5 = s /\ w / 2 ^ 20 mod 2 ^ 5 = t /\
          w / 2 ^ 7 mod 2 ^ 5 = i mod 2 ^ 5 /\ w / 2 ^ 20 / 2 ^ 5 mod 2 ^ 7 = i / 2 ^ 5 mod 2 ^ 7 /\
          w / 2 ^ 31 = i / 2 ^ 11 mod 2) as (-> & -> & -> & -> & -> & ->)
    by (unfold w, s_sum, OP_STORE; split_and!; Z.div_mod_to_equations; lia).
  split_and!; try done.
  lor_sign 12. rewrite (lor_add (_ + _) _ 5) by (bound_mods; try lia; case_match; Z.div_mod_to_equations; lia).
  transitivity (sgn 32 i); [|apply sgn_small; [lia|unfold in_s, smin, smax; lia]].
  apply wrap_eq_sgn. unfold wrap. case_match; Z.div_mod_to_equations; lia.
Qed.

(** *** B-type *)
Definition b_sum f3 s t i :=
  OP_BRANCH + i / 2 ^ 11 mod 2 ^ 1 * 2 ^ 7 + i / 2 ^ 1 mod 2 ^ 4 * 2 ^ 8 + f3 * 2 ^ 12 + s * 2 ^ 15 +
  t * 2 ^ 20 + i / 2 ^ 5 mod 2 ^ 6 * 2 ^ 25 + i / 2 ^ 12 mod 2 ^ 1 * 2 ^ 31.

Lemma b_type_sum f3 s t i :
  reg s -> reg t -> 0 <= f3 < 8 -> rv_b_type f3 s t i = b_sum f3 s t i.
Proof.
  unfold reg. intros. unfold rv_b_type. cbv zeta. 
  rewrite (wrap_field_at 11 1 1), (wrap_field_at 12 1 1), (wrap_field_at 1 4 0xF),
    (wrap_field_at 5 6 0x3F) by (lia || reflexivity).
  rewrite !wrap_small by (unfold in_u; lia). unfold b_sum, OP_BRANCH. bound_mods.
  lor_sums. reflexivity.
Qed.

Lemma decode_b f3 s t i :
  reg s -> reg t -> 0 <= f3 < 8 ->
  let d := rv64_decode (rv_b_type f3 s t i) in
  opcode d = OP_BRANCH /\ funct3 d = f3 /\ rs1 d = s /\ rs2 d = t /\ imm d = sgn 13 (i - i mod 2).
Proof.
  intros Hs Ht Hf. rewrite b_type_sum by done. unfold reg in *. cbv zeta.
  assert (0 <= b_sum f3 s t i < 2 ^ 32) as Hw by (unfold b_sum, OP_BRANCH; bound_mods; lia).
  assert (opcode (rv64_decode (b_sum f3 s t i)) = OP_BRANCH) as Eo.
  { cbn [rv64_decode opcode]. masks. unfold b_sum, OP_BRANCH. Z.div_mod_to_equations; lia. }
  split; [done|]. unfold rv64_decode in *. cbn [opcode funct3 rs1 rs2 imm] in *. rewrite Eo.
  change (decode_imm OP_BRANCH ?w) with
    (sgn 32 ((if w >> 31 =? 0 then 0 else 0xFFFFF000) ||b (wrap 32 (w << 4) &b 0x800)
             ||b ((w >> 20) &b 0x7E0) ||b ((w >> 7) &b 0x1E))).
  masks. rewrite (land_mask_at _ 11 1 0x800), (land_mask_at _ 5 6 0x7E0), (land_mask_at _ 1 4 0x1E)
    by (lia || reflexivity).
  rewrite Z.shiftl_mul_pow2, !Z.shiftr_div_pow2 by lia. unfold wrap.
  set (w := b_sum f3 s t i) in *.
  assert (w / 2 ^ 12 mod 2 ^ 3 = f3 /\ w / 2 ^ 15 mod 2 ^ 5 = s /\ w / 2 ^ 20 mod 2 ^ 5 = t)
    as (-> & -> & ->) by (unfold w, b_sum, OP_BRANCH; split_and!; Z.div_mod_to_equations; lia).
  assert (w / 2 ^ 20 / 2 ^ 5 mod 2 ^ 6 = i / 2 ^ 5 mod 2 ^ 6 /\
          w / 2 ^ 7 / 2 ^ 1 mod 2 ^ 4 = i / 2 ^ 1 mod 2 ^ 4 /\ w / 2 ^ 31 = i / 2 ^ 12 mod 2 ^ 1 /\
          (w * 2 ^ 4) mod 2 ^ 32 / 2 ^ 11 mod 2 ^ 1 = i / 2 ^ 11 mod 2 ^ 1) as (-> & -> & -> & ->)
    by (unfold w, b_sum, OP_BRANCH; split_and!; Z.div_mod_to_equations; lia).
  split_and!; try done. lor_sign 12.
  rewrite (lor_add (_ + _) _ 11) by (bound_mods; try lia; case_match; Z.div_mod_to_equations; lia).
  rewrite (lor_add (_ + _) _ 5) by (bound_mods; try lia; case_match; Z.div_mod_to_equations; lia).
  rewrite <- (sgn_wrap 13 (i - _)), (sgn_pos 13) by (lia || (apply wrap_range; lia)).
  match goal with |- sgn 32 ?v = ?r => transitivity (sgn 32 r); [apply wrap_eq_sgn|] end.
  - unfold wrap. repeat case_match; Z.div_mod_to_equations; lia.
  - apply sgn_small; [lia|]. unfold in_s, smin, smax, wrap. bound_mods. case_match; lia.
Qed.

(** *** J-type *)
Definition j_sum d i :=
  OP_JAL + d * 2 ^ 7 + i / 2 ^ 12 mod 2 ^ 8 * 2 ^ 12 + i / 2 ^ 11 mod 2 ^ 1 * 2 ^ 20 +
  i / 2 ^ 1 mod 2 ^ 10 * 2 ^ 21 + i / 2 ^ 20 mod 2 ^ 1 * 2 ^ 31.

Lemma j_type_sum d i : reg d -> rv_JAL d i = j_sum d i.
Proof.
  unfold reg. intros. unfold rv_JAL. cbv zeta.
  rewrite (wrap_field_at 11 1 1), (wrap_field_at 20 1 1), (wrap_field_at 1 10 0x3FF),
    (wrap_field_at 12 8 0xFF) by (lia || reflexivity).
  rewrite !wrap_small by (unfold in_u; lia). unfold j_sum, OP_JAL. bound_mods.
  lor_sums. reflexivity.
Qed.

Lemma decode_j r i :
  reg r ->
  let d := rv64_decode (rv_JAL r i) in
  opcode d = OP_JAL /\ rd d = r /\ imm d = sgn 21 (i - i mod 2).
Proof.
  intros Hr. rewrite j_type_sum by done. unfold reg in *. cbv zeta.
  assert (0 <= j_sum r i < 2 ^ 32) as Hw by (unfold j_sum, OP_JAL; bound_mods; lia).
  assert (opcode (rv64_decode (j_sum r i)) = OP_JAL) as Eo.
  { cbn [rv64_decode opcode]. masks. unfold j_sum, OP_JAL. Z.div_mod_to_equations; lia. }
  split; [done|]. unfold rv64_decode in *. cbn [opcode rd imm] in *. rewrite Eo.
  change (decode_imm OP_JAL ?w) with
    (sgn 32 ((if w >> 31 =? 0 then 0 else 0xFFF00000) ||b (w &b 0x000FF000)
             ||b ((w >> 9) &b 0x800) ||b ((w >> 20) &b 0x7FE))).
  masks. rewrite (land_mask_at _ 12 8 0x000FF000), (land_mask_at _ 11 1 0x800),
    (land_mask_at _ 1 10 0x7FE) by (lia || reflexivity).
  rewrite !Z.shiftr_div_pow2 by lia. unfold wrap.
  set (w := j_sum r i) in *.
  assert (w / 2 ^ 7 mod 2 ^ 5 = r /\ w / 2 ^ 12 mod 2 ^ 8 = i / 2 ^ 12 mod 2 ^ 8 /\
          w / 2 ^ 9 / 2 ^ 11 mod 2 ^ 1 = i / 2 ^ 11 mod 2 ^ 1 /\
          w / 2 ^ 20 / 2 ^ 1 mod 2 ^ 10 = i / 2 ^ 1 mod 2 ^ 10 /\
          w / 2 ^ 31 = i / 2 ^ 20 mod 2 ^ 1) as (-> & -> & -> & -> & ->)
    by (unfold w, j_sum, OP_JAL; split_and!; Z.div_mod_to_equations; lia).
  split; [done|]. lor_sign 20.
  rewrite (lor_add (_ + _) _ 12) by (bound_mods; try lia; case_match; Z.div_mod_to_equations; lia).
  rewrite (lor_add (_ + _) _ 11) by (bound_mods; try lia; case_match; Z.div_mod_to_equations; lia).
  rewrite <- (sgn_wrap 21 (i - _)), (sgn_pos 21) by (lia || (apply wrap_range; lia)).
  match goal with |- sgn 32 ?v = ?r => transitivity (sgn 32 r); [apply wrap_eq_sgn|] end.
  - unfold wrap. repeat case_match; Z.div_mod_to_equations; lia.
  - apply sgn_small; [lia|]. unfold in_s, smin, smax, wrap. bound_mods. case_match; lia.
Qed.

(** *** U-type *)
Lemma decode_lui r v :
  reg r ->
  let d := rv64_decode (rv_LUI r v) in
  opcode d = OP_LUI /\ rd d = r /\ imm d = sgn 32 (v - v mod 2 ^ 12).
Proof.
  unfold reg. intros Hr. cbv zeta. unfold rv_LUI, rv_u_type.
  rewrite (land_mask_at _ 12 20) by (lia || reflexivity).
  assert (wrap 32 v / 2 ^ 12 mod 2 ^ 20 * 2 ^ 12 = wrap 32 (v - v mod 2 ^ 12)) as ->
    by (unfold wrap; Z.div_mod_to_equations; lia).
  assert (wrap 32 (v - v mod 2 ^ 12) = wrap 32 (v - v mod 2 ^ 12) / 2 ^ 12 * 2 ^ 12) as E
    by (unfold wrap; Z.div_mod_to_equations; lia).
  pose proof (wrap_range 32 (v - v mod 2 ^ 12) ltac:(lia)) as R. unfold in_u in R.
  set (h := wrap 32 (v - v mod 2 ^ 12)) in *. change OP_LUI with 55.
  rewrite lor_shift, Z.lor_comm, (lor_add _ _ 12) by (try lia; rewrite E; Z.div_mod_to_equations; lia).
  assert ((h + (55 + r * 2 ^ 7)) mod 2 ^ 7 = 55) as Eo by (rewrite E; Z.div_mod_to_equations; lia).
  cbn [rv64_decode opcode rd imm]. masks. rewrite Eo. split_and!.
  - done.
  - rewrite Z.shiftr_div_pow2 by lia. rewrite E. Z.div_mod_to_equations; lia.
  - change (decode_imm 55 ?w) with (sgn 32 (w &b 0xFFFFF000)).
    rewrite (land_mask_at _ 12 20) by (lia || reflexivity).
    rewrite <- (sgn_wrap 32 (v - _)). fold h. f_equal. Z.div_mod_to_equations; lia.
Qed.

(** *** Offsets *)
Lemma sgn_even_eq w i : 1 < w -> sgn w (i - i mod 2) = i <-> - 2 ^ (w - 1) <= i <= 2 ^ (w - 1) - 2 /\ i mod 2 = 0.
Proof.
  intros Hw. pose proof (pow2_half w ltac:(lia)) as H2. pose proof (pow2_half (w - 1) ltac:(lia)) as H3.
  pose proof (Z.pow_pos_nonneg 2 (w - 1 - 1) ltac:(lia) ltac:(lia)).
  split.
  - intros E. pose proof (sgn_range w (i - i mod 2) ltac:(lia)) as R. unfold in_s, smin, smax in R.
    rewrite E in R. assert (wrap w (sgn w (i - i mod 2)) = wrap w i) as E2 by (by rewrite E).
    rewrite wrap_sgn in E2 by lia. unfold wrap in E2.
    assert (i mod 2 = 0).
    { assert ((i - i mod 2) mod 2 ^ w mod 2 = i mod 2 ^ w mod 2) as E3 by (by rewrite E2).
      rewrite !Z.mod_mod_divide in E3 by (lia || (exists (2 ^ (w - 1)); lia)).
      Z.div_mod_to_equations; lia. }
    split; [|done]. rewrite H3 in *. Z.div_mod_to_equations; lia.
  - intros [R ->]. rewrite Z.sub_0_r. apply sgn_small; [lia|]. unfold in_s, smin, smax. lia.
Qed.

Lemma branch_offset_iff i :
  sgn 13 (i - i mod 2) = i <-> rv_branch_offset_ok i = true /\ i mod 2 = 0.
Proof. rewrite sgn_even_eq by lia. unfold rv_branch_offset_ok. change (1 << 12) with 4096. lia. Qed.

Lemma jal_offset_iff i :
  sgn 21 (i - i mod 2) = i <-> rv_jal_offset_ok i = true /\ i mod 2 = 0.
Proof. rewrite sgn_even_eq by lia. unfold rv_jal_offset_ok. change (1 << 20) with 1048576. lia. Qed.

(** C2: The decoder returns the fields every encoder was given.  A signed 12-bit immediate
    survives in the I and S formats; a branch or jump offset decodes to itself exactly when
    the range check accepts it and it is even, and [rv_push_jal] marks the compilation
    exactly for the jumps that would go elsewhere. *)
Theorem encode_decode op f3 d s t f7 i rc :
  0 <= op < 128 -> 0 <= f3 < 8 -> reg d -> reg s -> reg t -> 0 <= f7 < 128 ->
  (let r := rv64_decode (rv_r_type op d f3 s t f7) in
   opcode r = op /\ rd r = d /\ funct3 r = f3 /\ rs1 r = s /\ rs2 r = t /\ funct7 r = f7) /\
  (op ∈ [OP_IMM; OP_LOAD; OP_JALR; OP_IMM32; OP_SYSTEM; OP_FP_LOAD] -> in_s 12 i ->
   let r := rv64_decode (rv_i_type op d f3 s i) in
   opcode r = op /\ rd r = d /\ funct3 r = f3 /\ rs1 r = s /\ imm r = i) /\
  (in_s 12 i ->
   let b := rv64_decode (rv_SB s t i) in let w := rv64_decode (rv_SD s t i) in
   opcode b = OP_STORE /\ funct3 b = ST_SB /\ rs1 b = s /\ rs2 b = t /\ imm b = i /\
   opcode w = OP_STORE /\ funct3 w = ST_SD /\ rs1 w = s /\ rs2 w = t /\ imm w = i) /\
  (let r := rv64_decode (rv_b_type f3 s t i) in
   opcode r = OP_BRANCH /\ funct3 r = f3 /\ rs1 r = s /\ rs2 r = t /\
   (imm r = i <-> rv_branch_offset_ok i = true /\ i mod 2 = 0)) /\
  (let r := rv64_decode (rv_JAL d i) in
   opcode r = OP_JAL /\ rd r = d /\ (imm r = i <-> rv_jal_offset_ok i = true /\ i mod 2 = 0) /\
   (i mod 2 = 0 -> out_exhausted rc = false ->
    (out_exhausted (rv_push_jal rc d i) = false <-> imm r = i))).
Proof.
  intros Ho Hf Hd Hs Ht H7. split; [by apply decode_r|]. split_and!.
  - intros Hop Hi. destruct (decode_i op d f3 s i Ho Hd Hf Hs) as (E1 & E2 & E3 & E4 & _).
    split_and!; try done. by apply imm_i.
  - intros Hi. unfold rv_SB, rv_SD. cbv zeta.
    rewrite !s_type_sum by done.
    destruct (decode_s ST_SB s t i Hs Ht ltac:(done) Hi) as (B1 & B2 & B3 & B4 & B5).
    by destruct (decode_s ST_SD s t i Hs Ht ltac:(done) Hi) as (W1 & W2 & W3 & W4 & W5).
  - destruct (decode_b f3 s t i Hs Ht Hf) as (E1 & E2 & E3 & E4 & E5). cbv zeta.
    rewrite E5, branch_offset_iff. done.
  - destruct (decode_j d i Hd) as (E1 & E2 & E3). cbv zeta. rewrite E3, jal_offset_iff.
    split_and!; try done. intros Hev Hx. unfold rv_push_jal.
    destruct (rv_jal_offset_ok i); cbn; naive_solver.
Qed.

Lemma encode_decode_witness :
  imm (rv64_decode (rv_b_type 1 5 0 (-16))) = -16 /\
  imm (rv64_decode (rv_b_type 1 5 0 4096)) <> 4096 /\ imm (rv64_decode (rv_SB 10 5 (-3))) = -3.
Proof.
  pose proof (fun i => encode_decode OP_IMM 1 3 5 0 0 i (RvCompiler [] false)
    ltac:(done) ltac:(done) ltac:(done) ltac:(done) ltac:(done) ltac:(done)) as T.
  split_and!.
  - apply (proj1 (proj2 (proj2 (proj2 (T (-16)))))). split; reflexivity.
  - intros E. apply (proj1 (proj2 (proj2 (proj2 (T 4096))))) in E. destruct E; discriminate.
  - vm_compute. reflexivity.
Defined.
