(* ===== verification/RvRun.v ===== *)
(** * Running emitted code

    Rules for the code that [hir_codegen.cpp] emits when it runs on the interpreter of
    [dbt_interp.cpp] ([RvIsa.step]): one rule per instruction, over the values of the
    registers, and the memory of emitted code, strings and buffers. *)

From stdpp Require Import relations.
From S2P Require Import Prelude Machine RvIsa RvEnc.

(** ** Memory *)

Definition bytes_at (data : bytes) (a : Z) (n : nat) : bytes := take n (drop (Z.to_nat a) data).

(** The bytes [s] lie at address [a]. *)
Definition holds (data : bytes) (a : Z) (s : bytes) : Prop :=
  0 <= a /\ bytes_at data a (length s) = s.

(** The instruction words [ws] lie at address [p] of a memory whose addresses do not wrap. *)
Definition code_at (data : bytes) (p : Z) (ws : list Z) : Prop :=
  (0 <= p /\ Z.of_nat (length data) <= 2 ^ 62) /\ forall i w, ws !! i = Some w ->
    mem_check data (p + 4 * Z.of_nat i) 4 = true /\ mem_read 4 data (p + 4 * Z.of_nat i) = w.

(** [data] with the bytes [s] written from address [a] on. *)
Definition blit (data : bytes) (a : Z) (s : bytes) : bytes :=
  take (Z.to_nat a) data ++ s ++ drop (Z.to_nat a + length s) data.

Definition inside (data : bytes) (a : Z) (n : nat) : Prop :=
  0 <= a /\ a + Z.of_nat n <= Z.of_nat (length data).

Definition apart (a : Z) (n : nat) (b : Z) (m : nat) : Prop :=
  a + Z.of_nat n <= b \/ b + Z.of_nat m <= a.

Lemma blit_length data a s : inside data a (length s) -> length (blit data a s) = length data.
Proof. intros []. unfold blit. rewrite !length_app, length_take, length_drop. lia. Qed.

Lemma blit_lookup data a s i :
  inside data a (length s) ->
  blit data a s !! i = if decide (Z.to_nat a <= i < Z.to_nat a + length s)%nat
                       then s !! (i - Z.to_nat a)%nat else data !! i.
Proof.
  intros []. unfold blit.
  assert (length (take (Z.to_nat a) data) = Z.to_nat a) as L by (rewrite length_take; lia).
  case_decide.
  - rewrite lookup_app_r, L, lookup_app_l by lia. done.
  - destruct (decide (i < Z.to_nat a)%nat).
    + rewrite lookup_app_l, lookup_take_lt by lia. done.
    + rewrite lookup_app_r, L, lookup_app_r, lookup_drop by lia. f_equal. lia.
Qed.

Lemma blit_nil data a : inside data a 0 -> blit data a [] = data.
Proof. intros []. unfold blit. cbn. rewrite Nat.add_0_r. apply take_drop. Qed.

Lemma bytes_at_blit data a s b n :
  inside data a (length s) -> 0 <= b -> apart b n a (length s) ->
  bytes_at (blit data a s) b n = bytes_at data b n.
Proof.
  intros Hi Hb Ha. unfold bytes_at. apply list_eq. intros i.
  destruct (decide (i < n)%nat); [|by rewrite !lookup_take_ge by lia].
  rewrite !lookup_take_lt, !lookup_drop, blit_lookup by done. case_decide; [|done].
  destruct Hi, Ha; lia.
Qed.

Lemma holds_blit data a s b t :
  inside data a (length s) -> apart b (length t) a (length s) ->
  holds data b t -> holds (blit data a s) b t.
Proof. intros Hi Ha [Hb H]. split; [done|]. by rewrite bytes_at_blit. Qed.

Lemma mem_check_inside data a n : inside data a n -> mem_check data a (Z.of_nat n) = true.
Proof. unfold inside, mem_check. lia. Qed.

Lemma mem_check_length data data' a n :
  length data = length data' -> mem_check data a n = mem_check data' a n.
Proof. unfold mem_check. by intros ->. Qed.

Lemma code_at_blit data a s p ws :
  inside data a (length s) -> apart p (4 * length ws) a (length s) ->
  code_at data p ws -> code_at (blit data a s) p ws.
Proof.
  intros Hi Ha [Hp H]. split; [by rewrite blit_length|]. intros i w E. destruct (H i w E) as [C R].
  pose proof (lookup_lt_Some _ _ _ E). rewrite (mem_check_length _ data) by (by apply blit_length).
  split; [done|]. rewrite <- R. unfold mem_read.
  rewrite (mem_check_length _ data) by (by apply blit_length). case_match; [done|].
  unfold le_bytes. f_equal. apply (bytes_at_blit data a s _ 4); [done|lia|].
  unfold apart in *. destruct Hi. lia.
Qed.

Lemma code_at_app data p ws ws' :
  code_at data p (ws ++ ws') -> code_at data p ws /\ code_at data (p + 4 * Z.of_nat (length ws)) ws'.
Proof.
  intros [Hp H]. split.
  - split; [done|]. intros i w E. apply H. by apply lookup_app_l_Some.
  - split; [split; [lia|apply Hp]|]. intros i w E. replace (_ + _) with (p + 4 * Z.of_nat (length ws + i)) by lia.
    apply H. rewrite lookup_app_r by lia. by replace (length ws + i - length ws)%nat with i by lia.
Qed.

Lemma bytes_at_1 data a : inside data a 1 -> bytes_at data a 1 = [nth (Z.to_nat a) data 0].
Proof.
  intros []. unfold bytes_at. destruct (lookup_lt_is_Some_2 data (Z.to_nat a)) as [c E]; [lia|].
  rewrite (drop_S _ c) by done. cbn. f_equal. symmetry. by apply nth_lookup_Some.
Qed.

Lemma mem_read_1 data a : inside data a 1 -> mem_read 1 data a = nth (Z.to_nat a) data 0.
Proof.
  intros H. unfold mem_read. rewrite (mem_check_inside data a 1) by done. cbn [negb].
  unfold le_bytes. fold (bytes_at data a 1). rewrite bytes_at_1 by done. cbn. lia.
Qed.

Lemma mem_write_1 data a v : inside data a 1 -> mem_write 1 data a v = blit data a [v mod 256].
Proof. intros H. unfold mem_write. by rewrite (mem_check_inside data a 1) by done. Qed.

Lemma blit_app data a s t :
  inside data a (length s + length t) ->
  blit (blit data a s) (a + Z.of_nat (length s)) t = blit data a (s ++ t).
Proof.
  intros []. assert (inside data a (length s)) by (split; lia).
  assert (inside (blit data a s) (a + Z.of_nat (length s)) (length t))
    by (split; [lia|rewrite blit_length by done; lia]).
  assert (inside data a (length (s ++ t))) by (split; [done|rewrite length_app; lia]).
  apply list_eq. intros i. rewrite !blit_lookup, length_app by done.
  repeat case_decide; try lia; try done.
  - rewrite lookup_app_r by lia. f_equal. lia.
  - rewrite lookup_app_l by lia. done.
Qed.

Lemma holds_cons data a c s :
  holds data a (c :: s) -> inside data a 1 /\ nth (Z.to_nat a) data 0 = c /\ holds data (a + 1) s.
Proof.
  intros [Ha H]. unfold bytes_at in *.
  assert (data !! Z.to_nat a = Some c) as E.
  { apply (f_equal (fun l => l !! 0%nat)) in H. rewrite lookup_take_lt, lookup_drop in H by (cbn; lia).
    by rewrite Nat.add_0_r in H. }
  pose proof (lookup_lt_Some _ _ _ E). split_and!; [split; lia|by apply nth_lookup_Some|split; [lia|]].
  rewrite (drop_S _ c) in H by done. cbn in H. injection H as H.
  unfold bytes_at. by replace (Z.to_nat (a + 1)) with (S (Z.to_nat a)) by lia.
Qed.

(** ** Registers *)

(** The values of the registers as a function; register 0 stays zero. *)
Definition setreg (rho : Z -> Z) (r v : Z) : Z -> Z :=
  fun r' => if (r' =? r) && negb (r =? 0) then v else rho r'.

Lemma setreg_same rho r v : r <> 0 -> setreg rho r v r = v.
Proof. intros. unfold setreg. by replace ((r =? r) && negb (r =? 0)) with true by lia. Qed.

Lemma setreg_other rho r v r' : r' <> r -> setreg rho r v r' = rho r'.
Proof. intros. unfold setreg. by replace ((r' =? r) && negb (r =? 0)) with false by lia. Qed.

(** The machine is at [p] with the registers [rho]. *)
Record at_state (st : rv64_state_t) (rho : Z -> Z) (p : Z) : Prop := {
  at_ok : state_ok st;
  at_pc : pc st = p;
  at_regs : forall r, reg r -> xget st r = rho r }.

Section Run.
Variable eh : rv64_state_t -> bytes -> rv64_state_t * bytes * Z.

(** One iteration of the interpreter that continues. *)
Definition nstep (c c' : rv64_state_t * bytes) : Prop :=
  step eh (fst c) (snd c) = Next (fst c') (snd c').

(** From any machine with the registers [rho] at [p] and the memory [d] the interpreter
    reaches the registers [rho'] at [p'] with the memory [d'], the floating-point state
    unchanged. *)
Definition goes (rho : Z -> Z) (p : Z) (d : bytes) (rho' : Z -> Z) (p' : Z) (d' : bytes) : Prop :=
  forall st, at_state st rho p ->
    exists st', rtc nstep (st, d) (st', d') /\ at_state st' rho' p' /\ f st' = f st /\ fcsr st' = fcsr st.

Lemma goes_refl rho p d : goes rho p d rho p d.
Proof. intros st H. exists st. split; [apply rtc_refl|done]. Qed.

Lemma goes_trans rho p d rho1 p1 d1 rho2 p2 d2 :
  goes rho p d rho1 p1 d1 -> goes rho1 p1 d1 rho2 p2 d2 -> goes rho p d rho2 p2 d2.
Proof.
  intros H1 H2 st Hst. destruct (H1 st Hst) as (st1 & R1 & A1 & F1 & C1).
  destruct (H2 st1 A1) as (st2 & R2 & A2 & F2 & C2).
  exists st2. split; [by eapply rtc_trans|]. by rewrite F2, C2.
Qed.

(** The register function may be replaced by one with the same values. *)
Lemma goes_ext rho p d rho1 rho2 p' d' :
  goes rho p d rho1 p' d' -> (forall r, reg r -> rho1 r = rho2 r) -> goes rho p d rho2 p' d'.
Proof.
  intros H E st Hst. destruct (H st Hst) as (st1 & R1 & [A1 A2 A3] & F1). exists st1.
  split; [done|]. split; [|done]. split; try done. intros r Hr. rewrite <- E by done. by apply A3.
Qed.

(** What [rtc] says of the fuelled interpreter. *)
Lemma run_of_rtc c c' fuel o :
  rtc nstep c c' -> rv64_interp_run eh fuel (fst c') (snd c') = Some o ->
  exists fuel', rv64_interp_run eh fuel' (fst c) (snd c) = Some o.
Proof.
  induction 1 as [c|c1 c2 c3 H _ IH]; intros E; [by exists fuel|].
  destruct (IH E) as [n En]. exists (S n). unfold rv64_interp_run in *. cbn [iter].
  unfold interp_body at 1. cbn [fst snd]. unfold nstep in H. by rewrite H.
Qed.

(** The machine that has fetched: the pc unchanged, the instruction counted. *)
Definition counted (st : rv64_state_t) : rv64_state_t :=
  State (x st) (pc st) (wrap 64 (insn_count st + 1)) (f st) (fcsr st).

Lemma step_fetch st d ws p i w :
  code_at d p ws -> ws !! i = Some w -> pc st = p + 4 * Z.of_nat i ->
  step eh st d = exec eh (rv64_decode w) (counted st) d.
Proof.
  intros [_ H] E Hp. destruct (H i w E) as [C R]. unfold step. by rewrite Hp, C, R, <- Hp.
Qed.

Lemma counted_at st rho p : at_state st rho p -> at_state (counted st) rho p.
Proof.
  intros [[Hx H0 Hp Hc Hf Hs] A2 A3]. split; [|done|done]. split; try done. apply wrap_range. lia.
Qed.

Lemma zero_reg st : state_ok st -> <[0%nat:=0]> (x st) = x st.
Proof.
  intros [_ H _ _ _ _]. unfold xget in H. destruct (x st) as [|a l]; [done|]. change (a = 0) in H. by subst a.
Qed.

Lemma xset_at st rho p r v :
  at_state st rho p -> reg r -> in_u 64 v -> at_state (xset st r v) (setreg rho r v) p.
Proof.
  intros [Ok Ep Er] Hr Hv. unfold reg in *. split.
  - apply xset_ok; [apply Hr|done|done].
  - unfold xset. by destruct (r =? 0).
  - intros r' Hr'. unfold xset, setreg. destruct (Z.eqb_spec r 0); [rewrite andb_false_r; by apply Er|].
    unfold xget. cbn [RvIsa.x]. destruct (Z.eqb_spec r' r) as [->|]; cbn [andb negb].
    + apply nth_lookup_Some, list_lookup_insert_eq. destruct Ok as [[-> _] _ _ _ _ _]. lia.
    + rewrite <- Er by done. unfold xget. rewrite !nth_lookup. by rewrite list_lookup_insert_ne by lia.
Qed.

Lemma xset_fp st r v : f (xset st r v) = f st /\ fcsr (xset st r v) = fcsr st.
Proof. unfold xset. by destruct (r =? 0). Qed.

(** The rule behind the rules of the instructions. *)
Lemma goes_step rho p d p0 ws i w rho' p' d' :
  code_at d p0 ws -> ws !! i = Some w -> p = p0 + 4 * Z.of_nat i -> in_u 64 p' ->
  (forall st, at_state st rho p -> exists st1,
     exec eh (rv64_decode w) st d = finish st1 p' d' /\ at_state st1 rho' p /\
     f st1 = f st /\ fcsr st1 = fcsr st) ->
  goes rho p d rho' p' d'.
Proof.
  intros Hc E Hp Hp' H st Hst. destruct (H _ (counted_at _ _ _ Hst)) as (st1 & X & [Ok _ Er] & F).
  exists (State (x st1) p' (insn_count st1) (f st1) (fcsr st1)). split_and!; try apply F.
  - apply rtc_once. unfold nstep. cbn [fst snd].
    rewrite (step_fetch _ _ _ _ _ _ Hc E) by (by rewrite (at_pc _ _ _ Hst)). rewrite X. unfold finish.
    by rewrite zero_reg.
  - split; [|done|done]. by destruct Ok.
Qed.

Lemma goes_set rho p d p0 ws i w r v p' :
  code_at d p0 ws -> ws !! i = Some w -> p = p0 + 4 * Z.of_nat i -> reg r -> in_u 64 p' ->
  (forall st, at_state st rho p ->
     exec eh (rv64_decode w) st d = finish (xset st r v) p' d /\ in_u 64 v) ->
  goes rho p d (setreg rho r v) p' d.
Proof.
  intros Hc E Hp Hr Hp' H. apply (goes_step _ _ _ _ _ _ _ _ _ _ Hc E Hp Hp'). intros st Hst.
  destruct (H st Hst) as [X Hv]. exists (xset st r v). split; [done|].
  split; [by apply xset_at|apply xset_fp].
Qed.

(** The address after the instruction does not wrap. *)
Lemma next_in d p0 ws i w :
  code_at d p0 ws -> ws !! i = Some w ->
  let p := p0 + 4 * Z.of_nat i in 0 <= p /\ p + 4 <= 2 ^ 62 /\ wrap 64 (p + 4) = p + 4.
Proof.
  intros [[H0 HL] H] E. destruct (H i w E) as [C _]. unfold mem_check in C. cbv zeta.
  assert (p0 + 4 * Z.of_nat i + 4 <= 2 ^ 62) by lia. split_and!; try lia.
  apply wrap_small. unfold in_u. lia.
Qed.
End Run.

(** ** Rules of the instructions *)

(** Decides the comparisons of constants that select the instruction. *)
Ltac select_insn :=
  repeat match goal with
  | |- context [?a =? ?b] =>
      let v := eval vm_compute in (a =? b) in
      match v with true => idtac | false => idtac end;
      change (a =? b) with v; cbv iota
  end; cbn [orb andb].

Section Rules.
Variable eh : rv64_state_t -> bytes -> rv64_state_t * bytes * Z.
Variables (d : bytes) (p0 : Z) (ws : list Z).
Hypothesis Hcode : code_at d p0 ws.
Abbreviation pos i := (p0 + 4 * Z.of_nat i).

Lemma goes_r op rho i f3 f7 r a b :
  reg r -> reg a -> reg b -> 0 <= f3 < 8 -> 0 <= f7 < 128 ->
  ws !! i = Some (rv_r_type OP_REG r f3 a b f7) ->
  (forall k, funct3 k = f3 -> funct7 k = f7 -> alu_reg k (rho a) (rho b) = op) ->
  goes eh rho (pos i) d (setreg rho r op) (pos i + 4) d.
Proof.
  intros Hr Ha Hb H3 H7 E Ho. destruct (next_in _ _ _ _ _ Hcode E) as (B0 & B1 & W).
  destruct (decode_r OP_REG r f3 a b f7 ltac:(done) Hr H3 Ha Hb H7) as (D1 & D2 & D3 & D4 & D5 & D6).
  apply (goes_set eh _ _ _ _ _ _ _ _ _ _ Hcode E eq_refl Hr); [unfold in_u; lia|].
  intros st Hst. unfold exec. rewrite D1, D2, D4, D5, (at_pc _ _ _ Hst), W. select_insn.
  rewrite !(at_regs _ _ _ Hst) by done. rewrite Ho by done. split; [done|].
  rewrite <- (Ho (rv64_decode (rv_r_type OP_REG r f3 a b f7))) by done.
  rewrite <- !(at_regs _ _ _ Hst) by done. apply alu_reg_ok; apply xget_ok, Hst.
Qed.

Lemma goes_i op rho i f3 r a v :
  reg r -> reg a -> 0 <= f3 < 8 -> in_s 12 v ->
  ws !! i = Some (rv_i_type OP_IMM r f3 a v) ->
  (forall k, funct3 k = f3 -> imm k = v -> funct7 k = v mod 2 ^ 12 / 2 ^ 5 -> alu_imm k (rho a) = op) ->
  goes eh rho (pos i) d (setreg rho r op) (pos i + 4) d.
Proof.
  intros Hr Ha H3 Hv E Ho. destruct (next_in _ _ _ _ _ Hcode E) as (B0 & B1 & W).
  destruct (decode_i OP_IMM r f3 a v ltac:(done) Hr H3 Ha) as (D1 & D2 & D3 & D4 & D5).
  assert (imm (rv64_decode (rv_i_type OP_IMM r f3 a v)) = v) as D6 by (apply imm_i; try done; set_solver).
  apply (goes_set eh _ _ _ _ _ _ _ _ _ _ Hcode E eq_refl Hr); [unfold in_u; lia|].
  intros st Hst. unfold exec. rewrite D1, D2, D4, (at_pc _ _ _ Hst), W. select_insn.
  rewrite !(at_regs _ _ _ Hst) by done. rewrite Ho by done. split; [done|].
  rewrite <- (Ho (rv64_decode (rv_i_type OP_IMM r f3 a v))) by done.
  rewrite <- !(at_regs _ _ _ Hst) by done. apply alu_imm_ok; apply xget_ok, Hst.
Qed.

Lemma goes_addi rho i r a v :
  ws !! i = Some (rv_ADDI r a v) -> reg r -> reg a -> in_s 12 v ->
  goes eh rho (pos i) d (setreg rho r (wrap 64 (rho a + v))) (pos i + 4) d.
Proof.
  intros E Hr Ha Hv. apply (goes_i _ _ _ 0 r a v); try done.
  intros k K3 K4 _. unfold alu_imm. rewrite K3, K4. by autorewrite with wrap.
Qed.

Lemma goes_lbu rho i r b off a :
  ws !! i = Some (rv_LBU r b off) -> reg r -> reg b -> in_s 12 off ->
  a = rho b + off -> inside d a 1 -> data_ok d ->
  goes eh rho (pos i) d (setreg rho r (nth (Z.to_nat a) d 0)) (pos i + 4) d.
Proof.
  intros E Hr Hb Hv Ea Hi Hd. destruct (next_in _ _ _ _ _ Hcode E) as (B0 & B1 & W).
  destruct (decode_i OP_LOAD r LD_LBU b off ltac:(done) Hr ltac:(done) Hb) as (D1 & D2 & D3 & D4 & _).
  assert (imm (rv64_decode (rv_LBU r b off)) = off) as D6 by (apply imm_i; try done; set_solver).
  apply (goes_set eh _ _ _ _ _ _ _ _ _ _ Hcode E eq_refl Hr); [unfold in_u; lia|].
  intros st Hst. unfold exec. rewrite D6. unfold rv_LBU. rewrite D1, D2, D3, D4, (at_pc _ _ _ Hst), W.
  select_insn. rewrite !(at_regs _ _ _ Hst) by done. rewrite wrap_add_r, <- Ea.
  destruct Hi as [Hi0 Hi1]. destruct Hcode as [[_ HL] _].
  rewrite (wrap_small 64 a) by (unfold in_u; lia).
  unfold load, LD_LBU. rewrite mem_read_1 by (split; done). split; [done|].
  rewrite <- mem_read_1 by (split; done). eapply in_u_mono, mem_read_ok; [|done]. done.
Qed.

Lemma goes_sb rho i b s off a :
  ws !! i = Some (rv_SB b s off) -> reg b -> reg s -> in_s 12 off ->
  a = rho b + off -> inside d a 1 ->
  goes eh rho (pos i) d rho (pos i + 4) (blit d a [rho s mod 256]).
Proof.
  intros E Hb Hs Hv Ea Hi. destruct (next_in _ _ _ _ _ Hcode E) as (B0 & B1 & W).
  destruct (decode_s ST_SB b s off Hb Hs ltac:(done) Hv) as (D1 & D2 & D3 & D4 & D5).
  apply (goes_step eh _ _ _ _ _ _ _ _ _ _ Hcode E eq_refl); [unfold in_u; lia|].
  intros st Hst. exists st. split; [|done]. unfold exec, rv_SB. cbv zeta. rewrite s_type_sum by done.
  rewrite D1, D2, D3, D4, D5, (at_pc _ _ _ Hst), W. select_insn.
  rewrite !(at_regs _ _ _ Hst) by done. rewrite wrap_add_r, <- Ea.
  pose proof Hi as [Hi0 Hi1]. destruct Hcode as [[_ HL] _].
  rewrite (wrap_small 64 a) by (unfold in_u; lia).
  unfold store, ST_SB. rewrite mem_write_1 by done. unfold wrap. by rewrite Z.mod_mod.
Qed.

Lemma goes_branch rho i f3 a b off taken :
  ws !! i = Some (rv_b_type f3 a b off) -> reg a -> reg b -> 0 <= f3 < 8 ->
  rv_branch_offset_ok off = true -> off mod 2 = 0 -> 0 <= pos i + off ->
  branch_taken f3 (rho a) (rho b) = Some taken ->
  goes eh rho (pos i) d rho (pos i + if taken then off else 4) d.
Proof.
  intros E Ha Hb H3 Ho He Hpos T. destruct (next_in _ _ _ _ _ Hcode E) as (B0 & B1 & W).
  destruct (decode_b f3 a b off Ha Hb H3) as (D1 & D2 & D3 & D4 & D5).
  rewrite (proj2 (branch_offset_iff off)) in D5 by done.
  assert (off <= 4094) by (unfold rv_branch_offset_ok in Ho; change (1 << 12) with 4096 in Ho; lia).
  apply (goes_step eh _ _ _ _ _ _ _ _ _ _ Hcode E eq_refl); [unfold in_u; destruct taken; lia|].
  intros st Hst. exists st. split; [|done]. unfold exec.
  rewrite D1, D2, D3, D4, D5, (at_pc _ _ _ Hst), W. select_insn.
  rewrite !(at_regs _ _ _ Hst) by done. rewrite T. f_equal. destruct taken; [|done].
  rewrite wrap_add_r. apply wrap_small. unfold in_u. lia.
Qed.

Lemma goes_lui rho i r v :
  ws !! i = Some (rv_LUI r v) -> reg r ->
  goes eh rho (pos i) d (setreg rho r (sext32 (v - v mod 2 ^ 12))) (pos i + 4) d.
Proof.
  intros E Hr. destruct (next_in _ _ _ _ _ Hcode E) as (B0 & B1 & W).
  destruct (decode_lui r v Hr) as (D1 & D2 & D3).
  apply (goes_set eh _ _ _ _ _ _ _ _ _ _ Hcode E eq_refl Hr); [unfold in_u; lia|].
  intros st Hst. unfold exec. rewrite D1, D2, D3, (at_pc _ _ _ Hst), W. select_insn.
  split; [done|]. apply wrap_range. lia.
Qed.
End Rules.

(** ** Chains of instructions *)

(** One instruction, then the rest from the next word. *)
Lemma goes_next eh rho p i d rho1 d1 rho2 p2 d2 :
  goes eh rho (p + 4 * Z.of_nat i) d rho1 (p + 4 * Z.of_nat i + 4) d1 ->
  goes eh rho1 (p + 4 * Z.of_nat (S i)) d1 rho2 p2 d2 ->
  goes eh rho (p + 4 * Z.of_nat i) d rho2 p2 d2.
Proof.
  intros H1 H2. eapply goes_trans; [exact H1|].
  by replace (p + 4 * Z.of_nat i + 4) with (p + 4 * Z.of_nat (S i)) by lia.
Qed.

(** A branch to the word [j]. *)
Lemma goes_jump eh rho p i j d rho2 p2 d2 off :
  goes eh rho (p + 4 * Z.of_nat i) d rho (p + 4 * Z.of_nat i + off) d ->
  off = 4 * (Z.of_nat j - Z.of_nat i) ->
  goes eh rho (p + 4 * Z.of_nat j) d rho2 p2 d2 ->
  goes eh rho (p + 4 * Z.of_nat i) d rho2 p2 d2.
Proof.
  intros H1 -> H2. eapply goes_trans; [exact H1|].
  by replace (p + 4 * Z.of_nat i + 4 * (Z.of_nat j - Z.of_nat i)) with (p + 4 * Z.of_nat j) by lia.
Qed.

(** A branch, taken to the word [j] or not. *)
Lemma goes_if eh d p ws rho i f3 x y j taken off rho2 p2 d2 :
  code_at d p ws -> ws !! i = Some (rv_b_type f3 x y off) -> reg x -> reg y -> 0 <= f3 < 8 ->
  off = 4 * (Z.of_nat j - Z.of_nat i) -> (i <? 100)%nat = true -> (j <? 100)%nat = true ->
  branch_taken f3 (rho x) (rho y) = Some taken ->
  goes eh rho (p + 4 * Z.of_nat (if taken then j else S i)) d rho2 p2 d2 ->
  goes eh rho (p + 4 * Z.of_nat i) d rho2 p2 d2.
Proof.
  intros Hc E Hx Hy H3 Hoff Hi%Nat.ltb_lt Hj%Nat.ltb_lt HT G.
  assert (0 <= p) by apply Hc.
  assert (rv_branch_offset_ok off = true) as Hok'
    by (unfold rv_branch_offset_ok; change (1 << 12) with 4096; lia).
  assert (off mod 2 = 0) as He by (rewrite Hoff; Z.div_mod_to_equations; lia).
  assert (0 <= p + 4 * Z.of_nat i + off) as Hp by lia.
  pose proof (goes_branch eh d p _ Hc rho i f3 x y off taken E Hx Hy H3 Hok' He Hp HT) as B.
  destruct taken; [by eapply goes_jump|].
  eapply goes_next; [exact B|exact G].
Qed.

(** An unconditional jump: [BEQ x0, x0]. *)
Lemma goes_j eh d p ws rho i j off rho2 p2 d2 :
  code_at d p ws -> ws !! i = Some (rv_BEQ 0 0 off) ->
  off = 4 * (Z.of_nat j - Z.of_nat i) -> (i <? 100)%nat = true -> (j <? 100)%nat = true ->
  goes eh rho (p + 4 * Z.of_nat j) d rho2 p2 d2 ->
  goes eh rho (p + 4 * Z.of_nat i) d rho2 p2 d2.
Proof.
  intros Hc E Ho Hi Hj G. assert (reg 0) by (unfold reg; lia).
  apply (goes_if eh d p ws rho i BR_BEQ 0 0 j true off); try done.
  unfold branch_taken, BR_BEQ. by rewrite Z.eqb_refl.
Qed.

Lemma reg_const r : (0 <=? r) && (r <? 32) = true -> reg r.
Proof. unfold reg. lia. Qed.

Lemma goes_at eh rho p q d rho' p' d' : q = p -> goes eh rho p d rho' p' d' -> goes eh rho q d rho' p' d'.
Proof. by intros ->. Qed.

(** Looks registers up in a chain of [setreg]. *)
Ltac regs := repeat first [rewrite setreg_same by (done || lia) | rewrite setreg_other by (done || lia)].

(** The string [s], which holds no NUL, and its NUL lie at [a]. *)
Definition cstring (d : bytes) (a : Z) (s : bytes) : Prop :=
  holds d a (s ++ [0]) /\ Forall (fun c => 0 < c < 256) s.

(** The registers outside [rs] keep their values. *)
Definition keeps (rs : list Z) (rho rho' : Z -> Z) : Prop := forall r, r ∉ rs -> rho' r = rho r.

Lemma keeps_set rs rho rho' r v : keeps rs rho rho' -> r ∈ rs -> keeps rs rho (setreg rho' r v).
Proof.
  intros H Hr r' Hr'. rewrite setreg_other; [by apply H|]. by intros ->.
Qed.

Lemma keeps_trans rs rho1 rho2 rho3 : keeps rs rho1 rho2 -> keeps rs rho2 rho3 -> keeps rs rho1 rho3.
Proof. intros H1 H2 r Hr. by rewrite H2, H1. Qed.

Lemma data_ok_blit d a s : data_ok d -> data_ok s -> data_ok (blit d a s).
Proof.
  intros Hd Hs. unfold blit, data_ok in *. apply Forall_app; split; [by apply Forall_take|].
  apply Forall_app; split; [done|by apply Forall_drop].
Qed.

Lemma cstring_cons d a c s :
  cstring d a (c :: s) -> inside d a 1 /\ nth (Z.to_nat a) d 0 = c /\ 0 < c < 256 /\ cstring d (a + 1) s.
Proof.
  intros [H F]. apply Forall_cons in F as [Fc F]. apply holds_cons in H as (H1 & H2 & H3). done.
Qed.

Lemma cstring_nil d a : cstring d a [] -> inside d a 1 /\ nth (Z.to_nat a) d 0 = 0.
Proof. intros [H _]. by apply holds_cons in H as (H1 & H2 & _). Qed.

(** Decides [code_at] on a concrete memory. *)
Fixpoint code_atb (data : bytes) (p : Z) (ws : list Z) : bool :=
  match ws with
  | [] => (0 <=? p) && (Z.of_nat (length data) <=? 2 ^ 62)
  | w :: ws => (0 <=? p) && mem_check data p 4 && (mem_read 4 data p =? w) && code_atb data (p + 4) ws
  end.

Lemma code_atb_sound data p ws : code_atb data p ws = true -> code_at data p ws.
Proof.
  revert p. induction ws as [|w ws IH]; cbn [code_atb]; intros p H.
  - split; [lia|]. intros i w E. by rewrite lookup_nil in E.
  - apply andb_prop in H as [H H4]. apply andb_prop in H as [H H3]. apply andb_prop in H as [H1 H2].
    destruct (IH _ H4) as [[B1 B2] B]. split; [lia|]. intros [|i] w' E.
    + injection E as <-. change (4 * Z.of_nat 0) with 0. rewrite Z.add_0_r. split; [done|lia].
    + replace (p + 4 * Z.of_nat (S i)) with (p + 4 + 4 * Z.of_nat i) by lia. by apply B.
Qed.

Definition byte_okb (b : Z) : bool := (0 <=? b) && (b <? 256).

Lemma data_okb_sound data : forallb byte_okb data = true -> data_ok data.
Proof.
  intros H. apply List.Forall_forall. intros b Hb. apply (proj1 (forallb_forall _ _) H) in Hb.
  unfold byte_okb, byte_ok in *. lia.
Qed.

(** ** Emitters *)

(** [static_cast<int32_t>((a - b) * 4)] of two sizes. *)
Definition word_off (a b : nat) : Z := sgn 32 (wrap 64 ((Z.of_nat a - Z.of_nat b) * 4)).

Lemma word_off_shift n a b : word_off (n + a) (n + b) = word_off a b.
Proof. unfold word_off. do 3 f_equal. lia. Qed.

Lemma word_off_0 n a : word_off (n + a) n = word_off a 0.
Proof. rewrite <- (Nat.add_0_r n) at 2. apply word_off_shift. Qed.

Lemma word_off_0' n a : word_off n (n + a) = word_off 0 a.
Proof. rewrite <- (Nat.add_0_r n) at 1. apply word_off_shift. Qed.

Lemma insert_app_at {A} (l k : list A) i x :
  <[(length l + i)%nat := x]> (l ++ k) = l ++ <[i := x]> k.
Proof. rewrite insert_app_r_alt by lia. do 2 f_equal. lia. Qed.

(** Runs one [let] of an emitter: a size becomes [length code + k], a code vector
    [code ++ words]. *)
Ltac emit_let :=
  lazymatch goal with
  | |- (let c := ?e in @?b c) = ?r =>
      let c := fresh "c" in let Hc := fresh "Hc" in
      cut (forall c, c = e -> b c = r); [intros Hc; exact (Hc e eq_refl)|];
      intros c Hc; cbv beta;
      rewrite ?length_insert, ?length_app in Hc; cbn [length] in Hc;
      rewrite <- ?app_assoc in Hc; rewrite ?insert_app_at in Hc;
      cbn [app length insert list_insert] in Hc; subst c
  end.

(** The offsets, which depend on distances only. *)
Ltac emit_offsets :=
  rewrite ?word_off_shift, ?word_off_0, ?word_off_0';
  repeat match goal with
  | |- context [word_off ?a ?b] =>
      let v := eval vm_compute in (word_off a b) in
      lazymatch v with Zpos _ => idtac | Zneg _ => idtac end; change (word_off a b) with v
  end.

Ltac emit_eq := repeat emit_let; rewrite <- ?app_assoc; cbn [app]; rewrite ?insert_app_at;
  cbn [insert list_insert]; emit_offsets.
