(* ===== verification/RvConst.v ===== *)
(** * Code that loads constants

    [rv_load_i32_bits], [rv_load_i64], [rv_load_val] and [rv_load_guest_addr] of
    [src/mux/modules/engine/hir_codegen.cpp] run on the interpreter. *)

From stdpp Require Import relations.
From S2P Require Import Prelude Machine RvIsa RvEnc RvRun.

(** The code generators append to [code]. *)
Definition rv_load_i32_bits (code : list Z) (rd bits : Z) : list Z :=
  let sval := sgn 32 bits in
  if (-2048 <=? sval) && (sval <=? 2047) then code ++ [rv_ADDI rd 0 sval]
  else
    let hi := bits &b 0xFFFFF000 in
    let lo := sgn 32 (bits &b 0xFFF) in
    let adj := negb (lo &b 0x800 =? 0) in
    let hi := if adj then wrap 32 (hi + 0x1000) else hi in
    let lo := if adj then lo - 0x1000 else lo in
    let code := code ++ [rv_LUI rd (sgn 32 hi)] in
    if negb (lo =? 0) then code ++ [rv_ADDI rd rd lo] else code.

Definition rv_load_i64 (code : list Z) (rd val : Z) : list Z :=
  if (-2048 <=? val) && (val <=? 2047) then code ++ [rv_ADDI rd 0 (sgn 32 val)]
  else if (-2147483648 <=? val) && (val <=? 2147483647) then
    rv_load_i32_bits code rd (wrap 32 (sgn 32 val))
  else
    let u := wrap 64 val in
    let lo := wrap 32 u in
    let hi := wrap 32 (u >> 32) in
    let tmp := if rd =? 5 then 6 else 5 in
    let code := rv_load_i32_bits code rd hi in
    let code := code ++ [rv_SLLI rd rd 32] in
    if negb (lo =? 0) then
      let code := rv_load_i32_bits code tmp lo in
      let code := if negb (lo &b 0x80000000 =? 0)
                  then code ++ [rv_SLLI tmp tmp 32] ++ [rv_SRLI tmp tmp 32] else code in
      code ++ [rv_OR rd rd tmp]
    else code.

Definition rv_load_val (code : list Z) (rd val : Z) : list Z :=
  if val =? 0 then code ++ [rv_ADDI rd 0 0]
  else
    let sval := sgn 32 val in
    if (-2048 <=? sval) && (sval <=? 2047) && (val =? wrap 64 (wrap 32 sval)) then
      code ++ [rv_ADDI rd 0 sval]
    else
      let hi := wrap 32 val &b 0xFFFFF000 in
      let lo := sgn 32 (val &b 0xFFF) in
      let adj := negb (lo &b 0x800 =? 0) in
      let hi := if adj then wrap 32 (hi + 0x1000) else hi in
      let lo := if adj then lo - 0x1000 else lo in
      let code := code ++ [rv_LUI rd (sgn 32 hi)] in
      if negb (lo =? 0) then code ++ [rv_ADDI rd rd lo] else code.

(** Bit 30 marks an output slot named by its distance below the frame top. *)
Definition OUT_FRAME_TAG : Z := 0x40000000.
Definition is_output_frame_ref (addr : Z) : bool := negb (addr &b OUT_FRAME_TAG =? 0).
Definition output_frame_delta (addr : Z) : Z := addr &b wrap 64 (Z.lnot OUT_FRAME_TAG).
Definition resolve_output_addr (addr entry_sp : Z) : Z :=
  if negb (is_output_frame_ref addr) then addr
  else wrap 64 (entry_sp - output_frame_delta addr).

Definition rv_load_guest_addr (code : list Z) (rd addr : Z) : list Z :=
  if negb (is_output_frame_ref addr) then rv_load_val code rd addr
  else rv_load_val code rd (output_frame_delta addr) ++ [rv_SUB rd 8 rd].

(** ** Fragments without memory operations *)

Section Fragments.
Variable eh : rv64_state_t -> bytes -> rv64_state_t * bytes * Z.

(** Wherever the fragment lies, running it takes the registers from [rho] to [rho']. *)
Definition computes (frag : list Z) (rho rho' : Z -> Z) : Prop :=
  forall d p, code_at d p frag -> goes eh rho p d rho' (p + 4 * Z.of_nat (length frag)) d.

Lemma computes_nil rho : computes [] rho rho.
Proof. intros d p _. rewrite Z.add_0_r. apply goes_refl. Qed.

Lemma computes_app f1 f2 rho rho1 rho2 :
  computes f1 rho rho1 -> computes f2 rho1 rho2 -> computes (f1 ++ f2) rho rho2.
Proof.
  intros H1 H2 d p Hc. apply code_at_app in Hc as [Hc1 Hc2].
  eapply goes_trans; [by apply H1|]. specialize (H2 _ _ Hc2).
  by replace (p + 4 * Z.of_nat (length (f1 ++ f2))) with
    (p + 4 * Z.of_nat (length f1) + 4 * Z.of_nat (length f2)) by (rewrite length_app; lia).
Qed.

Lemma computes_one w rho rho' :
  (forall d p, code_at d p [w] -> goes eh rho (p + 4 * Z.of_nat 0) d rho' (p + 4 * Z.of_nat 0 + 4) d) ->
  computes [w] rho rho'.
Proof.
  intros H d p Hc. specialize (H d p Hc). change (4 * Z.of_nat 0) with 0 in H.
  rewrite Z.add_0_r in H. exact H.
Qed.

Lemma computes_addi rho r a v :
  reg r -> reg a -> in_s 12 v -> computes [rv_ADDI r a v] rho (setreg rho r (wrap 64 (rho a + v))).
Proof. intros. apply computes_one. intros d p Hc. by eapply goes_addi. Qed.

Lemma computes_lui rho r v :
  reg r -> computes [rv_LUI r v] rho (setreg rho r (sext32 (v - v mod 2 ^ 12))).
Proof. intros. apply computes_one. intros d p Hc. by eapply goes_lui. Qed.

Lemma computes_r rho f3 f7 r a b op :
  reg r -> reg a -> reg b -> 0 <= f3 < 8 -> 0 <= f7 < 128 ->
  (forall k, funct3 k = f3 -> funct7 k = f7 -> alu_reg k (rho a) (rho b) = op) ->
  computes [rv_r_type OP_REG r f3 a b f7] rho (setreg rho r op).
Proof. intros. apply computes_one. intros d p Hc. by apply (goes_r _ _ _ _ Hc op rho 0 f3 f7 r a b). Qed.

Lemma computes_i rho f3 r a v op :
  reg r -> reg a -> 0 <= f3 < 8 -> in_s 12 v ->
  (forall k, funct3 k = f3 -> imm k = v -> funct7 k = v mod 2 ^ 12 / 2 ^ 5 -> alu_imm k (rho a) = op) ->
  computes [rv_i_type OP_IMM r f3 a v] rho (setreg rho r op).
Proof. intros. apply computes_one. intros d p Hc. by apply (goes_i _ _ _ _ Hc op rho 0 f3 r a v). Qed.

(** The fragment leaves [v] in register [r] and changes only the registers of [rs]. *)
Definition loads (frag : list Z) (rs : list Z) (r v : Z) : Prop :=
  forall rho, rho 0 = 0 -> exists rho', computes frag rho rho' /\ rho' r = v /\ keeps rs rho rho'.

(** The word that the two instructions of a 32-bit load compute: the low 12 bits are added
    to a sign-extended upper part that is rounded. *)
Definition loaded32 (bits : Z) : Z :=
  if (0x7FFFF800 <=? bits) && (bits <=? 0x7FFFFFFF) then bits - 2 ^ 32 else sgn 32 bits.

(** The upper part and the low part of both code generators. *)
Definition split_hi (bits : Z) : Z := bits - bits mod 2 ^ 12 + (if bits mod 2 ^ 12 <? 2048 then 0 else 2 ^ 12).
Definition split_lo (bits : Z) : Z := bits mod 2 ^ 12 - (if bits mod 2 ^ 12 <? 2048 then 0 else 2 ^ 12).

Lemma land_800 v : 0 <= v < 2 ^ 12 -> (v &b 0x800 =? 0) = (v <? 2048).
Proof.
  intros H. rewrite (land_mask_at _ 11 1 0x800) by (lia || reflexivity).
  destruct (Z.ltb_spec v 2048); Z.div_mod_to_equations; lia.
Qed.

Lemma split_computes bits r :
  in_u 32 bits -> reg r -> r <> 0 ->
  loads ([rv_LUI r (sgn 32 (wrap 32 (split_hi bits)))] ++
         if negb (split_lo bits =? 0) then [rv_ADDI r r (split_lo bits)] else [])
        [r] r (wrap 64 (loaded32 bits)).
Proof.
  intros Hb Hr Hn rho H0. unfold in_u in Hb.
  set (h := sgn 32 (wrap 32 (split_hi bits))).
  assert (h mod 2 ^ 12 = 0) as Hm.
  { unfold h. rewrite sgn_wrap. unfold sgn, wrap, split_hi. case_match; case_match; Z.div_mod_to_equations; lia. }
  assert (h + split_lo bits = loaded32 bits) as E.
  { unfold h. rewrite sgn_wrap. unfold loaded32, split_hi, split_lo, sgn, wrap.
    repeat case_match; Z.div_mod_to_equations; lia. }
  assert (sext32 (h - h mod 2 ^ 12) = wrap 64 h) as Eh.
  { rewrite Hm, Z.sub_0_r. unfold sext32. f_equal. unfold h. apply sgn_small; [lia|]. by apply sgn_range. }
  pose proof (computes_lui rho r h Hr) as C1. rewrite Eh in C1.
  destruct (Z.eqb_spec (split_lo bits) 0) as [E0|E0]; cbn [negb].
  - eexists. split; [rewrite app_nil_r; exact C1|]. rewrite setreg_same by done.
    split; [f_equal; lia|]. apply keeps_set; [done|set_solver].
  - eexists. split; [eapply computes_app; [exact C1|]; apply computes_addi; try done|].
    { unfold in_s, smin, smax, split_lo. case_match; Z.div_mod_to_equations; lia. }
    rewrite !setreg_same by done. split; [by rewrite wrap_add_l, E|].
    apply keeps_set; [apply keeps_set; [done|set_solver]|set_solver].
Qed.

Lemma small_computes v r :
  in_s 12 v -> reg r -> r <> 0 -> loads [rv_ADDI r 0 v] [r] r (wrap 64 v).
Proof.
  intros Hv Hr Hn rho H0. eexists. split; [by apply computes_addi|]. rewrite setreg_same by done.
  split; [by rewrite H0|]. apply keeps_set; [done|set_solver].
Qed.

(** *** The 32-bit load *)
Lemma hi_lo bits :
  in_u 32 bits ->
  let hi := bits &b 0xFFFFF000 in let lo := sgn 32 (bits &b 0xFFF) in
  let adj := negb (lo &b 0x800 =? 0) in
  (if adj then wrap 32 (hi + 0x1000) else hi) = wrap 32 (split_hi bits) /\
  (if adj then lo - 0x1000 else lo) = split_lo bits.
Proof.
  intros Hb. unfold in_u in Hb. cbv zeta. masks.
  rewrite (land_mask_at _ 12 20 0xFFFFF000) by (lia || reflexivity).
  pose proof (Z.mod_pos_bound bits (2 ^ 12) ltac:(lia)) as Hm.
  rewrite sgn_small by (unfold in_s, smin, smax; lia). rewrite land_800 by done.
  unfold split_hi, split_lo, wrap.
  split; destruct (Z.ltb_spec (bits mod 2 ^ 12) 2048); cbn [negb]; Z.div_mod_to_equations; lia.
Qed.

Definition i32_frag (rd bits : Z) : list Z :=
  if (-2048 <=? sgn 32 bits) && (sgn 32 bits <=? 2047) then [rv_ADDI rd 0 (sgn 32 bits)]
  else [rv_LUI rd (sgn 32 (wrap 32 (split_hi bits)))] ++
       if negb (split_lo bits =? 0) then [rv_ADDI rd rd (split_lo bits)] else [].

Lemma load_i32_eq code rd bits :
  in_u 32 bits -> rv_load_i32_bits code rd bits = code ++ i32_frag rd bits.
Proof.
  intros Hb. unfold rv_load_i32_bits, i32_frag. cbv zeta. case_match; [done|].
  destruct (hi_lo bits Hb) as [-> ->]. destruct (negb (split_lo bits =? 0)); by rewrite <- ?app_assoc.
Qed.

Lemma loaded32_small bits : in_u 32 bits -> sgn 32 bits <= 2047 -> loaded32 bits = sgn 32 bits.
Proof.
  unfold in_u. intros Hb H. unfold loaded32. case_match; [|done].
  rewrite sgn_small in H by (unfold in_s, smin, smax; lia). lia.
Qed.

Lemma i32_loads rd bits :
  in_u 32 bits -> reg rd -> rd <> 0 -> loads (i32_frag rd bits) [rd] rd (wrap 64 (loaded32 bits)).
Proof.
  intros Hb Hr Hn. unfold i32_frag. case_match eqn:E; [|by apply split_computes].
  rewrite loaded32_small by (done || lia). apply small_computes; try done.
  unfold in_s, smin, smax. lia.
Qed.

(** *** The 64-bit load *)
Definition i64_frag (rd val : Z) : list Z :=
  if (-2048 <=? val) && (val <=? 2047) then [rv_ADDI rd 0 val]
  else if (-2147483648 <=? val) && (val <=? 2147483647) then i32_frag rd (wrap 32 val)
  else
    let lo := wrap 32 val in let hi := wrap 32 (val / 2 ^ 32) in
    let tmp := if rd =? 5 then 6 else 5 in
    i32_frag rd hi ++ [rv_SLLI rd rd 32] ++
    if negb (lo =? 0) then
      i32_frag tmp lo ++
      (if 2 ^ 31 <=? lo then [rv_SLLI tmp tmp 32; rv_SRLI tmp tmp 32] else []) ++ [rv_OR rd rd tmp]
    else [].

Lemma land_bit31 v : in_u 32 v -> negb (v &b 0x80000000 =? 0) = (2 ^ 31 <=? v).
Proof.
  unfold in_u. intros H. rewrite (land_mask_at _ 31 1 0x80000000) by (lia || reflexivity).
  destruct (Z.leb_spec (2 ^ 31) v); Z.div_mod_to_equations; lia.
Qed.

Lemma load_i64_eq code rd val :
  in_s 64 val -> rv_load_i64 code rd val = code ++ i64_frag rd val.
Proof.
  intros Hv. unfold rv_load_i64, i64_frag. cbv zeta.
  destruct ((-2048 <=? val) && (val <=? 2047)) eqn:E1.
  { by rewrite sgn_small by (unfold in_s, smin, smax; lia). }
  destruct ((-2147483648 <=? val) && (val <=? 2147483647)) eqn:E2.
  { rewrite wrap_sgn by lia. by rewrite load_i32_eq by (apply wrap_range; lia). }
  assert (wrap 32 (wrap 64 val) = wrap 32 val) as ->
    by (unfold wrap; rewrite Z.mod_mod_divide by (lia || (exists (2 ^ 32); lia)); done).
  assert (wrap 32 (wrap 64 val >> 32) = wrap 32 (val / 2 ^ 32)) as ->
    by (rewrite Z.shiftr_div_pow2 by lia; unfold wrap; Z.div_mod_to_equations; lia).
  pose proof (fun z => wrap_range 32 z ltac:(lia)) as W.
  rewrite !load_i32_eq by done. rewrite land_bit31 by done.
  destruct (negb _); [|by rewrite <- app_assoc].
  destruct (2 ^ 31 <=? wrap 32 val); rewrite <- ?app_assoc; done.
Qed.

Lemma loaded32_mod bits : in_u 32 bits -> loaded32 bits mod 2 ^ 32 = bits.
Proof.
  unfold in_u. intros H. unfold loaded32, sgn, wrap.
  repeat case_match; Z.div_mod_to_equations; lia.
Qed.

Lemma computes_slli32 rho r :
  reg r ->
  computes [rv_SLLI r r 32] rho (setreg rho r (rho r mod 2 ^ 32 * 2 ^ 32)).
Proof.
  intros Hr. apply computes_i; try done. intros k K1 K2 K3. unfold alu_imm. rewrite K1, K2.
  change (wrap 32 32 &b 0x3F) with 32. rewrite Z.shiftl_mul_pow2 by lia. unfold wrap.
  change (2 ^ 64) with (2 ^ 32 * 2 ^ 32). rewrite Z.mul_mod_distr_r by lia. done.
Qed.

Lemma computes_srli32 rho r :
  reg r -> computes [rv_SRLI r r 32] rho (setreg rho r (rho r / 2 ^ 32)).
Proof.
  intros Hr. apply computes_i; try done. intros k K1 K2 K3. unfold alu_imm. rewrite K1, K2, K3.
  change (wrap 32 32 &b 0x3F) with 32. change (32 mod 2 ^ 12 / 2 ^ 5 &b 0x20 =? 0) with true.
  cbn [negb]. by apply Z.shiftr_div_pow2.
Qed.

(** The value that [rv_load_i64] loads. *)
Definition loaded64 (val : Z) : Z :=
  let lo := wrap 32 val in
  if (0x7FFFF800 <=? lo) && (lo <=? 0x7FFFFFFF) then lo - 2 ^ 32 else val.

Lemma lor_low hi lo : in_u 32 hi -> in_u 32 lo -> Z.lor (hi * 2 ^ 32) lo = hi * 2 ^ 32 + lo.
Proof. unfold in_u. intros. apply (lor_add _ _ 32); try lia. apply Z.mod_mul. lia. Qed.

Lemma lor_all_ones hi lo :
  in_u 32 hi -> in_u 32 lo ->
  Z.lor (hi * 2 ^ 32) (Z.ones 32 * 2 ^ 32 + lo) = Z.ones 32 * 2 ^ 32 + lo.
Proof.
  intros Hh Hl. assert (in_u 32 (Z.ones 32)) as Ho by done.
  rewrite <- (lor_low (Z.ones 32)), Z.lor_assoc by done. f_equal.
  rewrite <- !Z.shiftl_mul_pow2, <- Z.shiftl_lor by lia. f_equal.
  apply in_u_ones in Hh; [|lia]. rewrite <- Hh. apply Z.bits_inj'. intros i Hi.
  rewrite Z.lor_spec, Z.land_spec. destruct (Z.testbit hi i), (Z.testbit (Z.ones 32) i); done.
Qed.

(** The value of the low register before the [OR]. *)
Lemma or_value val :
  in_s 64 val ->
  let lo := wrap 32 val in let hi := wrap 32 (val / 2 ^ 32) in
  Z.lor (hi * 2 ^ 32) (if 2 ^ 31 <=? lo then lo else wrap 64 (loaded32 lo)) = wrap 64 (loaded64 val).
Proof.
  intros Hv lo hi. unfold in_s, smin, smax in Hv.
  assert (in_u 32 lo) as Hl by (apply wrap_range; lia). assert (in_u 32 hi) as Hh by (apply wrap_range; lia).
  assert (hi * 2 ^ 32 + lo = wrap 64 val) as E by (unfold hi, lo, wrap; Z.div_mod_to_equations; lia).
  unfold loaded64. fold lo.
  destruct ((0x7FFFF800 <=? lo) && (lo <=? 0x7FFFFFFF)) eqn:B.
  - replace (2 ^ 31 <=? lo) with false by lia. unfold loaded32. rewrite B.
    assert (wrap 64 (lo - 2 ^ 32) = Z.ones 32 * 2 ^ 32 + lo) as ->.
    { unfold in_u in Hl. unfold wrap. symmetry. change (Z.ones 32) with 4294967295.
      apply Z.mod_unique with (q := -1); lia. }
    by apply lor_all_ones.
  - destruct (Z.leb_spec (2 ^ 31) lo); [by rewrite lor_low|].
    unfold loaded32. rewrite B. unfold in_u in *.
    rewrite sgn_small by (unfold in_s, smin, smax; lia).
    rewrite wrap_small by (unfold in_u; lia). by rewrite lor_low.
Qed.

Lemma i64_loads rd val :
  in_s 64 val -> reg rd -> rd <> 0 -> loads (i64_frag rd val) [5; 6; rd] rd (wrap 64 (loaded64 val)).
Proof.
  intros Hv Hr Hn rho H0. unfold in_s, smin, smax in Hv. unfold i64_frag.
  assert (keeps_more : forall rho1 rho2, keeps [rd] rho1 rho2 -> keeps [5; 6; rd] rho1 rho2)
    by (intros r1 r2 K r Hnot; apply K; set_solver).
  destruct ((-2048 <=? val) && (val <=? 2047)) eqn:E1.
  { destruct (small_computes val rd) with (rho := rho) as (rho1 & C & V & K); try done.
    { unfold in_s, smin, smax. lia. }
    exists rho1. split_and!; [done| |by apply keeps_more]. rewrite V. f_equal.
    unfold loaded64, wrap. case_match; [|done]. Z.div_mod_to_equations; lia. }
  destruct ((-2147483648 <=? val) && (val <=? 2147483647)) eqn:E2.
  { destruct (i32_loads rd (wrap 32 val)) with (rho := rho) as (rho1 & C & V & K); try done.
    { apply wrap_range. lia. }
    exists rho1. split_and!; [done| |by apply keeps_more]. rewrite V. unfold loaded64, loaded32.
    case_match; [done|]. rewrite sgn_wrap. f_equal. apply sgn_small; [lia|]. unfold in_s, smin, smax. lia. }
  cbv zeta. set (lo := wrap 32 val). set (hi := wrap 32 (val / 2 ^ 32)).
  assert (in_u 32 lo) as Hl by (apply wrap_range; lia). assert (in_u 32 hi) as Hh by (apply wrap_range; lia).
  destruct (i32_loads rd hi Hh Hr Hn rho H0) as (rho1 & C1 & V1 & K1).
  pose proof (computes_slli32 rho1 rd Hr) as C2.
  assert (rho1 rd mod 2 ^ 32 = hi) as Vhi.
  { rewrite V1. unfold wrap. rewrite Z.mod_mod_divide by (lia || (exists (2 ^ 32); lia)).
    by apply loaded32_mod. }
  rewrite Vhi in C2. set (rho2 := setreg rho1 rd (hi * 2 ^ 32)) in *.
  assert (keeps [rd] rho rho2) as K2 by (apply keeps_set; [done|set_solver]).
  assert (rho2 rd = hi * 2 ^ 32) as V2 by (by apply setreg_same).
  pose proof (or_value val Hv) as OV. cbv zeta in OV. fold lo hi in OV.
  destruct (Z.eqb_spec lo 0) as [Z0|Z0]; cbn [negb].
  { exists rho2. split_and!; [apply (computes_app _ _ _ _ _ C1); by rewrite app_nil_r| |by apply keeps_more].
    rewrite V2, <- OV, Z0. change (if 2 ^ 31 <=? 0 then 0 else wrap 64 (loaded32 0)) with 0. by rewrite Z.lor_0_r. }
  set (tmp := if rd =? 5 then 6 else 5).
  assert (reg tmp /\ tmp <> 0 /\ tmp <> rd /\ tmp ∈ [5; 6; rd]) as (Ht & Htn & Htr & Hin).
  { unfold tmp, reg. destruct (Z.eqb_spec rd 5); split_and!; lia || set_solver. }
  assert (rho2 0 = 0) as Z2 by (rewrite K2; [done|set_solver]).
  destruct (i32_loads tmp lo Hl Ht Htn rho2 Z2) as (rho3 & C3 & V3 & K3).
  assert (exists rho4, computes (if 2 ^ 31 <=? lo then [rv_SLLI tmp tmp 32; rv_SRLI tmp tmp 32] else []) rho3 rho4 /\
            rho4 tmp = (if 2 ^ 31 <=? lo then lo else wrap 64 (loaded32 lo)) /\ keeps [tmp] rho2 rho4)
    as (rho4 & C4 & V4 & K4).
  { destruct (2 ^ 31 <=? lo); [|exists rho3; split_and!; [apply computes_nil|done|done]].
    eexists. split; [apply (computes_app [_] [_] _ _ _ (computes_slli32 rho3 tmp Ht)); by apply computes_srli32|].
    rewrite !setreg_same by done. split.
    - rewrite Z.div_mul by lia. rewrite V3. unfold wrap.
      rewrite Z.mod_mod_divide by (lia || (exists (2 ^ 32); lia)). by apply loaded32_mod.
    - apply keeps_set; [apply keeps_set; [done|set_solver]|set_solver]. }
  exists (setreg rho4 rd (wrap 64 (loaded64 val))). split_and!.
  - apply (computes_app _ _ _ _ _ C1), (computes_app _ _ _ _ _ C2), (computes_app _ _ _ _ _ C3),
      (computes_app _ _ _ _ _ C4), computes_r; try done. intros k F3 F7. unfold alu_reg.
    rewrite F7, F3. change (0x00 =? 0x01) with false. cbv iota. rewrite <- OV, <- V4, <- V2.
    f_equal. apply K4. set_solver.
  - by rewrite setreg_same.
  - apply keeps_set; [|set_solver]. intros r Hnot. rewrite K4 by set_solver. apply K2. set_solver.
Qed.

(** *** Addresses *)
Definition val_frag (rd val : Z) : list Z :=
  if val =? 0 then [rv_ADDI rd 0 0] else
  if (-2048 <=? sgn 32 val) && (sgn 32 val <=? 2047) && (val =? wrap 64 (wrap 32 (sgn 32 val)))
  then [rv_ADDI rd 0 (sgn 32 val)]
  else [rv_LUI rd (sgn 32 (wrap 32 (split_hi (wrap 32 val))))] ++
       if negb (split_lo (wrap 32 val) =? 0) then [rv_ADDI rd rd (split_lo (wrap 32 val))] else [].

Lemma load_val_eq code rd val : rv_load_val code rd val = code ++ val_frag rd val.
Proof.
  unfold rv_load_val, val_frag. cbv zeta. case_match; [done|]. case_match; [done|].
  assert (val &b 0xFFF = wrap 32 val &b 0xFFF) as ->.
  { masks. unfold wrap. rewrite Z.mod_mod_divide by (lia || (exists (2 ^ 20); lia)). done. }
  destruct (hi_lo (wrap 32 val)) as [-> ->]; [apply wrap_range; lia|].
  destruct (negb (split_lo (wrap 32 val) =? 0)); by rewrite <- ?app_assoc.
Qed.

(** Addresses below 2 GB less a page half load as they are. *)
Lemma val_loads rd val :
  0 <= val < 0x7FFFF800 -> reg rd -> rd <> 0 -> loads (val_frag rd val) [rd] rd val.
Proof.
  intros Hv Hr Hn. unfold val_frag.
  assert (sgn 32 val = val) as -> by (apply sgn_small; [lia|unfold in_s, smin, smax; lia]).
  assert (wrap 32 val = val) as -> by (apply wrap_small; unfold in_u; lia).
  assert (wrap 64 val = val) as W by (apply wrap_small; unfold in_u; lia).
  destruct (Z.eqb_spec val 0) as [->|]; [by apply (small_computes 0)|].
  case_match eqn:E.
  - rewrite <- W at 2. apply small_computes; try done. unfold in_s, smin, smax. lia.
  - pose proof (split_computes val rd) as S. unfold loaded32 in S.
    replace ((0x7FFFF800 <=? val) && (val <=? 0x7FFFFFFF)) with false in S by lia.
    rewrite (sgn_small 32 val), W in S by (unfold in_s, smin, smax; lia).
    apply S; try done. unfold in_u. lia.
Qed.

(** C27: The code that [rv_load_i64] appends, wherever it lies, leaves in [rd] the constant it
    was given and changes only [rd], [t0] and [t1] - except when the low word of the constant
    is [0x7FFFF800] to [0x7FFFFFFF] and the high word is not all ones: then [rd] holds the low
    word with all ones above it, as 2147483647 becomes -2147483649. *)
Theorem load_i64_spec code rd val :
  reg rd -> rd <> 0 -> in_s 64 val ->
  exists frag, rv_load_i64 code rd val = code ++ frag /\
    loads frag [5; 6; rd] rd (wrap 64 (loaded64 val)) /\
    (loaded64 val = val <->
     ~ (0x7FFFF800 <= wrap 32 val <= 0x7FFFFFFF) \/ val / 2 ^ 32 = -1).
Proof.
  intros Hr Hn Hv. exists (i64_frag rd val). split; [by apply load_i64_eq|].
  split; [by apply i64_loads|]. unfold loaded64, wrap. cbv zeta.
  case_match eqn:E; Z.div_mod_to_equations; lia.
Qed.

(** The code that [rv_load_guest_addr] appends leaves in [rd] the address that
    [resolve_output_addr] computes with the frame top held in [s0], for every address below
    [0x7FFFF800], tagged or not, and changes nothing else. *)
Theorem load_guest_addr_spec code rd addr :
  reg rd -> rd <> 0 -> rd <> 8 -> 0 <= addr < 0x7FFFF800 ->
  exists frag, rv_load_guest_addr code rd addr = code ++ frag /\
    forall rho, rho 0 = 0 -> exists rho', computes frag rho rho' /\
      rho' rd = resolve_output_addr addr (rho 8) /\ keeps [rd] rho rho'.
Proof.
  intros Hr Hn H8 Ha. unfold rv_load_guest_addr, resolve_output_addr.
  destruct (is_output_frame_ref addr) eqn:E; cbn [negb].
  - assert (0 <= output_frame_delta addr < 0x7FFFF800) as Hd.
    { unfold output_frame_delta, is_output_frame_ref, OUT_FRAME_TAG in *.
      change (wrap 64 (Z.lnot 0x40000000)) with (Z.lor (Z.ones 30) (Z.ones 33 << 31)).
      rewrite Z.land_lor_distr_r, Z.land_ones, (land_mask addr 31 33) by lia.
      replace (addr / 2 ^ 31) with 0 by (Z.div_mod_to_equations; lia).
      change (0 mod 2 ^ 33 * 2 ^ 31) with 0. rewrite Z.lor_0_r. Z.div_mod_to_equations; lia. }
    exists (val_frag rd (output_frame_delta addr) ++ [rv_SUB rd 8 rd]).
    split; [by rewrite load_val_eq, app_assoc|]. intros rho H0.
    destruct (val_loads rd _ Hd Hr Hn rho H0) as (rho1 & C & V & K).
    exists (setreg rho1 rd (wrap 64 (rho 8 - output_frame_delta addr))). split_and!.
    + apply (computes_app _ _ _ _ _ C), computes_r; try done. intros k F3 F7. unfold alu_reg.
      rewrite F7, F3. change (0x20 =? 0x01) with false. cbv iota zeta.
      change (negb (0x20 &b 0x20 =? 0)) with true. cbv iota. rewrite V, K by set_solver. done.
    + by rewrite setreg_same.
    + apply keeps_set; [done|set_solver].
  - exists (val_frag rd addr). split; [apply load_val_eq|]. intros rho H0. by apply val_loads.
Qed.
End Fragments.

Lemma load_i64_witness :
  rv_load_i64 [] 10 2147483647 = [rv_LUI 10 (-2147483648); rv_ADDI 10 10 (-1)] /\
  loads exit_handler [rv_LUI 10 (-2147483648); rv_ADDI 10 10 (-1)] [5; 6; 10] 10
    (2 ^ 64 - 2147483649).
Proof.
  destruct (load_i64_spec exit_handler [] 10 2147483647) as (frag & E & L & _).
  - split; vm_compute; congruence.
  - discriminate.
  - split; vm_compute; congruence.
  - split; [vm_compute; reflexivity|]. cbn [app] in E.
    assert (frag = [rv_LUI 10 (-2147483648); rv_ADDI 10 10 (-1)]) as Ef
      by (rewrite <- E; vm_compute; reflexivity).
    rewrite Ef in L. exact L.
Defined.

Lemma load_guest_addr_witness :
  exists frag, rv_load_guest_addr [] 10 (OUT_FRAME_TAG + 0x8008) = frag /\
    forall rho, rho 0 = 0 -> rho 8 = 0x3FFFF0 ->
    exists rho', computes exit_handler frag rho rho' /\ rho' 10 = 0x3F7FE8.
Proof.
  destruct (load_guest_addr_spec exit_handler [] 10 (OUT_FRAME_TAG + 0x8008)) as (frag & E & L).
  - split; vm_compute; congruence.
  - discriminate.
  - discriminate.
  - split; vm_compute; congruence.
  - exists frag. split; [exact E|]. intros rho H0 H8. destruct (L rho H0) as (rho' & C & V & _).
    exists rho'. split; [exact C|]. rewrite V, H8. vm_compute. reflexivity.
Defined.
