(* ===== verification/RvCopy.v ===== *)
(** * Inline string copy and comparison

    [rv_emit_strcpy] and [rv_emit_strcmp] of [src/mux/modules/engine/hir_codegen.cpp] run on
    the interpreter: the copied bytes, and the order of the strings as bytes. *)

From stdpp Require Import relations.
From S2P Require Import Prelude Machine RvIsa RvEnc RvRun RvConst.

Definition rv_emit_strcpy (code : list Z) (dest_reg src_reg : Z) : list Z :=
  let t0 := 5 in
  let loop := length code in
  let code := code ++ [rv_LBU t0 src_reg 0] in
  let code := code ++ [rv_SB dest_reg t0 0] in
  let code := code ++ [rv_ADDI src_reg src_reg 1] in
  let code := code ++ [rv_ADDI dest_reg dest_reg 1] in
  let off := - word_off (length code) loop in
  code ++ [rv_BNE t0 0 off].

Definition rv_emit_strcmp (code : list Z) (addr_a addr_b out_reg : Z) : list Z :=
  let t0 := 5 in let t1 := 6 in
  let loop := length code in
  let code := code ++ [rv_LBU t0 addr_a 0] in
  let code := code ++ [rv_LBU t1 addr_b 0] in
  let bne_differ := length code in
  let code := code ++ [0] in
  let beq_equal := length code in
  let code := code ++ [0] in
  let code := code ++ [rv_ADDI addr_a addr_a 1] in
  let code := code ++ [rv_ADDI addr_b addr_b 1] in
  let j_loop := length code in
  let code := code ++ [rv_BEQ 0 0 (word_off loop j_loop)] in
  let differ := length code in
  let code := <[bne_differ := rv_BNE t0 t1 (word_off differ bne_differ)]> code in
  let code := code ++ [rv_SLT out_reg t0 t1] in
  let bne_done := length code in
  let code := code ++ [0] in
  let code := code ++ [rv_ADDI out_reg 0 1] in
  let j_done := length code in
  let code := code ++ [0] in
  let neg := length code in
  let code := <[bne_done := rv_BNE out_reg 0 (word_off neg bne_done)]> code in
  let code := code ++ [rv_SUB out_reg 0 out_reg] in
  let j_done2 := length code in
  let code := code ++ [0] in
  let equal := length code in
  let code := <[beq_equal := rv_BEQ t0 0 (word_off equal beq_equal)]> code in
  let code := code ++ [rv_ADDI out_reg 0 0] in
  let done := length code in
  let code := <[j_done := rv_BEQ 0 0 (word_off done j_done)]> code in
  <[j_done2 := rv_BEQ 0 0 (word_off done j_done2)]> code.

(** ** The emitted words *)

(** The words of the two routines. *)
Definition strcpy_code (dest src : Z) : list Z :=
  [rv_LBU 5 src 0; rv_SB dest 5 0; rv_ADDI src src 1; rv_ADDI dest dest 1; rv_BNE 5 0 (-16)].

Definition strcmp_code (a b out : Z) : list Z :=
  [rv_LBU 5 a 0; rv_LBU 6 b 0; rv_BNE 5 6 20; rv_BEQ 5 0 40;
   rv_ADDI a a 1; rv_ADDI b b 1; rv_BEQ 0 0 (-24);
   rv_SLT out 5 6; rv_BNE out 0 12; rv_ADDI out 0 1; rv_BEQ 0 0 16;
   rv_SUB out 0 out; rv_BEQ 0 0 8;
   rv_ADDI out 0 0].

Lemma rv_emit_strcpy_eq code dest src : rv_emit_strcpy code dest src = code ++ strcpy_code dest src.
Proof. cbv beta delta [rv_emit_strcpy]. emit_eq. reflexivity. Qed.

Lemma rv_emit_strcmp_eq code a b out : rv_emit_strcmp code a b out = code ++ strcmp_code a b out.
Proof. cbv beta delta [rv_emit_strcmp]. emit_eq. reflexivity. Qed.

(** ** Running them *)

Section Copy.
Variable eh : rv64_state_t -> bytes -> rv64_state_t * bytes * Z.

Section Strcpy.
Context (dest src : Z) (Hd : reg dest) (Hs : reg src) (Hds : dest <> src)
  (Hd0 : dest <> 0) (Hs0 : src <> 0) (Hd5 : dest <> 5) (Hs5 : src <> 5).

(** One byte. *)
Lemma strcpy_iter d p a b c rho :
  rho 0 = 0 -> rho src = a -> rho dest = b -> code_at d p (strcpy_code dest src) -> data_ok d ->
  inside d a 1 -> inside d b 1 -> nth (Z.to_nat a) d 0 = c -> 0 <= c < 256 -> apart p 20 b 1 ->
  exists rho', goes eh rho p d rho' (if c =? 0 then p + 20 else p) (blit d b [c]) /\
    rho' src = a + 1 /\ rho' dest = b + 1 /\ keeps [5; dest; src] rho rho'.
Proof.
  intros H0 Ha Hb Hc Hok Hia Hib Hn Hcb Hpb.
  assert (reg 5) by (unfold reg; lia). assert (reg 0) by (unfold reg; lia).
  assert (in_s 12 0 /\ in_s 12 1) as [S0 S1] by (split; unfold in_s, smin, smax; lia).
  assert (code_at (blit d b [c]) p (strcpy_code dest src)) as Hc' by (by apply code_at_blit).
  assert (a + 1 < 2 ^ 64 /\ b + 1 < 2 ^ 64) as [B1 B2]
    by (destruct Hc as [[_ L] _], Hia, Hib; lia).
  destruct Hia as [Ia Ja], Hib as [Ib Jb].
  set (rho1 := setreg rho 5 c). set (rho2 := setreg rho1 src (a + 1)).
  set (rho3 := setreg rho2 dest (b + 1)).
  assert (rho1 0 = 0 /\ rho1 src = a /\ rho1 dest = b /\ rho1 5 = c /\ rho2 dest = b /\ rho3 5 = c /\
          rho3 0 = 0) as (E1 & E2 & E3 & E4 & E5 & E6 & E7)
    by (unfold rho3, rho2, rho1; split_and!; by regs).
  exists rho3. split_and!; [|unfold rho3, rho2; by regs|unfold rho3; by regs|].
  2:{ unfold rho3, rho2, rho1. repeat (apply keeps_set; [|set_solver]). done. }
  apply (goes_at _ _ (p + 4 * Z.of_nat 0)); [lia|].
  pose proof (goes_lbu eh d p _ Hc rho 0 5 src 0 a eq_refl) as G. rewrite Hn in G.
  eapply goes_next; [apply G; try done; lia|]. clear G. fold rho1.
  pose proof (goes_sb eh d p _ Hc rho1 1 dest 5 0 b eq_refl) as G.
  rewrite E4, Z.mod_small in G by done.
  eapply goes_next; [apply G; try done; lia|]. clear G.
  pose proof (goes_addi eh _ p _ Hc' rho1 2 src src 1 eq_refl Hs Hs S1) as G.
  rewrite E2, wrap_small in G by (unfold in_u; lia). eapply goes_next; [exact G|]. clear G. fold rho2.
  pose proof (goes_addi eh _ p _ Hc' rho2 3 dest dest 1 eq_refl Hd Hd S1) as G.
  rewrite E5, wrap_small in G by (unfold in_u; lia). eapply goes_next; [exact G|]. clear G. fold rho3.
  pose proof (goes_branch eh _ p _ Hc' rho3 4 BR_BNE 5 0 (-16) (negb (c =? 0)) eq_refl) as G.
  rewrite E6, E7 in G.
  replace (if c =? 0 then p + 20 else p) with (p + 4 * Z.of_nat 4 + if negb (c =? 0) then -16 else 4)
    by (destruct (c =? 0); cbn [negb]; lia).
  destruct Hc as [[P0 _] _]. apply G; try done. lia.
Qed.

(** The routine copies the string and its NUL, and leaves both pointers behind it. *)
Lemma strcpy_run s : forall d p a b rho,
  rho 0 = 0 -> rho src = a -> rho dest = b -> code_at d p (strcpy_code dest src) -> data_ok d ->
  cstring d a s -> inside d b (S (length s)) ->
  apart a (S (length s)) b (S (length s)) -> apart p 20 b (S (length s)) ->
  exists rho', goes eh rho p d rho' (p + 20) (blit d b (s ++ [0])) /\
    rho' src = a + Z.of_nat (S (length s)) /\ rho' dest = b + Z.of_nat (S (length s)) /\
    keeps [5; dest; src] rho rho'.
Proof.
  induction s as [|c s IH]; intros d p a b rho H0 Ha Hb Hc Hok Hstr Hin Hab Hpb.
  - destruct (cstring_nil d a Hstr) as [Hia Hn].
    destruct (strcpy_iter d p a b 0 rho) as (rho' & G & E); try done. by exists rho'.
  - destruct (cstring_cons d a c s Hstr) as (Hia & Hn & Hcb & Hstr').
    cbn [length] in *. unfold inside, apart in Hin, Hab, Hpb.
    assert (inside d b 1) as Hib by (split; lia).
    destruct (strcpy_iter d p a b c rho) as (rho1 & G & E2 & E3 & K); try done; [lia|unfold apart; lia|].
    replace (c =? 0) with false in G by lia.
    assert (length (blit d b [c]) = length d) as L by (by apply blit_length).
    destruct (IH (blit d b [c]) p (a + 1) (b + 1) rho1) as (rho2 & G2 & F2 & F3 & K2); try done.
    + rewrite K; [done|set_solver].
    + apply code_at_blit; [done| |done]. unfold apart. cbn. lia.
    + apply data_ok_blit; [done|]. apply Forall_singleton. unfold byte_ok. lia.
    + destruct Hstr' as [Hh HF]. split; [|done]. apply holds_blit; [done| |done].
      unfold apart. rewrite length_app. cbn. lia.
    + split; [lia|]. rewrite L. lia.
    + unfold apart. lia.
    + unfold apart. lia.
    + exists rho2. split_and!; [|rewrite F2; lia|rewrite F3; lia|by eapply keeps_trans].
      eapply goes_trans; [exact G|].
      change (b + 1) with (b + Z.of_nat (length [c])) in G2. rewrite blit_app in G2; [exact G2|].
      split; [lia|]. rewrite length_app. cbn. lia.
Qed.
End Strcpy.

(** [strcmp] on strings of bytes. *)
Fixpoint strcmp_spec (s t : bytes) : Z :=
  match s, t with
  | [], [] => 0
  | [], _ :: _ => -1
  | _ :: _, [] => 1
  | c :: s, c' :: t => if c <? c' then -1 else if c' <? c then 1 else strcmp_spec s t
  end.

Section Strcmp.
Context (ra rb out : Z) (Ha : reg ra) (Hb : reg rb) (Ho : reg out)
  (Hab : ra <> rb) (Ha0 : ra <> 0) (Hb0 : rb <> 0) (Ho0 : out <> 0)
  (Ha5 : ra <> 5) (Hb5 : rb <> 5) (Ha6 : ra <> 6) (Hb6 : rb <> 6).
Context (d : bytes) (p : Z) (Hc : code_at d p (strcmp_code ra rb out)) (Hok : data_ok d).

(** A branch of the routine, taken or not. *)
Lemma strcmp_branch rho i f3 x y j taken off rho2 p2 :
  strcmp_code ra rb out !! i = Some (rv_b_type f3 x y off) -> reg x -> reg y -> 0 <= f3 < 8 ->
  off = 4 * (Z.of_nat j - Z.of_nat i) -> (i <? 100)%nat = true -> (j <? 100)%nat = true ->
  branch_taken f3 (rho x) (rho y) = Some taken ->
  goes eh rho (p + 4 * Z.of_nat (if taken then j else S i)) d rho2 p2 d ->
  goes eh rho (p + 4 * Z.of_nat i) d rho2 p2 d.
Proof.
  intros. by eapply (goes_if eh d p _ rho i f3 x y j taken off _ _ _ Hc).
Qed.

Definition sign_of (c c' : Z) : Z := if c <? c' then -1 else if c' <? c then 1 else 0.

Lemma sgn_byte c : 0 <= c < 256 -> sgn 64 c = c.
Proof. intros. apply sgn_small; [lia|]. unfold in_s, smin, smax. lia. Qed.

(** From [differ] on. *)
Lemma strcmp_differ rho c c' :
  rho 0 = 0 -> rho 5 = c -> rho 6 = c' -> 0 <= c < 256 -> 0 <= c' < 256 -> c <> c' ->
  exists rho', goes eh rho (p + 4 * Z.of_nat 7) d rho' (p + 4 * Z.of_nat 14) d /\
    rho' out = wrap 64 (sign_of c c') /\ keeps [out] rho rho'.
Proof.
  intros H0 H5 H6 Rc Rc' Hne. pose proof (reg_const 0 eq_refl) as R0.
  pose proof (reg_const 5 eq_refl) as R5. pose proof (reg_const 6 eq_refl) as R6.
  assert (in_s 12 1) as S1 by (unfold in_s, smin, smax; lia).
  pose proof (goes_r eh d p _ Hc (b2z (c <? c')) rho 7 ALU_SLT 0 out 5 6 Ho R5 R6 ltac:(done) ltac:(done) eq_refl) as G.
  set (rho1 := setreg rho out (b2z (c <? c'))) in *.
  assert (rho1 out = b2z (c <? c')) as E1 by (unfold rho1; by regs).
  assert (rho1 0 = 0) as E0 by (unfold rho1; by regs).
  assert (keeps [out] rho rho1) as K1 by (apply keeps_set; [done|set_solver]). clearbody rho1.
  destruct (Z.ltb_spec c c') as [L|L]; cbn [b2z] in *.
  - exists (setreg rho1 out (wrap 64 (-1))). split_and!.
    + eapply goes_next; [apply G; intros k K3 K7; unfold alu_reg; rewrite K3, K7, H5, H6, !sgn_byte by done|].
      { by replace (c <? c') with true by lia. }
      apply (strcmp_branch rho1 8 BR_BNE out 0 11 true 12); try done.
      { by rewrite E1, E0. }
      cbv iota. eapply goes_next; [apply (goes_r eh d p _ Hc (wrap 64 (-1)) rho1 11 ALU_ADD 0x20 out 0 out); try done|].
      { intros k K3 K7. unfold alu_reg. by rewrite K3, K7, E0, E1. }
      apply (strcmp_branch _ 12 BR_BEQ 0 0 14 true 8); try done.
      { unfold branch_taken, BR_BEQ. by rewrite Z.eqb_refl. }
      apply goes_refl.
    + regs. unfold sign_of. by replace (c <? c') with true by lia.
    + apply keeps_set; [done|set_solver].
  - exists (setreg rho1 out (wrap 64 (0 + 1))). split_and!.
    + eapply goes_next; [apply G; intros k K3 K7; unfold alu_reg; rewrite K3, K7, H5, H6, !sgn_byte by done|].
      { by replace (c <? c') with false by lia. }
      apply (strcmp_branch rho1 8 BR_BNE out 0 11 false 12); try done.
      { by rewrite E1, E0. }
      cbv iota. pose proof (goes_addi eh d p _ Hc rho1 9 out 0 1 eq_refl Ho R0 S1) as G2.
      rewrite E0 in G2. eapply goes_next; [exact G2|]. apply (strcmp_branch _ 10 BR_BEQ 0 0 14 true 16); try done.
      { unfold branch_taken, BR_BEQ. by rewrite Z.eqb_refl. }
      apply goes_refl.
    + regs. unfold sign_of. replace (c <? c') with false by lia. by replace (c' <? c) with true by lia.
    + apply keeps_set; [done|set_solver].
Qed.

(** The two loads at the head of the loop. *)
Lemma strcmp_head rho a b c c' rho2 p2 :
  rho ra = a -> rho rb = b -> inside d a 1 -> inside d b 1 ->
  nth (Z.to_nat a) d 0 = c -> nth (Z.to_nat b) d 0 = c' ->
  goes eh (setreg (setreg rho 5 c) 6 c') (p + 4 * Z.of_nat 2) d rho2 p2 d ->
  goes eh rho p d rho2 p2 d.
Proof.
  intros Ea Eb Ia Ib Na Nb G. assert (in_s 12 0) as S0 by (unfold in_s, smin, smax; lia).
  pose proof (reg_const 5 eq_refl) as R5. pose proof (reg_const 6 eq_refl) as R6.
  apply (goes_at _ _ (p + 4 * Z.of_nat 0)); [lia|].
  pose proof (goes_lbu eh d p _ Hc rho 0 5 ra 0 a eq_refl R5 Ha S0) as G1. rewrite Na in G1.
  eapply goes_next; [apply G1; [lia|done|done]|].
  pose proof (goes_lbu eh d p _ Hc (setreg rho 5 c) 1 6 rb 0 b eq_refl R6 Hb S0) as G2.
  rewrite Nb, setreg_other in G2 by done.
  eapply goes_next; [apply G2; [lia|done|done]|]. exact G.
Qed.

Lemma keeps_head rho c c' rho2 :
  keeps [out] (setreg (setreg rho 5 c) 6 c') rho2 -> keeps [5; 6; ra; rb; out] rho rho2.
Proof.
  intros K r Hr. rewrite K by set_solver. by rewrite !setreg_other by (intros ->; set_solver).
Qed.

(** The bytes differ. *)
Lemma strcmp_differs rho a b c c' :
  rho 0 = 0 -> rho ra = a -> rho rb = b -> inside d a 1 -> inside d b 1 ->
  nth (Z.to_nat a) d 0 = c -> nth (Z.to_nat b) d 0 = c' -> 0 <= c < 256 -> 0 <= c' < 256 -> c <> c' ->
  exists rho', goes eh rho p d rho' (p + 4 * Z.of_nat 14) d /\
    rho' out = wrap 64 (sign_of c c') /\ keeps [5; 6; ra; rb; out] rho rho'.
Proof.
  intros H0 Ea Eb Ia Ib Na Nb Rc Rc' Hne.
  destruct (strcmp_differ (setreg (setreg rho 5 c) 6 c') c c') as (rho' & G & E & K);
    try done; try (by regs).
  exists rho'. split_and!; [|done|by eapply keeps_head].
  eapply strcmp_head; try done.
  apply (strcmp_branch _ 2 BR_BNE 5 6 7 true 20); try done.
  regs. unfold branch_taken, BR_BNE. by replace (c =? c') with false by lia.
Qed.

(** Both strings end. *)
Lemma strcmp_ends rho a b :
  rho 0 = 0 -> rho ra = a -> rho rb = b -> inside d a 1 -> inside d b 1 ->
  nth (Z.to_nat a) d 0 = 0 -> nth (Z.to_nat b) d 0 = 0 ->
  exists rho', goes eh rho p d rho' (p + 4 * Z.of_nat 14) d /\
    rho' out = 0 /\ keeps [5; 6; ra; rb; out] rho rho'.
Proof.
  intros H0 Ea Eb Ia Ib Na Nb. assert (in_s 12 0) as S0 by (unfold in_s, smin, smax; lia).
  set (rho1 := setreg (setreg rho 5 0) 6 0).
  exists (setreg rho1 out 0). split_and!; [|by regs|].
  2:{ apply (keeps_head rho 0 0), keeps_set; [done|set_solver]. }
  eapply strcmp_head; try done.
  assert (rho1 0 = 0 /\ rho1 5 = 0 /\ rho1 6 = 0) as (F0 & F5 & F6) by (unfold rho1; split_and!; by regs).
  fold rho1. clearbody rho1.
  apply (strcmp_branch _ 2 BR_BNE 5 6 7 false 20); try done; [by rewrite F5, F6|]. cbv iota.
  apply (strcmp_branch _ 3 BR_BEQ 5 0 13 true 40); try done; [by rewrite F5, F0|]. cbv iota.
  pose proof (goes_addi eh d p _ Hc rho1 13 out 0 0 eq_refl Ho (reg_const 0 eq_refl) S0) as G2.
  rewrite F0 in G2. eapply goes_next; [exact G2|]. apply goes_refl.
Qed.

(** The bytes are equal and not NUL: once round the loop. *)
Lemma strcmp_equal rho a b c :
  rho 0 = 0 -> rho ra = a -> rho rb = b -> inside d a 1 -> inside d b 1 ->
  nth (Z.to_nat a) d 0 = c -> nth (Z.to_nat b) d 0 = c -> 0 < c < 256 ->
  exists rho', goes eh rho p d rho' p d /\ rho' 0 = 0 /\ rho' ra = a + 1 /\ rho' rb = b + 1 /\
    keeps [5; 6; ra; rb; out] rho rho'.
Proof.
  intros H0 Ea Eb Ia Ib Na Nb Rc. assert (in_s 12 1) as S1 by (unfold in_s, smin, smax; lia).
  assert (a + 1 < 2 ^ 64 /\ b + 1 < 2 ^ 64) as [B1 B2] by (destruct Hc as [[_ L] _], Ia, Ib; lia).
  destruct Ia as [Ia Ja], Ib as [Ib Jb].
  set (rho1 := setreg (setreg rho 5 c) 6 c).
  set (rho2 := setreg rho1 ra (a + 1)). set (rho3 := setreg rho2 rb (b + 1)).
  assert (rho1 0 = 0 /\ rho1 5 = c /\ rho1 6 = c /\ rho1 ra = a /\ rho2 rb = b /\ rho3 0 = 0 /\
          rho3 ra = a + 1 /\ rho3 rb = b + 1) as (F0 & F5 & F6 & Fa & Fb & X0 & Xa & Xb)
    by (unfold rho3, rho2, rho1; split_and!; by regs).
  exists rho3. split_and!; try done.
  2:{ unfold rho3, rho2, rho1. repeat (apply keeps_set; [|set_solver]). done. }
  eapply (strcmp_head _ a b); try done. fold rho1.
  apply (strcmp_branch _ 2 BR_BNE 5 6 7 false 20); try done.
  { rewrite F5, F6. unfold branch_taken, BR_BNE. by rewrite Z.eqb_refl. }
  cbv iota. apply (strcmp_branch _ 3 BR_BEQ 5 0 13 false 40); try done.
  { rewrite F5, F0. unfold branch_taken, BR_BEQ. by replace (c =? 0) with false by lia. }
  cbv iota. pose proof (goes_addi eh d p _ Hc rho1 4 ra ra 1 eq_refl Ha Ha S1) as G1.
  rewrite Fa, wrap_small in G1 by (unfold in_u; lia). eapply goes_next; [exact G1|]. fold rho2.
  pose proof (goes_addi eh d p _ Hc rho2 5 rb rb 1 eq_refl Hb Hb S1) as G2.
  rewrite Fb, wrap_small in G2 by (unfold in_u; lia). eapply goes_next; [exact G2|]. fold rho3.
  apply (strcmp_branch _ 6 BR_BEQ 0 0 0 true (-24)); try done.
  { unfold branch_taken, BR_BEQ. by rewrite Z.eqb_refl. }
  cbv iota. replace (p + 4 * Z.of_nat 0) with p by lia. apply goes_refl.
Qed.

(** The routine compares the strings as bytes. *)
Lemma strcmp_run s : forall t a b rho,
  rho 0 = 0 -> rho ra = a -> rho rb = b -> cstring d a s -> cstring d b t ->
  exists rho', goes eh rho p d rho' (p + 4 * Z.of_nat 14) d /\
    rho' out = wrap 64 (strcmp_spec s t) /\ keeps [5; 6; ra; rb; out] rho rho'.
Proof.
  induction s as [|c s IH]; intros t a b rho H0 Ea Eb Hs Ht.
  - destruct (cstring_nil d a Hs) as [Ia Na]. destruct t as [|c' t].
    + destruct (cstring_nil d b Ht) as [Ib Nb]. by eapply strcmp_ends.
    + destruct (cstring_cons d b c' t Ht) as (Ib & Nb & Rc' & _).
      destruct (strcmp_differs rho a b 0 c') as (rho' & G & E & K); try done; [lia|lia|].
      exists rho'. split_and!; try done. rewrite E. unfold sign_of. by replace (0 <? c') with true by lia.
  - destruct (cstring_cons d a c s Hs) as (Ia & Na & Rc & Hs'). destruct t as [|c' t].
    + destruct (cstring_nil d b Ht) as [Ib Nb].
      destruct (strcmp_differs rho a b c 0) as (rho' & G & E & K); try done; [lia|lia|].
      exists rho'. split_and!; try done. rewrite E. unfold sign_of. replace (c <? 0) with false by lia.
      by replace (0 <? c) with true by lia.
    + destruct (cstring_cons d b c' t Ht) as (Ib & Nb & Rc' & Ht').
      cbn [strcmp_spec]. destruct (Z.eq_dec c c') as [->|Hne].
      * destruct (strcmp_equal rho a b c') as (rho1 & G1 & X0 & Xa & Xb & K1); try done.
        destruct (IH t (a + 1) (b + 1) rho1) as (rho' & G & E & K); try done.
        exists rho'. rewrite Z.ltb_irrefl. split_and!; [by eapply goes_trans|done|by eapply keeps_trans].
      * destruct (strcmp_differs rho a b c c') as (rho' & G & E & K); try done; [lia|lia|].
        exists rho'. split_and!; try done. rewrite E. unfold sign_of.
        destruct (Z.ltb_spec c c'); [done|]. by replace (c' <? c) with true by lia.
Qed.
End Strcmp.

(** Inline [strcpy]: the five words that [rv_emit_strcpy] appends, wherever they lie,
    copy a NUL-terminated string to a buffer apart from it and from the code, change nothing
    else in memory and only [t0] and the two pointers, and leave both pointers behind the
    string's NUL. *)
Theorem inline_strcpy_spec code dest src s d p a b rho :
  reg dest -> reg src -> dest <> src -> dest <> 0 -> src <> 0 -> dest <> 5 -> src <> 5 ->
  rho 0 = 0 -> rho src = a -> rho dest = b ->
  rv_emit_strcpy code dest src = code ++ strcpy_code dest src /\
  (code_at d p (strcpy_code dest src) -> data_ok d -> cstring d a s -> inside d b (S (length s)) ->
   apart a (S (length s)) b (S (length s)) -> apart p 20 b (S (length s)) ->
   exists rho', goes eh rho p d rho' (p + 20) (blit d b (s ++ [0])) /\
     rho' src = a + Z.of_nat (S (length s)) /\ rho' dest = b + Z.of_nat (S (length s)) /\
     keeps [5; dest; src] rho rho').
Proof. intros. split; [apply rv_emit_strcpy_eq|]. intros. by apply strcpy_run. Qed.

(** C31: Inline [strcmp]: the fourteen words that [rv_emit_strcmp] appends leave -1, 0 or 1 in
    [out] as the first string is below, equal to or above the second one in the order of
    unsigned bytes, and change no memory and only [t0], [t1], the pointers and [out]. *)
Theorem inline_strcmp_spec code ra rb out s t d p a b rho :
  reg ra -> reg rb -> reg out -> ra <> rb -> ra <> 0 -> rb <> 0 -> out <> 0 ->
  ra <> 5 -> rb <> 5 -> ra <> 6 -> rb <> 6 ->
  rho 0 = 0 -> rho ra = a -> rho rb = b ->
  rv_emit_strcmp code ra rb out = code ++ strcmp_code ra rb out /\
  (code_at d p (strcmp_code ra rb out) -> data_ok d -> cstring d a s -> cstring d b t ->
   exists rho', goes eh rho p d rho' (p + 56) d /\
     rho' out = wrap 64 (strcmp_spec s t) /\ keeps [5; 6; ra; rb; out] rho rho').
Proof.
  intros. split; [apply rv_emit_strcmp_eq|]. intros.
  by apply (strcmp_run ra rb out) with (a := a) (b := b).
Qed.
End Copy.

(** A memory with code at 0, the strings at 64 and 72 and room behind. *)
Definition demo_mem (ws : list Z) (s t : bytes) : bytes :=
  let code := concat (map (split_le 4) ws) in
  let cell n (l : bytes) := l ++ repeat 0 (n - length l) in
  cell 64%nat code ++ cell 8%nat s ++ cell 8%nat t ++ repeat 0 16.

Definition demo_regs (r : Z) : Z := if r =? 10 then 64 else if r =? 11 then 72 else 0.

Lemma inline_strcpy_witness :
  exists rho', goes exit_handler demo_regs 0 (demo_mem (strcpy_code 11 10) [72; 105] []) rho' 20
    (demo_mem (strcpy_code 11 10) [72; 105] [72; 105]).
Proof.
  destruct (inline_strcpy_spec exit_handler [] 11 10 [72; 105]
    (demo_mem (strcpy_code 11 10) [72; 105] []) 0 64 72 demo_regs) as [_ T]; try done.
  destruct T as (rho' & G & _).
  - apply code_atb_sound. vm_compute. reflexivity.
  - apply data_okb_sound. vm_compute. reflexivity.
  - split; [split; vm_compute; congruence|]. repeat (apply Forall_cons; split; [lia|]). apply List.Forall_nil.
  - split; vm_compute; congruence.
  - left. vm_compute. congruence.
  - left. vm_compute. congruence.
  - exists rho'. assert (blit (demo_mem (strcpy_code 11 10) [72; 105] []) 72 ([72; 105] ++ [0]) =
      demo_mem (strcpy_code 11 10) [72; 105] [72; 105]) as <- by (vm_compute; reflexivity).
    exact G.
Defined.

Lemma inline_strcmp_witness :
  exists rho', goes exit_handler demo_regs 0 (demo_mem (strcmp_code 10 11 9) [97; 98] [97; 200]) rho' 56
    (demo_mem (strcmp_code 10 11 9) [97; 98] [97; 200]) /\ rho' 9 = 2 ^ 64 - 1.
Proof.
  destruct (inline_strcmp_spec exit_handler [] 10 11 9 [97; 98] [97; 200]
    (demo_mem (strcmp_code 10 11 9) [97; 98] [97; 200]) 0 64 72 demo_regs) as [_ T]; try done.
  destruct T as (rho' & G & V & _).
  - apply code_atb_sound. vm_compute. reflexivity.
  - apply data_okb_sound. vm_compute. reflexivity.
  - split; [split; vm_compute; congruence|]. repeat (apply Forall_cons; split; [lia|]). apply List.Forall_nil.
  - split; [split; vm_compute; congruence|]. repeat (apply Forall_cons; split; [lia|]). apply List.Forall_nil.
  - exists rho'. split; [exact G|exact V].
Defined.
