(* ===== verification/RvText.v ===== *)
(** * Inline number conversion

    [rv_emit_atoi] and [rv_emit_itoa] of [src/mux/modules/engine/hir_codegen.cpp] run on the
    interpreter, against the decimal text of [mathutil.cpp] ([Decimal]). *)

From stdpp Require Import relations.
From S2P Require Import Prelude Machine Decimal RvIsa RvEnc RvRun.

Definition rv_emit_atoi (code : list Z) (addr_reg out_reg : Z) : list Z :=
  let t0 := 5 in let t1 := 6 in let t2 := 7 in let t3 := 28 in let t4 := 29 in
  let code := code ++ [rv_ADDI t1 0 0] in
  let code := code ++ [rv_ADDI t2 0 0] in
  let code := code ++ [rv_LBU t0 addr_reg 0] in
  let code := code ++ [rv_ADDI t3 0 45] in
  let bne_sign := length code in
  let code := code ++ [0] in
  let code := code ++ [rv_ADDI t2 0 1] in
  let code := code ++ [rv_ADDI addr_reg addr_reg 1] in
  let skip_sign := length code in
  let code := <[bne_sign := rv_BNE t0 t3 (word_off skip_sign bne_sign)]> code in
  let code := code ++ [rv_LBU t0 addr_reg 0] in
  let digit_loop := length code in
  let code := code ++ [rv_ADDI t4 t0 (-48)] in
  let code := code ++ [rv_ADDI t3 0 10] in
  let bgeu_done := length code in
  let code := code ++ [0] in
  let code := code ++ [rv_MUL t1 t1 t3] in
  let code := code ++ [rv_ADD t1 t1 t4] in
  let code := code ++ [rv_ADDI addr_reg addr_reg 1] in
  let code := code ++ [rv_LBU t0 addr_reg 0] in
  let bk := length code in
  let code := code ++ [rv_BEQ 0 0 (word_off digit_loop bk)] in
  let done := length code in
  let code := <[bgeu_done := rv_BGEU t4 t3 (word_off done bgeu_done)]> code in
  let beq_pos := length code in
  let code := code ++ [0] in
  let code := code ++ [rv_SUB t1 0 t1] in
  let skip_neg := length code in
  let code := <[beq_pos := rv_BEQ t2 0 (word_off skip_neg beq_pos)]> code in
  code ++ [rv_ADDI out_reg t1 0].

Definition rv_emit_itoa (code : list Z) (val_reg buf_reg : Z) : list Z :=
  let t0 := 5 in let t1 := 6 in let t2 := 7 in let t3 := 28 in let t4 := 29 in
  let t5 := 30 in let t6 := 31 in
  let code := code ++ [rv_ADDI t0 buf_reg 0] in
  let code := code ++ [rv_ADDI t1 val_reg 0] in
  let bge_pos := length code in
  let code := code ++ [0] in
  let code := code ++ [rv_ADDI t4 0 45] in
  let code := code ++ [rv_SB t0 t4 0] in
  let code := code ++ [rv_ADDI t0 t0 1] in
  let j_norm := length code in
  let code := code ++ [0] in
  let nonneg := length code in
  let code := <[bge_pos := rv_BGE t1 0 (word_off nonneg bge_pos)]> code in
  let code := code ++ [rv_SUB t1 0 t1] in
  let skip_neg := length code in
  let code := <[j_norm := rv_BEQ 0 0 (word_off skip_neg j_norm)]> code in
  let code := code ++ [rv_ADDI t5 t0 0] in
  let bne_nz := length code in
  let code := code ++ [0] in
  let code := code ++ [rv_ADDI t4 0 48] in
  let code := code ++ [rv_SB t0 t4 0] in
  let code := code ++ [rv_ADDI t0 t0 1] in
  let beq_nul := length code in
  let code := code ++ [0] in
  let digit_loop := length code in
  let code := <[bne_nz := rv_BNE t1 0 (word_off digit_loop bne_nz)]> code in
  let code := code ++ [rv_ADDI t3 0 10] in
  let code := code ++ [rv_REM t2 t1 t3] in
  let code := code ++ [rv_DIV t1 t1 t3] in
  let code := code ++ [rv_SUB t2 0 t2] in
  let code := code ++ [rv_ADDI t2 t2 48] in
  let code := code ++ [rv_SB t0 t2 0] in
  let code := code ++ [rv_ADDI t0 t0 1] in
  let code := code ++ [rv_BNE t1 0 (word_off digit_loop (length code))] in
  let nul_term := length code in
  let code := <[beq_nul := rv_BEQ 0 0 (word_off nul_term beq_nul)]> code in
  let code := code ++ [rv_SB t0 0 0] in
  let code := code ++ [rv_ADDI t6 t0 (-1)] in
  let rev_loop := length code in
  let bge_rev := length code in
  let code := code ++ [0] in
  let code := code ++ [rv_LBU t3 t5 0] in
  let code := code ++ [rv_LBU t4 t6 0] in
  let code := code ++ [rv_SB t5 t4 0] in
  let code := code ++ [rv_SB t6 t3 0] in
  let code := code ++ [rv_ADDI t5 t5 1] in
  let code := code ++ [rv_ADDI t6 t6 (-1)] in
  let code := code ++ [rv_BEQ 0 0 (word_off rev_loop (length code))] in
  let done := length code in
  <[bge_rev := rv_BGE t5 t6 (word_off done bge_rev)]> code.

Definition atoi_code (ra out : Z) : list Z :=
  [rv_ADDI 6 0 0; rv_ADDI 7 0 0; rv_LBU 5 ra 0; rv_ADDI 28 0 45; rv_BNE 5 28 12;
   rv_ADDI 7 0 1; rv_ADDI ra ra 1;
   rv_LBU 5 ra 0;
   rv_ADDI 29 5 (-48); rv_ADDI 28 0 10; rv_BGEU 29 28 24; rv_MUL 6 6 28; rv_ADD 6 6 29;
   rv_ADDI ra ra 1; rv_LBU 5 ra 0; rv_BEQ 0 0 (-28);
   rv_BEQ 7 0 8; rv_SUB 6 0 6; rv_ADDI out 6 0].

Definition itoa_code (val buf : Z) : list Z :=
  [rv_ADDI 5 buf 0; rv_ADDI 6 val 0; rv_BGE 6 0 20; rv_ADDI 29 0 45; rv_SB 5 29 0; rv_ADDI 5 5 1;
   rv_BEQ 0 0 8; rv_SUB 6 0 6;
   rv_ADDI 30 5 0; rv_BNE 6 0 20; rv_ADDI 29 0 48; rv_SB 5 29 0; rv_ADDI 5 5 1; rv_BEQ 0 0 36;
   rv_ADDI 28 0 10; rv_REM 7 6 28; rv_DIV 6 6 28; rv_SUB 7 0 7; rv_ADDI 7 7 48; rv_SB 5 7 0;
   rv_ADDI 5 5 1; rv_BNE 6 0 (-28);
   rv_SB 5 0 0; rv_ADDI 31 5 (-1);
   rv_BGE 30 31 32; rv_LBU 28 30 0; rv_LBU 29 31 0; rv_SB 30 29 0; rv_SB 31 28 0;
   rv_ADDI 30 30 1; rv_ADDI 31 31 (-1); rv_BEQ 0 0 (-28)].

Lemma rv_emit_atoi_eq code ra out : rv_emit_atoi code ra out = code ++ atoi_code ra out.
Proof. cbv beta delta [rv_emit_atoi]. emit_eq. reflexivity. Qed.

Lemma rv_emit_itoa_eq code val buf : rv_emit_itoa code val buf = code ++ itoa_code val buf.
Proof. cbv beta delta [rv_emit_itoa]. emit_eq. reflexivity. Qed.

(** ** atoi *)

Lemma in_s12 v : (-2048 <=? v) && (v <=? 2047) = true -> in_s 12 v.
Proof. unfold in_s, smin, smax. lia. Qed.

(** Registers and immediates that are constants. *)
Ltac rg := first [done | by apply reg_const | by apply in_s12].

Section Atoi.
Variable eh : rv64_state_t -> bytes -> rv64_state_t * bytes * Z.
Context (ra out : Z) (Ha : reg ra) (Ho : reg out) (Ho0 : out <> 0)
  (Hra : ra ∉ [0; 5; 6; 7; 28; 29]).
Context (d : bytes) (p : Z) (Hc : code_at d p (atoi_code ra out)) (Hok : data_ok d).

Local Abbreviation pos i := (p + 4 * Z.of_nat i).
Local Abbreviation addi := (goes_addi eh d p (atoi_code ra out) Hc).

Lemma ra_ne : ra <> 0 /\ ra <> 5 /\ ra <> 6 /\ ra <> 7 /\ ra <> 28 /\ ra <> 29.
Proof. clear -Hra. split_and!; intros ->; set_solver. Qed.

(** The test of a byte: [byte - '0'] as an unsigned number against 10. *)
Lemma digit_test c : 0 <= c < 256 -> (10 <=? wrap 64 (c + -48)) = negb (mux_isdigit c).
Proof.
  intros Hb. unfold mux_isdigit, in_rng, wrap. destruct (Z.ltb_spec c 48).
  - assert ((c + -48) mod 2 ^ 64 = c - 48 + 2 ^ 64) as -> by (symmetry; apply Z.mod_unique with (q := -1); lia).
    lia.
  - rewrite Z.mod_small by lia. lia.
Qed.

(** One digit of the loop. *)
Lemma atoi_digit rho a acc c c' :
  rho 0 = 0 -> rho ra = a -> rho 5 = c -> rho 6 = acc -> mux_isdigit c = true ->
  0 <= a -> inside d (a + 1) 1 -> nth (Z.to_nat (a + 1)) d 0 = c' ->
  exists rho', goes eh rho (pos 8) d rho' (pos 8) d /\ rho' 0 = 0 /\ rho' ra = a + 1 /\ rho' 5 = c' /\
    rho' 6 = wrap 64 (acc * 10 + (c - 48)) /\ keeps [5; 6; 28; 29; ra] rho rho'.
Proof.
  intros H0 Era E5 E6 Hd Ha0 Hi Hn. destruct ra_ne as (N0 & N5 & N6 & N7 & N28 & N29).
  pose proof (isdigit_digit c Hd) as [_ Hcb]. assert (a + 1 < 2 ^ 64) as Hw by (destruct Hc as [[_ L] _], Hi; lia).
  set (r1 := setreg rho 29 (c - 48)). set (r2 := setreg r1 28 10).
  set (r3 := setreg r2 6 (wrap 64 (acc * 10))). set (r4 := setreg r3 6 (wrap 64 (acc * 10 + (c - 48)))).
  set (r5 := setreg r4 ra (a + 1)). set (r6 := setreg r5 5 c').
  assert (r1 0 = 0 /\ r2 29 = c - 48 /\ r2 28 = 10 /\ r2 6 = acc /\ r3 6 = wrap 64 (acc * 10) /\
          r3 29 = c - 48 /\ r4 ra = a /\ r5 ra = a + 1) as (F1 & F2 & F3 & F4 & F5 & F6 & F7 & F8)
    by (unfold r5, r4, r3, r2, r1; split_and!; by regs).
  exists r6. split_and!; try (unfold r6, r5, r4, r3, r2, r1; by regs).
  2:{ unfold r6, r5, r4, r3, r2, r1. repeat (apply keeps_set; [|set_solver]). done. }
  pose proof (addi rho 8 29 5 (-48) eq_refl ltac:(rg) ltac:(rg) ltac:(rg)) as G.
  rewrite E5, wrap_small in G by (unfold in_u; lia). eapply goes_next; [exact G|]. clear G.
  replace (c + -48) with (c - 48) by lia. fold r1.
  pose proof (addi r1 9 28 0 10 eq_refl ltac:(rg) ltac:(rg) ltac:(rg)) as G.
  rewrite F1 in G. change (wrap 64 (0 + 10)) with 10 in G. eapply goes_next; [exact G|]. clear G. fold r2.
  eapply (goes_if eh d p _ r2 10 BR_BGEU 29 28 16 false 24 _ _ _ Hc); try rg.
  { rewrite F2, F3. cbn. f_equal. lia. }
  cbv iota. eapply goes_next.
  { eapply (goes_r eh d p _ Hc (wrap 64 (acc * 10)) r2 11 0 0x01 6 6 28); try rg.
    intros k K3 K7. unfold alu_reg. by rewrite K3, K7, F4, F3. }
  fold r3. eapply goes_next.
  { eapply (goes_r eh d p _ Hc (wrap 64 (acc * 10 + (c - 48))) r3 12 ALU_ADD 0 6 6 29); try rg.
    intros k K3 K7. unfold alu_reg. rewrite K3, K7, F5, F6. apply (wrap_add_l 64). }
  fold r4. pose proof (addi r4 13 ra ra 1 eq_refl Ha Ha ltac:(rg)) as G.
  rewrite F7, wrap_small in G by (unfold in_u; lia). eapply goes_next; [exact G|]. clear G. fold r5.
  pose proof (goes_lbu eh d p _ Hc r5 14 5 ra 0 (a + 1) eq_refl ltac:(rg) Ha ltac:(rg)) as G.
  rewrite Hn in G. eapply goes_next; [apply G; [lia|done|done]|]. clear G. fold r6.
  eapply (goes_j eh d p _ r6 15 8 (-28)); try done. apply goes_refl.
Qed.

(** The byte at the head of a string, its NUL included. *)
Lemma cstring_head s a :
  cstring d a s -> inside d a 1 /\ nth (Z.to_nat a) d 0 = chr_at s 0 /\ 0 <= chr_at s 0 < 256.
Proof.
  destruct s as [|c s]; intros H.
  - destruct (cstring_nil d a H). done.
  - destruct (cstring_cons d a c s H) as (H1 & H2 & H3 & _). change (chr_at (c :: s) 0) with c.
    split_and!; try done; lia.
Qed.

(** A byte that is no digit ends the loop. *)
Lemma atoi_stop rho c :
  rho 0 = 0 -> rho 5 = c -> mux_isdigit c = false -> 0 <= c < 256 ->
  exists rho', goes eh rho (pos 8) d rho' (pos 16) d /\ keeps [28; 29] rho rho'.
Proof.
  intros H0 E5 Hd Hcb. set (r1 := setreg rho 29 (wrap 64 (c + -48))). set (r2 := setreg r1 28 10).
  assert (r1 0 = 0 /\ r2 29 = wrap 64 (c + -48) /\ r2 28 = 10) as (F1 & F2 & F3)
    by (unfold r2, r1; split_and!; by regs).
  exists r2. split; [|unfold r2, r1; repeat (apply keeps_set; [|set_solver]); done].
  pose proof (addi rho 8 29 5 (-48) eq_refl ltac:(rg) ltac:(rg) ltac:(rg)) as G.
  rewrite E5 in G. eapply goes_next; [exact G|]. clear G. fold r1.
  pose proof (addi r1 9 28 0 10 eq_refl ltac:(rg) ltac:(rg) ltac:(rg)) as G.
  rewrite F1 in G. change (wrap 64 (0 + 10)) with 10 in G. eapply goes_next; [exact G|]. clear G. fold r2.
  eapply (goes_if eh d p _ r2 10 BR_BGEU 29 28 16 true 24 _ _ _ Hc); try rg; [|apply goes_refl].
  rewrite F2, F3. change (branch_taken BR_BGEU ?a ?b) with (Some (b <=? a)).
  by rewrite digit_test, Hd.
Qed.

Lemma value_cons c l : value 10 (c :: l) = digit c * 10 ^ Z.of_nat (length l) + value 10 l.
Proof. change (c :: l) with ([c] ++ l). by rewrite value_app, value_single. Qed.

Lemma wrap_muladd w x k v : wrap w (wrap w x * k + v) = wrap w (x * k + v).
Proof. rewrite <- wrap_add_l, wrap_mul_l. apply wrap_add_l. Qed.

(** The digit loop: from the byte at the head of [s] to the test that ends it. *)
Lemma inline_atoi_loop s : forall rho a,
  rho 0 = 0 -> rho ra = a -> rho 5 = chr_at s 0 -> cstring d a s ->
  exists rho', goes eh rho (pos 8) d rho' (pos 16) d /\
    wrap 64 (rho' 6) = wrap 64 (rho 6 * 10 ^ Z.of_nat (length (digit_run s)) + value 10 (digit_run s)) /\
    keeps [5; 6; 28; 29; ra] rho rho'.
Proof.
  induction s as [|c s IH]; intros rho a H0 Era E5 Hs.
  - destruct (atoi_stop rho 0) as (rho' & G & K); try done. exists rho'. split_and!; [done| |].
    + rewrite K by set_solver. f_equal. change (digit_run []) with (@nil Z).
      change (value 10 []) with 0. cbn [length]. lia.
    + intros r Hr. apply K. set_solver.
  - destruct (cstring_cons d a c s Hs) as (Hi & Hn & Hcb & Hs'). change (chr_at (c :: s) 0) with c in E5.
    cbn [digit_run]. destruct (mux_isdigit c) eqn:Hd.
    + destruct (cstring_head s (a + 1) Hs') as (Hi' & Hn' & _).
      destruct (atoi_digit rho a (rho 6) c (chr_at s 0)) as (rho1 & G1 & F0 & Fa & F5 & F6 & K1);
        try done; [apply Hi|].
      destruct (IH rho1 (a + 1)) as (rho' & G & V & K); try done.
      exists rho'. split_and!; [by eapply goes_trans| |by eapply keeps_trans].
      rewrite V, F6, value_cons, wrap_muladd. destruct (isdigit_digit c Hd) as [-> _]. cbn [length].
      rewrite Nat2Z.inj_succ, Z.pow_succ_r by lia. f_equal. ring.
    + destruct (atoi_stop rho c) as (rho' & G & K); try done; [lia|]. exists rho'. split_and!; [done| |].
      * rewrite K by set_solver. f_equal. change (value 10 []) with 0. cbn [length]. lia.
      * intros r Hr. apply K. set_solver.
Qed.

(** The accumulator, the flag, the first byte and the minus sign. *)
Lemma atoi_prologue rho a s :
  rho 0 = 0 -> rho ra = a -> cstring d a s ->
  exists rho', goes eh rho (pos 0) d rho' (pos 4) d /\ rho' 0 = 0 /\ rho' 6 = 0 /\ rho' ra = a /\
    rho' 5 = chr_at s 0 /\ rho' 28 = 45 /\ rho' 7 = 0 /\ keeps [5; 6; 7; 28; ra] rho rho'.
Proof.
  intros H0 Era Hs. destruct ra_ne as (N0 & N5 & N6 & N7 & N28 & N29).
  destruct (cstring_head s a Hs) as (Hi & Hn & Hb).
  set (r1 := setreg rho 6 0). set (r2 := setreg r1 7 0). set (r3 := setreg r2 5 (chr_at s 0)).
  set (r4 := setreg r3 28 45).
  assert (r1 0 = 0 /\ r2 ra = a /\ r3 0 = 0) as (F1 & F2 & F3)
    by (unfold r3, r2, r1; split_and!; by regs).
  exists r4. split_and!; try (unfold r4, r3, r2, r1; by regs).
  2:{ unfold r4, r3, r2, r1; repeat (apply keeps_set; [|set_solver]); done. }
  pose proof (addi rho 0 6 0 0 eq_refl ltac:(rg) ltac:(rg) ltac:(rg)) as G.
  rewrite H0 in G. eapply goes_next; [exact G|]. clear G. change (wrap 64 (0 + 0)) with 0. fold r1.
  pose proof (addi r1 1 7 0 0 eq_refl ltac:(rg) ltac:(rg) ltac:(rg)) as G.
  rewrite F1 in G. eapply goes_next; [exact G|]. clear G. change (wrap 64 (0 + 0)) with 0. fold r2.
  pose proof (goes_lbu eh d p _ Hc r2 2 5 ra 0 a eq_refl ltac:(rg) Ha ltac:(rg)) as G.
  rewrite Hn in G. eapply goes_next; [apply G; [lia|done|done]|]. clear G. fold r3.
  pose proof (addi r3 3 28 0 45 eq_refl ltac:(rg) ltac:(rg) ltac:(rg)) as G.
  rewrite F3 in G. eapply goes_next; [exact G|]. apply goes_refl.
Qed.

Lemma atoi_reload rho a t :
  rho ra = a -> cstring d a t -> goes eh rho (pos 7) d (setreg rho 5 (chr_at t 0)) (pos 8) d.
Proof.
  intros Ea Ht. destruct (cstring_head t a Ht) as (Hi & Hn & _).
  pose proof (goes_lbu eh d p _ Hc rho 7 5 ra 0 a eq_refl ltac:(rg) Ha ltac:(rg)) as G.
  rewrite Hn in G. eapply goes_next; [apply G; [lia|done|done]|]. apply goes_refl.
Qed.

(** What is read after a minus sign. *)
Definition after_sign (s : bytes) : bytes := if chr_at s 0 =? 45 then drop 1 s else s.

(** The sign: the flag is left in [t2] and the byte after the sign in [t0]. *)
Lemma atoi_sign rho a s :
  rho 0 = 0 -> rho ra = a -> cstring d a s ->
  exists rho' a', goes eh rho (pos 0) d rho' (pos 8) d /\ rho' 0 = 0 /\ rho' 6 = 0 /\
    rho' ra = a' /\ rho' 5 = chr_at (after_sign s) 0 /\ rho' 7 = b2z (chr_at s 0 =? 45) /\
    keeps [5; 6; 7; 28; ra] rho rho' /\ cstring d a' (after_sign s).
Proof.
  intros H0 Era Hs. destruct ra_ne as (N0 & N5 & N6 & N7 & N28 & N29). unfold after_sign.
  destruct (atoi_prologue rho a s H0 Era Hs) as (r4 & Pre & F0 & F6 & Fa & F5 & F28 & F7 & K4).
  destruct (Z.eqb_spec (chr_at s 0) 45) as [E|E]; cbn [b2z].
  - destruct s as [|c s]; [done|]. change (chr_at (c :: s) 0) with c in *. cbn [drop].
    destruct (cstring_cons d a c s Hs) as (Hi & _ & _ & Hs').
    assert (a + 1 < 2 ^ 64) as Hw by (destruct Hc as [[_ L] _], Hi; lia).
    set (r5 := setreg r4 7 1). set (r6 := setreg r5 ra (a + 1)).
    assert (r5 ra = a /\ r6 ra = a + 1) as [G5 G6] by (unfold r6, r5; split; by regs).
    exists (setreg r6 5 (chr_at s 0)), (a + 1). split_and!; try (unfold r6, r5; by regs).
    + eapply goes_trans; [exact Pre|].
      eapply (goes_if eh d p _ r4 4 BR_BNE 5 28 7 false 12 _ _ _ Hc); try rg.
      { by rewrite F5, F28, E. }
      cbv iota. pose proof (addi r4 5 7 0 1 eq_refl ltac:(rg) ltac:(rg) ltac:(rg)) as G.
      rewrite F0 in G. eapply goes_next; [exact G|]. clear G. change (wrap 64 (0 + 1)) with 1. fold r5.
      pose proof (addi r5 6 ra ra 1 eq_refl Ha Ha ltac:(rg)) as G.
      rewrite G5, wrap_small in G by (unfold in_u; destruct Hi; lia).
      eapply goes_next; [exact G|]. fold r6. by eapply atoi_reload.
    + eapply keeps_trans; [exact K4|]. unfold r6, r5. repeat (apply keeps_set; [|set_solver]). done.
  - exists (setreg r4 5 (chr_at s 0)), a. split_and!; try (by regs).
    2:{ eapply keeps_trans; [exact K4|]. apply keeps_set; [done|set_solver]. }
    eapply goes_trans; [exact Pre|].
    eapply (goes_if eh d p _ r4 4 BR_BNE 5 28 7 true 12 _ _ _ Hc); try rg.
    { rewrite F5, F28. unfold branch_taken, BR_BNE. by replace (chr_at s 0 =? 45) with false by lia. }
    cbv iota. by eapply atoi_reload.
Qed.

(** What the routine reads: a minus sign, then digits up to the first byte that is none. *)
Definition inline_atoi (s : bytes) : Z :=
  let v := value 10 (digit_run (after_sign s)) in
  wrap 64 (if chr_at s 0 =? 45 then - v else v).

Lemma atoi_run rho a s :
  rho 0 = 0 -> rho ra = a -> cstring d a s ->
  exists rho', goes eh rho p d rho' (pos 19) d /\ rho' out = inline_atoi s /\
    keeps [5; 6; 7; 28; 29; ra; out] rho rho'.
Proof.
  intros H0 Era Hs. destruct ra_ne as (N0 & N5 & N6 & N7 & N28 & N29).
  destruct (atoi_sign rho a s H0 Era Hs) as (r1 & a' & G1 & F0 & F6 & Fa & F5 & F7 & K1 & Hs').
  destruct (inline_atoi_loop (after_sign s) r1 a' F0 Fa F5 Hs') as (r2 & G2 & V & K2).
  rewrite F6 in V. change (0 * _) with 0 in V. rewrite Z.add_0_l in V.
  assert (r2 7 = b2z (chr_at s 0 =? 45) /\ r2 0 = 0) as [E7 E0] by (rewrite !K2 by set_solver; done).
  assert (exists r3, goes eh r2 (pos 16) d r3 (pos 18) d /\ wrap 64 (r3 6) = inline_atoi s /\ keeps [6] r2 r3)
    as (r3 & G3 & V3 & K3).
  { unfold inline_atoi. destruct (chr_at s 0 =? 45); cbn [b2z] in E7.
    - exists (setreg r2 6 (wrap 64 (- r2 6))). split_and!; [|regs|by apply keeps_set; [|set_solver]].
      + eapply (goes_if eh d p _ r2 16 BR_BEQ 7 0 18 false 8 _ _ _ Hc); try rg; [by rewrite E7, E0|].
        cbv iota. eapply goes_next; [|apply goes_refl].
        eapply (goes_r eh d p _ Hc _ r2 17 ALU_ADD 0x20 6 0 6); try rg.
        intros k X3 X7. unfold alu_reg. by rewrite X3, X7, E0.
      + rewrite wrap_wrap. change (- r2 6) with (0 - r2 6). rewrite <- wrap_sub_r, V.
        by rewrite wrap_sub_r.
    - exists r2. split_and!; [|done|done].
      eapply (goes_if eh d p _ r2 16 BR_BEQ 7 0 18 true 8 _ _ _ Hc); try rg; [by rewrite E7, E0|].
      apply goes_refl. }
  exists (setreg r3 out (inline_atoi s)). split_and!; [|by regs|].
  - apply (goes_at _ _ (pos 0)); [lia|]. eapply goes_trans; [exact G1|].
    eapply goes_trans; [exact G2|]. eapply goes_trans; [exact G3|].
    pose proof (addi r3 18 out 6 0 eq_refl Ho ltac:(rg) ltac:(rg)) as G.
    rewrite Z.add_0_r, V3 in G. eapply goes_next; [exact G|]. apply goes_refl.
  - apply keeps_set; [|set_solver]. intros r Hr. rewrite K3, K2, K1 by set_solver. done.
Qed.
End Atoi.

(** ** itoa *)

(** *** Numerals are unique *)
Lemma digit_inj b c : is_digit_of 10 b -> is_digit_of 10 c -> digit b = digit c -> b = c.
Proof.
  intros Hb Hc E. pose proof (is_digit_of_10 b Hb) as Rb. pose proof (is_digit_of_10 c Hc) as Rc.
  unfold digit in E. rewrite Rb, Rc in E. lia.
Qed.

Lemma value_snoc l b : value 10 (l ++ [b]) = 10 * value 10 l + digit b.
Proof.
  rewrite value_app, value_single. cbn [length]. change (Z.of_nat 1) with 1. rewrite Z.pow_1_r. ring.
Qed.

Lemma value_inj l : forall k,
  length l = length k -> Forall (is_digit_of 10) l -> Forall (is_digit_of 10) k ->
  value 10 l = value 10 k -> l = k.
Proof.
  induction l as [|b l IH] using rev_ind; intros k L Fl Fk E.
  { by destruct k. }
  destruct k as [|c k _] using rev_ind; [rewrite length_app in L; cbn in L; lia|].
  rewrite !length_app in L. cbn [length] in L.
  apply Forall_app in Fl as [Fl Fb], Fk as [Fk Fc]. rewrite Forall_singleton in Fb, Fc.
  rewrite !value_snoc in E. pose proof Fb as Db. pose proof Fc as Dc. unfold is_digit_of in Db, Dc.
  assert (digit b = digit c /\ value 10 l = value 10 k) as [E1 E2] by lia.
  rewrite (digit_inj b c Fb Fc E1), (IH k); try done. lia.
Qed.

Lemma numeral_unique v l k : numeral 10 v l -> numeral 10 v k -> l = k.
Proof.
  assert (forall v l k, numeral 10 v l -> numeral 10 v k -> (length l <= length k)%nat) as LE.
  { clear. intros v l k Hl (E & F & b & r & -> & Hz).
    pose proof (value_bound 10 (b :: r) ltac:(lia) F) as [_ B]. rewrite E in B.
    apply (numeral_length 10 v l); [lia|done|exact B|cbn; lia]. }
  intros Hl Hk. pose proof (LE v l k Hl Hk). pose proof (LE v k l Hk Hl).
  destruct Hl as (El & Fl & _), Hk as (Ek & Fk & _).
  apply value_inj; [lia|done|done|by rewrite El].
Qed.

(** *** Memory of the buffer *)
Lemma blit_insert d b X k c :
  inside d b (length X) -> (k < length X)%nat ->
  blit (blit d b X) (b + Z.of_nat k) [c] = blit d b (<[k := c]> X).
Proof.
  intros Hi Hk. pose proof Hi as [H0 H1]. assert (length (blit d b X) = length d) by (by apply blit_length).
  apply list_eq. intros i. rewrite blit_lookup by (split; [lia|cbn; lia]).
  rewrite !blit_lookup by (rewrite ?length_insert; done). rewrite length_insert. cbn [length].
  destruct (decide (i = Z.to_nat b + k)%nat) as [->|N].
  - rewrite !decide_True by lia.
    replace (Z.to_nat b + k - Z.to_nat (b + Z.of_nat k))%nat with 0%nat by lia.
    replace (Z.to_nat b + k - Z.to_nat b)%nat with k by lia. by rewrite list_lookup_insert_eq.
  - rewrite decide_False by lia. case_decide; [|done]. rewrite list_lookup_insert_ne by lia. done.
Qed.

Lemma blit_nth d b X k :
  inside d b (length X) -> (k < length X)%nat -> nth (Z.to_nat (b + Z.of_nat k)) (blit d b X) 0 = chr_at X k.
Proof.
  intros Hi Hk. pose proof Hi as [H0 H1]. rewrite nth_lookup, blit_lookup by done.
  rewrite decide_True by lia. unfold chr_at. rewrite nth_lookup. do 2 f_equal. lia.
Qed.

Section Itoa.
Variable eh : rv64_state_t -> bytes -> rv64_state_t * bytes * Z.
Context (val buf : Z) (Hv : reg val) (Hb : reg buf)
  (Hval : val ∉ [5]).
Context (d : bytes) (p b : Z) (Hc : code_at d p (itoa_code val buf)) (Hok : data_ok d)
  (Hin : inside d b 21) (Hap : apart p 128 b 21).

Local Abbreviation pos i := (p + 4 * Z.of_nat i).
Local Abbreviation mem w := (blit d b w).

Lemma itoa_code_at w : (length w <= 21)%nat -> code_at (mem w) p (itoa_code val buf).
Proof.
  intros L. destruct Hin. apply code_at_blit; [split; lia| |done].
  unfold apart in *. change (4 * length (itoa_code val buf))%nat with 128%nat. lia.
Qed.

Lemma itoa_ok w : data_ok w -> data_ok (mem w).
Proof. intros. by apply data_ok_blit. Qed.

Lemma itoa_addr k : (k <= 21)%nat -> 0 <= b + Z.of_nat k < 2 ^ 63.
Proof. intros. destruct Hin, Hc as [[_ L] _]. lia. Qed.

Lemma itoa_inside w k : (length w <= 21)%nat -> (k < 21)%nat -> inside (mem w) (b + Z.of_nat k) 1.
Proof.
  intros L Hk. destruct Hin as [H0 H1]. assert (inside d b (length w)) by (split; lia).
  split; [lia|]. rewrite blit_length by done. lia.
Qed.

(** Appending a byte to the buffer. *)
Lemma itoa_push w c : (length w < 21)%nat -> blit (mem w) (b + Z.of_nat (length w)) [c] = mem (w ++ [c]).
Proof. intros L. apply blit_app. destruct Hin. split; cbn; lia. Qed.

Lemma itoa_sb rho i r w c :
  itoa_code val buf !! i = Some (rv_SB 5 r 0) -> reg r ->
  rho 5 = b + Z.of_nat (length w) -> rho r mod 256 = c -> (length w < 21)%nat ->
  goes eh rho (pos i) (mem w) rho (pos i + 4) (mem (w ++ [c])).
Proof.
  intros E Hr E5 Er L. rewrite <- itoa_push by done.
  pose proof (goes_sb eh (mem w) p _ (itoa_code_at w ltac:(lia)) rho i 5 r 0
    (b + Z.of_nat (length w)) E ltac:(rg) Hr ltac:(rg)) as G.
  rewrite Er in G. apply G; [lia|]. apply itoa_inside; lia.
Qed.

Lemma itoa_addi rho i r a k w :
  itoa_code val buf !! i = Some (rv_ADDI r a k) -> reg r -> reg a -> in_s 12 k -> (length w <= 21)%nat ->
  goes eh rho (pos i) (mem w) (setreg rho r (wrap 64 (rho a + k))) (pos i + 4) (mem w).
Proof. intros E Hr Ha Hk L. by apply (goes_addi eh _ p _ (itoa_code_at w L)). Qed.

Lemma itoa_if rho i f3 x y j taken off w rho2 p2 d2 :
  itoa_code val buf !! i = Some (rv_b_type f3 x y off) -> reg x -> reg y -> 0 <= f3 < 8 ->
  off = 4 * (Z.of_nat j - Z.of_nat i) -> (i <? 100)%nat = true -> (j <? 100)%nat = true ->
  branch_taken f3 (rho x) (rho y) = Some taken -> (length w <= 21)%nat ->
  goes eh rho (pos (if taken then j else S i)) (mem w) rho2 p2 d2 ->
  goes eh rho (pos i) (mem w) rho2 p2 d2.
Proof.
  intros E Hx Hy H3 Ho Hi Hj HT L G.
  by eapply (goes_if eh (mem w) p _ rho i f3 x y j taken off _ _ _ (itoa_code_at w L)).
Qed.

(** Every register of the routine. *)
Definition itoa_regs : list Z := [5; 6; 7; 28; 29; 30; 31].

(** A byte written at the end of the text, and the pointer moved behind it. *)
Lemma itoa_put rho i c w :
  itoa_code val buf !! i = Some (rv_ADDI 29 0 c) ->
  itoa_code val buf !! S i = Some (rv_SB 5 29 0) ->
  itoa_code val buf !! S (S i) = Some (rv_ADDI 5 5 1) ->
  in_s 12 c -> 0 <= c < 256 -> rho 0 = 0 -> rho 5 = b + Z.of_nat (length w) -> (length w < 21)%nat ->
  exists rho', goes eh rho (pos i) (mem w) rho' (pos (S (S (S i)))) (mem (w ++ [c])) /\
    rho' 5 = b + Z.of_nat (length (w ++ [c])) /\ keeps [5; 29] rho rho'.
Proof.
  intros E1 E2 E3 Hcs Hcb H0 H5 L. destruct (itoa_addr (S (length w)) ltac:(lia)) as [A0 A1].
  set (r1 := setreg rho 29 c). set (r2 := setreg r1 5 (b + Z.of_nat (length (w ++ [c])))).
  exists r2. split_and!; [|unfold r2; by regs|unfold r2, r1; repeat (apply keeps_set; [|set_solver]); done].
  assert (r1 29 = c /\ r1 5 = b + Z.of_nat (length w)) as [F1 F2] by (unfold r1; split; by regs).
  pose proof (itoa_addi rho i 29 0 c w E1 ltac:(rg) ltac:(rg) Hcs ltac:(lia)) as G.
  rewrite H0, wrap_small in G by (unfold in_u; lia). eapply goes_next; [exact G|]. clear G.
  change (0 + c) with c. fold r1.
  eapply goes_next; [apply (itoa_sb r1 (S i) 29 w c E2 ltac:(rg) F2); [rewrite F1; by apply Z.mod_small|done]|].
  assert (length (w ++ [c]) = S (length w)) as Lw by (rewrite length_app; cbn; lia).
  pose proof (itoa_addi r1 (S (S i)) 5 5 1 (w ++ [c]) E3 ltac:(rg) ltac:(rg) ltac:(rg) ltac:(lia)) as G.
  rewrite F2, wrap_small in G by (unfold in_u; lia).
  replace (b + Z.of_nat (length w) + 1) with (b + Z.of_nat (length (w ++ [c]))) in G by lia.
  eapply goes_next; [exact G|]. apply goes_refl.
Qed.

(** The sign of the text. *)
Definition sign_text (v : Z) : bytes := if v <? 0 then [45] else [].

(** The prologue writes the sign and makes the value non-positive. *)
Lemma itoa_sign rho v :
  rho 0 = 0 -> rho buf = b -> rho val = wrap 64 v -> in_s 64 v ->
  exists rho', goes eh rho (pos 0) (mem []) rho' (pos 8) (mem (sign_text v)) /\ rho' 0 = 0 /\
    rho' 6 = wrap 64 (- Z.abs v) /\ rho' 5 = b + Z.of_nat (length (sign_text v)) /\ keeps itoa_regs rho rho'.
Proof.
  intros H0 Hbv Hvv Hs. destruct (itoa_addr 0 ltac:(lia)) as [A0 A1].
  set (r1 := setreg rho 5 b). set (r2 := setreg r1 6 (wrap 64 v)).
  assert (r1 val = wrap 64 v) as F1 by (unfold r1; rewrite setreg_other; [done|intros ->; set_solver]).
  assert (r2 0 = 0 /\ r2 6 = wrap 64 v /\ r2 5 = b) as (F2 & F3 & F4) by (unfold r2, r1; split_and!; by regs).
  assert (keeps itoa_regs rho r2) as K2
    by (unfold r2, r1; repeat (apply keeps_set; [|set_solver]); done).
  pose proof (itoa_addi rho 0 5 buf 0 [] eq_refl ltac:(rg) Hb ltac:(rg) ltac:(cbn; lia)) as G1.
  replace (rho buf + 0) with b in G1 by lia. rewrite wrap_small in G1 by (unfold in_u; lia). fold r1 in G1.
  pose proof (itoa_addi r1 1 6 val 0 [] eq_refl ltac:(rg) Hv ltac:(rg) ltac:(cbn; lia)) as G2.
  replace (r1 val + 0) with (wrap 64 v) in G2 by lia. rewrite wrap_wrap in G2. fold r2 in G2.
  assert (branch_taken BR_BGE (r2 6) (r2 0) = Some (0 <=? v)) as T.
  { rewrite F2, F3. unfold branch_taken, BR_BGE. rewrite sgn_wrap, (sgn_small 64 v) by done. done. }
  clearbody r2. unfold sign_text. destruct (Z.ltb_spec v 0) as [L|L].
  - replace (0 <=? v) with false in T by lia.
    destruct (itoa_put r2 3 45 []) as (r3 & G3 & F5 & K3); try rg; [by rewrite F4; cbn; lia|cbn; lia|].
    exists r3. split_and!; try done; try (rewrite K3 by set_solver).
    + eapply goes_next; [exact G1|]. eapply goes_next; [exact G2|].
      eapply (itoa_if r2 2 BR_BGE 6 0 7 false 20); try rg; [cbn; lia|]. cbv iota.
      eapply goes_trans; [exact G3|].
      eapply (goes_j eh (mem [45]) p _ r3 6 8 8 _ _ _ (itoa_code_at [45] ltac:(cbn; lia))); try done.
      apply goes_refl.
    + done.
    + rewrite F3. f_equal. lia.
    + intros r Hr. unfold itoa_regs in *. rewrite K3, K2 by set_solver. done.
  - replace (0 <=? v) with true in T by lia.
    exists (setreg r2 6 (wrap 64 (- Z.abs v))). split_and!; try (by regs).
    + eapply goes_next; [exact G1|]. eapply goes_next; [exact G2|].
      eapply (itoa_if r2 2 BR_BGE 6 0 7 true 20); try rg; [cbn; lia|]. cbv iota.
      eapply goes_next; [|apply goes_refl].
      eapply (goes_r eh (mem []) p _ (itoa_code_at [] ltac:(cbn; lia)) _ r2 7 ALU_ADD 0x20 6 0 6); try rg.
      intros k X3 X7. unfold alu_reg. rewrite X3, X7, F2, F3. cbv zeta.
      change (negb (0x20 &b 0x20 =? 0)) with true. change (0x20 =? 0x01) with false. cbv iota.
      change (wrap 64 (0 - wrap 64 v) = wrap 64 (- Z.abs v)). rewrite wrap_sub_r. f_equal. lia.
    + regs. rewrite F4. cbn. lia.
    + apply keeps_set; [done|set_solver].
Qed.

(** Division of the negated value: quotient and remainder are negated too. *)
Lemma neg_div_rem u :
  0 < u <= 2 ^ 63 ->
  rv_rem 64 (wrap 64 (- u)) 10 = wrap 64 (- (u mod 10)) /\
  rv_div 64 (wrap 64 (- u)) 10 = wrap 64 (- (u / 10)).
Proof.
  intros Hu. unfold rv_rem, rv_div. change (10 =? 0) with false. cbv iota.
  change (sgn 64 10) with 10. change (10 =? -1) with false. rewrite !andb_false_r.
  rewrite sgn_wrap, sgn_small by (unfold in_s, smin, smax; lia).
  rewrite Z.rem_opp_l, Z.quot_opp_l by lia.
  by rewrite Z.rem_mod_nonneg, Z.quot_div_nonneg by lia.
Qed.

(** One digit. *)
Lemma itoa_digit rho u w :
  rho 0 = 0 -> rho 6 = wrap 64 (- u) -> 0 < u <= 2 ^ 63 -> rho 5 = b + Z.of_nat (length w) ->
  (length w < 21)%nat ->
  exists rho', goes eh rho (pos 14) (mem w) rho' (pos (if u / 10 =? 0 then 22 else 14))
                 (mem (w ++ [48 + u mod 10])) /\
    rho' 6 = wrap 64 (- (u / 10)) /\ rho' 5 = b + Z.of_nat (length (w ++ [48 + u mod 10])) /\
    keeps [5; 6; 7; 28] rho rho'.
Proof.
  intros H0 H6 Hu H5 L. destruct (neg_div_rem u Hu) as [Er Ed].
  pose proof (Z.mod_pos_bound u 10 ltac:(lia)) as Hm.
  destruct (itoa_addr (S (length w)) ltac:(lia)) as [A0 A1].
  set (c := 48 + u mod 10) in *.
  set (r1 := setreg rho 28 10). set (r2 := setreg r1 7 (wrap 64 (- (u mod 10)))).
  set (r3 := setreg r2 6 (wrap 64 (- (u / 10)))). set (r4 := setreg r3 7 (u mod 10)).
  set (r5 := setreg r4 7 c). set (r6 := setreg r5 5 (b + Z.of_nat (length (w ++ [c])))).
  assert (r1 6 = wrap 64 (- u) /\ r1 28 = 10 /\ r2 6 = wrap 64 (- u) /\ r2 28 = 10 /\
          r3 0 = 0 /\ r3 7 = wrap 64 (- (u mod 10)) /\ r4 7 = u mod 10 /\ r5 7 = c /\
          r5 5 = b + Z.of_nat (length w) /\ r6 6 = wrap 64 (- (u / 10)) /\ r6 0 = 0)
    as (F1 & F2 & F3 & F4 & F5 & F6 & F7 & F8 & F9 & F10 & F11)
    by (unfold r6, r5, r4, r3, r2, r1; split_and!; by regs).
  assert (length (w ++ [c]) = S (length w)) as Lw by (rewrite length_app; cbn; lia).
  exists r6. split_and!; [|done|unfold r6; by regs|].
  2:{ unfold r6, r5, r4, r3, r2, r1. repeat (apply keeps_set; [|set_solver]). done. }
  pose proof (itoa_addi rho 14 28 0 10 w eq_refl ltac:(rg) ltac:(rg) ltac:(rg) ltac:(lia)) as G.
  rewrite H0 in G. eapply goes_next; [exact G|]. clear G. change (wrap 64 (0 + 10)) with 10. fold r1.
  pose proof (itoa_code_at w ltac:(lia)) as Cw.
  eapply goes_next.
  { eapply (goes_r eh (mem w) p _ Cw (wrap 64 (- (u mod 10))) r1 15 6 0x01 7 6 28); try rg.
    intros k X3 X7. unfold alu_reg. rewrite X3, X7, F1, F2. exact Er. }
  fold r2. eapply goes_next.
  { eapply (goes_r eh (mem w) p _ Cw (wrap 64 (- (u / 10))) r2 16 4 0x01 6 6 28); try rg.
    intros k X3 X7. unfold alu_reg. rewrite X3, X7, F3, F4. exact Ed. }
  fold r3. eapply goes_next.
  { eapply (goes_r eh (mem w) p _ Cw (u mod 10) r3 17 ALU_ADD 0x20 7 0 7); try rg.
    intros k X3 X7. unfold alu_reg. rewrite X3, X7, F5, F6. change (0x20 =? 0x01) with false. cbv iota zeta.
    change (wrap 64 (0 - wrap 64 (- (u mod 10))) = u mod 10). rewrite wrap_sub_r.
    replace (0 - - (u mod 10)) with (u mod 10) by lia. apply wrap_small. unfold in_u. lia. }
  fold r4. pose proof (itoa_addi r4 18 7 7 48 w eq_refl ltac:(rg) ltac:(rg) ltac:(rg) ltac:(lia)) as G.
  rewrite F7, wrap_small in G by (unfold in_u; lia). eapply goes_next; [exact G|]. clear G.
  replace (u mod 10 + 48) with c by (unfold c; lia). fold r5.
  eapply goes_next; [apply (itoa_sb r5 19 7 w c eq_refl ltac:(rg) F9);
    [rewrite F8; apply Z.mod_small; unfold c; lia|done]|].
  pose proof (itoa_addi r5 20 5 5 1 (w ++ [c]) eq_refl ltac:(rg) ltac:(rg) ltac:(rg) ltac:(lia)) as G.
  rewrite F9, wrap_small in G by (unfold in_u; lia). eapply goes_next; [exact G|]. clear G.
  replace (b + Z.of_nat (length w) + 1) with (b + Z.of_nat (length (w ++ [c]))) by lia. fold r6.
  eapply (itoa_if r6 21 BR_BNE 6 0 14 (negb (u / 10 =? 0)) (-28)); try rg; [|lia|].
  { rewrite F10, F11. unfold branch_taken, BR_BNE. do 2 f_equal. unfold wrap.
    assert (0 <= u / 10 < 2 ^ 63) by (Z.div_mod_to_equations; lia).
    destruct (Z.eqb_spec (u / 10) 0) as [->|Hn]; [done|]. apply Z.eqb_neq.
    intros E. apply Z.mod_divide in E as [q E]; [|lia]. lia. }
  destruct (u / 10 =? 0); apply goes_refl.
Qed.

(** The digits, least significant first. *)
Lemma itoa_digits V sg : (length sg <= 1)%nat -> 0 < V <= 2 ^ 63 -> forall n u ds rho,
  (Z.to_nat u < n)%nat -> 0 < u -> writing 10 V (u, ds) ->
  rho 0 = 0 -> rho 6 = wrap 64 (- u) -> rho 5 = b + Z.of_nat (length (sg ++ ds)) ->
  exists rho' le, goes eh rho (pos 14) (mem (sg ++ ds)) rho' (pos 22) (mem (sg ++ le)) /\
    le_numeral 10 V le /\ rho' 5 = b + Z.of_nat (length (sg ++ le)) /\ keeps [5; 6; 7; 28] rho rho'.
Proof.
  intros Lsg HV n. induction n as [|n IH]; intros u ds rho Hn Hu W H0 H6 H5; [lia|].
  pose proof W as (_ & EV & Fds & _).
  assert (0 <= le_value 10 ds) as Hle.
  { clear -Fds. induction Fds as [|x l Hx _ IH]; cbn; [lia|]. unfold is_digit_of in Hx.
    change (0 <= digit x + 10 * le_value 10 l). lia. }
  assert (length ds < 19)%nat as Lds.
  { apply Nat.lt_nge. intros G. pose proof (Z.pow_le_mono_r 10 19 (Z.of_nat (length ds)) ltac:(lia) ltac:(lia)).
    change (10 ^ 19) with 10000000000000000000 in *. nia. }
  assert (u <= V) by (pose proof (Z.pow_pos_nonneg 10 (Z.of_nat (length ds)) ltac:(lia) ltac:(lia)); nia).
  destruct (itoa_digit rho u (sg ++ ds)) as (r1 & G1 & F6 & F5 & K1); try done; [lia|rewrite length_app; lia|].
  rewrite <- app_assoc in G1, F5.
  pose proof (Z.mod_pos_bound u 10 ltac:(lia)) as Hm.
  assert (Forall (is_digit_of 10) [48 + u mod 10]) as Fd by (apply Forall_singleton, is_digit_dec; lia).
  assert (le_value 10 [48 + u mod 10] = u mod 10) as Ev
    by (change (digit (48 + u mod 10) + 10 * 0 = u mod 10); rewrite digit_dec by lia; lia).
  destruct (Z.eqb_spec (u / 10) 0) as [Z0|Z0].
  - exists r1, (ds ++ [48 + u mod 10]). split_and!; try done.
    apply (writing_last 10 V u ds [] (48 + u mod 10) W); [rewrite app_nil_l, Ev; Z.div_mod_to_equations; lia|done|].
    rewrite digit_dec by lia. Z.div_mod_to_equations; lia.
  - assert (0 < u / 10 < u) by (Z.div_mod_to_equations; lia).
    destruct (IH (u / 10) (ds ++ [48 + u mod 10]) r1) as (rho' & le & G & Hl & E5 & K); try done; [lia|lia| | |].
    + eapply writing_app; [lia|exact W|lia| |done|lia]. rewrite Ev. cbn [length].
      change (10 ^ Z.of_nat 1) with 10. Z.div_mod_to_equations; lia.
    + rewrite K1; [done|set_solver].
    + exists rho', le. split_and!; try done; [by eapply goes_trans|by eapply keeps_trans].
Qed.

Lemma itoa_j rho i j off w rho2 p2 d2 :
  itoa_code val buf !! i = Some (rv_BEQ 0 0 off) -> off = 4 * (Z.of_nat j - Z.of_nat i) ->
  (i <? 100)%nat = true -> (j <? 100)%nat = true -> (length w <= 21)%nat ->
  goes eh rho (pos j) (mem w) rho2 p2 d2 -> goes eh rho (pos i) (mem w) rho2 p2 d2.
Proof. intros E Ho Hi Hj L. by apply (goes_j eh (mem w) p _ rho i j off _ _ _ (itoa_code_at w L)). Qed.

(** The number: its digits from the least significant one, [t5] at the first. *)
Lemma itoa_number V sg rho :
  (length sg <= 1)%nat -> 0 <= V <= 2 ^ 63 ->
  rho 0 = 0 -> rho 6 = wrap 64 (- V) -> rho 5 = b + Z.of_nat (length sg) ->
  exists rho' le, goes eh rho (pos 8) (mem sg) rho' (pos 22) (mem (sg ++ le)) /\
    le_numeral 10 V le /\ rho' 5 = b + Z.of_nat (length (sg ++ le)) /\
    rho' 30 = b + Z.of_nat (length sg) /\ keeps [5; 6; 7; 28; 29; 30] rho rho'.
Proof.
  intros Lsg HV H0 H6 H5. destruct (itoa_addr 1 ltac:(lia)) as [A0 A1].
  set (r1 := setreg rho 30 (b + Z.of_nat (length sg))).
  assert (r1 0 = 0 /\ r1 6 = wrap 64 (- V) /\ r1 5 = b + Z.of_nat (length sg) /\
          r1 30 = b + Z.of_nat (length sg)) as (F0 & F6 & F5 & F30) by (unfold r1; split_and!; by regs).
  assert (keeps [30] rho r1) as K1 by (apply keeps_set; [done|set_solver]).
  pose proof (itoa_addi rho 8 30 5 0 sg eq_refl ltac:(rg) ltac:(rg) ltac:(rg) ltac:(lia)) as G1.
  replace (rho 5 + 0) with (b + Z.of_nat (length sg)) in G1 by lia.
  destruct Hin as [Hb0 Hb1]. rewrite wrap_small in G1 by (unfold in_u; lia). fold r1 in G1. clearbody r1.
  assert (branch_taken BR_BNE (r1 6) (r1 0) = Some (negb (V =? 0))) as T.
  { rewrite F6, F0. unfold branch_taken, BR_BNE. do 2 f_equal. unfold wrap.
    destruct (Z.eqb_spec V 0) as [->|Hn]; [done|]. apply Z.eqb_neq.
    intros E. apply Z.mod_divide in E as [q E]; [|lia]. lia. }
  destruct (Z.eqb_spec V 0) as [->|Hn].
  - destruct (itoa_put r1 10 48 sg) as (r2 & G2 & E5 & K2); try rg; [lia|].
    exists r2, [48]. split_and!; try done.
    + eapply goes_next; [exact G1|]. eapply (itoa_if r1 9 BR_BNE 6 0 14 false 20); try rg; [lia|]. cbv iota.
      eapply goes_trans; [exact G2|]. eapply (itoa_j r2 13 22 36); try done; [rewrite length_app; cbn; lia|].
      apply goes_refl.
    + split; [done|]. split; [apply Forall_singleton; by apply (is_digit_dec 0)|]. by exists 48, [].
    + by rewrite K2 by set_solver.
    + intros r Hr. rewrite K2, K1 by set_solver. done.
  - destruct (itoa_digits V sg Lsg ltac:(lia) (S (Z.to_nat V)) V [] r1) as (r2 & le & G2 & Hl & E5 & K2);
      rewrite ?app_nil_r; try done; [lia|lia|apply writing_start; lia|].
    rewrite app_nil_r in G2. exists r2, le. split_and!; try done.
    + eapply goes_next; [exact G1|]. eapply (itoa_if r1 9 BR_BNE 6 0 14 true 20); try rg. lia.
    + by rewrite K2 by set_solver.
    + intros r Hr. rewrite K2, K1 by set_solver. done.
Qed.

(** The text while the digits are being reversed. *)
Definition text_of (sg ds : bytes) : bytes := sg ++ ds ++ [0].

Lemma text_insert sg ds k c :
  (k < length ds)%nat -> <[(length sg + k)%nat := c]> (text_of sg ds) = text_of sg (<[k := c]> ds).
Proof.
  intros H. unfold text_of. rewrite insert_app_at. f_equal. by rewrite insert_app_l.
Qed.

Lemma text_nth sg ds k : (k < length ds)%nat -> chr_at (text_of sg ds) (length sg + k) = chr_at ds k.
Proof.
  intros H. unfold chr_at, text_of. rewrite !nth_lookup.
  rewrite lookup_app_r by lia. rewrite lookup_app_l by lia. do 2 f_equal. lia.
Qed.

(** One exchange. *)
Lemma itoa_swap sg ds i j rho :
  (length (text_of sg ds) <= 21)%nat -> data_ok (text_of sg ds) -> (i < j < length ds)%nat ->
  rho 0 = 0 -> rho 30 = b + Z.of_nat (length sg + i) -> rho 31 = b + Z.of_nat (length sg + j) ->
  exists rho', goes eh rho (pos 24) (mem (text_of sg ds)) rho' (pos 24)
      (mem (text_of sg (<[i := chr_at ds j]> (<[j := chr_at ds i]> ds)))) /\
    rho' 30 = b + Z.of_nat (length sg + S i) /\ rho' 31 = b + Z.of_nat (length sg + (j - 1)) /\
    keeps [28; 29; 30; 31] rho rho'.
Proof.
  intros L Hd Hij H0 H30 H31. set (w := text_of sg ds) in *.
  assert (length w = length sg + length ds + 1)%nat as Lw by (unfold w, text_of; rewrite !length_app; cbn; lia).
  set (ci := chr_at ds i). set (cj := chr_at ds j).
  destruct Hin as [Hb0 Hb1]. destruct (itoa_addr 21 ltac:(lia)) as [A0 A1].
  assert (inside d b (length w)) as Hw by (split; lia).
  assert (nth (Z.to_nat (rho 30)) (mem w) 0 = ci /\ nth (Z.to_nat (rho 31)) (mem w) 0 = cj) as [Ni Nj].
  { rewrite H30, H31, !blit_nth by (done || lia). unfold w. by rewrite !text_nth by lia. }
  assert (0 <= ci < 256 /\ 0 <= cj < 256) as [Ri Rj].
  { assert (forall k, (k < length ds)%nat -> 0 <= chr_at ds k < 256) as R.
    { intros k Hk. rewrite <- (text_nth sg ds k Hk). fold w. unfold chr_at.
      assert (byte_ok (nth (length sg + k) w 0)) as B
        by (apply (proj1 (List.Forall_forall _ _) Hd), nth_In; lia).
      unfold byte_ok in B. lia. }
    split; apply R; lia. }
  set (r1 := setreg rho 28 ci). set (r2 := setreg r1 29 cj).
  set (r3 := setreg r2 30 (b + Z.of_nat (length sg + S i))).
  set (r4 := setreg r3 31 (b + Z.of_nat (length sg + (j - 1)))).
  assert (r1 31 = rho 31 /\ r2 30 = rho 30 /\ r2 31 = rho 31 /\ r2 29 = cj /\ r2 28 = ci /\ r3 31 = rho 31)
    as (F1 & F2 & F3 & F4 & F5 & F6) by (unfold r3, r2, r1; split_and!; by regs).
  set (w1 := <[(length sg + i)%nat := cj]> w). set (w2 := <[(length sg + j)%nat := ci]> w1).
  assert (length w1 = length w /\ length w2 = length w) as [L1 L2]
    by (unfold w2, w1; rewrite !length_insert; done).
  assert (w2 = text_of sg (<[i := cj]> (<[j := ci]> ds))) as E2.
  { unfold w2, w1, w. rewrite !text_insert by (rewrite ?length_insert; lia). f_equal.
    apply list_insert_insert_ne. lia. }
  rewrite <- E2. exists r4. split_and!; [|unfold r4, r3; by regs|unfold r4; by regs|].
  2:{ unfold r4, r3, r2, r1. repeat (apply keeps_set; [|set_solver]). done. }
  eapply (itoa_if rho 24 BR_BGE 30 31 32 false 32); try rg.
  { rewrite H30, H31. unfold branch_taken, BR_BGE.
    rewrite !sgn_small by (unfold in_s, smin, smax; lia). apply f_equal, Z.leb_gt. lia. }
  cbv iota. pose proof (itoa_code_at w L) as Cw.
  pose proof (goes_lbu eh (mem w) p _ Cw rho 25 28 30 0 (rho 30) eq_refl ltac:(rg) ltac:(rg) ltac:(rg)) as G.
  rewrite Ni in G. eapply goes_next; [apply G; [lia|rewrite H30; apply itoa_inside; lia|by apply itoa_ok]|].
  clear G. fold r1.
  pose proof (goes_lbu eh (mem w) p _ Cw r1 26 29 31 0 (rho 31) eq_refl ltac:(rg) ltac:(rg) ltac:(rg)) as G.
  rewrite Nj in G. eapply goes_next; [apply G; [lia|rewrite H31; apply itoa_inside; lia|by apply itoa_ok]|].
  clear G. fold r2.
  pose proof (goes_sb eh (mem w) p _ Cw r2 27 30 29 0 (rho 30) eq_refl ltac:(rg) ltac:(rg) ltac:(rg)) as G.
  rewrite F4, Z.mod_small, H30, blit_insert in G by (done || lia). fold w1 in G.
  eapply goes_next; [apply G; [lia|apply itoa_inside; lia]|]. clear G.
  pose proof (goes_sb eh (mem w1) p _ (itoa_code_at w1 ltac:(lia)) r2 28 31 28 0 (rho 31) eq_refl
    ltac:(rg) ltac:(rg) ltac:(rg)) as G.
  rewrite F5, Z.mod_small, H31, blit_insert in G by (rewrite ?L1; done || lia). fold w2 in G.
  eapply goes_next; [apply G; [lia|apply itoa_inside; lia]|]. clear G.
  pose proof (itoa_addi r2 29 30 30 1 w2 eq_refl ltac:(rg) ltac:(rg) ltac:(rg) ltac:(lia)) as G.
  rewrite F2, H30, wrap_small in G by (unfold in_u; lia). eapply goes_next; [exact G|]. clear G.
  replace (b + Z.of_nat (length sg + i) + 1) with (b + Z.of_nat (length sg + S i)) by lia. fold r3.
  pose proof (itoa_addi r3 30 31 31 (-1) w2 eq_refl ltac:(rg) ltac:(rg) ltac:(rg) ltac:(lia)) as G.
  rewrite F6, H31, wrap_small in G by (unfold in_u; lia). eapply goes_next; [exact G|]. clear G.
  replace (b + Z.of_nat (length sg + j) + -1) with (b + Z.of_nat (length sg + (j - 1))) by lia. fold r4.
  eapply (itoa_j r4 31 24 (-28)); try done; [lia|]. apply goes_refl.
Qed.

Lemma text_data_ok sg ds : data_ok sg -> data_ok ds -> data_ok (text_of sg ds).
Proof.
  intros H1 H2. unfold text_of, data_ok in *. repeat (apply Forall_app; split; [done|]).
  apply Forall_singleton. unfold byte_ok. lia.
Qed.

Lemma swapped_ok orig ds i j : data_ok orig -> swapped orig ds i j -> data_ok ds.
Proof.
  intros Ho (L & _ & _ & Hk). apply Forall_lookup. intros k x E.
  pose proof (lookup_lt_Some _ _ _ E). rewrite Hk in E by lia.
  case_decide; [by eapply Forall_lookup_1|].
  eapply Forall_lookup_1; [|exact E]. by apply Forall_reverse.
Qed.

(** The exchanges reverse the digits. *)
Lemma itoa_reverse sg orig : data_ok sg -> data_ok orig -> (length (text_of sg orig) <= 21)%nat ->
  forall n ds i j rho, (j - i < n)%nat -> swapped orig ds (Z.of_nat i) (Z.of_nat j) -> (j < length orig)%nat ->
  rho 0 = 0 -> rho 30 = b + Z.of_nat (length sg + i) -> rho 31 = b + Z.of_nat (length sg + j) ->
  exists rho', goes eh rho (pos 24) (mem (text_of sg ds)) rho' (pos 32) (mem (text_of sg (reverse orig))) /\
    keeps [28; 29; 30; 31] rho rho'.
Proof.
  intros Hsg Horig L. assert (forall ds i j, swapped orig ds i j -> length (text_of sg ds) = length (text_of sg orig)) as LL.
  { intros ds i j (E & _). unfold text_of. rewrite !length_app. lia. }
  assert (length (text_of sg orig) = length sg + length orig + 1)%nat as Lt
    by (unfold text_of; rewrite !length_app; cbn; lia).
  induction n as [|n IH]; intros ds i j rho Hn Hsw Hj H0 H30 H31; [lia|].
  pose proof (LL _ _ _ Hsw) as Lds. destruct Hin as [Hb0 Hb1]. destruct (itoa_addr 21 ltac:(lia)) as [A0 A1].
  destruct (decide (i < j)%nat) as [Hij|Hij].
  - assert (length ds = length orig) as Ld by apply Hsw.
    destruct (itoa_swap sg ds i j rho) as (r1 & G1 & E30 & E31 & K1); try done; [lia| |lia|].
    { apply text_data_ok; [done|]. by eapply swapped_ok. }
    pose proof (swapped_step orig ds (Z.of_nat i) (Z.of_nat j) Hsw ltac:(lia)) as Hs'.
    rewrite !Nat2Z.id in Hs'.
    destruct (IH (<[i := chr_at ds j]> (<[j := chr_at ds i]> ds)) (S i) (j - 1)%nat r1) as (r2 & G2 & K2); try done.
    + lia.
    + by replace (Z.of_nat (S i)) with (Z.of_nat i + 1) by lia; replace (Z.of_nat (j - 1)) with (Z.of_nat j - 1) by lia.
    + lia.
    + rewrite K1; [done|set_solver].
    + exists r2. split; [by eapply goes_trans|by eapply keeps_trans].
  - exists rho. split; [|done].
    assert (i + j + 1 = length orig)%nat as Hsum by (destruct Hsw as (_ & E & _); lia).
    assert (ds = reverse orig) as <-.
    { destruct Hsw as (Hl & Hs & _ & Hk). apply list_eq. intros k.
      destruct (decide (k < length orig)%nat) as [Lk|Lk].
      - rewrite Hk by done. case_decide; [|done]. rewrite reverse_lookup' by done. f_equal. lia.
      - rewrite !lookup_ge_None_2; [done|rewrite length_reverse; lia|lia]. }
    eapply (itoa_if rho 24 BR_BGE 30 31 32 true 32); try rg; [|lia|apply goes_refl].
    rewrite H30, H31. unfold branch_taken, BR_BGE.
    rewrite !sgn_small by (unfold in_s, smin, smax; lia). apply f_equal, Z.leb_le. lia.
Qed.

(** The NUL and the pointer to the last digit. *)
Lemma itoa_end sg ds rho :
  (length (text_of sg ds) <= 21)%nat -> (0 < length ds)%nat ->
  rho 0 = 0 -> rho 5 = b + Z.of_nat (length (sg ++ ds)) ->
  exists rho', goes eh rho (pos 22) (mem (sg ++ ds)) rho' (pos 24) (mem (text_of sg ds)) /\
    rho' 31 = b + Z.of_nat (length sg + (length ds - 1)) /\ keeps [31] rho rho'.
Proof.
  intros L Ld H0 H5. unfold text_of in *. rewrite !length_app in L. cbn [length] in L.
  destruct Hin as [Hb0 Hb1]. destruct (itoa_addr 21 ltac:(lia)) as [A0 A1].
  assert (length (sg ++ ds) = length sg + length ds)%nat as Ls by apply length_app.
  set (q := b + Z.of_nat (length sg + (length ds - 1))).
  exists (setreg rho 31 q). split_and!; [|by regs|apply keeps_set; [done|set_solver]].
  eapply goes_next; [apply (itoa_sb rho 22 0 (sg ++ ds) 0 eq_refl ltac:(rg) H5); [by rewrite H0|lia]|].
  rewrite <- app_assoc.
  pose proof (itoa_addi rho 23 31 5 (-1) (sg ++ ds ++ [0]) eq_refl ltac:(rg) ltac:(rg) ltac:(rg)) as G.
  rewrite H5, wrap_small in G by (unfold in_u; lia).
  replace (b + Z.of_nat (length (sg ++ ds)) + -1) with q in G by (unfold q; lia).
  eapply goes_next; [apply G; rewrite !length_app; cbn; lia|]. apply goes_refl.
Qed.

Lemma digits_data_ok ds : Forall (is_digit_of 10) ds -> data_ok ds.
Proof.
  intros F. eapply Forall_impl; [exact F|]. intros c Hd. apply is_digit_of_10 in Hd.
  unfold in_rng in Hd. unfold byte_ok. lia.
Qed.

(** A number of 63 bits has at most 19 digits. *)
Lemma numeral_19 V s : 0 <= V <= 2 ^ 63 -> numeral 10 V s -> (length s <= 19)%nat.
Proof.
  intros HV Hn. apply (numeral_length 10 V); [lia|done| |lia].
  change (10 ^ Z.of_nat 19) with 10000000000000000000. lia.
Qed.

Lemma itoa_run rho v :
  rho 0 = 0 -> rho buf = b -> rho val = wrap 64 v -> in_s 64 v ->
  exists rho' ds, goes eh rho p d rho' (pos 32) (mem (sign_text v ++ ds ++ [0])) /\
    numeral 10 (Z.abs v) ds /\ keeps itoa_regs rho rho'.
Proof.
  intros H0 Hbv Hvv Hs. set (sg := sign_text v).
  assert (length sg <= 1)%nat as Lsg by (unfold sg, sign_text; destruct (v <? 0); cbn; lia).
  assert (data_ok sg) as Dsg
    by (unfold sg, sign_text; destruct (v <? 0); [apply Forall_singleton; unfold byte_ok; lia|apply List.Forall_nil]).
  assert (0 <= Z.abs v <= 2 ^ 63) as HV by (unfold in_s, smin, smax in Hs; lia).
  destruct (itoa_sign rho v H0 Hbv Hvv Hs) as (r1 & G1 & F0 & F6 & F5 & K1). fold sg in G1, F5.
  destruct (itoa_number (Z.abs v) sg r1 Lsg HV F0 F6 F5) as (r2 & le & G2 & Hle & E5 & E30 & K2).
  pose proof (le_numeral_reverse _ _ _ Hle) as Hn. pose proof (numeral_19 _ _ HV Hn) as L19.
  rewrite length_reverse in L19.
  assert (0 < length le)%nat as Lle by (destruct Hle as (_ & _ & x & r & -> & _); rewrite length_app; cbn; lia).
  assert (length (text_of sg le) <= 21)%nat as Lt by (unfold text_of; rewrite !length_app; cbn; lia).
  assert (r2 0 = 0) as Z2 by (rewrite K2; [done|set_solver]).
  destruct (itoa_end sg le r2 Lt Lle Z2 E5) as (r3 & G3 & E31 & K3).
  assert (data_ok le) as Dle by (apply digits_data_ok; apply Hle).
  destruct (itoa_reverse sg le Dsg Dle Lt (S (length le)) le 0 (length le - 1) r3) as (r4 & G4 & K4).
  - lia.
  - split_and!; try lia; try done. intros k Hk. rewrite decide_True by lia. done.
  - lia.
  - rewrite K3; [done|set_solver].
  - rewrite K3 by set_solver. rewrite E30. lia.
  - exact E31.
  - exists r4, (reverse le). split_and!; [|done|].
    + apply (goes_at _ _ (pos 0)); [lia|].
      eapply goes_trans; [|eapply goes_trans; [exact G2|eapply goes_trans; [exact G3|exact G4]]].
      rewrite <- (blit_nil d b) at 1 by (destruct Hin; split; cbn; lia). exact G1.
    + intros r Hr. unfold itoa_regs in *. rewrite K4, K3, K2, K1 by (unfold itoa_regs; set_solver). done.
Qed.
End Itoa.

(** ** The properties *)

(** Where the inline reader and [mux_atoi64] agree: the text does not start with white space
    or a plus sign. *)
Lemma inline_atoi_eq s :
  mux_isspace (chr_at s 0) = false -> chr_at s 0 <> 43 ->
  exists v, mux_atoi64 s = Some v /\ inline_atoi s = wrap 64 v.
Proof.
  intros Hsp Hplus. exists (atoi_spec s). split; [apply mux_atoi64_eq|].
  unfold inline_atoi, atoi_spec, after_sign. destruct s as [|c s]; [done|].
  change (chr_at (c :: s) 0) with c in *. cbn [skip_while drop]. rewrite Hsp.
  destruct (c =? 45); [by rewrite wrap_sgn by lia|].
  replace (c =? 43) with false by lia. by rewrite wrap_sgn by lia.
Qed.

(** C22: Inline [atoi]: the nineteen words that [rv_emit_atoi] appends leave in [out] the
    value of the digits at the head of the string, negated after a minus sign, modulo
    [2^64], and change no memory.  Unless the string starts with white space or a plus
    sign, that is what [mux_atoi64] returns, which the compiler uses for constants. *)
Theorem inline_atoi_spec eh code ra out s d p a rho :
  reg ra -> reg out -> out <> 0 -> ra ∉ [0; 5; 6; 7; 28; 29] ->
  rho 0 = 0 -> rho ra = a ->
  rv_emit_atoi code ra out = code ++ atoi_code ra out /\
  (code_at d p (atoi_code ra out) -> data_ok d -> cstring d a s ->
   exists rho', goes eh rho p d rho' (p + 76) d /\ rho' out = inline_atoi s /\
     keeps [5; 6; 7; 28; 29; ra; out] rho rho') /\
  (mux_isspace (chr_at s 0) = false -> chr_at s 0 <> 43 ->
   exists v, mux_atoi64 s = Some v /\ inline_atoi s = wrap 64 v).
Proof.
  intros. split; [apply rv_emit_atoi_eq|]. split; [|apply inline_atoi_eq].
  intros Hc Hok Hs. by apply (atoi_run eh ra out ltac:(done) ltac:(done) ltac:(done) ltac:(done) d p Hc Hok rho a s).
Qed.

(** A string that the compiler folds to 7 is read as 0 when it is only known at run time. *)
Example atoi_space : mux_atoi64 [32; 55] = Some 7 /\ inline_atoi [32; 55] = 0.
Proof. split; vm_compute; reflexivity. Qed.

(** C1: Inline [itoa]: the thirty-two words that [rv_emit_itoa] appends write the text that
    [mux_i64toa] returns and a NUL at the buffer, for every [int64_t] and in at most the 21
    bytes of the buffer, and change nothing else in memory and only temporaries.  Reading
    that text with inline [atoi] gives the number again. *)
Theorem inline_itoa_spec eh code val buf v d p b rho :
  reg val -> reg buf -> val <> 5 -> rho 0 = 0 -> rho buf = b -> rho val = wrap 64 v -> in_s 64 v ->
  rv_emit_itoa code val buf = code ++ itoa_code val buf /\
  exists text, mux_i64toa v = Some text /\ (length text <= 20)%nat /\ inline_atoi text = wrap 64 v /\
    (code_at d p (itoa_code val buf) -> data_ok d -> inside d b 21 -> apart p 128 b 21 ->
     exists rho', goes eh rho p d rho' (p + 128) (blit d b (text ++ [0])) /\ keeps itoa_regs rho rho').
Proof.
  intros Hv Hb Hval H0 Hbv Hvv Hs. split; [apply rv_emit_itoa_eq|].
  destruct (decimal_roundtrip v [] Hs eq_refl) as (text & ds & E & Et & Hn & Lt & Er).
  exists text. split_and!; try done.
  - rewrite app_nil_r in Er.
    assert (mux_isspace (chr_at text 0) = false /\ chr_at text 0 <> 43) as [S1 S2].
    { rewrite Et. destruct (v <? 0); [done|]. destruct Hn as (_ & F & c & r & -> & _).
      apply Forall_cons in F as [F _]. apply is_digit_of_10 in F.
      change (chr_at ([] ++ c :: r) 0) with c. destruct (digit_not_sign c F) as (_ & N & ->).
      split; [done|]. intros ->. discriminate. }
    destruct (inline_atoi_eq text S1 S2) as (v' & E' & ->). rewrite Er in E'. by injection E' as <-.
  - intros Hc Hok Hin Hap.
    destruct (itoa_run eh val buf Hv Hb ltac:(set_solver) d p b Hc Hok Hin Hap rho v H0 Hbv Hvv Hs)
      as (rho' & ds' & G & Hn' & K).
    exists rho'. split; [|done]. rewrite Et. fold (sign_text v). rewrite <- app_assoc.
    by rewrite (numeral_unique _ _ _ Hn Hn').
Qed.

Lemma inline_atoi_witness :
  exists rho', goes exit_handler (fun r => if r =? 10 then 76 else 0) 0
      (concat (map (split_le 4) (atoi_code 10 9)) ++ [45; 52; 50; 0]) rho' 76
      (concat (map (split_le 4) (atoi_code 10 9)) ++ [45; 52; 50; 0]) /\ rho' 9 = 2 ^ 64 - 42.
Proof.
  destruct (inline_atoi_spec exit_handler [] 10 9 [45; 52; 50]
    (concat (map (split_le 4) (atoi_code 10 9)) ++ [45; 52; 50; 0]) 0 76
    (fun r => if r =? 10 then 76 else 0)) as (_ & T & _); try done; [set_solver|].
  destruct T as (rho' & G & V & _).
  - apply code_atb_sound. vm_compute. reflexivity.
  - apply data_okb_sound. vm_compute. reflexivity.
  - split; [split; vm_compute; congruence|]. repeat (apply Forall_cons; split; [lia|]). apply List.Forall_nil.
  - exists rho'. split; [exact G|]. rewrite V. vm_compute. reflexivity.
Defined.

(** -9223372036854775808 *)
Definition min_text : bytes :=
  [45; 57; 50; 50; 51; 51; 55; 50; 48; 51; 54; 56; 53; 52; 55; 55; 53; 56; 48; 56].

Lemma inline_itoa_witness :
  exists rho', goes exit_handler (fun r => if r =? 10 then 128 else if r =? 9 then 2 ^ 63 else 0) 0
    (concat (map (split_le 4) (itoa_code 9 10)) ++ repeat 0 24) rho' 128
    (concat (map (split_le 4) (itoa_code 9 10)) ++ min_text ++ repeat 0 4).
Proof.
  destruct (inline_itoa_spec exit_handler [] 9 10 (smin 64)
    (concat (map (split_le 4) (itoa_code 9 10)) ++ repeat 0 24) 0 128
    (fun r => if r =? 10 then 128 else if r =? 9 then 2 ^ 63 else 0)) as (_ & text & E & _ & _ & T); try done.
  destruct T as (rho' & G & _).
  - apply code_atb_sound. vm_compute. reflexivity.
  - apply data_okb_sound. vm_compute. reflexivity.
  - split; vm_compute; congruence.
  - left. vm_compute. congruence.
  - exists rho'. assert (text = min_text) as ->
      by (apply Some_inj; rewrite <- E; vm_compute; reflexivity).
    match type of G with goes _ _ _ _ _ _ ?m => replace (_ ++ _ ++ repeat 0 4) with m
      by (vm_compute; reflexivity) end.
    exact G.
Defined.
