(* ===== verification/StringUtil.v ===== *)
(** * String helpers of [src/mux/lib/stringutil.cpp] and [src/mux/include/stringutil.h]

    Lead bytes, trimming of partial UTF-8 sequences, the writers [safe_chr] and [safe_str],
    [mux_strncpy], folding to lower case and the comparisons built on it ([minmatch],
    [string_compare]).  A C string is the list of its bytes without the NUL; reading at its
    end gives 0.  The case table is generated code: the class [CaseTable]. *)

From S2P Require Import Prelude Machine Decimal.

(** ** UTF-8 *)

Definition UTF8_CONTINUE : Z := 5.
Definition UTF8_ILLEGAL : Z := 6.

Definition utf8_FirstByte (b : Z) : Z :=
  if in_rng 0 0x7F b then 1
  else if in_rng 0x80 0xBF b then UTF8_CONTINUE
  else if in_rng 0xC0 0xC1 b then UTF8_ILLEGAL
  else if in_rng 0xC2 0xDF b then 2
  else if in_rng 0xE0 0xEF b then 3
  else if in_rng 0xF0 0xF4 b then 4
  else UTF8_ILLEGAL.

Definition utf8_decode_raw (p : bytes) (n : Z) : Z :=
  let c k := chr_at p k in
  if n =? 1 then c 0%nat
  else if n =? 2 then Z.lor (Z.shiftl (Z.land (c 0%nat) 0x1F) 6) (Z.land (c 1%nat) 0x3F)
  else if n =? 3 then
    Z.lor (Z.lor (Z.shiftl (Z.land (c 0%nat) 0x0F) 12) (Z.shiftl (Z.land (c 1%nat) 0x3F) 6))
      (Z.land (c 2%nat) 0x3F)
  else
    Z.lor (Z.lor (Z.lor (Z.shiftl (Z.land (c 0%nat) 0x07) 18) (Z.shiftl (Z.land (c 1%nat) 0x3F) 12))
      (Z.shiftl (Z.land (c 2%nat) 0x3F) 6)) (Z.land (c 3%nat) 0x3F).

Definition utf8_is_valid_scalar (cp n : Z) : bool :=
  negb ((n =? 2) && (cp <? 0x80) || (n =? 3) && (cp <? 0x800) || (n =? 4) && (cp <? 0x10000)
        || (0x10FFFF <? cp) || in_rng 0xD800 0xDFFF cp).

(** The inner loop of [TrimPartialSequence]: back over continuation bytes to [iStart]. *)
Fixpoint trim_start (p : bytes) (iStart : nat) : nat :=
  match iStart with
  | O => O
  | S i => if utf8_FirstByte (chr_at p iStart) =? UTF8_CONTINUE then trim_start p i else iStart
  end.

Definition trim_body (p : bytes) (n : nat) : nat + nat :=
  match n with
  | O => inr O
  | S n' =>
      let iStart := trim_start p n' in
      let nBytes := utf8_FirstByte (chr_at p iStart) in
      if (nBytes <? 1) || (UTF8_CONTINUE <=? nBytes) then inl iStart
      else if negb (iStart + Z.to_nat nBytes =? n)%nat then inl iStart
      else if negb (forallb (fun i => utf8_FirstByte (chr_at p (iStart + i)) =? UTF8_CONTINUE)
                      (seq 1 (Z.to_nat nBytes - 1))) then inl iStart
      else if negb (utf8_is_valid_scalar (utf8_decode_raw (drop iStart p) nBytes) nBytes) then inl iStart
      else inr n
  end.

Definition TrimPartialSequence (n : nat) (p : bytes) : option nat :=
  iter (trim_body p) (S n) n.

(** ** The writers of an [LBUF_SIZE] buffer *)

Section Writers.
Context `{!Config}.

Definition safe_chr (c : Z) (buff : bytes) : bytes :=
  if (length buff <? LBUF_SIZE - 1)%nat then buff ++ [c] else buff.

(** [safe_str] is [safe_copy_str_lbuf]. *)
Definition safe_str (src buff : bytes) : option bytes :=
  let tp := buff ++ take (LBUF_SIZE - 1 - length buff) src in
  n ← TrimPartialSequence (length tp) tp;
  Some (take n tp).

Definition safe_copy_buf (src buff : bytes) : option bytes :=
  let left := (LBUF_SIZE - length buff - 1)%nat in
  if (left <? length src)%nat then
    nLen ← TrimPartialSequence left src; Some (buff ++ take nLen src)
  else Some (buff ++ src).

End Writers.

Definition mux_strncpy (src : bytes) (length_to_copy : nat) : bytes := take length_to_copy src.

(** ** Lower case *)

Definition mux_tolower_ascii (b : Z) : Z := if in_rng 65 90 b then b + 32 else b.

Record string_desc := { n_bytes : nat; d_p : bytes }.

(** [mux_tolower]: the transformation of the character at the head of a text, if it has one,
    and whether it is applied by exclusive or. *)
Class CaseTable := { mux_tolower : bytes -> option string_desc * bool }.

(** A result, or a read outside the memory of a string, or no more fuel. *)
Inductive run (A : Type) := Ok (a : A) | Oob | NoFuel.
Arguments Ok {A} a.
Arguments Oob {A}.
Arguments NoFuel {A}.

#[export] Instance run_bind : MBind run := fun A B f x =>
  match x with Ok a => f a | Oob => Oob | NoFuel => NoFuel end.

Definition of_option {A} (x : option A) : run A :=
  match x with Some a => Ok a | None => NoFuel end.

(** The first [n] bytes at [s], with the NUL; a pointer [n] bytes further on that is read next. *)
Definition read_bytes (s : bytes) (n : nat) : run bytes :=
  if (n <=? length s + 1)%nat then Ok (map (chr_at s) (seq 0 n)) else Oob.
Definition advance (s : bytes) (n : nat) : run bytes :=
  if (n <=? length s)%nat then Ok (drop n s) else Oob.

Section Folding.
Context `{!CaseTable}.

(** The folded bytes of the character at the head of [s]: the arrays [la] and [lb]. *)
Definition fold_char (s : bytes) : run bytes :=
  let '(q, bXor) := mux_tolower s in
  match q with
  | None =>
      let na := utf8_FirstByte (chr_at s 0) in
      read_bytes s (if UTF8_CONTINUE <=? na then 1%nat else Z.to_nat na)
  | Some d =>
      if bXor then
        la ← read_bytes s (n_bytes d);
        Ok (imap (fun j b => Z.lxor b (chr_at (d_p d) j)) la)
      else Ok (map (chr_at (d_p d)) (seq 0 (n_bytes d)))
  end.

Fixpoint minmatch_loop (fuel : nat) (str target : bytes) (mn : Z) : run bool :=
  match fuel with
  | O => NoFuel
  | S fuel =>
      match str, target with
      | _ :: _, _ :: _ =>
          la ← fold_char str;
          lb ← fold_char target;
          if bool_decide (la = lb) then
            str ← advance str (length la);
            target ← advance target (length lb);
            minmatch_loop fuel str target (mn - Z.of_nat (length la))
          else Ok false
      | _ :: _, [] => Ok false
      | [], [] => Ok true
      | [], _ :: _ => Ok (mn <=? 0)
      end
  end.

Definition minmatch (str target : bytes) (mn : Z) : run bool :=
  minmatch_loop (S (length str)) str target mn.

Definition byte_cmp (la lb : bytes) : Z :=
  (fix go la lb :=
     match la, lb with
     | [], [] => 0
     | [], _ :: _ => -1
     | _ :: _, [] => 1
     | a :: la, b :: lb => if a <? b then -1 else if b <? a then 1 else go la lb
     end) la lb.

Fixpoint mux_stricmp_fast (a b : bytes) : bytes * bytes + Z :=
  match a, b with
  | ca :: a', cb :: b' =>
      if (ca <? 0x80) && (cb <? 0x80) then
        let la := mux_tolower_ascii ca in
        let lb := mux_tolower_ascii cb in
        if negb (la =? lb) then inr (if la <? lb then -1 else 1) else mux_stricmp_fast a' b'
      else inl (a, b)
  | _, _ => inl (a, b)
  end.

Fixpoint mux_stricmp_slow (fuel : nat) (a b : bytes) : run Z :=
  match fuel with
  | O => NoFuel
  | S fuel =>
      match a, b with
      | _ :: _, _ :: _ =>
          la ← fold_char a;
          lb ← fold_char b;
          let c := byte_cmp la lb in
          if negb (c =? 0) then Ok c
          else
            a ← advance a (length la);
            b ← advance b (length lb);
            mux_stricmp_slow fuel a b
      | _, _ => Ok (byte_cmp [chr_at a 0] [chr_at b 0])
      end
  end.

Definition mux_stricmp (a b : bytes) : run Z :=
  match mux_stricmp_fast a b with
  | inr c => Ok c
  | inl (a, b) => mux_stricmp_slow (S (length a)) a b
  end.

(** The loop of [string_compare] over two texts that both go on. *)
Fixpoint string_compare_loop (fuel : nat) (s1 s2 : bytes) : run (bytes * bytes) :=
  match fuel with
  | O => NoFuel
  | S fuel =>
      match s1, s2 with
      | c1 :: s1', c2 :: s2' =>
          if mux_isspace c1 && mux_isspace c2 then
            string_compare_loop fuel (skip_while mux_isspace s1') (skip_while mux_isspace s2')
          else if (c1 <? 0x80) && (c2 <? 0x80) then
            if negb (mux_tolower_ascii c1 =? mux_tolower_ascii c2) then Ok (s1, s2)
            else string_compare_loop fuel s1' s2'
          else
            la ← fold_char s1;
            lb ← fold_char s2;
            if negb (bool_decide (la = lb)) then Ok (s1, s2)
            else
              t1 ← advance s1 (length la);
              t2 ← advance s2 (length lb);
              string_compare_loop fuel t1 t2
      | _, _ => Ok (s1, s2)
      end
  end.

Definition string_compare (g_space_compress : bool) (s1 s2 : bytes) : run Z :=
  if g_space_compress then
    let s1 := skip_while mux_isspace s1 in
    let s2 := skip_while mux_isspace s2 in
    '(s1, s2) ← string_compare_loop (S (length s1)) s1 s2;
    let c1 := chr_at s1 0 in
    let c2 := chr_at s2 0 in
    if negb (c1 =? 0) && negb (c2 =? 0) then Ok 1
    else if mux_isspace c1 then Ok (chr_at (skip_while mux_isspace s1) 0)
    else if mux_isspace c2 then Ok (chr_at (skip_while mux_isspace s2) 0)
    else if negb (c1 =? 0) || negb (c2 =? 0) then Ok 1
    else Ok 0
  else mux_stricmp s1 s2.

End Folding.

(** A lead byte is followed by its continuation bytes: at the head of a text, everywhere. *)
Definition lead1 (s : bytes) : bool :=
  let n := utf8_FirstByte (chr_at s 0) in
  (UTF8_CONTINUE <=? n)
  || (Z.to_nat n <=? length s)%nat
     && forallb (fun b => utf8_FirstByte b =? UTF8_CONTINUE) (take (Z.to_nat n - 1) (drop 1 s)).

Fixpoint lead_ok (s : bytes) : bool :=
  match s with
  | [] => true
  | _ :: s' => lead1 s && lead_ok s'
  end.

(** What the case table does: ASCII letters change and other ASCII characters stay; an entry
    that is applied by exclusive or has no more bytes than the character; no entry is empty. *)
Class CaseLaws `{!CaseTable} := {
  fold_char_ascii b s : in_rng 0 127 b = true -> fold_char (b :: s) = Ok [mux_tolower_ascii b];
  fold_char_lead b s : lead1 (b :: s) = true -> exists la, fold_char (b :: s) = Ok la;
  fold_entry_bytes s d x : mux_tolower s = (Some d, x) -> (1 <= n_bytes d)%nat
}.

(** ** Whole characters at the end *)

(** The last character of [s], if any, is complete: nothing is trimmed. *)
Definition whole (s : bytes) : Prop := trim_body s (length s) = inr (length s).
#[export] Instance whole_dec s : Decision (whole s).
Proof.
  unfold whole. destruct (trim_body s (length s)) as [n|n]; [by right|].
  destruct (decide (n = length s)) as [->|]; [by left | right; congruence].
Defined.

Lemma whole_trim s : whole s -> TrimPartialSequence (length s) s = Some (length s).
Proof. intros H. unfold TrimPartialSequence. cbn. by rewrite H. Qed.

Lemma chr_at_app_r a b i : chr_at (a ++ b) (length a + i) = chr_at b i.
Proof. unfold chr_at. rewrite app_nth2_plus. done. Qed.

Lemma chr_at_drop s i k : chr_at (drop i s) k = chr_at s (i + k).
Proof.
  unfold chr_at. revert i. induction s as [|c s IH]; intros [|i]; cbn; try done.
  by destruct k.
Qed.

Lemma forallb_ext' {A} (f g : A -> bool) l : (forall x, f x = g x) -> forallb f l = forallb g l.
Proof. intros H. induction l as [|x l IH]; cbn; [done|]. by rewrite H, IH. Qed.

Lemma utf8_decode_raw_ext p q n :
  (forall k, chr_at p k = chr_at q k) -> utf8_decode_raw p n = utf8_decode_raw q n.
Proof. intros H. unfold utf8_decode_raw. by rewrite !H. Qed.

Lemma trim_start_app a s k :
  utf8_FirstByte (chr_at s (trim_start s k)) <> UTF8_CONTINUE ->
  trim_start (a ++ s) (length a + k) = (length a + trim_start s k)%nat.
Proof.
  induction k as [|k IH]; cbn [trim_start]; intros H.
  - rewrite Nat.add_0_r. destruct a as [|c a]; [done|]. cbn [length trim_start].
    pose proof (chr_at_app_r (c :: a) s 0) as E. rewrite Nat.add_0_r in E. cbn [length] in E.
    rewrite E. by destruct (Z.eqb_spec (utf8_FirstByte (chr_at s 0)) UTF8_CONTINUE).
  - rewrite Nat.add_succ_r. cbn [trim_start]. rewrite <- Nat.add_succ_r, chr_at_app_r.
    destruct (_ =? _); [by apply IH | done].
Qed.

Lemma whole_app a s : s <> [] -> whole s -> whole (a ++ s).
Proof.
  intros Hs. unfold whole. rewrite length_app.
  destruct s as [|c s]; [done|]. set (s' := c :: s).
  replace (length a + length s')%nat with (S (length a + length s)) by (cbn; lia).
  change (length s') with (S (length s)). cbn [trim_body].
  set (i := trim_start s' (length s)).
  destruct (_ || _) eqn:E1; [done|]. intros H.
  assert (Hi : trim_start (a ++ s') (length a + length s) = (length a + i)%nat).
  { apply trim_start_app. fold i. intros E. rewrite E in E1. done. }
  rewrite Hi, chr_at_app_r, E1.
  destruct (i + _ =? _)%nat eqn:E2; cbn [negb] in *; [|done].
  replace (length a + i + _ =? _)%nat with true; [cbn [negb]|].
  2:{ symmetry. apply Nat.eqb_eq in E2. apply Nat.eqb_eq. lia. }
  erewrite utf8_decode_raw_ext with (q := drop i s').
  2:{ intros k. rewrite !chr_at_drop, <- Nat.add_assoc. apply chr_at_app_r. }
  rewrite (forallb_ext' _ (fun j => utf8_FirstByte (chr_at s' (i + j)) =? UTF8_CONTINUE)).
  2:{ intros j. by rewrite <- Nat.add_assoc, chr_at_app_r. }
  destruct (forallb _ _); [|done]. cbn [negb] in *.
  destruct (utf8_is_valid_scalar _ _); [done|done].
Qed.

Lemma whole_ascii s b : in_rng 0 127 b = true -> whole (s ++ [b]).
Proof.
  intros Hb. apply whole_app; [done|]. unfold whole. cbn [length trim_body trim_start].
  change (chr_at [b] 0) with b. apply in_rng_true in Hb.
  replace (utf8_FirstByte b) with 1.
  2:{ unfold utf8_FirstByte. replace (in_rng 0 0x7F b) with true; [done|]. symmetry. by apply in_rng_true. }
  assert (E : utf8_is_valid_scalar (utf8_decode_raw [b] 1) 1 = true).
  { change (utf8_decode_raw [b] 1) with b. unfold utf8_is_valid_scalar.
    replace (in_rng 0xD800 0xDFFF b) with false by (symmetry; apply in_rng_false; lia).
    replace (0x10FFFF <? b) with false by lia. done. }
  cbn -[utf8_is_valid_scalar utf8_decode_raw]. by rewrite E.
Qed.

Lemma lead_ok_drop n s : lead_ok s = true -> lead_ok (drop n s) = true.
Proof.
  revert n. induction s as [|c s IH]; intros [|n]; try done.
  cbn [lead_ok drop]. intros E. apply andb_prop in E. apply IH, E.
Qed.

Lemma lead_bytes b : (UTF8_CONTINUE <=? utf8_FirstByte b) = true \/ 1 <= utf8_FirstByte b <= 4.
Proof. unfold utf8_FirstByte, UTF8_CONTINUE. repeat case_match; (by left) || (right; lia). Qed.

Lemma lead1_take k s : (4 <= k)%nat -> lead1 s = true -> lead1 (take k s) = true.
Proof.
  intros Hk. destruct s as [|c s]; [by rewrite take_nil|]. unfold lead1.
  replace (chr_at (take k (c :: s)) 0) with c by (destruct k; [lia|done]).
  change (chr_at (c :: s) 0) with c.
  destruct (lead_bytes c) as [E|E]; [by rewrite E|].
  destruct (UTF8_CONTINUE <=? _); [done|]. cbn [orb]. intros E1. apply andb_prop in E1.
  destruct E1 as [E1 E2]. apply Nat.leb_le in E1.
  rewrite (proj2 (Nat.leb_le _ _)) by (rewrite length_take; lia).
  destruct k as [|k]; [lia|]. cbn [take drop andb] in *. rewrite drop_0 in *.
  by rewrite take_take, Nat.min_l by lia.
Qed.

(** A text may be cut before a byte that is no continuation byte. *)
Lemma lead_ok_cut a c b :
  utf8_FirstByte c <> UTF8_CONTINUE -> lead_ok (a ++ c :: b) = true -> lead_ok a = true.
Proof.
  intros Hc. induction a as [|x a IH]; cbn [app lead_ok]; [done|].
  intros E. apply andb_prop in E. destruct E as [E1 E2]. rewrite IH by done. clear E2 IH.
  rewrite andb_true_r. revert E1. unfold lead1. change (chr_at (x :: _) 0) with x.
  destruct (lead_bytes x) as [E|E]; [by rewrite E|].
  destruct (UTF8_CONTINUE <=? utf8_FirstByte x); [done|]. cbn [orb drop length]. rewrite !drop_0.
  set (k := Z.to_nat (utf8_FirstByte x)). assert (1 <= k)%nat by lia.
  intros E1. apply andb_prop in E1. destruct E1 as [_ E1].
  assert (Hk : (k - 1 <= length a)%nat).
  { destruct (Nat.le_gt_cases (k - 1) (length a)) as [|Hk]; [done|]. exfalso. apply Hc.
    rewrite forallb_forall in E1. apply Z.eqb_eq, E1. apply list_elem_of_In.
    rewrite take_app_ge by lia. apply elem_of_app. right.
    destruct (k - 1 - length a)%nat as [|m] eqn:Em; [lia|]. left. }
  rewrite (proj2 (Nat.leb_le _ _)) by (cbn; lia). by rewrite take_app_le in E1 by done.
Qed.

Lemma lead_ok_app a b : lead_ok a = true -> lead_ok b = true -> lead_ok (a ++ b) = true.
Proof.
  intros Ha Hb. induction a as [|x a IH]; [done|]. cbn [app lead_ok] in *.
  apply andb_prop in Ha. destruct Ha as [H1 H2]. rewrite IH, andb_true_r by done.
  revert H1. unfold lead1. change (chr_at (x :: _) 0) with x.
  destruct (lead_bytes x) as [E|E]; [by rewrite E|].
  destruct (UTF8_CONTINUE <=? utf8_FirstByte x); [done|]. cbn [orb drop length]. rewrite !drop_0.
  intros H1. apply andb_prop in H1. destruct H1 as [H1 H3]. apply Nat.leb_le in H1.
  rewrite take_app_le by lia. rewrite H3, andb_true_r. apply Nat.leb_le. rewrite length_app. lia.
Qed.

Lemma lead_ok_lead1 s : lead_ok s = true -> s <> [] -> lead1 s = true.
Proof. destruct s; [done|]. cbn [lead_ok]. intros E _. exact (proj1 (andb_prop _ _ E)). Qed.

Lemma lead_ok_ascii s : forallb (in_rng 0 127) s = true -> lead_ok s = true.
Proof.
  induction s as [|c s IH]; cbn [forallb lead_ok]; [done|]. intros E. apply andb_prop in E.
  destruct E as [Ec Es]. rewrite IH by done. unfold lead1, utf8_FirstByte.
  change (chr_at (c :: s) 0) with c. change (in_rng 0 0x7F c) with (in_rng 0 127 c). by rewrite Ec.
Qed.

(** ** The comparisons end *)

Section ComparisonsEnd.
Context {HT : CaseTable} {HL : CaseLaws}.

Lemma read_bytes_length s n la : read_bytes s n = Ok la -> length la = n.
Proof.
  unfold read_bytes. destruct (_ <=? _)%nat; [|done]. intros [= <-].
  by rewrite length_map, length_seq.
Qed.

Lemma fold_char_pos s la : fold_char s = Ok la -> (1 <= length la)%nat.
Proof.
  unfold fold_char. destruct (mux_tolower s) as [[d|] x] eqn:E.
  - pose proof (fold_entry_bytes s d x E) as Hd. destruct x.
    + destruct (read_bytes s (n_bytes d)) as [l| |] eqn:Er; [|done..]. intros [= <-].
      apply read_bytes_length in Er. by rewrite length_imap, Er.
    + intros [= <-]. by rewrite length_map, length_seq.
  - intros H. apply read_bytes_length in H. rewrite H.
    destruct (lead_bytes (chr_at s 0)) as [->|Hb]; [lia|]. destruct (_ <=? _); lia.
Qed.

Lemma fold_char_fuel s : fold_char s <> NoFuel.
Proof.
  unfold fold_char, read_bytes. destruct (mux_tolower s) as [[d|] []]; cbn; repeat case_match; done.
Qed.

Lemma advance_length s n t : advance s n = Ok t -> length t = (length s - n)%nat /\ (n <= length s)%nat.
Proof.
  unfold advance. destruct (Nat.leb_spec n (length s)); [|done]. intros [= <-].
  by rewrite length_drop.
Qed.

Lemma advance_fuel s n : advance s n <> NoFuel.
Proof. unfold advance. by destruct (_ <=? _)%nat. Qed.

Lemma skip_while_length P s : (length (skip_while P s) <= length s)%nat.
Proof. induction s as [|c s IH]; cbn; [lia|]. destruct (P c); cbn; lia. Qed.

Lemma string_compare_loop_end fuel s1 s2 :
  (length s1 < fuel)%nat -> string_compare_loop fuel s1 s2 <> NoFuel.
Proof.
  revert s1 s2. induction fuel as [|fuel IH]; intros s1 s2 Hf; [lia|].
  destruct s1 as [|c1 s1], s2 as [|c2 s2]; try done. cbn [string_compare_loop]. cbn in Hf.
  destruct (_ && _). { apply IH. pose proof (skip_while_length mux_isspace s1). lia. }
  destruct (_ && _). { destruct (negb _); [done|]. apply IH. lia. }
  destruct (fold_char (c1 :: s1)) as [la| |] eqn:Ea; [|done|by destruct (fold_char_fuel (c1 :: s1))].
  destruct (fold_char (c2 :: s2)) as [lb| |] eqn:Eb; [|done|by destruct (fold_char_fuel (c2 :: s2))].
  cbn [mbind run_bind]. destruct (negb _); [done|].
  destruct (advance (c1 :: s1) (length la)) as [t1| |] eqn:E1; [|done|by destruct (advance_fuel (c1 :: s1) (length la))].
  destruct (advance (c2 :: s2) (length lb)) as [t2| |] eqn:E2; [|done|by destruct (advance_fuel (c2 :: s2) (length lb))].
  cbn [mbind run_bind]. apply IH. apply advance_length in E1. apply fold_char_pos in Ea.
  cbn in E1. lia.
Qed.

Lemma mux_stricmp_slow_end fuel a b : (length a < fuel)%nat -> mux_stricmp_slow fuel a b <> NoFuel.
Proof.
  revert a b. induction fuel as [|fuel IH]; intros a b Hf; [lia|].
  destruct a as [|c1 a], b as [|c2 b]; try done. cbn [mux_stricmp_slow]. cbn in Hf.
  destruct (fold_char (c1 :: a)) as [la| |] eqn:Ea; [|done|by destruct (fold_char_fuel (c1 :: a))].
  destruct (fold_char (c2 :: b)) as [lb| |] eqn:Eb; [|done|by destruct (fold_char_fuel (c2 :: b))].
  cbn [mbind run_bind]. destruct (negb _); [done|].
  destruct (advance (c1 :: a) (length la)) as [t1| |] eqn:E1; [|done|by destruct (advance_fuel (c1 :: a) (length la))].
  destruct (advance (c2 :: b) (length lb)) as [t2| |] eqn:E2; [|done|by destruct (advance_fuel (c2 :: b) (length lb))].
  cbn [mbind run_bind]. apply IH. apply advance_length in E1. apply fold_char_pos in Ea.
  cbn in E1. lia.
Qed.

Lemma string_compare_end c s1 s2 : string_compare c s1 s2 <> NoFuel.
Proof.
  unfold string_compare. destruct c.
  - pose proof (string_compare_loop_end (S (length (skip_while mux_isspace s1)))
      (skip_while mux_isspace s1) (skip_while mux_isspace s2) ltac:(lia)).
    destruct (string_compare_loop _ _ _) as [[t1 t2]| |]; [|done..]. cbn [mbind run_bind].
    repeat case_match; done.
  - unfold mux_stricmp. destruct (mux_stricmp_fast s1 s2) as [[a b]|]; [|done].
    apply mux_stricmp_slow_end. lia.
Qed.

End ComparisonsEnd.

Section WritersFacts.
Context `{!Config}.

Lemma safe_chr_fits c buff : (length buff < cap)%nat -> safe_chr c buff = buff ++ [c].
Proof. intros Hl. unfold safe_chr, cap in *. by rewrite (proj2 (Nat.ltb_lt _ _) Hl). Qed.

Lemma safe_str_fits s buff :
  (length buff + length s <= cap)%nat -> whole (buff ++ s) -> safe_str s buff = Some (buff ++ s).
Proof.
  intros Hl Hw. unfold safe_str. fold cap. rewrite (take_ge s) by lia.
  rewrite whole_trim by done. cbn. by rewrite take_ge.
Qed.

(** On any bytes the writer returns and stays in the buffer. *)
Lemma TrimPartialSequence_total n p : exists m, TrimPartialSequence n p = Some m /\ (m <= n)%nat.
Proof.
  unfold TrimPartialSequence.
  apply (iter_total (trim_body p) (fun k => (k <= n)%nat) (fun m => (m <= n)%nat) (fun k => k)); [|lia|lia].
  intros k Hk. destruct k as [|k]; cbn; [lia|].
  assert (Hs : (trim_start p k <= k)%nat).
  { clear Hk. induction k; cbn; [lia|]. destruct (_ =? _); lia. }
  repeat case_match; simplify_eq; lia.
Qed.

Lemma safe_str_cap s buff :
  (length buff <= cap)%nat -> exists out, safe_str s buff = Some out /\ (length out <= cap)%nat.
Proof.
  intros Hl. unfold safe_str. fold cap.
  destruct (TrimPartialSequence_total (length (buff ++ take (cap - length buff) s))
    (buff ++ take (cap - length buff) s)) as (m & -> & Hm).
  cbn. eexists. split; [done|]. rewrite length_take, length_app, length_take in *. lia.
Qed.

End WritersFacts.
