(* ===== verification/CaseTables.v ===== *)
(** * The case tables of [src/mux/lib/unicode_tables.c]

    The tables that [utf/] generates for lower, upper and title case, as they stand in the
    source: the input translation ([itt]), the state offsets ([sot]), the run-length coded
    transitions ([sbt]) and the outputs ([ott]).  A state from [sbt] below the number of states
    is the next one; above, it accepts.  [CaseMap] reads them. *)

From S2P Require Import Prelude Machine Decimal StringUtil.

(** An entry of an output table: as many bytes as the string has. *)
Definition desc (p : bytes) : string_desc := {| n_bytes := length p; d_p := p |}.

(** ** Lower case *)

Definition tr_tolower_itt : list Z :=
  [ 0; 0; 0; 0; 0; 0; 0; 0; 0; 0; 0; 0; 0; 0; 0; 0; 0; 0; 0; 0; 0; 0; 0; 0; 0; 0; 0; 0; 0; 0; 0; 0;
    0; 0; 0; 0; 0; 0; 0; 0; 0; 0; 0; 0; 0; 0; 0; 0; 0; 0; 0; 0; 0; 0; 0; 0; 0; 0; 0; 0; 0; 0; 0; 0;
    0; 1; 1; 1; 1; 1; 1; 1; 1; 1; 1; 1; 1; 1; 1; 1; 1; 1; 1; 1; 1; 1; 1; 1; 1; 1; 1; 0; 0; 0; 0; 0;
    0; 0; 0; 0; 0; 0; 0; 0; 0; 0; 0; 0; 0; 0; 0; 0; 0; 0; 0; 0; 0; 0; 0; 0; 0; 0; 0; 0; 0; 0; 0; 0;
    2; 3; 4; 5; 6; 7; 8; 9; 10; 11; 12; 13; 14; 15; 16; 17; 18; 19; 20; 21; 22; 23; 24; 25; 26; 27;
    28; 29; 30; 31; 32; 33; 34; 35; 36; 37; 38; 39; 40; 41; 42; 43; 44; 45; 46; 47; 48; 49; 50; 51;
    52; 53; 54; 55; 56; 57; 58; 59; 60; 61; 62; 63; 64; 65; 0; 0; 0; 66; 67; 68; 69; 70; 71; 72; 0;
    0; 0; 73; 74; 75; 76; 77; 78; 79; 80; 81; 0; 0; 0; 0; 0; 0; 0; 0; 0; 0; 0; 82; 83; 0; 0; 0; 0;
    0; 0; 0; 84; 0; 0; 0; 0; 85; 86; 0; 0; 0; 0; 0; 0; 0; 0; 0; 0; 0; 0; 0; 0; 0 ].

Definition tr_tolower_sot : list Z :=
  [ 0; 27; 37; 107; 174; 242; 308; 372; 391; 407; 431; 480; 490; 526; 588; 657; 713; 721; 748; 754;
    767; 775; 787; 801; 869; 931; 949; 969; 991; 1023; 1043; 1058; 1064; 1070; 1084; 1104; 1114;
    1148; 1198; 1210; 1260; 1292; 1326; 1387; 1455; 1491; 1497; 1503; 1518; 1538; 1552; 1560; 1570;
    1591; 1618; 1624; 1632; 1638; 1644; 1650; 1656; 1662 ].

Definition tr_tolower_sbt : list Z :=
  [ 254; 62; 90; 64; 62; 235; 1; 2; 3; 4; 5; 6; 7; 8; 9; 10; 11; 12; 13; 14; 15; 16; 17; 29; 38;
    45; 47; 2; 62; 23; 91; 255; 62; 7; 91; 54; 62; 2; 62; 201; 92; 62; 92; 62; 92; 62; 92; 62; 92;
    62; 92; 62; 92; 62; 92; 62; 92; 62; 92; 62; 92; 62; 92; 62; 92; 62; 92; 62; 92; 62; 92; 62; 92;
    62; 92; 62; 92; 62; 92; 62; 92; 62; 92; 62; 92; 62; 92; 62; 63; 62; 92; 62; 92; 62; 92; 2; 62;
    249; 93; 62; 94; 62; 93; 62; 95; 21; 62; 3; 62; 249; 93; 62; 94; 62; 93; 62; 96; 2; 62; 204;
    92; 62; 92; 62; 92; 62; 92; 62; 92; 62; 92; 62; 92; 62; 92; 62; 92; 62; 92; 62; 92; 62; 92; 62;
    92; 62; 92; 62; 92; 62; 92; 62; 92; 62; 92; 62; 92; 62; 92; 62; 92; 62; 92; 62; 92; 62; 97; 93;
    62; 94; 62; 93; 23; 62; 3; 62; 245; 98; 92; 62; 92; 62; 98; 96; 62; 99; 100; 94; 2; 62; 248;
    101; 102; 103; 93; 62; 104; 105; 62; 2; 106; 255; 92; 3; 62; 242; 104; 107; 62; 108; 92; 62;
    92; 62; 92; 62; 109; 96; 62; 110; 2; 62; 243; 92; 62; 109; 111; 62; 112; 113; 94; 62; 93; 62;
    114; 92; 3; 62; 255; 92; 24; 62; 6; 62; 232; 115; 93; 62; 116; 92; 62; 117; 94; 62; 93; 62;
    111; 62; 93; 62; 94; 62; 93; 62; 96; 62; 93; 62; 94; 2; 62; 239; 92; 62; 92; 62; 92; 62; 92;
    62; 92; 62; 92; 62; 92; 62; 92; 62; 92; 2; 62; 242; 115; 92; 62; 92; 62; 118; 119; 92; 62; 92;
    62; 92; 62; 92; 22; 62; 2; 62; 205; 92; 62; 92; 62; 92; 62; 92; 62; 92; 62; 92; 62; 92; 62; 92;
    62; 92; 62; 92; 62; 92; 62; 92; 62; 92; 62; 92; 62; 92; 62; 92; 62; 120; 62; 92; 62; 92; 62;
    92; 62; 92; 62; 92; 62; 92; 62; 92; 62; 92; 62; 92; 7; 62; 251; 64; 94; 62; 121; 65; 22; 62; 3;
    62; 242; 93; 62; 122; 123; 124; 92; 62; 92; 62; 92; 62; 92; 62; 92; 70; 62; 50; 62; 253; 92;
    62; 92; 3; 62; 255; 92; 8; 62; 255; 125; 21; 62; 8; 62; 245; 126; 62; 127; 128; 127; 62; 129;
    62; 130; 131; 62; 15; 91; 2; 132; 255; 62; 9; 132; 41; 62; 17; 62; 255; 133; 8; 62; 233; 92;
    62; 92; 62; 92; 62; 92; 62; 92; 62; 92; 62; 92; 62; 92; 62; 92; 62; 92; 62; 92; 62; 92; 5; 62;
    255; 134; 2; 62; 252; 96; 62; 135; 92; 2; 62; 255; 136; 2; 137; 21; 62; 2; 62; 16; 138; 16; 91;
    16; 132; 37; 62; 34; 62; 225; 92; 62; 92; 62; 92; 62; 92; 62; 92; 62; 92; 62; 92; 62; 92; 62;
    92; 62; 92; 62; 92; 62; 92; 62; 92; 62; 92; 62; 92; 62; 92; 22; 62; 2; 62; 255; 92; 9; 62; 203;
    92; 62; 92; 62; 92; 62; 92; 62; 92; 62; 92; 62; 92; 62; 92; 62; 92; 62; 92; 62; 92; 62; 92; 62;
    92; 62; 92; 62; 92; 62; 92; 62; 92; 62; 92; 62; 92; 62; 92; 62; 92; 62; 92; 62; 92; 62; 92; 62;
    92; 62; 92; 62; 92; 22; 62; 2; 62; 242; 96; 93; 62; 94; 62; 93; 62; 96; 62; 93; 62; 94; 62; 93;
    2; 62; 209; 92; 62; 92; 62; 92; 62; 92; 62; 92; 62; 92; 62; 92; 62; 92; 62; 92; 62; 92; 62; 92;
    62; 92; 62; 92; 62; 92; 62; 92; 62; 92; 62; 92; 62; 92; 62; 92; 62; 92; 62; 92; 62; 92; 62; 92;
    62; 92; 22; 62; 2; 62; 209; 92; 62; 92; 62; 92; 62; 92; 62; 92; 62; 92; 62; 92; 62; 92; 62; 92;
    62; 92; 62; 92; 62; 92; 62; 92; 62; 92; 62; 92; 62; 92; 62; 92; 62; 92; 62; 92; 62; 92; 62; 92;
    62; 92; 62; 92; 62; 92; 2; 62; 15; 138; 21; 62; 2; 62; 16; 139; 7; 140; 62; 62; 4; 62; 254; 18;
    19; 10; 62; 254; 20; 21; 34; 62; 255; 22; 5; 62; 2; 23; 250; 24; 23; 25; 26; 27; 28; 21; 62;
    34; 62; 32; 141; 21; 62; 2; 62; 6; 142; 254; 62; 142; 5; 62; 255; 142; 71; 62; 34; 62; 16; 143;
    16; 144; 21; 62; 2; 62; 16; 145; 16; 146; 16; 145; 6; 147; 31; 62; 11; 62; 255; 148; 6; 62; 43;
    149; 2; 62; 3; 149; 21; 62; 2; 62; 193; 150; 62; 150; 62; 150; 62; 150; 62; 150; 62; 150; 62;
    150; 62; 150; 62; 150; 62; 150; 62; 150; 62; 150; 62; 150; 62; 150; 62; 150; 62; 150; 62; 150;
    62; 150; 62; 150; 62; 150; 62; 150; 62; 150; 62; 150; 62; 150; 62; 150; 62; 150; 62; 150; 62;
    150; 62; 150; 62; 150; 62; 150; 62; 150; 22; 62; 2; 62; 235; 150; 62; 150; 62; 150; 62; 150;
    62; 150; 62; 150; 62; 150; 62; 150; 62; 150; 62; 150; 62; 150; 9; 62; 223; 66; 62; 150; 62;
    150; 62; 150; 62; 150; 62; 150; 62; 150; 62; 150; 62; 150; 62; 150; 62; 150; 62; 150; 62; 150;
    62; 150; 62; 150; 62; 150; 62; 150; 22; 62; 10; 62; 8; 147; 8; 62; 6; 147; 10; 62; 8; 147; 8;
    62; 8; 147; 21; 62; 10; 62; 6; 147; 11; 62; 249; 147; 62; 147; 62; 147; 62; 147; 8; 62; 8; 147;
    37; 62; 10; 62; 8; 147; 8; 62; 8; 147; 8; 62; 8; 147; 8; 62; 2; 147; 2; 151; 255; 152; 24; 62;
    10; 62; 2; 153; 2; 154; 255; 152; 11; 62; 2; 147; 2; 155; 12; 62; 2; 147; 2; 156; 255; 157; 11;
    62; 2; 158; 2; 159; 255; 152; 24; 62; 6; 62; 253; 30; 31; 32; 11; 62; 254; 33; 34; 28; 62; 252;
    35; 36; 23; 37; 33; 62; 40; 62; 255; 67; 3; 62; 254; 68; 69; 6; 62; 255; 160; 34; 62; 34; 62;
    16; 161; 37; 62; 5; 62; 255; 162; 81; 62; 56; 62; 2; 163; 2; 164; 2; 165; 2; 164; 2; 163; 21;
    62; 2; 62; 2; 166; 2; 167; 2; 166; 2; 168; 2; 169; 2; 170; 2; 169; 2; 168; 69; 62; 2; 62; 16;
    171; 16; 172; 16; 173; 37; 62; 34; 62; 251; 150; 62; 70; 174; 71; 2; 62; 244; 152; 62; 148; 62;
    162; 62; 72; 73; 74; 75; 62; 150; 2; 62; 255; 148; 8; 62; 254; 76; 77; 21; 62; 2; 62; 221; 150;
    62; 150; 62; 150; 62; 150; 62; 150; 62; 150; 62; 150; 62; 150; 62; 150; 62; 150; 62; 150; 62;
    150; 62; 150; 62; 150; 62; 150; 62; 150; 62; 150; 62; 150; 8; 62; 253; 162; 62; 148; 4; 62;
    255; 150; 34; 62; 27; 62; 249; 39; 40; 62; 41; 42; 43; 44; 53; 62; 2; 62; 211; 150; 62; 150;
    62; 150; 62; 150; 62; 150; 62; 150; 62; 150; 62; 150; 62; 150; 62; 150; 62; 150; 62; 150; 62;
    150; 62; 150; 62; 150; 62; 150; 62; 150; 62; 150; 62; 150; 62; 150; 62; 150; 62; 150; 62; 150;
    40; 62; 2; 62; 229; 150; 62; 150; 62; 150; 62; 150; 62; 150; 62; 150; 62; 150; 62; 150; 62;
    150; 62; 150; 62; 150; 62; 150; 62; 150; 62; 150; 58; 62; 36; 62; 243; 150; 62; 150; 62; 150;
    62; 150; 62; 150; 62; 150; 62; 150; 3; 62; 243; 150; 62; 150; 62; 150; 62; 150; 62; 150; 62;
    150; 62; 150; 22; 62; 2; 62; 209; 150; 62; 150; 62; 150; 62; 150; 62; 150; 62; 150; 62; 150;
    62; 150; 62; 150; 62; 150; 62; 150; 62; 150; 62; 150; 62; 150; 62; 150; 62; 150; 62; 150; 62;
    150; 62; 150; 62; 150; 62; 150; 62; 150; 62; 150; 62; 150; 10; 62; 250; 148; 62; 162; 62; 175;
    150; 22; 62; 2; 62; 249; 150; 62; 150; 62; 150; 62; 150; 4; 62; 253; 162; 62; 78; 2; 62; 253;
    150; 62; 150; 3; 62; 215; 150; 62; 150; 62; 150; 62; 150; 62; 150; 62; 150; 62; 150; 62; 150;
    62; 150; 62; 150; 62; 79; 80; 81; 82; 83; 62; 84; 85; 86; 176; 150; 62; 150; 62; 150; 62; 150;
    62; 150; 62; 150; 22; 62; 2; 62; 243; 150; 62; 150; 62; 172; 87; 177; 152; 62; 148; 62; 88;
    150; 3; 62; 255; 150; 5; 62; 249; 150; 62; 150; 62; 150; 62; 89; 24; 62; 255; 148; 31; 62; 62;
    62; 255; 46; 24; 62; 35; 62; 26; 178; 26; 62; 18; 62; 254; 48; 56; 4; 62; 255; 58; 7; 62; 255;
    60; 54; 62; 18; 62; 249; 49; 62; 50; 51; 62; 52; 53; 27; 62; 255; 54; 2; 62; 255; 55; 31; 62;
    2; 62; 8; 179; 8; 180; 8; 179; 8; 181; 8; 182; 45; 62; 50; 62; 8; 182; 8; 181; 21; 62; 2; 62;
    8; 179; 8; 180; 4; 179; 65; 62; 50; 62; 240; 183; 184; 185; 184; 186; 184; 185; 184; 183; 187;
    188; 62; 189; 187; 188; 187; 21; 62; 2; 62; 234; 190; 191; 192; 191; 193; 191; 192; 191; 190;
    194; 195; 62; 196; 194; 195; 194; 190; 191; 192; 62; 193; 191; 63; 62; 2; 62; 51; 197; 34; 62;
    18; 62; 16; 198; 6; 199; 47; 62; 36; 62; 255; 57; 50; 62; 34; 62; 32; 200; 21; 62; 59; 62; 255;
    59; 27; 62; 2; 62; 32; 198; 53; 62; 38; 62; 255; 61; 48; 62; 2; 62; 2; 201; 2; 202; 2; 201; 2;
    203; 2; 201; 2; 202; 2; 201; 2; 204; 2; 201; 2; 202; 2; 201; 2; 203; 2; 201; 2; 202; 2; 201; 2;
    205; 2; 206; 51; 62 ].

Definition tr_tolower_ott : list string_desc := map desc
  [ [105;204;135]; [226;177;165]; [226;177;166]; [195;159]; [207;137]; [107]; [195;165]; [201;171];
    [201;189]; [201;145]; [201;177]; [201;144]; [201;146]; [200;191]; [201;128]; [201;165];
    [201;166]; [201;156]; [201;161]; [201;172]; [201;170]; [202;158]; [202;135]; [202;157];
    [202;130]; [201;164]; [198;155]; [32]; [0;32]; [0;1]; [0;3]; [0;7]; [1;63]; [0;15]; [6;7];
    [15;18]; [15;31]; [15;29]; [1;19]; [15;22]; [15;11]; [15;51]; [15;55]; [15;63]; [15;47];
    [15;42]; [12;38]; [12;42]; [0;31]; [12;59]; [12;57]; [12;37]; [0;2]; [0;14]; [0;6]; [1;35];
    [1;8]; [14;62]; [14;39]; [15;3]; [3;13]; [3;9]; [2;12]; [0;42]; [0;37]; [0;39]; [1;0]; [1;3];
    [1;1]; [1;32]; [0;24]; [1;12]; [0;11]; [2;6]; [2;2]; [1;16]; [0;48]; [3;16]; [3;54;32];
    [3;55;32]; [11;35;16]; [11;32;48]; [11;33;16]; [11;33;48]; [0;0;8]; [0;0;3]; [0;49;0]; [0;0;1];
    [0;3;10]; [0;0;15]; [0;2;58]; [0;2;62]; [0;2;44]; [0;2;16]; [0;0;9]; [0;2;0]; [0;2;6];
    [0;1;60]; [0;0;16]; [0;0;7]; [0;1;38]; [0;1;42]; [0;1;46]; [0;0;26]; [0;0;30]; [0;0;38];
    [0;0;42]; [0;0;46]; [0;0;48]; [0;1;16]; [0;1;48]; [3;4;30]; [11;40;4]; [0;51;32]; [11;41;8];
    [0;1;32]; [0;0;0;40]; [0;0;0;56]; [0;0;1;24]; [0;0;1;40]; [0;0;3;39]; [0;0;3;41]; [0;0;3;43];
    [0;0;3;47]; [0;0;3;25]; [0;0;3;27]; [0;0;3;31]; [0;0;0;39]; [0;0;0;41]; [0;0;0;43]; [0;0;0;47];
    [0;0;0;57]; [0;0;0;59]; [0;0;0;63]; [0;0;1;0]; [0;0;0;32]; [0;0;3;32]; [0;0;1;32]; [0;0;0;34];
    [0;0;0;38]; [0;0;0;46]; [0;0;0;62]; [0;0;1;30]; [0;0;1;34] ].

(** ** Upper case *)

Definition tr_toupper_itt : list Z :=
  [ 0; 0; 0; 0; 0; 0; 0; 0; 0; 0; 0; 0; 0; 0; 0; 0; 0; 0; 0; 0; 0; 0; 0; 0; 0; 0; 0; 0; 0; 0; 0; 0;
    0; 0; 0; 0; 0; 0; 0; 0; 0; 0; 0; 0; 0; 0; 0; 0; 0; 0; 0; 0; 0; 0; 0; 0; 0; 0; 0; 0; 0; 0; 0; 0;
    0; 0; 0; 0; 0; 0; 0; 0; 0; 0; 0; 0; 0; 0; 0; 0; 0; 0; 0; 0; 0; 0; 0; 0; 0; 0; 0; 0; 0; 0; 0; 0;
    0; 1; 1; 1; 1; 1; 1; 1; 1; 1; 1; 1; 1; 1; 1; 1; 1; 1; 1; 1; 1; 1; 1; 1; 1; 1; 1; 0; 0; 0; 0; 0;
    2; 3; 4; 5; 6; 7; 8; 9; 10; 11; 12; 13; 14; 15; 16; 17; 18; 19; 20; 21; 22; 23; 24; 25; 26; 27;
    28; 29; 30; 31; 32; 33; 34; 35; 36; 37; 38; 39; 40; 41; 42; 43; 44; 45; 46; 47; 48; 49; 50; 51;
    52; 53; 54; 55; 56; 57; 58; 59; 60; 61; 62; 63; 64; 65; 0; 0; 66; 67; 68; 69; 70; 71; 72; 73;
    74; 0; 0; 75; 76; 77; 78; 79; 80; 81; 82; 83; 84; 0; 0; 0; 0; 0; 0; 0; 0; 0; 0; 85; 86; 0; 0;
    0; 0; 0; 0; 0; 87; 0; 0; 0; 0; 88; 89; 0; 0; 0; 0; 0; 0; 0; 0; 0; 0; 0; 0; 0; 0; 0 ].

Definition tr_toupper_sot : list Z :=
  [ 0; 30; 36; 50; 118; 188; 262; 326; 390; 456; 483; 505; 521; 582; 588; 629; 691; 758; 810; 818;
    826; 855; 865; 871; 888; 898; 904; 972; 1038; 1056; 1093; 1161; 1212; 1231; 1241; 1247; 1277;
    1283; 1313; 1363; 1378; 1395; 1445; 1477; 1511; 1573; 1632; 1666; 1676; 1688; 1698; 1718; 1724;
    1739; 1759; 1769; 1777; 1791; 1834; 1840; 1846; 1852; 1858; 1864; 1870; 1876; 1883; 1917 ].

Definition tr_toupper_sbt : list Z :=
  [ 254; 68; 165; 64; 68; 232; 1; 2; 3; 4; 5; 6; 7; 8; 9; 10; 11; 12; 13; 14; 15; 16; 17; 18; 19;
    20; 32; 40; 49; 52; 55; 68; 255; 166; 34; 68; 33; 68; 255; 167; 23; 168; 255; 68; 7; 168; 255;
    169; 24; 68; 3; 68; 201; 170; 68; 170; 68; 170; 68; 170; 68; 170; 68; 170; 68; 170; 68; 170;
    68; 170; 68; 170; 68; 170; 68; 170; 68; 170; 68; 170; 68; 170; 68; 170; 68; 170; 68; 170; 68;
    170; 68; 170; 68; 170; 68; 170; 68; 170; 68; 170; 68; 69; 68; 170; 68; 170; 68; 170; 2; 68;
    251; 171; 68; 172; 68; 171; 25; 68; 2; 68; 200; 173; 68; 171; 68; 172; 68; 171; 68; 174; 70;
    68; 170; 68; 170; 68; 170; 68; 170; 68; 170; 68; 170; 68; 170; 68; 170; 68; 170; 68; 170; 68;
    170; 68; 170; 68; 170; 68; 170; 68; 170; 68; 170; 68; 170; 68; 170; 68; 170; 68; 170; 68; 170;
    68; 170; 68; 170; 2; 68; 250; 171; 68; 172; 68; 171; 71; 24; 68; 2; 68; 255; 175; 2; 68; 253;
    170; 68; 170; 2; 68; 255; 174; 3; 68; 255; 172; 5; 68; 255; 171; 2; 68; 255; 176; 3; 68; 253;
    170; 177; 72; 2; 68; 255; 178; 2; 68; 251; 170; 68; 170; 68; 170; 2; 68; 255; 174; 4; 68; 255;
    170; 2; 68; 255; 179; 3; 68; 253; 172; 68; 171; 2; 68; 255; 170; 3; 68; 253; 170; 68; 180; 24;
    68; 7; 68; 207; 170; 181; 68; 174; 182; 68; 170; 183; 68; 171; 68; 179; 68; 171; 68; 172; 68;
    171; 68; 174; 68; 171; 68; 172; 184; 68; 170; 68; 170; 68; 170; 68; 170; 68; 170; 68; 170; 68;
    170; 68; 170; 68; 170; 73; 68; 171; 181; 68; 170; 3; 68; 249; 170; 68; 170; 68; 170; 68; 170;
    24; 68; 3; 68; 225; 170; 68; 170; 68; 170; 68; 170; 68; 170; 68; 170; 68; 170; 68; 170; 68;
    170; 68; 170; 68; 170; 68; 170; 68; 170; 68; 170; 68; 170; 68; 170; 3; 68; 239; 170; 68; 170;
    68; 170; 68; 170; 68; 170; 68; 170; 68; 170; 68; 170; 68; 170; 8; 68; 255; 172; 2; 68; 255; 74;
    24; 68; 2; 68; 253; 75; 68; 171; 4; 68; 244; 170; 68; 170; 68; 170; 68; 170; 68; 170; 76; 77;
    78; 2; 185; 248; 68; 186; 187; 68; 188; 68; 189; 79; 3; 68; 248; 190; 80; 68; 191; 81; 82; 83;
    68; 2; 192; 253; 84; 85; 86; 2; 68; 252; 190; 68; 87; 193; 2; 68; 255; 194; 7; 68; 255; 88; 26;
    68; 2; 68; 252; 195; 68; 89; 196; 3; 68; 250; 90; 195; 197; 198; 199; 200; 5; 68; 255; 201; 10;
    68; 254; 91; 92; 57; 68; 7; 68; 255; 202; 43; 68; 253; 170; 68; 170; 3; 68; 255; 170; 3; 68;
    255; 203; 2; 204; 26; 68; 18; 68; 255; 93; 27; 68; 251; 205; 206; 207; 206; 94; 15; 168; 24;
    68; 2; 68; 2; 208; 255; 209; 9; 208; 250; 210; 211; 212; 68; 213; 214; 3; 68; 223; 215; 216;
    217; 68; 170; 68; 170; 68; 170; 68; 170; 68; 170; 68; 170; 68; 170; 68; 170; 68; 170; 68; 170;
    68; 170; 68; 170; 218; 219; 220; 221; 68; 208; 2; 68; 255; 174; 2; 68; 255; 170; 28; 68; 50;
    68; 16; 168; 24; 68; 2; 68; 16; 208; 16; 219; 224; 68; 170; 68; 170; 68; 170; 68; 170; 68; 170;
    68; 170; 68; 170; 68; 170; 68; 170; 68; 170; 68; 170; 68; 170; 68; 170; 68; 170; 68; 170; 68;
    170; 24; 68; 3; 68; 255; 170; 9; 68; 203; 170; 68; 170; 68; 170; 68; 170; 68; 170; 68; 170; 68;
    170; 68; 170; 68; 170; 68; 170; 68; 170; 68; 170; 68; 170; 68; 170; 68; 170; 68; 170; 68; 170;
    68; 170; 68; 170; 68; 170; 68; 170; 68; 170; 68; 170; 68; 170; 68; 170; 68; 170; 68; 170; 24;
    68; 4; 68; 194; 171; 68; 172; 68; 171; 68; 174; 68; 171; 68; 172; 68; 171; 174; 68; 170; 68;
    170; 68; 170; 68; 170; 68; 170; 68; 170; 68; 170; 68; 170; 68; 170; 68; 170; 68; 170; 68; 170;
    68; 170; 68; 170; 68; 170; 68; 170; 68; 170; 68; 170; 68; 170; 68; 170; 68; 170; 68; 170; 68;
    170; 68; 170; 24; 68; 3; 68; 209; 170; 68; 170; 68; 170; 68; 170; 68; 170; 68; 170; 68; 170;
    68; 170; 68; 170; 68; 170; 68; 170; 68; 170; 68; 170; 68; 170; 68; 170; 68; 170; 68; 170; 68;
    170; 68; 170; 68; 170; 68; 170; 68; 170; 68; 170; 68; 170; 40; 68; 35; 68; 15; 219; 16; 222;
    24; 68; 2; 68; 7; 223; 255; 95; 80; 68; 5; 68; 255; 21; 11; 68; 255; 22; 34; 68; 255; 23; 2;
    68; 253; 24; 25; 68; 2; 26; 250; 27; 26; 28; 29; 30; 31; 24; 68; 18; 68; 43; 224; 2; 68; 3;
    224; 24; 68; 58; 68; 6; 225; 26; 68; 2; 68; 252; 96; 97; 98; 99; 2; 100; 251; 101; 102; 226;
    68; 227; 77; 68; 59; 68; 255; 228; 3; 68; 255; 229; 26; 68; 16; 68; 255; 230; 73; 68; 3; 68;
    193; 231; 68; 231; 68; 231; 68; 231; 68; 231; 68; 231; 68; 231; 68; 231; 68; 231; 68; 231; 68;
    231; 68; 231; 68; 231; 68; 231; 68; 231; 68; 231; 68; 231; 68; 231; 68; 231; 68; 231; 68; 231;
    68; 231; 68; 231; 68; 231; 68; 231; 68; 231; 68; 231; 68; 231; 68; 231; 68; 231; 68; 231; 68;
    231; 24; 68; 3; 68; 229; 231; 68; 231; 68; 231; 68; 231; 68; 231; 68; 231; 68; 231; 68; 231;
    68; 231; 68; 231; 68; 231; 232; 233; 234; 235; 236; 237; 5; 68; 225; 231; 68; 231; 68; 231; 68;
    231; 68; 231; 68; 231; 68; 231; 68; 231; 68; 231; 68; 231; 68; 231; 68; 231; 68; 231; 68; 231;
    68; 231; 68; 231; 24; 68; 2; 68; 8; 225; 8; 68; 6; 225; 10; 68; 8; 225; 8; 68; 8; 225; 32; 68;
    2; 68; 6; 225; 10; 68; 248; 103; 225; 104; 225; 105; 225; 106; 225; 8; 68; 8; 225; 8; 68; 2;
    238; 2; 239; 2; 240; 2; 241; 2; 242; 2; 243; 2; 244; 26; 68; 2; 68; 208; 107; 108; 109; 110;
    111; 112; 113; 114; 107; 108; 109; 110; 111; 112; 113; 114; 115; 116; 117; 118; 119; 120; 121;
    122; 115; 116; 117; 118; 119; 120; 121; 122; 123; 124; 125; 126; 127; 128; 129; 130; 123; 124;
    125; 126; 127; 128; 129; 130; 2; 225; 250; 131; 132; 133; 68; 134; 135; 4; 68; 253; 132; 68;
    136; 25; 68; 4; 68; 250; 137; 138; 139; 68; 140; 141; 4; 68; 255; 138; 3; 68; 2; 225; 254; 142;
    93; 2; 68; 254; 143; 144; 8; 68; 2; 225; 250; 145; 94; 146; 245; 147; 148; 10; 68; 250; 149;
    150; 151; 68; 152; 153; 4; 68; 255; 150; 27; 68; 7; 68; 254; 33; 34; 12; 68; 255; 35; 28; 68;
    251; 36; 37; 26; 38; 39; 35; 68; 16; 68; 255; 246; 33; 68; 16; 247; 24; 68; 6; 68; 255; 248;
    83; 68; 18; 68; 2; 249; 2; 250; 2; 251; 2; 250; 2; 249; 2; 252; 2; 253; 2; 252; 2; 254; 2; 255;
    2; 256; 2; 255; 2; 254; 46; 68; 50; 68; 16; 257; 24; 68; 2; 68; 16; 258; 16; 259; 254; 68; 231;
    3; 68; 248; 154; 155; 68; 260; 68; 227; 68; 248; 6; 68; 255; 231; 2; 68; 255; 227; 33; 68; 3;
    68; 221; 231; 68; 231; 68; 231; 68; 231; 68; 231; 68; 231; 68; 231; 68; 231; 68; 231; 68; 231;
    68; 231; 68; 231; 68; 231; 68; 231; 68; 231; 68; 231; 68; 231; 68; 231; 8; 68; 253; 248; 68;
    227; 4; 68; 255; 231; 36; 68; 2; 68; 32; 261; 6; 262; 254; 68; 262; 5; 68; 255; 262; 42; 68;
    27; 68; 249; 41; 42; 68; 43; 44; 45; 46; 13; 68; 254; 47; 48; 41; 68; 3; 68; 211; 231; 68; 231;
    68; 231; 68; 231; 68; 231; 68; 231; 68; 231; 68; 231; 68; 231; 68; 231; 68; 231; 68; 231; 68;
    231; 68; 231; 68; 231; 68; 231; 68; 231; 68; 231; 68; 231; 68; 231; 68; 231; 68; 231; 68; 231;
    42; 68; 3; 68; 229; 231; 68; 231; 68; 231; 68; 231; 68; 231; 68; 231; 68; 231; 68; 231; 68;
    231; 68; 231; 68; 231; 68; 231; 68; 231; 68; 231; 60; 68; 37; 68; 243; 231; 68; 231; 68; 231;
    68; 231; 68; 231; 68; 231; 68; 231; 3; 68; 243; 231; 68; 231; 68; 231; 68; 231; 68; 231; 68;
    231; 68; 231; 24; 68; 3; 68; 209; 231; 68; 231; 68; 231; 68; 231; 68; 231; 68; 231; 68; 231;
    68; 231; 68; 231; 68; 231; 68; 231; 68; 231; 68; 231; 68; 231; 68; 231; 68; 231; 68; 231; 68;
    231; 68; 231; 68; 231; 68; 231; 68; 231; 68; 231; 68; 231; 10; 68; 253; 227; 68; 248; 2; 68;
    255; 231; 24; 68; 3; 68; 249; 231; 68; 231; 68; 231; 68; 231; 4; 68; 255; 248; 4; 68; 252; 231;
    68; 231; 258; 2; 68; 237; 231; 68; 231; 68; 231; 68; 231; 68; 231; 68; 231; 68; 231; 68; 231;
    68; 231; 68; 231; 11; 68; 245; 231; 68; 231; 68; 231; 68; 231; 68; 231; 68; 231; 24; 68; 3; 68;
    253; 231; 68; 231; 4; 68; 253; 260; 68; 227; 2; 68; 255; 231; 3; 68; 255; 231; 5; 68; 251; 231;
    68; 231; 68; 231; 26; 68; 255; 227; 33; 68; 21; 68; 255; 263; 28; 68; 16; 264; 24; 68; 2; 68;
    16; 265; 16; 266; 16; 267; 16; 266; 24; 68; 46; 68; 255; 50; 16; 68; 255; 51; 26; 68; 2; 68;
    251; 156; 157; 158; 268; 269; 2; 159; 12; 68; 251; 160; 161; 162; 163; 164; 64; 68; 3; 68; 26;
    270; 61; 68; 18; 68; 254; 53; 61; 4; 68; 255; 63; 7; 68; 255; 65; 57; 68; 18; 68; 252; 54; 55;
    68; 56; 2; 68; 255; 57; 28; 68; 252; 58; 68; 59; 60; 33; 68; 42; 68; 8; 271; 8; 272; 8; 271;
    24; 68; 2; 68; 8; 273; 8; 274; 72; 68; 26; 68; 8; 274; 8; 273; 8; 271; 8; 272; 4; 271; 28; 68;
    25; 68; 218; 275; 276; 277; 276; 278; 276; 277; 276; 275; 279; 280; 68; 281; 279; 280; 279;
    282; 283; 284; 283; 285; 283; 284; 283; 282; 286; 287; 68; 288; 286; 287; 286; 282; 283; 284;
    68; 285; 283; 27; 68; 2; 68; 51; 289; 37; 68; 50; 68; 16; 290; 24; 68; 2; 68; 6; 291; 82; 68;
    37; 68; 255; 62; 52; 68; 2; 68; 32; 292; 56; 68; 59; 68; 255; 64; 30; 68; 34; 68; 32; 290; 24;
    68; 38; 68; 254; 66; 67; 50; 68; 36; 68; 2; 293; 2; 294; 2; 293; 2; 295; 2; 293; 2; 294; 2;
    293; 2; 296; 2; 293; 2; 294; 2; 293; 2; 295; 2; 293; 2; 294; 2; 293; 24; 68; 2; 68; 2; 297; 2;
    298; 84; 68 ].

Definition tr_toupper_ott : list string_desc := map desc
  [ [73]; [202;188;78]; [83]; [234;159;156]; [74;204;140]; [226;177;190]; [226;177;191];
    [226;177;175]; [226;177;173]; [226;177;176]; [234;158;171]; [234;158;172]; [234;159;139];
    [234;158;141]; [234;158;170]; [234;158;174]; [226;177;162]; [234;158;173]; [226;177;174];
    [226;177;164]; [234;159;133]; [234;158;177]; [234;158;178]; [234;158;176];
    [206;153;204;136;204;129]; [206;165;204;136;204;129]; [212;181;213;146]; [208;146]; [208;148];
    [208;158]; [208;161]; [208;162]; [208;170]; [209;162]; [206;165;204;147];
    [206;165;204;147;204;128]; [206;165;204;147;204;129]; [206;165;204;147;205;130];
    [225;188;136;206;153]; [225;188;137;206;153]; [225;188;138;206;153]; [225;188;139;206;153];
    [225;188;140;206;153]; [225;188;141;206;153]; [225;188;142;206;153]; [225;188;143;206;153];
    [225;188;168;206;153]; [225;188;169;206;153]; [225;188;170;206;153]; [225;188;171;206;153];
    [225;188;172;206;153]; [225;188;173;206;153]; [225;188;174;206;153]; [225;188;175;206;153];
    [225;189;168;206;153]; [225;189;169;206;153]; [225;189;170;206;153]; [225;189;171;206;153];
    [225;189;172;206;153]; [225;189;173;206;153]; [225;189;174;206;153]; [225;189;175;206;153];
    [225;190;186;206;153]; [206;145;206;153]; [206;134;206;153]; [206;145;205;130];
    [206;145;205;130;206;153]; [206;153]; [225;191;138;206;153]; [206;151;206;153];
    [206;137;206;153]; [206;151;205;130]; [206;151;205;130;206;153]; [206;153;204;136;204;128];
    [206;153;205;130]; [206;153;204;136;205;130]; [206;165;204;136;204;128]; [206;161;204;147];
    [206;165;205;130]; [206;165;204;136;205;130]; [225;191;186;206;153]; [206;169;206;153];
    [206;143;206;153]; [206;169;205;130]; [206;169;205;130;206;153]; [200;186]; [200;190]; [70;70];
    [70;73]; [70;76]; [83;84]; [213;132;213;134]; [213;132;212;181]; [213;132;212;187];
    [213;142;213;134]; [213;132;212;189]; [32]; [12;41]; [144;204]; [0;32]; [6;7]; [0;1]; [0;3];
    [0;7]; [1;63]; [0;15]; [15;3]; [1;35]; [14;39]; [14;62]; [0;31]; [1;8]; [0;2]; [0;14]; [0;6];
    [1;19]; [15;18]; [15;31]; [15;29]; [15;22]; [15;11]; [15;51]; [15;55]; [15;63]; [15;47];
    [15;42]; [12;38]; [12;42]; [3;13]; [12;59]; [12;57]; [3;9]; [12;37]; [3;28]; [2;6]; [2;2];
    [0;42]; [0;37]; [0;39]; [1;32]; [1;33]; [1;0]; [1;3]; [1;1]; [1;2]; [1;9]; [1;51]; [1;54];
    [0;24]; [1;42]; [1;16]; [0;11]; [2;12]; [0;48]; [3;16]; [0;49;0]; [0;0;8]; [11;43;2]; [0;0;3];
    [11;40;4]; [3;4;30]; [11;41;8]; [0;0;1]; [169;118;39]; [181;118;31]; [182;118;18];
    [184;118;19]; [160;112;36]; [0;3;59]; [0;3;10]; [0;2;58]; [0;2;62]; [0;2;44]; [0;2;0];
    [0;2;16]; [0;2;6]; [0;0;9]; [0;1;60]; [0;0;16]; [0;0;7]; [0;1;38]; [0;1;42]; [0;1;46];
    [0;0;26]; [0;0;30]; [0;0;38]; [0;0;42]; [0;0;46]; [0;0;48]; [0;1;16]; [0;1;48]; [0;0;15];
    [3;54;32]; [3;55;32]; [0;51;32]; [11;35;16]; [11;32;48]; [11;33;16]; [11;33;48]; [169;234;202];
    [169;234;200]; [0;1;32]; [0;0;0;40]; [0;0;0;56]; [0;0;1;24]; [0;0;1;40]; [0;0;3;39];
    [0;0;3;41]; [0;0;3;43]; [0;0;3;47]; [0;0;3;25]; [0;0;3;27]; [0;0;3;31]; [0;0;0;39]; [0;0;0;41];
    [0;0;0;43]; [0;0;0;47]; [0;0;0;57]; [0;0;0;59]; [0;0;0;63]; [0;0;1;0]; [0;0;0;32]; [0;0;3;32];
    [0;0;1;32]; [0;0;0;34]; [0;0;0;38]; [0;0;0;46]; [0;0;0;62]; [0;0;1;30]; [0;0;1;34] ].

(** ** Title case *)

Definition tr_totitle_itt : list Z :=
  [ 0; 0; 0; 0; 0; 0; 0; 0; 0; 0; 0; 0; 0; 0; 0; 0; 0; 0; 0; 0; 0; 0; 0; 0; 0; 0; 0; 0; 0; 0; 0; 0;
    0; 0; 0; 0; 0; 0; 0; 0; 0; 0; 0; 0; 0; 0; 0; 0; 0; 0; 0; 0; 0; 0; 0; 0; 0; 0; 0; 0; 0; 0; 0; 0;
    0; 0; 0; 0; 0; 0; 0; 0; 0; 0; 0; 0; 0; 0; 0; 0; 0; 0; 0; 0; 0; 0; 0; 0; 0; 0; 0; 0; 0; 0; 0; 0;
    0; 1; 1; 1; 1; 1; 1; 1; 1; 1; 1; 1; 1; 1; 1; 1; 1; 1; 1; 1; 1; 1; 1; 1; 1; 1; 1; 0; 0; 0; 0; 0;
    2; 3; 4; 5; 6; 7; 8; 9; 10; 11; 12; 13; 14; 15; 16; 17; 18; 19; 20; 21; 22; 23; 24; 25; 26; 27;
    28; 29; 30; 31; 32; 33; 34; 35; 36; 37; 38; 39; 40; 41; 42; 43; 44; 45; 46; 47; 48; 49; 50; 51;
    52; 53; 54; 55; 56; 57; 58; 59; 60; 61; 62; 63; 64; 65; 0; 0; 66; 67; 68; 69; 70; 71; 72; 73;
    74; 0; 0; 75; 76; 77; 78; 79; 80; 81; 82; 83; 84; 0; 0; 0; 0; 0; 0; 0; 0; 0; 0; 85; 86; 0; 0;
    0; 0; 0; 0; 0; 87; 0; 0; 0; 0; 88; 89; 0; 0; 0; 0; 0; 0; 0; 0; 0; 0; 0; 0; 0; 0; 0 ].

Definition tr_totitle_sot : list Z :=
  [ 0; 30; 36; 50; 118; 188; 262; 328; 392; 458; 485; 507; 523; 584; 590; 631; 693; 760; 812; 820;
    828; 857; 867; 873; 890; 900; 906; 974; 1040; 1058; 1095; 1124; 1167; 1186; 1196; 1202; 1232;
    1238; 1268; 1318; 1333; 1350; 1400; 1432; 1466; 1528; 1587; 1621; 1631; 1643; 1653; 1673; 1679;
    1694; 1714; 1724; 1732; 1746; 1789; 1795; 1801; 1807; 1813; 1819; 1825; 1831; 1838; 1872 ].

Definition tr_totitle_sbt : list Z :=
  [ 254; 68; 138; 64; 68; 232; 1; 2; 3; 4; 5; 6; 7; 8; 9; 10; 11; 12; 13; 14; 15; 16; 17; 18; 19;
    20; 32; 40; 49; 52; 55; 68; 255; 139; 34; 68; 33; 68; 255; 140; 23; 141; 255; 68; 7; 141; 255;
    142; 24; 68; 3; 68; 201; 143; 68; 143; 68; 143; 68; 143; 68; 143; 68; 143; 68; 143; 68; 143;
    68; 143; 68; 143; 68; 143; 68; 143; 68; 143; 68; 143; 68; 143; 68; 143; 68; 143; 68; 143; 68;
    143; 68; 143; 68; 143; 68; 143; 68; 143; 68; 143; 68; 69; 68; 143; 68; 143; 68; 143; 2; 68;
    251; 144; 68; 145; 68; 144; 25; 68; 2; 68; 200; 146; 68; 144; 68; 145; 68; 144; 68; 147; 70;
    68; 143; 68; 143; 68; 143; 68; 143; 68; 143; 68; 143; 68; 143; 68; 143; 68; 143; 68; 143; 68;
    143; 68; 143; 68; 143; 68; 143; 68; 143; 68; 143; 68; 143; 68; 143; 68; 143; 68; 143; 68; 143;
    68; 143; 68; 143; 2; 68; 250; 144; 68; 145; 68; 144; 71; 24; 68; 2; 68; 255; 148; 2; 68; 253;
    143; 68; 143; 2; 68; 255; 147; 3; 68; 255; 145; 5; 68; 255; 144; 2; 68; 255; 149; 3; 68; 253;
    143; 150; 72; 2; 68; 255; 151; 2; 68; 251; 143; 68; 143; 68; 143; 2; 68; 255; 147; 4; 68; 255;
    143; 2; 68; 255; 152; 3; 68; 253; 145; 68; 144; 2; 68; 255; 143; 3; 68; 253; 143; 68; 153; 24;
    68; 6; 68; 251; 143; 154; 144; 147; 154; 2; 143; 213; 154; 145; 68; 144; 68; 152; 68; 144; 68;
    145; 68; 144; 68; 147; 68; 144; 68; 145; 155; 68; 143; 68; 143; 68; 143; 68; 143; 68; 143; 68;
    143; 68; 143; 68; 143; 68; 143; 73; 144; 154; 143; 68; 143; 3; 68; 249; 143; 68; 143; 68; 143;
    68; 143; 24; 68; 3; 68; 225; 143; 68; 143; 68; 143; 68; 143; 68; 143; 68; 143; 68; 143; 68;
    143; 68; 143; 68; 143; 68; 143; 68; 143; 68; 143; 68; 143; 68; 143; 68; 143; 3; 68; 239; 143;
    68; 143; 68; 143; 68; 143; 68; 143; 68; 143; 68; 143; 68; 143; 68; 143; 8; 68; 255; 145; 2; 68;
    255; 74; 24; 68; 2; 68; 253; 75; 68; 144; 4; 68; 244; 143; 68; 143; 68; 143; 68; 143; 68; 143;
    76; 77; 78; 2; 156; 248; 68; 157; 158; 68; 159; 68; 160; 79; 3; 68; 248; 161; 80; 68; 162; 81;
    82; 83; 68; 2; 163; 253; 84; 85; 86; 2; 68; 252; 161; 68; 87; 164; 2; 68; 255; 165; 7; 68; 255;
    88; 26; 68; 2; 68; 252; 166; 68; 89; 167; 3; 68; 250; 90; 166; 168; 169; 170; 171; 5; 68; 255;
    172; 10; 68; 254; 91; 92; 57; 68; 7; 68; 255; 173; 43; 68; 253; 143; 68; 143; 3; 68; 255; 143;
    3; 68; 255; 174; 2; 175; 26; 68; 18; 68; 255; 93; 27; 68; 251; 176; 177; 178; 177; 94; 15; 141;
    24; 68; 2; 68; 2; 179; 255; 180; 9; 179; 250; 181; 182; 183; 68; 184; 185; 3; 68; 223; 186;
    187; 188; 68; 143; 68; 143; 68; 143; 68; 143; 68; 143; 68; 143; 68; 143; 68; 143; 68; 143; 68;
    143; 68; 143; 68; 143; 189; 190; 191; 192; 68; 179; 2; 68; 255; 147; 2; 68; 255; 143; 28; 68;
    50; 68; 16; 141; 24; 68; 2; 68; 16; 179; 16; 190; 224; 68; 143; 68; 143; 68; 143; 68; 143; 68;
    143; 68; 143; 68; 143; 68; 143; 68; 143; 68; 143; 68; 143; 68; 143; 68; 143; 68; 143; 68; 143;
    68; 143; 24; 68; 3; 68; 255; 143; 9; 68; 203; 143; 68; 143; 68; 143; 68; 143; 68; 143; 68; 143;
    68; 143; 68; 143; 68; 143; 68; 143; 68; 143; 68; 143; 68; 143; 68; 143; 68; 143; 68; 143; 68;
    143; 68; 143; 68; 143; 68; 143; 68; 143; 68; 143; 68; 143; 68; 143; 68; 143; 68; 143; 68; 143;
    24; 68; 4; 68; 194; 144; 68; 145; 68; 144; 68; 147; 68; 144; 68; 145; 68; 144; 147; 68; 143;
    68; 143; 68; 143; 68; 143; 68; 143; 68; 143; 68; 143; 68; 143; 68; 143; 68; 143; 68; 143; 68;
    143; 68; 143; 68; 143; 68; 143; 68; 143; 68; 143; 68; 143; 68; 143; 68; 143; 68; 143; 68; 143;
    68; 143; 68; 143; 24; 68; 3; 68; 209; 143; 68; 143; 68; 143; 68; 143; 68; 143; 68; 143; 68;
    143; 68; 143; 68; 143; 68; 143; 68; 143; 68; 143; 68; 143; 68; 143; 68; 143; 68; 143; 68; 143;
    68; 143; 68; 143; 68; 143; 68; 143; 68; 143; 68; 143; 68; 143; 40; 68; 35; 68; 15; 190; 16;
    193; 24; 68; 2; 68; 7; 194; 255; 95; 80; 68; 5; 68; 255; 21; 11; 68; 255; 22; 34; 68; 255; 23;
    2; 68; 253; 24; 25; 68; 2; 26; 250; 27; 26; 28; 29; 30; 31; 24; 68; 18; 68; 43; 195; 2; 68; 3;
    195; 24; 68; 58; 68; 6; 196; 26; 68; 2; 68; 252; 96; 97; 98; 99; 2; 100; 251; 101; 102; 197;
    68; 198; 77; 68; 59; 68; 255; 199; 3; 68; 255; 200; 26; 68; 16; 68; 255; 201; 73; 68; 3; 68;
    193; 202; 68; 202; 68; 202; 68; 202; 68; 202; 68; 202; 68; 202; 68; 202; 68; 202; 68; 202; 68;
    202; 68; 202; 68; 202; 68; 202; 68; 202; 68; 202; 68; 202; 68; 202; 68; 202; 68; 202; 68; 202;
    68; 202; 68; 202; 68; 202; 68; 202; 68; 202; 68; 202; 68; 202; 68; 202; 68; 202; 68; 202; 68;
    202; 24; 68; 3; 68; 229; 202; 68; 202; 68; 202; 68; 202; 68; 202; 68; 202; 68; 202; 68; 202;
    68; 202; 68; 202; 68; 202; 203; 204; 205; 206; 207; 208; 5; 68; 225; 202; 68; 202; 68; 202; 68;
    202; 68; 202; 68; 202; 68; 202; 68; 202; 68; 202; 68; 202; 68; 202; 68; 202; 68; 202; 68; 202;
    68; 202; 68; 202; 24; 68; 2; 68; 8; 196; 8; 68; 6; 196; 10; 68; 8; 196; 8; 68; 8; 196; 32; 68;
    2; 68; 6; 196; 10; 68; 248; 103; 196; 104; 196; 105; 196; 106; 196; 8; 68; 8; 196; 8; 68; 2;
    209; 2; 210; 2; 211; 2; 212; 2; 213; 2; 214; 2; 215; 26; 68; 2; 68; 8; 196; 8; 68; 8; 196; 8;
    68; 8; 196; 8; 68; 2; 196; 250; 107; 216; 108; 68; 109; 110; 6; 68; 255; 111; 25; 68; 4; 68;
    250; 112; 216; 113; 68; 114; 115; 8; 68; 2; 196; 254; 116; 93; 2; 68; 254; 117; 118; 8; 68; 2;
    196; 250; 119; 94; 120; 217; 121; 122; 10; 68; 250; 123; 216; 124; 68; 125; 126; 32; 68; 7; 68;
    254; 33; 34; 12; 68; 255; 35; 28; 68; 251; 36; 37; 26; 38; 39; 35; 68; 16; 68; 255; 218; 33;
    68; 16; 219; 24; 68; 6; 68; 255; 220; 83; 68; 18; 68; 2; 221; 2; 222; 2; 223; 2; 222; 2; 221;
    2; 224; 2; 225; 2; 224; 2; 226; 2; 227; 2; 228; 2; 227; 2; 226; 46; 68; 50; 68; 16; 229; 24;
    68; 2; 68; 16; 230; 16; 231; 254; 68; 202; 3; 68; 248; 127; 128; 68; 216; 68; 198; 68; 220; 6;
    68; 255; 202; 2; 68; 255; 198; 33; 68; 3; 68; 221; 202; 68; 202; 68; 202; 68; 202; 68; 202; 68;
    202; 68; 202; 68; 202; 68; 202; 68; 202; 68; 202; 68; 202; 68; 202; 68; 202; 68; 202; 68; 202;
    68; 202; 68; 202; 8; 68; 253; 220; 68; 198; 4; 68; 255; 202; 36; 68; 2; 68; 32; 232; 6; 233;
    254; 68; 233; 5; 68; 255; 233; 42; 68; 27; 68; 249; 41; 42; 68; 43; 44; 45; 46; 13; 68; 254;
    47; 48; 41; 68; 3; 68; 211; 202; 68; 202; 68; 202; 68; 202; 68; 202; 68; 202; 68; 202; 68; 202;
    68; 202; 68; 202; 68; 202; 68; 202; 68; 202; 68; 202; 68; 202; 68; 202; 68; 202; 68; 202; 68;
    202; 68; 202; 68; 202; 68; 202; 68; 202; 42; 68; 3; 68; 229; 202; 68; 202; 68; 202; 68; 202;
    68; 202; 68; 202; 68; 202; 68; 202; 68; 202; 68; 202; 68; 202; 68; 202; 68; 202; 68; 202; 60;
    68; 37; 68; 243; 202; 68; 202; 68; 202; 68; 202; 68; 202; 68; 202; 68; 202; 3; 68; 243; 202;
    68; 202; 68; 202; 68; 202; 68; 202; 68; 202; 68; 202; 24; 68; 3; 68; 209; 202; 68; 202; 68;
    202; 68; 202; 68; 202; 68; 202; 68; 202; 68; 202; 68; 202; 68; 202; 68; 202; 68; 202; 68; 202;
    68; 202; 68; 202; 68; 202; 68; 202; 68; 202; 68; 202; 68; 202; 68; 202; 68; 202; 68; 202; 68;
    202; 10; 68; 253; 198; 68; 220; 2; 68; 255; 202; 24; 68; 3; 68; 249; 202; 68; 202; 68; 202; 68;
    202; 4; 68; 255; 220; 4; 68; 252; 202; 68; 202; 230; 2; 68; 237; 202; 68; 202; 68; 202; 68;
    202; 68; 202; 68; 202; 68; 202; 68; 202; 68; 202; 68; 202; 11; 68; 245; 202; 68; 202; 68; 202;
    68; 202; 68; 202; 68; 202; 24; 68; 3; 68; 253; 202; 68; 202; 4; 68; 253; 216; 68; 198; 2; 68;
    255; 202; 3; 68; 255; 202; 5; 68; 251; 202; 68; 202; 68; 202; 26; 68; 255; 198; 33; 68; 21; 68;
    255; 234; 28; 68; 16; 235; 24; 68; 2; 68; 16; 236; 16; 237; 16; 238; 16; 237; 24; 68; 46; 68;
    255; 50; 16; 68; 255; 51; 26; 68; 2; 68; 251; 129; 130; 131; 239; 240; 2; 132; 12; 68; 251;
    133; 134; 135; 136; 137; 64; 68; 3; 68; 26; 241; 61; 68; 18; 68; 254; 53; 61; 4; 68; 255; 63;
    7; 68; 255; 65; 57; 68; 18; 68; 252; 54; 55; 68; 56; 2; 68; 255; 57; 28; 68; 252; 58; 68; 59;
    60; 33; 68; 42; 68; 8; 242; 8; 243; 8; 242; 24; 68; 2; 68; 8; 244; 8; 245; 72; 68; 26; 68; 8;
    245; 8; 244; 8; 242; 8; 243; 4; 242; 28; 68; 25; 68; 218; 246; 247; 248; 247; 249; 247; 248;
    247; 246; 250; 251; 68; 252; 250; 251; 250; 253; 254; 255; 254; 256; 254; 255; 254; 253; 257;
    258; 68; 259; 257; 258; 257; 253; 254; 255; 68; 256; 254; 27; 68; 2; 68; 51; 260; 37; 68; 50;
    68; 16; 261; 24; 68; 2; 68; 6; 262; 82; 68; 37; 68; 255; 62; 52; 68; 2; 68; 32; 263; 56; 68;
    59; 68; 255; 64; 30; 68; 34; 68; 32; 261; 24; 68; 38; 68; 254; 66; 67; 50; 68; 36; 68; 2; 264;
    2; 265; 2; 264; 2; 266; 2; 264; 2; 265; 2; 264; 2; 267; 2; 264; 2; 265; 2; 264; 2; 266; 2; 264;
    2; 265; 2; 264; 24; 68; 2; 68; 2; 268; 2; 269; 84; 68 ].

Definition tr_totitle_ott : list string_desc := map desc
  [ [73]; [202;188;78]; [83]; [234;159;156]; [74;204;140]; [226;177;190]; [226;177;191];
    [226;177;175]; [226;177;173]; [226;177;176]; [234;158;171]; [234;158;172]; [234;159;139];
    [234;158;141]; [234;158;170]; [234;158;174]; [226;177;162]; [234;158;173]; [226;177;174];
    [226;177;164]; [234;159;133]; [234;158;177]; [234;158;178]; [234;158;176];
    [206;153;204;136;204;129]; [206;165;204;136;204;129]; [212;181;214;130]; [208;146]; [208;148];
    [208;158]; [208;161]; [208;162]; [208;170]; [209;162]; [206;165;204;147];
    [206;165;204;147;204;128]; [206;165;204;147;204;129]; [206;165;204;147;205;130];
    [225;190;186;205;133]; [206;134;205;133]; [206;145;205;130]; [206;145;205;130;205;133];
    [206;153]; [225;191;138;205;133]; [206;137;205;133]; [206;151;205;130];
    [206;151;205;130;205;133]; [206;153;204;136;204;128]; [206;153;205;130];
    [206;153;204;136;205;130]; [206;165;204;136;204;128]; [206;161;204;147]; [206;165;205;130];
    [206;165;204;136;205;130]; [225;191;186;205;133]; [206;143;205;133]; [206;169;205;130];
    [206;169;205;130;205;133]; [200;186]; [200;190]; [70;102]; [70;105]; [70;108]; [83;116];
    [213;132;213;182]; [213;132;213;165]; [213;132;213;171]; [213;142;213;182]; [213;132;213;173];
    [32]; [12;41]; [144;236]; [0;32]; [6;7]; [0;1]; [0;3]; [0;7]; [1;63]; [0;15]; [15;3]; [1;35];
    [14;39]; [14;62]; [0;31]; [1;8]; [0;0]; [1;19]; [15;18]; [15;31]; [15;29]; [15;22]; [15;11];
    [15;51]; [15;55]; [15;63]; [15;47]; [15;42]; [12;38]; [12;42]; [3;13]; [12;59]; [12;57]; [3;9];
    [12;37]; [3;28]; [2;6]; [2;2]; [0;42]; [0;37]; [0;39]; [1;32]; [1;33]; [1;0]; [1;3]; [1;1];
    [1;2]; [1;9]; [1;51]; [1;54]; [0;24]; [1;42]; [1;16]; [0;11]; [2;12]; [0;48]; [3;16]; [0;0;0];
    [0;0;8]; [11;43;2]; [0;0;3]; [11;40;4]; [3;4;30]; [11;41;8]; [0;0;1]; [169;118;39];
    [181;118;31]; [182;118;18]; [184;118;19]; [160;112;36]; [0;3;59]; [0;3;10]; [0;2;58]; [0;2;62];
    [0;2;44]; [0;2;0]; [0;2;16]; [0;2;6]; [0;0;15]; [0;0;9]; [0;1;60]; [0;0;16]; [0;0;7]; [0;1;38];
    [0;1;42]; [0;1;46]; [0;0;26]; [0;0;30]; [0;0;38]; [0;0;42]; [0;0;46]; [0;0;48]; [0;1;16];
    [0;1;48]; [3;54;32]; [3;55;32]; [0;51;32]; [11;35;16]; [11;32;48]; [11;33;16]; [11;33;48];
    [169;202;234]; [169;202;232]; [0;1;32]; [0;0;0;40]; [0;0;0;56]; [0;0;1;24]; [0;0;1;40];
    [0;0;3;39]; [0;0;3;41]; [0;0;3;43]; [0;0;3;47]; [0;0;3;25]; [0;0;3;27]; [0;0;3;31]; [0;0;0;39];
    [0;0;0;41]; [0;0;0;43]; [0;0;0;47]; [0;0;0;57]; [0;0;0;59]; [0;0;0;63]; [0;0;1;0]; [0;0;0;32];
    [0;0;3;32]; [0;0;1;32]; [0;0;0;34]; [0;0;0;38]; [0;0;0;46]; [0;0;0;62]; [0;0;1;30];
    [0;0;1;34] ].
