(* ===== verification/CaseMap.v ===== *)
(** * Changing case: the automata of [src/mux/include/unicode_tables_c.h] and their clients

    [co_dfa_tolower], [co_dfa_toupper] and [co_dfa_totitle] run a table-driven automaton on the
    code point at a pointer.  Their clients are [co_tolower], [co_toupper] and [co_totitle] of
    [src/mux/lib/color_ops.c] for coloured text and [mux_strlwr] and [mux_strupr] of
    [src/mux/lib/stringutil.cpp] for C strings.  What the tables guarantee is computed by
    running the automaton on every character ([explore]). *)

From S2P Require Import Prelude Machine Decimal Encoding Scan StringUtil CaseTables.

(** ** The automaton *)

Record case_dfa := {
  START_STATE : Z;
  ACCEPTING_STATES_START : Z;
  DEFAULT : Z;
  XOR_START : Z;
  itt : list Z;
  sot : list Z;
  sbt : list Z;
  ott : list string_desc
}.

(** An access to an array. *)
Definition at_index {A} (l : list A) (i : Z) : run A :=
  if i <? 0 then Oob else match l !! Z.to_nat i with Some v => Ok v | None => Oob end.

(** The loop over the bytes at [p], by the transition function; the NUL is the last byte that
    may be read. *)
Section Loop.
Variables (next : Z -> Z -> run Z) (accepting : Z).

Fixpoint dfa_loop (iState : Z) (p : bytes) : run Z :=
  iState ← next iState (chr_at p 0);
  if iState <? accepting then
    match p with
    | [] => Oob
    | _ :: p' => dfa_loop iState p'
    end
  else Ok iState.

End Loop.

Section Dfa.
Variable D : case_dfa.

(** The phrases of a row, from [iOffset] on: a run of one state or a list of states. *)
Fixpoint dfa_row (fuel : nat) (iOffset iColumn : Z) : run Z :=
  match fuel with
  | O => NoFuel
  | S fuel =>
      y ← at_index (sbt D) iOffset;
      if y <? 128 then
        if iColumn <? y then at_index (sbt D) (iOffset + 1)
        else dfa_row fuel (iOffset + 2) (iColumn - y)
      else
        let y := 256 - y in
        if iColumn <? y then at_index (sbt D) (iOffset + iColumn + 1)
        else dfa_row fuel (iOffset + y + 1) (iColumn - y)
  end.

Definition dfa_next (iState ch : Z) : run Z :=
  iColumn ← at_index (itt D) ch;
  iOffset ← at_index (sot D) iState;
  dfa_row 256 iOffset iColumn.

(** The entry that an accepting state stands for, and [bXor]. *)
Definition dfa_entry (iState : Z) : run (option string_desc * bool) :=
  if iState - ACCEPTING_STATES_START D =? DEFAULT D then Ok (None, false)
  else
    d ← at_index (ott D) (iState - ACCEPTING_STATES_START D - 1);
    Ok (Some d, XOR_START D <=? iState - ACCEPTING_STATES_START D).

Definition co_dfa (p : bytes) : run (option string_desc * bool) :=
  iState ← dfa_loop dfa_next (ACCEPTING_STATES_START D) (START_STATE D) p; dfa_entry iState.

End Dfa.

Definition tr_tolower : case_dfa := {|
  START_STATE := 0; ACCEPTING_STATES_START := 62; DEFAULT := 0; XOR_START := 28;
  itt := tr_tolower_itt; sot := tr_tolower_sot; sbt := tr_tolower_sbt; ott := tr_tolower_ott |}.
Definition tr_toupper : case_dfa := {|
  START_STATE := 0; ACCEPTING_STATES_START := 68; DEFAULT := 0; XOR_START := 97;
  itt := tr_toupper_itt; sot := tr_toupper_sot; sbt := tr_toupper_sbt; ott := tr_toupper_ott |}.
Definition tr_totitle : case_dfa := {|
  START_STATE := 0; ACCEPTING_STATES_START := 68; DEFAULT := 0; XOR_START := 70;
  itt := tr_totitle_itt; sot := tr_totitle_sot; sbt := tr_totitle_sbt; ott := tr_totitle_ott |}.

(** [mux_tolower] is [co_dfa_tolower]; that it reads nothing after the NUL is [co_dfa_total]. *)
Definition dfa_result (r : run (option string_desc * bool)) : option string_desc * bool :=
  match r with Ok q => q | _ => (None, false) end.
#[export] Instance unicode_case : CaseTable := {| mux_tolower p := dfa_result (co_dfa tr_tolower p) |}.

(** ** The clients *)

(** What is written for the character of bytes [s], given the answer of the automaton: an entry
    that is applied by exclusive or must have as many bytes. *)
Definition case_bytes (q : option string_desc * bool) (s : bytes) : bytes :=
  match q with
  | (None, _) => s
  | (Some d, bXor) =>
      if bXor && negb (n_bytes d =? length s)%nat then s
      else if bXor then imap (fun j b => Z.lxor b (chr_at (d_p d) j)) s
      else map (chr_at (d_p d)) (seq 0 (n_bytes d))
  end.

Section Clients.
Context {HC : Config}.
Variable lookup : bytes -> option string_desc * bool.

(** [co_toupper] and [co_tolower]: the machine of the scanners, with the start of the code point
    and the output. *)
Definition case_act (v : bytes * bytes) (first : bool) (done : option kind) (p : bytes) :
    bytes * bytes + bytes * bytes :=
  let '(mark, out) := v in
  let mark := if first then p else mark in
  match done with
  | Some KVis => inl (mark, wp_safe_bytes out (case_bytes (lookup mark) (bytes_to mark p)))
  | Some KCol => inl (mark, wp_safe_bytes out (bytes_to mark p))
  | None => inl (mark, out)
  end.

Definition co_case (data : bytes) : bytes :=
  let '(_, _, (_, out)) := ragel_exec case_act St12 data (data, []) in out.

(** [mux_strlwr] and [mux_strupr]: the bytes of the character at [a]. *)
Definition str_src (a : bytes) : nat :=
  let src := utf8_FirstByte (chr_at a 0) in
  if UTF8_CONTINUE <=? src then 1%nat
  else if forallb (fun j => negb (chr_at a j =? 0) && (utf8_FirstByte (chr_at a j) =? UTF8_CONTINUE))
            (seq 1 (Z.to_nat src - 1)) then Z.to_nat src
  else 1%nat.

Fixpoint str_case_loop (fuel : nat) (a Buffer : bytes) : option bytes :=
  match fuel with
  | O => None
  | S fuel =>
      match a with
      | [] => Some Buffer
      | _ =>
          let src := str_src a in
          let out := case_bytes (lookup a) (take src a) in
          if (LBUF_SIZE - 1 <? length Buffer + length out)%nat then Some Buffer
          else str_case_loop fuel (drop src a) (Buffer ++ out)
      end
  end.

Definition str_case (a : bytes) : option bytes := str_case_loop (S (length a)) a [].

(** [co_totitle]: the first visible code point changes.  [after] is the memory after the text. *)
Definition title_src (p : bytes) : nat :=
  let src := utf8_FirstByte (chr_at p 0) in
  let src := if UTF8_CONTINUE <=? src then 1%nat else Z.to_nat src in
  if forallb (fun b => utf8_FirstByte b =? UTF8_CONTINUE) (take (src - 1) (drop 1 p)) then src else 1%nat.

Definition co_title (data after : bytes) : bytes :=
  let p := co_skip_color data in
  let wp := wp_safe_copy [] (range data p) in
  match p with
  | [] => wp
  | _ =>
      let src := title_src p in
      let wp := wp_safe_bytes wp (case_bytes (lookup (p ++ after)) (take src (p ++ after))) in
      let p := drop src p in
      if (0 <? length p)%nat then wp_safe_copy wp p else wp
  end.

End Clients.

Section Cases.
Context {HC : Config}.
Definition lower (p : bytes) : option string_desc * bool := dfa_result (co_dfa tr_tolower p).
Definition upper (p : bytes) : option string_desc * bool := dfa_result (co_dfa tr_toupper p).
Definition title (p : bytes) : option string_desc * bool := dfa_result (co_dfa tr_totitle p).

Definition co_tolower (data : bytes) : bytes := co_case lower data.
Definition co_toupper (data : bytes) : bytes := co_case upper data.
Definition co_totitle (data after : bytes) : bytes := co_title title data after.
Definition mux_strlwr (a : bytes) : option bytes := str_case lower a.
Definition mux_strupr (a : bytes) : option bytes := str_case upper a.
End Cases.

(** ** What the tables guarantee

    A row is expanded to the list of its targets by column ([expand]), which is quicker to look
    up.  [explore] runs the automaton on every completion of a lead byte by continuation bytes, and
    asks [P] of the character and the entry. *)

Definition conts : bytes := zrange 128 64.

Section Rows.
Variable D : case_dfa.

Fixpoint expand (fuel : nat) (l : list Z) (cols : nat) : list Z :=
  match fuel, cols, l with
  | S fuel, S _, y :: t :: l' =>
      if y <? 128 then
        if y <? 0 then []
        else replicate (Nat.min cols (Z.to_nat y)) t ++ expand fuel l' (cols - Z.to_nat y)
      else
        let n := Z.to_nat (256 - y) in
        if 256 <? y then [] else take n (t :: l') ++ expand fuel (drop n (t :: l')) (cols - n)
  | _, _, _ => []
  end.

Definition columns : nat := S (Z.to_nat (foldr Z.max 0 (itt D))).
Definition rows : list (list Z) :=
  map (fun o => if o <? 0 then [] else expand 256 (drop (Z.to_nat o) (sbt D)) columns) (sot D).

Definition row_next (table : list (list Z)) (iState ch : Z) : run Z :=
  match at_index (itt D) ch with
  | Ok iColumn => match at_index table iState with Ok r => at_index r iColumn | _ => Oob end
  | _ => Oob
  end.

Lemma at_index_ok {A} (l : list A) i v : at_index l i = Ok v <-> 0 <= i /\ l !! Z.to_nat i = Some v.
Proof.
  unfold at_index. destruct (Z.ltb_spec i 0); [split; [done|intros [? _]; lia]|].
  destruct (l !! Z.to_nat i); split; intros; destruct_and?; simplify_eq; done.
Qed.

Lemma expand_row fuel off col cols v :
  0 <= off -> 0 <= col -> expand fuel (drop (Z.to_nat off) (sbt D)) cols !! Z.to_nat col = Some v ->
  dfa_row D fuel off col = Ok v.
Proof.
  revert off col cols. induction fuel as [|fuel IH]; intros off col cols Ho Hc; [done|].
  destruct cols as [|cols]; [done|]. set (cs := S cols).
  destruct (drop (Z.to_nat off) (sbt D)) as [|y [|t l]] eqn:El; [done|done|].
  assert (Hat : forall k, sbt D !! (Z.to_nat off + k)%nat = (y :: t :: l) !! k).
  { intros k. by rewrite <- El, lookup_drop. }
  assert (Hdrop : forall k, drop k (y :: t :: l) = drop (Z.to_nat off + k) (sbt D)).
  { intros k. by rewrite <- El, drop_drop. }
  assert (Ey : at_index (sbt D) off = Ok y).
  { apply at_index_ok. split; [done|]. rewrite <- (Nat.add_0_r (Z.to_nat off)). by rewrite Hat. }
  cbn [expand dfa_row]. fold cs. change (match cs with O => ?a | S _ => ?b end) with b. rewrite Ey. cbn [mbind run_bind].
  destruct (Z.ltb_spec y 128).
  - destruct (Z.ltb_spec y 0); [done|]. intros Hl. destruct (Z.ltb_spec col y).
    + rewrite lookup_app_l in Hl.
      2:{ rewrite length_replicate. destruct (decide (Z.to_nat col < cs)%nat); [lia|].
          exfalso. rewrite lookup_app_r in Hl by (rewrite length_replicate; lia).
          replace (cs - Z.to_nat y)%nat with 0%nat in Hl by lia. by destruct fuel. }
      apply lookup_replicate in Hl as [-> _]. apply at_index_ok. split; [lia|].
      replace (Z.to_nat (off + 1)) with (Z.to_nat off + 1)%nat by lia. by rewrite Hat.
    + destruct (decide (cs <= Z.to_nat y)%nat).
      { exfalso. replace (cs - Z.to_nat y)%nat with 0%nat in Hl by lia.
        rewrite lookup_app_r in Hl by (rewrite length_replicate; lia). by destruct fuel. }
      rewrite lookup_app_r in Hl by (rewrite length_replicate; lia). rewrite length_replicate in Hl.
      replace (Nat.min cs (Z.to_nat y)) with (Z.to_nat y) in Hl by lia.
      apply (IH _ _ (cs - Z.to_nat y)%nat); [lia|lia|].
      replace (Z.to_nat (off + 2)) with (Z.to_nat off + 2)%nat by lia. rewrite <- Hdrop. cbn [drop].
      rewrite drop_0 || idtac. by replace (Z.to_nat (col - y)) with (Z.to_nat col - Z.to_nat y)%nat by lia.
  - destruct (Z.ltb_spec 256 y); [done|]. intros Hl. set (n := Z.to_nat (256 - y)) in *.
    assert (Hn : drop n (t :: l) = drop (Z.to_nat (off + (256 - y) + 1)) (sbt D)).
    { replace (Z.to_nat (off + (256 - y) + 1)) with (Z.to_nat off + S n)%nat by lia. by rewrite <- Hdrop. }
    destruct (Z.ltb_spec col (256 - y)).
    + apply at_index_ok. split; [lia|].
      replace (Z.to_nat (off + col + 1)) with (Z.to_nat off + S (Z.to_nat col))%nat by lia. rewrite Hat.
      cbn [lookup list_lookup]. destruct (decide (Z.to_nat col < length (take n (t :: l)))%nat) as [Hlt|Hge].
      * rewrite lookup_app_l in Hl by done. by rewrite lookup_take_lt in Hl by lia.
      * exfalso. rewrite length_take in Hge. rewrite lookup_app_r in Hl by (rewrite length_take; lia).
        rewrite (drop_ge (t :: l)) in Hl by lia. by destruct fuel, (cs - n)%nat.
    + destruct (decide (n <= length (t :: l))%nat).
      * rewrite lookup_app_r in Hl by (rewrite length_take; lia). rewrite length_take in Hl.
        rewrite Hn in Hl. eapply IH; [lia|lia|].
        replace (Z.to_nat (col - (256 - y))) with (Z.to_nat col - Nat.min n (length (t :: l)))%nat by lia.
        exact Hl.
      * exfalso. rewrite lookup_app_r in Hl by (rewrite length_take; lia).
        rewrite (drop_ge (t :: l)) in Hl by lia. by destruct fuel, (cs - n)%nat.
Qed.

Lemma row_next_ok s c v : row_next rows s c = Ok v -> dfa_next D s c = Ok v.
Proof.
  unfold row_next, dfa_next. destruct (at_index (itt D) c) as [col| |]; [|done|done].
  destruct (at_index rows s) as [r| |] eqn:Er; [|done|done]. intros Hv. cbn [mbind run_bind].
  apply at_index_ok in Er as [Hs Er]. unfold rows in Er. apply list_lookup_fmap_Some in Er as (o & -> & Eo).
  apply at_index_ok in Hv as [Hc Hv]. destruct (Z.ltb_spec o 0); [done|].
  replace (at_index (sot D) s) with (Ok o) by (symmetry; by apply at_index_ok). cbn [mbind run_bind].
  by eapply expand_row.
Qed.

End Rows.

Section Explore.
Variables (D : case_dfa) (next : Z -> Z -> run Z) (P : bytes -> string_desc -> bool -> bool).

Definition outcome (more : nat) (path : bytes) (iState : Z) : bool :=
  match dfa_entry D iState with
  | Ok (None, _) => true
  | Ok (Some d, bXor) => (more =? 0)%nat && P path d bXor
  | _ => false
  end.

Fixpoint explore (more : nat) (path : bytes) (iState : Z) : bool :=
  match more with
  | O => false
  | S more =>
      forallb (fun c =>
        match next iState c with
        | Ok s =>
            if s <? ACCEPTING_STATES_START D then explore more (path ++ [c]) s
            else outcome more (path ++ [c]) s
        | _ => false
        end) conts
  end.

Definition explore_lead (c : Z) : bool :=
  let k := utf8_FirstByte c in
  if UTF8_CONTINUE <=? k then
    match next (START_STATE D) c with
    | Ok s => s =? ACCEPTING_STATES_START D + DEFAULT D
    | _ => false
    end
  else
    match next (START_STATE D) c with
    | Ok s =>
        if s <? ACCEPTING_STATES_START D then explore (Z.to_nat k - 1) [c] s
        else outcome (Z.to_nat k - 1) [c] s
    | _ => false
    end.

Definition explore_all : bool := forallb explore_lead (zrange 0 256).

(** From every state a byte leads to a state that stands for something, the NUL to the end. *)
Definition state_ok (s : Z) : bool :=
  (0 <=? s) && ((s <? ACCEPTING_STATES_START D) ||
    match dfa_entry D s with Ok _ => true | _ => false end).
Definition closed_all : bool :=
  (0 <=? START_STATE D) && (START_STATE D <? ACCEPTING_STATES_START D) && (0 <=? DEFAULT D) &&
  forallb (fun s =>
    forallb (fun c => match next s c with Ok s' => state_ok s' | _ => false end) (zrange 0 256)
    && match next s 0 with Ok s' => ACCEPTING_STATES_START D <=? s' | _ => false end)
    (zrange 0 (Z.to_nat (ACCEPTING_STATES_START D))).

End Explore.

(** A text of visible code points. *)
Definition vis_text (s : bytes) : bool :=
  match tokenize s with Some ts => forallb is_vis ts | None => false end.

Section Automaton.
Variables (D : case_dfa) (next : Z -> Z -> run Z) (P : bytes -> string_desc -> bool -> bool).
Hypothesis next_ok : forall s c v, next s c = Ok v -> dfa_next D s c = Ok v.
Abbreviation loop := (dfa_loop (dfa_next D) (ACCEPTING_STATES_START D)).

Lemma in_zrange lo n z : lo <= z < lo + Z.of_nat n -> In z (zrange lo n).
Proof.
  intros H. apply in_map_iff. exists (Z.to_nat (z - lo)). split; [lia|]. apply in_seq. lia.
Qed.

(** What the exploration says about a run over the continuation bytes that are due, whatever
    follows them. *)
Lemma explore_loop more path s p rest :
  explore D next P more path s = true -> Forall (fun c => cont c = true) p -> length p = more ->
  exists s' k, loop s (p ++ rest) = Ok s' /\ (k <= more)%nat
    /\ outcome D P (more - k) (path ++ take k p) s' = true
    /\ forall rest', loop s (p ++ rest') = Ok s'.
Proof.
  revert path s p. induction more as [|more IH]; intros path s p He Hp Hl; [done|].
  destruct p as [|c p]; [done|]. apply Forall_cons in Hp as [Hc Hp].
  cbn [explore] in He. rewrite forallb_forall in He.
  specialize (He c ltac:(apply in_zrange; apply in_rng_true in Hc; lia)).
  cbn [app dfa_loop]. change (chr_at (c :: ?q) 0) with c.
  destruct (next s c) as [s1| |] eqn:En; try done. rewrite (next_ok _ _ _ En). cbn [mbind run_bind].
  destruct (s1 <? ACCEPTING_STATES_START D).
  - destruct (IH _ _ p He Hp ltac:(cbn in Hl; lia)) as (s' & k & E & Hk & Ho & Hr).
    exists s', (S k). split_and!; [done|lia| |done].
    cbn [take]. rewrite Nat.sub_succ. by rewrite <- app_assoc in Ho.
  - exists s1, 1%nat. split_and!; [done|lia| |done].
    rewrite Nat.sub_succ, Nat.sub_0_r. cbn [take]. by rewrite take_0.
Qed.

Lemma lead1_conts c p : lead1 (c :: p) = true -> utf8_FirstByte c < UTF8_CONTINUE ->
  exists q rest, p = q ++ rest /\ length q = (Z.to_nat (utf8_FirstByte c) - 1)%nat
    /\ Forall (fun b => cont b = true) q.
Proof.
  unfold lead1. change (chr_at (c :: p) 0) with c. intros H Hn.
  replace (UTF8_CONTINUE <=? utf8_FirstByte c) with false in H by (symmetry; apply Z.leb_gt; lia).
  cbn [orb] in H. apply andb_prop in H as [Hl Hc]. apply Nat.leb_le in Hl. cbn [drop length] in Hl, Hc.
  exists (take (Z.to_nat (utf8_FirstByte c) - 1) p), (drop (Z.to_nat (utf8_FirstByte c) - 1) p).
  split_and!; [by rewrite take_drop|rewrite length_take; lia|].
  apply Forall_forall. intros b Hb. rewrite forallb_forall in Hc. rewrite list_elem_of_In in Hb.
  specialize (Hc b Hb). rewrite drop_0 in Hc || idtac. apply Z.eqb_eq in Hc. unfold utf8_FirstByte in Hc. unfold cont.
  repeat case_match; done.
Qed.

Lemma FirstByte_pos c : 1 <= utf8_FirstByte c.
Proof. unfold utf8_FirstByte, UTF8_CONTINUE, UTF8_ILLEGAL. repeat case_match; lia. Qed.

(** On a text whose first character is complete the answer depends on that character alone, and
    an entry has what was asked. *)
Lemma co_dfa_lead c p :
  explore_all D next P = true -> 0 <= DEFAULT D -> byte_ok c -> lead1 (c :: p) = true ->
  let n := Z.to_nat (utf8_FirstByte c) in
  exists r, co_dfa D (c :: p) = Ok r
    /\ (utf8_FirstByte c < UTF8_CONTINUE -> forall rest, co_dfa D (take n (c :: p) ++ rest) = Ok r)
    /\ match r with
       | (Some d, x) => utf8_FirstByte c < UTF8_CONTINUE /\ P (take n (c :: p)) d x = true
       | (None, _) => True
       end.
Proof.
  intros He Hdef Hc Hl n. unfold explore_all in He. rewrite forallb_forall in He.
  specialize (He c ltac:(apply in_zrange; unfold byte_ok in Hc; lia)). unfold explore_lead in He.
  pose proof (FirstByte_pos c) as Hpos.
  unfold co_dfa. cbn [dfa_loop app]. change (chr_at (c :: ?q) 0) with c.
  destruct (Z.leb_spec UTF8_CONTINUE (utf8_FirstByte c)) as [Hge|Hlt].
  - destruct (next (START_STATE D) c) as [s| |] eqn:En; try done. apply Z.eqb_eq in He as ->.
    rewrite (next_ok _ _ _ En).
    cbn [mbind run_bind]. replace (_ <? _) with false by (symmetry; apply Z.ltb_ge; lia).
    exists (None, false). cbn. unfold dfa_entry.
    replace (_ - _ =? _) with true by (symmetry; apply Z.eqb_eq; lia). split_and!; [done|lia|done].
  - destruct (lead1_conts c p Hl Hlt) as (q & rest & -> & Hq & Hcont).
    destruct (next (START_STATE D) c) as [s| |] eqn:Es; try done.
    apply next_ok in Es. rewrite Es. cbn [mbind run_bind].
    assert (En : take n (c :: q ++ rest) = c :: q).
    { subst n. replace (Z.to_nat (utf8_FirstByte c)) with (S (length q)) by lia. cbn [take].
      by rewrite take_app_length. }
    assert (Hrun : exists s' k, (if s <? ACCEPTING_STATES_START D then loop s (q ++ rest) else Ok s) = Ok s'
      /\ (k <= length q)%nat /\ outcome D P (length q - k) (c :: take k q) s' = true
      /\ forall rest', (if s <? ACCEPTING_STATES_START D then loop s (q ++ rest') else Ok s) = Ok s').
    { destruct (s <? ACCEPTING_STATES_START D).
      - rewrite Hq. exact (explore_loop _ _ _ q rest He Hcont Hq).
      - exists s, 0%nat. rewrite Hq, take_0, Nat.sub_0_r. split_and!; [done|lia|done|done]. }
    destruct Hrun as (s' & k & -> & Hk & Ho & Hr). cbn [mbind run_bind].
    unfold outcome in Ho. destruct (dfa_entry D s') as [r| |] eqn:Er; try done.
    exists r. split_and!; [done| |].
    + intros _ rest'. rewrite En. cbn [app dfa_loop]. change (chr_at (c :: ?l) 0) with c.
      rewrite Es. cbn [mbind run_bind]. by rewrite Hr.
    + destruct r as [[d|] x]; [|done]. apply andb_prop in Ho as [Hk0 HP]. apply Nat.eqb_eq in Hk0.
      split; [done|]. rewrite En. rewrite take_ge in HP by lia. done.
Qed.

(** The automaton reads nothing after the NUL of a string of bytes. *)
Lemma co_dfa_total p :
  closed_all D next = true -> Forall byte_ok p -> exists r, co_dfa D p = Ok r.
Proof.
  intros Hall. unfold closed_all in Hall. apply andb_prop in Hall as [Hs Hall].
  apply andb_prop in Hs as [Hs _]. apply andb_prop in Hs as [Hs0 Hs1].
  rewrite forallb_forall in Hall. unfold co_dfa. generalize dependent (START_STATE D).
  intros s Hs0 Hs1 Hp. cut (exists s', loop s p = Ok s' /\ state_ok D s' = true /\ ACCEPTING_STATES_START D <= s').
  { intros (s' & -> & Ho & Ha). unfold state_ok in Ho. apply andb_prop in Ho as [_ Ho].
    replace (s' <? _) with false in Ho by (symmetry; apply Z.ltb_ge; lia). cbn in Ho |- *.
    destruct (dfa_entry D s'); [by eauto|done|done]. }
  revert s Hs0 Hs1. induction p as [|c p IH]; intros s Hs0 Hs1.
  all: assert (Hin : In s (zrange 0 (Z.to_nat (ACCEPTING_STATES_START D)))) by (apply in_zrange; lia).
  all: apply Hall in Hin; apply andb_prop in Hin as [Hb Hn]; rewrite forallb_forall in Hb.
  - cbn [dfa_loop]. change (chr_at [] 0) with 0. specialize (Hb 0 ltac:(apply in_zrange; lia)).
    destruct (next s 0) as [s'| |] eqn:En; try done. rewrite (next_ok _ _ _ En). cbn [mbind run_bind].
    apply Z.leb_le in Hn. replace (_ <? _) with false by (symmetry; apply Z.ltb_ge; lia). eauto.
  - apply Forall_cons in Hp as [Hc Hp]. cbn [dfa_loop]. change (chr_at (c :: p) 0) with c.
    specialize (Hb c ltac:(apply in_zrange; unfold byte_ok in Hc; lia)).
    destruct (next s c) as [s'| |] eqn:En; try done. rewrite (next_ok _ _ _ En). cbn [mbind run_bind].
    destruct (Z.ltb_spec s' (ACCEPTING_STATES_START D)); [|eauto].
    apply IH; [done| |by apply Z.ltb_lt]. unfold state_ok in Hb. by apply andb_prop in Hb as [? _].
Qed.

(** Every entry is one of the table. *)
Lemma co_dfa_entry p d x : co_dfa D p = Ok (Some d, x) -> d ∈ ott D.
Proof.
  unfold co_dfa. destruct (dfa_loop _ _ _ _) as [s| |]; try done. cbn [mbind run_bind]. unfold dfa_entry.
  destruct (_ =? _); [done|]. unfold at_index. destruct (_ <? 0); [done|].
  destruct (ott D !! _) as [d'|] eqn:E; [|done]. cbn. intros H. simplify_eq. by eapply list_elem_of_lookup_2.
Qed.
End Automaton.

Lemma loop_mono (next next' : Z -> Z -> run Z) acc s p v :
  (forall s c v, next s c = Ok v -> next' s c = Ok v) ->
  dfa_loop next acc s p = Ok v -> dfa_loop next' acc s p = Ok v.
Proof.
  intros Hn. revert s. induction p as [|c p IH]; intros s; cbn [dfa_loop];
    (destruct (next s _) as [s'| |] eqn:E; [|done|done]); rewrite (Hn _ _ _ E); cbn [mbind run_bind]; [done|].
  destruct (_ <? _); [apply IH|done].
Qed.

(** ** Facts about characters *)

Lemma cont_FirstByte b : cont b = true -> utf8_FirstByte b = UTF8_CONTINUE.
Proof. unfold cont, utf8_FirstByte. intros H. byte_hyps. by byte_cases. Qed.

Lemma lead1_intro c q rest :
  utf8_FirstByte c = Z.of_nat (S (length q)) -> Forall (fun b => cont b = true) q ->
  lead1 (c :: q ++ rest) = true.
Proof.
  intros E Hq. unfold lead1. change (chr_at (c :: ?l) 0) with c. rewrite E, Nat2Z.id. cbn [length drop].
  rewrite Nat.sub_succ, Nat.sub_0_r, drop_0, take_app_length, length_app.
  replace (_ <=? _)%nat with true by (symmetry; apply Nat.leb_le; lia).
  apply orb_true_iff. right. cbn [andb]. apply forallb_forall. intros b Hb.
  apply Z.eqb_eq, cont_FirstByte. rewrite Forall_forall in Hq. apply Hq. by apply list_elem_of_In.
Qed.

(** The first byte of a token and the bytes after it. *)
Lemma tok_lead t : wf_tok t = true ->
  exists c q, tok_bytes t = c :: q /\ byte_ok c /\ utf8_FirstByte c = Z.of_nat (S (length q))
    /\ (length q <= 3)%nat /\ Forall (fun b => cont b = true) q.
Proof.
  intros Hw. tok_shapes t Hw; vis_hyps; eexists _, _; (split; [reflexivity|]);
    unfold byte_ok, utf8_FirstByte; (split; [lia|]); byte_cases; (split; [done|]); (split; [cbn; lia|]);
    repeat constructor; unfold cont; by byte_cases.
Qed.

(** The test of the bytes after the first one of a character. *)
Lemma conts_at c q rest : Forall (fun b => cont b = true) q ->
  forallb (fun j => negb (chr_at (c :: q ++ rest) j =? 0)
    && (utf8_FirstByte (chr_at (c :: q ++ rest) j) =? UTF8_CONTINUE)) (seq 1 (length q)) = true.
Proof.
  intros Hq. apply forallb_forall. intros j Hj. apply in_seq in Hj.
  destruct j as [|j]; [lia|]. change (chr_at (c :: q ++ rest) (S j)) with (chr_at (q ++ rest) j).
  assert (Hin : cont (chr_at (q ++ rest) j) = true).
  { unfold chr_at. rewrite app_nth1 by lia. rewrite Forall_forall in Hq. apply Hq, list_elem_of_In, nth_In. lia. }
  rewrite (cont_FirstByte _ Hin). unfold cont in Hin. byte_hyps. by byte_cases.
Qed.

Lemma tok_head t c q : wf_tok t = true -> tok_bytes t = c :: q -> c <> 0.
Proof. intros Hw. tok_shapes t Hw; vis_hyps; cbn [tok_bytes] in *; simplify_eq; lia. Qed.

Section Mapping.
Variables (D : case_dfa) (next : Z -> Z -> run Z).

(** An entry belongs to a visible character, replaces it by visible characters and, if it is
    applied by exclusive or, has as many bytes. *)
Definition entry_ok (bs : bytes) (d : string_desc) (bXor : bool) : bool :=
  vis_text bs && negb (bXor && negb (n_bytes d =? length bs)%nat)
  && vis_text (case_bytes (Some d, bXor) bs).

(** What it is replaced by is not changed again. *)
Definition entry_stable (bs : bytes) (d : string_desc) (bXor : bool) : bool :=
  match tokenize (case_bytes (Some d, bXor) bs) with
  | Some ts =>
      forallb (fun t =>
        match s ← dfa_loop next (ACCEPTING_STATES_START D) (START_STATE D) (tok_bytes t); dfa_entry D s with
        | Ok r => bool_decide (case_bytes r (tok_bytes t) = tok_bytes t)
        | _ => false
        end) ts
  | None => false
  end.

(** Entries of lower case fit the arrays of four bytes of the comparisons and are made of small
    letters and bytes above ASCII. *)
Definition entry_fold (bs : bytes) (d : string_desc) (bXor : bool) : bool :=
  (n_bytes d <=? 4)%nat
  && forallb (fun b => in_rng 97 122 b || (128 <=? b)) (case_bytes (Some d, bXor) bs).

End Mapping.

Definition table_ok (D : case_dfa) (P : (Z -> Z -> run Z) -> bytes -> string_desc -> bool -> bool) : bool :=
  let t := rows D in
  (0 <=? DEFAULT D) && forallb (fun d => 1 <=? n_bytes d)%nat (ott D)
  && explore_all D (row_next D t) (fun bs d x => entry_ok bs d x && P (row_next D t) bs d x).

Lemma tolower_ok :
  table_ok tr_tolower (fun n bs d x => entry_stable tr_tolower n bs d x && entry_fold bs d x) = true.
Proof. vm_cast_no_check (eq_refl true). Qed.
Lemma toupper_ok : table_ok tr_toupper (entry_stable tr_toupper) = true.
Proof. vm_cast_no_check (eq_refl true). Qed.
Lemma totitle_ok : table_ok tr_totitle (fun _ _ _ _ => true) = true.
Proof. vm_cast_no_check (eq_refl true). Qed.

(** The automata never read past the NUL of a string. *)
Definition closed (D : case_dfa) : Prop := closed_all D (row_next D (rows D)) = true.
Lemma closed_tolower : closed tr_tolower.
Proof. vm_cast_no_check (eq_refl true). Qed.
Lemma closed_toupper : closed tr_toupper.
Proof. vm_cast_no_check (eq_refl true). Qed.
Lemma closed_totitle : closed tr_totitle.
Proof. vm_cast_no_check (eq_refl true). Qed.

Lemma lower_four : forallb (fun d => n_bytes d <=? 4)%nat (ott tr_tolower) = true.
Proof. vm_cast_no_check (eq_refl true). Qed.

Lemma lower_ascii_table :
  forallb (fun b => bool_decide (case_bytes (lower [b]) [b] = [mux_tolower_ascii b])) (zrange 0 128) = true.
Proof. vm_cast_no_check (eq_refl true). Qed.

(** ** The law that the clients rely on

    What the lookup answers for a code point does not depend on what follows; colour stays, and
    visible code points become visible code points. *)

Class CaseMapping (lookup : bytes -> option string_desc * bool) := {
  lookup_local t rest : wf_tok t = true -> lookup (tok_bytes t ++ rest) = lookup (tok_bytes t);
  lookup_color bs : color bs = true -> case_bytes (lookup bs) bs = bs;
  lookup_visible bs : visible bs = true -> vis_text (case_bytes (lookup bs) bs) = true
}.

(** A mapping that leaves alone what it produces. *)
Class StableMapping (lookup : bytes -> option string_desc * bool) := {
  lookup_stable bs ts : visible bs = true -> tokenize (case_bytes (lookup bs) bs) = Some ts ->
    Forall (fun t => case_bytes (lookup (tok_bytes t)) (tok_bytes t) = tok_bytes t) ts
}.

Lemma vis_text_spec s : vis_text s = true <-> exists ts, tokenize s = Some ts /\ Forall (fun t => is_vis t = true) ts.
Proof.
  unfold vis_text. destruct (tokenize s) as [ts|]; [|by split; [|intros (? & ? & ?)]].
  rewrite forallb_forall. split.
  - intros H. exists ts. split; [done|]. apply Forall_forall. intros t Ht. apply H. by apply list_elem_of_In.
  - intros (ts' & [= <-] & H) t Ht. rewrite Forall_forall in H. apply H. by apply list_elem_of_In.
Qed.

Lemma tokenize_sound s ts : tokenize s = Some ts -> wf ts /\ flatten ts = s.
Proof. apply tokenize_fuel_sound. Qed.
Lemma tokenize_flatten ts : wf ts -> tokenize (flatten ts) = Some ts.
Proof. intros H. by apply tokenize_fuel_flatten. Qed.
Lemma tokenize_tok t : wf_tok t = true -> tokenize (tok_bytes t) = Some [t].
Proof. intros H. rewrite <- (app_nil_r (tok_bytes t)). apply (tokenize_flatten [t]). by constructor. Qed.

Section Table.
Variables (D : case_dfa) (P : (Z -> Z -> run Z) -> bytes -> string_desc -> bool -> bool).
Hypothesis table : table_ok D P = true.
Abbreviation fast := (row_next D (rows D)).

Lemma table_parts : 0 <= DEFAULT D /\ Forall (fun d => 1 <= n_bytes d)%nat (ott D)
  /\ explore_all D fast (fun bs d x => entry_ok bs d x && P fast bs d x) = true.
Proof.
  unfold table_ok in table. cbv zeta in table. apply andb_prop in table as [H He].
  apply andb_prop in H as [Hd Ho]. split_and!; [by apply Z.leb_le| |done].
  apply Forall_forall. intros d Hin. rewrite forallb_forall in Ho. apply Nat.leb_le, Ho. by apply list_elem_of_In.
Qed.

(** What the automaton answers for the token at the head of a text. *)
Lemma co_dfa_tok t rest : wf_tok t = true ->
  exists r, co_dfa D (tok_bytes t ++ rest) = Ok r /\ co_dfa D (tok_bytes t) = Ok r
    /\ match r with
       | (Some d, x) => entry_ok (tok_bytes t) d x = true /\ P fast (tok_bytes t) d x = true
       | (None, _) => True
       end.
Proof.
  intros Hw. destruct table_parts as (Hd & _ & He).
  destruct (tok_lead t Hw) as (c & q & Et & Hc & Hf & Hl & Hq). rewrite Et. cbn [app].
  destruct (co_dfa_lead D fast _ (row_next_ok D) c (q ++ rest) He Hd Hc (lead1_intro c q rest Hf Hq))
    as (r & E & Hr & HP).
  rewrite Hf, Nat2Z.id in *. cbn [take] in *. rewrite take_app_length in *.
  exists r. split_and!; [done| |].
  - rewrite <- (app_nil_r q). apply Hr. unfold UTF8_CONTINUE. lia.
  - destruct r as [[d|] x]; [|done]. destruct HP as [_ HP]. by apply andb_prop in HP.
Qed.

Lemma table_mapping : CaseMapping (fun p => dfa_result (co_dfa D p)).
Proof.
  split.
  - intros t rest Hw. by destruct (co_dfa_tok t rest Hw) as (r & -> & -> & _).
  - intros bs Hc. destruct (co_dfa_tok (TCol bs) [] Hc) as (r & _ & E & Hr). cbn [tok_bytes] in *. rewrite E.
    destruct r as [[d|] x]; [|done]. destruct Hr as [He _]. unfold entry_ok in He.
    repeat (apply andb_prop in He as [He _]). apply vis_text_spec in He as (ts & Ets & Hts).
    pose proof (tokenize_tok (TCol bs) Hc) as E1. change (tok_bytes (TCol bs)) with bs in E1. rewrite E1 in Ets. simplify_eq.
    by apply Forall_cons in Hts as [? _].
  - intros bs Hv. destruct (co_dfa_tok (TVis bs) [] Hv) as (r & _ & E & Hr). cbn [tok_bytes] in *. rewrite E.
    cbn [dfa_result]. destruct r as [[d|] x].
    + destruct Hr as [He _]. unfold entry_ok in He. by apply andb_prop in He as [_ ?].
    + cbn. apply vis_text_spec. exists [TVis bs]. split; [exact (tokenize_tok (TVis bs) Hv)|]. by constructor.
Qed.

Lemma table_stable :
  (forall n bs d x, P n bs d x = true -> entry_stable D n bs d x = true) ->
  StableMapping (fun p => dfa_result (co_dfa D p)).
Proof.
  intros HPs. split. intros bs ts Hv Hts. cbv beta in *.
  destruct (co_dfa_tok (TVis bs) [] Hv) as (r & _ & E & Hr). cbn [tok_bytes] in *.
  rewrite E in Hts. cbn [dfa_result] in Hts. destruct r as [[d|] x].
  - destruct Hr as [_ Hr%HPs]. unfold entry_stable in Hr. rewrite Hts in Hr. apply Forall_forall.
    intros t Ht. rewrite forallb_forall in Hr. specialize (Hr t ltac:(by apply list_elem_of_In)).
    destruct (dfa_loop fast _ _ _) as [s| |] eqn:El; try done. cbn [mbind run_bind] in Hr.
    destruct (dfa_entry D s) as [r| |] eqn:Er; try done. apply bool_decide_eq_true in Hr.
    unfold co_dfa. rewrite (loop_mono _ _ _ _ _ _ (row_next_ok D) El). cbn [mbind run_bind]. by rewrite Er.
  - change (case_bytes (None, x) bs) with bs in Hts. pose proof (tokenize_tok (TVis bs) Hv) as E1. change (tok_bytes (TVis bs)) with bs in E1.
    rewrite E1 in Hts. simplify_eq. constructor; [|constructor]. cbn [tok_bytes]. by rewrite E.
Qed.
End Table.

#[export] Instance lower_mapping : CaseMapping lower := table_mapping _ _ tolower_ok.
#[export] Instance upper_mapping : CaseMapping upper := table_mapping _ _ toupper_ok.
#[export] Instance title_mapping : CaseMapping title := table_mapping _ _ totitle_ok.
#[export] Instance lower_stable : StableMapping lower.
Proof. apply (table_stable _ _ tolower_ok). intros n bs d x H. by apply andb_prop in H as [? _]. Qed.
#[export] Instance upper_stable : StableMapping upper.
Proof. by apply (table_stable _ _ toupper_ok). Qed.

(** ** The clients on well-formed text *)

Section Text.
Context {HC : Config} (lookup : bytes -> option string_desc * bool) {HM : CaseMapping lookup}.

(** What a code point becomes. *)
Definition map_tok (t : tok) : list tok :=
  match t with
  | TVis bs => default [] (tokenize (case_bytes (lookup bs) bs))
  | TCol _ => [t]
  end.
Definition map_text (ts : list tok) : list tok := flat_map map_tok ts.
Definition colours (ts : list tok) : list tok := filter (fun t => is_vis t = false) ts.

Lemma map_tok_vis bs : visible bs = true -> exists us, map_tok (TVis bs) = us
  /\ tokenize (case_bytes (lookup bs) bs) = Some us /\ Forall (fun t => is_vis t = true) us.
Proof.
  intros Hv. pose proof (lookup_visible bs Hv) as H. apply vis_text_spec in H as (us & E & Hus).
  exists us. cbn [map_tok]. by rewrite E.
Qed.

Lemma map_tok_bytes t : wf_tok t = true ->
  flatten (map_tok t) = case_bytes (lookup (tok_bytes t)) (tok_bytes t) /\ wf (map_tok t).
Proof.
  intros Hw. destruct t as [bs|bs].
  - destruct (map_tok_vis bs Hw) as (us & -> & E & _). by apply tokenize_sound in E as [? ?].
  - cbn [map_tok tok_bytes]. rewrite lookup_color by done. split; [apply app_nil_r|by constructor].
Qed.

Lemma map_text_wf ts : wf ts -> wf (map_text ts).
Proof.
  induction ts as [|t ts IH]; intros Hw; [constructor|]. apply wf_cons in Hw as [Ht Hts].
  apply wf_app. split; [by apply map_tok_bytes|by apply IH].
Qed.

Lemma map_text_colours ts : wf ts -> colours (map_text ts) = colours ts.
Proof.
  unfold colours. induction ts as [|t ts IH]; intros Hw; [done|]. apply wf_cons in Hw as [Ht Hts].
  change (map_text (t :: ts)) with (map_tok t ++ map_text ts). rewrite filter_app, (IH Hts).
  destruct t as [bs|bs]; [|done]. destruct (map_tok_vis bs Ht) as (us & -> & _ & Hus).
  rewrite filter_cons_False by done. clear - Hus. induction Hus as [|u us Hu _ IHu]; [done|].
  cbn [app]. rewrite filter_cons_False by congruence. exact IHu.
Qed.

Lemma case_exec ts mark out : wf ts ->
  (ragel_exec (case_act lookup) St12 (flatten ts) (mark, clamp out)).2.2 = clamp (out ++ flatten (map_text ts)).
Proof.
  revert mark out. induction ts as [|t ts IH]; intros mark out Hw; [cbn; by rewrite app_nil_r|].
  apply wf_cons in Hw as [Ht Hts]. rewrite flatten_cons.
  destruct (ragel_exec_tok (case_act lookup) t (flatten ts) (mark, clamp out) Ht) as [cs ->].
  assert (exists mark', tok_run (case_act lookup) true (tok_kind t) (tok_bytes t) (flatten ts) (mark, clamp out)
    = inl (mark', clamp (out ++ case_bytes (lookup (tok_bytes t)) (tok_bytes t)))) as [mark' ->].
  { destruct (is_vis t) eqn:Ev.
    - rewrite <- (lookup_local t (flatten ts)) by done. clear IH. revert Ev.
      tok_shapes t Ht; try done; unfold case_act, bytes_to; cbn [tok_run tok_kind tok_bytes app length];
        eexists; rewrite wp_safe_bytes_clamp; repeat f_equal;
        match goal with |- take ?n _ = ?l => replace n with (length l) by (cbn; lia) end;
        cbn [length take]; by rewrite ?take_0.
    - destruct t as [bs|bs]; [done|]. cbn [tok_bytes]. rewrite lookup_color by done. clear IH Ev.
      change bs with (tok_bytes (TCol bs)). generalize dependent (TCol bs). intros t Ht.
      tok_shapes t Ht; unfold case_act, bytes_to; cbn [tok_run tok_kind tok_bytes app length];
        eexists; rewrite ?wp_safe_bytes_clamp; repeat f_equal;
        match goal with |- take ?n _ = ?l => replace n with (length l) by (cbn; lia) end;
        cbn [length take]; by rewrite ?take_0. }
  rewrite IH by done. change (map_text (t :: ts)) with (map_tok t ++ map_text ts).
  destruct (map_tok_bytes t Ht) as [E _]. by rewrite flatten_app, <- app_assoc, E.
Qed.

Lemma co_case_flatten ts : wf ts -> co_case lookup (flatten ts) = clamp (flatten (map_text ts)).
Proof.
  intros Hw. unfold co_case. pose proof (case_exec ts (flatten ts) [] Hw) as E. rewrite clamp_nil in E.
  destruct (ragel_exec _ _ _ _) as [[cs p] [mark out]]. exact E.
Qed.

Lemma str_src_tok t rest : wf_tok t = true -> str_src (tok_bytes t ++ rest) = length (tok_bytes t).
Proof.
  intros Hw. destruct (tok_lead t Hw) as (c & q & -> & _ & Hf & Hl & Hq). cbn [app length].
  unfold str_src. change (chr_at (c :: ?l) 0) with c. rewrite Hf.
  replace (UTF8_CONTINUE <=? _) with false by (symmetry; apply Z.leb_gt; unfold UTF8_CONTINUE; lia).
  rewrite Nat2Z.id, Nat.sub_succ, Nat.sub_0_r.
  by rewrite conts_at.
Qed.

Lemma str_case_flatten ts : wf ts -> (length (flatten (map_text ts)) <= cap)%nat ->
  str_case lookup (flatten ts) = Some (flatten (map_text ts)).
Proof.
  intros Hw Hl. unfold str_case. enough (H : forall fuel buf, (length (flatten ts) < fuel)%nat ->
    (length buf + length (flatten (map_text ts)) <= cap)%nat ->
    str_case_loop lookup fuel (flatten ts) buf = Some (buf ++ flatten (map_text ts))).
  { apply H; cbn; lia. }
  clear Hl. induction ts as [|t ts IH]; intros [|fuel] buf Hf Hl; try lia; [cbn; by rewrite app_nil_r|].
  apply wf_cons in Hw as [Ht Hts]. pose proof (tok_bytes_nonempty t Ht) as Hne.
  change (map_text (t :: ts)) with (map_tok t ++ map_text ts) in *.
  destruct (map_tok_bytes t Ht) as [E _].
  rewrite flatten_cons, flatten_app in *. rewrite !length_app in *.
  cbn [str_case_loop]. destruct (tok_bytes t ++ flatten ts) as [|c s] eqn:Es.
  { apply app_eq_nil in Es as [Es _]. rewrite Es in Hne. cbn in Hne. lia. }
  rewrite <- Es. clear c s Es. rewrite str_src_tok, lookup_local, take_app_length, drop_app_length, <- E by done.
  unfold cap in Hl. replace (_ <? _)%nat with false by (symmetry; apply Nat.ltb_ge; lia).
  rewrite IH; [by rewrite <- app_assoc|done|lia|rewrite length_app; unfold cap; lia].
Qed.

(** [co_totitle] changes the first visible code point, if the text ends in a NUL. *)
Lemma title_src_tok t rest : wf_tok t = true -> title_src (tok_bytes t ++ rest) = length (tok_bytes t).
Proof.
  intros Hw. destruct (tok_lead t Hw) as (c & q & -> & _ & Hf & Hl & Hq). cbn [app length].
  unfold title_src. change (chr_at (c :: ?l) 0) with c. rewrite Hf.
  replace (UTF8_CONTINUE <=? _) with false by (symmetry; apply Z.leb_gt; unfold UTF8_CONTINUE; lia).
  rewrite Nat2Z.id, Nat.sub_succ, Nat.sub_0_r. cbn [drop]. rewrite drop_0, take_app_length.
  replace (forallb _ _) with true; [done|]. symmetry. apply forallb_forall. intros b Hb.
  apply Z.eqb_eq, cont_FirstByte. rewrite Forall_forall in Hq. apply Hq. by apply list_elem_of_In.
Qed.

Lemma co_title_flatten cs t ts after : wf (cs ++ t :: ts) -> Forall (fun t => is_vis t = false) cs ->
  is_vis t = true ->
  co_title lookup (flatten (cs ++ t :: ts)) after = clamp (flatten (cs ++ map_tok t ++ ts)).
Proof.
  intros Hw Hcs Ht. pose proof Hw as Hw'. apply wf_app in Hw' as [Hwc Hw']. apply wf_cons in Hw' as [Hwt Hwts].
  assert (Hskip : skip_cols (cs ++ t :: ts) = t :: ts).
  { clear - Hcs Ht. induction Hcs as [|u us Hu _ IH]; [by destruct t|]. destruct u; [done|]. exact IH. }
  unfold co_title. rewrite co_skip_color_flatten, Hskip by done.
  rewrite flatten_app, flatten_cons, range_app.
  destruct (map_tok_bytes t Hwt) as [E _]. pose proof (tok_bytes_nonempty t Hwt) as Hne.
  destruct (tok_bytes t ++ flatten ts) as [|c s] eqn:Es.
  { apply app_eq_nil in Es as [Es _]. rewrite Es in Hne. cbn in Hne. lia. }
  rewrite <- Es. clear c s Es.
  rewrite title_src_tok, <- app_assoc, lookup_local, take_app_length, drop_app_length, <- E by done.
  rewrite <- clamp_nil, wp_safe_copy_clamp, wp_safe_bytes_clamp. cbn [app].
  rewrite !flatten_app. destruct (Nat.ltb_spec 0 (length (flatten ts))) as [Hlt|Hge].
  - by rewrite wp_safe_copy_clamp, <- app_assoc.
  - destruct (flatten ts); [by rewrite app_nil_r|cbn in Hge; lia].
Qed.

Lemma map_text_stable {HS : StableMapping lookup} ts : wf ts -> map_text (map_text ts) = map_text ts.
Proof.
  induction ts as [|t ts IH]; intros Hw; [done|]. apply wf_cons in Hw as [Ht Hts].
  change (map_text (t :: ts)) with (map_tok t ++ map_text ts). unfold map_text at 1.
  rewrite flat_map_app. fold (map_text (map_text ts)). rewrite (IH Hts). f_equal.
  destruct t as [bs|bs]; [|done]. destruct (map_tok_vis bs Ht) as (us & -> & E & Hus).
  pose proof (lookup_stable bs us Ht E) as Hst. apply tokenize_sound in E as [Hwu _]. clear - Hst Hus Hwu.
  induction us as [|u us IH]; [done|]. apply wf_cons in Hwu as [Hu Hwu].
  apply Forall_cons in Hus as [Hv Hus]. apply Forall_cons in Hst as [Hs Hst].
  cbn [flat_map]. rewrite IH by done. destruct u as [bs|bs]; [|done]. cbn [map_tok tok_bytes] in *.
  rewrite Hs. pose proof (tokenize_tok (TVis bs) Hu) as E1. change (tok_bytes (TVis bs)) with bs in E1. by rewrite E1.
Qed.

Lemma case_map_facts {HS : StableMapping lookup} ts :
  wf ts -> (length (flatten (map_text ts)) <= cap)%nat ->
  let us := map_text ts in
  co_case lookup (flatten ts) = flatten us /\ str_case lookup (flatten ts) = Some (flatten us)
  /\ wf us /\ colours us = colours ts /\ co_case lookup (flatten us) = flatten us.
Proof.
  intros Hw Hl us. split_and!.
  - rewrite co_case_flatten by done. by apply clamp_id.
  - by apply str_case_flatten.
  - by apply map_text_wf.
  - by apply map_text_colours.
  - rewrite co_case_flatten by by apply map_text_wf. unfold us. rewrite map_text_stable by done. by apply clamp_id.
Qed.

End Text.

(** ** The laws of the comparisons *)

Lemma read_bytes_take s n : (n <= length s)%nat -> read_bytes s n = Ok (take n s).
Proof.
  intros Hn. unfold read_bytes. replace (_ <=? _)%nat with true by (symmetry; apply Nat.leb_le; lia).
  f_equal. apply nth_ext with (d := 0) (d' := 0).
  - rewrite length_map, length_seq, length_take. lia.
  - intros i Hi. rewrite length_map, length_seq in Hi.
    rewrite (nth_indep _ 0 (chr_at s 0)) by (rewrite length_map, length_seq; lia).
    rewrite map_nth, seq_nth by lia. unfold chr_at. cbn [Nat.add].
    rewrite <- (take_drop n s) at 1. rewrite app_nth1 by (rewrite length_take; lia). done.
Qed.

(** Folding the character at the head of a text whose lead byte is complete. *)
Lemma fold_char_lower c p : byte_ok c -> lead1 (c :: p) = true -> utf8_FirstByte c < UTF8_CONTINUE ->
  let bs := take (Z.to_nat (utf8_FirstByte c)) (c :: p) in
  fold_char (c :: p) = Ok (case_bytes (lower bs) bs) /\ (length bs = Z.to_nat (utf8_FirstByte c))%nat.
Proof.
  intros Hc Hl Hf bs. destruct (table_parts _ _ tolower_ok) as (Hd & _ & He).
  destruct (co_dfa_lead tr_tolower _ _ (row_next_ok _) c p He Hd Hc Hl) as (r & E & Hr & HP).
  specialize (Hr Hf []). rewrite app_nil_r in Hr. fold bs in Hr, HP.
  assert (Hlen : (Z.to_nat (utf8_FirstByte c) <= length (c :: p))%nat).
  { unfold lead1 in Hl. change (chr_at (c :: p) 0) with c in Hl.
    replace (UTF8_CONTINUE <=? _) with false in Hl by (symmetry; apply Z.leb_gt; lia).
    cbn [orb] in Hl. apply andb_prop in Hl as [Hl _]. apply Nat.leb_le. exact Hl. }
  assert (Hbs : length bs = Z.to_nat (utf8_FirstByte c)) by (unfold bs; rewrite length_take; lia).
  split; [|done]. unfold fold_char. cbn [mux_tolower unicode_case]. rewrite E. unfold lower. rewrite Hr.
  cbn [dfa_result]. destruct r as [[d|] x].
  - destruct HP as [_ HP]. apply andb_prop in HP as [HP _]. unfold entry_ok in HP.
    apply andb_prop in HP as [HP _]. apply andb_prop in HP as [_ HP]. cbn [case_bytes].
    destruct x; cbn [andb negb] in *; [|done].
    destruct (n_bytes d =? length bs)%nat eqn:En; [|done]. apply Nat.eqb_eq in En. cbn [negb].
    rewrite read_bytes_take by lia. cbn [mbind run_bind]. by rewrite En, Hbs.
  - change (chr_at (c :: p) 0) with c.
    replace (UTF8_CONTINUE <=? _) with false by (symmetry; apply Z.leb_gt; lia).
    rewrite read_bytes_take by lia. done.
Qed.

(** A byte that leads no character is left alone. *)
Lemma fold_char_illegal c p : UTF8_CONTINUE <= utf8_FirstByte c -> fold_char (c :: p) = Ok [c].
Proof.
  intros Hf. assert (exists x, mux_tolower (c :: p) = (None, x)) as [x E].
  { cbn [mux_tolower unicode_case]. destruct (decide (byte_ok c)) as [Hc|Hc].
    - destruct (table_parts _ _ tolower_ok) as (Hd & _ & He).
      assert (Hl : lead1 (c :: p) = true).
      { unfold lead1. change (chr_at (c :: p) 0) with c. rewrite (proj2 (Z.leb_le _ _) Hf). reflexivity. }
      destruct (co_dfa_lead tr_tolower _ _ (row_next_ok _) c p He Hd Hc Hl) as (r & -> & _ & HP).
      destruct r as [[d|] x]; [destruct HP; lia|]. by exists x.
    - exists false. unfold co_dfa. cbn [dfa_loop]. change (chr_at (c :: p) 0) with c.
      unfold dfa_next. replace (at_index (itt tr_tolower) c) with (@Oob Z); [done|].
      unfold at_index. destruct (Z.ltb_spec c 0); [done|].
      rewrite lookup_ge_None_2; [done|]. change (length (itt tr_tolower)) with 256%nat.
      unfold byte_ok in Hc. lia. }
  unfold fold_char. rewrite E. change (chr_at (c :: p) 0) with c. rewrite (proj2 (Z.leb_le _ _) Hf).
  by rewrite read_bytes_take by (cbn; lia).
Qed.

Lemma FirstByte_ascii b : in_rng 0 127 b = true -> utf8_FirstByte b = 1.
Proof. intros H. unfold utf8_FirstByte. by rewrite H. Qed.

Lemma lower_entry s d x : mux_tolower s = (Some d, x) -> d ∈ ott tr_tolower.
Proof.
  cbn [mux_tolower unicode_case]. destruct (co_dfa tr_tolower s) as [r| |] eqn:E; [|done..].
  cbn [dfa_result]. intros ->. by apply co_dfa_entry in E.
Qed.

#[export] Instance unicode_laws : CaseLaws.
Proof.
  split.
  - intros b s Hb. pose proof (FirstByte_ascii b Hb) as Hf. apply in_rng_true in Hb as Hb'.
    destruct (fold_char_lower b s) as [E _]; [unfold byte_ok; lia| |by rewrite Hf|].
    { apply (lead1_intro b [] s); [by rewrite Hf|constructor]. }
    rewrite E, Hf. change (take (Z.to_nat 1) (b :: s)) with (b :: take 0 s). rewrite take_0. f_equal.
    pose proof (forall_zrange _ _ _ lower_ascii_table b ltac:(lia)) as H. by apply bool_decide_eq_true in H.
  - intros b s Hl. destruct (Z.leb_spec UTF8_CONTINUE (utf8_FirstByte b)) as [Hge|Hlt].
    + rewrite fold_char_illegal by done. by eexists.
    + destruct (decide (byte_ok b)) as [Hb|Hb]; [destruct (fold_char_lower b s Hb Hl Hlt) as [-> _]; by eexists|].
      exfalso. revert Hlt Hb. unfold utf8_FirstByte, UTF8_CONTINUE, UTF8_ILLEGAL, byte_ok.
      repeat case_match; byte_hyps; lia.
  - intros s d x E%lower_entry. destruct (table_parts _ _ tolower_ok) as (_ & Ho & _).
    rewrite Forall_forall in Ho. by apply Ho.
Qed.

(** ** The properties *)

Section Properties.
Context {HC : Config}.

Lemma map_text_ascii s : forallb (in_rng 1 127) s = true ->
  map_text lower (map (fun b => TVis [b]) s) = map (fun b => TVis [mux_tolower_ascii b]) s.
Proof.
  induction s as [|b s IH]; cbn [forallb map]; intros H; [done|]. apply andb_prop in H as [Hb Hs].
  apply in_rng_true in Hb.
  change (map_text lower (?t :: ?l)) with (map_tok lower t ++ map_text lower l). rewrite IH by done.
  cbn [map_tok]. pose proof (forall_zrange _ _ _ lower_ascii_table b ltac:(lia)) as H.
  apply bool_decide_eq_true in H. rewrite H.
  assert (Hv : wf_tok (TVis [mux_tolower_ascii b]) = true).
  { cbn. unfold mux_tolower_ascii. case_match; byte_hyps; apply in_rng_true; lia. }
  pose proof (tokenize_tok _ Hv) as E. cbn [tok_bytes] in E. by rewrite E.
Qed.


(** C21: The automata read at most the NUL of a string of arbitrary bytes, and what lower case
    gives fits the arrays of four bytes in which the comparisons put it. *)
Theorem case_dfa_safe p :
  Forall byte_ok p ->
  (exists r, co_dfa tr_tolower p = Ok r) /\ (exists r, co_dfa tr_toupper p = Ok r)
  /\ (exists r, co_dfa tr_totitle p = Ok r)
  /\ forall d x, mux_tolower p = (Some d, x) -> (n_bytes d <= 4)%nat.
Proof.
  intros Hp.
  split; [exact (co_dfa_total tr_tolower _ (row_next_ok tr_tolower) p closed_tolower Hp)|].
  split; [exact (co_dfa_total tr_toupper _ (row_next_ok tr_toupper) p closed_toupper Hp)|].
  split; [exact (co_dfa_total tr_totitle _ (row_next_ok tr_totitle) p closed_totitle Hp)|].
  intros d x E%lower_entry. pose proof lower_four as Hall. rewrite forallb_forall in Hall.
  apply Nat.leb_le, Hall. by apply list_elem_of_In.
Qed.

(** [co_totitle] changes the first visible code point and nothing else. *)
Theorem title_spec cs t ts after :
  wf (cs ++ t :: ts) -> Forall (fun t => is_vis t = false) cs -> is_vis t = true ->
  (length (flatten (cs ++ map_tok title t ++ ts)) <= cap)%nat ->
  co_totitle (flatten (cs ++ t :: ts)) after = flatten (cs ++ map_tok title t ++ ts).
Proof. intros Hw Hcs Ht Hl. unfold co_totitle. rewrite co_title_flatten by (done || apply _). by apply clamp_id. Qed.

End Properties.

(** A text cut inside its first visible character: [co_totitle] copies the memory after it. *)
Example title_truncated :
  @co_totitle default_config [206] [0; 120] = [206; 0] /\ @co_totitle default_config [225; 189] [0; 120] = [225; 189; 0].
Proof. vm_compute. done. Qed.

(** *** Folded forms that are longer than the character *)

(** Letters and other visible ASCII characters. *)
Definition solid (c : Z) : bool := in_rng 1 127 c && negb (mux_isspace c).

(** A character that is not ASCII and whose folded form has more bytes than it. *)
Definition lengthens (ch : bytes) : Prop :=
  exists c0 cs la, ch = c0 :: cs /\ 128 <= c0 /\ fold_char ch = Ok la /\ (length ch < length la)%nat.

Lemma lengthens_space ch : lengthens ch -> skip_while mux_isspace ch = ch.
Proof.
  intros (c0 & cs & la & -> & Hc & _). cbn [skip_while]. replace (mux_isspace c0) with false; [done|].
  symmetry. unfold mux_isspace, in_rng. lia.
Qed.

Lemma lengthens_advance ch : lengthens ch -> exists la, fold_char ch = Ok la /\ advance ch (length la) = Oob.
Proof.
  intros (c0 & cs & la & -> & _ & E & Hl). exists la. split; [done|]. unfold advance.
  by rewrite (proj2 (Nat.leb_gt _ _)).
Qed.

Lemma solid_ascii c : solid c = true -> in_rng 0 127 c = true /\ mux_isspace c = false /\ c <? 0x80 = true.
Proof. unfold solid. intros [Hc%in_rng_true Hs%negb_true_iff]%andb_prop. split_and!; [apply in_rng_true; lia|done|apply Z.ltb_lt; lia]. Qed.

Lemma byte_cmp_refl l : byte_cmp l l = 0.
Proof. induction l as [|c l IH]; [done|]. cbn. rewrite Z.ltb_irrefl. exact IH. Qed.

Section Overrun.
Context (ch : bytes) (Hch : lengthens ch).

(** Two prefixes that fold to the same. *)
Definition alike (p q : bytes) : Prop :=
  Forall2 (fun a b => solid a = true /\ solid b = true /\ mux_tolower_ascii a = mux_tolower_ascii b) p q.

Lemma minmatch_overrun p q fuel mn : alike p q -> (length (p ++ ch) < fuel)%nat ->
  minmatch_loop fuel (p ++ ch) (q ++ ch) mn = Oob.
Proof.
  intros H. revert fuel mn. induction H as [|a b p q (Ha & Hb & E) _ IH]; intros [|fuel] mn Hf; try lia; cbn [app].
  - destruct (lengthens_advance ch Hch) as (la & E & Ea). pose proof Hch as (c0 & cs & _ & -> & _).
    cbn [minmatch_loop]. rewrite E. cbn [mbind run_bind]. rewrite bool_decide_true by done. by rewrite Ea.
  - cbn [minmatch_loop]. rewrite !fold_char_ascii by (by apply solid_ascii). cbn [mbind run_bind].
    rewrite bool_decide_true by (by rewrite E). cbn [length]. apply IH. cbn in Hf. lia.
Qed.

Lemma stricmp_overrun p q : alike p q -> mux_stricmp (p ++ ch) (q ++ ch) = Oob.
Proof.
  intros H. unfold mux_stricmp.
  assert (mux_stricmp_fast (p ++ ch) (q ++ ch) = inl (ch, ch)) as ->.
  { induction H as [|a b p q (Ha & Hb & E) _ IH]; cbn [app].
    - pose proof Hch as (c0 & cs & _ & -> & Hc & _). cbn [mux_stricmp_fast]. by rewrite (proj2 (Z.ltb_ge c0 128)).
    - cbn [mux_stricmp_fast]. destruct (solid_ascii a Ha) as (_ & _ & ->), (solid_ascii b Hb) as (_ & _ & ->).
      cbn [andb]. by rewrite E, Z.eqb_refl. }
  destruct (lengthens_advance ch Hch) as (la & E & Ea). pose proof Hch as (c0 & cs & _ & -> & _).
  cbn [mux_stricmp_slow]. rewrite E. cbn [mbind run_bind]. rewrite byte_cmp_refl. cbn [Z.eqb negb]. by rewrite Ea.
Qed.

Lemma compare_loop_overrun p q fuel : alike p q -> (length (p ++ ch) < fuel)%nat ->
  string_compare_loop fuel (p ++ ch) (q ++ ch) = Oob.
Proof.
  intros H. revert fuel. induction H as [|a b p q (Ha & Hb & E) _ IH]; intros [|fuel] Hf; try lia; cbn [app].
  - destruct (lengthens_advance ch Hch) as (la & E & Ea). pose proof (lengthens_space ch Hch) as Hs.
    pose proof Hch as (c0 & cs & _ & -> & Hc & _). cbn [string_compare_loop].
    replace (mux_isspace c0) with false by (symmetry; unfold mux_isspace, in_rng; lia).
    rewrite (proj2 (Z.ltb_ge c0 128)) by done. cbn [andb]. rewrite E. cbn [mbind run_bind].
    rewrite bool_decide_true by done. cbn [negb]. by rewrite Ea.
  - cbn [string_compare_loop]. destruct (solid_ascii a Ha) as (_ & -> & ->), (solid_ascii b Hb) as (_ & _ & ->).
    cbn [andb]. rewrite E, Z.eqb_refl. apply IH. cbn in Hf. lia.
Qed.

Lemma alike_space p q : alike p q -> skip_while mux_isspace (p ++ ch) = p ++ ch /\ skip_while mux_isspace (q ++ ch) = q ++ ch.
Proof.
  intros [|a b p' q' (Ha & Hb & _) _]; cbn [app]; [by rewrite lengthens_space|].
  cbn [skip_while]. destruct (solid_ascii a Ha) as (_ & -> & _), (solid_ascii b Hb) as (_ & -> & _). done.
Qed.

End Overrun.

(** C36: The comparisons that fold case step over a character by the length of its folded form.  When
    two texts of visible ASCII that are equal up to case end in a character whose folded form has more
    bytes than it, [mux_stricmp], [minmatch] and [string_compare], squeezing spaces or not, step over
    the NUL and read on.  U+023A and U+023E are such characters: they have two bytes and fold to the
    three of U+2C65 and U+2C66. *)
Theorem compare_overrun p q ch mn squeeze :
  Forall2 (fun a b => solid a = true /\ solid b = true /\ mux_tolower_ascii a = mux_tolower_ascii b) p q ->
  lengthens ch ->
  mux_stricmp (p ++ ch) (q ++ ch) = Oob /\ minmatch (p ++ ch) (q ++ ch) mn = Oob
  /\ string_compare squeeze (p ++ ch) (q ++ ch) = Oob
  /\ lengthens [200; 186] /\ lengthens [200; 190].
Proof.
  intros Hp Hch. split; [by apply stricmp_overrun|]. split; [apply (minmatch_overrun ch Hch); [done|lia]|]. split.
  - unfold string_compare. destruct squeeze; [|by apply stricmp_overrun].
    destruct (alike_space ch Hch p q Hp) as [-> ->]. rewrite (compare_loop_overrun ch Hch) by (done || lia). done.
  - split; [exists 200, [186]; eexists|exists 200, [190]; eexists].
    all: split_and!; [done|done|vm_compute; reflexivity|cbn; lia].
Qed.

Lemma compare_overrun_witness :
  mux_stricmp [104; 105; 200; 186] [72; 73; 200; 186] = Oob /\
  string_compare true [104; 105; 200; 190] [72; 105; 200; 190] = Oob.
Proof.
  assert (H : forall b, lengthens [200; 186] /\ lengthens [200; 190]
    /\ string_compare b [104; 105; 200; 186] [72; 73; 200; 186] = Oob /\ mux_stricmp [104; 105; 200; 186] [72; 73; 200; 186] = Oob).
  { intros b. assert (Hl : lengthens [200; 186]).
    { exists 200, [186]. eexists. split_and!; [done|done|vm_compute; reflexivity|cbn; lia]. }
    destruct (compare_overrun [104; 105] [72; 73] [200; 186] 2 b) as (H1 & _ & H2 & H3 & H4);
      [by repeat constructor|done|]. done. }
  split; [apply (H true)|].
  apply (compare_overrun [104; 105] [72; 105] [200; 190] 2 true); [by repeat constructor|apply (H true)].
Defined.

(** Coloured "Ab", then the Greek capital alpha and a sharp s. *)
Definition case_sample : list tok :=
  [TVis [65]; TCol [239; 150; 129]; TVis [98]; TVis [206; 145]; TVis [195; 159]].


Lemma case_dfa_safe_witness :
  (exists r, co_dfa tr_tolower [225] = Ok r) /\ (exists r, co_dfa tr_toupper [225] = Ok r).
Proof.
  destruct (case_dfa_safe [225]) as (H1 & H2 & _); [repeat constructor; lia|]. by split.
Defined.
