(* ===== verification/Wild.v ===== *)
(** * Wild cards: [src/mux/modules/engine/wild.cpp]

    [quick_wild_impl] decides whether a text matches a pattern with [*], [?] and [\]; [wild1] also
    returns what the wild cards stand for.  A pattern is folded to lower case before; the data is
    folded as it is compared.  Both matchers count their invocations and give up at a limit.
    A C string is the list of its bytes without the NUL; reading further is [Oob].  The case table
    is the interface [CaseTable]; [CaseMap] has the instance. *)

From S2P Require Import Prelude Machine Decimal Encoding StringUtil CaseTables CaseMap.

Definition STAR : Z := 42.
Definition QUESTION : Z := 63.
Definition BACKSLASH : Z := 92.

(** ** Characters *)

Definition wild_char_len (dstr : bytes) : nat :=
  if chr_at dstr 0 =? 0 then O
  else
    let t := utf8_FirstByte (chr_at dstr 0) in
    if UTF8_CONTINUE <=? t then O
    else if forallb (fun j => negb (chr_at dstr j =? 0) && (utf8_FirstByte (chr_at dstr j) =? UTF8_CONTINUE))
              (seq 1 (Z.to_nat t - 1)) then Z.to_nat t
    else O.

(** How far a failed attempt moves on. *)
Definition wild_step (dstr : bytes) : nat :=
  match wild_char_len dstr with O => 1%nat | t => t end.

(** Comparing the folded bytes with the pattern; a folded NUL would match that of the pattern. *)
Fixpoint fold_eq (fold tstr : bytes) : run bool :=
  match fold, tstr with
  | [], _ => Ok true
  | f :: fold, c :: tstr => if c =? f then fold_eq fold tstr else Ok false
  | f :: fold, [] => if f =? 0 then match fold with [] => Ok true | _ => Oob end else Ok false
  end.

Section Wild.
Context {HC : Config} {HT : CaseTable}.

(** The bytes to advance in the data and in the pattern. *)
Definition wild_lit_eq (tstr dstr : bytes) : run (option (nat * nat)) :=
  let dc := chr_at dstr 0 in
  if dc <? 0x80 then
    if negb (mux_tolower_ascii dc =? chr_at tstr 0) then Ok None else Ok (Some (1, 1)%nat)
  else
    let dlen := wild_char_len dstr in
    if (dlen =? 0)%nat then Ok None
    else
      let '(d, bXor) := mux_tolower dstr in
      match d with
      | Some d' =>
          if bXor && (n_bytes d' =? dlen)%nat then
            e ← fold_eq (imap (fun i b => Z.lxor b (chr_at (d_p d') i)) (take dlen dstr)) tstr;
            Ok (if (e : bool) then Some (dlen, dlen) else None)
          else
            let fold := if bXor then take dlen dstr else map (chr_at (d_p d')) (seq 0 (n_bytes d')) in
            e ← fold_eq fold tstr;
            Ok (if (e : bool) then Some (dlen, length fold) else None)
      | None =>
          e ← fold_eq (take dlen dstr) tstr;
          Ok (if (e : bool) then Some (dlen, dlen) else None)
      end.

(** ** Matching without captures *)

(** The loop up to the first [*]: the answer, or the position of the star. *)
Fixpoint quick_lits (fuel : nat) (tstr dstr : bytes) : run (bool + bytes * bytes) :=
  match fuel with
  | O => NoFuel
  | S fuel =>
      let c := chr_at tstr 0 in
      if c =? STAR then Ok (inr (tstr, dstr))
      else if c =? QUESTION then
        let t := wild_char_len dstr in
        if (t =? 0)%nat then Ok (inl false) else quick_lits fuel (tail tstr) (drop t dstr)
      else
        let tstr := if c =? BACKSLASH then tail tstr else tstr in
        r ← wild_lit_eq tstr dstr;
        match r with
        | None => Ok (inl false)
        | Some (dlen, tlen) =>
            match dstr with
            | [] => Ok (inl true)
            | _ => tstr ← advance tstr tlen; dstr ← advance dstr dlen; quick_lits fuel tstr dstr
            end
        end
  end.

(** The wild cards after a [*]: every [?] takes a character. *)
Fixpoint skip_wildcards (tstr dstr : bytes) : option (bytes * bytes) :=
  match tstr with
  | c :: tstr' =>
      if c =? QUESTION then
        let t := wild_char_len dstr in
        if (t =? 0)%nat then None else skip_wildcards tstr' (drop t dstr)
      else if c =? STAR then skip_wildcards tstr' dstr
      else Some (tstr, dstr)
  | [] => Some (tstr, dstr)
  end.

Definition skip_backslash (tstr : bytes) : bytes :=
  if chr_at tstr 0 =? BACKSLASH then tail tstr else tstr.

(** The scan for the literal after a [*], with the match of what follows it. *)
Fixpoint quick_scan (fuel : nat) (rest : bytes -> bytes -> Z -> run (bool * Z)) (tstr dstr : bytes) (ctr : Z) :
    run (bool * Z) :=
  match fuel with
  | O => NoFuel
  | S fuel =>
      match dstr with
      | [] => Ok (false, ctr)
      | _ =>
          r ← wild_lit_eq tstr dstr;
          '(found, ctr) ←
            match r with
            | None => Ok (false, ctr)
            | Some (dlen, tlen) => t ← advance tstr tlen; d ← advance dstr dlen; rest t d ctr
            end;
          if (found : bool) then Ok (true, ctr)
          else quick_scan fuel rest tstr (drop (wild_step dstr) dstr) ctr
      end
  end.

Variable wild_invk_lim : Z.

(** The state is [mudstate.wild_invk_ctr]. *)
Fixpoint quick_wild_impl (fuel : nat) (tstr dstr : bytes) (wild_invk_ctr : Z) : run (bool * Z) :=
  match fuel with
  | O => NoFuel
  | S fuel =>
      if wild_invk_lim <=? wild_invk_ctr then Ok (false, wild_invk_ctr)
      else
        let ctr := wild_invk_ctr + 1 in
        r ← quick_lits (S (length tstr)) tstr dstr;
        match r with
        | inl b => Ok (b, ctr)
        | inr (tstr, dstr) =>
            let tstr := tail tstr in
            match tstr with
            | [] => Ok (true, ctr)
            | _ =>
                match skip_wildcards tstr dstr with
                | None => Ok (false, ctr)
                | Some (tstr, dstr) =>
                    let tstr := skip_backslash tstr in
                    match tstr with
                    | [] => Ok (true, ctr)
                    | _ => quick_scan (S (length dstr)) (quick_wild_impl fuel) tstr dstr ctr
                    end
                end
            end
        end
  end.

Definition quick_fuel (tstr : bytes) : nat := S (length tstr).

(** The pattern in lower case, in a buffer of its own. *)
Definition lowered (tstr : bytes) : run bytes :=
  lt ← of_option (str_case mux_tolower tstr); Ok (take (LBUF_SIZE - 1) lt).

Definition quick_wild (tstr dstr : bytes) (wild_invk_ctr : Z) : run (bool * Z) :=
  lt ← lowered tstr; quick_wild_impl (quick_fuel lt) lt dstr wild_invk_ctr.

End Wild.

(** ** Matching with captures

    The arguments are buffers that the caller allocated; writing to a null pointer or outside the
    array is [Oob]. *)

Abbreviation argv := (list (option bytes)).

Definition put (args : argv) (i : nat) (s : bytes) : run argv :=
  match args !! i with
  | Some (Some _) => Ok (<[i := Some s]> args)
  | _ => Oob
  end.

(** Back over [n] characters from offset [i] of the bytes [seg], which start at [lo]. *)
Fixpoint wild_step_back (n : nat) (seg : bytes) (i : nat) : nat :=
  match n, i with
  | S n, S j => wild_step_back n seg (trim_start seg j)
  | _, _ => i
  end.

(** The character at [p] and the pointer past it. *)
Definition wild_capture_char (p : bytes) : run (bytes * bytes) :=
  let t := utf8_FirstByte (chr_at p 0) in
  let t := if UTF8_CONTINUE <=? t then 1%nat else Z.to_nat t in
  c ← read_bytes p t; p ← advance p t; Ok (c, p).

Section Capture.
Context {HC : Config} {HT : CaseTable}.
Variables (wild_invk_lim : Z) (numargs : nat).

(** Where the loop up to the first [*] ends: with an answer, with all arguments filled, or at the
    star. *)
Inductive lits_end :=
| LReturn (value : bool) (args : argv)
| LQuick (tstr dstr : bytes) (args : argv)
| LStar (tstr dstr : bytes) (arg : nat) (args : argv).

Fixpoint wild1_lits (fuel : nat) (tstr dstr : bytes) (arg : nat) (args : argv) : run lits_end :=
  match fuel with
  | O => NoFuel
  | S fuel =>
      let c := chr_at tstr 0 in
      if c =? STAR then Ok (LStar tstr dstr arg args)
      else if c =? QUESTION then
        let t := wild_char_len dstr in
        if (t =? 0)%nat then Ok (LReturn false args)
        else
          args ← put args arg (take t dstr);
          let arg := S arg in
          if (numargs <=? arg)%nat then Ok (LQuick (tail tstr) (drop t dstr) args)
          else wild1_lits fuel (tail tstr) (drop t dstr) arg args
      else
        let tstr := skip_backslash tstr in
        r ← wild_lit_eq tstr dstr;
        match r with
        | None => Ok (LReturn false args)
        | Some (dlen, tlen) =>
            match dstr with
            | [] => Ok (LReturn true args)
            | _ => dstr ← advance dstr dlen; tstr ← advance tstr tlen; wild1_lits fuel tstr dstr arg args
            end
        end
  end.

(** Filling in the [n] arguments from [argpos] on with one character each; whether they ran out. *)
Fixpoint fill_chars (n : nat) (argpos : nat) (datapos : bytes) (args : argv) :
    run (bool * nat * bytes * argv) :=
  match n with
  | O => Ok (false, argpos, datapos, args)
  | S n =>
      '(c, datapos) ← wild_capture_char datapos;
      args ← put args argpos c;
      let argpos := S argpos in
      if (numargs <=? argpos)%nat then Ok (true, argpos, datapos, args)
      else fill_chars n argpos datapos args
  end.

(** The question marks after a star. *)
Fixpoint skip_questions (tstr dstr : bytes) (arg numextra : nat) : option (bytes * bytes * nat * nat) :=
  match tstr with
  | c :: tstr' =>
      if c =? QUESTION then
        let t := wild_char_len dstr in
        if (t =? 0)%nat then None else skip_questions tstr' (drop t dstr) (S arg) (S numextra)
      else Some (tstr, dstr, arg, numextra)
  | [] => Some (tstr, dstr, arg, numextra)
  end.

Inductive stars_end :=
| SFail (args : argv)
| SQuick (tstr dstr : bytes) (args : argv)
| SAnchor (tstr dstr datapos : bytes) (argpos arg numextra : nat) (args : argv).

(** The [do] loop over runs of wild cards, each a star and its question marks. *)
Fixpoint wild1_stars (fuel : nat) (tstr dstr datapos : bytes) (argpos arg : nat) (args : argv) : run stars_end :=
  match fuel with
  | O => NoFuel
  | S fuel =>
      '(full, argpos, datapos, args) ←
        (if (argpos <? arg)%nat then
           args ← put args argpos [];
           let argpos := S argpos in
           if (numargs <=? argpos)%nat then Ok (true, argpos, datapos, args)
           else fill_chars (arg - argpos) argpos datapos args
         else Ok (false, argpos, datapos, args));
      if (full : bool) then Ok (SQuick tstr dstr args)
      else
        match skip_questions (tail tstr) dstr (S arg) 0 with
        | None => Ok (SFail args)
        | Some (tstr, dstr, arg, numextra) =>
            if chr_at tstr 0 =? STAR then wild1_stars fuel tstr dstr datapos argpos arg args
            else Ok (SAnchor tstr dstr datapos argpos arg numextra args)
        end
  end.

(** The scan for the literal after the stars: where it was found, if it was. *)
Fixpoint wild1_scan (fuel : nat) (rest : bytes -> bytes -> Z -> argv -> run (bool * Z * argv))
    (tstr dstr : bytes) (ctr : Z) (args : argv) : run (option bytes * Z * argv) :=
  match fuel with
  | O => NoFuel
  | S fuel =>
      match tstr with
      | [] => Ok (Some [], ctr, args)
      | _ =>
          r ← wild_lit_eq tstr dstr;
          match r, dstr with
          | None, [] => Ok (None, ctr, args)
          | None, _ => wild1_scan fuel rest tstr (drop (wild_step dstr) dstr) ctr args
          | Some _, [] => Ok (Some dstr, ctr, args)
          | Some (anchor_dlen, anchor_tlen), _ =>
              t ← advance tstr anchor_tlen;
              d ← advance dstr anchor_dlen;
              '(found, ctr, args) ← rest t d ctr args;
              if (found : bool) then Ok (Some dstr, ctr, args)
              else wild1_scan fuel rest tstr (drop (wild_step dstr) dstr) ctr args
          end
      end
  end.

(** The arguments of the last star and its question marks, once the literal is at [dstr]. *)
Definition wild1_fill (dstr datapos : bytes) (argpos numextra : nat) (args : argv) : run argv :=
  let seg := range datapos dstr in
  let qstart := wild_step_back numextra seg (length seg) in
  args ← put args argpos (take qstart seg);
  if (numargs <=? S argpos)%nat then Ok args
  else '(_, _, _, args) ← fill_chars numextra (S argpos) (drop qstart datapos) args; Ok args.

Fixpoint wild1 (fuel : nat) (tstr dstr : bytes) (arg : nat) (ctr : Z) (args : argv) : run (bool * Z * argv) :=
  match fuel with
  | O => NoFuel
  | S fuel =>
      let quick t d ctr args :=
        '(b, ctr) ← quick_wild_impl wild_invk_lim (quick_fuel t) t d ctr; Ok (b, ctr, args) in
      if wild_invk_lim <=? ctr then Ok (false, ctr, args)
      else
        let ctr := ctr + 1 in
        r ← wild1_lits (S (length tstr)) tstr dstr arg args;
        match r with
        | LReturn value args => Ok (value, ctr, args)
        | LQuick tstr dstr args => quick tstr dstr ctr args
        | LStar tstr dstr arg args =>
            match tail tstr with
            | [] => args ← put args arg (take (LBUF_SIZE - 1) dstr); Ok (true, ctr, args)
            | _ =>
                r ← wild1_stars (length tstr) tstr dstr dstr arg arg args;
                match r with
                | SFail args => Ok (false, ctr, args)
                | SQuick tstr dstr args => quick tstr dstr ctr args
                | SAnchor tstr dstr datapos argpos arg numextra args =>
                    let tstr := skip_backslash tstr in
                    let rest t d ctr args :=
                      if (arg <? numargs)%nat then wild1 fuel t d arg ctr args else quick t d ctr args in
                    '(found, ctr, args) ← wild1_scan (S (length dstr)) rest tstr dstr ctr args;
                    match found with
                    | None => Ok (false, ctr, args)
                    | Some dstr => args ← wild1_fill dstr datapos argpos numextra args; Ok (true, ctr, args)
                    end
                end
            end
        end
  end.

(** *** The entry point *)

(** The fast match up to the first wild card. *)
Fixpoint wild_fast (fuel : nat) (lt dstr : bytes) : run (bool + bytes * bytes) :=
  match fuel with
  | O => NoFuel
  | S fuel =>
      let c := chr_at lt 0 in
      if (c =? STAR) || (c =? QUESTION) then Ok (inr (lt, dstr))
      else
        let lt := skip_backslash lt in
        r ← wild_lit_eq lt dstr;
        match r with
        | None => Ok (inl false)
        | Some (dlen, tlen) =>
            match dstr with
            | [] => Ok (inl true)
            | _ => lt ← advance lt tlen; dstr ← advance dstr dlen; wild_fast fuel lt dstr
            end
        end
  end.

(** A buffer for each wild card; escaped ones are counted too. *)
Fixpoint alloc_args (scan : bytes) (nargs : nat) : argv :=
  match scan, nargs with
  | c :: scan, S n =>
      if (c =? QUESTION) || (c =? STAR) then Some [] :: alloc_args scan n else alloc_args scan nargs
  | _, _ => replicate nargs None
  end.

(** Null for the arguments that are empty, and for all if there was no match. *)
Definition clean_args (value : bool) (args : argv) : argv :=
  map (fun a => match a with
                | Some s => if bool_decide (s = []) || negb value then None else Some s
                | None => None
                end) args.

End Capture.

Definition wild {HC : Config} {HT : CaseTable} (wild_invk_lim : Z) (tstr dstr : bytes) (nargs : nat) :
    run (bool * Z * argv) :=
  lt ← lowered tstr;
  r ← wild_fast (S (length lt)) lt dstr;
  match r with
  | inl b => Ok (b, 0, replicate nargs None)
  | inr (lt, dstr) =>
      let args := alloc_args lt nargs in
      '(value, ctr, args) ←
        (if (nargs =? 0)%nat then
           '(b, ctr) ← quick_wild_impl wild_invk_lim (quick_fuel lt) lt dstr 0; Ok (b, ctr, args)
         else wild1 wild_invk_lim nargs (S (length lt)) lt dstr 0 0 args);
      Ok (value, ctr, clean_args value args)
  end.

(** ** Specification *)

(** What the case table does for the characters of well-formed text: besides [CaseMapping], that
    ASCII is folded as usual and that no other character becomes a NUL or a wild card. *)
Class FoldLaws {HT : CaseTable} := {
  fold_mapping :: CaseMapping mux_tolower;
  fold_some t : wf_tok t = true -> case_bytes (mux_tolower (tok_bytes t)) (tok_bytes t) <> [];
  fold_ascii b : in_rng 1 127 b = true -> case_bytes (mux_tolower [b]) [b] = [mux_tolower_ascii b];
  fold_plain t : wf_tok t = true -> (2 <= length (tok_bytes t))%nat ->
    forallb (fun b => in_rng 97 122 b || (128 <=? b)) (case_bytes (mux_tolower (tok_bytes t)) (tok_bytes t)) = true
}.

Section Spec.
Context {HT : CaseTable}.

(** A character in lower case. *)
Definition folded (t : tok) : bytes := case_bytes (mux_tolower (tok_bytes t)) (tok_bytes t).

Definition special (t : tok) : bool :=
  match tok_bytes t with
  | [b] => (b =? STAR) || (b =? QUESTION) || (b =? BACKSLASH)
  | _ => false
  end.

(** A pattern in lower case matches the characters of a text, each wild card standing for some of
    them: [*] for any, [?] for one. *)
Inductive captures : bytes -> list tok -> list (list tok) -> Prop :=
| cap_end : captures [] [] []
| cap_literal t p ts cs : special t = false -> captures p ts cs -> captures (folded t ++ p) (t :: ts) cs
| cap_escaped t p ts cs : captures p ts cs -> captures (BACKSLASH :: folded t ++ p) (t :: ts) cs
| cap_escaped_end : captures [BACKSLASH] [] []
| cap_question t p ts cs : captures p ts cs -> captures (QUESTION :: p) (t :: ts) ([t] :: cs)
| cap_star us p ts cs : captures p ts cs -> captures (STAR :: p) (us ++ ts) (us :: cs).

Definition matches (p : bytes) (ts : list tok) : Prop := exists cs, captures p ts cs.

End Spec.

Section QuickProofs.
Context {HC : Config} {HT : CaseTable} {HF : FoldLaws}.

(** A character is one byte of ASCII or two bytes or more. *)
Lemma tok_cases t : wf_tok t = true ->
  (exists b, t = TVis [b] /\ in_rng 1 127 b = true)
  \/ (2 <= length (tok_bytes t))%nat /\ exists c q, tok_bytes t = c :: q /\ 128 <= c.
Proof.
  intros Hw. tok_shapes t Hw; [left; eexists; split; [done|by apply in_rng_true]|right..];
    (split; [cbn; lia|]); eexists _, _; (split; [reflexivity|]); vis_hyps; lia.
Qed.

Lemma fold_bytes t : wf_tok t = true ->
  folded t <> [] /\ Forall (fun b => b <> 0) (folded t)
  /\ (special t = false -> exists c q, folded t = c :: q /\ c <> STAR /\ c <> QUESTION /\ c <> BACKSLASH).
Proof.
  intros Hw. split; [by apply fold_some|]. destruct (tok_cases t Hw) as [(b & -> & Hb)|(Hl & c & q & Et & Hc)].
  - unfold folded. cbn [tok_bytes]. rewrite fold_ascii by done. apply in_rng_true in Hb. unfold mux_tolower_ascii.
    split; [constructor; [|constructor]; case_match; lia|]. unfold special. cbn [tok_bytes]. intros Hs.
    unfold STAR, QUESTION, BACKSLASH in *.
    eexists _, _. split; [reflexivity|]. case_match; byte_hyps; lia.
  - pose proof (fold_plain t Hw Hl) as H. fold (folded t) in H. rewrite forallb_forall in H. split.
    + apply Forall_forall. intros x Hx ->. by specialize (H 0 ltac:(by apply list_elem_of_In)).
    + intros _. pose proof (fold_some t Hw) as Hne. fold (folded t) in Hne.
      destruct (folded t) as [|c' q']; [done|]. eexists _, _. split; [reflexivity|].
      specialize (H c' (in_eq _ _)). apply orb_prop in H. unfold STAR, QUESTION, BACKSLASH.
      split_and!; intros ->; by destruct H.
Qed.

Lemma wild_char_len_tok t rest : wf_tok t = true -> wild_char_len (tok_bytes t ++ rest) = length (tok_bytes t).
Proof.
  intros Hw. destruct (tok_lead t Hw) as (c & q & Et & _ & Hf & Hl & Hq).
  pose proof (tok_head t c q Hw Et) as Hc. unfold wild_char_len. rewrite Et. cbn [app length].
  change (chr_at (c :: ?l) 0) with c. rewrite Hf, (proj2 (Z.eqb_neq _ _) Hc).
  replace (UTF8_CONTINUE <=? _) with false by (symmetry; apply Z.leb_gt; unfold UTF8_CONTINUE; lia).
  rewrite Nat2Z.id, Nat.sub_succ, Nat.sub_0_r. by rewrite conts_at.
Qed.

Lemma wild_step_tok t rest : wf_tok t = true -> drop (wild_step (tok_bytes t ++ rest)) (tok_bytes t ++ rest) = rest.
Proof.
  intros Hw. unfold wild_step. rewrite wild_char_len_tok by done. pose proof (tok_bytes_nonempty t Hw).
  destruct (length (tok_bytes t)) eqn:E; [lia|]. by rewrite <- E, drop_app_length.
Qed.

Lemma fold_eq_prefix f p : Forall (fun b => b <> 0) f -> fold_eq f p = Ok (bool_decide (f `prefix_of` p)).
Proof.
  intros Hf. revert p. induction Hf as [|b f Hb Hf IH]; intros p.
  - cbn. rewrite bool_decide_true; [done|]. apply prefix_nil.
  - destruct p as [|c p]; cbn [fold_eq].
    + rewrite (proj2 (Z.eqb_neq _ _) Hb), bool_decide_false; [done|]. by intros []%prefix_nil_not.
    + destruct (Z.eqb_spec c b) as [->|Hne].
      * rewrite IH. f_equal. apply bool_decide_ext. split; [apply prefix_cons|apply prefix_cons_inv_2].
      * rewrite bool_decide_false; [done|]. by intros ->%prefix_cons_inv_1.
Qed.

Lemma case_bytes_none x bs : case_bytes (None, x) bs = bs.
Proof. done. Qed.

(** Comparing a character with the pattern. *)
Lemma wild_lit_eq_tok p t rest : wf_tok t = true ->
  wild_lit_eq p (tok_bytes t ++ rest)
  = Ok (if bool_decide (folded t `prefix_of` p) then Some (length (tok_bytes t), length (folded t)) else None).
Proof.
  intros Hw. destruct (fold_bytes t Hw) as (Hne & Hnz & _).
  destruct (tok_cases t Hw) as [(b & -> & Hb)|(Hl & c & q & Et & Hc)]; unfold wild_lit_eq.
  - unfold folded in *. cbn [tok_bytes app] in *. change (chr_at (b :: rest) 0) with b.
    rewrite fold_ascii in * by done. apply in_rng_true in Hb.
    replace (b <? 0x80) with true by (symmetry; apply Z.ltb_lt; lia). apply Forall_cons in Hnz as [Hnz _].
    destruct p as [|c p].
    + change (chr_at [] 0) with 0. rewrite (proj2 (Z.eqb_neq _ _) Hnz), bool_decide_false; [done|].
      by intros []%prefix_nil_not.
    + change (chr_at (c :: p) 0) with c. destruct (Z.eqb_spec (mux_tolower_ascii b) c) as [->|Hn]; cbn [negb].
      * rewrite bool_decide_true; [done|]. apply prefix_cons, prefix_nil.
      * rewrite bool_decide_false; [done|]. by intros E%prefix_cons_inv_1.
  - rewrite wild_char_len_tok, lookup_local by done. unfold folded in *.
    replace (chr_at (tok_bytes t ++ rest) 0) with c by (by rewrite Et).
    replace (c <? 0x80) with false by (symmetry; apply Z.ltb_ge; lia).
    rewrite (proj2 (Nat.eqb_neq _ _)) by lia. rewrite take_app_length.
    destruct (mux_tolower (tok_bytes t)) as [[d|] x]; cbn [case_bytes] in *.
    + destruct x; cbn [andb negb] in *.
      * destruct (n_bytes d =? length (tok_bytes t))%nat; cbn [negb] in *; rewrite fold_eq_prefix by done;
          cbn [mbind run_bind]; by rewrite ?length_imap.
      * rewrite fold_eq_prefix by done. cbn [mbind run_bind]. done.
    + rewrite fold_eq_prefix by done. done.
Qed.

Lemma wild_lit_eq_end p : Forall (fun b => b <> 0) p ->
  wild_lit_eq p [] = Ok (match p with [] => Some (1, 1)%nat | _ => None end).
Proof.
  intros Hp. unfold wild_lit_eq. change (chr_at [] 0) with 0. change (mux_tolower_ascii 0) with 0.
  destruct Hp as [|c p Hc _]; [done|]. change (chr_at (c :: p) 0) with c. cbn [Z.ltb Z.compare].
  destruct (Z.eqb_spec 0 c); [congruence|done].
Qed.

(** *** Taking a pattern apart *)

Definition literal (p : bytes) (ts : list tok) : Prop :=
  (p = [] /\ ts = []) \/ exists t p' ts', p = folded t ++ p' /\ ts = t :: ts' /\ matches p' ts'.

Definition plain (p : bytes) : Prop :=
  match p with c :: _ => c <> STAR /\ c <> QUESTION /\ c <> BACKSLASH | [] => True end.

Lemma special_folded t : wf_tok t = true -> special t = true -> ~ forall p, plain (folded t ++ p).
Proof.
  intros Hw Hs Hp. destruct (tok_cases t Hw) as [(b & -> & Hb)|(Hl & c & q & Et & Hc)].
  - specialize (Hp []). revert Hp. unfold folded. cbn [tok_bytes]. rewrite fold_ascii by done. cbn [app plain].
    unfold special in Hs. cbn [tok_bytes] in Hs. unfold mux_tolower_ascii, STAR, QUESTION, BACKSLASH in *.
    intros Hp. destruct (in_rng 65 90 b) eqn:E; byte_hyps; repeat (apply orb_prop in Hs as [Hs|Hs]);
      byte_hyps; lia.
  - unfold special in Hs. rewrite Et in Hs, Hl. destruct q; [cbn in Hl; lia|done].
Qed.

Lemma folded_plain t p : wf_tok t = true -> special t = false -> plain (folded t ++ p).
Proof.
  intros Hw Hs. destruct (fold_bytes t Hw) as (_ & _ & H). destruct (H Hs) as (c & q & -> & Hc). exact Hc.
Qed.

Lemma folded_not_nil t p : wf_tok t = true -> folded t ++ p <> [].
Proof. intros Hw [E _]%app_eq_nil. by apply (fold_some t Hw). Qed.

Ltac literal_clash Hw :=
  match goal with
  | Hs : special ?t = false, E : folded ?t ++ ?p = _ |- _ =>
      let Ht := fresh in let Hp := fresh in
      apply wf_cons in Hw as [Ht _]; pose proof (folded_plain t p Ht Hs) as Hp; rewrite E in Hp;
      destruct Hp as (? & ? & ?); done
  end.
Ltac invert_captures Hw Hc :=
  inversion Hc; subst; try discriminate; try solve [literal_clash Hw].

Lemma matches_question p ts : wf ts ->
  matches (QUESTION :: p) ts <-> exists t ts', ts = t :: ts' /\ matches p ts'.
Proof.
  intros Hw. split.
  - intros [cs Hc]. invert_captures Hw Hc. do 2 eexists. split; [done|by eexists].
  - intros (t & ts' & -> & cs & Hc). exists ([t] :: cs). by constructor.
Qed.

Lemma matches_star p ts : wf ts ->
  matches (STAR :: p) ts <-> exists us ts', ts = us ++ ts' /\ matches p ts'.
Proof.
  intros Hw. split.
  - intros [cs Hc]. invert_captures Hw Hc. do 2 eexists. split; [done|by eexists].
  - intros (us & ts' & -> & cs & Hc). exists (us :: cs). by constructor.
Qed.

Lemma matches_backslash p ts : wf ts -> matches (BACKSLASH :: p) ts <-> literal p ts.
Proof.
  intros Hw. split.
  - intros [cs Hc]. invert_captures Hw Hc; [|by left].
    right. do 3 eexists. split_and!; [done|done|by eexists].
  - intros [[-> ->]|(t & p' & ts' & -> & -> & cs & Hc)]; [exists []; constructor|exists cs; by constructor].
Qed.

Lemma matches_plain p ts : plain p -> wf ts -> matches p ts <-> literal p ts.
Proof.
  intros Hp Hw. split.
  - intros [cs Hc]. inversion Hc; subst; try (cbn in Hp; naive_solver); [by left|].
    right. eexists _, _, _. split_and!; [done|done|by eexists].
  - intros [[-> ->]|(t & p' & ts' & -> & -> & cs & Hc)]; [exists []; constructor|].
    apply wf_cons in Hw as [Ht _]. exists cs. destruct (special t) eqn:Es; [|by constructor].
    exfalso. apply (special_folded t Ht Es). intros p. destruct (fold_bytes t Ht) as (Hne & _ & _).
    destruct (folded t); [done|exact Hp].
Qed.

Lemma literal_cons t p ts : wf_tok t = true ->
  literal p (t :: ts) <-> exists p', p = folded t ++ p' /\ matches p' ts.
Proof.
  intros Hw. split.
  - intros [[_ ?]|(t' & p' & ts' & -> & E & Hm)]; [done|]. injection E as <- <-. by exists p'.
  - intros (p' & -> & Hm). right. by exists t, p', ts.
Qed.

Lemma literal_nil p : literal p [] <-> p = [].
Proof. split; [intros [[? _]|(? & ? & ? & _ & ? & _)]; done|by left]. Qed.

(** The comparison of a literal, and what is left. *)
Lemma lit_step p ts : Forall (fun b => b <> 0) p -> wf ts ->
  exists r, wild_lit_eq p (flatten ts) = Ok r /\
    match ts, r with
    | [], Some _ => p = []
    | [], None => p <> []
    | t :: ts', Some (dlen, tlen) => exists p', p = folded t ++ p'
        /\ advance p tlen = Ok p' /\ advance (flatten ts) dlen = Ok (flatten ts')
        /\ (length p' < length p)%nat /\ flatten ts <> []
    | t :: _, None => ~ folded t `prefix_of` p
    end.
Proof.
  intros Hp Hw. destruct ts as [|t ts]; [rewrite wild_lit_eq_end by done; destruct p; by eexists|].
  apply wf_cons in Hw as [Ht Hts]. rewrite flatten_cons, wild_lit_eq_tok by done. eexists. split; [done|].
  case_bool_decide as Hd; [|done]. destruct Hd as [p' ->]. exists p'. unfold advance.
  pose proof (fold_some t Ht) as Hne. fold (folded t) in Hne. pose proof (tok_bytes_nonempty t Ht).
  rewrite !length_app, !drop_app_length.
  rewrite !(proj2 (Nat.leb_le _ _)) by lia. split_and!; try done.
  - destruct (folded t); [done|cbn; lia].
  - intros [E _]%app_eq_nil. rewrite E in *. cbn in *. lia.
Qed.

(** *** Runs of wild cards *)

Ltac wf_tac := repeat (rewrite wf_app in * || rewrite wf_cons in *); destruct_and?; repeat split; done.

Lemma star_question p ts : wf ts ->
  matches (STAR :: QUESTION :: p) ts <-> exists t ts', ts = t :: ts' /\ matches (STAR :: p) ts'.
Proof.
  intros Hw. rewrite matches_star by done. split.
  - intros (us & vs & -> & Hm). apply wf_app in Hw as [Hus Hvs].
    apply matches_question in Hm as (t & ws & -> & Hm); [|done].
    destruct us as [|u us].
    + exists t, ws. split; [done|]. apply matches_star; [wf_tac|]. by exists [], ws.
    + exists u, (us ++ t :: ws). split; [done|]. apply matches_star; [wf_tac|].
      exists (us ++ [t]), ws. by rewrite <- app_assoc.
  - intros (t & ts' & -> & Hm). apply matches_star in Hm as (us & ws & -> & Hm); [|wf_tac].
    destruct us as [|u us _] using rev_ind.
    + exists [], (t :: ws). split; [done|]. apply matches_question; [wf_tac|]. by exists t, ws.
    + exists (t :: us), (u :: ws). split; [cbn; by rewrite <- app_assoc|].
      apply matches_question; [wf_tac|]. by exists u, ws.
Qed.

Lemma star_star p ts : wf ts -> matches (STAR :: STAR :: p) ts <-> matches (STAR :: p) ts.
Proof.
  intros Hw. rewrite !matches_star by done. split.
  - intros (us & vs & -> & Hm). apply matches_star in Hm as (us' & ws & -> & Hm); [|wf_tac].
    exists (us ++ us'), ws. by rewrite <- app_assoc.
  - intros (us & vs & -> & Hm). exists [], (us ++ vs). split; [done|]. apply matches_star; [done|]. eauto.
Qed.

(** *** The loops *)

Lemma flatten_nil_inv ts : wf ts -> flatten ts = [] -> ts = [].
Proof.
  destruct ts as [|t ts]; [done|]. intros [Ht _]%wf_cons [E _]%app_eq_nil.
  pose proof (tok_bytes_nonempty t Ht) as H. rewrite E in H. cbn in H. lia.
Qed.

Lemma char_len_nil : wild_char_len [] = O.
Proof. done. Qed.

(** Where the loop over the pattern up to its first star ends. *)
Lemma quick_lits_spec fuel p ts : Forall (fun b => b <> 0) p -> wf ts -> (length p < fuel)%nat ->
  exists r, quick_lits fuel p (flatten ts) = Ok r /\
    match r with
    | inl b => b = true <-> matches p ts
    | inr (p', d') => exists p0 ts', p' = STAR :: p0 /\ d' = flatten ts' /\ wf ts'
        /\ Forall (fun b => b <> 0) p0 /\ (length p0 < length p)%nat
        /\ (matches p ts <-> matches (STAR :: p0) ts')
    end.
Proof.
  revert p ts. induction fuel as [|fuel IH]; intros p ts Hp Hw Hf; [lia|]. cbn [quick_lits].
  destruct (Z.eqb_spec (chr_at p 0) STAR) as [E|Hstar].
  { destruct p as [|c p]; [done|]. change (chr_at (c :: p) 0) with c in E. subst c.
    eexists. split; [done|]. cbn. apply Forall_cons in Hp as [_ Hp]. exists p, ts. split_and!; done || lia. }
  destruct (Z.eqb_spec (chr_at p 0) QUESTION) as [E|Hquest].
  { destruct p as [|c p]; [done|]. change (chr_at (c :: p) 0) with c in E. subst c. cbn [tail].
    apply Forall_cons in Hp as [_ Hp]. destruct ts as [|t ts].
    - cbn [flatten flat_map]. rewrite char_len_nil. eexists. split; [done|]. cbn.
      split; [done|]. intros Hm. apply matches_question in Hm as (? & ? & ? & _); done.
    - apply wf_cons in Hw as [Ht Hts]. rewrite flatten_cons, wild_char_len_tok, drop_app_length by done.
      pose proof (tok_bytes_nonempty t Ht). rewrite (proj2 (Nat.eqb_neq _ _)) by lia.
      destruct (IH p ts Hp Hts) as (r & Er & Hr); [cbn in Hf; lia|].
      assert (Hm : matches (QUESTION :: p) (t :: ts) <-> matches p ts).
      { rewrite matches_question by by apply wf_cons. naive_solver. }
      exists r. split; [done|]. destruct r as [b|[p' d']]; [by rewrite Hm|].
      destruct Hr as (p0 & ts' & H1 & H2 & H3 & H4 & H5 & H6). exists p0, ts'. rewrite Hm.
      split_and!; try done. cbn. lia. }
  set (q := if chr_at p 0 =? BACKSLASH then tail p else p).
  assert (Hq : (length q <= length p)%nat /\ Forall (fun b => b <> 0) q /\ (matches p ts <-> literal q ts)).
  { unfold q. destruct p as [|c p].
    { change (chr_at [] 0) with 0. split_and!; [done|done|]. by apply matches_plain. }
    change (chr_at (c :: p) 0) with c in *. destruct (Z.eqb_spec c BACKSLASH) as [->|Hb].
    - cbn [tail]. apply Forall_cons in Hp as [_ Hp]. split_and!; [cbn; lia|done|]. by apply matches_backslash.
    - split_and!; [done|done|]. by apply matches_plain. }
  destruct Hq as (Hlq & Hnq & Hpm). destruct (lit_step q ts Hnq Hw) as (r & -> & Hr). cbn [mbind run_bind].
  destruct ts as [|t ts].
  - destruct r as [[dlen tlen]|]; eexists; (split; [done|]); cbn; rewrite Hpm, literal_nil; done.
  - apply wf_cons in Hw as [Ht Hts]. destruct r as [[dlen tlen]|].
    + destruct Hr as (p' & -> & -> & Ed & Hl & Hne). destruct (flatten (t :: ts)) as [|c d] eqn:Ef; [done|].
      rewrite Ed. cbn [mbind run_bind]. apply Forall_app in Hnq as [_ Hnp'].
      destruct (IH p' ts Hnp' Hts) as (r & Er & Hr); [lia|].
      assert (Hm : literal (folded t ++ p') (t :: ts) <-> matches p' ts).
      { rewrite literal_cons by done. split; [intros (p'' & E & ?); apply app_inv_head in E; by subst|eauto]. }
      exists r. split; [done|]. destruct r as [b|[p1 d1]]; [by rewrite Hpm, Hm|].
      destruct Hr as (p0 & ts' & H1 & H2 & H3 & H4 & H5 & H6). exists p0, ts'. rewrite Hpm, Hm.
      split_and!; try done. lia.
    + eexists. split; [done|]. cbn. rewrite Hpm, literal_cons by done. split; [done|].
      intros (p' & -> & _). exfalso. apply Hr. by apply prefix_app_r.
Qed.

Definition not_wild (p : bytes) : Prop :=
  match p with c :: _ => c <> STAR /\ c <> QUESTION | [] => True end.

Lemma skip_wildcards_spec p ts : Forall (fun b => b <> 0) p -> wf ts ->
  match skip_wildcards p (flatten ts) with
  | None => ~ matches (STAR :: p) ts
  | Some (p', d') => exists ts', d' = flatten ts' /\ wf ts' /\ Forall (fun b => b <> 0) p' /\ not_wild p'
      /\ (length p' <= length p)%nat /\ (matches (STAR :: p) ts <-> matches (STAR :: p') ts')
  end.
Proof.
  revert ts. induction p as [|c p IH]; intros ts Hp Hw; cbn [skip_wildcards]; [by exists ts|].
  apply Forall_cons in Hp as [Hc Hp]. destruct (Z.eqb_spec c QUESTION) as [->|Hq].
  - destruct ts as [|t ts].
    + cbn [flatten flat_map]. rewrite char_len_nil. cbn. rewrite star_question by done.
      by intros (? & ? & ? & _).
    + apply wf_cons in Hw as [Ht Hts]. rewrite flatten_cons, wild_char_len_tok, drop_app_length by done.
      pose proof (tok_bytes_nonempty t Ht). rewrite (proj2 (Nat.eqb_neq _ _)) by lia.
      assert (Hm : matches (STAR :: QUESTION :: p) (t :: ts) <-> matches (STAR :: p) ts).
      { rewrite star_question by by apply wf_cons. naive_solver. }
      specialize (IH ts Hp Hts). destruct (skip_wildcards p (flatten ts)) as [[p' d']|]; [|by rewrite Hm].
      destruct IH as (ts' & ? & ? & ? & ? & ? & ?). exists ts'. rewrite Hm. split_and!; try done. cbn. lia.
  - destruct (Z.eqb_spec c STAR) as [->|Hs].
    + specialize (IH ts Hp Hw). pose proof (star_star p ts Hw) as Hm.
      destruct (skip_wildcards p (flatten ts)) as [[p' d']|]; [|by rewrite Hm].
      destruct IH as (ts' & ? & ? & ? & ? & ? & ?). exists ts'. rewrite Hm. split_and!; try done. cbn. lia.
    + exists ts. split_and!; done || by constructor.
Qed.

Lemma skip_backslash_spec p ts : Forall (fun b => b <> 0) p -> not_wild p -> wf ts ->
  Forall (fun b => b <> 0) (skip_backslash p) /\ (length (skip_backslash p) <= length p)%nat
  /\ (matches p ts <-> literal (skip_backslash p) ts).
Proof.
  intros Hp Hn Hw. unfold skip_backslash. destruct p as [|c p].
  { change (chr_at [] 0) with 0. split_and!; [done|done|]. by apply matches_plain. }
  change (chr_at (c :: p) 0) with c. destruct (Z.eqb_spec c BACKSLASH) as [->|Hb].
  - cbn [tail]. apply Forall_cons in Hp as [_ Hp]. split_and!; [done|cbn; lia|by apply matches_backslash].
  - split_and!; [done|done|]. apply matches_plain; [|done]. by destruct Hn.
Qed.

Section Counted.
Variable lim : Z.

(** An answer to [Q] that may give up only if the counter has reached the limit. *)
Definition answers (r : run (bool * Z)) (ctr : Z) (Q : Prop) : Prop :=
  exists b ctr', r = Ok (b, ctr') /\ ctr <= ctr' <= Z.max ctr lim
    /\ (b = true -> Q) /\ (b = false -> ctr' < lim -> ~ Q).

Lemma answers_iff r ctr Q Q' : (Q <-> Q') -> answers r ctr Q -> answers r ctr Q'.
Proof.
  intros HQ (b & c & -> & Hc & H1 & H2). exists b, c.
  split_and!; [done|lia|lia|by intros Hb; apply HQ, H1|intros Hb Hl HQ'; by apply (H2 Hb Hl), HQ].
Qed.

Lemma answers_yes ctr (Q : Prop) : Q -> answers (Ok (true, ctr)) ctr Q.
Proof. intros HQ. exists true, ctr. split_and!; done || lia. Qed.
Lemma answers_no ctr (Q : Prop) : ~ Q -> answers (Ok (false, ctr)) ctr Q.
Proof. intros HQ. exists false, ctr. split_and!; done || lia. Qed.

Lemma quick_scan_spec rest q fuel ts ctr :
  q <> [] -> Forall (fun b => b <> 0) q -> wf ts -> (length (flatten ts) < fuel)%nat ->
  (forall p' ts' ctr, Forall (fun b => b <> 0) p' -> wf ts' -> (length p' < length q)%nat ->
     answers (rest p' (flatten ts') ctr) ctr (matches p' ts')) ->
  answers (quick_scan fuel rest q (flatten ts) ctr) ctr (exists us vs, ts = us ++ vs /\ literal q vs).
Proof.
  intros Hq Hnq Hw Hf Hrest. revert ts ctr Hw Hf. induction fuel as [|fuel IH]; intros ts ctr Hw Hf; [lia|].
  cbn [quick_scan]. destruct ts as [|t ts].
  { apply answers_no. intros (us & vs & E & Hl). symmetry in E. apply app_eq_nil in E as [-> ->].
    by apply literal_nil in Hl. }
  assert (Hsplit : (exists us vs, t :: ts = us ++ vs /\ literal q vs)
    <-> literal q (t :: ts) \/ exists us vs, ts = us ++ vs /\ literal q vs).
  { split.
    - intros (us & vs & E & Hl). destruct us as [|u us]; [cbn in E; subst; by left|].
      injection E as <- ->. right. eauto.
    - intros [Hl|(us & vs & -> & Hl)]; [by exists [], (t :: ts)|by exists (t :: us), vs]. }
  pose proof Hw as Hw'. apply wf_cons in Hw' as [Ht Hts].
  destruct (lit_step q (t :: ts) Hnq Hw) as (r & Er & Hr).
  destruct (flatten (t :: ts)) as [|c d] eqn:Ef; [by apply flatten_nil_inv in Ef|].
  rewrite Er. cbn [mbind run_bind].
  assert (Hstep : drop (wild_step (c :: d)) (c :: d) = flatten ts).
  { rewrite <- Ef, flatten_cons. by apply wild_step_tok. }
  assert (Hf' : (length (flatten ts) < fuel)%nat).
  { rewrite <- Ef, flatten_cons, length_app in Hf. pose proof (tok_bytes_nonempty t Ht). lia. }
  rewrite Hstep. destruct r as [[dlen tlen]|].
  - destruct Hr as (p' & -> & -> & -> & Hl & _). cbn [mbind run_bind].
    apply Forall_app in Hnq as [_ Hnp']. destruct (Hrest p' ts ctr Hnp' Hts Hl) as (b & c1 & -> & Hc1 & Hy & Hn).
    assert (Hlit : literal (folded t ++ p') (t :: ts) <-> matches p' ts).
    { rewrite literal_cons by done. split; [intros (p'' & E & ?); apply app_inv_head in E; by subst|eauto]. }
    cbn [mbind run_bind]. destruct b.
    + exists true, c1. split_and!; [done|lia|lia| |done]. intros _. apply Hsplit. left. by apply Hlit, Hy.
    + destruct (IH ts c1 Hts Hf') as (b & c2 & -> & Hc2 & Hy2 & Hn2). exists b, c2.
      split_and!; [done|lia|lia|intros Hb; apply Hsplit; right; by apply Hy2|].
      intros Hb Hlt [Hl'|Hr']%Hsplit; [|by apply (Hn2 Hb Hlt)]. apply (Hn eq_refl); [lia|by apply Hlit].
  - cbn [mbind run_bind]. destruct (IH ts ctr Hts Hf') as (b & c2 & -> & Hc2 & Hy2 & Hn2). exists b, c2.
    split_and!; [done|lia|lia|intros Hb; apply Hsplit; right; by apply Hy2|].
    intros Hb Hlt [Hl'|Hr']%Hsplit; [|by apply (Hn2 Hb Hlt)].
    apply literal_cons in Hl' as (p' & -> & _); [|done]. apply Hr. by apply prefix_app_r.
Qed.

Lemma quick_wild_impl_spec fuel p ts ctr :
  Forall (fun b => b <> 0) p -> wf ts -> (length p < fuel)%nat ->
  answers (quick_wild_impl lim fuel p (flatten ts) ctr) ctr (matches p ts).
Proof.
  revert p ts ctr. induction fuel as [|fuel IH]; intros p ts ctr Hp Hw Hf; [lia|]. cbn [quick_wild_impl].
  destruct (Z.leb_spec lim ctr) as [Hle|Hlt].
  { exists false, ctr. split_and!; done || lia. }
  enough (H : forall r, answers r (ctr + 1) (matches p ts) -> answers r ctr (matches p ts)).
  { destruct (quick_lits_spec (S (length p)) p ts Hp Hw ltac:(lia)) as (r & -> & Hr). cbn [mbind run_bind].
    apply H. destruct r as [b|[p' d']].
    - destruct b; [apply answers_yes; by apply Hr|apply answers_no]. intros Hm. by apply Hr in Hm.
    - destruct Hr as (p0 & ts' & -> & -> & Hts' & Hp0 & Hl0 & Hm). apply (answers_iff _ _ _ _ (iff_sym Hm)).
      cbn [tail]. clear Hm H. destruct p0 as [|c0 p1]; [|set (p0 := c0 :: p1) in *].
      { apply answers_yes. apply matches_star; [done|]. exists ts', []. split; [by rewrite app_nil_r|].
        exists []. constructor. }
      pose proof (skip_wildcards_spec p0 ts' Hp0 Hts') as Hs.
      destruct (skip_wildcards p0 (flatten ts')) as [[p2 d2]|]; [|by apply answers_no].
      destruct Hs as (ts2 & -> & Hts2 & Hp2 & Hn2 & Hl2 & Hm2). apply (answers_iff _ _ _ _ (iff_sym Hm2)).
      destruct (skip_backslash_spec p2 ts2 Hp2 Hn2 Hts2) as (Hb1 & Hb2 & _).
      assert (Hlit : matches (STAR :: p2) ts2 <-> exists us vs, ts2 = us ++ vs /\ literal (skip_backslash p2) vs).
      { rewrite matches_star by done. split; intros (us & vs & -> & Hv); exists us, vs; split; try done;
          apply wf_app in Hts2 as [_ Hvs]; by apply (skip_backslash_spec p2 vs Hp2 Hn2 Hvs). }
      apply (answers_iff _ _ _ _ (iff_sym Hlit)).
      destruct (skip_backslash p2) as [|c q]; [|set (q' := c :: q) in *].
      { apply answers_yes. exists ts2, []. split; [by rewrite app_nil_r|by left]. }
      apply quick_scan_spec; [done|done|done|lia|]. intros p' ts3 ctr3 Hp' Hts3 Hl3. apply IH; [done|done|lia]. }
  intros r (b & c & -> & Hc & Hy & Hn). exists b, c. split_and!; done || lia.
Qed.

End Counted.

End QuickProofs.
