(* ===== verification/WildCap.v ===== *)
(** * What the wild cards stand for: the captures of [wild1] and [wild]

    The capturing matcher of [Wild] against [captures]: every argument gets the characters that
    its wild card stands for, and the answer is that of [matches]. *)

From S2P Require Import Prelude Machine Decimal Encoding StringUtil CaseTables CaseMap Wild.

(** ** Arguments *)

Section Args.
Variable numargs : nat.

(** The [n] arguments from [a] on have buffers; only they may have changed; they hold [cs]. *)
Definition ready (args : argv) (a n : nat) : Prop :=
  forall i, (a <= i < a + n)%nat -> (i < numargs)%nat -> exists s, args !! i = Some (Some s).
Definition touched (args args' : argv) (a n : nat) : Prop :=
  length args' = length args /\ (forall i, (i < a \/ a + n <= i)%nat -> args' !! i = args !! i)
  /\ forall i s, args !! i = Some (Some s) -> exists s', args' !! i = Some (Some s').
Definition filled (args : argv) (a : nat) (cs : list (list tok)) : Prop :=
  forall i c, cs !! i = Some c -> (a + i < numargs)%nat -> args !! (a + i)%nat = Some (Some (flatten c)).

Lemma touched_refl args a n : touched args args a n.
Proof. split_and!; eauto. Qed.

Lemma touched_weaken args args' a n a' n' :
  touched args args' a n -> (a' <= a)%nat -> (a + n <= a' + n')%nat -> touched args args' a' n'.
Proof. intros (Hl & H1 & H2) Ha Hn. split_and!; [done| |done]. intros i Hi. apply H1. lia. Qed.

Lemma touched_trans args args1 args2 a n :
  touched args args1 a n -> touched args1 args2 a n -> touched args args2 a n.
Proof.
  intros (Hl1 & H1 & H2) (Hl2 & H3 & H4). split_and!; [by rewrite Hl2| |].
  - intros i Hi. by rewrite H3, H1.
  - intros i s E. destruct (H2 i s E) as [s' E']. eauto.
Qed.

Lemma touched_join args args1 args2 a n m :
  touched args args1 a n -> touched args1 args2 (a + n) m -> touched args args2 a (n + m).
Proof.
  intros H1 H2. eapply touched_trans; [eapply touched_weaken; [exact H1|lia..]|].
  eapply touched_weaken; [exact H2|lia..].
Qed.

Lemma ready_touched args args' a n b m : ready args a n -> touched args args' b m -> ready args' a n.
Proof. intros Hr (_ & _ & Ht) i Hi Hn. destruct (Hr i Hi Hn) as [s E]. eauto. Qed.

Lemma ready_weaken args a n a' n' : ready args a n -> (a <= a')%nat -> (a' + n' <= a + n)%nat -> ready args a' n'.
Proof. intros Hr Ha Hn i Hi. apply Hr. lia. Qed.

Lemma filled_nil args a : filled args a [].
Proof. by intros i c. Qed.

Lemma filled_app args a cs cs' :
  filled args a (cs ++ cs') <-> filled args a cs /\ filled args (a + length cs) cs'.
Proof.
  split.
  - intros H. split; intros i c E Hi.
    + apply H; [by apply lookup_app_l_Some|done].
    + rewrite <- Nat.add_assoc. apply H; [|lia]. rewrite lookup_app_r by lia.
      by replace (length cs + i - length cs)%nat with i by lia.
  - intros [H1 H2] i c E Hi. apply lookup_app_Some in E as [E|[Hl E]]; [by apply H1|].
    replace (a + i)%nat with (a + length cs + (i - length cs))%nat by lia. apply H2; [done|lia].
Qed.

(** Later arguments do not matter. *)
Lemma filled_touched args args' a cs b n :
  filled args a cs -> touched args args' b n -> (a + length cs <= b)%nat -> filled args' a cs.
Proof.
  intros Hf (_ & Ht & _) Hb i c E Hi. rewrite Ht; [by apply Hf|]. apply lookup_lt_Some in E. lia.
Qed.

(** Nor do earlier ones. *)
Lemma filled_touched_before args args' a cs b n :
  filled args a cs -> touched args args' b n -> (b + n <= a)%nat -> filled args' a cs.
Proof. intros Hf (_ & Ht & _) Hb i c E Hi. rewrite Ht; [by apply Hf|lia]. Qed.

(** When the arguments have run out, nothing is left to fill. *)
Lemma filled_full args a cs : (numargs <= a)%nat -> filled args a cs.
Proof. intros H i c _ Hi. lia. Qed.

Lemma put_spec args a n s : ready args a (S n) -> (a < numargs)%nat ->
  exists args', put args a s = Ok args' /\ touched args args' a 1 /\ args' !! a = Some (Some s).
Proof.
  intros Hr Ha. destruct (Hr a ltac:(lia) Ha) as [s0 E]. unfold put. rewrite E. eexists. split; [done|].
  pose proof (lookup_lt_Some _ _ _ E) as Hl. split_and!; [split_and!|].
  - apply length_insert.
  - intros i Hi. rewrite list_lookup_insert_ne by lia. done.
  - intros i s1 Ei. destruct (decide (i = a)) as [->|Hne]; [rewrite list_lookup_insert_eq by done; eauto|].
    rewrite list_lookup_insert_ne by done. eauto.
  - by apply list_lookup_insert_eq.
Qed.

Lemma put_filled args' a s c : args' !! a = Some (Some s) -> s = flatten c -> filled args' a [c].
Proof.
  intros E -> i c' Ec Hi. destruct i as [|i]; [|done]. cbn in Ec. simplify_eq. by rewrite Nat.add_0_r.
Qed.

End Args.

(** ** Counting the wild cards of a pattern *)

Definition is_wild (c : Z) : bool := (c =? QUESTION) || (c =? STAR).

Fixpoint wildcards (p : bytes) : nat :=
  match p with
  | [] => O
  | c :: p' =>
      if c =? BACKSLASH then match p' with [] => O | _ :: p'' => wildcards p'' end
      else if is_wild c then S (wildcards p')
      else wildcards p'
  end.

Section Counting.
Context {HC : Config} {HT : CaseTable} {HF : FoldLaws}.

Lemma wildcards_plain q p : Forall (fun c => c <> STAR /\ c <> QUESTION /\ c <> BACKSLASH) q ->
  wildcards (q ++ p) = wildcards p.
Proof.
  induction 1 as [|c q (H1 & H2 & H3) _ IH]; [done|]. cbn [app wildcards]. unfold is_wild.
  rewrite (proj2 (Z.eqb_neq _ _) H1), (proj2 (Z.eqb_neq _ _) H2), (proj2 (Z.eqb_neq _ _) H3). exact IH.
Qed.

(** The bytes of a folded character, but the first one, are no wild cards. *)
Lemma folded_tail t : wf_tok t = true ->
  exists c q, folded t = c :: q /\ Forall (fun c => c <> STAR /\ c <> QUESTION /\ c <> BACKSLASH) q
    /\ (special t = false -> c <> STAR /\ c <> QUESTION /\ c <> BACKSLASH).
Proof.
  intros Hw. destruct (fold_bytes t Hw) as (Hne & _ & Hs).
  destruct (folded t) as [|c q] eqn:E; [done|]. exists c, q. split_and!; [done| |].
  - destruct (tok_cases t Hw) as [(b & -> & Hb)|(Hl & _)].
    + unfold folded in E. cbn [tok_bytes] in E. rewrite fold_ascii in E by done. by simplify_eq.
    + pose proof (fold_plain t Hw Hl) as H. fold (folded t) in H. rewrite E in H.
      rewrite forallb_forall in H. apply Forall_forall. intros x Hx. specialize (H x).
      apply list_elem_of_In in Hx. specialize (H (in_cons _ _ _ Hx)). apply orb_prop in H.
      unfold STAR, QUESTION, BACKSLASH. split_and!; intros ->; by destruct H.
  - intros Hsp. destruct (Hs Hsp) as (c' & q' & Ecq & H). by simplify_eq.
Qed.

Lemma wildcards_literal t p : wf_tok t = true -> special t = false -> wildcards (folded t ++ p) = wildcards p.
Proof.
  intros Hw Hs. destruct (folded_tail t Hw) as (c & q & -> & Hq & Hc). apply wildcards_plain.
  constructor; [by apply Hc|done].
Qed.

Lemma wildcards_escaped t p : wf_tok t = true -> wildcards (BACKSLASH :: folded t ++ p) = wildcards p.
Proof.
  intros Hw. destruct (folded_tail t Hw) as (c & q & -> & Hq & _). cbn [app wildcards].
  change (BACKSLASH =? BACKSLASH) with true. by apply wildcards_plain.
Qed.

(** What a plain or an escaped literal matches, with its captures. *)
Definition lit_captures (q : bytes) (ts : list tok) (cs : list (list tok)) : Prop :=
  (q = [] /\ ts = [] /\ cs = []) \/ exists t p' ts', q = folded t ++ p' /\ ts = t :: ts' /\ captures p' ts' cs.

(** Removing the backslash of a literal. *)
Lemma skip_backslash_captures p : Forall (fun b => b <> 0) p -> not_wild p ->
  Forall (fun b => b <> 0) (skip_backslash p) /\ (length (skip_backslash p) <= length p)%nat
  /\ (forall ts cs, wf ts -> lit_captures (skip_backslash p) ts cs -> captures p ts cs)
  /\ (forall ts, wf ts -> matches p ts <-> literal (skip_backslash p) ts)
  /\ (forall t p', wf_tok t = true -> skip_backslash p = folded t ++ p' -> wildcards p' = wildcards p).
Proof.
  intros Hp Hn. destruct (skip_backslash_spec p [] Hp Hn ltac:(constructor)) as (H1 & H2 & _).
  split_and!; [done|done| |by intros ts Hw; apply skip_backslash_spec|].
  - intros ts cs Hw. unfold skip_backslash. destruct p as [|c p].
    { change (chr_at [] 0) with 0. intros [(_ & -> & ->)|(t & p' & ts' & E & -> & _)]; [constructor|].
      apply wf_cons in Hw as [Ht _]. symmetry in E. by apply folded_not_nil in E. }
    change (chr_at (c :: p) 0) with c. destruct (Z.eqb_spec c BACKSLASH) as [->|Hb]; cbn [tail].
    + intros [(-> & -> & ->)|(t & p' & ts' & -> & -> & Hc)]; by constructor.
    + intros [(E & _)|(t & p' & ts' & E & -> & Hc)]; [done|]. rewrite E. apply wf_cons in Hw as [Ht _].
      constructor; [|done]. destruct (special t) eqn:Es; [|done]. exfalso. apply (special_folded t Ht Es).
      intros p0. destruct (fold_bytes t Ht) as (Hne & _). destruct Hn as [Hs Hq].
      destruct (folded t); [done|]. by injection E as -> _.
  - intros t p' Ht E. unfold skip_backslash in E. destruct p as [|c p].
    { symmetry in E. by apply folded_not_nil in E. }
    change (chr_at (c :: p) 0) with c in E. destruct (Z.eqb_spec c BACKSLASH) as [->|Hb]; cbn [tail] in E.
    + rewrite E. symmetry. by apply wildcards_escaped.
    + rewrite E. symmetry. apply wildcards_literal; [done|]. destruct (special t) eqn:Es; [|done].
      exfalso. apply (special_folded t Ht Es). intros p0. destruct (fold_bytes t Ht) as (Hne & _).
      destruct Hn as [Hs Hq]. destruct (folded t); [done|]. by injection E as -> _.
Qed.

End Counting.

Section Wild1.
Context {HC : Config} {HT : CaseTable} {HF : FoldLaws}.
Variables (lim : Z) (numargs : nat).
Abbreviation filled := (filled numargs).
Abbreviation ready := (ready numargs).

(** ** The loop up to the first star *)

(** The end of the loop: [cs] is what the wild cards before it stand for. *)
Definition lits_post (p : bytes) (ts : list tok) (arg : nat) (args : argv) (r : lits_end) : Prop :=
  match r with
  | LReturn b args' => touched args args' arg (wildcards p)
      /\ (b = true -> exists cs, captures p ts cs /\ filled args' arg cs) /\ (b = false -> ~ matches p ts)
  | LQuick p' d' args' => exists ts' cs, d' = flatten ts' /\ Forall (fun b => b <> 0) p' /\ wf ts'
      /\ touched args args' arg (wildcards p) /\ filled args' arg cs /\ (numargs <= arg + length cs)%nat
      /\ (forall cs', captures p' ts' cs' -> captures p ts (cs ++ cs')) /\ (matches p ts -> matches p' ts')
  | LStar p' d' arg' args' => exists p0 ts' cs, p' = STAR :: p0 /\ d' = flatten ts'
      /\ Forall (fun b => b <> 0) p0 /\ wf ts' /\ (length p0 < length p)%nat
      /\ arg' = (arg + length cs)%nat /\ (arg' < numargs)%nat
      /\ wildcards p = (length cs + wildcards p')%nat
      /\ touched args args' arg (length cs) /\ filled args' arg cs
      /\ (forall cs', captures p' ts' cs' -> captures p ts (cs ++ cs')) /\ (matches p ts -> matches p' ts')
      /\ (length (flatten ts') <= length (flatten ts))%nat
  end.

(** One step of the loop, which captured [cs1], and the rest of it. *)
Lemma lits_post_step p ts arg args cs1 p' ts' args1 r :
  (forall cs, captures p' ts' cs -> captures p ts (cs1 ++ cs)) -> (matches p ts -> matches p' ts') ->
  wildcards p = (length cs1 + wildcards p')%nat -> (length p' <= length p)%nat ->
  (length (flatten ts') <= length (flatten ts))%nat ->
  touched args args1 arg (length cs1) -> filled args1 arg cs1 ->
  lits_post p' ts' (arg + length cs1) args1 r -> lits_post p ts arg args r.
Proof.
  intros Hc Hm Hwc Hl Hd Ht Hf. destruct r as [b args'|p2 d2 args'|p2 d2 arg2 args']; cbn [lits_post].
  - intros (Ht' & Hy & Hn). split_and!.
    + rewrite Hwc. by eapply touched_join.
    + intros Hb. destruct (Hy Hb) as (cs & Hcs & Hfs). exists (cs1 ++ cs). split; [by apply Hc|].
      apply filled_app. split; [|done]. by eapply filled_touched.
    + intros Hb Hm'. by apply (Hn Hb), Hm.
  - intros (ts2 & cs & -> & Hp2 & Hw2 & Ht' & Hfs & Hnum & Hc2 & Hm2). exists ts2, (cs1 ++ cs).
    rewrite length_app. split_and!; try done || lia; [rewrite Hwc; by eapply touched_join| | |by auto].
    + apply filled_app. split; [|done]. by eapply filled_touched.
    + intros cs' H'. rewrite <- app_assoc. by apply Hc, Hc2.
  - intros (p0 & ts2 & cs & -> & -> & Hp0 & Hw2 & Hl2 & -> & Hnum & Hwc2 & Ht' & Hfs & Hc2 & Hm2 & Hd2).
    exists p0, ts2, (cs1 ++ cs). rewrite length_app.
    split_and!; try done || lia; [by eapply touched_join| | |by auto].
    + apply filled_app. split; [|done]. by eapply filled_touched.
    + intros cs' H'. rewrite <- app_assoc. by apply Hc, Hc2.
Qed.

Lemma wild1_lits_spec fuel p ts arg args :
  Forall (fun b => b <> 0) p -> wf ts -> (length p < fuel)%nat -> (arg < numargs)%nat ->
  ready args arg (wildcards p) ->
  exists r, wild1_lits numargs fuel p (flatten ts) arg args = Ok r /\ lits_post p ts arg args r.
Proof.
  revert p ts arg args. induction fuel as [|fuel IH]; intros p ts arg args Hp Hw Hf Ha Hr; [lia|].
  cbn [wild1_lits]. destruct (Z.eqb_spec (chr_at p 0) STAR) as [E|Hstar].
  { destruct p as [|c p]; [done|]. change (chr_at (c :: p) 0) with c in E. subst c.
    apply Forall_cons in Hp as [_ Hp]. eexists. split; [done|]. exists p, ts, [].
    cbn [length]. split_and!; try done || lia; apply touched_refl || apply filled_nil. }
  destruct (Z.eqb_spec (chr_at p 0) QUESTION) as [E|Hquest].
  { destruct p as [|c p]; [done|]. change (chr_at (c :: p) 0) with c in E. subst c. cbn [tail].
    apply Forall_cons in Hp as [_ Hp]. destruct ts as [|t ts].
    - cbn [flatten flat_map]. rewrite char_len_nil. eexists. split; [done|]. cbn.
      split_and!; [apply touched_refl|done|]. intros _ Hm.
      by apply matches_question in Hm as (? & ? & ? & _).
    - pose proof Hw as Hw'. apply wf_cons in Hw' as [Ht Hts].
      rewrite flatten_cons, wild_char_len_tok, drop_app_length, take_app_length by done.
      pose proof (tok_bytes_nonempty t Ht). rewrite (proj2 (Nat.eqb_neq _ _)) by lia.
      assert (Hwq1 : wildcards (QUESTION :: p) = S (wildcards p)) by done. rewrite Hwq1 in Hr.
      destruct (put_spec numargs args arg (wildcards p) (tok_bytes t) Hr Ha) as (args1 & -> & Ht1 & E1).
      cbn [mbind run_bind].
      assert (Hf1 : filled args1 arg [[t]]).
      { eapply put_filled; [exact E1|]. cbn. by rewrite app_nil_r. }
      assert (Hcap : forall cs, captures p ts cs -> captures (QUESTION :: p) (t :: ts) ([[t]] ++ cs)) by by constructor.
      assert (Hm : matches (QUESTION :: p) (t :: ts) -> matches p ts).
      { intros Hm. apply matches_question in Hm as (t' & ts' & E & Hm); [|done]. by simplify_eq. }
      destruct (Nat.leb_spec numargs (S arg)).
      + eexists. split; [done|]. exists ts, [[t]]. cbn [length].
        split_and!; try done || lia. rewrite Hwq1. eapply touched_weaken; [exact Ht1|lia|lia].
      + destruct (IH p ts (S arg) args1 Hp Hts) as (r & Er & Hpost); [cbn in Hf; lia|done| |].
        { eapply ready_weaken; [eapply ready_touched; [exact Hr|exact Ht1]|lia|lia]. }
        exists r. split; [done|]. eapply (lits_post_step _ _ _ _ [[t]] p ts args1); try done; [cbn; lia|rewrite flatten_cons, length_app; lia|].
        cbn [length]. by rewrite Nat.add_1_r. }
  assert (Hn : not_wild p).
  { destruct p as [|c p]; [done|]. split; done. }
  destruct (skip_backslash_captures p Hp Hn) as (Hnq & Hlq & Hcq & Hmq & Hwq).
  set (q := skip_backslash p) in *. destruct (lit_step q ts Hnq Hw) as (r & -> & Hr'). cbn [mbind run_bind].
  destruct ts as [|t ts].
  - destruct r as [[dlen tlen]|]; eexists; (split; [done|]); cbn; (split; [apply touched_refl|]).
    + split; [|done]. intros _. exists []. split; [|apply filled_nil]. apply Hcq; [done|]. by left.
    + split; [done|]. intros _ Hm. apply Hmq in Hm; [|done]. by apply literal_nil in Hm.
  - pose proof Hw as Hw'. apply wf_cons in Hw' as [Ht Hts]. destruct r as [[dlen tlen]|].
    + destruct Hr' as (p' & Eq & -> & Ed & Hl & Hne). destruct (flatten (t :: ts)) as [|c d] eqn:Ef; [done|].
      rewrite Ed. cbn [mbind run_bind]. pose proof (Hwq t p' Ht Eq) as Hwc.
      assert (Hnp' : Forall (fun b => b <> 0) p') by (rewrite Eq in Hnq; by apply Forall_app in Hnq as [_ ?]).
      destruct (IH p' ts arg args Hnp' Hts) as (r & Er & Hpost); [lia|done|by rewrite Hwc|].
      exists r. split; [done|]. eapply (lits_post_step _ _ _ _ [] p' ts args).
      * intros cs Hc. apply Hcq; [done|]. right. by exists t, p', ts.
      * intros Hm. apply Hmq in Hm; [|done]. rewrite Eq in Hm. apply literal_cons in Hm as (p'' & E & Hm); [|done].
        apply app_inv_head in E. by subst.
      * done.
      * lia.
      * rewrite flatten_cons, length_app. lia.
      * apply touched_refl.
      * apply filled_nil.
      * cbn [length]. by rewrite Nat.add_0_r.
    + eexists. split; [done|]. cbn. split_and!; [apply touched_refl|done|]. intros _ Hm.
      apply Hmq in Hm; [|done]. apply literal_cons in Hm as (p' & E & _); [|done]. apply Hr'. rewrite E.
      by apply prefix_app_r.
Qed.

(** ** The stars *)

Abbreviation single := (map (fun t : tok => [t])).
Abbreviation questions ys := (replicate (length ys) QUESTION).

Lemma capture_char_tok t rest : wf_tok t = true ->
  wild_capture_char (tok_bytes t ++ rest) = Ok (tok_bytes t, rest).
Proof.
  intros Hw. destruct (tok_lead t Hw) as (c & q & Et & _ & Hf & Hl & _). unfold wild_capture_char.
  assert (Ec : chr_at (tok_bytes t ++ rest) 0 = c) by (by rewrite Et). rewrite Ec, Hf.
  replace (UTF8_CONTINUE <=? _) with false by (symmetry; apply Z.leb_gt; unfold UTF8_CONTINUE; lia).
  rewrite Nat2Z.id. replace (S (length q)) with (length (tok_bytes t)) by (by rewrite Et).
  rewrite read_bytes_take by (rewrite length_app; lia). rewrite take_app_length. cbn [mbind run_bind].
  unfold advance. rewrite (proj2 (Nat.leb_le _ _)) by (rewrite length_app; lia). by rewrite drop_app_length.
Qed.

Lemma fill_chars_spec xs ts argpos args : wf xs -> (argpos < numargs)%nat -> ready args argpos (length xs) ->
  exists full argpos' d' args',
    fill_chars numargs (length xs) argpos (flatten (xs ++ ts)) args = Ok (full, argpos', d', args')
    /\ touched args args' argpos (length xs) /\ filled args' argpos (single xs)
    /\ (full = false -> argpos' = (argpos + length xs)%nat /\ d' = flatten ts /\ (argpos' < numargs)%nat)
    /\ (full = true -> (numargs <= argpos + length xs)%nat).
Proof.
  revert argpos args. induction xs as [|x xs IH]; intros argpos args Hw Ha Hr; cbn [length fill_chars].
  { eexists _, _, _, _. split; [done|]. split; [apply touched_refl|]. split; [apply filled_nil|].
    split; [|done]. intros _. split_and!; [lia|done|done]. }
  cbn [length] in Hr. apply wf_cons in Hw as [Hx Hxs]. change (flatten ((x :: xs) ++ ts)) with (tok_bytes x ++ flatten (xs ++ ts)).
  rewrite capture_char_tok by done. cbn [mbind run_bind].
  destruct (put_spec numargs args argpos (length xs) (tok_bytes x) Hr Ha) as (args1 & -> & Ht1 & E1).
  cbn [mbind run_bind].
  assert (Hf1 : filled args1 argpos [[x]]) by (eapply put_filled; [exact E1|]; cbn; by rewrite app_nil_r).
  destruct (Nat.leb_spec numargs (S argpos)).
  - eexists _, _, _, _. split; [done|]. split_and!; [|  |done|lia].
    + eapply touched_weaken; [exact Ht1|lia|lia].
    + change (single (x :: xs)) with ([[x]] ++ single xs). apply filled_app. split; [done|].
      apply filled_full. cbn [length]. lia.
  - destruct (IH (S argpos) args1 Hxs) as (full & argpos' & d' & args' & -> & Ht & Hf & Hno & Hyes); [lia| |].
    { eapply ready_weaken; [eapply ready_touched; [exact Hr|exact Ht1]|lia|lia]. }
    eexists _, _, _, _. split; [done|]. split_and!.
    + replace (S (length xs)) with (1 + length xs)%nat by lia. eapply touched_join; [exact Ht1|].
      by rewrite Nat.add_1_r.
    + change (single (x :: xs)) with ([[x]] ++ single xs). apply filled_app. cbn [length].
      rewrite Nat.add_1_r. split; [|done]. eapply filled_touched; [exact Hf1|exact Ht|cbn; lia].
    + intros Hfull. destruct (Hno Hfull) as (-> & -> & ?). split_and!; [lia|done|lia].
    + intros Hfull. specialize (Hyes Hfull). lia.
Qed.

Lemma wildcards_questions k p : wildcards (replicate k QUESTION ++ p) = (k + wildcards p)%nat.
Proof.
  induction k as [|k IH]; [done|]. cbn [replicate app].
  change (wildcards (QUESTION :: ?l)) with (S (wildcards l)). by rewrite IH.
Qed.
Lemma wildcards_star p : wildcards (STAR :: p) = S (wildcards p).
Proof. done. Qed.

Lemma star_questions ys p ts : wf (ys ++ ts) ->
  matches (STAR :: questions ys ++ p) (ys ++ ts) <-> matches (STAR :: p) ts.
Proof.
  induction ys as [|y ys IH]; intros Hw; [done|]. cbn [length replicate app] in *.
  rewrite star_question by done. apply wf_cons in Hw as [Hy Hw]. rewrite <- IH by done. naive_solver.
Qed.

Lemma captures_questions ys p ts cs : captures p ts cs -> captures (questions ys ++ p) (ys ++ ts) (single ys ++ cs).
Proof. intros Hc. induction ys as [|y ys IH]; [done|]. cbn. by constructor. Qed.

(** A star and question marks that take as little as they can. *)
Lemma captures_group ys p ts cs : captures p ts cs ->
  captures (STAR :: questions ys ++ p) (ys ++ ts) (([] :: single ys) ++ cs).
Proof. intros Hc. apply (cap_star []). by apply captures_questions. Qed.

Lemma skip_questions_spec p ts arg k : Forall (fun b => b <> 0) p -> wf ts ->
  match skip_questions p (flatten ts) arg k with
  | None => ~ matches (STAR :: p) ts
  | Some (p', d', arg', k') => exists ys ts', ts = ys ++ ts' /\ d' = flatten ts' /\ p = questions ys ++ p'
      /\ k' = (k + length ys)%nat /\ arg' = (arg + length ys)%nat /\ chr_at p' 0 <> QUESTION
  end.
Proof.
  revert ts arg k. induction p as [|c p IH]; intros ts arg k Hp Hw; cbn [skip_questions].
  { exists [], ts. cbn. split_and!; done || lia. }
  apply Forall_cons in Hp as [Hc Hp]. destruct (Z.eqb_spec c QUESTION) as [->|Hq].
  - destruct ts as [|t ts].
    + cbn [flatten flat_map]. rewrite char_len_nil. cbn. rewrite star_question by done. by intros (? & ? & ? & _).
    + pose proof Hw as Hw'. apply wf_cons in Hw' as [Ht Hts].
      rewrite flatten_cons, wild_char_len_tok, drop_app_length by done.
      pose proof (tok_bytes_nonempty t Ht). rewrite (proj2 (Nat.eqb_neq _ _)) by lia.
      specialize (IH ts (S arg) (S k) Hp Hts). destruct (skip_questions p _ _ _) as [[[[p' d'] arg'] k']|].
      * destruct IH as (ys & ts' & -> & -> & -> & -> & -> & Hne). exists (t :: ys), ts'. cbn [length replicate app].
        split_and!; done || lia.
      * intros Hm. apply IH. apply star_question in Hm as (t' & ts' & E & Hm); [|done]. by simplify_eq.
  - exists [], ts. cbn [length replicate app]. split_and!; done || lia.
Qed.

Definition stars_post (p : bytes) (zs : list tok) (argpos : nat) (args : argv) (r : stars_end) : Prop :=
  match r with
  | SFail args' => touched args args' argpos (wildcards p) /\ ~ matches p zs
  | SQuick p' d' args' => exists ts' cs, d' = flatten ts' /\ Forall (fun b => b <> 0) p' /\ wf ts'
      /\ touched args args' argpos (wildcards p) /\ filled args' argpos cs /\ (numargs <= argpos + length cs)%nat
      /\ (forall cs', captures p' ts' cs' -> captures p zs (cs ++ cs')) /\ (matches p zs -> matches p' ts')
  | SAnchor p' d' datapos' argpos' arg' numextra args' => exists ts' ys cs,
      d' = flatten ts' /\ datapos' = flatten (ys ++ ts') /\ length ys = numextra
      /\ Forall (fun b => b <> 0) p' /\ wf (ys ++ ts') /\ not_wild p' /\ (length p' < length p)%nat
      /\ argpos' = (argpos + length cs)%nat /\ arg' = (argpos' + 1 + numextra)%nat /\ (argpos' < numargs)%nat
      /\ wildcards p = (length cs + 1 + numextra + wildcards p')%nat
      /\ touched args args' argpos (length cs) /\ filled args' argpos cs
      /\ (forall cs', captures (STAR :: questions ys ++ p') (ys ++ ts') cs' -> captures p zs (cs ++ cs'))
      /\ (matches p zs -> matches (STAR :: p') ts') /\ (length (flatten ts') <= length (flatten zs))%nat
  end.

Lemma stars_post_step p zs argpos args cs1 p' ts' args1 r :
  (forall cs, captures p' ts' cs -> captures p zs (cs1 ++ cs)) -> (matches p zs -> matches p' ts') ->
  wildcards p = (length cs1 + wildcards p')%nat -> (length p' <= length p)%nat ->
  (length (flatten ts') <= length (flatten zs))%nat ->
  touched args args1 argpos (length cs1) -> filled args1 argpos cs1 ->
  stars_post p' ts' (argpos + length cs1) args1 r -> stars_post p zs argpos args r.
Proof.
  intros Hc Hm Hwc Hl Hd Ht Hf.
  destruct r as [args'|p2 d2 args'|p2 d2 datapos2 argpos2 arg2 k args']; cbn [stars_post].
  - intros (Ht' & Hn). split; [rewrite Hwc; by eapply touched_join|]. auto.
  - intros (ts2 & cs & -> & Hp2 & Hw2 & Ht' & Hfs & Hnum & Hc2 & Hm2). exists ts2, (cs1 ++ cs).
    rewrite length_app. split_and!; try done || lia; [rewrite Hwc; by eapply touched_join| | |by auto].
    + apply filled_app. split; [|done]. by eapply filled_touched.
    + intros cs' H'. rewrite <- app_assoc. by apply Hc, Hc2.
  - intros (ts2 & ys & cs & -> & -> & <- & Hp2 & Hw2 & Hn2 & Hl2 & -> & -> & Hnum & Hwc2 & Ht' & Hfs & Hc2 & Hm2 & Hd2).
    exists ts2, ys, (cs1 ++ cs). rewrite length_app.
    split_and!; try done || lia; [by eapply touched_join| | |by auto].
    + apply filled_app. split; [|done]. by eapply filled_touched.
    + intros cs' H'. rewrite <- app_assoc. by apply Hc, Hc2.
Qed.

(** What was read before a star that is still to be filled in: nothing, or the characters of the
    question marks after another star. *)
Definition pending (p p0 : bytes) (zs ts : list tok) (argpos arg : nat) (datapos : bytes) : Prop :=
  (argpos = arg /\ datapos = flatten ts /\ p = STAR :: p0 /\ zs = ts)
  \/ exists ys, arg = (argpos + 1 + length ys)%nat /\ datapos = flatten (ys ++ ts)
       /\ p = STAR :: questions ys ++ STAR :: p0 /\ zs = ys ++ ts.

Lemma wild1_stars_spec fuel p p0 zs ts argpos arg datapos args :
  pending p p0 zs ts argpos arg datapos ->
  Forall (fun b => b <> 0) p0 -> wf zs -> (length p0 < fuel)%nat -> (argpos < numargs)%nat ->
  ready args argpos (wildcards p) ->
  exists r, wild1_stars numargs fuel (STAR :: p0) (flatten ts) datapos argpos arg args = Ok r
    /\ stars_post p zs argpos args r.
Proof.
  revert p p0 zs ts argpos arg datapos args.
  induction fuel as [|fuel IH]; intros p p0 zs ts argpos arg datapos args Hpend Hp Hw Hf Ha Hr; [lia|].
  cbn [wild1_stars tail].
  (* The question marks after the star, and what comes after them. *)
  assert (Hskip : forall arg args, wf ts -> (arg < numargs)%nat -> ready args arg (wildcards (STAR :: p0)) ->
    exists r, match skip_questions p0 (flatten ts) (S arg) 0 with
              | None => Ok (SFail args)
              | Some (tstr, dstr, arg', numextra) =>
                  if chr_at tstr 0 =? STAR then wild1_stars numargs fuel tstr dstr (flatten ts) arg arg' args
                  else Ok (SAnchor tstr dstr (flatten ts) arg arg' numextra args)
              end = Ok r /\ stars_post (STAR :: p0) ts arg args r).
  { clear Hpend Hw Ha Hr p zs arg args argpos datapos. intros arg args Hw Ha Hr. pose proof (skip_questions_spec p0 ts (S arg) 0 Hp Hw) as Hs.
    destruct (skip_questions p0 (flatten ts) (S arg) 0) as [[[[p' d'] arg'] k']|].
    2:{ eexists. split; [done|]. split; [apply touched_refl|done]. }
    destruct Hs as (ys & ts' & -> & -> & -> & -> & -> & Hq). cbn [Nat.add].
    apply Forall_app in Hp as [_ Hp']. rewrite length_app, length_replicate in Hf.
    destruct (Z.eqb_spec (chr_at p' 0) STAR) as [E|Hstar].
    - destruct p' as [|c p']; [done|]. change (chr_at (c :: p') 0) with c in E. subst c. cbn [length] in Hf.
      apply Forall_cons in Hp' as [_ Hp']. apply IH; [|done|done|lia|done|done].
      right. exists ys. split_and!; done || lia.
    - eexists. split; [done|]. exists ts', ys, []. cbn [length app].
      rewrite length_app, length_replicate, !wildcards_star, wildcards_questions.
      split_and!; try done || lia; try apply touched_refl; try apply filled_nil.
      + destruct p' as [|c p']; [done|]. by split.
      + intros Hm. by apply star_questions in Hm.
      + rewrite flatten_app, length_app. lia. }
  destruct Hpend as [(-> & -> & -> & ->)|(ys & -> & -> & -> & ->)].
  { rewrite Nat.ltb_irrefl. cbn [mbind run_bind]. by apply Hskip. }
  replace (argpos <? argpos + 1 + length ys)%nat with true by (symmetry; apply Nat.ltb_lt; lia).
  rewrite wildcards_star, wildcards_questions, wildcards_star in Hr.
  pose proof Hw as Hw'. apply wf_app in Hw' as [Hys Hts].
  destruct (put_spec numargs args argpos _ [] Hr Ha) as (args1 & -> & Ht1 & E1). cbn [mbind run_bind].
  assert (Hf1 : filled args1 argpos [[]]) by (by eapply put_filled).
  assert (Hr1 : ready args1 argpos (S (length ys + S (wildcards p0)))) by (by eapply ready_touched).
  assert (Hcap : forall cs, captures (STAR :: p0) ts cs ->
    captures (STAR :: questions ys ++ STAR :: p0) (ys ++ ts) (([] :: single ys) ++ cs)) by (intros; by apply captures_group).
  assert (Hm : matches (STAR :: questions ys ++ STAR :: p0) (ys ++ ts) -> matches (STAR :: p0) ts).
  { intros Hm. apply star_questions in Hm; [|done]. by apply star_star. }
  assert (Hlen : length ([] :: single ys) = (1 + length ys)%nat) by (cbn; by rewrite length_map).
  assert (Hquick : forall args', touched args args' argpos (1 + length ys) ->
    filled args' argpos ([] :: single ys) -> (numargs <= argpos + (1 + length ys))%nat ->
    stars_post (STAR :: questions ys ++ STAR :: p0) (ys ++ ts) argpos args (SQuick (STAR :: p0) (flatten ts) args')).
  { intros args' Ht' Hf' Hnum. exists ts, ([] :: single ys). rewrite Hlen.
    split_and!; try done; [by constructor|]. eapply touched_weaken; [exact Ht'|lia|].
    rewrite wildcards_star, wildcards_questions, wildcards_star. lia. }
  destruct (Nat.leb_spec numargs (S argpos)) as [Hfull|Hmore].
  { cbn [mbind run_bind]. eexists. split; [done|]. apply Hquick; [eapply touched_weaken; [exact Ht1|lia..]| |lia].
    apply (filled_app _ _ _ [[]]). split; [done|]. apply filled_full. cbn [length]. lia. }
  replace (argpos + 1 + length ys - S argpos)%nat with (length ys) by lia.
  destruct (fill_chars_spec ys ts (S argpos) args1 Hys Hmore) as (full & argpos' & d' & args2 & -> & Ht2 & Hf2 & Hno & Hyes).
  { eapply ready_weaken; [exact Hr1|lia|lia]. }
  cbn [mbind run_bind].
  assert (Htouch : touched args args2 argpos (1 + length ys)).
  { eapply touched_join; [exact Ht1|]. by rewrite Nat.add_1_r. }
  assert (Hfill : filled args2 argpos ([] :: single ys)).
  { apply (filled_app _ _ _ [[]]). cbn [length]. rewrite Nat.add_1_r. split; [|done].
    eapply filled_touched; [exact Hf1|exact Ht2|cbn; lia]. }
  destruct full.
  - eexists. split; [done|]. apply Hquick; [done|done|]. specialize (Hyes eq_refl). lia.
  - destruct (Hno eq_refl) as (-> & -> & Hnum).
    replace (argpos + 1 + length ys)%nat with (S argpos + length ys)%nat by lia.
    destruct (Hskip (S argpos + length ys)%nat args2 Hts Hnum) as (r & Er & Hpost).
    { eapply ready_weaken; [eapply ready_touched; [exact Hr1|exact Ht2]|lia|rewrite wildcards_star; lia]. }
    exists r. split; [exact Er|].
    eapply (stars_post_step _ _ _ _ ([] :: single ys) (STAR :: p0) ts args2); rewrite ?Hlen; try done.
    + rewrite !wildcards_star, wildcards_questions, wildcards_star. lia.
    + cbn [length]. rewrite length_app. cbn [length]. lia.
    + rewrite flatten_app, length_app. lia.
    + by replace (argpos + (1 + length ys))%nat with (S argpos + length ys)%nat by lia.
Qed.

(** ** The literal after the stars *)

(** Stepping back over characters. *)
Lemma trim_start_char c q rest k : utf8_FirstByte c <> UTF8_CONTINUE ->
  Forall (fun b => cont b = true) q -> (k <= length q)%nat ->
  trim_start (c :: q ++ rest) k = O.
Proof.
  intros Hc Hq. induction k as [|k IH]; intros Hk; [done|]. cbn [trim_start].
  assert (E : utf8_FirstByte (chr_at (c :: q ++ rest) (S k)) = UTF8_CONTINUE).
  { unfold chr_at. cbn. rewrite app_nth1 by lia. rewrite Forall_forall in Hq.
    apply cont_FirstByte, Hq, list_elem_of_In, nth_In. lia. }
  rewrite E. change (UTF8_CONTINUE =? UTF8_CONTINUE) with true. apply IH. lia.
Qed.

Lemma step_back_tok t a rest : wf_tok t = true ->
  wild_step_back 1 (a ++ tok_bytes t ++ rest) (length (a ++ tok_bytes t)) = length a.
Proof.
  intros Hw. destruct (tok_lead t Hw) as (c & q & Et & _ & Hf & Hl & Hq). rewrite Et, length_app.
  cbn [length]. rewrite Nat.add_succ_r. cbn [wild_step_back app].
  assert (Hne : utf8_FirstByte c <> UTF8_CONTINUE) by (rewrite Hf; unfold UTF8_CONTINUE; lia).
  pose proof (trim_start_char c q rest (length q) Hne Hq ltac:(lia)) as E.
  rewrite trim_start_app; rewrite E; [lia|done].
Qed.

Lemma step_back_succ n seg i : wild_step_back (S n) seg i = wild_step_back n seg (wild_step_back 1 seg i).
Proof. destruct i; [by destruct n|]. by cbn; destruct (trim_start seg i), n. Qed.

Lemma step_back_spec us bs rest : wf bs ->
  wild_step_back (length bs) (flatten (us ++ bs) ++ rest) (length (flatten (us ++ bs))) = length (flatten us).
Proof.
  revert rest. induction bs as [|b bs IH] using rev_ind; intros rest Hw.
  { rewrite app_nil_r. cbn. by destruct (length (flatten us)). }
  apply wf_app in Hw as [Hbs Hb]. apply wf_cons in Hb as [Hb _].
  rewrite length_app. cbn [length]. rewrite Nat.add_1_r, step_back_succ.
  assert (E : flatten (us ++ bs ++ [b]) = flatten (us ++ bs) ++ tok_bytes b).
  { rewrite app_assoc, flatten_app. cbn. by rewrite app_nil_r. }
  rewrite E, <- app_assoc, step_back_tok by done. by apply IH.
Qed.

Lemma wild1_fill_spec us bs vs argpos args : wf bs -> (argpos < numargs)%nat ->
  ready args argpos (S (length bs)) ->
  exists args', wild1_fill numargs (flatten vs) (flatten ((us ++ bs) ++ vs)) argpos (length bs) args = Ok args'
    /\ touched args args' argpos (S (length bs)) /\ filled args' argpos (us :: single bs).
Proof.
  intros Hw Ha Hr. unfold wild1_fill. rewrite (flatten_app (us ++ bs)), range_app.
  pose proof (step_back_spec us bs [] Hw) as Hb. rewrite app_nil_r in Hb. rewrite Hb, flatten_app, take_app_length.
  destruct (put_spec numargs args argpos _ (flatten us) Hr Ha) as (args1 & -> & Ht1 & E1). cbn [mbind run_bind].
  assert (Hf1 : filled args1 argpos [us]) by (by eapply put_filled).
  destruct (Nat.leb_spec numargs (S argpos)).
  - eexists. split; [done|]. split; [eapply touched_weaken; [exact Ht1|lia..]|].
    apply (filled_app _ _ _ [us]). split; [done|]. apply filled_full. cbn [length]. lia.
  - rewrite <- app_assoc, drop_app_length, <- flatten_app.
    destruct (fill_chars_spec bs vs (S argpos) args1 Hw) as (full & argpos' & d' & args2 & -> & Ht2 & Hf2 & _); [lia| |].
    { eapply ready_weaken; [eapply ready_touched; [exact Hr|exact Ht1]|lia|lia]. }
    cbn [mbind run_bind]. eexists. split; [done|]. split.
    + replace (S (length bs)) with (1 + length bs)%nat by lia. eapply touched_join; [exact Ht1|].
      by rewrite Nat.add_1_r.
    + apply (filled_app _ _ _ [us]). cbn [length]. rewrite Nat.add_1_r. split; [|done].
      eapply filled_touched; [exact Hf1|exact Ht2|cbn; lia].
Qed.

(** ** The matcher

    An answer with the captures that [Q] allows in the arguments from [a] on.  It may give up only
    if the counter has reached the limit. *)
Definition answers_with (r : run (bool * Z * argv)) (ctr : Z) (args : argv) (a n : nat)
    (Q : list (list tok) -> Prop) : Prop :=
  exists b ctr' args', r = Ok (b, ctr', args') /\ ctr <= ctr' <= Z.max ctr lim
    /\ touched args args' a n
    /\ (b = true -> exists cs, Q cs /\ filled args' a cs)
    /\ (b = false -> ctr' < lim -> ~ exists cs, Q cs).

(** The fast matcher in place of this one, once the arguments have run out. *)
Lemma answers_quick r ctr args a n p ts :
  (numargs <= a)%nat -> answers lim r ctr (matches p ts) ->
  answers_with ('(b, ctr) ← r; Ok (b, ctr, args)) ctr args a n (captures p ts).
Proof.
  intros Ha (b & ctr' & -> & Hc & Hy & Hn). exists b, ctr', args. split_and!; try done || lia; [apply touched_refl|].
  intros Hb. destruct (Hy Hb) as [cs Hcs]. exists cs. split; [done|]. by apply filled_full.
Qed.

Definition fits (ts : list tok) : Prop := (length (flatten ts) <= LBUF_SIZE - 1)%nat.

(** Where the literal [q] was found in [ts]; the arguments of what follows are those from [a] on. *)
Definition scan_post (q : bytes) (ts : list tok) (a : nat) (found : option bytes) (ctr : Z) (args : argv) : Prop :=
  match found with
  | Some d' => exists us vs cs, ts = us ++ vs /\ d' = flatten vs /\ lit_captures q vs cs /\ filled args a cs
  | None => ctr < lim -> ~ exists us vs, ts = us ++ vs /\ literal q vs
  end.

Lemma wild1_scan_spec rest q a n fuel ts ctr args :
  Forall (fun b => b <> 0) q -> wf ts -> fits ts -> (length (flatten ts) < fuel)%nat -> ready args a n ->
  (forall t p' ts' ctr args, wf_tok t = true -> q = folded t ++ p' -> wf ts' -> fits ts' -> ready args a n ->
     answers_with (rest p' (flatten ts') ctr args) ctr args a n (captures p' ts')) ->
  exists found ctr' args', wild1_scan fuel rest q (flatten ts) ctr args = Ok (found, ctr', args')
    /\ ctr <= ctr' <= Z.max ctr lim /\ touched args args' a n /\ scan_post q ts a found ctr' args'.
Proof.
  intros Hq Hw Hfit Hf Hr Hrest. revert ts ctr args Hw Hfit Hf Hr.
  induction fuel as [|fuel IH]; intros ts ctr args Hw Hfit Hf Hr; [lia|]. cbn [wild1_scan].
  destruct q as [|c0 q0]; [|set (q := c0 :: q0) in *].
  { eexists _, _, _. split; [done|]. split_and!; [lia|lia|apply touched_refl|]. exists ts, [], [].
    split_and!; [by rewrite app_nil_r|done|by left|apply filled_nil]. }
  destruct (lit_step q ts Hq Hw) as (r & Er & Hstep). rewrite Er. cbn [mbind run_bind].
  destruct ts as [|t ts].
  { destruct r as [[dlen tlen]|]; [done|]. eexists _, _, _. split; [done|].
    split_and!; [lia|lia|apply touched_refl|]. intros _ (us & vs & E & Hl).
    symmetry in E. apply app_eq_nil in E as [-> ->]. by apply literal_nil in Hl. }
  pose proof Hw as Hw'. apply wf_cons in Hw' as [Ht Hts].
  assert (Hnext : drop (wild_step (flatten (t :: ts))) (flatten (t :: ts)) = flatten ts) by by apply wild_step_tok.
  assert (Hlen : (length (flatten (t :: ts)) = length (tok_bytes t) + length (flatten ts))%nat)
    by by rewrite flatten_cons, length_app.
  pose proof (tok_bytes_nonempty t Ht) as Hne.
  assert (Hfit' : fits ts) by (unfold fits in *; lia).
  (* Moving on to the next character. *)
  assert (Hgo : forall ctr1 args1, ctr <= ctr1 <= Z.max ctr lim -> touched args args1 a n ->
    (ctr1 < lim -> ~ literal q (t :: ts)) ->
    exists found ctr' args', wild1_scan fuel rest q (drop (wild_step (flatten (t :: ts))) (flatten (t :: ts))) ctr1 args1
        = Ok (found, ctr', args')
      /\ ctr <= ctr' <= Z.max ctr lim /\ touched args args' a n /\ scan_post q (t :: ts) a found ctr' args').
  { intros ctr1 args1 Hc1 Ht1 Hno. rewrite Hnext.
    destruct (IH ts ctr1 args1 Hts Hfit') as (found & ctr' & args' & -> & Hc' & Ht' & Hp); [lia|by eapply ready_touched|].
    exists found, ctr', args'. split_and!; [done|lia|lia|by eapply touched_trans|].
    destruct found as [d'|].
    - destruct Hp as (us & vs & cs & -> & Hp). by exists (t :: us), vs, cs.
    - intros Hlt (us & vs & E & Hl). destruct us as [|u us].
      + cbn in E. subst vs. apply Hno; [lia|done].
      + injection E as <- ->. apply Hp; [done|]. by exists us, vs. }
  destruct (flatten (t :: ts)) as [|c d] eqn:Ef; [cbn in Hlen; lia|]. rewrite <- Ef in *.
  destruct r as [[dlen tlen]|].
  - destruct Hstep as (p' & Eq & -> & -> & _). cbn [mbind run_bind].
    destruct (Hrest t p' ts ctr args Ht Eq Hts Hfit' Hr) as (b & ctr1 & args1 & -> & Hc1 & Ht1 & Hy & Hn).
    cbn [mbind run_bind]. destruct b.
    + destruct (Hy eq_refl) as (cs & Hcs & Hfs). eexists _, _, _. split; [done|]. split_and!; try done || lia.
      exists [], (t :: ts), cs. split_and!; try done. right. by exists t, p', ts.
    + apply Hgo; [done|done|]. intros Hlt Hl. apply (Hn eq_refl Hlt).
      apply literal_cons in Hl as (p'' & E & Hm); [|done]. rewrite Eq in E. apply app_inv_head in E. by subst.
  - apply Hgo; [lia|apply touched_refl|]. intros _ Hl. apply literal_cons in Hl as (p' & E & _); [|done].
    apply Hstep. rewrite E. by apply prefix_app_r.
Qed.

(** The end of a match after stars: [r] is what the scan found, and the arguments before. *)
Lemma wild1_anchor p' ys ts found ctr ctr' args args' argpos :
  Forall (fun b => b <> 0) p' -> not_wild p' -> wf (ys ++ ts) -> (argpos < numargs)%nat ->
  ready args argpos (1 + length ys + wildcards p') ->
  ctr <= ctr' <= Z.max ctr lim ->
  touched args args' (argpos + 1 + length ys) (wildcards p') ->
  scan_post (skip_backslash p') ts (argpos + 1 + length ys) found ctr' args' ->
  answers_with
    (match found with
     | None => Ok (false, ctr', args')
     | Some d => args ← wild1_fill numargs d (flatten (ys ++ ts)) argpos (length ys) args'; Ok (true, ctr', args)
     end) ctr args argpos (1 + length ys + wildcards p') (captures (STAR :: questions ys ++ p') (ys ++ ts)).
Proof.
  intros Hp Hn Hw Ha Hr Hc Ht Hpost. destruct (skip_backslash_captures p' Hp Hn) as (_ & _ & Hcap & Hlit & _).
  pose proof Hw as Hw'. apply wf_app in Hw' as [Hys Hts]. destruct found as [d|].
  - destruct Hpost as (us & vs & cs & -> & -> & Hl & Hf). apply wf_app in Hts as [Hus Hvs].
    (* The question marks take the last characters before the literal. *)
    set (zs := ys ++ us). set (ss := take (length us) zs). set (bs := drop (length us) zs).
    assert (Ez : zs = ss ++ bs) by (symmetry; apply take_drop).
    assert (Hb : length bs = length ys) by (unfold bs, zs; rewrite length_drop, length_app; lia).
    assert (Hwb : wf bs).
    { assert (wf (ss ++ bs)) as [_ ?]%wf_app by (rewrite <- Ez; by apply wf_app). done. }
    rewrite (app_assoc ys). fold zs. rewrite Ez, <- Hb.
    destruct (wild1_fill_spec ss bs vs argpos args' Hwb Ha) as (args2 & -> & Ht2 & Hf2).
    { eapply ready_weaken; [eapply ready_touched; [exact Hr|exact Ht]|lia|lia]. }
    cbn [mbind run_bind]. exists true, ctr', args2. split_and!; try done || lia.
    + eapply touched_trans; [eapply touched_weaken; [exact Ht|lia..]|eapply touched_weaken; [exact Ht2|lia..]].
    + intros _. exists ((ss :: single bs) ++ cs). split.
      * rewrite <- app_assoc. apply (cap_star ss _ (bs ++ vs)). apply captures_questions. by apply Hcap.
      * apply filled_app. split; [done|]. cbn [length]. rewrite length_map, Hb.
        replace (argpos + S (length ys))%nat with (argpos + 1 + length ys)%nat by lia.
        eapply filled_touched_before; [exact Hf|exact Ht2|lia].
  - exists false, ctr', args'. split_and!; try done || lia; [eapply touched_weaken; [exact Ht|lia..]|].
    intros _ Hlt Hm. apply (Hpost Hlt). apply (star_questions ys p' ts Hw) in Hm.
    apply matches_star in Hm as (us & vs & -> & Hm); [|done]. exists us, vs. split; [done|].
    apply wf_app in Hts as [_ Hvs]. by apply Hlit.
Qed.

(** Composing an answer with what was captured before it. *)
Lemma answers_after r ctr1 ctr args args1 a cs n p ts p' ts' :
  ctr <= ctr1 <= Z.max ctr lim -> touched args args1 a (length cs) -> filled args1 a cs ->
  wildcards p = (length cs + n)%nat ->
  (forall cs', captures p' ts' cs' -> captures p ts (cs ++ cs')) -> (matches p ts -> matches p' ts') ->
  answers_with r ctr1 args1 (a + length cs) n (captures p' ts') ->
  answers_with r ctr args a (wildcards p) (captures p ts).
Proof.
  intros Hc Ht Hf Hwc Hcap Hm (b & ctr' & args' & -> & Hc' & Ht' & Hy & Hn). exists b, ctr', args'.
  split_and!; try done || lia; [rewrite Hwc; by eapply touched_join| |].
  - intros Hb. destruct (Hy Hb) as (cs' & Hcs & Hfs). exists (cs ++ cs'). split; [by apply Hcap|].
    apply filled_app. split; [|done]. by eapply filled_touched.
  - intros Hb Hlt Hm'. by apply (Hn Hb Hlt), Hm.
Qed.

(** The fast matcher finishes when the arguments have run out. *)
Lemma answers_full r ctr1 ctr args args1 a cs p ts p' ts' :
  ctr <= ctr1 <= Z.max ctr lim -> touched args args1 a (wildcards p) -> filled args1 a cs ->
  (numargs <= a + length cs)%nat ->
  (forall cs', captures p' ts' cs' -> captures p ts (cs ++ cs')) -> (matches p ts -> matches p' ts') ->
  answers lim r ctr1 (matches p' ts') ->
  answers_with ('(b, ctr) ← r; Ok (b, ctr, args1)) ctr args a (wildcards p) (captures p ts).
Proof.
  intros Hc Ht Hf Hnum Hcap Hm (b & ctr' & -> & Hc' & Hy & Hn). exists b, ctr', args1.
  split_and!; try done || lia.
  - intros Hb. destruct (Hy Hb) as [cs' Hcs]. exists (cs ++ cs'). split; [by apply Hcap|].
    apply filled_app. split; [done|]. by apply filled_full.
  - intros Hb Hlt Hm'. by apply (Hn Hb Hlt), Hm.
Qed.

Lemma wild1_spec fuel p ts arg ctr args :
  Forall (fun b => b <> 0) p -> wf ts -> fits ts -> (length p < fuel)%nat -> (arg < numargs)%nat ->
  ready args arg (wildcards p) ->
  answers_with (wild1 lim numargs fuel p (flatten ts) arg ctr args) ctr args arg (wildcards p) (captures p ts).
Proof.
  revert p ts arg ctr args. induction fuel as [|fuel IH]; intros p ts arg ctr args Hp Hw Hfit Hf Ha Hr; [lia|].
  cbn [wild1]. destruct (Z.leb_spec lim ctr) as [Hle|Hlt].
  { exists false, ctr, args. split_and!; try done || lia. apply touched_refl. }
  destruct (wild1_lits_spec (S (length p)) p ts arg args Hp Hw) as (r & -> & Hpost); [lia|done|done|].
  cbn [mbind run_bind]. destruct r as [b args1|p1 d1 args1|p1 d1 arg1 args1].
  - destruct Hpost as (Ht & Hy & Hn). exists b, (ctr + 1), args1. split_and!; try done || lia. intros Hb _. by apply Hn.
  - destruct Hpost as (ts1 & cs & -> & Hp1 & Hw1 & Ht & Hfs & Hnum & Hcap & Hm).
    eapply (answers_full _ (ctr + 1)); try done; [lia|]. apply quick_wild_impl_spec; [done|done|unfold quick_fuel; lia].
  - destruct Hpost as (p0 & ts1 & cs & -> & -> & Hp0 & Hw1 & Hl & -> & Hnum & Hwc & Ht & Hfs & Hcap & Hm & Hd).
    eapply (answers_after _ (ctr + 1) ctr args args1 arg cs (wildcards (STAR :: p0)) p ts (STAR :: p0) ts1);
      try done; [lia|].
    assert (Hfit1 : fits ts1) by (unfold fits in *; lia).
    assert (Hr1 : ready args1 (arg + length cs) (wildcards (STAR :: p0))).
    { eapply ready_weaken; [eapply ready_touched; [exact Hr|exact Ht]|lia|lia]. }
    set (a := (arg + length cs)%nat) in *. cbn [tail]. destruct p0 as [|c0 p1]; [|set (p0 := c0 :: p1) in *].
    { rewrite take_ge by done.
      destruct (put_spec numargs args1 a 0 (flatten ts1) Hr1 Hnum) as (args2 & -> & Ht2 & E2).
      cbn [mbind run_bind]. exists true, (ctr + 1), args2. split_and!; try done || lia. intros _. exists [ts1].
      split; [|by eapply put_filled]. rewrite <- (app_nil_r ts1) at 1. constructor. constructor. }
    destruct (wild1_stars_spec (length (STAR :: p0)) (STAR :: p0) p0 ts1 ts1 a a (flatten ts1) args1)
      as (r & -> & Hst); try done; [by left|cbn [length]; lia|].
    cbn [mbind run_bind]. destruct r as [args2|p2 d2 args2|p2 d2 datapos argpos arg2 k args2].
    + destruct Hst as (Ht2 & Hn). exists false, (ctr + 1), args2. split_and!; try done || lia.
    + destruct Hst as (ts2 & cs2 & -> & Hp2 & Hw2 & Ht2 & Hfs2 & Hnum2 & Hcap2 & Hm2).
      eapply (answers_full _ (ctr + 1)); try done; [lia|]. apply quick_wild_impl_spec; [done|done|unfold quick_fuel; lia].
    + destruct Hst as (ts2 & ys & cs2 & -> & -> & <- & Hp2 & Hw2 & Hn2 & Hl2 & -> & -> & Hnum2 & Hwc2 & Ht2 & Hfs2
        & Hcap2 & Hm2 & Hd2).
      assert (Hfit2 : fits ts2) by (unfold fits in *; lia). pose proof Hw2 as Hw2'. apply wf_app in Hw2' as [_ Hts2].
      destruct (skip_backslash_captures p2 Hp2 Hn2) as (Hq & Hlq & _ & _ & Hwq).
      set (b := (a + length cs2)%nat) in *.
      assert (Hr2 : ready args2 b (1 + length ys + wildcards p2)).
      { eapply ready_weaken; [eapply ready_touched; [exact Hr1|exact Ht2]|lia|lia]. }
      match goal with |- context [wild1_scan ?f ?g _ _ _ _] => set (rest := g) end.
      destruct (wild1_scan_spec rest (skip_backslash p2) (b + 1 + length ys) (wildcards p2)
        (S (length (flatten ts2))) ts2 (ctr + 1) args2) as (found & ctr' & args3 & -> & Hc' & Ht3 & Hscan); try done; [lia| | |].
      { eapply ready_weaken; [exact Hr2|lia|lia]. }
      { intros t p' ts' ctr3 args3 Hwt Eq Hw' Hfit' Hr3. unfold rest.
        assert (Hp' : Forall (fun b => b <> 0) p') by (rewrite Eq in Hq; by apply Forall_app in Hq as [_ ?]).
        assert (Hlp' : (length p' < length (skip_backslash p2))%nat).
        { rewrite Eq, length_app. destruct (fold_bytes t Hwt) as (Hne & _). destruct (folded t); [done|cbn; lia]. }
        rewrite <- (Hwq t p' Hwt Eq) in *. destruct (Nat.ltb_spec (b + 1 + length ys) numargs).
        - apply IH; try done. cbn in Hl2, Hl. lia.
        - apply answers_quick; [lia|]. apply quick_wild_impl_spec; [done|done|unfold quick_fuel; lia]. }
      cbn [mbind run_bind].
      eapply (answers_after _ (ctr + 1) (ctr + 1) args1 args2 a cs2 (1 + length ys + wildcards p2)
        (STAR :: p0) ts1 (STAR :: questions ys ++ p2) (ys ++ ts2)); try done; [lia|lia| |].
      { intros Hm3. apply star_questions; [done|]. by apply Hm2. }
      by apply wild1_anchor.
Qed.

End Wild1.
