(* ===== verification/WildMatch.v ===== *)
(** * Matching wild cards: [quick_wild], [wild] and the case table

    The entry points of [Wild] meet [captures] and [matches], on every case table that satisfies
    [FoldLaws]; the table of the C library does. *)

From S2P Require Import Prelude Machine Decimal Encoding StringUtil CaseTables CaseMap Wild WildCap.

(** ** The laws of the case table *)

#[export] Instance fold_laws : FoldLaws.
Proof.
  assert (Hentry : forall t, wf_tok t = true ->
    (exists x, lower (tok_bytes t) = (None, x)) \/ exists d x, lower (tok_bytes t) = (Some d, x)
      /\ entry_ok (tok_bytes t) d x = true /\ entry_fold (tok_bytes t) d x = true).
  { intros t Hw. destruct (co_dfa_tok _ _ tolower_ok t [] Hw) as (r & _ & E & Hr). unfold lower. rewrite E.
    cbn [dfa_result]. destruct r as [[d|] x]; [right|left; by exists x]. exists d, x. destruct Hr as [H1 H2].
    apply andb_prop in H2 as [_ H2]. done. }
  split; [exact lower_mapping| | |]; cbn [mux_tolower unicode_case]; change (fun p => dfa_result (co_dfa tr_tolower p)) with lower.
  - intros t Hw E. change (dfa_result (co_dfa tr_tolower (tok_bytes t))) with (lower (tok_bytes t)) in E.
    pose proof (tok_bytes_nonempty t Hw) as Hne.
    destruct (Hentry t Hw) as [(x & El)|(d & x & El & He & _)]; rewrite El in E.
    + cbn in E. rewrite E in Hne. cbn in Hne. lia.
    + unfold entry_ok in He. apply andb_prop in He as [He _]. apply andb_prop in He as [_ He].
      destruct (table_parts _ _ tolower_ok) as (_ & Ho & _). rewrite Forall_forall in Ho.
      specialize (Ho d (lower_entry _ _ _ El)). cbn [case_bytes] in E. apply negb_true_iff in He. rewrite He in E.
      destruct x; apply (f_equal length) in E; revert E; [rewrite length_imap|rewrite length_map, length_seq]; cbn; lia.
  - intros b Hb. apply in_rng_true in Hb. pose proof (forall_zrange _ _ _ lower_ascii_table b ltac:(lia)) as H.
    by apply bool_decide_eq_true in H.
  - intros t Hw Hl. change (dfa_result (co_dfa tr_tolower (tok_bytes t))) with (lower (tok_bytes t)).
    destruct (Hentry t Hw) as [(x & ->)|(d & x & -> & _ & He)].
    + cbn [case_bytes]. destruct (tok_lead t Hw) as (c & q & Et & _ & Hf & Hq3 & Hq). rewrite Et in *.
      cbn [forallb]. assert (Hc : 128 <= c).
      { destruct (Z.ltb_spec c 128); [|done]. exfalso. revert Hf. unfold utf8_FirstByte, UTF8_CONTINUE, UTF8_ILLEGAL. cbn in Hl. repeat case_match; byte_hyps; lia. }
      rewrite (proj2 (Z.leb_le _ _) Hc), orb_true_r. cbn [andb]. apply forallb_forall. intros b Hb.
      rewrite Forall_forall in Hq. specialize (Hq b ltac:(by apply list_elem_of_In)). unfold cont in Hq. byte_hyps.
      apply orb_true_intro. right. apply Z.leb_le. lia.
    + unfold entry_fold in He. by apply andb_prop in He as [_ ?].
Qed.

(** ** Plain patterns *)

Section Plain.
Context {HC : Config} {HT : CaseTable} {HF : FoldLaws}.

(** The pattern that [lowered] makes. *)
Definition pattern (ps : list tok) : bytes := flatten (map_text mux_tolower ps).

Lemma pattern_cons t ps : wf_tok t = true -> pattern (t :: ps) = folded t ++ pattern ps.
Proof.
  intros Hw. unfold pattern. change (map_text mux_tolower (t :: ps)) with (map_tok mux_tolower t ++ map_text mux_tolower ps).
  rewrite flatten_app. f_equal. by apply (map_tok_bytes mux_tolower t).
Qed.

Lemma pattern_bytes ps : wf ps -> Forall (fun b => b <> 0) (pattern ps).
Proof.
  induction ps as [|t ps IH]; [constructor|]. intros [Ht Hps]%wf_cons. rewrite pattern_cons by done.
  apply Forall_app. split; [by apply fold_bytes|by apply IH].
Qed.

Lemma lowered_pattern ps : wf ps -> (length (pattern ps) <= cap)%nat -> lowered (flatten ps) = Ok (pattern ps).
Proof.
  intros Hw Hl. unfold lowered. rewrite (str_case_flatten mux_tolower) by done. cbn [of_option mbind run_bind].
  by rewrite take_ge.
Qed.

Abbreviation plain_byte := (fun c => c <> STAR /\ c <> QUESTION /\ c <> BACKSLASH).

Lemma folded_plain_bytes t : wf_tok t = true -> special t = false <-> Forall plain_byte (folded t).
Proof.
  intros Hw. split.
  - intros Hs. destruct (folded_tail t Hw) as (c & q & -> & Hq & Hc). constructor; [by apply Hc|done].
  - intros Hp. destruct (special t) eqn:Es; [|done]. exfalso. apply (special_folded t Hw Es). intros p.
    destruct (fold_bytes t Hw) as (Hne & _). destruct (folded t); [done|]. by apply Forall_cons in Hp as [? _].
Qed.

Lemma pattern_plain ps : wf ps -> Forall (fun t => special t = false) ps -> Forall plain_byte (pattern ps).
Proof.
  intros Hw Hs. induction Hs as [|t ps Ht Hs IH]; [constructor|]. apply wf_cons in Hw as [Hwt Hw].
  rewrite pattern_cons by done. apply Forall_app. split; [by apply folded_plain_bytes|by apply IH].
Qed.

(** A pattern without wild cards and backslashes is compared without case. *)
Lemma plain_matches ps ts : wf ps -> wf ts -> Forall (fun t => special t = false) ps ->
  matches (pattern ps) ts <-> pattern ps = pattern ts.
Proof.
  intros Hp Hw Hs. pose proof (pattern_plain ps Hp Hs) as Hb. generalize dependent (pattern ps). clear ps Hp Hs.
  intros p Hb. split.
  - intros [cs Hc]. induction Hc as [|t p ts cs Hs Hc IH|t p ts cs Hc IH| |t p ts cs Hc IH|us p ts cs Hc IH]; [done| |exfalso..].
    + apply wf_cons in Hw as [Ht Hw]. apply Forall_app in Hb as [_ Hb]. rewrite pattern_cons by done.
      f_equal. by apply IH.
    + by apply Forall_cons in Hb as [(_ & _ & []) _].
    + by apply Forall_cons in Hb as [(_ & _ & []) _].
    + by apply Forall_cons in Hb as [(_ & [] & _) _].
    + by apply Forall_cons in Hb as [([] & _) _].
  - intros ->. exists []. induction ts as [|t ts IH]; [constructor|]. apply wf_cons in Hw as [Ht Hw].
    rewrite pattern_cons in * by done. apply Forall_app in Hb as [Hbt Hb].
    constructor; [by apply folded_plain_bytes|by apply IH].
Qed.

(** Every capture is a piece of the text, one for each wild card. *)
Lemma captures_wf p ts cs : captures p ts cs -> wf ts -> Forall wf cs /\ length cs = wildcards p.
Proof.
  induction 1 as [|t p ts cs Hs Hc IH|t p ts cs Hc IH| |t p ts cs Hc IH|us p ts cs Hc IH]; intros Hw; try done.
  - apply wf_cons in Hw as [Ht Hw]. by rewrite wildcards_literal by done; apply IH.
  - apply wf_cons in Hw as [Ht Hw]. by rewrite wildcards_escaped by done; apply IH.
  - apply wf_cons in Hw as [Ht Hw]. destruct (IH Hw) as [H1 H2].
    change (wildcards (QUESTION :: p)) with (S (wildcards p)). cbn [length]. rewrite H2. split; [|done].
    constructor; [|done]. by repeat constructor.
  - apply wf_app in Hw as [Hu Hw]. destruct (IH Hw) as [H1 H2].
    rewrite wildcards_star. cbn [length]. rewrite H2. split; [|done]. by constructor.
Qed.

End Plain.

(** ** The entry point with captures *)

Section Entry.
Context {HC : Config} {HT : CaseTable} {HF : FoldLaws}.

Lemma wild_fast_spec fuel p ts : Forall (fun b => b <> 0) p -> wf ts -> (length p < fuel)%nat ->
  exists r, wild_fast fuel p (flatten ts) = Ok r /\
    match r with
    | inl true => captures p ts []
    | inl false => ~ matches p ts
    | inr (p', d') => exists ts', d' = flatten ts' /\ Forall (fun b => b <> 0) p' /\ wf ts'
        /\ (length (flatten ts') <= length (flatten ts))%nat
        /\ (forall cs, captures p' ts' cs -> captures p ts cs) /\ (matches p ts -> matches p' ts')
    end.
Proof.
  revert p ts. induction fuel as [|fuel IH]; intros p ts Hp Hw Hf; [lia|]. cbn [wild_fast].
  destruct ((chr_at p 0 =? STAR) || (chr_at p 0 =? QUESTION)) eqn:E.
  { eexists. split; [done|]. by exists ts. }
  assert (Hn : not_wild p).
  { destruct p as [|c p]; [done|]. change (chr_at (c :: p) 0) with c in E.
    apply orb_false_iff in E as [E1 E2]. byte_hyps. by split. }
  destruct (skip_backslash_captures p Hp Hn) as (Hnq & Hlq & Hcq & Hmq & _).
  set (q := skip_backslash p) in *. destruct (lit_step q ts Hnq Hw) as (r & -> & Hr). cbn [mbind run_bind].
  destruct ts as [|t ts].
  - destruct r as [[dlen tlen]|]; eexists; (split; [done|]); cbn.
    + apply Hcq; [done|]. by left.
    + intros Hm. apply Hmq in Hm; [|done]. by apply literal_nil in Hm.
  - pose proof Hw as Hw'. apply wf_cons in Hw' as [Ht Hts]. destruct r as [[dlen tlen]|].
    + destruct Hr as (p' & Eq & -> & Ed & Hl & Hne). destruct (flatten (t :: ts)) as [|c d] eqn:Ef; [done|].
      rewrite Ed. cbn [mbind run_bind].
      assert (Hnp' : Forall (fun b => b <> 0) p') by (rewrite Eq in Hnq; by apply Forall_app in Hnq as [_ ?]).
      destruct (IH p' ts Hnp' Hts) as (r & Er & Hpost); [lia|].
      assert (Hc : forall cs, captures p' ts cs -> captures p (t :: ts) cs).
      { intros cs Hc. apply Hcq; [done|]. right. by exists t, p', ts. }
      assert (Hm : matches p (t :: ts) -> matches p' ts).
      { intros Hm. apply Hmq in Hm; [|done]. rewrite Eq in Hm. apply literal_cons in Hm as (p2 & E2 & Hm); [|done].
        apply app_inv_head in E2. by subst. }
      exists r. split; [done|]. destruct r as [[]|[p2 d2]]; [exact (Hc [] Hpost)|intros Hm'; by apply Hpost, Hm|].
      destruct Hpost as (ts' & -> & Hp2 & Hw2 & Hl2 & Hc2 & Hm2). exists ts'. split_and!; try done; auto.
      rewrite <- Ef, flatten_cons, length_app. lia.
    + eexists. split; [done|]. cbn. intros Hm. apply Hmq in Hm; [|done].
      apply literal_cons in Hm as (p' & E2 & _); [|done]. apply Hr. rewrite E2. by apply prefix_app_r.
Qed.

(** The buffers: enough for the wild cards, as far as there are arguments. *)
Fixpoint wild_bytes (p : bytes) : nat :=
  match p with [] => O | c :: p => if is_wild c then S (wild_bytes p) else wild_bytes p end.

Lemma wildcards_bytes p : (wildcards p <= wild_bytes p)%nat.
Proof.
  len_ind p. destruct p as [|c p]; [done|]. cbn [wildcards wild_bytes]. cbn [length] in En.
  destruct (Z.eqb_spec c BACKSLASH) as [->|Hb].
  - destruct p as [|c' p]; [lia|]. change (is_wild BACKSLASH) with false. cbn iota. cbn [length] in En.
    specialize (IH (length p) ltac:(lia) p eq_refl). cbn [wild_bytes]. case_match; lia.
  - specialize (IH (length p) ltac:(lia) p eq_refl). case_match; lia.
Qed.

Lemma alloc_args_spec scan nargs :
  length (alloc_args scan nargs) = nargs
  /\ (forall i, (i < wild_bytes scan)%nat -> (i < nargs)%nat -> alloc_args scan nargs !! i = Some (Some []))
  /\ (forall i a, alloc_args scan nargs !! i = Some a -> a = Some [] \/ a = None).
Proof.
  revert nargs. induction scan as [|c scan IH]; intros nargs; [|destruct nargs as [|nargs]].
  - cbn. split_and!; [apply length_replicate|lia|]. intros i a E. apply lookup_replicate in E as [-> _]. by right.
  - cbn. split_and!; [done|lia|done].
  - cbn [alloc_args wild_bytes]. fold (is_wild c). destruct (is_wild c); [|apply IH].
    destruct (IH nargs) as (H1 & H2 & H3). split_and!; [cbn; by rewrite H1| |].
    + intros [|i] Hi Hn; [done|]. apply H2; lia.
    + intros [|i] a E; [left; by injection E as <-|]. by apply (H3 i).
Qed.

(** What the caller gets for argument [i]. *)
Definition arg_of (c : option (list tok)) : option bytes :=
  match c with Some ((_ :: _) as us) => Some (flatten us) | _ => None end.

Lemma clean_args_failed args : clean_args false args = replicate (length args) None.
Proof.
  unfold clean_args. induction args as [|a args IH]; [done|]. cbn [map length replicate]. f_equal; [|exact IH].
  destruct a; [|done]. by rewrite orb_true_r.
Qed.

Lemma clean_args_filled p nargs args args' cs :
  Forall wf cs -> length cs = wildcards p -> args = alloc_args p nargs ->
  touched args args' 0 (wildcards p) -> filled nargs args' 0 cs ->
  clean_args true args' = map (fun i => arg_of (cs !! i)) (seq 0 nargs).
Proof.
  intros Hw Hl -> (Hlen & Ht & _) Hf. destruct (alloc_args_spec p nargs) as (H1 & H2 & H3).
  rewrite H1 in Hlen. apply list_eq. intros i. unfold clean_args.
  rewrite !list_lookup_fmap. destruct (Nat.ltb_spec i nargs) as [Hi|Hi].
  - rewrite lookup_seq_lt by done. cbn [fmap option_fmap option_map Nat.add].
    destruct (cs !! i) as [c|] eqn:Ec.
    + rewrite (Hf i c Ec Hi : args' !! i = _). cbn. rewrite orb_false_r. f_equal.
      rewrite Forall_lookup in Hw. specialize (Hw i c Ec). destruct c as [|t c]; [done|].
      apply wf_cons in Hw as [Hwt _]. pose proof (tok_bytes_nonempty t Hwt). rewrite bool_decide_false; [done|].
      change (flatten (t :: c)) with (tok_bytes t ++ flatten c). intros [E _]%app_eq_nil. rewrite E in *. cbn in *. lia.
    + apply lookup_ge_None in Ec. rewrite Ht by lia.
      destruct (lookup_lt_is_Some_2 (alloc_args p nargs) i) as [a Ea]; [by rewrite H1|]. rewrite Ea.
      cbn. by destruct (H3 i a Ea) as [->| ->].
  - rewrite (lookup_ge_None_2 args') by lia. by rewrite lookup_ge_None_2 by (rewrite length_seq; lia).
Qed.

Lemma wild_outcome lim ps ts nargs : wf ps -> wf ts -> (length (pattern ps) <= cap)%nat -> fits ts ->
  exists b ctr args, wild lim (flatten ps) (flatten ts) nargs = Ok (b, ctr, args)
    /\ 0 <= ctr <= Z.max 0 lim
    /\ (b = true -> exists cs, captures (pattern ps) ts cs
          /\ args = map (fun i => arg_of (cs !! i)) (seq 0 nargs))
    /\ (b = false -> args = replicate nargs None /\ (ctr < lim -> ~ matches (pattern ps) ts)).
Proof.
  intros Hp Hw Hl Hfit. unfold wild. rewrite lowered_pattern by done. cbn [mbind run_bind].
  pose proof (pattern_bytes ps Hp) as Hnz. set (p := pattern ps) in *.
  destruct (wild_fast_spec (S (length p)) p ts Hnz Hw) as (r & -> & Hr); [lia|]. cbn [mbind run_bind].
  assert (Hnone : replicate nargs None = map (fun i => arg_of (@nil (list tok) !! i)) (seq 0 nargs)).
  { clear. generalize 0%nat. induction nargs as [|n IH]; intros k; [done|]. cbn. f_equal. apply IH. }
  destruct r as [[]|[p' d']].
  - eexists _, _, _. split; [done|]. split_and!; [lia|lia| |done]. intros _. exists []. by split.
  - eexists _, _, _. split; [done|]. split_and!; [lia|lia|done|]. by intros _.
  - destruct Hr as (ts' & -> & Hp' & Hw' & Hl' & Hc & Hm). destruct (alloc_args_spec p' nargs) as (A1 & A2 & A3).
    destruct (Nat.eqb_spec nargs 0) as [->|Hnargs].
    + destruct (quick_wild_impl_spec lim (quick_fuel p') p' ts' 0 Hp' Hw') as (b & ctr & -> & Hctr & Hy & Hn);
        [unfold quick_fuel; lia|].
      cbn [mbind run_bind]. eexists _, _, _. split; [done|]. split_and!; [lia|lia| |].
      * intros Hb. destruct (Hy Hb) as [cs Hcs]. exists cs. split; [by apply Hc|].
        apply nil_length_inv in A1. by rewrite A1.
      * intros Hb. apply nil_length_inv in A1. rewrite A1. split; [done|]. intros Hlt Hm'. by apply (Hn Hb Hlt), Hm.
    + destruct (wild1_spec lim nargs (S (length p')) p' ts' 0 0 (alloc_args p' nargs)) as
        (b & ctr & args' & E & Hctr & Ht & Hy & Hn); try done || lia.
      { unfold fits in *; lia. }
      { intros i Hi Hn. exists []. pose proof (wildcards_bytes p'). apply A2; lia. }
      rewrite E. cbn [mbind run_bind]. eexists _, _, _. split; [done|]. split_and!; [lia|lia| |].
      * intros ->. destruct (Hy eq_refl) as (cs & Hcs & Hf). exists cs. split; [by apply Hc|].
        destruct (captures_wf p' ts' cs Hcs Hw') as [Hwc Hlc]. by eapply clean_args_filled.
      * intros ->. destruct Ht as (Hlen & _). rewrite clean_args_failed, Hlen, A1. split; [done|].
        intros Hlt Hm'. by apply (Hn eq_refl Hlt), Hm.
Qed.

(** ** The properties *)

(** C17: [quick_wild] with a pattern and a data text that are well formed, if the folded pattern
    fits the buffer.  It returns; a match that it reports is one in the sense of [matches], and
    it misses none unless the invocations reach the limit.  It does not reset their count: if that
    is at the limit, nothing matches.  A pattern without wild cards and backslashes matches the
    texts with the same folded characters. *)
Theorem quick_wild_spec lim ps ts ctr :
  wf ps -> wf ts -> (length (pattern ps) <= cap)%nat ->
  exists b ctr', quick_wild lim (flatten ps) (flatten ts) ctr = Ok (b, ctr')
    /\ ctr <= ctr' <= Z.max ctr lim
    /\ (b = true -> matches (pattern ps) ts) /\ (ctr' < lim -> matches (pattern ps) ts -> b = true)
    /\ (lim <= ctr -> b = false)
    /\ (Forall (fun t => special t = false) ps -> matches (pattern ps) ts <-> pattern ps = pattern ts).
Proof.
  intros Hp Hw Hl. unfold quick_wild. rewrite lowered_pattern by done. cbn [mbind run_bind].
  destruct (quick_wild_impl_spec lim (quick_fuel (pattern ps)) (pattern ps) ts ctr) as (b & ctr' & E & Hc & Hy & Hn);
    [by apply pattern_bytes|done|unfold quick_fuel; lia|].
  exists b, ctr'. split_and!; [done|lia|lia|done| | |by apply plain_matches].
  - intros Hlt Hm. destruct b; [done|]. by destruct (Hn eq_refl Hlt).
  - intros Hlim. unfold quick_fuel in E. cbn [quick_wild_impl] in E.
    rewrite (proj2 (Z.leb_le _ _) Hlim) in E. by simplify_eq.
Qed.

(** C15: [wild] on the same texts, which fit a buffer.  It returns and writes to no argument that has
    no buffer.  If it reports a match, argument [i] is what the wild card [i] of one match of the
    whole text stands for, null if that is empty; otherwise all arguments are null, and there is
    no match unless the invocations reached the limit. *)
Theorem wild_spec lim ps ts nargs :
  wf ps -> wf ts -> (length (pattern ps) <= cap)%nat -> (length (flatten ts) <= cap)%nat ->
  exists b ctr args, wild lim (flatten ps) (flatten ts) nargs = Ok (b, ctr, args)
    /\ 0 <= ctr <= Z.max 0 lim
    /\ (b = true -> exists cs, captures (pattern ps) ts cs /\ length cs = wildcards (pattern ps)
          /\ args = map (fun i => arg_of (cs !! i)) (seq 0 nargs))
    /\ (b = false -> args = replicate nargs None /\ (ctr < lim -> ~ matches (pattern ps) ts)).
Proof.
  intros Hp Hw Hl Hfit. destruct (wild_outcome lim ps ts nargs Hp Hw Hl Hfit) as (b & ctr & args & E & Hc & Hy & Hn).
  exists b, ctr, args. split_and!; [done|lia|lia| |by apply Hn..]. intros Hb. destruct (Hy Hb) as (cs & Hcs & Ha). exists cs.
  split_and!; [done| |done]. by apply (captures_wf _ ts).
Qed.

End Entry.

(** ** Examples *)

Definition chars (s : bytes) : list tok := map (fun b => TVis [b]) s.

(** ["+q*r?=*"] on ["+Quit Lar=now"], ["it La"] being the least that the first star can take, with
    two arguments and with four. *)
Definition card_pattern : bytes := [43; 113; 42; 114; 63; 61; 42].
Definition card_hit : bytes := [43; 81; 117; 105; 116; 32; 76; 97; 82; 115; 61; 110; 111; 119].

Example wild_four : @wild default_config _ 100 card_pattern card_hit 4
  = Ok (true, 2, [Some [117; 105; 116; 32; 76; 97]; Some [115]; Some [110; 111; 119]; None]).
Proof. by vm_compute. Qed.
Example wild_two : @wild default_config _ 100 card_pattern card_hit 2
  = Ok (true, 3, [Some [117; 105; 116; 32; 76; 97]; Some [115]]).
Proof. by vm_compute. Qed.

(** The escaped star has a buffer, which is given back. *)
Example wild_escaped : @wild default_config _ 100 [63; 92; 42] [120; 42] 3 = Ok (true, 1, [Some [120]; None; None]).
Proof. by vm_compute. Qed.

Lemma quick_wild_spec_witness :
  exists b ctr', @quick_wild default_config _ 100 card_pattern card_hit 0 = Ok (b, ctr')
    /\ (ctr' < 100 -> @matches unicode_case (@pattern unicode_case (chars card_pattern)) (chars card_hit) -> b = true).
Proof.
  destruct (@quick_wild_spec default_config unicode_case fold_laws 100 (chars card_pattern) (chars card_hit) 0)
    as (b & ctr' & E & _ & _ & H & _); [repeat constructor|repeat constructor|apply Nat.leb_le; by vm_compute|].
  exists b, ctr'. split; [exact E|exact H].
Defined.

Lemma wild_spec_witness :
  exists b ctr args, @wild default_config _ 100 card_pattern card_hit 4 = Ok (b, ctr, args)
    /\ (b = true -> exists cs, @captures unicode_case (@pattern unicode_case (chars card_pattern)) (chars card_hit) cs
          /\ args = map (fun i => arg_of (cs !! i)) (seq 0 4)).
Proof.
  destruct (@wild_spec default_config unicode_case fold_laws 100 (chars card_pattern) (chars card_hit) 4)
    as (b & ctr & args & E & _ & H & _);
    [repeat constructor|repeat constructor|apply Nat.leb_le; by vm_compute|apply Nat.leb_le; by vm_compute|].
  exists b, ctr, args. split; [exact E|]. intros Hb. destruct (H Hb) as (cs & Hc & _ & Ha).
  exists cs. split; [exact Hc|exact Ha].
Defined.
