(* ===== verification/AstScan.v ===== *)
(** * The tokens of softcode: [src/mux/modules/engine/ast_scan.rl], [ast_scan.cpp]

    The scanner that Ragel generates, state by state, and the token definitions of its source as
    the specification: every token is the longest lexeme at its place. *)

From Stdlib Require Import Strings.String.
From S2P Require Import Prelude.

(** ** Tokens *)

Inductive ASTTokenType :=
| ASTTOK_LIT | ASTTOK_FUNC | ASTTOK_LPAREN | ASTTOK_RPAREN | ASTTOK_LBRACK | ASTTOK_RBRACK
| ASTTOK_LBRACE | ASTTOK_RBRACE | ASTTOK_COMMA | ASTTOK_SEMI | ASTTOK_PCT | ASTTOK_ESC
| ASTTOK_SPACE | ASTTOK_EOF.

#[export] Instance ASTTokenType_eq : EqDecision ASTTokenType.
Proof. solve_decision. Defined.

Record ASTToken := { type : ASTTokenType; text : bytes }.

Inductive ASTLexMode := ASTLEX_EVAL | ASTLEX_NOEVAL | ASTLEX_STRUCTURAL.

Definition ast_pct_token_type (mode : ASTLexMode) : ASTTokenType :=
  match mode with
  | ASTLEX_NOEVAL | ASTLEX_STRUCTURAL => ASTTOK_LIT
  | ASTLEX_EVAL => ASTTOK_PCT
  end.

(** ** The state machine *)

Inductive scan_state := L1 | L2 | L3 | L4 | L5 | L6 | L7 | L8 | L9 | L10 | L11 | L12 | L13 | L14 | L15.

(** What a state does with a byte: go on, go on to state 3 after marking the end of a literal, or
    end a token with the byte, before it, or at the mark. *)
Inductive scan_act :=
| Goto (cs : scan_state)
| Mark
| TokHere (ty : ASTTokenType)
| TokBefore (ty : ASTTokenType)
| TokBack
| Reject.

Definition among (cs : list Z) (c : Z) : bool := existsb (Z.eqb c) cs.

(** The bodies of angle brackets: states 8, 10 and 13. *)
Definition angle_step (cs : scan_state) (c : Z) : scan_act :=
  if among [0; 41; 44; 91; 93; 123; 125] c then TokBefore ASTTOK_PCT
  else if c =? 62 then TokHere ASTTOK_PCT
  else Goto cs.

Definition ast_step (cs : scan_state) (c : Z) : scan_act :=
  match cs with
  | L2 =>
      if c =? 0 then Reject
      else if c =? 32 then Goto L4
      else if c =? 35 then Goto L5
      else if c =? 37 then Goto L6
      else if c =? 40 then TokHere ASTTOK_LPAREN
      else if c =? 41 then TokHere ASTTOK_RPAREN
      else if c =? 44 then TokHere ASTTOK_COMMA
      else if c =? 59 then TokHere ASTTOK_SEMI
      else if c =? 91 then TokHere ASTTOK_LBRACK
      else if c =? 92 then Goto L15
      else if c =? 93 then TokHere ASTTOK_RBRACK
      else if c =? 123 then TokHere ASTTOK_LBRACE
      else if c =? 125 then TokHere ASTTOK_RBRACE
      else Mark
  | L3 =>
      if c =? 35 then Goto L1
      else if among [0; 32; 37; 44; 59; 123; 125] c then TokBefore ASTTOK_LIT
      else if in_rng 91 93 c || in_rng 40 41 c then TokBefore ASTTOK_LIT
      else Mark
  | L1 =>
      if among [0; 32; 44; 59; 64; 123; 125] c then TokBack
      else if in_rng 35 37 c || in_rng 91 93 c || in_rng 40 41 c then TokBack
      else Mark
  | L4 => if c =? 32 then Goto L4 else TokBefore ASTTOK_SPACE
  | L5 =>
      if among [0; 32; 37; 44; 59; 123; 125] c then TokBefore ASTTOK_LIT
      else if c =? 64 then TokHere ASTTOK_PCT
      else if in_rng 35 36 c then TokHere ASTTOK_PCT
      else if in_rng 91 93 c || in_rng 40 41 c then TokBefore ASTTOK_LIT
      else Mark
  | L6 =>
      if c =? 61 then Goto L7
      else if among [67; 88; 99; 120] c then Goto L9
      else if among [73; 105] c then Goto L11
      else if among [81; 113] c then Goto L12
      else if among [86; 118] c then Goto L14
      else TokHere ASTTOK_PCT
  | L7 => if c =? 60 then Goto L8 else TokBefore ASTTOK_PCT
  | L9 => if c =? 60 then Goto L10 else TokHere ASTTOK_PCT
  | L12 => if c =? 60 then Goto L13 else TokHere ASTTOK_PCT
  | L8 | L10 | L13 => angle_step cs c
  | L11 => if in_rng 48 57 c then TokHere ASTTOK_PCT else TokBefore ASTTOK_PCT
  | L14 => if in_rng 65 90 c || in_rng 97 122 c then TokHere ASTTOK_PCT else TokBefore ASTTOK_PCT
  | L15 => TokHere ASTTOK_ESC
  end.

(** At the end of the input: no token, the mark, or the end. *)
Definition ast_eof (cs : scan_state) : scan_act :=
  match cs with
  | L2 => Reject
  | L1 => TokBack
  | L3 | L5 => TokBefore ASTTOK_LIT
  | L4 => TokBefore ASTTOK_SPACE
  | L15 => TokBefore ASTTOK_ESC
  | _ => TokBefore ASTTOK_PCT
  end.

(** From state [cs] at [p], with the mark [te], to the type of the next token and its end. *)
Fixpoint ast_token (cs : scan_state) (te p : bytes) : option (ASTTokenType * bytes) :=
  match p with
  | [] =>
      match ast_eof cs with
      | TokBefore ty => Some (ty, p)
      | TokBack => Some (ASTTOK_LIT, te)
      | _ => None
      end
  | c :: p' =>
      match ast_step cs c with
      | Goto cs => ast_token cs te p'
      | Mark => ast_token L3 p' p'
      | TokHere ty => Some (ty, p')
      | TokBefore ty => Some (ty, p)
      | TokBack => Some (ASTTOK_LIT, te)
      | Reject => None
      end
  end.

(** A literal before a parenthesis is the name of a function. *)
Fixpoint lit_to_func (tokens : list ASTToken) : list ASTToken :=
  match tokens with
  | [] => []
  | [t] => [if decide (type t = ASTTOK_LIT) then {| type := ASTTOK_FUNC; text := text t |} else t]
  | t :: tokens => t :: lit_to_func tokens
  end.

Definition push_token (mode : ASTLexMode) (ty : ASTTokenType) (s : bytes) (tokens : list ASTToken) : list ASTToken :=
  match ty with
  | ASTTOK_PCT => tokens ++ [{| type := ast_pct_token_type mode; text := s |}]
  | ASTTOK_LPAREN => lit_to_func tokens ++ [{| type := ASTTOK_LPAREN; text := s |}]
  | _ => tokens ++ [{| type := ty; text := s |}]
  end.

(** State 2, again and again. *)
Fixpoint ast_scan (fuel : nat) (mode : ASTLexMode) (p : bytes) (tokens : list ASTToken) : option (list ASTToken) :=
  match fuel with
  | O => None
  | S fuel =>
      match p with
      | [] => Some tokens
      | _ =>
          match ast_token L2 p p with
          | Some (ty, te) => ast_scan fuel mode te (push_token mode ty (range p te) tokens)
          | None => Some tokens
          end
      end
  end.

(** The bytes up to the first NUL. *)
Fixpoint up_to_nul (s : bytes) : bytes :=
  match s with
  | [] => []
  | c :: s => if c =? 0 then [] else c :: up_to_nul s
  end.

Definition eof_token : ASTToken := {| type := ASTTOK_EOF; text := [] |}.

Definition ast_tokenize_mode (input : bytes) (mode : ASTLexMode) : option (list ASTToken) :=
  let p := up_to_nul input in
  match p with
  | [] => Some [eof_token]
  | _ => tokens ← ast_scan (S (length p)) mode p []; Some (tokens ++ [eof_token])
  end.

Definition ast_tokenize (input : bytes) : option (list ASTToken) := ast_tokenize_mode input ASTLEX_EVAL.

(** ** Lexemes

    The patterns of the Ragel source. *)

Definition lit_plain (c : Z) : bool := negb (among [91; 93; 123; 125; 40; 41; 44; 59; 37; 92; 32; 0; 35] c).
Definition lit_after_hash (c : Z) : bool := lit_plain c && negb (among [64; 36] c).

(** [lit_char*] *)
Fixpoint lit_chars (s : bytes) : bool :=
  match s with
  | [] => true
  | c :: s' =>
      if c =? 35 then match s' with d :: s'' => lit_after_hash d && lit_chars s'' | [] => false end
      else lit_plain c && lit_chars s'
  end.

Definition angle_char (c : Z) : bool := negb (among [62; 125; 41; 93; 91; 123; 44; 0] c).

(** [angle_body '>'] or [angle_body] *)
Fixpoint angle_rest (s : bytes) : bool :=
  match s with
  | [] => true
  | c :: s' => if c =? 62 then match s' with [] => true | _ => false end else angle_char c && angle_rest s'
  end.

(** What may follow a percent sign. *)
Definition pct_rest (s : bytes) : bool :=
  match s with
  | [] | [_] => true
  | c :: d :: s' =>
      match s' with
      | [] =>
          among [113; 81; 99; 67; 120; 88] c
          || (among [118; 86] c && (in_rng 65 90 d || in_rng 97 122 d))
          || (among [105; 73] c && in_rng 48 57 d)
          || ((c =? 61) && (d =? 60))
      | _ => among [113; 81; 99; 67; 120; 88; 61] c && (d =? 60) && angle_rest s'
      end
  end.

Definition lexeme (s : bytes) : option ASTTokenType :=
  match s with
  | [] => None
  | c :: s' =>
      let single ty := match s' with [] => Some ty | _ => None end in
      if c =? 37 then if pct_rest s' then Some ASTTOK_PCT else None
      else if c =? 92 then match s' with [] | [_] => Some ASTTOK_ESC | _ => None end
      else if c =? 91 then single ASTTOK_LBRACK
      else if c =? 93 then single ASTTOK_RBRACK
      else if c =? 123 then single ASTTOK_LBRACE
      else if c =? 125 then single ASTTOK_RBRACE
      else if c =? 40 then single ASTTOK_LPAREN
      else if c =? 41 then single ASTTOK_RPAREN
      else if c =? 44 then single ASTTOK_COMMA
      else if c =? 59 then single ASTTOK_SEMI
      else if c =? 32 then if forallb (Z.eqb 32) s' then Some ASTTOK_SPACE else None
      else if (c =? 35) && match s' with [d] => among [35; 64; 36] d | _ => false end then Some ASTTOK_PCT
      else if (c =? 35) && match s' with [] => true | _ => false end then Some ASTTOK_LIT
      else if lit_chars s then Some ASTTOK_LIT else None
  end.

(** [t] is the longest lexeme at the head of [s]. *)
Definition longest (s : bytes) (ty : ASTTokenType) (te : bytes) : Prop :=
  exists t, s = t ++ te /\ lexeme t = Some ty
    /\ forall t' te', s = t' ++ te' -> lexeme t' <> None -> (length t' <= length t)%nat.

(** ** The scanner finds the longest lexeme *)

Ltac open_tests :=
  unfold lit_after_hash, lit_plain, angle_char, among, in_rng in *; cbn [existsb] in *;
  repeat match goal with |- context [if ?b then _ else _] => destruct b eqn:? end.

Section Bytes.
Variable c : Z.

Lemma plain_step : lit_plain c = true -> ast_step L2 c = Mark /\ ast_step L3 c = Mark.
Proof. cbn [ast_step]. intros H. split; open_tests; done || lia. Qed.

Lemma after_hash_step : lit_after_hash c = true -> ast_step L1 c = Mark /\ ast_step L5 c = Mark.
Proof. cbn [ast_step]. intros H. split; open_tests; done || lia. Qed.

Lemma stop_step : lit_plain c = false -> c <> 35 -> ast_step L3 c = TokBefore ASTTOK_LIT.
Proof. cbn [ast_step]. intros H Hc. open_tests; done || lia. Qed.

Lemma hash_stop_step : lit_after_hash c = false -> ast_step L1 c = TokBack
  /\ ast_step L5 c = if among [35; 64; 36] c then TokHere ASTTOK_PCT else TokBefore ASTTOK_LIT.
Proof. cbn [ast_step]. intros H. split; open_tests; done || lia. Qed.

Lemma hash_step : ast_step L3 35 = Goto L1 /\ ast_step L2 35 = Goto L5.
Proof. done. Qed.

End Bytes.

(** A text that continues no literal. *)
Definition lit_stop (s : bytes) : Prop :=
  match s with
  | [] => True
  | c :: s' =>
      if c =? 35 then match s' with d :: _ => lit_after_hash d = false | [] => True end else lit_plain c = false
  end.

Lemma lit_run p : exists l te, ast_token L3 p p = Some (ASTTOK_LIT, te)
  /\ p = l ++ te /\ lit_chars l = true /\ lit_stop te.
Proof.
  len_ind p. destruct p as [|c p].
  { by exists [], []. }
  cbn [length] in En. cbn [ast_token]. destruct (Z.eqb_spec c 35) as [->|Hc].
  - rewrite (proj1 hash_step). destruct p as [|d p]; [by exists [], [35]|]. cbn [ast_token length] in *.
    destruct (lit_after_hash d) eqn:Ed.
    + rewrite (proj1 (after_hash_step d Ed)). destruct (IH (length p) ltac:(lia) p eq_refl) as (l & te &
        -> & E & Hl & Hs).
      exists (35 :: d :: l), te. cbn [lit_chars]. rewrite Ed, E. by split_and!.
    + rewrite (proj1 (hash_stop_step d Ed)). by exists [], (35 :: d :: p).
  - destruct (lit_plain c) eqn:Ec.
    + rewrite (proj2 (plain_step c Ec)). destruct (IH (length p) ltac:(lia) p eq_refl) as (l & te & -> & E & Hl & Hs).
      exists (c :: l), te. cbn [lit_chars]. rewrite (proj2 (Z.eqb_neq _ _) Hc), Ec, E. by split_and!.
    + rewrite stop_step by done. exists [], (c :: p). cbn [lit_stop]. rewrite (proj2 (Z.eqb_neq _ _) Hc). by split_and!.
Qed.

Lemma lit_chars_app l v : lit_chars l = true -> lit_chars (l ++ v) = lit_chars v.
Proof.
  len_ind l. destruct l as [|c l]; [done|]. cbn [length] in En. cbn [lit_chars app].
  destruct (c =? 35).
  - destruct l as [|d l]; [done|]. cbn [length app] in *. intros [Hd Hl]%andb_prop. rewrite Hd. cbn [andb].
    by apply (IH (length l) ltac:(lia)).
  - intros [Hc Hl]%andb_prop. rewrite Hc. cbn [andb]. by apply (IH (length l) ltac:(lia)).
Qed.

(** One of two prefixes extends the other. *)
Lemma longer_prefix {A} (t te t' te' : list A) : t ++ te = t' ++ te' -> (length t < length t')%nat ->
  exists c u, t' = t ++ c :: u /\ te = (c :: u) ++ te'.
Proof.
  intros E Hl. destruct (app_eq_inv _ _ _ _ E) as [(k & -> & ->)|(k & -> & ->)].
  - rewrite length_app in Hl. lia.
  - destruct k as [|c u]; [rewrite app_nil_r in Hl; lia|]. by exists c, u.
Qed.

Lemma lit_maximal l te t' te' : lit_chars l = true -> lit_stop te -> l ++ te = t' ++ te' ->
  lit_chars t' = true -> (length t' <= length l)%nat.
Proof.
  intros Hl Hs E Ht. destruct (Nat.le_gt_cases (length t') (length l)) as [|Hlt]; [done|]. exfalso.
  destruct (longer_prefix _ _ _ _ E Hlt) as (c & u & -> & ->). rewrite lit_chars_app in Ht by done.
  cbn [lit_chars app lit_stop] in *. destruct (c =? 35).
  - destruct u as [|d u]; [done|]. cbn [app] in Hs. by rewrite Hs in Ht.
  - by rewrite Hs in Ht.
Qed.

(** [b] is the longest prefix of [p] that [P] allows, and [te] what is left. *)
Definition longest_by (P : bytes -> bool) (p b te : bytes) : Prop :=
  p = b ++ te /\ P b = true /\ forall b' te', p = b' ++ te' -> P b' = true -> (length b' <= length b)%nat.

Lemma angle_run cs te0 p : ast_step cs = angle_step cs -> ast_eof cs = TokBefore ASTTOK_PCT ->
  exists b te, ast_token cs te0 p = Some (ASTTOK_PCT, te) /\ longest_by angle_rest p b te.
Proof.
  intros Hstep Heof. induction p as [|c p IH]; cbn [ast_token].
  { rewrite Heof. exists [], []. unfold longest_by; split_and!; [done|done|done|]. intros b' te' E _. by destruct b'. }
  rewrite Hstep. unfold angle_step. destruct (among [0; 41; 44; 91; 93; 123; 125] c) eqn:Es.
  - exists [], (c :: p). unfold longest_by; split_and!; [done|done|done|]. intros b' te' E Hb. destruct b' as [|
      c' b']; [done|].
    injection E as <- _. exfalso. cbn [angle_rest] in Hb. unfold angle_char, among in *. cbn [existsb] in *.
    destruct (Z.eqb_spec c 62); [lia|]. apply andb_prop in Hb as [Hb _]. lia.
  - destruct (Z.eqb_spec c 62) as [->|Hc].
    + exists [62], p. unfold longest_by; split_and!; [done|done|done|]. intros [|c' b'] te' E Hb; cbn; [lia|].
        injection E as <- _.
      by destruct b'.
    + destruct IH as (b & te & -> & -> & Hb & Hm). exists (c :: b), te. unfold longest_by; split_and!; [done|done| |].
      * cbn [angle_rest]. rewrite (proj2 (Z.eqb_neq _ _) Hc), Hb, andb_true_r. unfold angle_char, among in *.
        cbn [existsb] in *. lia.
      * intros [|c' b'] te' E Hb'; cbn [length]; [lia|]. injection E as <- E. cbn [angle_rest] in Hb'.
        rewrite (proj2 (Z.eqb_neq _ _) Hc) in Hb'. apply andb_prop in Hb' as [_ Hb']. specialize (Hm b' te' E Hb'). lia.
Qed.

Lemma space_run te0 p :
  exists b te, ast_token L4 te0 p = Some (ASTTOK_SPACE, te) /\ longest_by (forallb (Z.eqb 32)) p b te.
Proof.
  induction p as [|c p IH]; cbn [ast_token].
  { exists [], []. unfold longest_by; split_and!; [done|done|done|]. intros b' te' E _. by destruct b'. }
  cbn [ast_step]. destruct (Z.eqb_spec c 32) as [->|Hc].
  - destruct IH as (b & te & -> & -> & Hb & Hm). exists (32 :: b), te. unfold longest_by; split_and!; [done|done|done|].
    intros [|c' b'] te' E Hb'; cbn [length]; [lia|]. injection E as <- E. cbn [forallb] in Hb'.
    apply andb_prop in Hb' as [_ Hb']. specialize (Hm b' te' E Hb'). lia.
  - exists [], (c :: p). unfold longest_by; split_and!; [done|done|done|]. intros [|c' b'] te' E Hb; [done|].
      injection E as <- _.
    cbn [forallb] in Hb. lia.
Qed.

Lemma pct_angle c b : among [113; 81; 99; 67; 120; 88; 61] c = true -> pct_rest (c :: 60 :: b) = angle_rest b.
Proof.
  intros Hc. cbn [pct_rest]. destruct b; [|by rewrite Hc]. unfold among in *. cbn [existsb angle_rest] in *. lia.
Qed.

(** A percent sign with a letter and an angle bracket. *)
Lemma pct_angle_run cs c te0 p :
  among [113; 81; 99; 67; 120; 88; 61] c = true -> ast_step cs = angle_step cs -> ast_eof cs = TokBefore ASTTOK_PCT ->
  exists b te, ast_token cs te0 p = Some (ASTTOK_PCT, te) /\ longest_by pct_rest (c :: 60 :: p) b te.
Proof.
  intros Hc Hstep Heof. destruct (angle_run cs te0 p Hstep Heof) as (b & te & -> & -> & Hb & Hm).
  exists (c :: 60 :: b), te. unfold longest_by; split_and!; [done|done|by rewrite pct_angle|].
  intros [|c' [|d' b']] te' E Hb'; cbn [length]; try lia. injection E as <- <- E.
  rewrite pct_angle in Hb' by done. specialize (Hm b' te' E Hb'). lia.
Qed.

(** A percent sign that takes the bytes [b] and no more. *)
Ltac pct_short b :=
  exists b; eexists; split; [reflexivity|]; unfold longest_by; split_and!;
  [reflexivity | cbn [pct_rest]; unfold among, in_rng in *; cbn [existsb] in *; try done; try lia
  | let b' := fresh in let E := fresh in let Hb := fresh in
    intros b' ? E Hb; destruct b' as [|? [|? [|? ?]]]; cbn [length]; try lia; exfalso;
    cbn [app] in E; simplify_eq; cbn [pct_rest] in Hb; unfold among, in_rng in *; cbn [existsb] in *; try done; lia ].

Lemma pct_run te0 p : exists b te, ast_token L6 te0 p = Some (ASTTOK_PCT, te) /\ longest_by pct_rest p b te.
Proof.
  destruct p as [|c p]; [pct_short (@nil Z)|]. cbn [ast_token ast_step].
  destruct (Z.eqb_spec c 61) as [->|H61].
  { destruct p as [|d p]; [pct_short [61]|]. cbn [ast_token ast_step]. destruct (Z.eqb_spec d 60) as [->|Hd].
    - by apply (pct_angle_run L8).
    - pct_short [61]. }
  destruct (among [67; 88; 99; 120] c) eqn:Hc.
  { destruct p as [|d p]; [pct_short [c]|]. cbn [ast_token ast_step]. destruct (Z.eqb_spec d 60) as [->|Hd].
    - apply (pct_angle_run L10); [|done|done]. unfold among in *. cbn [existsb] in *. lia.
    - pct_short [c; d]. }
  destruct (among [73; 105] c) eqn:Hi.
  { destruct p as [|d p]; [pct_short [c]|]. cbn [ast_token ast_step]. destruct (in_rng 48 57 d) eqn:Hd.
    - pct_short [c; d].
    - pct_short [c]. }
  destruct (among [81; 113] c) eqn:Hq.
  { destruct p as [|d p]; [pct_short [c]|]. cbn [ast_token ast_step]. destruct (Z.eqb_spec d 60) as [->|Hd].
    - apply (pct_angle_run L13); [|done|done]. unfold among in *. cbn [existsb] in *. lia.
    - pct_short [c; d]. }
  destruct (among [86; 118] c) eqn:Hv.
  { destruct p as [|d p]; [pct_short [c]|]. cbn [ast_token ast_step].
    destruct (in_rng 65 90 d || in_rng 97 122 d) eqn:Hd.
    - pct_short [c; d].
    - pct_short [c]. }
  pct_short [c].
Qed.

Lemma longest_intro c (P : bytes -> bool) ty p b te :
  (forall b, P b = true -> lexeme (c :: b) = Some ty) -> (forall b, lexeme (c :: b) <> None -> P b = true) ->
  longest_by P p b te -> longest (c :: p) ty te.
Proof.
  intros H1 H2 (-> & Hb & Hm). exists (c :: b). split_and!; [done|by apply H1|].
  intros [|c' t'] te' E Hl; [done|]. injection E as <- E. cbn [length]. apply le_n_S. by apply (Hm t' te' E), H2.
Qed.

Definition is_nil (s : bytes) : bool := match s with [] => true | _ => false end.

Lemma longest_nil p : longest_by is_nil p [] p.
Proof. unfold longest_by; split_and!; [done|done|]. by intros [|? ?]. Qed.

(** The byte [c] alone. *)
Lemma longest_single c ty p :
  (forall b, lexeme (c :: b) = match b with [] => Some ty | _ => None end) -> longest (c :: p) ty p.
Proof.
  intros H. apply (longest_intro c is_nil ty p []); [..|apply longest_nil]; intros [|x b]; rewrite H; done.
Qed.

(** The lexemes that start with a byte of literals. *)
Lemma lexeme_plain c b : lit_plain c = true -> lexeme (c :: b) = if lit_chars (c :: b) then Some ASTTOK_LIT else None.
Proof.
  intros Hc. unfold lexeme.
  assert (H : forall k, among [91; 93; 123; 125; 40; 41; 44; 59; 37; 92; 32; 0; 35] k = true -> (c =? k) = false).
  { intros k Hk. apply Z.eqb_neq. intros <-. unfold lit_plain in Hc. by rewrite Hk in Hc. }
  by rewrite !H.
Qed.

Lemma lexeme_hash b : lexeme (35 :: b) = match b with
  | [] => Some ASTTOK_LIT
  | [d] => if among [35; 64; 36] d then Some ASTTOK_PCT else if lit_after_hash d then Some ASTTOK_LIT else None
  | d :: b' => if lit_after_hash d && lit_chars b' then Some ASTTOK_LIT else None
  end.
Proof.
  unfold lexeme. cbn [Z.eqb Pos.eqb andb lit_chars]. destruct b as [|d [|e b]]; [done| |done].
  destruct (among [35; 64; 36] d); [done|]. cbn [lit_chars]. by rewrite andb_true_r.
Qed.

(** After a number sign. *)
Lemma hash_longest te0 p : exists ty te, ast_token L5 te0 p = Some (ty, te) /\ longest (35 :: p) ty te.
Proof.
  destruct p as [|d p].
  - exists ASTTOK_LIT, []. split; [done|]. exists [35]. split_and!; [done|done|].
    intros t' te' E _. apply (f_equal length) in E. rewrite length_app in E. cbn in *. lia.
  - cbn [ast_token]. destruct (lit_after_hash d) eqn:Hd.
    + rewrite (proj2 (after_hash_step d Hd)). destruct (lit_run p) as (l & te & -> & -> & Hl & Hs).
      exists ASTTOK_LIT, te. split; [done|]. exists (35 :: d :: l). split_and!; [done| |].
      * rewrite lexeme_hash, Hd, Hl. cbn [andb]. destruct l; [|done].
        destruct (among [35; 64; 36] d) eqn:Ha; [|done]. exfalso. open_tests; lia.
      * intros [|c' [|d' t']] te' E Hl'; cbn [length]; try lia. injection E as <- <- E.
        rewrite lexeme_hash in Hl'. destruct t' as [|e t']; [cbn; lia|].
        destruct (lit_after_hash d && lit_chars (e :: t')) eqn:Hlc; [|done]. apply andb_prop in Hlc as [_ Hlc].
        pose proof (lit_maximal l te (e :: t') te' Hl Hs E Hlc). lia.
    + rewrite (proj2 (hash_stop_step d Hd)). destruct (among [35; 64; 36] d) eqn:Ha.
      * exists ASTTOK_PCT, p. split; [done|]. exists [35; d]. split_and!; [done|by rewrite lexeme_hash, Ha|].
        intros [|c' [|d' [|e t']]] te' E Hl'; cbn [length]; try lia. injection E as <- <- E.
        rewrite lexeme_hash, Hd in Hl'. done.
      * exists ASTTOK_LIT, (d :: p). split; [done|]. exists [35]. split_and!; [done|done|].
        intros [|c' [|d' t']] te' E Hl'; cbn [length]; try lia. injection E as <- <- E.
        rewrite lexeme_hash, Hd, Ha in Hl'. by destruct t'.
Qed.

(** After a backslash. *)
Lemma escape_longest te0 p : exists ty te, ast_token L15 te0 p = Some (ty, te) /\ longest (92 :: p) ty te.
Proof.
  destruct p as [|d p].
  - exists ASTTOK_ESC, []. split; [done|]. exists [92]. split_and!; [done|done|].
    intros t' te' E _. apply (f_equal length) in E. rewrite length_app in E. cbn in *. lia.
  - exists ASTTOK_ESC, p. split; [done|]. exists [92; d]. split_and!; [done|done|].
    intros [|c' [|d' [|e t']]] te' E Hl'; cbn [length]; try lia. injection E as <- <- E. by cbn in Hl'.
Qed.

Lemma ast_token_longest s : s <> [] -> Forall (fun c => c <> 0) s ->
  exists ty te, ast_token L2 s s = Some (ty, te) /\ longest s ty te.
Proof.
  intros Hne Hz. destruct s as [|c p]; [done|]. apply Forall_cons in Hz as [Hc Hz].
  generalize (c :: p) at 1 as te0. intros te0. cbn [ast_token].
  destruct (lit_plain c) eqn:Hp.
  { rewrite (proj1 (plain_step c Hp)). destruct (lit_run p) as (l & te & -> & -> & Hl & Hs).
    exists ASTTOK_LIT, te. split; [done|].
    assert (H35 : (c =? 35) = false) by (unfold lit_plain, among in Hp; cbn [existsb] in Hp; lia).
    assert (Hcl : forall b, lit_chars (c :: b) = lit_chars b) by (intros b; cbn [lit_chars]; by rewrite H35, Hp).
    apply (longest_intro c lit_chars _ _ l).
    - intros b Hb. by rewrite lexeme_plain, Hcl, Hb.
    - intros b Hb. rewrite lexeme_plain, Hcl in Hb by done. by destruct (lit_chars b).
    - split_and!; [done|done|]. intros b' te' E Hb. by apply (lit_maximal l te b' te'). }
  cbn [ast_step]. rewrite (proj2 (Z.eqb_neq _ _) Hc).
  destruct (Z.eqb_spec c 32) as [->|H32].
  { destruct (space_run te0 p) as (b & te & -> & Hb). do 2 eexists. split; [done|].
    eapply longest_intro; [| |exact Hb]; intros b'; unfold lexeme; cbn [Z.eqb Pos.eqb];
      by destruct (forallb (Z.eqb 32) b'). }
  destruct (Z.eqb_spec c 35) as [->|H35].
  { apply hash_longest. }
  destruct (Z.eqb_spec c 37) as [->|H37].
  { destruct (pct_run te0 p) as (b & te & -> & Hb). do 2 eexists. split; [done|].
    eapply longest_intro; [| |exact Hb]; intros b'; unfold lexeme; cbn [Z.eqb Pos.eqb]; by destruct (pct_rest b'). }
  destruct (Z.eqb_spec c 40) as [->|H40]; [do 2 eexists; split; [done|]; by apply longest_single|].
  destruct (Z.eqb_spec c 41) as [->|H41]; [do 2 eexists; split; [done|]; by apply longest_single|].
  destruct (Z.eqb_spec c 44) as [->|H44]; [do 2 eexists; split; [done|]; by apply longest_single|].
  destruct (Z.eqb_spec c 59) as [->|H59]; [do 2 eexists; split; [done|]; by apply longest_single|].
  destruct (Z.eqb_spec c 91) as [->|H91]; [do 2 eexists; split; [done|]; by apply longest_single|].
  destruct (Z.eqb_spec c 92) as [->|H92].
  { apply escape_longest. }
  destruct (Z.eqb_spec c 93) as [->|H93]; [do 2 eexists; split; [done|]; by apply longest_single|].
  destruct (Z.eqb_spec c 123) as [->|H123]; [do 2 eexists; split; [done|]; by apply longest_single|].
  destruct (Z.eqb_spec c 125) as [->|H125]; [do 2 eexists; split; [done|]; by apply longest_single|].
  exfalso. unfold lit_plain, among in Hp. cbn [existsb] in Hp. lia.
Qed.

(** ** The list of tokens *)

(** A text cut into longest lexemes. *)
Inductive lexes : bytes -> list (ASTTokenType * bytes) -> Prop :=
| lexes_nil : lexes [] []
| lexes_cons t te ty l : lexeme t = Some ty ->
    (forall t' te', t ++ te = t' ++ te' -> lexeme t' <> None -> (length t' <= length t)%nat) ->
    lexes te l -> lexes (t ++ te) ((ty, t) :: l).

Definition mode_type (mode : ASTLexMode) (ty : ASTTokenType) : ASTTokenType :=
  match ty with ASTTOK_PCT => ast_pct_token_type mode | _ => ty end.

(** The type that the next token leaves a token: a literal before a parenthesis names a function. *)
Definition before (next : list (ASTTokenType * bytes)) (ty : ASTTokenType) : ASTTokenType :=
  match ty, next with
  | ASTTOK_LIT, (ASTTOK_LPAREN, _) :: _ => ASTTOK_FUNC
  | _, _ => ty
  end.

Fixpoint typed (mode : ASTLexMode) (l : list (ASTTokenType * bytes)) : list ASTToken :=
  match l with
  | [] => []
  | (ty, t) :: l => {| type := before l (mode_type mode ty); text := t |} :: typed mode l
  end.

Lemma typed_push_other mode l ty t : ty <> ASTTOK_LPAREN ->
  typed mode (l ++ [(ty, t)]) = typed mode l ++ [{| type := mode_type mode ty; text := t |}].
Proof.
  intros Hty. induction l as [|[ty' t'] l IH]; cbn [app typed].
  - destruct ty; try done; by destruct mode.
  - rewrite IH. f_equal. f_equal. destruct l as [|x l]; [|done]. destruct ty', mode; try done; by destruct ty.
Qed.

Lemma typed_push_paren mode l t :
  typed mode (l ++ [(ASTTOK_LPAREN, t)])
  = lit_to_func (typed mode l) ++ [{| type := ASTTOK_LPAREN; text := t |}].
Proof.
  induction l as [|[ty' t'] l IH]; [done|]. cbn [app typed]. rewrite IH. destruct l as [|x l].
  - cbn [app typed lit_to_func]. f_equal. by destruct ty', mode.
  - destruct x as [ty2 t2]. cbn [app typed lit_to_func]. reflexivity.
Qed.

Lemma push_token_typed mode ty t l : push_token mode ty t (typed mode l) = typed mode (l ++ [(ty, t)]).
Proof.
  destruct (decide (ty = ASTTOK_LPAREN)) as [->|Hty]; [by rewrite typed_push_paren|].
  rewrite typed_push_other by done. by destruct ty.
Qed.

Lemma ast_scan_spec fuel mode p l0 : Forall (fun c => c <> 0) p -> (length p < fuel)%nat ->
  exists l, ast_scan fuel mode p (typed mode l0) = Some (typed mode (l0 ++ l)) /\ lexes p l.
Proof.
  revert p l0. induction fuel as [|fuel IH]; intros p l0 Hz Hf; [lia|]. cbn [ast_scan].
  destruct p as [|c p]; [exists []; rewrite app_nil_r; by split; [|constructor]|].
  destruct (ast_token_longest (c :: p) ltac:(done) Hz) as (ty & te & -> & t & E & Hl & Hm).
  assert (Hne : t <> []) by (intros ->; done).
  rewrite E, range_app, push_token_typed. rewrite E in Hz, Hm. apply Forall_app in Hz as [_ Hz].
  destruct (IH te (l0 ++ [(ty, t)]) Hz) as (l & -> & Hlx).
  { apply (f_equal length) in E. rewrite length_app in E. destruct t; [done|]. cbn [length] in *. lia. }
  exists ((ty, t) :: l). rewrite <- app_assoc. split; [done|]. by constructor.
Qed.

Lemma up_to_nul_nonzero s : Forall (fun c => c <> 0) (up_to_nul s).
Proof.
  induction s as [|c s IH]; [constructor|]. cbn [up_to_nul]. destruct (Z.eqb_spec c 0); [constructor|by constructor].
Qed.

Lemma up_to_nul_id s : Forall (fun c => c <> 0) s -> up_to_nul s = s.
Proof.
  induction 1 as [|c s Hc _ IH]; [done|]. cbn [up_to_nul]. by rewrite (proj2 (Z.eqb_neq _ _) Hc), IH.
Qed.

Definition texts (tokens : list ASTToken) : bytes := flat_map text tokens.

Lemma texts_app a b : texts (a ++ b) = texts a ++ texts b.
Proof. apply flat_map_app. Qed.

(** What a token of a fixed text looks like. *)
Definition tok_ok (t : ASTToken) : Prop :=
  match type t with
  | ASTTOK_LPAREN => text t = [40]
  | ASTTOK_RPAREN => text t = [41]
  | ASTTOK_LBRACK => text t = [91]
  | ASTTOK_RBRACK => text t = [93]
  | ASTTOK_LBRACE => text t = [123]
  | ASTTOK_RBRACE => text t = [125]
  | ASTTOK_COMMA => text t = [44]
  | ASTTOK_SEMI => text t = [59]
  | ASTTOK_EOF => text t = []
  | _ => text t <> []
  end.

Lemma lexeme_ok t ty : lexeme t = Some ty -> ty <> ASTTOK_EOF /\ tok_ok {| type := ty; text := t |}.
Proof.
  destruct t as [|c s]; [done|]. unfold lexeme. intros H.
  repeat match type of H with (if ?b then _ else _) = _ => destruct b eqn:? end; try done;
    try (destruct s as [|d [|e s]]; simplify_eq; byte_hyps; subst; done);
    by simplify_eq.
Qed.

Lemma typed_ok mode l p : lexes p l -> Forall (fun t => tok_ok t /\ type t <> ASTTOK_EOF) (typed mode l)
  /\ texts (typed mode l) = p.
Proof.
  induction 1 as [|t te ty l Hl _ _ [IH1 IH2]]; [done|]. cbn [typed texts flat_map]. split.
  - constructor; [|done]. pose proof (lexeme_ok t ty Hl) as [He Ho]. unfold tok_ok in *. cbn [type text] in *.
    destruct ty, mode; cbn; try done; (destruct l as [|[[] ?] ?]; done).
  - cbn [text]. f_equal. exact IH2.
Qed.

(** The end of a list of tokens. *)
Definition token_list (tokens : list ASTToken) : Prop :=
  exists l, tokens = l ++ [eof_token] /\ Forall (fun t => tok_ok t /\ type t <> ASTTOK_EOF) l.

Lemma ast_tokenize_mode_ok input mode : exists l,
  ast_tokenize_mode input mode = Some (typed mode l ++ [eof_token]) /\ lexes (up_to_nul input) l.
Proof.
  unfold ast_tokenize_mode. pose proof (up_to_nul_nonzero input) as Hz. destruct (up_to_nul input) as [|c p] eqn:E.
  - exists []. split; [done|constructor].
  - rewrite <- E in *. destruct (ast_scan_spec (S (length (up_to_nul input))) mode (up_to_nul input) [] Hz) as (l &
      Es & Hl); [lia|].
    cbn [typed app] in Es. rewrite Es. by exists l.
Qed.

(** C9: The scanner cuts every input, up to its first NUL, into the longest lexemes of the token
    definitions; a literal before an opening parenthesis is a function name, the substitutions are
    literals outside evaluation.  Nothing is lost: the texts of the tokens are the input. *)
Theorem tokenize_spec input mode : exists l,
  ast_tokenize_mode input mode = Some (typed mode l ++ [eof_token])
  /\ lexes (up_to_nul input) l
  /\ texts (typed mode l) = up_to_nul input
  /\ Forall (fun t => tok_ok t /\ type t <> ASTTOK_EOF) (typed mode l).
Proof.
  destruct (ast_tokenize_mode_ok input mode) as (l & E & Hl). exists l. pose proof (typed_ok mode l _ Hl) as [H1 H2].
  by split_and!.
Qed.

(** A substitution before a parenthesis: a call, except in text that is evaluated. *)
Example tokens_pct :
  map type <$> ast_tokenize_mode (map Z.of_nat [37; 48; 40; 41]%nat) ASTLEX_EVAL
    = Some [ASTTOK_PCT; ASTTOK_LPAREN; ASTTOK_RPAREN; ASTTOK_EOF]
  /\ map type <$> ast_tokenize_mode (map Z.of_nat [37; 48; 40; 41]%nat) ASTLEX_STRUCTURAL
    = Some [ASTTOK_FUNC; ASTTOK_LPAREN; ASTTOK_RPAREN; ASTTOK_EOF].
Proof. done. Qed.
