(* ===== verification/Ast.v ===== *)
(** * The expression parser: [src/mux/modules/engine/ast.cpp]

    From tokens to a tree.  The parser's recursion is bounded by a counter, which is its fuel here.
    Reading at or past the end of the vector of tokens is [Oob]. *)

From Stdlib Require Import Strings.String.
From S2P Require Import Prelude Machine Decimal Encoding StringUtil CaseTables CaseMap AstScan.

(** ** Nodes *)

Inductive ASTNodeType :=
| AST_SEQUENCE | AST_LITERAL | AST_SPACE | AST_SUBST | AST_ESCAPE | AST_FUNCCALL | AST_EVALBRACKET
| AST_BRACEGROUP | AST_SEMICOLON.

Inductive ASTNoevalKind :=
| ASTNOEVAL_NONE | ASTNOEVAL_IFELSE | ASTNOEVAL_SWITCH | ASTNOEVAL_CASE | ASTNOEVAL_SWITCHALL
| ASTNOEVAL_CASEALL | ASTNOEVAL_ITER | ASTNOEVAL_CAND | ASTNOEVAL_CANDBOOL | ASTNOEVAL_COR
| ASTNOEVAL_CORBOOL | ASTNOEVAL_ULAMBDA.

Record ASTDeferredArg := { raw_text : bytes; is_deferred : bool }.

Inductive ASTNode := Node {
  n_type : ASTNodeType;
  n_text : bytes;
  children : list ASTNode;
  deferred_args : list ASTDeferredArg;
  noeval_kind : ASTNoevalKind;
  parser_known_noeval : bool;
  has_close_paren : bool;
  has_close_bracket : bool;
  has_close_brace : bool
}.

Definition new_node (ty : ASTNodeType) (s : bytes) : ASTNode := {|
  n_type := ty; n_text := s; children := []; deferred_args := []; noeval_kind := ASTNOEVAL_NONE;
  parser_known_noeval := false; has_close_paren := true; has_close_bracket := true; has_close_brace := true |}.

Definition set_type (n : ASTNode) (ty : ASTNodeType) : ASTNode :=
  let 'Node _ s cs ds k kn p b c := n in Node ty s cs ds k kn p b c.
Definition set_children (n : ASTNode) (cs : list ASTNode) : ASTNode :=
  let 'Node ty s _ ds k kn p b c := n in Node ty s cs ds k kn p b c.
Definition set_deferred (n : ASTNode) (ds : list ASTDeferredArg) : ASTNode :=
  let 'Node ty s cs _ k kn p b c := n in Node ty s cs ds k kn p b c.
Definition set_known (n : ASTNode) (k : ASTNoevalKind) (kn : bool) : ASTNode :=
  let 'Node ty s cs ds _ _ p b c := n in Node ty s cs ds k kn p b c.
Definition set_close (n : ASTNode) (p b c : bool) : ASTNode :=
  let 'Node ty s cs ds k kn _ _ _ := n in Node ty s cs ds k kn p b c.

Definition addChild (n child : ASTNode) : ASTNode := set_children n (children n ++ [child]).

(** ** Functions that do not evaluate their arguments *)

Section Names.
Context {HC : Config}.

Definition ast_upper_builtin_name (funcName : bytes) : bytes :=
  match mux_strupr (take (LBUF_SIZE - 1) funcName) with Some s => take (LBUF_SIZE - 1) s | None => [] end.

Definition ast_noeval_kind (funcName : bytes) : ASTNoevalKind :=
  let name := ast_upper_builtin_name funcName in
  let named s := bool_decide (name = bytes_of s) in
  if named "IF"%string || named "IFELSE"%string then ASTNOEVAL_IFELSE
  else if named "ITER"%string then ASTNOEVAL_ITER
  else if named "CAND"%string || named "CANDBOOL"%string then
    if named "CANDBOOL"%string then ASTNOEVAL_CANDBOOL else ASTNOEVAL_CAND
  else if named "COR"%string || named "CORBOOL"%string then
    if named "CORBOOL"%string then ASTNOEVAL_CORBOOL else ASTNOEVAL_COR
  else if named "SWITCH"%string then ASTNOEVAL_SWITCH
  else if named "CASE"%string then ASTNOEVAL_CASE
  else if named "SWITCHALL"%string then ASTNOEVAL_SWITCHALL
  else if named "CASEALL"%string then ASTNOEVAL_CASEALL
  else if named "ULAMBDA"%string then ASTNOEVAL_ULAMBDA
  else ASTNOEVAL_NONE.

End Names.

Definition ast_noeval_arg_is_deferred (kind : ASTNoevalKind) (argIndex nfargs : nat) : bool :=
  match kind with
  | ASTNOEVAL_IFELSE => (1 <=? argIndex)%nat
  | ASTNOEVAL_ITER => (argIndex =? 1)%nat
  | ASTNOEVAL_CAND | ASTNOEVAL_CANDBOOL | ASTNOEVAL_COR | ASTNOEVAL_CORBOOL => true
  | ASTNOEVAL_SWITCH | ASTNOEVAL_CASE | ASTNOEVAL_SWITCHALL | ASTNOEVAL_CASEALL =>
      if (argIndex =? 0)%nat then false
      else if Nat.even nfargs && (argIndex =? nfargs - 1)%nat then true
      else Nat.even argIndex
  | ASTNOEVAL_ULAMBDA => (argIndex =? 0)%nat
  | ASTNOEVAL_NONE => false
  end.

Definition ast_call_arg_is_deferred (call : ASTNode) (argIndex : nat) : bool :=
  match deferred_args call !! argIndex with
  | Some a => is_deferred a
  | None =>
      if negb (parser_known_noeval call) then false
      else ast_noeval_arg_is_deferred (noeval_kind call) argIndex (length (children call))
  end.

Definition ast_call_raw_arg (call : ASTNode) (argIndex : nat) : option bytes :=
  raw_text <$> deferred_args call !! argIndex.

(** ** The parser *)

(** The table of built-in functions: whether a name in upper case is one with [FN_NOEVAL]. *)
Class Builtins := { builtin_noeval : bytes -> bool }.

Definition AST_PARSE_MAX_DEPTH : Z := 1000.

(** [m_rest] is [m_tokens] from [m_pos] on; the counter is the thread's. *)
Record ASTParser := {
  m_rest : list ASTToken;
  m_bracketDepth : Z;
  m_braceDepth : Z;
  s_ast_parse_depth : Z
}.

Definition at_pos (st : ASTParser) (rest : list ASTToken) : ASTParser :=
  {| m_rest := rest; m_bracketDepth := m_bracketDepth st; m_braceDepth := m_braceDepth st;
     s_ast_parse_depth := s_ast_parse_depth st |}.
Definition in_bracket (st : ASTParser) (d : Z) : ASTParser :=
  {| m_rest := m_rest st; m_bracketDepth := m_bracketDepth st + d; m_braceDepth := m_braceDepth st;
     s_ast_parse_depth := s_ast_parse_depth st |}.
Definition in_brace (st : ASTParser) (d : Z) : ASTParser :=
  {| m_rest := m_rest st; m_bracketDepth := m_bracketDepth st; m_braceDepth := m_braceDepth st + d;
     s_ast_parse_depth := s_ast_parse_depth st |}.
Definition deeper (st : ASTParser) (d : Z) : ASTParser :=
  {| m_rest := m_rest st; m_bracketDepth := m_bracketDepth st; m_braceDepth := m_braceDepth st;
     s_ast_parse_depth := s_ast_parse_depth st + d |}.

Definition peek (st : ASTParser) : run ASTToken :=
  match m_rest st with t :: _ => Ok t | [] => Oob end.
Definition advance (st : ASTParser) : run (ASTToken * ASTParser) :=
  match m_rest st with t :: rest => Ok (t, at_pos st rest) | [] => Oob end.
Definition atEnd (st : ASTParser) : bool :=
  match m_rest st with t :: _ => bool_decide (type t = ASTTOK_EOF) | [] => true end.
Definition at_type (st : ASTParser) (ty : ASTTokenType) : run bool :=
  t ← peek st; Ok (bool_decide (type t = ty)).

(** The texts of the tokens from one position to another. *)
Definition rawTextFromTokens (start stop : list ASTToken) : bytes :=
  texts (take (length start - length stop) start).

Section Parser.
Context {HC : Config} {HB : Builtins}.

Definition parser_lookup_builtin_noeval (funcName : bytes) : bool :=
  builtin_noeval (ast_upper_builtin_name funcName).

Definition parser_capture_raw_arg (call : ASTNode) (start stop : list ASTToken) : ASTNode :=
  if negb (parser_known_noeval call) then call
  else set_deferred call (deferred_args call ++ [{| raw_text := rawTextFromTokens start stop; is_deferred := false |}]).

(** [std::vector::resize] *)
Definition resize (n : nat) (ds : list ASTDeferredArg) : list ASTDeferredArg :=
  take n ds ++ replicate (n - length ds) {| raw_text := []; is_deferred := false |}.

Section Bodies.
Variables (parse_region : bytes -> ASTLexMode -> Z -> run ASTNode)
  (parseSequence : bool -> bool -> bool -> bool -> ASTParser -> run (ASTNode * ASTParser)).

(** Arguments [i], [i + 1], ... of a call with [n] more. *)
Fixpoint structural_args (n i : nat) (depth : Z) (call : ASTNode) : run ASTNode :=
  match n with
  | O => Ok call
  | S n =>
      call ←
        (if negb (ast_call_arg_is_deferred call i) then Ok call
         else
           let call := set_deferred call
             (alter (fun a => {| raw_text := raw_text a; is_deferred := true |}) i (deferred_args call)) in
           match ast_call_raw_arg call i with
           | None => Ok call
           | Some raw =>
               structural ← parse_region raw ASTLEX_STRUCTURAL depth;
               Ok (set_children call (<[i := structural]> (children call)))
           end);
      structural_args n (S i) depth call
  end.

Definition parser_apply_structural_arg_policy (depth : Z) (call : ASTNode) : run ASTNode :=
  if negb (parser_known_noeval call) then Ok call
  else
    let n := length (children call) in
    structural_args n 0 depth (set_deferred call (resize n (deferred_args call))).

Definition parse_arg (inBracket inBrace : bool) (call : ASTNode) (st : ASTParser) : run (ASTNode * ASTParser) :=
  let argStart := m_rest st in
  '(arg, st) ← parseSequence true inBracket inBrace true st;
  Ok (addChild (parser_capture_raw_arg call argStart (m_rest st)) arg, st).

Fixpoint arg_loop (n : nat) (inBracket inBrace : bool) (call : ASTNode) (st : ASTParser) : run (ASTNode * ASTParser) :=
  match n with
  | O => NoFuel
  | S n =>
      if atEnd st then Ok (call, st)
      else
        comma ← at_type st ASTTOK_COMMA;
        if (comma : bool) then
          '(_, st) ← advance st;
          '(call, st) ← parse_arg inBracket inBrace call st;
          arg_loop n inBracket inBrace call st
        else Ok (call, st)
  end.

(** Past the token of type [ty], if it is next. *)
Definition close_with (ty : ASTTokenType) (st : ASTParser) : run (bool * ASTParser) :=
  if atEnd st then Ok (false, st)
  else
    c ← at_type st ty;
    if (c : bool) then '(_, st) ← advance st; Ok (true, st) else Ok (false, st).

Definition parseArgList (call : ASTNode) (st : ASTParser) : run (ASTNode * ASTParser) :=
  '(empty, st) ← close_with ASTTOK_RPAREN st;
  if (empty : bool) then Ok (set_close call true true true, st)
  else
    let call := set_close call false true true in
    let inBracket := 0 <? m_bracketDepth st in
    let inBrace := 0 <? m_braceDepth st in
    '(call, st) ← parse_arg inBracket inBrace call st;
    '(call, st) ← arg_loop (S (length (m_rest st))) inBracket inBrace call st;
    '(closed, st) ← close_with ASTTOK_RPAREN st;
    let call := set_close call closed true true in
    call ← parser_apply_structural_arg_policy (s_ast_parse_depth st) call;
    Ok (call, st).

Definition parseFuncCall (st : ASTParser) : run (ASTNode * ASTParser) :=
  '(funcTok, st) ← advance st;
  let call := set_known (new_node AST_FUNCCALL (text funcTok)) (ast_noeval_kind (text funcTok))
    (parser_lookup_builtin_noeval (text funcTok)) in
  '(paren, st) ← close_with ASTTOK_LPAREN st;
  if (paren : bool) then parseArgList call st else Ok (set_type call AST_LITERAL, st).

Definition parseEvalBracket (st : ASTParser) : run (ASTNode * ASTParser) :=
  '(_, st) ← advance st;
  '(contents, st) ← parseSequence false true false false (in_bracket st 1);
  let bracket := addChild (new_node AST_EVALBRACKET []) contents in
  '(closed, st) ← close_with ASTTOK_RBRACK st;
  Ok (set_close bracket true closed true, in_bracket st (-1)).

Definition parseBraceGroup (st : ASTParser) : run (ASTNode * ASTParser) :=
  '(_, st) ← advance st;
  '(contents, st) ← parseSequence false false true false (in_brace st 1);
  let group := addChild (new_node AST_BRACEGROUP []) contents in
  '(closed, st) ← close_with ASTTOK_RBRACE st;
  Ok (set_close group true true closed, in_brace st (-1)).

Definition parseOne (st : ASTParser) : run (option ASTNode * ASTParser) :=
  tok ← peek st;
  let leaf ty := '(_, st) ← advance st; Ok (Some (new_node ty (text tok)), st) in
  let some r := '(n, st) ← r; Ok (Some n, st) in
  match type tok with
  | ASTTOK_LIT => leaf AST_LITERAL
  | ASTTOK_SPACE => leaf AST_SPACE
  | ASTTOK_PCT => leaf AST_SUBST
  | ASTTOK_ESC => leaf AST_ESCAPE
  | ASTTOK_SEMI => leaf AST_SEMICOLON
  | ASTTOK_FUNC => some (parseFuncCall st)
  | ASTTOK_LBRACK => some (parseEvalBracket st)
  | ASTTOK_LBRACE => some (parseBraceGroup st)
  | ASTTOK_RPAREN | ASTTOK_RBRACK | ASTTOK_RBRACE | ASTTOK_COMMA | ASTTOK_LPAREN => leaf AST_LITERAL
  | ASTTOK_EOF => Ok (None, st)
  end.

(** Whether a token of this type ends the sequence. *)
Definition stops (stopRP stopRB stopRC stopCM : bool) (parenDepth : nat) (t : ASTTokenType) : bool :=
  match t with
  | ASTTOK_RPAREN => stopRP && (parenDepth =? 0)%nat
  | ASTTOK_RBRACK => stopRB
  | ASTTOK_RBRACE => stopRC
  | ASTTOK_COMMA => stopCM && (parenDepth =? 0)%nat
  | _ => false
  end.

Fixpoint seq_loop (n : nat) (stopRP stopRB stopRC stopCM : bool) (parenDepth : nat) (seq : ASTNode) (st : ASTParser) :
    run (ASTNode * ASTParser) :=
  match n with
  | O => NoFuel
  | S n =>
      if atEnd st then Ok (seq, st)
      else
        t ← peek st;
        if stops stopRP stopRB stopRC stopCM parenDepth (type t) then Ok (seq, st)
        else
          let parenDepth :=
            match type t with
            | ASTTOK_LPAREN => S parenDepth
            | ASTTOK_RPAREN => Nat.pred parenDepth
            | _ => parenDepth
            end in
          '(node, st) ← parseOne st;
          let seq := match node with Some node => addChild seq node | None => seq end in
          seq_loop n stopRP stopRB stopRC stopCM parenDepth seq st
  end.

Definition sequence_body (stopRP stopRB stopRC stopCM : bool) (st : ASTParser) : run (ASTNode * ASTParser) :=
  let st := deeper st 1 in
  let seq := new_node AST_SEQUENCE [] in
  if AST_PARSE_MAX_DEPTH <? s_ast_parse_depth st then Ok (seq, deeper st (-1))
  else
    '(seq, st) ← seq_loop (S (length (m_rest st))) stopRP stopRB stopRC stopCM 0 seq st;
    Ok (match children seq with [n] => n | _ => seq end, deeper st (-1)).

End Bodies.

(** A new parser, by the thread whose counter is [depth]. *)
Definition new_parser (tokens : list ASTToken) (depth : Z) : ASTParser :=
  {| m_rest := tokens; m_bracketDepth := 0; m_braceDepth := 0; s_ast_parse_depth := depth |}.

Fixpoint parseSequence (fuel : nat) (stopRP stopRB stopRC stopCM : bool) (st : ASTParser) : run (ASTNode * ASTParser) :=
  match fuel with
  | O => NoFuel
  | S fuel =>
      sequence_body
        (fun raw mode depth =>
           tokens ← of_option (ast_tokenize_mode raw mode);
           '(n, _) ← parseSequence fuel false false false false (new_parser tokens depth); Ok n)
        (parseSequence fuel) stopRP stopRB stopRC stopCM st
  end.

(** One more than the counter allows. *)
Definition parse_fuel : nat := S (S (Z.to_nat AST_PARSE_MAX_DEPTH)).

Definition ast_parse (tokens : list ASTToken) : run ASTNode :=
  '(n, _) ← parseSequence parse_fuel false false false false (new_parser tokens 0); Ok n.

Definition ast_parse_region (input : bytes) (mode : ASTLexMode) : run ASTNode :=
  tokens ← of_option (ast_tokenize_mode input mode); ast_parse tokens.

Definition ast_parse_string (input : bytes) : run ASTNode := ast_parse_region input ASTLEX_EVAL.

End Parser.

(** ** The text of a tree *)

Fixpoint joined (sep : bytes) (l : list bytes) : bytes :=
  match l with
  | [] => []
  | [s] => s
  | s :: l => s ++ sep ++ joined sep l
  end.

Fixpoint ast_raw_text (n : ASTNode) : bytes :=
  match n_type n with
  | AST_LITERAL | AST_SPACE | AST_SUBST | AST_ESCAPE => n_text n
  | AST_SEMICOLON => [59]
  | AST_FUNCCALL =>
      n_text n ++ [40] ++ joined [44] (map ast_raw_text (children n)) ++ (if has_close_paren n then [41] else [])
  | AST_EVALBRACKET => [91] ++ flat_map ast_raw_text (children n) ++ [93]
  | AST_BRACEGROUP => [123] ++ flat_map ast_raw_text (children n) ++ [125]
  | AST_SEQUENCE => flat_map ast_raw_text (children n)
  end.
