(* ===== verification/AstTree.v ===== *)
(** * What the expression parser returns

    The tree stands for every byte of the text: [source].  Nesting is bounded, and the arguments of
    the functions that do not evaluate them keep their text. *)

From Stdlib Require Import Strings.String.
From S2P Require Import Prelude Machine Decimal Encoding StringUtil CaseTables CaseMap AstScan Ast.

(** ** Trees *)

Lemma node_ind (P : ASTNode -> Prop) : (forall n, Forall P (children n) -> P n) -> forall n, P n.
Proof.
  intros H. fix IH 1. intros [ty s cs ds k kn p b c]. apply H. cbn [children].
  induction cs as [|n cs IHcs]; constructor; [apply IH|exact IHcs].
Qed.

(** The text that a tree stands for: that of [ast_raw_text], but the brackets and braces that the
    parser found no end of have none. *)
Fixpoint source (n : ASTNode) : bytes :=
  match n_type n with
  | AST_LITERAL | AST_SPACE | AST_SUBST | AST_ESCAPE => n_text n
  | AST_SEMICOLON => [59]
  | AST_FUNCCALL =>
      n_text n ++ [40] ++ joined [44] (map source (children n)) ++ (if has_close_paren n then [41] else [])
  | AST_EVALBRACKET => [91] ++ flat_map source (children n) ++ (if has_close_bracket n then [93] else [])
  | AST_BRACEGROUP => [123] ++ flat_map source (children n) ++ (if has_close_brace n then [125] else [])
  | AST_SEQUENCE => flat_map source (children n)
  end.

Fixpoint closed (n : ASTNode) : bool :=
  match n_type n with
  | AST_EVALBRACKET => has_close_bracket n
  | AST_BRACEGROUP => has_close_brace n
  | _ => true
  end && forallb closed (children n).

Lemma source_eq n : source n = match n_type n with
  | AST_LITERAL | AST_SPACE | AST_SUBST | AST_ESCAPE => n_text n
  | AST_SEMICOLON => [59]
  | AST_FUNCCALL =>
      n_text n ++ [40] ++ joined [44] (map source (children n)) ++ (if has_close_paren n then [41] else [])
  | AST_EVALBRACKET => [91] ++ flat_map source (children n) ++ (if has_close_bracket n then [93] else [])
  | AST_BRACEGROUP => [123] ++ flat_map source (children n) ++ (if has_close_brace n then [125] else [])
  | AST_SEQUENCE => flat_map source (children n)
  end.
Proof. by destruct n. Qed.

Lemma closed_raw_text n : closed n = true -> ast_raw_text n = source n.
Proof.
  induction n as [[ty s cs ds k kn p b c] IH] using node_ind.
    cbn [children closed n_type has_close_bracket has_close_brace] in *.
  intros [Ht Hc]%andb_prop. rewrite forallb_forall in Hc.
  assert (Hm : map ast_raw_text cs = map source cs).
  { apply map_ext_in. intros n Hn. rewrite Forall_forall in IH. apply IH; [by apply list_elem_of_In|by apply Hc]. }
  cbn [ast_raw_text source n_type n_text children has_close_paren has_close_bracket has_close_brace].
  rewrite !flat_map_concat_map, Hm. destruct ty; try done; by rewrite Ht.
Qed.

(** Calls, brackets and braces on the longest path. *)
Fixpoint nest (n : ASTNode) : nat :=
  (match n_type n with AST_FUNCCALL | AST_EVALBRACKET | AST_BRACEGROUP => 1 | _ => 0 end
   + foldr Nat.max 0 (map nest (children n)))%nat.

(** No argument is marked as deferred, and each has the text it was parsed from. *)
Inductive deferral_ok : ASTNode -> Prop :=
| deferral_intro n :
    Forall deferral_ok (children n) ->
    Forall (fun a => is_deferred a = false) (deferred_args n) ->
    (parser_known_noeval n = true -> n_type n = AST_FUNCCALL ->
     map raw_text (deferred_args n) = map source (children n)) ->
    deferral_ok n.

Definition node_ok (d : nat) (n : ASTNode) : Prop := deferral_ok n /\ (nest n <= d)%nat.

Lemma max_list_le l d : (foldr Nat.max 0 l <= d)%nat <-> Forall (fun k => (k <= d)%nat) l.
Proof.
  induction l as [|k l IH]; [split; [constructor|cbn; lia]|]. cbn [foldr]. rewrite Forall_cons, <- IH. lia.
Qed.

Lemma children_nest d cs : (foldr Nat.max 0 (map nest cs) <= d)%nat <-> Forall (fun n => (nest n <= d)%nat) cs.
Proof. rewrite max_list_le, Forall_map. done. Qed.

Lemma nest_eq n : nest n =
  (match n_type n with AST_FUNCCALL | AST_EVALBRACKET | AST_BRACEGROUP => 1 | _ => 0 end
   + foldr Nat.max 0 (map nest (children n)))%nat.
Proof. by destruct n. Qed.

(** ** States *)

Definition wf_st (st : ASTParser) : Prop := token_list (m_rest st).

Lemma token_list_cons t rest : token_list (t :: rest) -> (t = eof_token /\ rest = [])
  \/ (tok_ok t /\ type t <> ASTTOK_EOF /\ token_list rest).
Proof.
  intros (l & E & Hl). destruct l as [|x l]; injection E as -> ->; [by left|].
  right. apply Forall_cons in Hl as [[Ho He] Hl]. split_and!; [done|done|]. by exists l.
Qed.

Lemma token_list_nil : ~ token_list [].
Proof. intros (l & E & _). by destruct l. Qed.

(** From [st] to [st'] over tokens with the text [s]. *)
Definition parsed (st st' : ASTParser) (s : bytes) : Prop :=
  wf_st st' /\ (exists used, m_rest st = used ++ m_rest st' /\ texts used = s)
  /\ m_bracketDepth st' = m_bracketDepth st /\ m_braceDepth st' = m_braceDepth st
  /\ s_ast_parse_depth st' = s_ast_parse_depth st.

Lemma parsed_refl st : wf_st st -> parsed st st [].
Proof. intros Hw. split_and!; [done| |done..]. by exists []. Qed.

Lemma parsed_trans st st1 st2 s s' : parsed st st1 s -> parsed st1 st2 s' -> parsed st st2 (s ++ s').
Proof.
  intros (_ & (u & E & <-) & ? & ? & ?) (Hw & (u' & E' & <-) & ? & ? & ?).
  split_and!; [done| |congruence..]. exists (u ++ u'). rewrite E, E', texts_app. by rewrite <- app_assoc.
Qed.

Lemma parsed_length st st' s : parsed st st' s -> (length (m_rest st') <= length (m_rest st))%nat.
Proof. intros (_ & (u & -> & _) & _). rewrite length_app. lia. Qed.

Lemma parsed_shorter st st' s : parsed st st' s -> s <> [] -> (length (m_rest st') < length (m_rest st))%nat.
Proof. intros (_ & (u & -> & <-) & _) Hs. rewrite length_app. destruct u; [done|cbn; lia]. Qed.

(** The text between two positions. *)
Lemma parsed_raw st st' s : parsed st st' s -> rawTextFromTokens (m_rest st) (m_rest st') = s.
Proof.
  intros (_ & (u & -> & <-) & _). unfold rawTextFromTokens.
  by rewrite length_app, Nat.add_sub, take_app_length.
Qed.

Lemma advance_ok st : wf_st st -> atEnd st = false ->
  exists t rest, m_rest st = t :: rest /\ type t <> ASTTOK_EOF /\ tok_ok t
    /\ peek st = Ok t /\ advance st = Ok (t, at_pos st rest) /\ parsed st (at_pos st rest) (text t).
Proof.
  unfold wf_st, atEnd, peek, advance. destruct (m_rest st) as [|t rest] eqn:E; [done|]. intros Hw He.
  apply token_list_cons in Hw as [[-> ->]|(Ho & Hty & Hw)]; [done|]. exists t, rest.
  do 5 (split; [done|]). split; [done|]. split; [|done]. exists [t]. rewrite E. split; [done|]. cbn. by rewrite app_nil_r.
Qed.

(** [close_with] at a token whose text is fixed. *)
Lemma close_with_ok ty c st : wf_st st -> (forall t, tok_ok t -> type t = ty -> text t = [c]) ->
  exists b st', close_with ty st = Ok (b, st') /\ parsed st st' (if b then [c] else [])
    /\ (b = true -> exists t rest, m_rest st = t :: rest /\ type t = ty)
    /\ (b = false -> st' = st /\ (atEnd st = true \/ exists t rest, m_rest st = t :: rest /\ type t <> ty)).
Proof.
  intros Hw Hc. unfold close_with, at_type. destruct (atEnd st) eqn:He.
  { exists false, st. split_and!; [done|by apply parsed_refl|done|]. intros _. split; [done|by left]. }
  destruct (advance_ok st Hw He) as (t & rest & E & Hty & Ho & -> & Ha & Hp). cbn [mbind run_bind].
  case_bool_decide as Ht.
  - rewrite Ha. cbn [mbind run_bind]. eexists _, _. split; [done|]. rewrite (Hc t Ho Ht) in Hp.
    split_and!; [done| |done]. intros _. by exists t, rest.
  - exists false, st. split_and!; [done|by apply parsed_refl|done|]. intros _. split; [done|]. right. by exists t, rest.
Qed.

Definition at_stop (rp rb rc cm : bool) (st : ASTParser) : Prop :=
  atEnd st = true \/ exists t rest d, m_rest st = t :: rest /\ stops rp rb rc cm d (type t) = true.

(** What a function that parses a node promises, by [d] levels of nesting at most. *)
Definition parses {A} (r : run (A * ASTParser)) (st : ASTParser) (P : A -> ASTParser -> Prop) : Prop :=
  exists n st', r = Ok (n, st') /\ P n st'.

Definition seq_post (d : nat) (st : ASTParser) (rp rb rc cm : bool) (n : ASTNode) (st' : ASTParser) : Prop :=
  parsed st st' (source n) /\ node_ok d n /\ (s_ast_parse_depth st < AST_PARSE_MAX_DEPTH -> at_stop rp rb rc cm st').

(** ** The functions that parse a node *)

Section Bodies.
Context {HC : Config} {HB : Builtins}.
Variables (region : bytes -> ASTLexMode -> Z -> run ASTNode)
  (seq : bool -> bool -> bool -> bool -> ASTParser -> run (ASTNode * ASTParser)) (d : nat) (depth : Z).
Hypothesis seq_ok : forall rp rb rc cm st, wf_st st -> s_ast_parse_depth st = depth ->
  parses (seq rp rb rc cm st) st (seq_post d st rp rb rc cm).

(** A call under construction. *)
Definition call_ok (name : bytes) (call : ASTNode) : Prop :=
  n_type call = AST_FUNCCALL /\ n_text call = name /\ Forall (node_ok d) (children call)
  /\ Forall (fun a => is_deferred a = false) (deferred_args call)
  /\ (parser_known_noeval call = true -> map raw_text (deferred_args call) = map source (children call)).

Lemma call_ok_node name call : call_ok name call -> node_ok (S d) call.
Proof.
  intros (Ht & _ & Hc & Hd & Hr). split.
  - constructor; [|done|auto]. eapply Forall_impl; [exact Hc|]. by intros n [? _].
  - rewrite nest_eq, Ht. apply le_n_S, children_nest. eapply Forall_impl; [exact Hc|]. by intros n [_ ?].
Qed.

Lemma call_ok_source name call : call_ok name call -> source call = name ++ [40]
  ++ joined [44] (map source (children call)) ++ (if has_close_paren call then [41] else []).
Proof. intros (Ht & <- & _). by rewrite source_eq, Ht. Qed.

Lemma set_close_ok name call p b c : call_ok name call -> call_ok name (set_close call p b c)
  /\ children (set_close call p b c) = children call /\ has_close_paren (set_close call p b c) = p.
Proof. by destruct call. Qed.

Lemma addChild_ok name call n start stop : call_ok name call -> node_ok d n ->
  rawTextFromTokens start stop = source n ->
  call_ok name (addChild (parser_capture_raw_arg call start stop) n)
  /\ children (addChild (parser_capture_raw_arg call start stop) n) = children call ++ [n].
Proof.
  intros (Ht & Hn & Hc & Hd & Hr) Hok E. unfold parser_capture_raw_arg. rewrite E.
  destruct call as [ty s cs ds k kn p b c]; cbn [parser_known_noeval n_type n_text children deferred_args] in *.
  destruct kn; cbn [negb addChild set_deferred set_children children]; (split; [|done]);
    unfold call_ok; cbn [parser_known_noeval n_type n_text children deferred_args].
  - split_and!; try done; [by apply Forall_app; split; [|constructor]|by apply Forall_app; split; [|repeat constructor]|].
    intros _. by rewrite !map_app, Hr.
  - split_and!; try done. by apply Forall_app; split; [|constructor].
Qed.

Lemma parse_arg_ok ib ic name call st : wf_st st -> s_ast_parse_depth st = depth -> call_ok name call ->
  parses (parse_arg seq ib ic call st) st (fun call' st' => call_ok name call' /\
    exists n, children call' = children call ++ [n] /\ parsed st st' (source n)).
Proof.
  intros Hw Hd Hc. destruct (seq_ok true ib ic true st Hw Hd) as (n & st' & E & Hp & Hn & _).
  unfold parse_arg. rewrite E. cbn [mbind run_bind].
  destruct (addChild_ok name call n (m_rest st) (m_rest st') Hc Hn (parsed_raw _ _ _ Hp)) as [H1 H2].
  eexists _, _. split; [done|]. split; [done|]. by exists n.
Qed.

(** The arguments after the first. *)
Definition commas (ns : list ASTNode) : bytes := flat_map (fun n => [44] ++ source n) ns.

Lemma joined_commas n ns : joined [44] (map source (n :: ns)) = source n ++ commas ns.
Proof.
  revert n. induction ns as [|m ns IH]; intros n; [cbn; by rewrite app_nil_r|].
  change (map source (n :: m :: ns)) with (source n :: map source (m :: ns)).
  cbn [commas flat_map]. fold (commas ns). rewrite <- app_assoc, <- IH. reflexivity.
Qed.

Lemma comma_text t : tok_ok t -> type t = ASTTOK_COMMA -> text t = [44].
Proof. unfold tok_ok. intros H E. by rewrite E in H. Qed.

Lemma arg_loop_ok n ib ic name call st :
  wf_st st -> s_ast_parse_depth st = depth -> call_ok name call -> (length (m_rest st) < n)%nat ->
  parses (arg_loop seq n ib ic call st) st (fun call' st' => call_ok name call' /\
    exists ns, children call' = children call ++ ns /\ parsed st st' (commas ns)).
Proof.
  revert call st. induction n as [|n IH]; intros call st Hw Hd Hc Hn; [lia|]. cbn [arg_loop].
  destruct (atEnd st) eqn:He.
  { eexists _, _. split; [done|]. split; [done|]. exists []. rewrite app_nil_r. split; [done|by apply parsed_refl]. }
  destruct (advance_ok st Hw He) as (t & rest & E & Hty & Ho & Epk & Ha & Hp). unfold at_type. rewrite Epk.
  cbn [mbind run_bind]. case_bool_decide as Ht.
  2:{ eexists _, _. split; [done|]. split; [done|]. exists []. rewrite app_nil_r. split; [done|by apply parsed_refl]. }
  rewrite Ha. cbn [mbind run_bind]. rewrite (comma_text t Ho Ht) in Hp.
  destruct (parse_arg_ok ib ic name call (at_pos st rest)) as (call1 & st1 & -> & Hc1 & m & Em & Hp1); [apply Hp|done|
    done|].
  cbn [mbind run_bind]. pose proof (parsed_trans _ _ _ _ _ Hp Hp1) as Hp2.
  destruct (IH call1 st1) as (call2 & st2 & E2 & Hc2 & ns & Ens & Hp3).
  { apply Hp1. }
  { destruct Hp2 as (_ & _ & _ & _ & ->). done. }
  { done. }
  { pose proof (parsed_shorter _ _ _ Hp2 ltac:(done)). lia. }
  eexists _, _. split; [exact E2|]. split; [done|]. exists (m :: ns). split.
  - by rewrite Ens, Em, <- app_assoc.
  - exact (parsed_trans _ _ _ _ _ Hp2 Hp3).
Qed.

(** No argument is taken to be deferred. *)
Lemma structural_args_id n i call :
  Forall (fun a => is_deferred a = false) (deferred_args call) -> (i + n <= length (deferred_args call))%nat ->
  structural_args region n i depth call = Ok call.
Proof.
  intros Hd. revert i. induction n as [|n IH]; intros i Hi; [done|]. cbn [structural_args].
  assert (E : ast_call_arg_is_deferred call i = false).
  { unfold ast_call_arg_is_deferred. destruct (deferred_args call !! i) as [a|] eqn:Ea.
    - rewrite Forall_lookup in Hd. by apply (Hd i).
    - apply lookup_ge_None in Ea. lia. }
  rewrite E. cbn [negb mbind run_bind]. apply IH. lia.
Qed.

Lemma policy_id name call : call_ok name call ->
  parser_apply_structural_arg_policy region depth call = Ok call.
Proof.
  intros (_ & _ & _ & Hd & Hr). unfold parser_apply_structural_arg_policy.
  destruct (parser_known_noeval call) eqn:Ek; [|done]. cbn [negb].
  assert (El : length (deferred_args call) = length (children call)).
  { specialize (Hr eq_refl). apply (f_equal length) in Hr. by rewrite !length_map in Hr. }
  assert (Er : set_deferred call (resize (length (children call)) (deferred_args call)) = call).
  { unfold resize. rewrite <- El, firstn_all, Nat.sub_diag, app_nil_r. by destruct call. }
  rewrite Er. apply structural_args_id; [done|lia].
Qed.

Lemma rparen_text t : tok_ok t -> type t = ASTTOK_RPAREN -> text t = [41].
Proof. unfold tok_ok. intros H E. by rewrite E in H. Qed.

Lemma parseArgList_ok name call st :
  wf_st st -> s_ast_parse_depth st = depth -> call_ok name call -> children call = [] ->
  parses (parseArgList region seq call st) st (fun call' st' => node_ok (S d) call' /\
    exists s, source call' = name ++ [40] ++ s /\ parsed st st' s).
Proof.
  intros Hw Hd Hc Hch. unfold parseArgList.
  destruct (close_with_ok ASTTOK_RPAREN 41 st Hw rparen_text) as (b & st1 & -> & Hp1 & _ & Hno).
  cbn [mbind run_bind]. destruct b.
  { destruct (set_close_ok name call true true true Hc) as (Hc1 & E1 & E2). eexists _, _. split; [done|].
    split; [by eapply call_ok_node|]. exists [41]. split; [|done].
    rewrite (call_ok_source name) by done. by rewrite E1, E2, Hch. }
  destruct (Hno eq_refl) as [-> _]. clear Hno Hp1.
  destruct (set_close_ok name call false true true Hc) as (Hc1 & E1 & _).
  destruct (parse_arg_ok (0 <? m_bracketDepth st) (0 <? m_braceDepth st) name _ st Hw Hd Hc1)
    as (call2 & st2 & -> & Hc2 & n & E2 & Hp2).
  cbn [mbind run_bind].
  assert (Hd2 : s_ast_parse_depth st2 = depth) by (destruct Hp2 as (_ & _ & _ & _ & ->); done).
  destruct (arg_loop_ok (S (length (m_rest st2))) (0 <? m_bracketDepth st) (0 <? m_braceDepth st) name call2 st2)
    as (call3 & st3 & -> & Hc3 & ns & E3 & Hp3); [apply Hp2|done|done|lia|].
  cbn [mbind run_bind].
  destruct (close_with_ok ASTTOK_RPAREN 41 st3 ltac:(apply Hp3) rparen_text) as (b & st4 & -> & Hp4 & _ & _).
  cbn [mbind run_bind]. destruct (set_close_ok name call3 b true true Hc3) as (Hc4 & E4 & Eb).
  assert (Hd4 : s_ast_parse_depth st4 = depth).
  { destruct Hp4 as (_ & _ & _ & _ & ->), Hp3 as (_ & _ & _ & _ & ->). done. }
  rewrite Hd4, (policy_id name) by done. cbn [mbind run_bind]. eexists _, _. split; [done|].
  split; [by eapply call_ok_node|]. eexists. split; [by apply call_ok_source|].
  rewrite E4, Eb, E3, E2, E1, Hch. cbn [app]. rewrite joined_commas.
  exact (parsed_trans _ _ _ _ _ (parsed_trans _ _ _ _ _ Hp2 Hp3) Hp4).
Qed.

Lemma lparen_text t : tok_ok t -> type t = ASTTOK_LPAREN -> text t = [40].
Proof. unfold tok_ok. intros H E. by rewrite E in H. Qed.

(** What [parseOne] promises. *)
Definition one_post (st : ASTParser) (n : ASTNode) (st' : ASTParser) : Prop :=
  node_ok (S d) n /\ parsed st st' (source n) /\ source n <> [].

Lemma leaf_ok ty s : (ty = AST_LITERAL \/ ty = AST_SPACE \/ ty = AST_SUBST \/ ty = AST_ESCAPE \/ ty = AST_SEMICOLON) ->
  node_ok (S d) (new_node ty s).
Proof.
  intros H. split; [constructor; [constructor|constructor|]|].
  - cbn. intros _ ->. by repeat destruct H as [H|H].
  - cbn. by repeat destruct H as [->|H]; [cbn; lia..|subst; cbn; lia].
Qed.

Lemma parseFuncCall_ok st : wf_st st -> s_ast_parse_depth st = depth -> at_type st ASTTOK_FUNC = Ok true ->
  parses (parseFuncCall region seq st) st (one_post st).
Proof.
  intros Hw Hd Hf. unfold parseFuncCall.
  assert (He : atEnd st = false).
  { unfold at_type, peek, atEnd in *. destruct (m_rest st) as [|t rest]; [done|]. cbn in Hf.
    injection Hf as Hf. apply bool_decide_eq_true in Hf. rewrite Hf. done. }
  destruct (advance_ok st Hw He) as (t & rest & E & Hty & Ho & Epk & Ha & Hp). rewrite Ha. cbn [mbind run_bind].
  unfold at_type in Hf. rewrite Epk in Hf. cbn in Hf. injection Hf as Hf. apply bool_decide_eq_true in Hf.
  assert (Hne : text t <> []) by (unfold tok_ok in Ho; by rewrite Hf in Ho).
  set (call := set_known _ _ _).
  assert (Hc : call_ok (text t) call) by (unfold call_ok, call; cbn; split_and!; try done; constructor).
  destruct (close_with_ok ASTTOK_LPAREN 40 (at_pos st rest) ltac:(apply Hp) lparen_text) as (b & st1 & -> & Hp1 & _ & _).
  cbn [mbind run_bind]. pose proof (parsed_trans _ _ _ _ _ Hp Hp1) as Hp2. destruct b.
  - destruct (parseArgList_ok (text t) call st1) as (call' & st2 & -> & Hok & s & Es & Hp3); [apply Hp1| |done|done|].
    { destruct Hp1 as (_ & _ & _ & _ & ->). done. }
    eexists _, _. split; [done|]. split; [done|]. rewrite Es, app_assoc. split; [by eapply parsed_trans|].
    by destruct (text t).
  - eexists _, _. split; [done|]. rewrite app_nil_r in Hp2. split_and!; [|done|done].
    split; [constructor; [constructor|constructor|done]|cbn; lia].
Qed.


(** The contents of a group, and its end. *)
Lemma group_ok (ty : ASTTokenType) c0 c1 (rb rc : bool) (enter leave : ASTParser -> ASTParser)
    (set : ASTNode -> bool -> ASTNode) (nty : ASTNodeType) st :
  wf_st st -> s_ast_parse_depth st = depth -> atEnd st = false ->
  (forall t rest, m_rest st = t :: rest -> text t = [c0]) ->
  (forall t, tok_ok t -> type t = ty -> text t = [c1]) ->
  (forall st st' s, parsed st st' s -> parsed (enter st) (enter st') s /\ parsed (leave st) (leave st') s) ->
  (forall st, leave (enter st) = st) -> (forall st, s_ast_parse_depth (enter st) = s_ast_parse_depth st) ->
  (forall n b, node_ok d n -> node_ok (S d) (set n b) /\ source (set n b) = [c0] ++ source n ++ (if b then [c1] else
    [])) ->
  parses ('(_, st) ← advance st;
    '(contents, st) ← seq false rb rc false (enter st);
    '(closed, st) ← close_with ty st;
    Ok (set contents closed, leave st)) st (one_post st).
Proof.
  intros Hw Hd He H0 H1 Hel Hle Hen Hset.
  destruct (advance_ok st Hw He) as (t & rest & E & Hty & Ho & Epk & -> & Hp). cbn [mbind run_bind].
  rewrite (H0 t rest E) in Hp.
  destruct (seq_ok false rb rc false (enter (at_pos st rest))) as (n & st1 & -> & Hp1 & Hn & _).
  { destruct (Hel _ _ _ (parsed_refl _ (proj1 Hp))) as [Hx _]. apply Hx. }
  { by rewrite Hen. }
  cbn [mbind run_bind].
  destruct (close_with_ok ty c1 st1 ltac:(apply Hp1) H1) as (b & st2 & -> & Hp2 & _ & _). cbn [mbind run_bind].
  destruct (Hset n b Hn) as [Hok Es]. eexists _, _. split; [done|]. split_and!; [done| |by rewrite Es].
  rewrite Es. eapply parsed_trans; [exact Hp|].
  destruct (Hel _ _ _ (parsed_trans _ _ _ _ _ Hp1 Hp2)) as [_ H]. by rewrite Hle in H.
Qed.

Lemma parsed_same st st' s (f : ASTParser -> ASTParser) :
  (forall st, m_rest (f st) = m_rest st) ->
  (forall st st', m_bracketDepth st' = m_bracketDepth st -> m_bracketDepth (f st') = m_bracketDepth (f st)) ->
  (forall st st', m_braceDepth st' = m_braceDepth st -> m_braceDepth (f st') = m_braceDepth (f st)) ->
  (forall st st', s_ast_parse_depth st' = s_ast_parse_depth st -> s_ast_parse_depth (f st') = s_ast_parse_depth (f st)) ->
  parsed st st' s -> parsed (f st) (f st') s.
Proof. intros H1 H2 H3 H4 (Hw & Hu & ? & ? & ?). unfold parsed, wf_st. rewrite !H1. split_and!; auto. Qed.

Lemma parsed_bracket st st' s k : parsed st st' s -> parsed (in_bracket st k) (in_bracket st' k) s.
Proof. intros H. apply (parsed_same _ _ _ (fun st => in_bracket st k)); cbn; congruence || done. Qed.
Lemma parsed_brace st st' s k : parsed st st' s -> parsed (in_brace st k) (in_brace st' k) s.
Proof. intros H. apply (parsed_same _ _ _ (fun st => in_brace st k)); cbn; congruence || done. Qed.
Lemma parsed_deeper st st' s k : parsed st st' s -> parsed (deeper st k) (deeper st' k) s.
Proof. intros H. apply (parsed_same _ _ _ (fun st => deeper st k)); cbn; congruence || done. Qed.

Lemma group_node_ok nty n p b c : (nty = AST_EVALBRACKET \/ nty = AST_BRACEGROUP) -> node_ok d n ->
  node_ok (S d) (set_close (addChild (new_node nty []) n) p b c).
Proof.
  intros Ht [Hd Hn]. split.
  - constructor; [cbn; constructor; [exact Hd|constructor]|constructor|]. done.
  - rewrite nest_eq. cbn. destruct Ht as [->| ->]; lia.
Qed.

Lemma parseOne_ok st : wf_st st -> s_ast_parse_depth st = depth -> atEnd st = false ->
  parses (parseOne region seq st) st (fun n st' => exists m, n = Some m /\ one_post st m st').
Proof.
  intros Hw Hd He. unfold parseOne.
  destruct (advance_ok st Hw He) as (t & rest & E & Hty & Ho & Epk & Ha & Hp). rewrite Epk. cbn [mbind run_bind].
  assert (Hleaf : forall ty, (ty = AST_LITERAL \/ ty = AST_SPACE \/ ty = AST_SUBST \/ ty = AST_ESCAPE \/ ty =
    AST_SEMICOLON) ->
    source (new_node ty (text t)) = text t -> text t <> [] ->
    parses ('(_, st) ← advance st; Ok (Some (new_node ty (text t)), st)) st
      (fun n st' => exists m, n = Some m /\ one_post st m st')).
  { intros ty Ht Es Hne. rewrite Ha. cbn [mbind run_bind]. eexists _, _. split; [done|]. eexists. split; [done|].
    unfold one_post. rewrite Es. split_and!; [by apply leaf_ok|done|done]. }
  assert (Hsome : forall r, parses r st (one_post st) ->
    parses ('(n, st) ← r; Ok (Some n, st)) st (fun n st' => exists m, n = Some m /\ one_post st m st')).
  { intros r (n & st' & -> & Hn). cbn [mbind run_bind]. eexists _, _. split; [done|]. by exists n. }
  destruct (type t) eqn:Et; try done; unfold tok_ok in Ho; rewrite Et in Ho;
    try (apply Hleaf; [tauto|done|by rewrite ?Ho]).
  - apply Hsome, parseFuncCall_ok; [done|done|]. unfold at_type. rewrite Epk. cbn. by rewrite Et.
  - apply Hsome. unfold parseEvalBracket.
    apply (group_ok ASTTOK_RBRACK 91 93 true false (fun st => in_bracket st 1) (fun st => in_bracket st (-1))
      (fun n b => set_close (addChild (new_node AST_EVALBRACKET []) n) true b true) AST_EVALBRACKET); try done.
    + intros t' rest' E'. rewrite E in E'. by simplify_eq.
    + intros t' Ho' Et'. unfold tok_ok in Ho'. by rewrite Et' in Ho'.
    + intros st1 st2 s Hps. split; by apply parsed_bracket.
    + intros []. unfold in_bracket. cbn. f_equal. lia.
    + intros n b Hn. split; [apply group_node_ok; [by left|done]|]. cbn. by rewrite app_nil_r.
  - apply Hsome. unfold parseBraceGroup.
    apply (group_ok ASTTOK_RBRACE 123 125 false true (fun st => in_brace st 1) (fun st => in_brace st (-1))
      (fun n b => set_close (addChild (new_node AST_BRACEGROUP []) n) true true b) AST_BRACEGROUP); try done.
    + intros t' rest' E'. rewrite E in E'. by simplify_eq.
    + intros t' Ho' Et'. unfold tok_ok in Ho'. by rewrite Et' in Ho'.
    + intros st1 st2 s Hps. split; by apply parsed_brace.
    + intros []. unfold in_brace. cbn. f_equal. lia.
    + intros n b Hn. split; [apply group_node_ok; [by right|done]|]. cbn. by rewrite app_nil_r.
Qed.

(** A sequence under construction. *)
Definition sequence_ok (sq : ASTNode) : Prop :=
  n_type sq = AST_SEQUENCE /\ Forall (node_ok (S d)) (children sq) /\ deferred_args sq = []
  /\ parser_known_noeval sq = false.

Lemma sequence_ok_add sq n : sequence_ok sq -> node_ok (S d) n -> sequence_ok (addChild sq n)
  /\ children (addChild sq n) = children sq ++ [n].
Proof.
  intros (Ht & Hc & Hd & Hk) Hn. destruct sq. cbn in *. split; [|done]. split_and!; try done.
  cbn. apply Forall_app. split; [done|]. constructor; [done|constructor].
Qed.

Lemma seq_loop_ok n rp rb rc cm pd sq st :
  wf_st st -> s_ast_parse_depth st = depth -> sequence_ok sq -> (length (m_rest st) < n)%nat ->
  parses (seq_loop region seq n rp rb rc cm pd sq st) st (fun sq' st' => sequence_ok sq' /\ at_stop rp rb rc cm st' /\
    exists ns, children sq' = children sq ++ ns /\ parsed st st' (flat_map source ns)).
Proof.
  revert pd sq st. induction n as [|n IH]; intros pd sq st Hw Hd Hs Hn; [lia|]. cbn [seq_loop].
  destruct (atEnd st) eqn:He.
  { eexists _, _. split; [done|]. split_and!; [done|by left|]. exists []. rewrite app_nil_r. split; [done|
      by apply parsed_refl]. }
  destruct (advance_ok st Hw He) as (t & rest & E & Hty & Ho & Epk & Ha & Hp). rewrite Epk. cbn [mbind run_bind].
  destruct (stops rp rb rc cm pd (type t)) eqn:Est.
  { eexists _, _. split; [done|]. split_and!; [done|right; by exists t, rest, pd|]. exists []. rewrite app_nil_r.
    split; [done|by apply parsed_refl]. }
  destruct (parseOne_ok st Hw Hd He) as (? & st1 & -> & m & -> & Hm & Hp1 & Hne). cbn [mbind run_bind].
  destruct (sequence_ok_add sq m Hs Hm) as [Hs1 E1].
  destruct (IH (match type t with ASTTOK_LPAREN => S pd | ASTTOK_RPAREN => Nat.pred pd | _ => pd end)
    (addChild sq m) st1) as (sq' & st2 & E2 & Hs2 & Hstop & ns & Ens & Hp2).
  { apply Hp1. }
  { destruct Hp1 as (_ & _ & _ & _ & ->). done. }
  { done. }
  { pose proof (parsed_shorter _ _ _ Hp1 Hne). lia. }
  eexists _, _. split; [exact E2|]. split_and!; [done|done|]. exists (m :: ns). split.
  - by rewrite Ens, E1, <- app_assoc.
  - exact (parsed_trans _ _ _ _ _ Hp1 Hp2).
Qed.

Lemma sequence_body_ok rp rb rc cm st : wf_st st -> s_ast_parse_depth st + 1 = depth ->
  parses (sequence_body region seq rp rb rc cm st) st (fun n st' =>
    parsed st st' (source n) /\ node_ok (if AST_PARSE_MAX_DEPTH <? depth then 0 else S d) n
    /\ (depth <= AST_PARSE_MAX_DEPTH -> at_stop rp rb rc cm st')).
Proof.
  intros Hw Hd. unfold sequence_body. cbn [s_ast_parse_depth deeper]. rewrite Hd.
  assert (Hback : forall st', deeper (deeper st' 1) (-1) = st').
  { intros []. unfold deeper. cbn. f_equal. lia. }
  destruct (Z.ltb_spec AST_PARSE_MAX_DEPTH depth) as [Hlt|Hle].
  { eexists _, _. split; [done|]. rewrite Hback. split_and!; [by apply parsed_refl| |lia].
    split; [constructor; [constructor|constructor|done]|cbn; lia]. }
  destruct (seq_loop_ok (S (length (m_rest st))) rp rb rc cm 0 (new_node AST_SEQUENCE []) (deeper st 1))
    as (sq & st1 & E & (Ht & Hc & Hdf & Hk) & Hstop & ns & Ens & Hp); [done|done| |cbn; lia|].
  { unfold sequence_ok. cbn. split_and!; constructor || done. }
  cbn [m_rest deeper] in *. rewrite E. cbn [mbind run_bind children new_node app] in *. eexists _, _. split; [done|].
  apply (parsed_deeper _ _ _ (-1)) in Hp. rewrite Hback in Hp. rewrite Ens in *. split_and!.
  - replace (source _) with (flat_map source ns); [done|].
    destruct ns as [|m [|m' ns]]; [by rewrite source_eq, Ht, Ens|cbn; by rewrite app_nil_r|by rewrite source_eq, Ht, Ens].
  - assert (Hok : node_ok (S d) sq).
    { split.
      - constructor; [|by rewrite Hdf|by rewrite Hk]. rewrite Ens. eapply Forall_impl; [exact Hc|]. by intros m [? _].
      - rewrite nest_eq, Ht, Ens. apply children_nest. eapply Forall_impl; [exact Hc|]. by intros m [_ ?]. }
    destruct ns as [|m [|m' ns]]; [done| |done]. by apply Forall_cons in Hc as [? _].
  - intros _. exact Hstop.
Qed.

End Bodies.

(** ** The parser *)

Section Parser.
Context {HC : Config} {HB : Builtins}.

Lemma sequence_overflow region seq rp rb rc cm st : AST_PARSE_MAX_DEPTH <= s_ast_parse_depth st ->
  sequence_body region seq rp rb rc cm st = Ok (new_node AST_SEQUENCE [], st).
Proof.
  intros H. unfold sequence_body. cbn [s_ast_parse_depth deeper].
  replace (_ <? _) with true by (symmetry; apply Z.ltb_lt; lia). f_equal. f_equal.
  destruct st. unfold deeper. cbn. f_equal. lia.
Qed.

Lemma parseSequence_ok fuel rp rb rc cm st :
  wf_st st -> Z.max 0 (AST_PARSE_MAX_DEPTH - s_ast_parse_depth st) < Z.of_nat fuel ->
  parses (parseSequence fuel rp rb rc cm st) st
    (seq_post (Z.to_nat (AST_PARSE_MAX_DEPTH - s_ast_parse_depth st)) st rp rb rc cm).
Proof.
  revert rp rb rc cm st. induction fuel as [|fuel IH]; intros rp rb rc cm st Hw Hf; [lia|]. cbn [parseSequence].
  destruct (Z.le_gt_cases AST_PARSE_MAX_DEPTH (s_ast_parse_depth st)) as [Hge|Hlt].
  { rewrite sequence_overflow by done. eexists _, _. split; [done|]. split_and!; [by apply parsed_refl| |lia].
    split; [constructor; [constructor|constructor|done]|cbn; lia]. }
  match goal with |- parses (sequence_body ?r ?s _ _ _ _ _) _ _ => set (region := r); set (seq := s) end.
  destruct (sequence_body_ok region seq
    (Z.to_nat (AST_PARSE_MAX_DEPTH - (s_ast_parse_depth st + 1))) (s_ast_parse_depth st + 1)) with (rp := rp) (rb := rb)
    (rc := rc) (cm := cm) (st := st) as (n & st' & E & Hp & Hn & Hstop); try done.
  { intros rp' rb' rc' cm' st' Hw' Hd'. rewrite <- Hd'. apply IH; [done|lia]. }
  eexists _, _. split; [exact E|]. split_and!; [done| |intros _; apply Hstop; lia].
  replace (AST_PARSE_MAX_DEPTH <? _) with false in Hn by (symmetry; apply Z.ltb_ge; lia).
  by replace (S _) with (Z.to_nat (AST_PARSE_MAX_DEPTH - s_ast_parse_depth st)) in Hn by lia.
Qed.

Lemma ast_parse_region_tree input mode : exists n, ast_parse_region input mode = Ok n
  /\ source n = up_to_nul input /\ node_ok (Z.to_nat AST_PARSE_MAX_DEPTH) n.
Proof.
  unfold ast_parse_region. destruct (ast_tokenize_mode_ok input mode) as (l & -> & Hl).
  pose proof (typed_ok mode l _ Hl) as [Hok Htx]. cbn [of_option mbind run_bind]. unfold ast_parse.
  destruct (parseSequence_ok parse_fuel false false false false (new_parser (typed mode l ++ [eof_token]) 0))
    as (n & st' & -> & Hp & Hn & Hstop).
  { by exists (typed mode l). }
  { unfold parse_fuel. cbn [s_ast_parse_depth new_parser]. unfold AST_PARSE_MAX_DEPTH. lia. }
  cbn [mbind run_bind]. exists n. split_and!; [done| |by rewrite Z.sub_0_r in Hn].
  (* Nothing stops it but the end. *)
  assert (Hend : m_rest st' = [eof_token]).
  { destruct Hp as (Hw' & _). destruct (Hstop ltac:(done)) as [He|(t & rest & d & _ & Hs)].
    - unfold atEnd, wf_st in *. destruct (m_rest st') as [|t rest]; [by apply token_list_nil in Hw'|].
      apply token_list_cons in Hw' as [[-> ->]|(_ & Hty & _)]; [done|]. by apply bool_decide_eq_true in He.
    - by destruct (type t). }
  destruct Hp as (_ & (u & E & <-) & _). rewrite Hend in E. cbn [m_rest new_parser] in E.
  apply app_inj_2 in E as [<- _]; [done|done].
Qed.

End Parser.
