(* ===== verification/AstShape.v ===== *)
(** * The grammar of the expression parser

    Which tree a text gets whose parentheses, brackets and braces match, and the theorems on the
    parser. *)

From Stdlib Require Import Strings.String.
From S2P Require Import Prelude Machine Decimal Encoding StringUtil CaseTables CaseMap AstScan Ast AstTree.

(** ** The grammar *)

Definition leaf_type (ty : ASTTokenType) : option ASTNodeType :=
  match ty with
  | ASTTOK_LIT => Some AST_LITERAL
  | ASTTOK_SPACE => Some AST_SPACE
  | ASTTOK_PCT => Some AST_SUBST
  | ASTTOK_ESC => Some AST_ESCAPE
  | ASTTOK_SEMI => Some AST_SEMICOLON
  | _ => None
  end.

(** The node for a list of nodes: one stands for itself. *)
Definition sequence_of (ns : list ASTNode) : ASTNode :=
  match ns with [n] => n | _ => set_children (new_node AST_SEQUENCE []) ns end.

Definition literal_of (t : ASTToken) : ASTNode := new_node AST_LITERAL (text t).
Definition bracket_of (ns : list ASTNode) : ASTNode := addChild (new_node AST_EVALBRACKET []) (sequence_of ns).
Definition brace_of (ns : list ASTNode) : ASTNode := addChild (new_node AST_BRACEGROUP []) (sequence_of ns).

Section Grammar.
Context {HC : Config} {HB : Builtins}.

(** A call with its arguments, each with its text. *)
Definition call_of (f : ASTToken) (args : list (bytes * ASTNode)) : ASTNode := {|
  n_type := AST_FUNCCALL; n_text := text f; children := map snd args;
  deferred_args :=
    if parser_lookup_builtin_noeval (text f)
    then map (fun a => {| raw_text := a.1; is_deferred := false |}) args else [];
  noeval_kind := ast_noeval_kind (text f); parser_known_noeval := parser_lookup_builtin_noeval (text f);
  has_close_paren := true; has_close_bracket := true; has_close_brace := true |}.

(** The nodes of tokens that match, by [d] levels of calls, brackets and braces; whether a comma
    outside of these and of parentheses is a literal.  Commas part the arguments of a call. *)
Inductive shape : nat -> bool -> list ASTToken -> list ASTNode -> Prop :=
| shape_nil d c : shape d c [] []
| shape_leaf d c t ty l ns :
    leaf_type (type t) = Some ty -> shape d c l ns -> shape d c (t :: l) (new_node ty (text t) :: ns)
| shape_comma d t l ns :
    type t = ASTTOK_COMMA -> shape d true l ns -> shape d true (t :: l) (literal_of t :: ns)
| shape_paren d c t1 l1 ns1 t2 l2 ns2 :
    type t1 = ASTTOK_LPAREN -> shape d true l1 ns1 -> type t2 = ASTTOK_RPAREN -> shape d c l2 ns2 ->
    shape d c (t1 :: l1 ++ t2 :: l2) (literal_of t1 :: ns1 ++ literal_of t2 :: ns2)
| shape_bracket d c t1 l1 ns1 t2 l2 ns2 :
    type t1 = ASTTOK_LBRACK -> shape d true l1 ns1 -> type t2 = ASTTOK_RBRACK -> shape (S d) c l2 ns2 ->
    shape (S d) c (t1 :: l1 ++ t2 :: l2) (bracket_of ns1 :: ns2)
| shape_brace d c t1 l1 ns1 t2 l2 ns2 :
    type t1 = ASTTOK_LBRACE -> shape d true l1 ns1 -> type t2 = ASTTOK_RBRACE -> shape (S d) c l2 ns2 ->
    shape (S d) c (t1 :: l1 ++ t2 :: l2) (brace_of ns1 :: ns2)
| shape_call0 d c f t1 t2 l2 ns2 :
    type f = ASTTOK_FUNC -> type t1 = ASTTOK_LPAREN -> type t2 = ASTTOK_RPAREN -> shape d c l2 ns2 ->
    shape d c (f :: t1 :: t2 :: l2) (call_of f [] :: ns2)
| shape_call d c f t1 l1 args t2 l2 ns2 :
    type f = ASTTOK_FUNC -> type t1 = ASTTOK_LPAREN -> arguments d l1 args -> l1 <> [] ->
    type t2 = ASTTOK_RPAREN -> shape (S d) c l2 ns2 ->
    shape (S d) c (f :: t1 :: l1 ++ t2 :: l2) (call_of f args :: ns2)
with arguments : nat -> list ASTToken -> list (bytes * ASTNode) -> Prop :=
| arguments_one d l ns : shape d false l ns -> arguments d l [(texts l, sequence_of ns)]
| arguments_more d l ns t l' args :
    shape d false l ns -> type t = ASTTOK_COMMA -> arguments d l' args ->
    arguments d (l ++ t :: l') ((texts l, sequence_of ns) :: args).

Scheme shape_mut := Minimality for shape Sort Prop
with arguments_mut := Minimality for arguments Sort Prop.
Combined Scheme shape_arguments_ind from shape_mut, arguments_mut.

(** ** The parser follows the grammar *)

Definition addChildren (sq : ASTNode) (ns : list ASTNode) : ASTNode := set_children sq (children sq ++ ns).

Lemma addChildren_nil sq : addChildren sq [] = sq.
Proof. destruct sq. unfold addChildren. cbn. by rewrite app_nil_r. Qed.

Lemma addChildren_app sq ns ms : addChildren (addChildren sq ns) ms = addChildren sq (ns ++ ms).
Proof. destruct sq. unfold addChildren. cbn. by rewrite app_assoc. Qed.

Lemma addChild_one sq n : addChild sq n = addChildren sq [n].
Proof. done. Qed.

Section Steps.
Variables (region : bytes -> ASTLexMode -> Z -> run ASTNode)
  (seq : bool -> bool -> bool -> bool -> ASTParser -> run (ASTNode * ASTParser)).
Implicit Types (st : ASTParser).

(** One turn of the loop. *)
Lemma seq_loop_step n rp rb rc cm pd sq st t l m st' :
  m_rest st = t :: l -> type t <> ASTTOK_EOF -> stops rp rb rc cm pd (type t) = false ->
  parseOne region seq st = Ok (Some m, st') ->
  seq_loop region seq (S n) rp rb rc cm pd sq st
  = seq_loop region seq n rp rb rc cm (match type t with ASTTOK_LPAREN => S pd | ASTTOK_RPAREN => Nat.pred pd |
    _ => pd end)
      (addChildren sq [m]) st'.
Proof.
  intros E Ht Hs Ho. cbn [seq_loop]. unfold atEnd, peek. rewrite E, bool_decide_false by done.
  cbn [mbind run_bind]. rewrite Hs, Ho. reflexivity.
Qed.

Lemma close_with_yes ty st t l : m_rest st = t :: l -> type t = ty -> ty <> ASTTOK_EOF ->
  close_with ty st = Ok (true, at_pos st l).
Proof.
  intros E <- Ht. unfold close_with, atEnd, at_type, peek, advance. rewrite E, bool_decide_false by done.
  cbn [mbind run_bind]. rewrite bool_decide_true by done. reflexivity.
Qed.

Lemma close_with_no ty st t l : m_rest st = t :: l -> type t <> ty -> close_with ty st = Ok (false, st).
Proof.
  intros E Ht. unfold close_with, atEnd, at_type, peek. rewrite E. case_bool_decide; [done|].
  cbn [mbind run_bind]. by rewrite bool_decide_false.
Qed.

Lemma at_pos_twice st l l' : at_pos (at_pos st l) l' = at_pos st l'.
Proof. done. Qed.

End Steps.


Lemma at_pos_same st l : m_rest st = l -> at_pos st l = st.
Proof. intros <-. by destruct st. Qed.

(** The loop over the tokens of a shape. *)
Definition loops (d : nat) (c : bool) (l : list ASTToken) (ns : list ASTNode) : Prop :=
  (length ns <= length l)%nat /\
  forall fuel region rp rb rc cm pd sq st rest n,
    m_rest st = l ++ rest -> (c = true -> cm = false \/ (0 < pd)%nat) ->
    s_ast_parse_depth st + Z.of_nat d <= AST_PARSE_MAX_DEPTH ->
    AST_PARSE_MAX_DEPTH - s_ast_parse_depth st <= Z.of_nat fuel ->
    seq_loop region (parseSequence fuel) (length ns + n) rp rb rc cm pd sq st
    = seq_loop region (parseSequence fuel) n rp rb rc cm pd (addChildren sq ns) (at_pos st rest).

(** A whole sequence, up to a token that ends it. *)
Lemma loops_sequence d c l ns fuel rp rb rc cm st t rest :
  loops d c l ns -> m_rest st = l ++ t :: rest -> type t = ASTTOK_EOF \/ stops rp rb rc cm 0 (type t) = true ->
  (c = true -> cm = false) -> s_ast_parse_depth st + 1 + Z.of_nat d <= AST_PARSE_MAX_DEPTH ->
  AST_PARSE_MAX_DEPTH - s_ast_parse_depth st <= Z.of_nat fuel ->
  parseSequence fuel rp rb rc cm st = Ok (sequence_of ns, at_pos st (t :: rest)).
Proof.
  intros [Hl Hloop] E Ht Hc Hd Hf. destruct fuel as [|fuel]; [unfold AST_PARSE_MAX_DEPTH in *; lia|].
  cbn [parseSequence]. unfold sequence_body. cbn [s_ast_parse_depth m_rest deeper].
  replace (_ <? _) with false by (symmetry; apply Z.ltb_ge; lia).
  match goal with |- context [seq_loop ?r _ _ _ _ _ _ _ _ _] => set (region := r) end.
  assert (exists n, S (length (m_rest st)) = (length ns + S n)%nat) as [n ->].
  { exists (length (m_rest st) - length ns)%nat. rewrite E, length_app. lia. }
  rewrite (Hloop fuel region rp rb rc cm O (new_node AST_SEQUENCE []) (deeper st 1) (t :: rest));
    cbn [m_rest s_ast_parse_depth deeper];
    [|done|intros Hct; left; by apply Hc|lia|lia].
  cbn [seq_loop]. unfold atEnd, peek. cbn [m_rest at_pos].
  assert (Hfin : deeper (at_pos (deeper st 1) (t :: rest)) (-1) = at_pos st (t :: rest)).
  { destruct st. unfold deeper, at_pos. cbn. f_equal. lia. }
  case_bool_decide as He; cbn [mbind run_bind]; [|destruct Ht as [Ht|Ht]; [done|]; rewrite Ht; cbn [mbind run_bind]];
    rewrite Hfin; do 2 f_equal; by destruct ns as [|m [|m' ns]].
Qed.

(** A call with some of its arguments. *)
Definition call_with (f : ASTToken) (cl : bool) (args : list (bytes * ASTNode)) : ASTNode :=
  set_close (call_of f args) cl true true.

Lemma call_with_arg f args start stop n :
  addChild (parser_capture_raw_arg (call_with f false args) start stop) n
  = call_with f false (args ++ [(rawTextFromTokens start stop, n)]).
Proof.
  unfold parser_capture_raw_arg, call_with, call_of. cbn [set_close parser_known_noeval].
  destruct (parser_lookup_builtin_noeval (text f)); cbn; by rewrite !map_app.
Qed.

Lemma call_with_policy region depth f args :
  parser_apply_structural_arg_policy region depth (call_with f true args) = Ok (call_of f args).
Proof.
  unfold parser_apply_structural_arg_policy, call_with, call_of. cbn [set_close parser_known_noeval].
  destruct (parser_lookup_builtin_noeval (text f)); [|done]. cbn [negb].
  set (call := {| n_type := _ |}). set (ds := map _ args) in call.
  assert (E : set_deferred call (resize (length (children call)) (deferred_args call)) = call).
  { unfold resize. cbn. unfold ds. by rewrite !length_map, Nat.sub_diag, <- (length_map (fun a => {| raw_text := a.1;
      is_deferred := false |}) args), firstn_all, app_nil_r. }
  rewrite E. apply structural_args_id; [|cbn; unfold ds; by rewrite !length_map].
  cbn. unfold ds. apply Forall_map, Forall_true. done.
Qed.

(** The arguments of a call, up to its parenthesis. *)
Definition args_loop (d : nat) (l : list ASTToken) (args : list (bytes * ASTNode)) : Prop :=
  (length args <= S (length l))%nat /\ forall fuel ib ic st f pre t rest,
    m_rest st = l ++ t :: rest -> type t = ASTTOK_RPAREN ->
    s_ast_parse_depth st + 1 + Z.of_nat d <= AST_PARSE_MAX_DEPTH ->
    AST_PARSE_MAX_DEPTH - s_ast_parse_depth st <= Z.of_nat fuel ->
    exists call1 st1, parse_arg (parseSequence fuel) ib ic (call_with f false pre) st = Ok (call1, st1)
      /\ (length args <= S (length (m_rest st1)))%nat
      /\ forall n, (length args <= n)%nat ->
           arg_loop (parseSequence fuel) n ib ic call1 st1 = Ok (call_with f false (pre ++ args), at_pos st (t :: rest)).

Lemma raw_between l rest : rawTextFromTokens (l ++ rest) rest = texts l.
Proof. unfold rawTextFromTokens. by rewrite length_app, Nat.add_sub, take_app_length. Qed.

Lemma args_loop_one d l ns : loops d false l ns -> args_loop d l [(texts l, sequence_of ns)].
Proof.
  intros Hl. split; [cbn; lia|]. intros fuel ib ic st f pre t rest E Ht Hd Hf. unfold parse_arg.
  rewrite (loops_sequence d false l ns fuel true ib ic true st t rest Hl E) by (done || by (right; rewrite Ht)).
  cbn [mbind run_bind]. cbn [m_rest at_pos]. rewrite call_with_arg, E, raw_between.
  eexists _, _. split; [done|]. split; [cbn; lia|]. intros [|n] Hn; [cbn in Hn; lia|]. cbn [arg_loop].
  unfold atEnd, at_type, peek. cbn [m_rest at_pos]. rewrite Ht, bool_decide_false by done.
  cbn [mbind run_bind]. by rewrite Ht, bool_decide_false by done.
Qed.

Lemma args_loop_more d l ns t0 l' args : loops d false l ns -> type t0 = ASTTOK_COMMA -> args_loop d l' args ->
  args_loop d (l ++ t0 :: l') ((texts l, sequence_of ns) :: args).
Proof.
  intros Hl Ht0 [Hla Ha]. split; [rewrite length_app; cbn; lia|].
  intros fuel ib ic st f pre t rest E Ht Hd Hf. rewrite <- app_assoc in E. cbn [app] in E. unfold parse_arg at 1.
  rewrite (loops_sequence d false l ns fuel true ib ic true st t0 (l' ++ t :: rest) Hl E) by (done || by (right;
    rewrite Ht0)).
  cbn [mbind run_bind]. cbn [m_rest at_pos]. rewrite call_with_arg, E, raw_between.
  destruct (Ha fuel ib ic (at_pos st (l' ++ t :: rest)) f (pre ++ [(texts l, sequence_of ns)]) t rest) as
    (call1 & st1 & E1 & _ & Hgo); try done.
  eexists _, _. split; [done|]. split.
  { cbn [length m_rest at_pos]. rewrite length_app. lia. }
  intros [|n] Hn; [cbn in Hn; lia|]. cbn [arg_loop]. unfold atEnd, at_type, peek. cbn [m_rest at_pos].
  rewrite Ht0, bool_decide_false by done. cbn [mbind run_bind]. rewrite Ht0, bool_decide_true by done.
  unfold advance. cbn [m_rest at_pos mbind run_bind]. rewrite at_pos_twice, E1. cbn [mbind run_bind].
  rewrite Hgo by (cbn in Hn; lia). by rewrite <- app_assoc.
Qed.


(** One node of a shape and the rest of it. *)
Lemma loops_cons d c t l1 m l2 ns2 :
  (forall fuel region rp rb rc cm pd st rest,
    m_rest st = t :: l1 ++ rest -> (c = true -> cm = false \/ (0 < pd)%nat) ->
    s_ast_parse_depth st + Z.of_nat d <= AST_PARSE_MAX_DEPTH ->
    AST_PARSE_MAX_DEPTH - s_ast_parse_depth st <= Z.of_nat fuel ->
    stops rp rb rc cm pd (type t) = false /\
    parseOne region (parseSequence fuel) st = Ok (Some m, at_pos st rest)) ->
  type t <> ASTTOK_EOF -> type t <> ASTTOK_LPAREN -> type t <> ASTTOK_RPAREN ->
  loops d c l2 ns2 -> loops d c (t :: l1 ++ l2) (m :: ns2).
Proof.
  intros Hone He Hlp Hrp [Hl Hloop]. split; [cbn; rewrite length_app; lia|].
  intros fuel region rp rb rc cm pd sq st rest n E Hc Hd Hf. cbn [app] in E. rewrite <- app_assoc in E.
  destruct (Hone fuel region rp rb rc cm pd st (l2 ++ rest) E Hc Hd Hf) as [Hs Ho].
  cbn [length]. rewrite Nat.add_succ_l, (seq_loop_step _ _ _ _ _ _ _ _ _ _ _ _ _ _ E He Hs Ho).
  replace (match type t with ASTTOK_LPAREN => S pd | ASTTOK_RPAREN => Nat.pred pd |
    _ => pd end) with pd by by destruct (type t).
  rewrite (Hloop fuel region rp rb rc cm pd _ (at_pos st (l2 ++ rest)) rest n); [|done..].
  by rewrite addChildren_app.
Qed.

Lemma leaf_one region seq st t rest ty : m_rest st = t :: rest -> leaf_type (type t) = Some ty ->
  parseOne region seq st = Ok (Some (new_node ty (text t)), at_pos st rest).
Proof.
  intros E Ht. unfold parseOne, peek, advance. rewrite E. cbn [mbind run_bind].
  destruct (type t); try done; by injection Ht as <-.
Qed.

Lemma literal_one region seq st t rest : m_rest st = t :: rest ->
  (type t = ASTTOK_COMMA \/ type t = ASTTOK_LPAREN \/ type t = ASTTOK_RPAREN) ->
  parseOne region seq st = Ok (Some (literal_of t), at_pos st rest).
Proof.
  intros E Ht. unfold parseOne, peek, advance. rewrite E. cbn [mbind run_bind].
  by destruct Ht as [->|[->| ->]].
Qed.

Lemma loops_leaf d c t ty l ns : leaf_type (type t) = Some ty -> loops d c l ns ->
  loops d c (t :: l) (new_node ty (text t) :: ns).
Proof.
  intros Ht Hl. apply (loops_cons d c t []); try (by destruct (type t)).
  intros fuel region rp rb rc cm pd st rest E _ _ _. split; [by destruct (type t)|by apply leaf_one].
Qed.

Lemma loops_comma d t l ns : type t = ASTTOK_COMMA -> loops d true l ns -> loops d true (t :: l) (literal_of t :: ns).
Proof.
  intros Ht Hl. apply (loops_cons d true t []); try by rewrite Ht. 2: done.
  intros fuel region rp rb rc cm pd st rest E Hc _ _. split; [|apply literal_one; [done|by left]].
  rewrite Ht. cbn [stops]. destruct (Hc eq_refl) as [->|Hpd]; [done|]. destruct pd; [lia|]. by rewrite andb_false_r.
Qed.

Lemma loops_paren d c t1 l1 ns1 t2 l2 ns2 : type t1 = ASTTOK_LPAREN -> loops d true l1 ns1 ->
  type t2 = ASTTOK_RPAREN -> loops d c l2 ns2 ->
  loops d c (t1 :: l1 ++ t2 :: l2) (literal_of t1 :: ns1 ++ literal_of t2 :: ns2).
Proof.
  intros Ht1 [Hl1 Hg1] Ht2 [Hl2 Hg2]. split; [cbn; rewrite !length_app; cbn; lia|].
  intros fuel region rp rb rc cm pd sq st rest n E Hc Hd Hf. cbn [app] in E. rewrite <- app_assoc in E. cbn [app] in E.
  cbn [length]. rewrite length_app. cbn [length]. rewrite Nat.add_succ_l.
  rewrite (seq_loop_step _ _ _ _ _ _ _ _ _ _ _ _ _ _ E ltac:(by rewrite Ht1) ltac:(by rewrite Ht1)
    (literal_one _ _ _ _ _ E ltac:(by right; left))).
  rewrite Ht1. rewrite <- Nat.add_assoc, Nat.add_succ_l.
  rewrite (Hg1 fuel region rp rb rc cm (S pd) _ (at_pos st (l1 ++ t2 :: l2 ++ rest)) (t2 :: l2 ++ rest)); [|done|
    by right; lia|done|done].
  rewrite at_pos_twice.
  assert (E2 : m_rest (at_pos st (t2 :: l2 ++ rest)) = t2 :: l2 ++ rest) by done.
  assert (Hs2 : stops rp rb rc cm (S pd) (type t2) = false) by (rewrite Ht2; cbn; by destruct rp).
  rewrite (seq_loop_step _ _ _ _ _ _ _ _ _ _ _ _ _ _ E2 ltac:(by rewrite Ht2) Hs2 (literal_one _ _ _ _ _ E2 ltac:(by
    right; right))).
  rewrite Ht2. cbn [Nat.pred]. rewrite at_pos_twice.
  rewrite (Hg2 fuel region rp rb rc cm pd _ (at_pos st (l2 ++ rest)) rest n); [|done..].
  by rewrite !addChildren_app.
Qed.

Lemma loops_bracket d c t1 l1 ns1 t2 l2 ns2 : type t1 = ASTTOK_LBRACK -> loops d true l1 ns1 ->
  type t2 = ASTTOK_RBRACK -> loops (S d) c l2 ns2 -> loops (S d) c (t1 :: l1 ++ t2 :: l2) (bracket_of ns1 :: ns2).
Proof.
  intros Ht1 Hl1 Ht2 Hl2. replace (t1 :: l1 ++ t2 :: l2) with (t1 :: (l1 ++ [t2]) ++ l2) by by rewrite <- app_assoc.
  apply loops_cons; try by rewrite Ht1. 2: done.
  intros fuel region rp rb rc cm pd st rest E _ Hd Hf. split; [by rewrite Ht1|].
  rewrite <- app_assoc in E. cbn [app] in E. unfold parseOne, peek. rewrite E. cbn [mbind run_bind]. rewrite Ht1.
  unfold parseEvalBracket, advance. rewrite E. cbn [mbind run_bind].
  rewrite (loops_sequence d true l1 ns1 fuel false true false false (in_bracket (at_pos st (l1 ++ t2 :: rest)) 1) t2
    rest Hl1)
    by (done || (by right; rewrite Ht2) || (cbn; lia)).
  cbn [mbind run_bind]. rewrite (close_with_yes ASTTOK_RBRACK _ t2 rest) by done. cbn [mbind run_bind].
  do 3 f_equal. destruct st. unfold in_bracket, at_pos. cbn. f_equal. lia.
Qed.

Lemma loops_brace d c t1 l1 ns1 t2 l2 ns2 : type t1 = ASTTOK_LBRACE -> loops d true l1 ns1 ->
  type t2 = ASTTOK_RBRACE -> loops (S d) c l2 ns2 -> loops (S d) c (t1 :: l1 ++ t2 :: l2) (brace_of ns1 :: ns2).
Proof.
  intros Ht1 Hl1 Ht2 Hl2. replace (t1 :: l1 ++ t2 :: l2) with (t1 :: (l1 ++ [t2]) ++ l2) by by rewrite <- app_assoc.
  apply loops_cons; try by rewrite Ht1. 2: done.
  intros fuel region rp rb rc cm pd st rest E _ Hd Hf. split; [by rewrite Ht1|].
  rewrite <- app_assoc in E. cbn [app] in E. unfold parseOne, peek. rewrite E. cbn [mbind run_bind]. rewrite Ht1.
  unfold parseBraceGroup, advance. rewrite E. cbn [mbind run_bind].
  rewrite (loops_sequence d true l1 ns1 fuel false false true false (in_brace (at_pos st (l1 ++ t2 :: rest)) 1) t2
    rest Hl1)
    by (done || (by right; rewrite Ht2) || (cbn; lia)).
  cbn [mbind run_bind]. rewrite (close_with_yes ASTTOK_RBRACE _ t2 rest) by done. cbn [mbind run_bind].
  do 3 f_equal. destruct st. unfold in_brace, at_pos. cbn. f_equal. lia.
Qed.

(** A call up to its opening parenthesis. *)
Lemma call_one region seq st f t1 rest : m_rest st = f :: t1 :: rest -> type f = ASTTOK_FUNC -> type t1 = ASTTOK_LPAREN ->
  parseOne region seq st = ('(n, st) ← parseArgList region seq (call_of f []) (at_pos st rest); Ok (Some n, st)).
Proof.
  intros E Hf Ht. unfold parseOne, peek. rewrite E. cbn [mbind run_bind]. rewrite Hf. unfold parseFuncCall, advance.
  rewrite E. cbn [mbind run_bind]. rewrite (close_with_yes ASTTOK_LPAREN _ t1 rest) by done. cbn [mbind run_bind].
  rewrite at_pos_twice. unfold call_of, set_known, new_node. cbn [map].
    by destruct (parser_lookup_builtin_noeval (text f)).
Qed.

Lemma loops_call0 d c f t1 t2 l2 ns2 : type f = ASTTOK_FUNC -> type t1 = ASTTOK_LPAREN -> type t2 = ASTTOK_RPAREN ->
  loops d c l2 ns2 -> loops d c (f :: t1 :: t2 :: l2) (call_of f [] :: ns2).
Proof.
  intros Hf Ht1 Ht2 Hl. apply (loops_cons d c f [t1; t2]); try by rewrite Hf. 2: done.
  intros fuel region rp rb rc cm pd st rest E _ _ _. split; [by rewrite Hf|]. cbn [app] in E.
  rewrite (call_one _ _ _ _ _ _ E Hf Ht1). unfold parseArgList.
  rewrite (close_with_yes ASTTOK_RPAREN _ t2 rest) by done. reflexivity.
Qed.

Lemma loops_call d c f t1 t3 l1 args t2 l2 ns2 : type f = ASTTOK_FUNC -> type t1 = ASTTOK_LPAREN ->
  args_loop d (t3 :: l1) args -> type t3 <> ASTTOK_RPAREN -> type t2 = ASTTOK_RPAREN -> loops (S d) c l2 ns2 ->
  loops (S d) c (f :: t1 :: (t3 :: l1) ++ t2 :: l2) (call_of f args :: ns2).
Proof.
  intros Hf Ht1 [_ Ha] Ht3 Ht2 Hl.
  replace (f :: t1 :: (t3 :: l1) ++ t2 :: l2) with (f :: (t1 :: (t3 :: l1) ++ [t2]) ++ l2) by (cbn;
    by rewrite <- app_assoc).
  apply loops_cons; try by rewrite Hf. 2: done.
  intros fuel region rp rb rc cm pd st rest E _ Hd Hfu. split; [by rewrite Hf|].
  cbn [app] in E. rewrite <- app_assoc in E. cbn [app] in E.
  rewrite (call_one _ _ _ _ _ _ E Hf Ht1). unfold parseArgList.
  rewrite (close_with_no ASTTOK_RPAREN _ t3 (l1 ++ t2 :: rest)) by done. cbn [mbind run_bind].
  destruct (Ha fuel (0 <? m_bracketDepth (at_pos st (t3 :: l1 ++ t2 :: rest)))
    (0 <? m_braceDepth (at_pos st (t3 :: l1 ++ t2 :: rest))) (at_pos st (t3 :: l1 ++ t2 :: rest)) f [] t2 rest)
    as (call1 & st1 & E1 & Hlen & Hgo); [done|done|cbn; lia|done|].
  unfold call_with in E1. rewrite E1. cbn [mbind run_bind]. rewrite Hgo by done. cbn [mbind run_bind].
  rewrite (close_with_yes ASTTOK_RPAREN _ t2 rest) by done. cbn [mbind run_bind app].
  change (set_close (call_with f false args) true true true) with (call_with f true args).
  by rewrite call_with_policy.
Qed.

(** No sequence starts with a closing parenthesis. *)
Lemma shape_head d c t l ns : shape d c (t :: l) ns -> type t <> ASTTOK_RPAREN.
Proof. inversion 1; subst; congruence || by destruct (type t). Qed.

Lemma arguments_head d t l args : arguments d (t :: l) args -> type t <> ASTTOK_RPAREN.
Proof.
  inversion 1 as [? ? ns Hs|? l1 ns t0 l' args' Hs Ht0 Ha]; subst; [by eapply shape_head|].
  destruct l1 as [|t1 l1]; cbn [app] in *; simplify_eq; [congruence|by eapply shape_head].
Qed.

Lemma shape_loops :
  (forall d c l ns, shape d c l ns -> loops d c l ns) /\ (forall d l args, arguments d l args -> args_loop d l args).
Proof.
  apply shape_arguments_ind.
  - intros d c. split; [done|]. intros fuel region rp rb rc cm pd sq st rest n E _ _ _.
    by rewrite addChildren_nil, at_pos_same.
  - intros. by apply loops_leaf.
  - intros. by apply loops_comma.
  - intros. by apply loops_paren.
  - intros. by apply loops_bracket.
  - intros. by apply loops_brace.
  - intros. by apply loops_call0.
  - intros d c f t1 l1 args t2 l2 ns2 Hf Ht1 Hs Ha Hne Ht2 _ Hl. destruct l1 as [|t3 l1]; [done|].
    apply loops_call; try done. by eapply arguments_head.
  - intros. by apply args_loop_one.
  - intros. by apply args_loop_more.
Qed.

End Grammar.

(** ** The properties *)

(** [m] is [n] or below it. *)
Inductive subnode (m : ASTNode) : ASTNode -> Prop :=
| subnode_refl : subnode m m
| subnode_child n c : c ∈ children n -> subnode m c -> subnode m n.

Lemma deferral_subnode m n : subnode m n -> deferral_ok n -> deferral_ok m.
Proof.
  induction 1 as [|n c Hc _ IH]; [done|]. inversion 1 as [? Hch]. subst. apply IH.
  rewrite Forall_forall in Hch. by apply Hch.
Qed.

Section Properties.
Context {HC : Config} {HB : Builtins}.

(** C7: The parser returns a tree for every input, whatever its nesting, having read no token but
    its own.  The tree stands for all of the text up to the first NUL; [ast_raw_text] gives that
    text back if every bracket and brace was closed.  Calls, brackets and braces are nested at most
    [AST_PARSE_MAX_DEPTH] deep. *)
Theorem parse_spec input mode : exists n,
  ast_parse_region input mode = Ok n
  /\ source n = up_to_nul input
  /\ (closed n = true -> ast_raw_text n = up_to_nul input)
  /\ (nest n <= Z.to_nat AST_PARSE_MAX_DEPTH)%nat.
Proof.
  destruct (ast_parse_region_tree input mode) as (n & E & Es & _ & Hn). exists n. split_and!; try done.
  intros Hc. by rewrite closed_raw_text.
Qed.

(** C10: A text whose parentheses, brackets and braces match, by fewer than [AST_PARSE_MAX_DEPTH]
    levels of calls, brackets and braces, has the tree of the grammar: the arguments of a call are
    parted by the commas that are in no parentheses, brackets, braces or other calls. *)
Theorem parse_shape input mode l ns d :
  ast_tokenize_mode input mode = Some (l ++ [eof_token]) -> shape d true l ns ->
  Z.of_nat d < AST_PARSE_MAX_DEPTH ->
  ast_parse_region input mode = Ok (sequence_of ns).
Proof.
  intros Et Hs Hd. unfold ast_parse_region. rewrite Et. cbn [of_option mbind run_bind]. unfold ast_parse.
  rewrite (loops_sequence d true l ns parse_fuel false false false false (new_parser (l ++ [eof_token]) 0) eof_token []);
    [done|by apply shape_loops|done|by left|done|cbn [s_ast_parse_depth new_parser]; lia|].
  unfold parse_fuel. cbn [s_ast_parse_depth new_parser]. unfold AST_PARSE_MAX_DEPTH in *. lia.
Qed.

(** C34: No argument of a call is ever taken to be deferred, not even where [ast_noeval_arg_is_deferred]
    says that it is: the entry that [parser_capture_raw_arg] made for it answers first, and it says
    no.  The text of each argument is kept all the same. *)
Theorem never_deferred input mode n call i arg :
  ast_parse_region input mode = Ok n -> subnode call n -> n_type call = AST_FUNCCALL ->
  parser_known_noeval call = true -> children call !! i = Some arg ->
  ast_call_arg_is_deferred call i = false /\ ast_call_raw_arg call i = Some (source arg).
Proof.
  intros E Hsub Ht Hk Hi. destruct (ast_parse_region_tree input mode) as (n' & E' & _ & Hok & _).
  rewrite E in E'. injection E' as <-. pose proof (deferral_subnode call n Hsub Hok) as Hc.
  inversion Hc as [? _ Hf Hr]. subst. specialize (Hr Hk Ht).
  assert (Hl : exists a, deferred_args call !! i = Some a /\ raw_text a = source arg).
  { apply (f_equal (fun l => l !! i)) in Hr. rewrite !list_lookup_fmap, Hi in Hr. cbn in Hr.
    destruct (deferred_args call !! i) as [a|]; [|done]. exists a. split; [done|]. by injection Hr. }
  destruct Hl as (a & Ea & Es). unfold ast_call_arg_is_deferred, ast_call_raw_arg. rewrite Ea. cbn. split; [|by f_equal].
  rewrite Forall_lookup in Hf. by apply (Hf i).
Qed.

End Properties.

(** ** Examples *)

Definition no_builtins : Builtins := {| builtin_noeval _ := false |}.
Definition if_builtin : Builtins := {| builtin_noeval s := bool_decide (s = bytes_of "IF") |}.

(** An open bracket is closed by [ast_raw_text]. *)
Example raw_text_closes :
  (n ← @ast_parse_string default_config no_builtins (bytes_of "[a"); Ok (ast_raw_text n)) = Ok (bytes_of "[a]").
Proof. by vm_compute. Qed.

(** Nesting past the limit goes on at the level of the limit. *)
Fixpoint brackets (k : nat) : bytes := match k with O => [] | S k => 91 :: brackets k end.
Example too_deep :
  (n ← @ast_parse_string default_config no_builtins (brackets 1100); Ok (nest n)) = Ok 1000%nat.
Proof. by vm_compute. Qed.

Lemma parse_spec_witness :
  exists n, @ast_parse_region default_config no_builtins (bytes_of "f([a],{b") ASTLEX_EVAL = Ok n
    /\ source n = bytes_of "f([a],{b".
Proof.
  destruct (@parse_spec default_config no_builtins (bytes_of "f([a],{b") ASTLEX_EVAL) as (n & E & Es & _).
  exists n. split; [exact E|exact Es].
Defined.

Definition tk (ty : ASTTokenType) (s : string) : ASTToken := {| type := ty; text := bytes_of s |}.

Lemma parse_shape_witness :
  @ast_parse_region default_config no_builtins (bytes_of "f(a(,),b)") ASTLEX_EVAL
  = Ok (@call_of default_config no_builtins (tk ASTTOK_FUNC "f")
      [(bytes_of "a(,)",
        @call_of default_config no_builtins (tk ASTTOK_FUNC "a")
          [([], new_node AST_SEQUENCE []); ([], new_node AST_SEQUENCE [])]);
       (bytes_of "b", new_node AST_LITERAL (bytes_of "b"))]).
Proof.
  assert (Et : ast_tokenize_mode (bytes_of "f(a(,),b)") ASTLEX_EVAL
    = Some (([tk ASTTOK_FUNC "f"; tk ASTTOK_LPAREN "("] ++ ([tk ASTTOK_FUNC "a"; tk ASTTOK_LPAREN "("]
        ++ [tk ASTTOK_COMMA ","] ++ [tk ASTTOK_RPAREN ")"]) ++ [tk ASTTOK_COMMA ","] ++ [tk ASTTOK_LIT "b"]
        ++ [tk ASTTOK_RPAREN ")"]) ++ [eof_token])) by (vm_compute; reflexivity).
  refine (@parse_shape default_config no_builtins _ _ _ [@call_of default_config no_builtins (tk ASTTOK_FUNC "f") _]
    2 Et _ _); [|reflexivity].
  apply (@shape_call default_config no_builtins 1 true (tk ASTTOK_FUNC "f") (tk ASTTOK_LPAREN "(")
    ([tk ASTTOK_FUNC "a"; tk ASTTOK_LPAREN "("; tk ASTTOK_COMMA ",";
      tk ASTTOK_RPAREN ")"] ++ tk ASTTOK_COMMA "," :: [tk ASTTOK_LIT "b"])
    _ (tk ASTTOK_RPAREN ")") [] []); [reflexivity|reflexivity| |discriminate|reflexivity|constructor].
  apply (@arguments_more default_config no_builtins 1 [tk ASTTOK_FUNC "a"; tk ASTTOK_LPAREN "("; tk ASTTOK_COMMA ",";
    tk ASTTOK_RPAREN ")"]
    [@call_of default_config no_builtins (tk ASTTOK_FUNC "a") _] (tk ASTTOK_COMMA ",")); [|reflexivity|].
  - apply (@shape_call default_config no_builtins 0 false (tk ASTTOK_FUNC "a") (tk ASTTOK_LPAREN "(") [tk
      ASTTOK_COMMA ","] _
      (tk ASTTOK_RPAREN ")") [] []); [reflexivity|reflexivity| |discriminate|reflexivity|constructor].
    apply (@arguments_more default_config no_builtins 0 [] [] (tk ASTTOK_COMMA ",")); [constructor|reflexivity|].
    apply (@arguments_one default_config no_builtins 0 [] []). constructor.
  - apply (@arguments_one default_config no_builtins 1 [tk ASTTOK_LIT "b"] [new_node AST_LITERAL (bytes_of "b")]).
    apply (@shape_leaf default_config no_builtins 1 false (tk ASTTOK_LIT "b") AST_LITERAL [] []); [reflexivity|
      constructor].
Defined.

Lemma never_deferred_witness :
  exists n arg, @ast_parse_region default_config if_builtin (bytes_of "if(1,a)") ASTLEX_EVAL = Ok n
    /\ noeval_kind n = ASTNOEVAL_IFELSE /\ ast_noeval_arg_is_deferred (noeval_kind n) 1 (length (children n)) = true
    /\ children n !! 1%nat = Some arg
    /\ ast_call_arg_is_deferred n 1 = false /\ ast_call_raw_arg n 1 = Some (source arg).
Proof.
  eexists _, _. split; [vm_compute; reflexivity|]. split; [reflexivity|]. split; [reflexivity|]. split; [reflexivity|].
  eapply (@never_deferred default_config if_builtin (bytes_of "if(1,a)") ASTLEX_EVAL);
    [vm_compute; reflexivity|apply subnode_refl|reflexivity|reflexivity|reflexivity].
Defined.
