(* ===== verification/TaskHeap.v ===== *)
(** * The heaps of the scheduler (src/mux/include/externs.h)

    Task records, the two comparators and the class [CTaskHeap].  The standard library's heap
    algorithms leave the layout of a heap open: the class [StdHeap] states what they promise, and all
    of the development is for any implementation.  A heap of distinct tickets is a queue: the list of
    its records in the order of the comparator ([holds]). *)

From Stdlib Require Import Sorting.Sorted.
From stdpp Require Import sorting.
From S2P Require Import Prelude Machine.

(** ** Records *)

(** [fpTask] is the address of a function, 0 for [nullptr]. *)
Record TASK_RECORD := {
  ltaWhen : Z; iPriority : Z; m_Ticket : Z; fpTask : Z; arg_voidptr : Z; arg_Integer : Z; m_iVisitedMark : Z }.

#[export] Instance TASK_RECORD_eq : EqDecision TASK_RECORD.
Proof. solve_decision. Defined.

Definition set_mark (r : TASK_RECORD) (m : Z) : TASK_RECORD := {|
  ltaWhen := ltaWhen r; iPriority := iPriority r; m_Ticket := m_Ticket r; fpTask := fpTask r;
  arg_voidptr := arg_voidptr r; arg_Integer := arg_Integer r; m_iVisitedMark := m |}.
Definition set_fpTask (r : TASK_RECORD) (fp : Z) : TASK_RECORD := {|
  ltaWhen := ltaWhen r; iPriority := iPriority r; m_Ticket := m_Ticket r; fpTask := fp;
  arg_voidptr := arg_voidptr r; arg_Integer := arg_Integer r; m_iVisitedMark := m_iVisitedMark r |}.

Definition PRIORITY_SYSTEM : Z := 100.
Definition PRIORITY_PLAYER : Z := 200.
Definition PRIORITY_OBJECT : Z := 300.
Definition PRIORITY_SUSPEND : Z := 400.
Definition PRIORITY_CF_DEQUEUE_ENABLED : Z := PRIORITY_OBJECT.
Definition PRIORITY_CF_DEQUEUE_DISABLED : Z := PRIORITY_PLAYER - 1.

Definition IU_DONE : Z := 0.
Definition IU_NEXT_TASK : Z := 1.
Definition IU_REMOVE_TASK : Z := 2.
Definition IU_UPDATE_TASK : Z := 3.

Definition CompareWhenGreater (a b : TASK_RECORD) : bool :=
  if ltaWhen b <? ltaWhen a then true
  else if ltaWhen a <? ltaWhen b then false
  else m_Ticket b <? m_Ticket a.

Definition ComparePriorityGreater (a b : TASK_RECORD) : bool :=
  if negb (iPriority a =? iPriority b) then iPriority b <? iPriority a
  else m_Ticket b <? m_Ticket a.

(** ** The heap algorithms of the standard library *)

Definition is_heap {A} (comp : A -> A -> bool) (h : list A) : Prop :=
  forall i x y, h !! S i = Some x -> h !! (i / 2)%nat = Some y -> comp y x = false.

Definition strict_weak {A} (comp : A -> A -> bool) : Prop :=
  (forall x, comp x x = false)
  /\ (forall x y z, comp x y = true -> comp y z = true -> comp x z = true)
  /\ (forall x y z, comp x y = false -> comp y z = false -> comp x z = false).

(** A range is sorted when no element is less than one before it. *)
Definition ascending {A} (comp : A -> A -> bool) : list A -> Prop := StronglySorted (fun x y => comp y x = false).

(** [push_heap] moves the last element of a range into the heap before it, [pop_heap] moves the first
    element of a heap to the end, [make_heap] makes a heap of any range, and [sort_heap] sorts a heap. *)
Class StdHeap := {
  push_heap {A} (comp : A -> A -> bool) : list A -> list A;
  pop_heap {A} (comp : A -> A -> bool) : list A -> list A;
  make_heap {A} (comp : A -> A -> bool) : list A -> list A;
  sort_heap {A} (comp : A -> A -> bool) : list A -> list A;
  push_heap_ok {A} (comp : A -> A -> bool) h x : strict_weak comp -> is_heap comp h ->
    is_heap comp (push_heap comp (h ++ [x])) /\ push_heap comp (h ++ [x]) ≡ₚ h ++ [x];
  pop_heap_ok {A} (comp : A -> A -> bool) x h : strict_weak comp -> is_heap comp (x :: h) ->
    exists h', pop_heap comp (x :: h) = h' ++ [x] /\ is_heap comp h' /\ h' ≡ₚ h;
  make_heap_ok {A} (comp : A -> A -> bool) l : strict_weak comp ->
    is_heap comp (make_heap comp l) /\ make_heap comp l ≡ₚ l;
  sort_heap_ok {A} (comp : A -> A -> bool) h : strict_weak comp -> is_heap comp h ->
    ascending comp (sort_heap comp h) /\ sort_heap comp h ≡ₚ h }.

(** ** CTaskHeap *)

Record CTaskHeap := { m_Heap : list TASK_RECORD; h_iVisitedMark : Z }.

Definition empty_heap : CTaskHeap := {| m_Heap := []; h_iVisitedMark := 0 |}.

Definition with_heap (h : CTaskHeap) (l : list TASK_RECORD) : CTaskHeap :=
  {| m_Heap := l; h_iVisitedMark := h_iVisitedMark h |}.

(** A callback of a traversal: what it answers, and the record as it leaves it, from the records it
    has been given before and this one. *)
Definition SCHLOOK : Type := list TASK_RECORD -> TASK_RECORD -> Z * TASK_RECORD.

(** Whether a record is of a task. *)
Definition cancels (fp arg n : Z) (p : TASK_RECORD) : bool :=
  (fpTask p =? fp) && (arg_voidptr p =? arg) && (arg_Integer p =? n).

Section Heap.
Context {HS : StdHeap}.
Variable m_Compare : TASK_RECORD -> TASK_RECORD -> bool.

Definition Insert (h : CTaskHeap) (pTask : TASK_RECORD) : bool * CTaskHeap :=
  let pTask := set_mark pTask (sgn 32 (h_iVisitedMark h - 1)) in
  (true, with_heap h (push_heap m_Compare (m_Heap h ++ [pTask]))).

Definition CountInPriorityRange (h : CTaskHeap) (iLo iHi : Z) : Z :=
  Z.of_nat (length (List.filter (fun p =>
    negb (fpTask p =? 0) && (iLo <? iPriority p) && (iPriority p <? iHi)) (m_Heap h))).

Definition PeekAtTopmost (h : CTaskHeap) : option TASK_RECORD := head (m_Heap h).

Definition RemoveTopmost (h : CTaskHeap) : option TASK_RECORD * CTaskHeap :=
  match m_Heap h with
  | [] => (None, h)
  | _ =>
      let l := pop_heap m_Compare (m_Heap h) in
      (last l, with_heap h (removelast l))
  end.

Definition CancelTask (h : CTaskHeap) (fp arg n : Z) : CTaskHeap :=
  with_heap h (map (fun p => if cancels fp arg n p then set_fpTask p 0 else p) (m_Heap h)).

(** The loop over the indices: the answer [IU_DONE] ends all; otherwise whether a record was found
    that had not been visited. *)
Fixpoint visit_pass (n i : nat) (mark : Z) (pfLook : SCHLOOK) (seen : list TASK_RECORD) (unvisited : bool)
    (l : list TASK_RECORD) : option bool * list TASK_RECORD * list TASK_RECORD :=
  match n, l !! i with
  | S n, Some p =>
      if m_iVisitedMark p =? mark then visit_pass n (S i) mark pfLook seen unvisited l
      else
        let p := set_mark p mark in
        let (cmd, p') := pfLook seen p in
        let l := <[i := p']> l in
        let seen := seen ++ [p] in
        if cmd =? IU_REMOVE_TASK then
          visit_pass n (S i) mark pfLook seen true
            (make_heap m_Compare (removelast (<[i := default p' (last l)]> l)))
        else if cmd =? IU_DONE then (None, seen, l)
        else if cmd =? IU_UPDATE_TASK then visit_pass n (S i) mark pfLook seen true (make_heap m_Compare l)
        else visit_pass n (S i) mark pfLook seen true l
  | _, _ => (Some unvisited, seen, l)
  end.

(** Passes until one finds nothing. *)
Fixpoint visit_passes (fuel : nat) (mark : Z) (pfLook : SCHLOOK) (seen l : list TASK_RECORD) :
    option (bool * list TASK_RECORD * list TASK_RECORD) :=
  match fuel with
  | O => None
  | S fuel =>
      match visit_pass (length l) 0 mark pfLook seen false l with
      | (None, seen, l) => Some (false, seen, l)
      | (Some true, seen, l) => visit_passes fuel mark pfLook seen l
      | (Some false, seen, l) => Some (true, seen, l)
      end
  end.

(** The mark of this traversal; the counter is taken to wrap, as the test for 0 has it. *)
Definition next_mark (h : CTaskHeap) : CTaskHeap :=
  let mark := sgn 32 (h_iVisitedMark h + 1) in
  if mark =? 0 then {| m_Heap := map (fun p => set_mark p mark) (m_Heap h); h_iVisitedMark := mark + 1 |}
  else {| m_Heap := m_Heap h; h_iVisitedMark := mark |}.

(** Whether all were visited, the records as the callback was given them, and the heap after it. *)
Definition heap_TraverseUnordered (h : CTaskHeap) (pfLook : SCHLOOK) (seen : list TASK_RECORD) :
    option (bool * list TASK_RECORD * CTaskHeap) :=
  let h := next_mark h in
  match visit_passes (S (length (m_Heap h))) (h_iVisitedMark h) pfLook seen (m_Heap h) with
  | Some (all, seen, l) => Some (all, seen, with_heap h l)
  | None => None
  end.

(** From the last index down. *)
Fixpoint visit_down (i : nat) (pfLook : SCHLOOK) (seen l : list TASK_RECORD) : list TASK_RECORD * list TASK_RECORD :=
  match i with
  | O => (seen, l)
  | S i =>
      match l !! i with
      | Some p =>
          let (cmd, p') := pfLook seen p in
          let l := <[i := p']> l in
          if cmd =? IU_DONE then (seen ++ [p], l) else visit_down i pfLook (seen ++ [p]) l
      | None => (seen, l)
      end
  end.

Definition heap_TraverseOrdered (h : CTaskHeap) (pfLook : SCHLOOK) (seen : list TASK_RECORD) :
    bool * list TASK_RECORD * CTaskHeap :=
  let l := sort_heap m_Compare (m_Heap h) in
  let (seen, l) := visit_down (length l) pfLook seen l in
  (true, seen, with_heap h (make_heap m_Compare l)).

End Heap.

#[global] Arguments Insert : simpl never.
#[global] Arguments RemoveTopmost : simpl never.
#[global] Arguments PeekAtTopmost : simpl never.

(** ** The order of the records *)

Lemma sorted_rev {A} (R : A -> A -> Prop) l : StronglySorted R l -> StronglySorted (fun x y => R y x) (rev l).
Proof.
  induction 1 as [|x l Hs IH Hall]; cbn; [constructor|]. apply StronglySorted_app_2; [|done|repeat constructor].
  intros y z Hy ->%list_elem_of_singleton. rewrite Forall_forall in Hall. apply Hall.
  by rewrite list_elem_of_In, in_rev, <- list_elem_of_In.
Qed.

Definition unmark (r : TASK_RECORD) : TASK_RECORD := set_mark r 0.

(** A comparator orders by a key and then by ticket. *)
Class Comparator (comp : TASK_RECORD -> TASK_RECORD -> bool) := {
  key : TASK_RECORD -> Z;
  comp_spec a b : comp a b = true <-> key b < key a \/ key b = key a /\ m_Ticket b < m_Ticket a;
  key_mark r m : key (set_mark r m) = key r;
  key_cancel r fp : key (set_fpTask r fp) = key r }.

#[export] Program Instance CompareWhenGreater_ok : Comparator CompareWhenGreater := {| key := ltaWhen |}.
Next Obligation. intros a b. unfold CompareWhenGreater. repeat case_match; lia. Qed.
Next Obligation. done. Qed.
Next Obligation. done. Qed.

#[export] Program Instance ComparePriorityGreater_ok : Comparator ComparePriorityGreater := {| key := iPriority |}.
Next Obligation. intros a b. unfold ComparePriorityGreater. repeat case_match; lia. Qed.
Next Obligation. done. Qed.
Next Obligation. done. Qed.

Lemma unmark_set_mark r m : unmark (set_mark r m) = unmark r.
Proof. done. Qed.

(** The queue in which a record has been put in its place. *)
Fixpoint place (comp : TASK_RECORD -> TASK_RECORD -> bool) (r : TASK_RECORD) (q : list TASK_RECORD) : list TASK_RECORD :=
  match q with
  | [] => [r]
  | x :: q' => if comp x r then r :: q else x :: place comp r q'
  end.

Section Order.
Context {comp : TASK_RECORD -> TASK_RECORD -> bool} {HC : Comparator comp}.
Implicit Types (r a b x : TASK_RECORD) (q l : list TASK_RECORD).

Definition earlier a b : Prop := comp b a = true.

Lemma comp_false a b : comp a b = false <-> key a < key b \/ key a = key b /\ m_Ticket a <= m_Ticket b.
Proof. pose proof (comp_spec a b). destruct (comp a b); naive_solver lia. Qed.

Lemma comp_weak : strict_weak comp.
Proof. split_and!; intros *; rewrite ?comp_false, ?comp_spec; lia. Qed.

Lemma comp_marks a b m n : comp (set_mark a m) (set_mark b n) = comp a b.
Proof. apply eq_iff_eq_true. rewrite !comp_spec, !key_mark. done. Qed.

Lemma comp_cancels a b fp fp' : comp (set_fpTask a fp) (set_fpTask b fp') = comp a b.
Proof. apply eq_iff_eq_true. rewrite !comp_spec, !key_cancel. done. Qed.

#[export] Instance earlier_trans : Transitive earlier.
Proof. intros a b c. unfold earlier. rewrite !comp_spec. lia. Qed.

#[export] Instance earlier_asymm : AntiSymm (=) earlier.
Proof. intros a b. unfold earlier. rewrite !comp_spec. lia. Qed.

Lemma place_perm r q : place comp r q ≡ₚ r :: q.
Proof. induction q as [|x q IH]; cbn; [done|]. destruct (comp x r); [done|]. rewrite IH. apply perm_swap. Qed.

Lemma place_sorted r q : Forall (fun x => m_Ticket x <> m_Ticket r) q -> StronglySorted earlier q ->
  StronglySorted earlier (place comp r q).
Proof.
  induction q as [|x q IH]; cbn; intros Hf Hs; [by constructor|].
  inversion_clear Hf as [|?? Hx Hf']. inversion_clear Hs as [|?? Hs' Hx']. destruct (comp x r) eqn:E.
  - constructor; [by constructor|]. constructor; [done|].
    eapply Forall_impl; [exact Hx'|]. intros y Hy. by transitivity x.
  - constructor; [by apply IH|]. rewrite place_perm. constructor; [|done].
    unfold earlier. apply comp_false in E. rewrite comp_spec. lia.
Qed.

(** The first element of a heap is before or at every other. *)
Lemma heap_front l f x : is_heap comp l -> head l = Some f -> x ∈ l -> comp f x = false.
Proof.
  intros Hh Hf [i Hi]%list_elem_of_lookup. revert x Hi. induction i as [[|i] IH] using lt_wf_ind; intros x Hi.
  - destruct l; [done|]. cbn in *. simplify_eq. apply comp_weak.
  - assert (Hp : (i / 2 < S i)%nat) by (pose proof (Nat.Div0.div_le_upper_bound i 2 i); lia).
    destruct (l !! (i / 2)%nat) as [y|] eqn:Ey.
    + apply (proj2 (proj2 comp_weak) f y x); [by eapply IH|by eapply Hh].
    + apply lookup_lt_Some in Hi. apply lookup_ge_None in Ey. lia.
Qed.

(** ** Heaps as queues *)

(** The queue of a heap: its records without their marks, in order. *)
Definition holds (h : CTaskHeap) (q : list TASK_RECORD) : Prop :=
  is_heap comp (m_Heap h) /\ map unmark (m_Heap h) ≡ₚ q /\ StronglySorted earlier q.

Lemma holds_empty : holds empty_heap [].
Proof. split_and!; [by intros []|done|constructor]. Qed.

Lemma holds_perm h q : holds h q -> map unmark (m_Heap h) ≡ₚ q.
Proof. by intros (_ & H & _). Qed.

Lemma holds_length h q : holds h q -> length (m_Heap h) = length q.
Proof. intros H%holds_perm. by rewrite <- H, length_map. Qed.

Lemma holds_unique h q q' : holds h q -> holds h q' -> q = q'.
Proof.
  intros (_ & Hp & Hs) (_ & Hp' & Hs'). apply (StronglySorted_unique earlier); [done|done|by rewrite <- Hp].
Qed.

Context {HS : StdHeap}.

Lemma Insert_holds h q r : holds h q -> Forall (fun x => m_Ticket x <> m_Ticket r) q ->
  exists h', Insert comp h r = (true, h') /\ holds h' (place comp (unmark r) q).
Proof.
  intros (Hh & Hp & Hs) Hf. eexists. split; [reflexivity|].
  destruct (push_heap_ok comp (m_Heap h) (set_mark r (sgn 32 (h_iVisitedMark h - 1))) comp_weak Hh) as [Hh' Hp'].
  split_and!; cbn [m_Heap with_heap]; [exact Hh'| |by apply place_sorted].
  rewrite Hp', map_app, place_perm. cbn [map]. rewrite Hp. by rewrite Permutation_app_comm.
Qed.

Lemma Peek_holds h q : holds h q -> fmap unmark (PeekAtTopmost h) = head q.
Proof.
  intros (Hh & Hp & Hs). unfold PeekAtTopmost. destruct q as [|x q].
  { apply Permutation_nil_r in Hp. by destruct (m_Heap h). }
  destruct (m_Heap h) as [|f l] eqn:E; [by apply Permutation_nil_l in Hp|]. cbn. f_equal.
  assert (Hx : x ∈ map unmark (f :: l)) by (rewrite Hp; left).
  apply list_elem_of_fmap in Hx as (x' & Ex & Hx).
  pose proof (heap_front _ f x' Hh eq_refl Hx) as Hc.
  assert (Hf : unmark f ∈ x :: q) by (rewrite <- Hp; left).
  apply elem_of_cons in Hf as [Hf|Hf]; [done|]. inversion_clear Hs as [|?? _ Hall].
  rewrite Forall_forall in Hall. apply Hall in Hf. unfold earlier in Hf.
  rewrite Ex in Hf. unfold unmark in Hf. rewrite comp_marks in Hf. congruence.
Qed.

Lemma Remove_holds_nil h : holds h [] -> RemoveTopmost comp h = (None, h).
Proof. intros (_ & Hp & _). unfold RemoveTopmost. apply Permutation_nil_r in Hp. by destruct (m_Heap h). Qed.

Lemma Remove_holds h x q : holds h (x :: q) ->
  exists r h', RemoveTopmost comp h = (Some r, h') /\ unmark r = x /\ holds h' q.
Proof.
  intros H. pose proof (Peek_holds h _ H) as Hk. destruct H as (Hh & Hp & Hs). unfold PeekAtTopmost, RemoveTopmost in *.
  destruct (m_Heap h) as [|f l] eqn:E; [by apply Permutation_nil_l in Hp|]. cbn in Hk. injection Hk as Hk.
  destruct (pop_heap_ok comp f l comp_weak Hh) as (l' & Ep & Hh' & Hp'). rewrite Ep.
  exists f. eexists. rewrite last_snoc, removelast_last. split; [reflexivity|]. split; [done|].
  inversion_clear Hs as [|?? Hs' _]. split_and!; [done| |done]. cbn [m_Heap with_heap]. rewrite Hp'.
  cbn [map] in Hp. rewrite Hk in Hp. by apply Permutation_cons_inv in Hp.
Qed.

Definition q_cancel (fp arg n : Z) (q : list TASK_RECORD) : list TASK_RECORD :=
  map (fun p => if cancels fp arg n p then set_fpTask p 0 else p) q.

Lemma comp_same_order a b a' b' : key a = key a' -> m_Ticket a = m_Ticket a' -> key b = key b'
  -> m_Ticket b = m_Ticket b' ->
  comp a b = comp a' b'.
Proof. intros. apply eq_iff_eq_true. rewrite !comp_spec. lia. Qed.

Lemma cancel_order p fp arg n : key (if cancels fp arg n p then set_fpTask p 0 else p) = key p
  /\ m_Ticket (if cancels fp arg n p then set_fpTask p 0 else p) = m_Ticket p.
Proof. case_match; [by rewrite key_cancel|done]. Qed.

Lemma q_cancel_sorted q fp arg n : StronglySorted earlier q -> StronglySorted earlier (q_cancel fp arg n q).
Proof.
  apply (StronglySorted_fmap _ earlier earlier). intros a b H.
  unfold earlier in *. rewrite <- H. apply comp_same_order; apply cancel_order.
Qed.

Lemma Cancel_holds h q fp arg n : holds h q -> holds (CancelTask h fp arg n) (q_cancel fp arg n q).
Proof.
  intros (Hh & Hp & Hs). split_and!; cbn [m_Heap CancelTask with_heap].
  - intros i x y (x' & -> & Hx)%list_lookup_fmap_Some (y' & -> & Hy)%list_lookup_fmap_Some.
    rewrite <- (Hh i x' y' Hx Hy). apply comp_same_order; apply cancel_order.
  - unfold q_cancel. rewrite <- Hp, !map_map. erewrite map_ext; [reflexivity|]. intros r. unfold cancels. cbn.
      by case_match.
  - by apply q_cancel_sorted.
Qed.

Lemma count_perm (f : TASK_RECORD -> bool) l l' : l ≡ₚ l' -> length (List.filter f l) = length (List.filter f l').
Proof. induction 1; cbn; repeat case_match; cbn; congruence. Qed.

Lemma Count_holds h q lo hi : holds h q ->
  CountInPriorityRange h lo hi
  = Z.of_nat (length (List.filter (fun p => negb (fpTask p =? 0) && (lo <? iPriority p) && (iPriority p <? hi)) q)).
Proof.
  intros Hp%holds_perm. unfold CountInPriorityRange. f_equal. rewrite <- (count_perm _ _ _ Hp).
  clear Hp. induction (m_Heap h) as [|r l IH]; [done|]. cbn. destruct (negb _ && _ && _); cbn; lia.
Qed.

End Order.

#[export] Instance earlier_dec comp a b : Decision (@earlier comp a b) := decide (comp b a = true).

#[global] Arguments holds : clear implicits.
#[global] Arguments earlier : clear implicits, simpl never.
