(* ===== verification/Sched.v ===== *)
(** * The scheduler (src/mux/modules/engine/timer.cpp)

    The class [CScheduler] with all of its operations, and what [@kick] (cque.cpp) does with them.  A task
    is a program over the operations of the scheduler that a running task calls; it may run other tasks
    before it ends, as [@kick] does.  What it does besides is a change of a world of any type. *)

From S2P Require Import Prelude Machine TaskHeap.

Record CScheduler := {
  m_WhenHeap : CTaskHeap; m_PriorityHeap : CTaskHeap; next_Ticket : Z; m_minPriority : Z }.

Definition new_scheduler : CScheduler := {|
  m_WhenHeap := empty_heap; m_PriorityHeap := empty_heap; next_Ticket := 0;
  m_minPriority := PRIORITY_CF_DEQUEUE_ENABLED |}.

Definition with_heaps (s : CScheduler) (hw hp : CTaskHeap) : CScheduler := {|
  m_WhenHeap := hw; m_PriorityHeap := hp; next_Ticket := next_Ticket s; m_minPriority := m_minPriority s |}.
Definition with_ticket (s : CScheduler) (t : Z) : CScheduler := {|
  m_WhenHeap := m_WhenHeap s; m_PriorityHeap := m_PriorityHeap s; next_Ticket := t; m_minPriority := m_minPriority s |}.

(** What a running task calls, and what it is answered: whether it was enqueued, the least urgent
    priority that is run, the records that were visited.  The flag of the first two is whether [new]
    finds memory. *)
Inductive call :=
| DeferTask_ (mem : bool) (ltaWhen iPriority fpTask arg n : Z)
| DeferImmediateTask_ (mem : bool) (iPriority fpTask arg n : Z)
| CancelTask_ (fpTask arg n : Z)
| SetMinPriority_ (arg_minPriority : Z)
| GetMinPriority_
| ReadyTasks_ (ltaNow : Z)
| TraverseUnordered_ (pfLook : SCHLOOK)
| TraverseOrdered_ (pfLook : SCHLOOK).

Inductive reply := Enqueued (b : bool) | Priority (n : Z) | Seen (l : list TASK_RECORD) | Unit.

(** A task in the world [W]: it ends, or by an exception, or it calls the scheduler; or it runs tasks that
    are ready, in the world as it is then, and is told how many and in what world they leave it. *)
Inductive prog (W : Type) :=
| Ret (w : W) (thrown : bool)
| Do (c : call) (k : reply -> prog W)
| Run (iCount : Z) (w : W) (k : Z -> W -> prog W).
Arguments Ret {W} w thrown.
Arguments Do {W} c k.
Arguments Run {W} iCount w k.

(** What [do_queue] does for [@kick], at the time [lsaNow]; [k] is what follows. *)
Definition do_queue_kick {W} (lsaNow wanted : Z) (w : W) (k : Z -> W -> prog W) : prog W :=
  let i := if smax 32 <? wanted then smax 32 else if wanted <? 0 then 0 else wanted in
  let kick save_minPriority :=
    Do (ReadyTasks_ lsaNow) (fun _ =>
      Run i w (fun ncmds w => Do (SetMinPriority_ save_minPriority) (fun _ => k ncmds w))) in
  Do GetMinPriority_ (fun r =>
    match r with
    | Priority save_minPriority =>
        if save_minPriority <=? PRIORITY_CF_DEQUEUE_DISABLED then
          Do (SetMinPriority_ PRIORITY_CF_DEQUEUE_ENABLED) (fun _ => kick save_minPriority)
        else kick save_minPriority
    | _ => Ret w false
    end).

(** A task that was run, and whether an exception ended it. *)
Inductive event := Ran (p : TASK_RECORD) (thrown : bool).

Section Scheduler.
Context {HS : StdHeap}.

Definition new_task (s : CScheduler) (when iPriority fp arg n : Z) : TASK_RECORD := {|
  ltaWhen := when; iPriority := iPriority; m_Ticket := next_Ticket s; fpTask := fp;
  arg_voidptr := arg; arg_Integer := n; m_iVisitedMark := 0 |}.

Definition DeferTask (mem : bool) (when iPriority fp arg n : Z) (s : CScheduler) : bool * CScheduler :=
  if negb mem then (false, s)
  else
    let pTask := new_task s when iPriority fp arg n in
    let s := with_ticket s (wrap 64 (next_Ticket s + 1)) in
    let (b, h) := Insert CompareWhenGreater (m_WhenHeap s) pTask in
    (b, with_heaps s h (m_PriorityHeap s)).

(** The time of the record is that of its constructor. *)
Definition DeferImmediateTask (mem : bool) (iPriority fp arg n : Z) (s : CScheduler) : bool * CScheduler :=
  if negb mem then (false, s)
  else
    let pTask := new_task s 0 iPriority fp arg n in
    let s := with_ticket s (wrap 64 (next_Ticket s + 1)) in
    let (b, h) := Insert CompareWhenGreater (m_WhenHeap s) pTask in
    (b, with_heaps s h (m_PriorityHeap s)).

Definition sched_CancelTask (fp arg n : Z) (s : CScheduler) : CScheduler :=
  with_heaps s (CancelTask (m_WhenHeap s) fp arg n) (CancelTask (m_PriorityHeap s) fp arg n).

Fixpoint ready_loop (fuel : nat) (ltaNow : Z) (s : CScheduler) : option CScheduler :=
  match fuel with
  | O => None
  | S fuel =>
      match PeekAtTopmost (m_WhenHeap s) with
      | Some pTask =>
          if ltaWhen pTask <? ltaNow then
            let (top, hw) := RemoveTopmost CompareWhenGreater (m_WhenHeap s) in
            match top with
            | Some pTask =>
                if fpTask pTask =? 0 then ready_loop fuel ltaNow (with_heaps s hw (m_PriorityHeap s))
                else
                  let (_, hp) := Insert ComparePriorityGreater (m_PriorityHeap s) pTask in
                  ready_loop fuel ltaNow (with_heaps s hw hp)
            | None => ready_loop fuel ltaNow (with_heaps s hw (m_PriorityHeap s))
            end
          else Some s
      | None => Some s
      end
  end.

(** Each turn takes a record off the heap. *)
Definition ReadyTasks (ltaNow : Z) (s : CScheduler) : option CScheduler :=
  ready_loop (S (length (m_Heap (m_WhenHeap s)))) ltaNow s.

Definition sched_TraverseUnordered (pfLook : SCHLOOK) (s : CScheduler) : option (list TASK_RECORD * CScheduler) :=
  match heap_TraverseUnordered CompareWhenGreater (m_WhenHeap s) pfLook [] with
  | Some (true, seen, hw) =>
      match heap_TraverseUnordered ComparePriorityGreater (m_PriorityHeap s) pfLook seen with
      | Some (_, seen, hp) => Some (seen, with_heaps s hw hp)
      | None => None
      end
  | Some (false, seen, hw) => Some (seen, with_heaps s hw (m_PriorityHeap s))
  | None => None
  end.

Definition sched_TraverseOrdered (pfLook : SCHLOOK) (s : CScheduler) : list TASK_RECORD * CScheduler :=
  let '(_, seen, hp) := heap_TraverseOrdered ComparePriorityGreater (m_PriorityHeap s) pfLook [] in
  let '(_, seen, hw) := heap_TraverseOrdered CompareWhenGreater (m_WhenHeap s) pfLook seen in
  (seen, with_heaps s hw hp).

Definition SetMinPriority (arg_minPriority : Z) (s : CScheduler) : CScheduler := {|
  m_WhenHeap := m_WhenHeap s; m_PriorityHeap := m_PriorityHeap s; next_Ticket := next_Ticket s;
  m_minPriority := arg_minPriority |}.

Definition GetMinPriority (s : CScheduler) : Z := m_minPriority s.

Definition WhenNext (s : CScheduler) : option Z :=
  let when :=
    match PeekAtTopmost (m_WhenHeap s) with Some pTask => Some (ltaWhen pTask) | None => None end in
  match PeekAtTopmost (m_PriorityHeap s) with
  | Some pTask => if iPriority pTask <=? m_minPriority s then Some 0 else when
  | None => when
  end.

Definition HasPendingUserTasks (s : CScheduler) : bool :=
  (0 <? CountInPriorityRange (m_WhenHeap s) PRIORITY_SYSTEM PRIORITY_SUSPEND)
  || (0 <? CountInPriorityRange (m_PriorityHeap s) PRIORITY_SYSTEM PRIORITY_SUSPEND).

(** ** Running tasks *)

Definition do_call (c : call) (s : CScheduler) : option (reply * CScheduler) :=
  match c with
  | DeferTask_ mem when prio fp arg n => let (b, s) := DeferTask mem when prio fp arg n s in Some (Enqueued b, s)
  | DeferImmediateTask_ mem prio fp arg n => let (b, s) := DeferImmediateTask mem prio fp arg n s in Some (Enqueued b, s)
  | CancelTask_ fp arg n => Some (Unit, sched_CancelTask fp arg n s)
  | SetMinPriority_ m => Some (Unit, SetMinPriority m s)
  | GetMinPriority_ => Some (Priority (GetMinPriority s), s)
  | ReadyTasks_ ltaNow => match ReadyTasks ltaNow s with Some s => Some (Unit, s) | None => None end
  | TraverseUnordered_ cb =>
      match sched_TraverseUnordered cb s with Some (l, s) => Some (Seen l, s) | None => None end
  | TraverseOrdered_ cb => let (l, s) := sched_TraverseOrdered cb s in Some (Seen l, s)
  end.

Context {W : Type}.

(** What the functions that tasks name do: from the function's address and its two arguments. *)
Variable task_body : Z -> Z -> Z -> W -> prog W.

(** [nested] is [RunTasks] as the task calls it.  The result has the tasks that were run in it. *)
Fixpoint run_prog (nested : Z -> CScheduler -> W -> option (Z * list event * CScheduler * W)) (p : prog W)
    (s : CScheduler) : option (W * bool * list event * CScheduler) :=
  match p with
  | Ret w thrown => Some (w, thrown, [], s)
  | Do c k => match do_call c s with Some (r, s) => run_prog nested (k r) s | None => None end
  | Run iCount w k =>
      match nested iCount s w with
      | None => None
      | Some (n, evs, s, w) =>
          match run_prog nested (k n w) s with
          | None => None
          | Some (w, thrown, evs', s) => Some (w, thrown, evs ++ evs', s)
          end
      end
  end.

(** The number of tasks run, the tasks, and the scheduler and the world after them; the number does not
    count those that were run within others. *)
Fixpoint run_loop (fuel : nat) (iCount nTasks : Z) (s : CScheduler) (w : W) :
    option (Z * list event * CScheduler * W) :=
  match fuel with
  | O => None
  | S fuel =>
      if iCount =? 0 then Some (nTasks, [], s, w)
      else
        match PeekAtTopmost (m_PriorityHeap s) with
        | None => Some (nTasks, [], s, w)
        | Some pTask =>
            if m_minPriority s <? iPriority pTask then Some (nTasks, [], s, w)
            else
              let (top, hp) := RemoveTopmost ComparePriorityGreater (m_PriorityHeap s) in
              let s := with_heaps s (m_WhenHeap s) hp in
              match top with
              | None => run_loop fuel (iCount - 1) nTasks s w
              | Some pTask =>
                  if fpTask pTask =? 0 then run_loop fuel (iCount - 1) nTasks s w
                  else
                    match
                      run_prog (fun i s w => run_loop fuel i 0 s w)
                        (task_body (fpTask pTask) (arg_voidptr pTask) (arg_Integer pTask) w) s
                    with
                    | None => None
                    | Some (w, thrown, nested, s) =>
                        match run_loop fuel (iCount - 1) (nTasks + 1) s w with
                        | None => None
                        | Some (nTasks, evs, s, w) => Some (nTasks, Ran pTask thrown :: nested ++ evs, s, w)
                        end
                    end
              end
        end
  end.

(** Each turn takes a record off the heap of ready tasks, and only tasks that run tasks add any: [spare]
    is the fuel for these, and with more of it the result is the same ([run_ops_more]).  A negative
    count is as good as none. *)
Variable spare : nat.

Definition RunTasks (iCount : Z) (s : CScheduler) (w : W) : option (Z * list event * CScheduler * W) :=
  run_loop (spare + S (length (m_Heap (m_PriorityHeap s)))) iCount 0 s w.

Fixpoint run_all_loop (fuel : nat) (s : CScheduler) (w : W) : option (Z * list event * CScheduler * W) :=
  match fuel with
  | O => None
  | S fuel =>
      match RunTasks 100 s w with
      | None => None
      | Some (nTasks, evs, s, w) =>
          if nTasks =? 0 then Some (0, evs, s, w)
          else
            match run_all_loop fuel s w with
            | None => None
            | Some (nTotal, evs', s, w) => Some (nTasks + nTotal, evs ++ evs', s, w)
            end
      end
  end.

Definition RunAllTasks (s : CScheduler) (w : W) : option (Z * list event * CScheduler * W) :=
  run_all_loop (spare + S (length (m_Heap (m_PriorityHeap s)))) s w.

(** The tick of the server: [active_q_chunk] is a parameter of the configuration. *)
Definition RunTasks_tick (active_q_chunk ltaNow : Z) (s : CScheduler) (w : W) : option (Z * list event * CScheduler *
  W) :=
  match ReadyTasks ltaNow s with
  | None => None
  | Some s => if negb (active_q_chunk =? 0) then RunTasks active_q_chunk s w else RunAllTasks s w
  end.

End Scheduler.
