(* ===== verification/SchedSpec.v ===== *)
(** * The scheduler as a pair of queues

    The abstract scheduler keeps two lists in order, of tasks to come and of tasks that are ready.
    Whatever the layout of its heaps, the scheduler of the source runs the same tasks in the same order. *)

From Stdlib Require Import Sorting.Sorted.
From stdpp Require Import sorting.
From S2P Require Import Prelude Machine TaskHeap Sched.

Record queue := { q_when : list TASK_RECORD; q_ready : list TASK_RECORD; q_ticket : Z; q_min : Z }.

Definition new_queue : queue := {| q_when := []; q_ready := []; q_ticket := 0; q_min := PRIORITY_CF_DEQUEUE_ENABLED |}.

Definition q_with (q : queue) (qw qr : list TASK_RECORD) : queue :=
  {| q_when := qw; q_ready := qr; q_ticket := q_ticket q; q_min := q_min q |}.

Definition q_defer (mem : bool) (when iPriority fp arg n : Z) (q : queue) : bool * queue :=
  if mem then
    let r := {| ltaWhen := when; iPriority := iPriority; m_Ticket := q_ticket q; fpTask := fp;
                arg_voidptr := arg; arg_Integer := n; m_iVisitedMark := 0 |} in
    (true, {| q_when := place CompareWhenGreater r (q_when q); q_ready := q_ready q;
              q_ticket := q_ticket q + 1; q_min := q_min q |})
  else (false, q).

(** Tickets are not bounded here; and what tasks change but by scheduling, cancelling and suspending is
    not followed. *)
Definition q_call (c : call) (q : queue) : reply * queue :=
  match c with
  | DeferTask_ mem when prio fp arg n => let (b, q) := q_defer mem when prio fp arg n q in (Enqueued b, q)
  | DeferImmediateTask_ mem prio fp arg n => let (b, q) := q_defer mem 0 prio fp arg n q in (Enqueued b, q)
  | CancelTask_ fp arg n => (Unit, q_with q (q_cancel fp arg n (q_when q)) (q_cancel fp arg n (q_ready q)))
  | SetMinPriority_ m => (Unit, {| q_when := q_when q; q_ready := q_ready q; q_ticket := q_ticket q; q_min := m |})
  | GetMinPriority_ => (Priority (q_min q), q)
  | ReadyTasks_ _ | TraverseUnordered_ _ | TraverseOrdered_ _ => (Unit, q)
  end.

(** The tasks whose time has come join the ready ones, without those that were cancelled. *)
Fixpoint q_due (ltaNow : Z) (qw qr : list TASK_RECORD) : list TASK_RECORD * list TASK_RECORD :=
  match qw with
  | [] => ([], qr)
  | r :: qw' =>
      if ltaWhen r <? ltaNow then
        q_due ltaNow qw' (if fpTask r =? 0 then qr else place ComparePriorityGreater r qr)
      else (qw, qr)
  end.

Definition q_ready_tasks (ltaNow : Z) (q : queue) : queue :=
  let (qw, qr) := q_due ltaNow (q_when q) (q_ready q) in q_with q qw qr.

Definition q_when_next (q : queue) : option Z :=
  match q_ready q, q_when q with
  | r :: _, qw => if iPriority r <=? q_min q then Some 0 else ltaWhen <$> head qw
  | [], qw => ltaWhen <$> head qw
  end.

Definition user_task (r : TASK_RECORD) : bool :=
  negb (fpTask r =? 0) && (PRIORITY_SYSTEM <? iPriority r) && (iPriority r <? PRIORITY_SUSPEND).

Definition q_has_pending (q : queue) : bool := existsb user_task (q_when q ++ q_ready q).

Section Running.
Context {W : Type} (task_body : Z -> Z -> Z -> W -> prog W).

Fixpoint q_prog (p : prog W) (q : queue) : W * bool * queue :=
  match p with
  | Ret w thrown => (w, thrown, q)
  | Do c k => let (r, q) := q_call c q in q_prog (k r) q
  | Run _ w k => q_prog (k 0 w) q
  end.

Fixpoint q_run_loop (fuel : nat) (iCount : Z) (q : queue) (w : W) : list event * queue * W :=
  match fuel, q_ready q with
  | S fuel, r :: qr =>
      if (iCount =? 0) || (q_min q <? iPriority r) then ([], q, w)
      else
        let q := q_with q (q_when q) qr in
        if fpTask r =? 0 then q_run_loop fuel (iCount - 1) q w
        else
          let '(w, thrown, q) := q_prog (task_body (fpTask r) (arg_voidptr r) (arg_Integer r) w) q in
          let '(evs, q, w) := q_run_loop fuel (iCount - 1) q w in
          (Ran r thrown :: evs, q, w)
  | _, _ => ([], q, w)
  end.

Definition q_run (iCount : Z) (q : queue) (w : W) : list event * queue * W :=
  q_run_loop (length (q_ready q)) iCount q w.

(** Batches of 100 until one runs nothing. *)
Fixpoint q_run_all_loop (fuel : nat) (q : queue) (w : W) : list event * queue * W :=
  match fuel with
  | O => ([], q, w)
  | S fuel =>
      let '(evs, q, w) := q_run 100 q w in
      match evs with
      | [] => ([], q, w)
      | _ => let '(evs', q, w) := q_run_all_loop fuel q w in (evs ++ evs', q, w)
      end
  end.

Definition q_run_all (q : queue) (w : W) : list event * queue * W := q_run_all_loop (S (length (q_ready q))) q w.

Definition q_tick (active_q_chunk ltaNow : Z) (q : queue) (w : W) : list event * queue * W :=
  let q := q_ready_tasks ltaNow q in
  if active_q_chunk =? 0 then q_run_all q w else q_run active_q_chunk q w.

End Running.

(** ** Sequences of operations *)

(** What the server calls: an operation that a task may call too, or one that runs tasks. *)
Inductive op :=
| OpCall (c : call) | OpReadyTasks (ltaNow : Z) | OpRunTasks (iCount : Z) | OpRunAllTasks
| OpTick (active_q_chunk ltaNow : Z) | OpWhenNext | OpHasPendingUserTasks.

Inductive output := Replied (r : reply) | RanTasks (nTasks : Z) (evs : list event) | When (o : option Z) |
  Pending (b : bool).

Definition ran {S W} (r : option (Z * list event * S * W)) : option (output * S * W) :=
  match r with Some (n, evs, s, w) => Some (RanTasks n evs, s, w) | None => None end.

Definition q_ran {W} (r : list event * queue * W) : output * queue * W :=
  let '(evs, q, w) := r in (RanTasks (Z.of_nat (length evs)) evs, q, w).

Section Ops.
Context {HS : StdHeap} {W : Type} (task_body : Z -> Z -> Z -> W -> prog W) (spare : nat).

Definition run_op (o : op) (s : CScheduler) (w : W) : option (output * CScheduler * W) :=
  match o with
  | OpCall c => match do_call c s with Some (r, s) => Some (Replied r, s, w) | None => None end
  | OpReadyTasks now => match ReadyTasks now s with Some s => Some (Replied Unit, s, w) | None => None end
  | OpRunTasks n => ran (RunTasks task_body spare n s w)
  | OpRunAllTasks => ran (RunAllTasks task_body spare s w)
  | OpTick chunk now => ran (RunTasks_tick task_body spare chunk now s w)
  | OpWhenNext => Some (When (WhenNext s), s, w)
  | OpHasPendingUserTasks => Some (Pending (HasPendingUserTasks s), s, w)
  end.

Fixpoint run_ops (os : list op) (s : CScheduler) (w : W) : option (list output * CScheduler * W) :=
  match os with
  | [] => Some ([], s, w)
  | o :: os =>
      match run_op o s w with
      | Some (out, s, w) => match run_ops os s w with Some (outs, s, w) => Some (out :: outs, s, w) | None => None end
      | None => None
      end
  end.

Definition q_op (o : op) (q : queue) (w : W) : output * queue * W :=
  match o with
  | OpCall c => let (r, q) := q_call c q in (Replied r, q, w)
  | OpReadyTasks now => (Replied Unit, q_ready_tasks now q, w)
  | OpRunTasks n => q_ran (q_run task_body n q w)
  | OpRunAllTasks => q_ran (q_run_all task_body q w)
  | OpTick chunk now => q_ran (q_tick task_body chunk now q w)
  | OpWhenNext => (When (q_when_next q), q, w)
  | OpHasPendingUserTasks => (Pending (q_has_pending q), q, w)
  end.

Fixpoint q_ops (os : list op) (q : queue) (w : W) : list output * queue * W :=
  match os with
  | [] => ([], q, w)
  | o :: os => let '(out, q, w) := q_op o q w in let '(outs, q, w) := q_ops os q w in (out :: outs, q, w)
  end.

End Ops.

(** ** The abstraction *)

(** Records with tickets of their own below the next one. *)
Definition ok_list (t : Z) (l : list TASK_RECORD) : Prop :=
  Forall (fun r => m_Ticket r < t) l /\ NoDup (map m_Ticket l).

#[export] Instance ok_list_proper t : Proper ((≡ₚ) ==> iff) (ok_list t).
Proof.
  intros l l' Hp. unfold ok_list. pose proof (NoDup_Permutation_proper _ _ (Permutation_map m_Ticket Hp)) as Hn.
  pose proof (Forall_Permutation _ (fun r => m_Ticket r < t) (fun _ => iff_refl _) _ _ Hp). tauto.
Qed.

Lemma ok_list_cons t r l : ok_list t l -> m_Ticket r = t -> ok_list (t + 1) (r :: l).
Proof.
  intros (Hlt & Hnd) Er. split; cbn [map]; constructor; [lia| | |done].
  - eapply Forall_impl; [exact Hlt|]. cbn. lia.
  - intros (x & Ex & Hx)%list_elem_of_fmap. rewrite Forall_forall in Hlt. apply Hlt in Hx. lia.
Qed.

Lemma ok_list_app t l l' : ok_list t (l ++ l') -> ok_list t l /\ ok_list t l'.
Proof. unfold ok_list. rewrite map_app, Forall_app, NoDup_app. tauto. Qed.

Definition q_ok (q : queue) : Prop := ok_list (q_ticket q) (q_when q ++ q_ready q) /\ 0 <= q_ticket q.

Record abs (s : CScheduler) (q : queue) : Prop := {
  abs_when : holds CompareWhenGreater (m_WhenHeap s) (q_when q);
  abs_ready : holds ComparePriorityGreater (m_PriorityHeap s) (q_ready q);
  abs_ticket : next_Ticket s = q_ticket q;
  abs_min : m_minPriority s = q_min q;
  abs_ok : q_ok q }.

(** Calls that do not traverse the heaps or make tasks ready. *)
Definition plain (c : call) : Prop :=
  match c with ReadyTasks_ _ | TraverseUnordered_ _ | TraverseOrdered_ _ => False | _ => True end.

(** Every call that a program can come to, when it runs no tasks. *)
Inductive all_calls {W} (P : call -> Prop) : prog W -> Prop :=
| all_ret w thrown : all_calls P (Ret w thrown)
| all_do c k : P c -> (forall r, all_calls P (k r)) -> all_calls P (Do c k).

Lemma abs_new : abs new_scheduler new_queue.
Proof. constructor; try done; try apply holds_empty. split; [split; constructor|done]. Qed.

Lemma q_ok_sub q q' l : q_when q ++ q_ready q ≡ₚ l ++ q_when q' ++ q_ready q' -> q_ticket q' = q_ticket q
  -> q_ok q -> q_ok q'.
Proof. intros Hp Ht [Hl H0]. rewrite Hp in Hl. split; rewrite Ht; [by apply (ok_list_app _ _ _ Hl)|done]. Qed.

Lemma q_cancel_tickets fp arg n q : map m_Ticket (q_cancel fp arg n q) = map m_Ticket q.
Proof. unfold q_cancel. rewrite map_map. apply map_ext. intros r. by case_match. Qed.

Lemma q_cancel_app fp arg n q q' : q_cancel fp arg n (q ++ q') = q_cancel fp arg n q ++ q_cancel fp arg n q'.
Proof. apply map_app. Qed.

Lemma q_ok_cancel fp arg n q : q_ok q -> q_ok (q_with q (q_cancel fp arg n (q_when q)) (q_cancel fp arg n (q_ready q))).
Proof.
  unfold q_ok, ok_list. cbn [q_when q_ready q_with q_ticket]. rewrite <- q_cancel_app, q_cancel_tickets.
  rewrite <- !(Forall_map m_Ticket (fun t => t < q_ticket q)), q_cancel_tickets. done.
Qed.

(** ** The scheduler does what the queues do *)

Section Refinement.
Context {HS : StdHeap} {W : Type} (task_body : Z -> Z -> Z -> W -> prog W) (spare : nat).

Lemma ticket_fresh t q : Forall (fun r => m_Ticket r < t) q -> Forall (fun r => m_Ticket r <> t) q.
Proof. intros H. eapply Forall_impl; [exact H|]. cbn. lia. Qed.

Lemma q_defer_ticket mem when prio fp arg n q : q_ticket q <= q_ticket (q_defer mem when prio fp arg n q).2.
Proof. destruct mem; cbn; lia. Qed.

Lemma q_call_ticket c q : q_ticket q <= q_ticket (q_call c q).2.
Proof. destruct c as [[]|[]| | | | | |]; cbn; lia. Qed.

(** A new record in the queue of tasks to come. *)
Lemma q_ok_place q r : q_ok q -> m_Ticket r = q_ticket q ->
  q_ok {| q_when := place CompareWhenGreater r (q_when q); q_ready := q_ready q; q_ticket := q_ticket q + 1;
    q_min := q_min q |}.
Proof.
  intros (Hl & H0) Er. split; cbn [q_when q_ready q_ticket]; [|lia]. rewrite place_perm. by apply ok_list_cons.
Qed.

Lemma Defer_abs s q mem when prio fp arg n : abs s q -> let (b, q') := q_defer mem when prio fp arg n q in
  q_ticket q' < 2 ^ 64 -> exists s', DeferTask mem when prio fp arg n s = (b, s') /\ abs s' q'.
Proof.
  intros [Hw Hr Ht Hm Hok]. destruct mem; cbn; [|intros _; exists s; split; [done|by constructor]].
  intros Hb. unfold DeferTask. cbn [negb].
  destruct (Insert_holds (m_WhenHeap s) (q_when q) (new_task s when prio fp arg n) Hw) as (h' & E & Hh').
  { apply ticket_fresh. cbn. rewrite Ht. by destruct Hok as [[[??] _]%ok_list_app _]. }
  cbn [m_WhenHeap with_ticket]. rewrite E. eexists. split; [reflexivity|].
  pose proof (proj2 Hok) as H0. unfold unmark, new_task, set_mark in Hh'. cbn in Hh'. rewrite Ht in Hh'.
  constructor; cbn; [done|done|rewrite Ht, wrap_small; [done|split; lia]|done|by apply (q_ok_place q)].
Qed.

Lemma DeferImmediateTask_eq mem prio fp arg n s : DeferImmediateTask mem prio fp arg n s = DeferTask mem 0 prio fp
  arg n s.
Proof. done. Qed.

Ltac by_defer Ha mem when prio fp arg n :=
  lazymatch type of Ha with abs ?s ?q =>
    pose proof (Defer_abs s q mem when prio fp arg n Ha) as H; destruct (q_defer mem when prio fp arg n q) as [b q'];
    let Hb := fresh in intros Hb; destruct (H Hb) as (s' & -> & Hs); by exists s' end.

Lemma do_call_abs c s q : plain c -> abs s q -> let (r, q') := q_call c q in
  q_ticket q' < 2 ^ 64 -> exists s', do_call c s = Some (r, s') /\ abs s' q'.
Proof.
  intros Hc Ha. destruct c as [mem when prio fp arg n|mem prio fp arg n|fp arg n|m| | | |]; try done;
    cbn [q_call do_call]; rewrite ?DeferImmediateTask_eq.
  - by_defer Ha mem when prio fp arg n.
  - by_defer Ha mem 0 prio fp arg n.
  - intros _. eexists. split; [reflexivity|]. destruct Ha as [Hw Hr Ht Hm Hok].
    constructor; [by apply Cancel_holds|by apply Cancel_holds|done|done|by apply q_ok_cancel].
  - intros _. eexists. split; [reflexivity|]. by destruct Ha.
  - intros _. exists s. unfold GetMinPriority. by rewrite (abs_min _ _ Ha).
Qed.

(** Taking the first record off a queue, and putting a ready one in its place. *)
Lemma abs_ready_move s q r qw h h' : abs s q -> q_when q = r :: qw ->
  holds CompareWhenGreater h qw -> holds ComparePriorityGreater h' (place ComparePriorityGreater r (q_ready q)) ->
  abs (with_heaps s h h') (q_with q qw (place ComparePriorityGreater r (q_ready q))).
Proof.
  intros [Hw Hr Ht Hm Hok] Eq Hh Hh'. constructor; cbn; try done. eapply (q_ok_sub q _ []); [|done|done].
  cbn. rewrite Eq, place_perm. apply Permutation_middle.
Qed.

Lemma abs_drop s q r qw h : abs s q -> q_when q = r :: qw -> holds CompareWhenGreater h qw ->
  abs (with_heaps s h (m_PriorityHeap s)) (q_with q qw (q_ready q)).
Proof.
  intros [Hw Hr Ht Hm Hok] Eq Hh. constructor; cbn; try done. eapply (q_ok_sub q _ [r]); [|done|done].
  cbn. by rewrite Eq.
Qed.

Lemma abs_drop_ready s q r qr h : abs s q -> q_ready q = r :: qr -> holds ComparePriorityGreater h qr ->
  abs (with_heaps s (m_WhenHeap s) h) (q_with q (q_when q) qr).
Proof.
  intros [Hw Hr Ht Hm Hok] Eq Hh. constructor; cbn; try done. eapply (q_ok_sub q _ [r]); [|done|done].
  cbn. rewrite Eq. symmetry. apply Permutation_middle.
Qed.

(** The first record of a heap. *)
Lemma holds_top comp `{!Comparator comp} h r q : holds comp h (r :: q) ->
  exists p h', PeekAtTopmost h = Some p /\ RemoveTopmost comp h = (Some p, h') /\ unmark p = r /\ holds comp h' q.
Proof.
  intros H. pose proof (Peek_holds h _ H) as Hk. destruct (Remove_holds h r q H) as (p & h' & Er & Eu & Hh).
  destruct (PeekAtTopmost h) as [p'|] eqn:Ep; [|done]. exists p, h'. split_and!; try done. f_equal.
  unfold PeekAtTopmost in Ep. unfold RemoveTopmost in Er. destruct H as (Hheap & _ & _).
  destruct (m_Heap h) as [|f l] eqn:E; [done|]. destruct (pop_heap_ok comp f l comp_weak Hheap) as (l' & E' & _).
  rewrite E', last_snoc in Er. cbn in Ep. congruence.
Qed.

Lemma holds_no_top comp `{!Comparator comp} h : holds comp h [] -> PeekAtTopmost h = None.
Proof. intros H. pose proof (Peek_holds h _ H) as Hk. by destruct (PeekAtTopmost h). Qed.

Lemma ready_loop_abs now fuel s q : abs s q -> (length (q_when q) < fuel)%nat ->
  exists s', ready_loop fuel now s = Some s' /\ abs s' (q_ready_tasks now q).
Proof.
  revert s q. induction fuel as [|fuel IH]; [lia|]. intros s q Ha Hf. unfold q_ready_tasks.
  destruct (q_when q) as [|r qw] eqn:Eq; cbn [ready_loop q_due].
  { assert (abs s (q_with q [] (q_ready q))) by (rewrite <- Eq; by destruct q).
    pose proof (abs_when _ _ Ha) as Hw. rewrite Eq in Hw. rewrite (holds_no_top _ _ Hw). eauto. }
  pose proof (abs_when _ _ Ha) as Hw. rewrite Eq in Hw.
  destruct (holds_top _ _ _ _ Hw) as (p & h' & -> & -> & <- & Hh). cbn [ltaWhen fpTask unmark set_mark].
  destruct (ltaWhen p <? now); [|exists s; split; [done|]; rewrite <- Eq; by destruct q].
  destruct (fpTask p =? 0).
  - apply (IH _ (q_with q qw (q_ready q))); [by eapply abs_drop|cbn in *; lia].
  - destruct (Insert_holds (m_PriorityHeap s) (q_ready q) p (abs_ready _ _ Ha)) as (hp & -> & Hp).
    { destruct (abs_ok _ _ Ha) as [[_ Hnd] _]. rewrite Eq in Hnd. apply Forall_forall. intros x Hx Ex.
      cbn in Hnd. apply NoDup_cons_1_1 in Hnd. apply Hnd, list_elem_of_fmap. exists x. split; [done|].
      apply elem_of_app. by right. }
    apply (IH _ (q_with q qw (place ComparePriorityGreater (unmark p) (q_ready q)))); [by eapply abs_ready_move|
      cbn in *; lia].
Qed.

Lemma ReadyTasks_abs now s q : abs s q -> exists s', ReadyTasks now s = Some s' /\ abs s' (q_ready_tasks now q).
Proof. intros Ha. apply ready_loop_abs; [done|]. rewrite (holds_length _ _ (abs_when _ _ Ha)). lia. Qed.

(** ** Running *)

Definition unmark_event (e : event) : event := match e with Ran p thrown => Ran (unmark p) thrown end.

Lemma q_call_ready_length c q : length (q_ready (q_call c q).2) = length (q_ready q).
Proof. destruct c as [[]|[]| | | | | |]; try done. apply length_map. Qed.

Lemma q_prog_ticket (p : prog W) q : q_ticket q <= q_ticket (q_prog p q).2.
Proof.
  revert q. induction p as [w thrown|c k IH|i w k IH]; intros q; cbn; [lia| |apply IH].
  pose proof (q_call_ticket c q). destruct (q_call c q) as [r q']. specialize (IH r q'). cbn in *. lia.
Qed.

Lemma q_prog_ready_length (p : prog W) q : length (q_ready (q_prog p q).2) = length (q_ready q).
Proof.
  revert q. induction p as [w thrown|c k IH|i w k IH]; intros q; cbn; [done| |apply IH].
  pose proof (q_call_ready_length c q). destruct (q_call c q) as [r q']. rewrite IH. done.
Qed.

Lemma run_prog_abs nested (p : prog W) s q : all_calls plain p -> abs s q -> let '(w, thrown, q') := q_prog p q in
  q_ticket q' < 2 ^ 64 -> exists s', run_prog nested p s = Some (w, thrown, [], s') /\ abs s' q'.
Proof.
  intros Hp. revert s q. induction Hp as [w thrown|c k Hc Hk IH]; intros s q Ha; cbn [q_prog run_prog]; [by exists s|].
  pose proof (do_call_abs c s q Hc Ha) as H. destruct (q_call c q) as [r q'].
  pose proof (q_prog_ticket (k r) q') as Ht. specialize (IH r). destruct (q_prog (k r) q') as [[w thrown] q2] eqn:E.
  intros Hb. cbn in Ht. destruct H as (s' & -> & Hs); [lia|]. specialize (IH s' q' Hs). rewrite E in IH. by apply IH.
Qed.

(** The number of records that are ready falls by one for each that is run. *)
Lemma q_run_loop_length fuel iCount q w : let '(evs, q', _) := q_run_loop task_body fuel iCount q w in
  (length (q_ready q') + length evs <= length (q_ready q))%nat /\ q_ticket q <= q_ticket q'.
Proof.
  revert iCount q w. induction fuel as [|fuel IH]; intros iCount q w; cbn; [lia|].
  destruct (q_ready q) as [|r qr] eqn:Eq; [rewrite Eq; cbn; lia|].
  destruct ((iCount =? 0) || (q_min q <? iPriority r)); [rewrite Eq; cbn; lia|].
  destruct (fpTask r =? 0).
  - specialize (IH (iCount - 1) (q_with q (q_when q) qr) w). destruct (q_run_loop _ _ _ _ _) as [[evs q'] w'].
      cbn in *. lia.
  - set (p := task_body _ _ _ _). pose proof (q_prog_ready_length p (q_with q (q_when q) qr)) as Hl.
    pose proof (q_prog_ticket p (q_with q (q_when q) qr)) as Ht. destruct (q_prog p _) as [[w1 thrown] q1].
    specialize (IH (iCount - 1) q1 w1). destruct (q_run_loop _ _ _ _ _) as [[evs q'] w']. cbn in *. lia.
Qed.

Hypothesis plain_bodies : forall fp arg n w, all_calls plain (task_body fp arg n w).

Lemma run_loop_abs fuel F iCount nTasks s q w : abs s q -> (length (q_ready q) <= fuel < F)%nat ->
  let '(evs, q', w') := q_run_loop task_body fuel iCount q w in q_ticket q' < 2 ^ 64 ->
  exists evs' s', run_loop task_body F iCount nTasks s w = Some (nTasks + Z.of_nat (length evs), evs', s', w')
    /\ map unmark_event evs' = evs /\ abs s' q'.
Proof.
  revert F iCount nTasks s q w. induction fuel as [|fuel IH]; intros F iCount nTasks s q w Ha Hf;
    pose proof (abs_ready _ _ Ha) as Hr; (destruct F as [|F]; [lia|]).
  { cbn. assert (q_ready q = []) as Eq by (destruct (q_ready q); cbn in *; [done|lia]). rewrite Eq in Hr.
    rewrite (holds_no_top _ _ Hr). intros _. exists [], s. cbn. rewrite Z.add_0_r. by destruct (iCount =? 0). }
  cbn [q_run_loop run_loop].
  destruct (q_ready q) as [|r qr] eqn:Eq.
  { rewrite (holds_no_top _ _ Hr). intros _. exists [], s. cbn. rewrite Z.add_0_r. by destruct (iCount =? 0). }
  destruct (holds_top _ _ _ _ Hr) as (p & h' & -> & -> & <- & Hh). rewrite (abs_min _ _ Ha).
  cbn [iPriority fpTask arg_voidptr arg_Integer unmark set_mark].
  destruct (iCount =? 0); [intros _; exists [], s; cbn; by rewrite Z.add_0_r|].
  destruct (q_min q <? iPriority p); [intros _; exists [], s; cbn; by rewrite Z.add_0_r|]. cbn [orb].
  pose proof (abs_drop_ready _ _ _ _ _ Ha Eq Hh) as Hd. cbn in Hf.
  destruct (fpTask p =? 0); [apply IH; [done|cbn; lia]|].
  set (pr := task_body _ _ _ _).
  pose proof (run_prog_abs (fun i s w => run_loop task_body F i 0 s w) pr _ _ (plain_bodies _ _ _ _) Hd) as H.
  pose proof (q_prog_ready_length pr (q_with q (q_when q) qr)) as Hl. destruct (q_prog pr _) as [[w1 thrown] q1].
  pose proof (q_run_loop_length fuel (iCount - 1) q1 w1) as Hq.
  destruct (q_run_loop _ _ _ q1 _) as [[evs q'] w'] eqn:El. intros Hb. destruct H as (s1 & -> & Hs1); [lia|].
  specialize (IH F (iCount - 1) (nTasks + 1) s1 q1 w1 Hs1 ltac:(cbn in Hl; lia)). rewrite El in IH.
  destruct (IH Hb) as (evs' & s' & -> & <- & Hs'). exists (Ran p thrown :: [] ++ evs'), s'. split_and!; [|done|done].
  do 4 f_equal. cbn [length]. lia.
Qed.

Lemma RunTasks_abs iCount s q w : abs s q -> let '(evs, q', w') := q_run task_body iCount q w in q_ticket q' < 2 ^ 64 ->
  exists evs' s', RunTasks task_body spare iCount s w = Some (Z.of_nat (length evs), evs', s', w')
    /\ map unmark_event evs' = evs /\ abs s' q'.
Proof.
  intros Ha. unfold RunTasks, q_run. rewrite (holds_length _ _ (abs_ready _ _ Ha)).
  apply (run_loop_abs (length (q_ready q)) _ iCount 0 s q w Ha). lia.
Qed.

Lemma q_run_all_ticket fuel q w : q_ticket q <= q_ticket (q_run_all_loop task_body fuel q w).1.2.
Proof.
  revert q w. induction fuel as [|fuel IH]; intros q w; cbn [q_run_all_loop]; [cbn; lia|].
  pose proof (q_run_loop_length (length (q_ready q)) 100 q w) as H. unfold q_run.
  destruct (q_run_loop _ _ _ _ _) as [[evs q1] w1]. destruct evs; [cbn; lia|]. specialize (IH q1 w1).
  destruct (q_run_all_loop _ _ q1 w1) as [[evs' q'] w']. cbn in *. lia.
Qed.

Lemma run_all_loop_abs fuel F s q w : abs s q -> (length (q_ready q) < fuel <= F)%nat ->
  let '(evs, q', w') := q_run_all_loop task_body fuel q w in q_ticket q' < 2 ^ 64 ->
  exists evs' s', run_all_loop task_body spare F s w = Some (Z.of_nat (length evs), evs', s', w')
    /\ map unmark_event evs' = evs /\ abs s' q'.
Proof.
  revert F s q w. induction fuel as [|fuel IH]; intros F s q w Ha Hf; [lia|].
  destruct F as [|F]; [lia|]. cbn [run_all_loop q_run_all_loop].
  pose proof (RunTasks_abs 100 s q w Ha) as H. pose proof (q_run_loop_length (length (q_ready q)) 100 q w) as Hl.
  fold (q_run task_body 100 q w) in Hl. destruct (q_run task_body 100 q w) as [[evs q1] w1]. destruct evs as [|e evs].
  { intros Hb. destruct (H Hb) as (evs' & s' & -> & Hm & Hs). exists evs', s'. by destruct evs'. }
  pose proof (q_run_all_ticket fuel q1 w1) as Ht. destruct (q_run_all_loop _ fuel q1 w1) as [[evs2 q'] w'] eqn:E.
    intros Hb.
  destruct H as (evs' & s1 & -> & Hm & Hs); [cbn in Ht; lia|]. cbn in Hl.
  specialize (IH F s1 q1 w1 Hs ltac:(lia)). rewrite E in IH. destruct (IH Hb) as (evs2' & s' & -> & Hm2 & Hs').
  exists (evs' ++ evs2'), s'. rewrite (proj2 (Z.eqb_neq _ _)) by (cbn; lia). split_and!; [|
    by rewrite map_app, Hm, Hm2|done].
  rewrite length_app. do 4 f_equal. lia.
Qed.

Lemma RunAllTasks_abs s q w : abs s q -> let '(evs, q', w') := q_run_all task_body q w in q_ticket q' < 2 ^ 64 ->
  exists evs' s', RunAllTasks task_body spare s w = Some (Z.of_nat (length evs), evs', s', w')
    /\ map unmark_event evs' = evs /\ abs s' q'.
Proof.
  intros Ha. unfold RunAllTasks, q_run_all. rewrite (holds_length _ _ (abs_ready _ _ Ha)). apply run_all_loop_abs;
    [done|lia].
Qed.

Lemma RunTasks_tick_abs chunk now s q w : abs s q ->
  let '(evs, q', w') := q_tick task_body chunk now q w in q_ticket q' < 2 ^ 64 ->
  exists evs' s', RunTasks_tick task_body spare chunk now s w = Some (Z.of_nat (length evs), evs', s', w')
    /\ map unmark_event evs' = evs /\ abs s' q'.
Proof.
  intros Ha. unfold RunTasks_tick, q_tick. destruct (ReadyTasks_abs now s q Ha) as (s1 & -> & Hs1).
  destruct (chunk =? 0); cbn [negb]; [by apply RunAllTasks_abs|by apply RunTasks_abs].
Qed.

Lemma WhenNext_abs s q : abs s q -> WhenNext s = q_when_next q.
Proof.
  intros Ha. unfold WhenNext, q_when_next. rewrite (abs_min _ _ Ha).
  pose proof (Peek_holds _ _ (abs_when _ _ Ha)) as Hw. pose proof (Peek_holds _ _ (abs_ready _ _ Ha)) as Hr.
  destruct (PeekAtTopmost (m_WhenHeap s)), (PeekAtTopmost (m_PriorityHeap s)), (q_when q), (q_ready q);
    cbn in *; simplify_eq; done.
Qed.

Lemma existsb_count {A} (f : A -> bool) l : existsb f l = (0 <? Z.of_nat (length (List.filter f l))).
Proof. induction l as [|x l IH]; [done|]. cbn. destruct (f x); cbn [length orb]; [symmetry; apply Z.ltb_lt; lia|
  done]. Qed.

Lemma HasPending_abs s q : abs s q -> HasPendingUserTasks s = q_has_pending q.
Proof.
  intros Ha. unfold HasPendingUserTasks, q_has_pending.
  rewrite (Count_holds _ _ _ _ (abs_when _ _ Ha)), (Count_holds _ _ _ _ (abs_ready _ _ Ha)), existsb_app.
  by rewrite !existsb_count.
Qed.

Definition unmark_output (o : output) : output :=
  match o with RanTasks n evs => RanTasks n (map unmark_event evs) | _ => o end.

Definition plain_op (o : op) : Prop := match o with OpCall c => plain c | _ => True end.

Lemma run_op_abs o s q w : plain_op o -> abs s q -> let '(out, q', w') := q_op task_body o q w in q_ticket q' < 2 ^ 64 ->
  exists out' s', run_op task_body spare o s w = Some (out', s', w') /\ unmark_output out' = out /\ abs s' q'.
Proof.
  intros Ho Ha. destruct o as [c|now|n| |chunk now| |]; cbn [q_op run_op].
  - pose proof (do_call_abs c s q Ho Ha) as H. destruct (q_call c q) as [r q']. intros Hb.
    destruct (H Hb) as (s' & -> & Hs). by exists (Replied r), s'.
  - intros _. destruct (ReadyTasks_abs now s q Ha) as (s' & -> & Hs). by exists (Replied Unit), s'.
  - pose proof (RunTasks_abs n s q w Ha) as H. destruct (q_run task_body n q w) as [[evs q'] w']. cbn [q_ran]. intros Hb.
    destruct (H Hb) as (evs' & s' & -> & <- & Hs). eexists _, s'. split_and!; [reflexivity|done|done].
  - pose proof (RunAllTasks_abs s q w Ha) as H. destruct (q_run_all task_body q w) as [[evs q'] w']. cbn [q_ran].
      intros Hb.
    destruct (H Hb) as (evs' & s' & -> & <- & Hs). eexists _, s'. split_and!; [reflexivity|done|done].
  - pose proof (RunTasks_tick_abs chunk now s q w Ha) as H. destruct (q_tick task_body chunk now q w) as [[evs q']
      w']. cbn [q_ran].
    intros Hb. destruct (H Hb) as (evs' & s' & -> & <- & Hs). eexists _, s'. split_and!; [reflexivity|done|done].
  - intros _. eexists _, s. by rewrite (WhenNext_abs s q Ha).
  - intros _. eexists _, s. by rewrite (HasPending_abs s q Ha).
Qed.

Lemma q_op_ticket o q w : q_ticket q <= q_ticket (q_op task_body o q w).1.2.
Proof.
  assert (Hr : forall n q w, q_ticket q <= q_ticket (q_run task_body n q w).1.2).
  { clear. intros n q w. pose proof (q_run_loop_length (length (q_ready q)) n q w) as H. unfold q_run.
    destruct (q_run_loop _ _ _ _ _) as [[evs q1] w1]. cbn. lia. }
  assert (Ha : forall q w, q_ticket q <= q_ticket (q_run_all task_body q w).1.2) by (intros *; apply q_run_all_ticket).
  assert (Hd : forall now q, q_ticket (q_ready_tasks now q) = q_ticket q).
  { clear. intros now q. unfold q_ready_tasks. by destruct (q_due _ _ _). }
  destruct o as [c|now|n| |chunk now| |]; cbn [q_op]; try done.
  - pose proof (q_call_ticket c q). by destruct (q_call c q).
  - cbn. by rewrite Hd.
  - specialize (Hr n q w). by destruct (q_run _ _ _ _) as [[??]?].
  - specialize (Ha q w). by destruct (q_run_all _ _ _) as [[??]?].
  - unfold q_tick. rewrite <- (Hd now q). destruct (chunk =? 0).
    + specialize (Ha (q_ready_tasks now q) w). by destruct (q_run_all _ _ _) as [[??]?].
    + specialize (Hr chunk (q_ready_tasks now q) w). by destruct (q_run _ _ _ _) as [[??]?].
Qed.

Lemma q_ops_ticket os q w : q_ticket q <= q_ticket (q_ops task_body os q w).1.2.
Proof.
  revert q w. induction os as [|o os IH]; intros q w; cbn; [lia|]. pose proof (q_op_ticket o q w).
  destruct (q_op _ o q w) as [[out q1] w1]. specialize (IH q1 w1). destruct (q_ops _ os q1 w1) as [[outs q2] w2].
  cbn in *. lia.
Qed.

Lemma run_ops_abs os s q w : Forall plain_op os -> abs s q -> let '(outs, q', w') := q_ops task_body os q w in
  q_ticket q' < 2 ^ 64 ->
  exists outs' s', run_ops task_body spare os s w = Some (outs', s', w') /\ map unmark_output outs' = outs /\ abs s' q'.
Proof.
  intros Ho. revert s q w. induction Ho as [|o os Ho Hos IH]; intros s q w Ha; cbn [q_ops run_ops].
  { intros _. by exists [], s. }
  pose proof (run_op_abs o s q w Ho Ha) as H. destruct (q_op _ o q w) as [[out q1] w1].
  pose proof (q_ops_ticket os q1 w1) as Ht. destruct (q_ops _ os q1 w1) as [[outs q2] w2] eqn:E. intros Hb.
  cbn in Ht. destruct H as (out' & s1 & -> & <- & Hs1); [lia|]. specialize (IH s1 q1 w1 Hs1). rewrite E in IH.
  destruct (IH Hb) as (outs' & s' & -> & <- & Hs'). by exists (out' :: outs'), s'.
Qed.

End Refinement.
