(* ===== verification/SchedLive.v ===== *)
(** * What the scheduler promises

    An implementation of the standard library's heaps, the order in which tasks run, that ready tasks
    are not starved, and where [RunAllTasks] stops. *)

From Stdlib Require Import Sorting.Sorted.
From stdpp Require Import sorting.
From S2P Require Import Prelude Machine TaskHeap Sched SchedSpec.

(** ** Heaps that are sorted *)

Fixpoint put {A} (comp : A -> A -> bool) (x : A) (l : list A) : list A :=
  match l with
  | [] => [x]
  | y :: l' => if comp x y then y :: put comp x l' else x :: l
  end.

Definition arrange {A} (comp : A -> A -> bool) (l : list A) : list A := foldr (put comp) [] l.

Section Sorted.
Context {A : Type} (comp : A -> A -> bool) (Hc : strict_weak comp).

Definition descending : list A -> Prop := StronglySorted (fun x y => comp x y = false).

Lemma put_perm x l : put comp x l ≡ₚ x :: l.
Proof. induction l as [|y l IH]; cbn; [done|]. destruct (comp x y); [|done]. rewrite IH. apply perm_swap. Qed.

Lemma put_descending x l : descending l -> descending (put comp x l).
Proof.
  destruct Hc as (Hi & Ht & Hn). induction 1 as [|y l Hs IH Hall]; cbn; [repeat constructor|]. destruct (comp x y) eqn:E.
  - constructor; [done|]. rewrite put_perm. constructor; [|done].
    destruct (comp y x) eqn:E'; [|done]. pose proof (Ht _ _ _ E E'). by rewrite Hi in *.
  - constructor; [by constructor|]. constructor; [done|]. eapply Forall_impl; [exact Hall|]. intros z. cbn. by apply Hn.
Qed.

Lemma arrange_perm l : arrange comp l ≡ₚ l.
Proof. induction l as [|x l IH]; cbn; [done|]. by rewrite put_perm, IH. Qed.

Lemma arrange_descending l : descending (arrange comp l).
Proof. induction l as [|x l IH]; cbn; [constructor|by apply put_descending]. Qed.

Lemma descending_heap l : descending l -> is_heap comp l.
Proof.
  intros Hs i x y Hx Hy. revert i Hx Hy. clear Hc.
  assert (Hij : forall i j x y, (i < j)%nat -> l !! i = Some x -> l !! j = Some y -> comp x y = false).
  { clear x y. induction Hs as [|z l Hs IH Hall]; intros i j x y Hij Hx Hy; [done|]. destruct j; [lia|]. cbn in Hy.
      destruct i; cbn in Hx.
    - simplify_eq. rewrite Forall_forall in Hall. by eapply Hall, list_elem_of_lookup_2.
    - eapply (IH i j); [lia|done|done]. }
  intros i Hx Hy. eapply Hij; [|exact Hy|exact Hx]. pose proof (Nat.Div0.div_le_upper_bound i 2 i). lia.
Qed.

Lemma arrange_heap l : is_heap comp (arrange comp l).
Proof. apply descending_heap, arrange_descending. Qed.

Lemma arrange_rev_ascending l : ascending comp (rev (arrange comp l)).
Proof. apply (sorted_rev (fun x y => comp x y = false)), arrange_descending. Qed.

End Sorted.

Definition sorted_pop {A} (comp : A -> A -> bool) (l : list A) : list A :=
  match l with [] => [] | x :: l => arrange comp l ++ [x] end.

Program Definition sorted_heap : StdHeap := {|
  push_heap A comp l := arrange comp l;
  pop_heap A comp l := sorted_pop comp l;
  make_heap A comp l := arrange comp l;
  sort_heap A comp l := rev (arrange comp l) |}.
Next Obligation. intros A comp h x Hc Hh. split; [by apply arrange_heap|apply arrange_perm]. Qed.
Next Obligation.
  intros A comp x h Hc Hh. exists (arrange comp h). split_and!; [done|by apply arrange_heap|apply arrange_perm].
Qed.
Next Obligation. intros A comp l Hc. split; [by apply arrange_heap|apply arrange_perm]. Qed.
Next Obligation.
  intros A comp h Hc Hh. split; [by apply arrange_rev_ascending|]. by rewrite <- Permutation_rev, arrange_perm.
Qed.

(** ** Order *)

Section Order.
Context {W : Type} (task_body : Z -> Z -> Z -> W -> prog W).

(** What a record is ordered by, which nothing changes that a task calls. *)
Definition rank (r : TASK_RECORD) : Z * Z := (iPriority r, m_Ticket r).

Definition task_of (e : event) : TASK_RECORD := match e with Ran p _ => p end.

Lemma q_cancel_rank fp arg n q : map rank (q_cancel fp arg n q) = map rank q.
Proof. unfold q_cancel. rewrite map_map. apply map_ext. intros r. by case_match. Qed.

Lemma q_call_rank c q : map rank (q_ready (q_call c q).2) = map rank (q_ready q).
Proof. destruct c as [[]|[]| | | | | |]; try done. apply q_cancel_rank. Qed.

Lemma q_prog_rank (p : prog W) q : map rank (q_ready (q_prog p q).2) = map rank (q_ready q).
Proof.
  revert q. induction p as [w thrown|c k IH|i w k IH]; intros q; cbn; [done| |apply IH].
  pose proof (q_call_rank c q). destruct (q_call c q) as [r q']. by rewrite IH.
Qed.

(** The tasks that run are some of the ready ones, in their order. *)
Lemma q_run_loop_order fuel iCount q w : let '(evs, _, _) := q_run_loop task_body fuel iCount q w in
  map (fun e => rank (task_of e)) evs `sublist_of` map rank (q_ready q) /\ (0 <= iCount
    -> Z.of_nat (length evs) <= iCount).
Proof.
  revert iCount q w. induction fuel as [|fuel IH]; intros iCount q w; cbn [q_run_loop]; [split; [apply sublist_nil_l|
    done]|].
  destruct (q_ready q) as [|r qr] eqn:Eq; [done|].
  destruct ((iCount =? 0) || (q_min q <? iPriority r)) eqn:Es; [split; [apply sublist_nil_l|done]|].
  apply orb_false_iff in Es as [Es _]. destruct (fpTask r =? 0).
  - specialize (IH (iCount - 1) (q_with q (q_when q) qr) w). destruct (q_run_loop _ _ _ _ _) as [[evs q'] w'].
    cbn in *. split; [apply sublist_cons, IH|lia].
  - set (p := task_body _ _ _ _). pose proof (q_prog_rank p (q_with q (q_when q) qr)) as Hl.
    destruct (q_prog p _) as [[w1 thrown] q1]. specialize (IH (iCount - 1) q1 w1).
    destruct (q_run_loop _ _ _ q1 _) as [[evs q'] w']. cbn in *. rewrite Hl in IH. split; [apply sublist_skip, IH|lia].
Qed.

Definition rank_lt (a b : Z * Z) : Prop := a.1 < b.1 \/ a.1 = b.1 /\ a.2 < b.2.

Lemma earlier_rank a b : earlier ComparePriorityGreater a b <-> rank_lt (rank a) (rank b).
Proof. unfold earlier, rank_lt. rewrite comp_spec. cbn. lia. Qed.

Lemma sublist_sorted {A} (R : relation A) l l' : l `sublist_of` l' -> StronglySorted R l' -> StronglySorted R l.
Proof.
  induction 1 as [|x l l' Hl IH|x l l' Hl IH]; intros Hs; [constructor| |]; inversion_clear Hs as [|?? Hs' Hx]; [|
    by apply IH].
  constructor; [by apply IH|]. rewrite Forall_forall in *. intros y Hy. apply Hx. by eapply elem_of_sublist.
Qed.

Lemma queue_rank_sorted l : StronglySorted (earlier ComparePriorityGreater) l -> StronglySorted rank_lt (map rank l).
Proof. apply (StronglySorted_fmap rank). intros a b. apply earlier_rank. Qed.

End Order.

(** ** Progress *)

(** The calls that leave a task alone: that schedule nothing more urgent, do not cancel it and do not
    suspend its priority. *)
Definition spares (t : TASK_RECORD) (c : call) : Prop :=
  match c with
  | DeferTask_ _ _ prio _ _ _ | DeferImmediateTask_ _ prio _ _ _ => iPriority t <= prio
  | CancelTask_ fp arg n => cancels fp arg n t = false
  | SetMinPriority_ m => iPriority t <= m
  | GetMinPriority_ => True
  | ReadyTasks_ _ | TraverseUnordered_ _ | TraverseOrdered_ _ => False
  end.

Lemma spares_plain t c : spares t c -> plain c.
Proof. by destruct c. Qed.

Lemma all_calls_impl {W} (P Q : call -> Prop) (p : prog W) : (forall c, P c -> Q c) -> all_calls P p -> all_calls Q p.
Proof. intros H. induction 1; constructor; auto. Qed.

(** How many tasks are more urgent. *)
Definition ahead (t : TASK_RECORD) (q : queue) : nat :=
  length (List.filter (ComparePriorityGreater t) (q_when q ++ q_ready q)).

Section Progress.
Context {W : Type} (task_body : Z -> Z -> Z -> W -> prog W) (t : TASK_RECORD) (Ht : fpTask t <> 0).
Hypothesis bodies : forall fp arg n w, all_calls (spares t) (task_body fp arg n w).

Record live (q : queue) : Prop := {
  live_in : t ∈ q_when q ++ q_ready q;
  live_min : iPriority t <= q_min q;
  live_when : StronglySorted (earlier CompareWhenGreater) (q_when q);
  live_ready : StronglySorted (earlier ComparePriorityGreater) (q_ready q);
  live_ok : q_ok q }.

(** From one state to another. *)
Definition keeps (q q' : queue) : Prop :=
  live q' /\ (ahead t q' <= ahead t q)%nat /\ (t ∈ q_ready q -> t ∈ q_ready q').

Lemma live_keeps_trans q1 q2 q3 : keeps q1 q2 -> keeps q2 q3 -> keeps q1 q3.
Proof. intros (?&?&?) (?&?&?). split_and!; [done|lia|auto]. Qed.

Lemma live_keeps_refl q : live q -> keeps q q.
Proof. intros Hl. by refine (conj Hl (conj _ _)). Qed.

Lemma cancel_elem fp arg n l : cancels fp arg n t = false -> t ∈ l -> t ∈ q_cancel fp arg n l.
Proof. intros Hc Hl. apply list_elem_of_fmap. exists t. by rewrite Hc. Qed.

Lemma cancel_ahead fp arg n l :
  length (List.filter (ComparePriorityGreater t) (q_cancel fp arg n l)) = length (List.filter (ComparePriorityGreater
    t) l).
Proof.
  unfold q_cancel. induction l as [|r l IH]; [done|]. cbn.
  assert (ComparePriorityGreater t (if cancels fp arg n r then set_fpTask r 0 else r) = ComparePriorityGreater t r) as ->
    by (apply comp_same_order; [done|done|apply cancel_order|apply cancel_order]).
  case_match; cbn; by rewrite IH.
Qed.

Lemma defer_keeps mem when prio fp arg n q : live q -> iPriority t <= prio
  -> keeps q (q_defer mem when prio fp arg n q).2.
Proof.
  intros Hl Hp. destruct mem; [|by apply live_keeps_refl]. destruct Hl as [Hin Hm Hw Hr Hok]. cbn [q_defer snd].
  set (r := {| ltaWhen := when |}). assert (Hlt : m_Ticket t < q_ticket q).
  { destruct Hok as [[Hf _] _]. rewrite Forall_forall in Hf. by apply Hf. }
  assert (Ha : ComparePriorityGreater t r = false) by (apply comp_false; cbn; lia). refine (conj _ (conj _ _)).
  - constructor; cbn [q_when q_ready q_min]; [| done | | done |by apply (q_ok_place q)].
    + rewrite place_perm. by right.
    + apply place_sorted; [|done]. apply ticket_fresh. by destruct Hok as [[[??] _]%ok_list_app _].
  - unfold ahead. cbn [q_when q_ready]. erewrite count_perm; [|rewrite place_perm; reflexivity]. cbn. by rewrite Ha.
  - done.
Qed.

Lemma call_keeps c q : live q -> spares t c -> keeps q (q_call c q).2.
Proof.
  intros Hl Hc. destruct c as [mem when prio fp arg n|mem prio fp arg n|fp arg n|m| | | |]; cbn [q_call]; try done.
  - pose proof (defer_keeps mem when prio fp arg n q Hl Hc). by destruct (q_defer mem when prio fp arg n q).
  - pose proof (defer_keeps mem 0 prio fp arg n q Hl Hc). by destruct (q_defer mem 0 prio fp arg n q).
  - destruct Hl as [Hin Hm Hw Hr Hok]. refine (conj _ (conj _ _)).
    + constructor; cbn; [rewrite <- q_cancel_app; by apply cancel_elem|done|by apply q_cancel_sorted|
        by apply q_cancel_sorted|
        by apply q_ok_cancel].
    + unfold ahead. cbn [q_when q_ready snd q_with]. by rewrite <- q_cancel_app, cancel_ahead.
    + by apply cancel_elem.
  - by destruct Hl.
Qed.

Lemma prog_keeps (p : prog W) q : live q -> all_calls (spares t) p -> keeps q (q_prog p q).2.
Proof.
  intros Hl Hp. revert q Hl. induction Hp as [w thrown|c k Hc Hk IH]; intros q Hl; cbn [q_prog];
    [by apply live_keeps_refl|].
  pose proof (call_keeps c q Hl Hc) as Hs. destruct (q_call c q) as [r q']. eapply live_keeps_trans; [exact Hs|].
    apply IH, Hs.
Qed.

Definition was_run (evs : list event) : Prop := exists thrown, Ran t thrown ∈ evs.

Lemma was_run_cons e evs : was_run evs -> was_run (e :: evs).
Proof. intros [th Hth]. exists th. by right. Qed.

(** The first of the ready tasks is this one or a more urgent one. *)
Lemma pop_keeps q r qr : live q -> q_ready q = r :: qr -> r <> t ->
  live (q_with q (q_when q) qr)
  /\ (t ∈ q_ready q -> t ∈ qr /\ iPriority r <= q_min q /\ (ahead t (q_with q (q_when q) qr) < ahead t q)%nat)
  /\ (ahead t (q_with q (q_when q) qr) <= ahead t q)%nat.
Proof.
  intros [Hin Hm Hw Hr Hok] Eq Hne. unfold ahead. cbn [q_when q_ready q_with].
  assert (Hp : q_when q ++ q_ready q ≡ₚ r :: q_when q ++ qr) by (rewrite Eq; symmetry; apply Permutation_middle).
  rewrite (count_perm _ _ _ Hp). rewrite Eq in Hr. inversion_clear Hr as [|?? Hr' Hall]. refine (conj _ (conj _ _)).
  - constructor; cbn; [|done|done|done|by eapply (q_ok_sub q _ [r])]. rewrite Hp in Hin.
      by apply elem_of_cons in Hin as [|].
  - rewrite Eq. intros [|Hq]%elem_of_cons; [done|]. split; [done|]. rewrite Forall_forall in Hall. specialize (Hall t Hq).
    unfold earlier in Hall. cbn. rewrite Hall. cbn. apply comp_spec in Hall. cbn in Hall. lia.
  - cbn. case_match; cbn; lia.
Qed.

Lemma run_keeps fuel iCount q w : live q ->
  let '(evs, q', _) := q_run_loop task_body fuel iCount q w in
  was_run evs \/ keeps q q' /\
    ((length (q_ready q) <= fuel)%nat -> t ∈ q_ready q -> 0 <= iCount
      -> Z.of_nat (ahead t q') + iCount <= Z.of_nat (ahead t q)).
Proof.
  revert iCount q w. induction fuel as [|fuel IH]; intros iCount q w Hl; cbn [q_run_loop].
  { right. split; [by apply live_keeps_refl|]. intros Hf Hin. destruct (q_ready q); [by apply elem_of_nil in Hin|
      cbn in Hf; lia]. }
  destruct (q_ready q) as [|r qr] eqn:Eq.
  { right. split; [by apply live_keeps_refl|]. by intros _ Hin%elem_of_nil. }
  destruct (decide (r = t)) as [->|Hne].
  { rewrite (proj2 (Z.ltb_ge _ _)) by (by apply live_min). destruct (Z.eqb_spec iCount 0) as [->|]; cbn [orb].
    { right. split; [by apply live_keeps_refl|]. lia. }
    rewrite (proj2 (Z.eqb_neq _ _) Ht). destruct (q_prog _ _) as [[w1 thrown] q1].
    destruct (q_run_loop _ _ _ _ _) as [[evs q'] w']. left. exists thrown. left. }
  destruct (pop_keeps q r qr Hl Eq Hne) as (Hl' & Hin & Ha). rewrite Eq in Hin.
  destruct (Z.eqb_spec iCount 0) as [->|Hi]; cbn [orb]; [right; split; [by apply live_keeps_refl|lia]|].
  destruct (Z.ltb_spec (q_min q) (iPriority r)) as [Hm|Hm].
  { right. split; [by apply live_keeps_refl|]. intros _ Hq. apply Hin in Hq. lia. }
  assert (Hk : keeps q (q_with q (q_when q) qr)) by (refine (conj Hl' (conj Ha _)); rewrite Eq; intros Hq;
    apply (Hin Hq)).
  destruct (fpTask r =? 0).
  - specialize (IH (iCount - 1) _ w Hl'). destruct (q_run_loop _ _ _ _ _) as [[evs q'] w'].
    destruct IH as [|[Hk' Hc]]; [by left|right]. split; [by eapply live_keeps_trans|]. cbn [q_ready q_with length] in *.
    intros Hf Hq Hpos. destruct (Hin Hq) as (? & ? & ?). specialize (Hc ltac:(lia) ltac:(done) ltac:(lia)). lia.
  - set (p := task_body _ _ _ _). pose proof (prog_keeps p _ Hl' (bodies _ _ _ _)) as Hk1.
    pose proof (q_prog_ready_length p (q_with q (q_when q) qr)) as Hlen. destruct (q_prog p _) as [[w1 thrown] q1].
    specialize (IH (iCount - 1) q1 w1 (proj1 Hk1)). destruct (q_run_loop _ _ _ q1 _) as [[evs q'] w'].
    destruct IH as [Hrun|[Hk' Hc]]; [left; by apply was_run_cons|right]. split;
      [by eapply live_keeps_trans, live_keeps_trans|].
    cbn [q_ready q_with length snd] in *. intros Hf Hq Hpos. destruct (Hin Hq) as (Hq' & ? & ?).
      destruct Hk1 as (_ & Ha1 & Hq1).
    specialize (Hc ltac:(lia) ltac:(auto) ltac:(lia)). lia.
Qed.

(** One record whose time has come. *)
Lemma due_step q r qw : live q -> q_when q = r :: qw ->
  keeps q (q_with q qw (if fpTask r =? 0 then q_ready q else place ComparePriorityGreater r (q_ready q))).
Proof.
  intros [Hin Hm Hw Hr Hok] Eq. rewrite Eq in Hw. inversion_clear Hw as [|?? Hw' _].
  destruct (Z.eqb_spec (fpTask r) 0) as [H0|H0].
  - assert (Hp : q_when q ++ q_ready q ≡ₚ r :: qw ++ q_ready q) by (by rewrite Eq). refine (conj _ (conj _ _)); [| |done].
    + constructor; cbn; [|done|done|done|by eapply (q_ok_sub q _ [r])].
      rewrite Hp in Hin. apply elem_of_cons in Hin as [->|]; [done|done].
    + unfold ahead. cbn [q_when q_ready q_with]. rewrite (count_perm _ _ _ Hp). cbn. case_match; cbn; lia.
  - assert (Hp : q_when q ++ q_ready q ≡ₚ qw ++ place ComparePriorityGreater r (q_ready q)).
    { rewrite Eq, place_perm. apply Permutation_middle. }
    refine (conj _ (conj _ _)).
    + constructor; cbn; [by rewrite <- Hp|done|done| |by eapply (q_ok_sub q _ [])].
      apply place_sorted; [|done]. apply Forall_forall. intros x Hx Ex. destruct Hok as [[_ Hnd] _]. rewrite Eq in Hnd.
      cbn in Hnd. apply NoDup_cons_1_1 in Hnd. apply Hnd, list_elem_of_fmap. exists x. split; [done|].
        apply elem_of_app. by right.
    + unfold ahead. cbn [q_when q_ready q_with]. by rewrite (count_perm _ _ _ Hp).
    + cbn. intros Hq. rewrite place_perm. by right.
Qed.

Lemma q_with_same q : q_with q (q_when q) (q_ready q) = q.
Proof. by destruct q. Qed.

Lemma due_keeps now q : live q ->
  keeps q (q_ready_tasks now q) /\ (ltaWhen t < now -> t ∈ q_ready (q_ready_tasks now q)).
Proof.
  remember (q_when q) as qw eqn:Eq. revert q Eq. induction qw as [|r qw IH]; intros q Eq Hl; unfold q_ready_tasks;
    rewrite <- Eq;
    cbn [q_due].
  - rewrite Eq, q_with_same. split; [by apply live_keeps_refl|]. intros _. destruct Hl as [Hin _ _ _ _].
      by rewrite <- Eq in Hin.
  - destruct (Z.ltb_spec (ltaWhen r) now) as [Hn|Hn].
    + pose proof (due_step q r qw Hl (eq_sym Eq)) as Hs. set (q1 := q_with q qw _) in Hs.
      destruct (IH q1 eq_refl (proj1 Hs)) as [Hk Hin]. unfold q_ready_tasks in Hk, Hin.
        cbn [q_when q_ready q_with] in Hk, Hin.
      fold (q_with q1) in *. subst q1. cbn [q_when q_ready q_with] in Hk, Hin. split; [|].
      * eapply live_keeps_trans; [exact Hs|]. by destruct (q_due _ _ _).
      * intros Hlt. specialize (Hin Hlt). by destruct (q_due _ _ _).
    + rewrite Eq, q_with_same. split; [by apply live_keeps_refl|]. intros Hlt. destruct Hl as [Hin _ Hw _ _].
        rewrite <- Eq in *.
      apply elem_of_app in Hin as [Hin|]; [|done]. inversion_clear Hw as [|?? _ Hall].
        apply elem_of_cons in Hin as [->|Hin]; [lia|].
      rewrite Forall_forall in Hall. apply Hall in Hin. unfold earlier in Hin. apply comp_spec in Hin. cbn in Hin. lia.
Qed.

Lemma run_all_keeps fuel q w : live q ->
  let '(evs, q', _) := q_run_all_loop task_body fuel q w in was_run evs \/ keeps q q'.
Proof.
  revert q w. induction fuel as [|fuel IH]; intros q w Hl; cbn [q_run_all_loop]; [right; by apply live_keeps_refl|].
  pose proof (run_keeps (length (q_ready q)) 100 q w Hl) as H. fold (q_run task_body 100 q w) in H.
  destruct (q_run task_body 100 q w) as [[evs q1] w1]. destruct evs as [|e evs].
  { right. destruct H as [[? ?%elem_of_nil]|[H _]]; [done|done]. }
  destruct H as [[th Hr]|[Hk _]].
  { destruct (q_run_all_loop _ _ _ _) as [[evs' q'] w']. left. exists th. apply elem_of_app. by left. }
  specialize (IH q1 w1 (proj1 Hk)). destruct (q_run_all_loop _ _ _ _) as [[evs' q'] w'].
  destruct IH as [[th Hr]|Hk']; [left; exists th; apply elem_of_app; by right|right; by eapply live_keeps_trans].
Qed.

(** ** Operations of the server *)

Definition op_spares (o : op) : Prop := match o with OpCall c => spares t c | _ => True end.

(** How many records a tick takes off the ready tasks when this one is among them. *)
Definition served (o : op) : Z :=
  match o with
  | OpTick chunk now => if (0 <? chunk) && (ltaWhen t <? now) then chunk else 0
  | _ => 0
  end.

Definition events_of (o : output) : list event := match o with RanTasks _ evs => evs | _ => [] end.

Lemma op_keeps o q w : live q -> op_spares o ->
  let '(out, q', _) := q_op task_body o q w in
  was_run (events_of out) \/ live q' /\ Z.of_nat (ahead t q') + served o <= Z.of_nat (ahead t q).
Proof.
  intros Hl Ho. destruct o as [c|now|n| |chunk now| |]; cbn [q_op served].
  - pose proof (call_keeps c q Hl Ho) as (? & ? & _). destruct (q_call c q) as [r q']. right. split; [done|cbn in *; lia].
  - right. destruct (due_keeps now q Hl) as [(? & ? & _) _]. split; [done|lia].
  - pose proof (run_keeps (length (q_ready q)) n q w Hl) as H. fold (q_run task_body n q w) in H.
    destruct (q_run _ _ _ _) as [[evs q'] w']. destruct H as [|[(? & ? & _) _]]; [by left|right; split; [done|lia]].
  - pose proof (run_all_keeps (S (length (q_ready q))) q w Hl) as H. fold (q_run_all task_body q w) in H.
    destruct (q_run_all _ _ _) as [[evs q'] w']. destruct H as [|(? & ? & _)]; [by left|right; split; [done|lia]].
  - destruct (due_keeps now q Hl) as [Hd Hin]. unfold q_tick. destruct (Z.eqb_spec chunk 0) as [->|Hc].
    + pose proof (run_all_keeps (S (length (q_ready (q_ready_tasks now q)))) _ w (proj1 Hd)) as H.
      fold (q_run_all task_body (q_ready_tasks now q) w) in H. destruct (q_run_all _ _ _) as [[evs q'] w'].
      destruct H as [|Hk]; [by left|right]. destruct (live_keeps_trans _ _ _ Hd Hk) as (? & ? & _). split; [done|].
        change (0 <? 0) with false. cbn [andb]. lia.
    + pose proof (run_keeps (length (q_ready (q_ready_tasks now q))) chunk _ w (proj1 Hd)) as H.
      fold (q_run task_body chunk (q_ready_tasks now q) w) in H. destruct (q_run _ _ _ _) as [[evs q'] w'].
      destruct H as [|[Hk Hs]]; [by left|right]. destruct (live_keeps_trans _ _ _ Hd Hk) as (? & ? & _). split; [done|].
      destruct (Z.ltb_spec 0 chunk), (Z.ltb_spec (ltaWhen t) now); cbn [andb]; [|lia..].
      specialize (Hs ltac:(lia) ltac:(auto) ltac:(lia)). destruct Hd as (_ & ? & _). lia.
  - right. split; [done|lia].
  - right. split; [done|lia].
Qed.

Lemma ops_reach os q w : live q -> Forall op_spares os -> Z.of_nat (ahead t q) < foldr Z.add 0 (map served os) ->
  was_run (flat_map events_of (q_ops task_body os q w).1.1).
Proof.
  intros Hl Ho. revert q w Hl. induction Ho as [|o os Ho Hos IH]; intros q w Hl Hs; cbn in Hs; [lia|]. cbn [q_ops].
  pose proof (op_keeps o q w Hl Ho) as H. destruct (q_op _ o q w) as [[out q1] w1]. destruct H as [[th Hr]|[Hl1 Ha]].
  - destruct (q_ops _ os q1 w1) as [[outs q2] w2]. exists th. cbn. apply elem_of_app. by left.
  - specialize (IH q1 w1 Hl1 ltac:(lia)). destruct (q_ops _ os q1 w1) as [[outs q2] w2]. destruct IH as [th Hr].
      exists th.
    cbn in *. apply elem_of_app. by right.
Qed.

End Progress.

(** ** Theorems *)

(** C3: Whatever the standard library's heaps look like, a sequence of operations on the scheduler
    that makes fewer than 2^64 tasks ends, and runs the same tasks in the same order, with the same
    answers, as the same operations on two lists that are kept in the order of time and of priority,
    each then in the order in which tasks were scheduled.  (Tasks that call the scheduler call
    [DeferTask], [DeferImmediateTask], [CancelTask] and the priority limit; they do not traverse the
    heaps and run no tasks.) *)
Theorem scheduler_refines {HS : StdHeap} {W} (task_body : Z -> Z -> Z -> W -> prog W) spare os w :
  (forall fp arg n w, all_calls plain (task_body fp arg n w)) -> Forall plain_op os ->
  let '(outs, q, w') := q_ops task_body os new_queue w in q_ticket q < 2 ^ 64 ->
  exists outs' s, run_ops task_body spare os new_scheduler w = Some (outs', s, w')
    /\ map unmark_output outs' = outs /\ abs s q.
Proof. intros Hb Ho. apply run_ops_abs; [done|done|apply abs_new]. Qed.

(** C20: A call of [RunTasks] runs at most as many tasks as it is told to, all of them tasks that were
    ready when it began, by priority and tasks of one priority in the order in which they were
    scheduled, whatever the tasks themselves schedule, cancel or suspend.  The tasks must not traverse
    the heaps, make tasks ready or run any: one that wakes another, as [@notify] does, may have an
    older task run after itself ([SchedWalk.waking_breaks_order]). *)
Theorem runs_in_order {HS : StdHeap} {W} (task_body : Z -> Z -> Z -> W -> prog W) spare iCount s q w :
  (forall fp arg n w, all_calls plain (task_body fp arg n w)) -> abs s q ->
  q_ticket (q_run task_body iCount q w).1.2 < 2 ^ 64 ->
  exists evs s' w', RunTasks task_body spare iCount s w = Some (Z.of_nat (length evs), evs, s', w')
    /\ StronglySorted rank_lt (map (fun e => rank (task_of e)) evs)
    /\ map (fun e => rank (task_of e)) evs `sublist_of` map rank (q_ready q)
    /\ (0 <= iCount -> Z.of_nat (length evs) <= iCount).
Proof.
  intros Hb Ha Ht. pose proof (RunTasks_abs task_body spare Hb iCount s q w Ha) as H.
  pose proof (q_run_loop_order task_body (length (q_ready q)) iCount q w) as Ho. fold (q_run task_body iCount q w) in Ho.
  destruct (q_run task_body iCount q w) as [[evs q'] w']. destruct (H Ht) as (evs' & s' & E & <- & Hs).
  assert (Em : map (fun e => rank (task_of e)) (map unmark_event evs') = map (fun e => rank (task_of e)) evs')
    by (rewrite map_map; apply map_ext; by intros []).
  rewrite Em, length_map in Ho. rewrite length_map in E. exists evs', s', w'. split; [done|].
    destruct Ho as [Hsub Hn]. split; [|done].
  eapply sublist_sorted; [exact Hsub|]. apply queue_rank_sorted, (abs_ready _ _ Ha).
Qed.

(** C4: A task that has been scheduled is run, once its time has come, after at most as many records
    as are more urgent, as long as the others schedule no tasks that are more urgent and do not cancel
    it or suspend its priority: tasks of its own priority cannot starve it, however many there are. *)
Theorem not_starved {HS : StdHeap} {W} (task_body : Z -> Z -> Z -> W -> prog W) spare t s q os w :
  abs s q -> t ∈ q_when q ++ q_ready q -> fpTask t <> 0 -> iPriority t <= q_min q ->
  (forall fp arg n w, all_calls (spares t) (task_body fp arg n w)) -> Forall (op_spares t) os ->
  Z.of_nat (ahead t q) < foldr Z.add 0 (map (served t) os) ->
  q_ticket (q_ops task_body os q w).1.2 < 2 ^ 64 ->
  exists outs s' w' thrown, run_ops task_body spare os s w = Some (outs, s', w')
    /\ Ran t thrown ∈ flat_map events_of (map unmark_output outs).
Proof.
  intros Ha Hin Hf Hm Hb Ho Hs Ht.
  assert (Hl : live t q).
  { constructor; [done|done|apply (abs_when _ _ Ha)|apply (abs_ready _ _ Ha)|apply (abs_ok _ _ Ha)]. }
  pose proof (ops_reach task_body t Hf Hb os q w Hl Ho Hs) as [th Hr].
  assert (Hp : forall fp arg n w, all_calls plain (task_body fp arg n w)) by
    (intros *; eapply all_calls_impl; [|apply Hb]; apply spares_plain).
  assert (Hop : Forall plain_op os) by (eapply Forall_impl; [exact Ho|]; intros []; [apply spares_plain|done..]).
  pose proof (run_ops_abs task_body spare Hp os s q w Hop Ha) as H. destruct (q_ops task_body os q w) as [[outs q'] w'].
  destruct (H Ht) as (outs' & s' & E & <- & Hs'). by exists outs', s', w', th.
Qed.

(** [RunAllTasks] stops at the first batch of 100 records that were all cancelled: tasks behind
    them that are ready are not run. *)
Theorem run_all_stops {HS : StdHeap} {W} (task_body : Z -> Z -> Z -> W -> prog W) spare s q w batch rest :
  (forall fp arg n w, all_calls plain (task_body fp arg n w)) -> abs s q -> q_ready q = batch ++ rest ->
  length batch = 100%nat -> Forall (fun r => fpTask r = 0 /\ iPriority r <= q_min q) batch -> q_ticket q < 2 ^ 64 ->
  exists s', RunAllTasks task_body spare s w = Some (0, [], s', w) /\ abs s' (q_with q (q_when q) rest).
Proof.
  intros Hb Ha Eq Hl Hf Ht.
  assert (Hloop : forall k batch q fuel, q_ready q = batch ++ rest -> length batch = k -> (k <= fuel)%nat ->
    Forall (fun r => fpTask r = 0 /\ iPriority r <= q_min q) batch ->
    q_run_loop task_body fuel (Z.of_nat k) q w = ([], q_with q (q_when q) rest, w)).
  { clear. induction k as [|k IH]; intros [|r batch] q fuel Eq Hl Hk Hf; try done.
    - cbn in Eq. rewrite <- Eq. destruct fuel, q as [qw [|]]; done.
    - destruct fuel as [|fuel]; [lia|]. cbn [q_run_loop]. cbn in Eq, Hl. rewrite Eq. inversion_clear Hf as [|
        ?? [H0 Hm] Hf'].
      rewrite (proj2 (Z.eqb_neq _ _)) by lia. rewrite (proj2 (Z.ltb_ge _ _)) by lia. rewrite H0. cbn [orb Z.eqb].
      rewrite Z.eqb_refl. replace (Z.of_nat (S k) - 1) with (Z.of_nat k) by lia.
      rewrite (IH batch (q_with q (q_when q) (batch ++ rest)) fuel); [done|done|lia|lia|done]. }
  pose proof (RunAllTasks_abs task_body spare Hb s q w Ha) as H. unfold q_run_all in H. cbn [q_run_all_loop] in H.
  unfold q_run in H. change 100 with (Z.of_nat 100) in H.
  rewrite (Hloop 100%nat batch q) in H; [|done|done|rewrite Eq, length_app; lia|done].
  destruct (H Ht) as (evs & s' & E & Em & Hs). exists s'. by destruct evs.
Qed.

(** ** Examples *)

(** Function 1 writes its argument to a log, 2 schedules 1 besides, 3 ends by an exception. *)
Definition log_body (fp arg n : Z) (w : list Z) : prog (list Z) :=
  if fp =? 2 then Do (DeferTask_ true 5 PRIORITY_OBJECT 1 (arg + 1) n) (fun _ => Ret (w ++ [arg]) false)
  else Ret (w ++ [arg]) (fp =? 3).

Definition demo : list op :=
  [OpCall (DeferTask_ true 10 PRIORITY_OBJECT 2 7 0); OpCall (DeferTask_ true 3 PRIORITY_PLAYER 3 8 0);
   OpCall (DeferTask_ false 3 PRIORITY_PLAYER 1 9 0); OpCall (DeferTask_ true 10 PRIORITY_OBJECT 1 5 0);
   OpWhenNext; OpTick 2 20; OpHasPendingUserTasks; OpTick 0 20; OpTick 0 20; OpHasPendingUserTasks].

Lemma log_spares t fp arg n w : iPriority t <= PRIORITY_OBJECT -> all_calls (spares t) (log_body fp arg n w).
Proof. intros Ht. unfold log_body. case_match; repeat constructor. exact Ht. Qed.

Lemma log_plain fp arg n w : all_calls plain (log_body fp arg n w).
Proof. unfold log_body. case_match; repeat constructor. Qed.

Definition task (when prio ticket fp arg : Z) : TASK_RECORD := {|
  ltaWhen := when; iPriority := prio; m_Ticket := ticket; fpTask := fp; arg_voidptr := arg; arg_Integer := 0;
    m_iVisitedMark := 0 |}.

(** The heap of a queue. *)
Definition heap_of (q : list TASK_RECORD) : CTaskHeap := {| m_Heap := q; h_iVisitedMark := 0 |}.

Definition sched_of (q : queue) : CScheduler := {|
  m_WhenHeap := heap_of (q_when q); m_PriorityHeap := heap_of (q_ready q); next_Ticket := q_ticket q;
    m_minPriority := q_min q |}.

Lemma sched_of_abs q : StronglySorted (earlier CompareWhenGreater) (q_when q) ->
  StronglySorted (earlier ComparePriorityGreater) (q_ready q) -> Forall (fun r => unmark r = r) (q_when q ++ q_ready q) ->
  q_ok q -> abs (sched_of q) q.
Proof.
  assert (Hh : forall comp `{!Comparator comp} l, StronglySorted (earlier comp) l -> Forall (fun r => unmark r = r) l ->
    holds comp (heap_of l) l).
  { intros comp Hc l Hs Hu. split_and!; [apply descending_heap| |done]; cbn [m_Heap heap_of].
    - clear Hu. induction Hs as [|x l Hs IH Hall]; constructor; [done|].
      eapply Forall_impl; [exact Hall|]. intros y Hy. apply comp_false. apply comp_spec in Hy. lia.
    - clear Hs. induction Hu as [|x l Hx Hu IH]; cbn; [done|]. by rewrite Hx, IH. }
  intros Hw Hr [Huw Hur]%Forall_app Hok. constructor; [by apply (Hh CompareWhenGreater _)|
    by apply (Hh ComparePriorityGreater _)|done|done|done].
Qed.

Lemma scheduler_refines_witness : exists outs s w, @run_ops sorted_heap _ log_body 0 demo new_scheduler [] = Some
  (outs, s, w)
  /\ map unmark_output outs
    = [Replied (Enqueued true); Replied (Enqueued true); Replied (Enqueued false); Replied (Enqueued true); When (Some 3);
       RanTasks 2 [Ran (task 3 PRIORITY_PLAYER 1 3 8) true; Ran (task 10 PRIORITY_OBJECT 0 2 7) false]; Pending true;
       RanTasks 2 [Ran (task 10 PRIORITY_OBJECT 2 1 5) false; Ran (task 5 PRIORITY_OBJECT 3 1 8) false];
       RanTasks 0 []; Pending false].
Proof.
  pose proof (@scheduler_refines sorted_heap _ log_body 0 demo [] log_plain ltac:(repeat constructor)) as H.
  destruct H as (outs & s & E & Em & _); [reflexivity|]. exists outs, s. eexists. split; [exact E|exact Em].
Defined.

Definition busy : queue := {|
  q_when := [task 10 PRIORITY_OBJECT 4 1 40; task 30 PRIORITY_OBJECT 0 1 0];
  q_ready := [task 0 PRIORITY_PLAYER 3 1 30; task 0 PRIORITY_OBJECT 1 0 10; task 0 PRIORITY_OBJECT 2 2 20];
  q_ticket := 5; q_min := PRIORITY_OBJECT |}.

Lemma busy_abs : abs (sched_of busy) busy.
Proof.
  apply sched_of_abs; cbn; [repeat constructor|repeat constructor|repeat constructor|].
  split; [split; cbn; [repeat constructor|apply (bool_decide_unpack _); reflexivity]|done].
Qed.

Lemma runs_in_order_witness : exists evs s w,
  @RunTasks sorted_heap _ log_body 0 2 (sched_of busy) [] = Some (Z.of_nat (length evs), evs, s, w)
  /\ StronglySorted rank_lt (map (fun e => rank (task_of e)) evs)
  /\ map (fun e => rank (task_of e)) evs `sublist_of` map rank (q_ready busy) /\ (0 <= 2 -> Z.of_nat (length evs) <= 2).
Proof. apply (@runs_in_order sorted_heap _ log_body 0 2 _ busy [] log_plain busy_abs). reflexivity. Defined.

Lemma not_starved_witness : exists outs s w thrown,
  @run_ops sorted_heap _ log_body 0 [OpTick 2 20; OpCall (CancelTask_ 1 0 0);
    OpTick 3 21] (sched_of busy) [] = Some (outs, s, w)
  /\ Ran (task 10 PRIORITY_OBJECT 4 1 40) thrown ∈ flat_map events_of (map unmark_output outs).
Proof.
  apply (@not_starved sorted_heap _ log_body 0 (task 10 PRIORITY_OBJECT 4 1 40) _ busy); [exact busy_abs|by left|
    discriminate|done| | | |].
  - intros *. apply log_spares. discriminate.
  - repeat constructor.
  - reflexivity.
  - reflexivity.
Defined.

(** A hundred cancelled tasks and one that is ready. *)
Definition cancelled : list TASK_RECORD := map (fun k => task 0 PRIORITY_OBJECT k 0 0) (zrange 0 100).
Definition blocked : queue := {|
  q_when := []; q_ready := cancelled ++ [task 0 PRIORITY_OBJECT 100 1 7]; q_ticket := 101; q_min := PRIORITY_OBJECT |}.

Lemma blocked_abs : abs (sched_of blocked) blocked.
Proof.
  apply sched_of_abs; [apply SSorted_nil|apply (bool_decide_unpack _); vm_compute; reflexivity| |].
  - apply (bool_decide_unpack _). vm_compute. reflexivity.
  - split; [split|done]; apply (bool_decide_unpack _); vm_compute; reflexivity.
Qed.

Lemma run_all_stops_witness : exists s, @RunAllTasks sorted_heap _ log_body 0 (sched_of blocked) [] = Some (0, [], s, [])
  /\ abs s (q_with blocked [] [task 0 PRIORITY_OBJECT 100 1 7]).
Proof.
  apply (@run_all_stops sorted_heap _ log_body 0 _ blocked [] cancelled); [exact log_plain|exact blocked_abs|
    reflexivity|reflexivity| |reflexivity].
  apply (bool_decide_unpack _). vm_compute. reflexivity.
Defined.
