(* ===== verification/SchedWalk.v ===== *)
(** * Traversing the scheduler

    What the two traversals visit and leave behind, that operations leave both heaps heaps, whatever
    tasks call, and when they end: tasks that run tasks, as [@kick] does, need not. *)

From Stdlib Require Import Sorting.Sorted.
From stdpp Require Import sorting.
From S2P Require Import Prelude Machine TaskHeap Sched SchedSpec SchedLive.

(** What a callback answers to the records it is given one after another. *)
Fixpoint answers (cb : SCHLOOK) (seen v : list TASK_RECORD) : list (Z * TASK_RECORD) :=
  match v with [] => [] | p :: v => cb seen p :: answers cb (seen ++ [p]) v end.

(** The records that it leaves. *)
Definition left (cb : SCHLOOK) (seen v : list TASK_RECORD) : list TASK_RECORD :=
  map snd (List.filter (fun a => negb (a.1 =? IU_REMOVE_TASK)) (answers cb seen v)).

Lemma answers_snoc cb seen v p : answers cb seen (v ++ [p]) = answers cb seen v ++ [cb (seen ++ v) p].
Proof.
  revert seen. induction v as [|x v IH]; intros seen; cbn; [by rewrite app_nil_r|]. by rewrite IH, <- app_assoc.
Qed.

Lemma answers_app cb seen v v' : answers cb seen (v ++ v') = answers cb seen v ++ answers cb (seen ++ v) v'.
Proof.
  revert seen. induction v as [|x v IH]; intros seen; cbn; [by rewrite app_nil_r|]. by rewrite IH, <- app_assoc.
Qed.

Lemma left_app cb seen v v' : left cb seen (v ++ v') = left cb seen v ++ left cb (seen ++ v) v'.
Proof. unfold left. by rewrite answers_app, List.filter_app, map_app. Qed.

Lemma left_one cb seen p : left cb seen [p] = if (cb seen p).1 =? IU_REMOVE_TASK then [] else [(cb seen p).2].
Proof. unfold left. cbn. by destruct (_ =? _). Qed.

(** A callback that leaves marks and tickets alone, and a record where it is in the order unless it
    says that it changed or is to be removed. *)
Definition honest (cb : SCHLOOK) : Prop := forall seen p,
  m_iVisitedMark (cb seen p).2 = m_iVisitedMark p /\ m_Ticket (cb seen p).2 = m_Ticket p
  /\ ((cb seen p).1 <> IU_REMOVE_TASK -> (cb seen p).1 <> IU_UPDATE_TASK ->
      ltaWhen (cb seen p).2 = ltaWhen p /\ iPriority (cb seen p).2 = iPriority p).

(** A comparator whose key is the time or the priority. *)
Class TaskOrder (comp : TASK_RECORD -> TASK_RECORD -> bool) := {
  task_comparator :: Comparator comp;
  task_key a b : ltaWhen a = ltaWhen b -> iPriority a = iPriority b -> key (comp := comp) a = key (comp := comp) b }.

#[export] Instance CompareWhenGreater_order : TaskOrder CompareWhenGreater := {| task_comparator :=
  CompareWhenGreater_ok; task_key a b H _ := H |}.
#[export] Instance ComparePriorityGreater_order : TaskOrder ComparePriorityGreater := {|
  task_comparator := ComparePriorityGreater_ok; task_key a b _ H := H |}.

(** ** Lists *)

Lemma insert_split {A} (l : list A) i p : l !! i = Some p -> exists k, l ≡ₚ p :: k /\ forall p', <[i := p']> l ≡ₚ p' :: k.
Proof.
  intros H. exists (take i l ++ drop (S i) l). split.
  - rewrite <- (take_drop_middle l i p H) at 1. symmetry. apply Permutation_middle.
  - intros p'. rewrite insert_take_drop by by eapply lookup_lt_Some. symmetry. apply Permutation_middle.
Qed.

(** The last element takes the place of one that goes. *)
Lemma swap_remove {A} (l : list A) i p k : l !! i = Some p -> l ≡ₚ p :: k ->
  removelast (<[i := default p (last l)]> l) ≡ₚ k.
Proof.
  intros Hi Hp. destruct (exists_last (l := l)) as (l0 & z & ->); [by intros ->|].
  rewrite last_snoc. cbn [default]. apply lookup_app_Some in Hi as [Hi|[Hlen Hi]].
  - pose proof (lookup_lt_Some _ _ _ Hi). rewrite insert_app_l by done. rewrite removelast_last.
    destruct (insert_split l0 i p Hi) as (k0 & Hk & Hin). rewrite Hin. rewrite Hk in Hp. cbn in Hp.
    apply Permutation_cons_inv in Hp. rewrite <- Hp. apply Permutation_cons_append.
  - destruct (i - length l0)%nat eqn:E; [|by destruct n]. cbn in Hi. injection Hi as ->.
    rewrite insert_app_r_alt by lia. rewrite E. cbn. rewrite removelast_last.
    rewrite <- Permutation_cons_append in Hp. by apply Permutation_cons_inv in Hp.
Qed.

Section Walk.
Context {HS : StdHeap} {comp : TASK_RECORD -> TASK_RECORD -> bool} {HT : TaskOrder comp}.

(** Being a heap depends on the keys and tickets only. *)
Lemma heap_insert l i p p' : is_heap comp l -> l !! i = Some p -> key (comp := comp) p' = key (comp := comp) p
  -> m_Ticket p' = m_Ticket p ->
  is_heap comp (<[i := p']> l).
Proof.
  intros Hh Hi Hk Ht j x y Hx Hy.
  assert (Hl : forall j z, <[i := p']> l !! j = Some z -> exists z', l !! j = Some z' /\ key (comp := comp) z = key
    (comp := comp) z' /\ m_Ticket z = m_Ticket z').
  { clear x y Hx Hy j. intros j z Hz. destruct (decide (i = j)) as [->|Hne].
    - rewrite list_lookup_insert_eq in Hz by by eapply lookup_lt_Some. simplify_eq. by exists p.
    - rewrite list_lookup_insert_ne in Hz by done. by exists z. }
  destruct (Hl _ _ Hx) as (x' & Hx' & ? & ?), (Hl _ _ Hy) as (y' & Hy' & ? & ?).
  rewrite <- (Hh _ _ _ Hx' Hy'). by apply comp_same_order.
Qed.

Variables (mark : Z) (cb : SCHLOOK).
Hypothesis cb_honest : honest cb.

Definition visited (r : TASK_RECORD) : bool := m_iVisitedMark r =? mark.
Definition unvisited (r : TASK_RECORD) : bool := negb (visited r).

Lemma filter_perm (f : TASK_RECORD -> bool) l l' : l ≡ₚ l' -> List.filter f l ≡ₚ List.filter f l'.
Proof.
  induction 1 as [|x l l' H IH|x y l|l l1 l2 H1 IH1 H2 IH2]; cbn; repeat case_match; try done; try by constructor.
  by rewrite IH1.
Qed.

(** What holds of the heap [l] when, of the heap [l0], the records [v] have been visited. *)
Record walked (seen l0 v l : list TASK_RECORD) : Prop := {
  walked_heap : is_heap comp l;
  walked_left : List.filter visited l ≡ₚ List.filter visited l0 ++ left cb seen v;
  walked_rest : v ++ map (fun r => set_mark r mark) (List.filter unvisited l)
    ≡ₚ map (fun r => set_mark r mark) (List.filter unvisited l0) }.

Lemma walked_start seen l0 : is_heap comp l0 -> walked seen l0 [] l0.
Proof. intros Hh. constructor; [done|cbn; by rewrite app_nil_r|done]. Qed.

(** One more visit. *)
Lemma walked_visit seen l0 v l i p l' : walked seen l0 v l -> l !! i = Some p -> unvisited p = true ->
  is_heap comp l' ->
  (forall k, l ≡ₚ p :: k -> l' ≡ₚ if (cb (seen ++ v) (set_mark p mark)).1 =? IU_REMOVE_TASK then k
                                 else (cb (seen ++ v) (set_mark p mark)).2 :: k) ->
  walked seen l0 (v ++ [set_mark p mark]) l'.
Proof.
  intros [Hh Hl Hr] Hi Hp Hh' Hk. destruct (insert_split l i p Hi) as (k & Hlk & _). specialize (Hk k Hlk).
  set (c := cb (seen ++ v) (set_mark p mark)) in *.
  assert (Hv : visited c.2 = true) by (unfold visited, c; rewrite (proj1 (cb_honest _ _)); apply Z.eqb_refl).
  assert (Hp' : visited p = false) by (unfold unvisited in Hp; by destruct (visited p)).
  pose proof (filter_perm visited _ _ Hlk) as Hf1. pose proof (filter_perm unvisited _ _ Hlk) as Hf2.
  cbn in Hf1, Hf2. rewrite Hp' in Hf1. rewrite Hp in Hf2. rewrite Hf1 in Hl. rewrite Hf2 in Hr. cbn in Hr.
  assert (Hu : List.filter unvisited l' ≡ₚ List.filter unvisited k).
  { rewrite (filter_perm unvisited _ _ Hk). case_match; [done|]. cbn. unfold unvisited at 1. by rewrite Hv. }
  constructor; [done| |].
  - rewrite left_app, left_one. fold c. rewrite (filter_perm visited _ _ Hk), app_assoc, <- Hl.
    destruct (c.1 =? IU_REMOVE_TASK); cbn; [by rewrite app_nil_r|]. rewrite Hv. apply Permutation_cons_append.
  - rewrite <- Hr, Hu, <- app_assoc. cbn. done.
Qed.

(** The heap after the answer of the callback. *)
Lemma visit_heap l i p q : is_heap comp l -> l !! i = Some p ->
  (cb q (set_mark p mark)).1 <> IU_REMOVE_TASK -> (cb q (set_mark p mark)).1 <> IU_UPDATE_TASK ->
  is_heap comp (<[i := (cb q (set_mark p mark)).2]> l).
Proof.
  intros Hh Hi H2 H3. destruct (cb_honest q (set_mark p mark)) as (_ & Ht & Hk). destruct (Hk H2 H3) as [Hw Hp].
  apply (heap_insert l i p); [done|done|by apply task_key|done].
Qed.

Lemma insert_perm (l : list TASK_RECORD) i p p' : l !! i = Some p -> forall k, l ≡ₚ p :: k -> <[i := p']> l ≡ₚ p' :: k.
Proof.
  intros Hi k Hk. destruct (insert_split l i p Hi) as (k' & Hk' & Hin). rewrite Hin. rewrite Hk' in Hk.
  apply Permutation_cons_inv in Hk. by rewrite Hk.
Qed.

Lemma remove_perm (l : list TASK_RECORD) i p p' : l !! i = Some p -> forall k, l ≡ₚ p :: k ->
  removelast (<[i := default p' (last (<[i := p']> l))]> (<[i := p']> l)) ≡ₚ k.
Proof.
  intros Hi k Hk. apply swap_remove; [|by eapply insert_perm]. apply list_lookup_insert_eq. by eapply lookup_lt_Some.
Qed.

Definition some_done : Prop := exists q p, (cb q p).1 = IU_DONE.

Lemma visit_pass_walked n i seen l0 v unv l : walked seen l0 v l ->
  let '(r, seen', l') := visit_pass comp n i mark cb (seen ++ v) unv l in
  exists v', seen' = seen ++ v' /\ walked seen l0 v' l' /\ (length v <= length v')%nat /\
  match r with
  | Some true => unv = false -> (length v < length v')%nat
  | Some false => unv = false /\ v' = v /\ l' = l /\
      ((length l <= i + n)%nat -> forall j p, (i <= j)%nat -> l !! j = Some p -> visited p = true)
  | None => some_done
  end.
Proof.
  revert i v unv l. induction n as [|n IH]; intros i v unv l Hw; cbn [visit_pass].
  { exists v. split_and!; [done|done|done|]. destruct unv; [done|]. split_and!; [done|done|done|].
    intros Hl j p Hj Hp%lookup_lt_Some. lia. }
  destruct (l !! i) as [p|] eqn:Hi.
  2: { exists v. split_and!; [done|done|done|]. destruct unv; [done|]. split_and!; [done|done|done|].
       intros _ j p Hj Hp%lookup_lt_Some. apply lookup_ge_None in Hi. lia. }
  fold (visited p). destruct (visited p) eqn:Hv.
  { specialize (IH (S i) v unv l Hw). destruct (visit_pass _ _ _ _ _ _ _ _) as [[r seen'] l'].
    destruct IH as (v' & -> & Hw' & Hlen & Hr). exists v'. split_and!; [done|done|done|]. destruct r as [[]|]; [done|
      |done].
    destruct Hr as (-> & -> & -> & Hall). split_and!; [done|done|done|]. intros Hl j p' Hj Hp'.
    destruct (decide (i = j)) as [->|]; [congruence|]. apply (Hall ltac:(lia) j p'); [lia|done]. }
  assert (Hu : unvisited p = true) by (unfold unvisited; by rewrite Hv).
  set (pm := set_mark p mark) in *.
  assert (Hnext : forall l', is_heap comp l' -> (forall k, l ≡ₚ p :: k ->
      l' ≡ₚ if (cb (seen ++ v) pm).1 =? IU_REMOVE_TASK then k else (cb (seen ++ v) pm).2 :: k) ->
    let '(r, seen', l') := visit_pass comp n (S i) mark cb ((seen ++ v) ++ [pm]) true l' in
    exists v', seen' = seen ++ v' /\ walked seen l0 v' l' /\ (length v <= length v')%nat /\
    match r with
    | Some true => unv = false -> (length v < length v')%nat
    | Some false => unv = false /\ v' = v /\ l' = l /\
        ((length l <= i + S n)%nat -> forall j p, (i <= j)%nat -> l !! j = Some p -> visited p = true)
    | None => some_done
    end).
  { intros l' Hh' Hk. pose proof (walked_visit seen l0 v l i p l' Hw Hi Hu Hh' Hk) as Hw'. rewrite <- app_assoc.
    specialize (IH (S i) (v ++ [pm]) true l' Hw'). destruct (visit_pass _ _ _ _ _ _ _ _) as [[r seen'] l2].
    destruct IH as (v' & -> & Hw2 & Hlen & Hr). rewrite length_app in Hlen. cbn in Hlen. exists v'.
    split_and!; [done|done|lia|]. destruct r as [[]|]; [lia|by destruct Hr|done]. }
  destruct (cb (seen ++ v) pm) as [cmd p'] eqn:Ec. cbn [fst snd] in Hnext.
  pose proof (visit_heap l i p (seen ++ v) (walked_heap _ _ _ _ Hw) Hi) as Hh. fold pm in Hh. rewrite Ec in Hh.
    cbn [fst snd] in Hh.
  destruct (Z.eqb_spec cmd IU_REMOVE_TASK) as [->|H2].
  { apply Hnext; [apply make_heap_ok, comp_weak|]. intros k Hk.
    rewrite (proj2 (make_heap_ok comp _ comp_weak)). by eapply remove_perm. }
  destruct (Z.eqb_spec cmd IU_DONE) as [->|H0].
  { exists (v ++ [pm]). rewrite app_assoc. split_and!; [done| |rewrite length_app; lia|by exists (seen ++ v), pm;
      rewrite Ec].
    apply (walked_visit seen l0 v l i p); [done|done|done|by apply Hh|]. fold pm. rewrite Ec. cbn [fst snd].
    intros k Hk. by eapply insert_perm. }
  destruct (Z.eqb_spec cmd IU_UPDATE_TASK) as [->|H3].
  - apply Hnext; [apply make_heap_ok, comp_weak|]. intros k Hk.
    rewrite (proj2 (make_heap_ok comp _ comp_weak)). by eapply insert_perm.
  - apply Hnext; [by apply Hh|]. intros k Hk. by eapply insert_perm.
Qed.

Lemma visit_passes_walked fuel seen l0 v l : walked seen l0 v l -> (length (List.filter unvisited l) < fuel)%nat ->
  exists all v' l', visit_passes comp fuel mark cb (seen ++ v) l = Some (all, seen ++ v', l') /\ walked seen l0 v' l'
    /\ if (all : bool) then List.filter unvisited l' = [] else some_done.
Proof.
  revert v l. induction fuel as [|fuel IH]; intros v l Hw Hf; [lia|]. cbn [visit_passes].
  pose proof (visit_pass_walked (length l) 0 seen l0 v false l Hw) as H.
  destruct (visit_pass _ _ _ _ _ _ _ _) as [[r seen'] l']. destruct H as (v' & -> & Hw' & Hlen & Hr). destruct r as [[]|].
  - apply IH; [done|]. specialize (Hr eq_refl). destruct Hw as [_ _ H1], Hw' as [_ _ H2]. rewrite <- H1 in H2.
    apply Permutation_length in H2. rewrite !length_app, !length_map in H2. lia.
  - destruct Hr as (_ & -> & -> & Hall). exists true, v, l. split_and!; [done|done|].
    assert (H : Forall (fun p => visited p = true) l).
    { apply Forall_forall. intros p [j Hj]%list_elem_of_lookup. by apply (Hall ltac:(lia) j); [lia|]. }
    clear - H. unfold unvisited. induction H as [|p l Hp _ IH]; cbn; [done|]. by rewrite Hp.
  - by exists false, v', l'.
Qed.

End Walk.

Section Heaps.
Context {HS : StdHeap} {comp : TASK_RECORD -> TASK_RECORD -> bool} {HT : TaskOrder comp}.

(** No record has the mark that the next traversal gives. *)
Definition fresh (h : CTaskHeap) : Prop :=
  0 <= h_iVisitedMark h < 2147483647 /\ Forall (fun r => m_iVisitedMark r <= h_iVisitedMark h) (m_Heap h).

Lemma heap_marks m l : is_heap comp l -> is_heap comp (map (fun p => set_mark p m) l).
Proof.
  intros Hh i x y (x' & -> & Hx)%list_lookup_fmap_Some (y' & -> & Hy)%list_lookup_fmap_Some.
  rewrite comp_marks. by apply (Hh i).
Qed.

Lemma next_mark_heap h : is_heap comp (m_Heap h) -> is_heap comp (m_Heap (next_mark h)).
Proof. unfold next_mark. cbn zeta. case_match; cbn; [apply heap_marks|done]. Qed.

Lemma next_mark_unmark h : map unmark (m_Heap (next_mark h)) = map unmark (m_Heap h).
Proof. unfold next_mark. cbn zeta. case_match; cbn; [by rewrite map_map|done]. Qed.

Lemma next_mark_fresh h : fresh h -> List.filter (visited (h_iVisitedMark (next_mark h))) (m_Heap (next_mark h)) = []
  /\ List.filter (unvisited (h_iVisitedMark (next_mark h))) (m_Heap (next_mark h)) = m_Heap (next_mark h).
Proof.
  intros [Hm Hf]. unfold next_mark. cbn zeta. rewrite sgn_small by (done || apply in_s32; lia).
  rewrite (proj2 (Z.eqb_neq _ _)) by lia. cbn [m_Heap h_iVisitedMark]. unfold unvisited.
  induction Hf as [|r l Hr Hf [IH1 IH2]]; [done|]. cbn.
  assert (visited (h_iVisitedMark h + 1) r = false) as -> by (apply Z.eqb_neq; lia). cbn. by rewrite IH1, IH2.
Qed.

Lemma left_length cb seen v : (length (left cb seen v) <= length v)%nat.
Proof.
  revert seen. induction v as [|p v IH]; intros seen; [cbn; lia|]. specialize (IH (seen ++ [p])).
  unfold left in *. cbn. destruct (negb _); cbn; lia.
Qed.

(** Between a heap and what is left of it. *)
Lemma filter_length_two mark l : (length (List.filter (visited mark) l) + length (List.filter (unvisited mark) l) =
  length l)%nat.
Proof. unfold unvisited. induction l as [|r l IH]; cbn; [done|]. destruct (visited mark r); cbn; lia. Qed.

Lemma walked_length mark cb seen l0 v l : walked (comp := comp) mark cb seen l0 v l -> (length l <= length l0)%nat.
Proof.
  intros [_ H1%Permutation_length H2%Permutation_length]. rewrite !length_app, ?length_map in *.
  pose proof (filter_length_two mark l). pose proof (filter_length_two mark l0). pose proof (left_length cb seen v). lia.
Qed.

Lemma heap_unordered h cb seen : honest cb -> is_heap comp (m_Heap h) ->
  exists all v h', heap_TraverseUnordered comp h cb seen = Some (all, seen ++ v, h') /\ is_heap comp (m_Heap h')
    /\ (length (m_Heap h') <= length (m_Heap h))%nat
    /\ if (all : bool) then fresh h -> map unmark v ≡ₚ map unmark (m_Heap h) /\ m_Heap h' ≡ₚ left cb seen v else
      some_done cb.
Proof.
  intros Hc Hh. unfold heap_TraverseUnordered. set (h0 := next_mark h). set (m := h_iVisitedMark h0).
  pose proof (filter_length_two m (m_Heap h0)) as Hl.
  destruct (visit_passes_walked m cb Hc (S (length (m_Heap h0))) seen (m_Heap h0) [] (m_Heap h0)) as (all & v & l' &
    E & Hw & Ha).
  { by apply walked_start, next_mark_heap. }
  { lia. }
  rewrite app_nil_r in E. rewrite E. exists all, v. eexists. split; [reflexivity|]. cbn [m_Heap with_heap].
  pose proof (walked_length _ _ _ _ _ _ Hw) as Hlen.
  assert (Hlm : length (m_Heap h0) = length (m_Heap h)) by (rewrite <- (length_map unmark), <- (length_map unmark
    (m_Heap h)); f_equal; apply next_mark_unmark).
  destruct Hw as [Hw1 Hw2 Hw3]. split_and!; [done|lia|]. destruct all; [|done]. intros Hf.
  destruct (next_mark_fresh h Hf) as [Hv Hu]. fold h0 m in Hv, Hu. rewrite Ha, app_nil_r, Hu in Hw3.
    rewrite Hv in Hw2. cbn in Hw2. split.
  - rewrite Hw3. rewrite map_map. by rewrite <- (next_mark_unmark h).
  - rewrite <- Hw2. pose proof (filter_length_two m l') as H2. rewrite Ha in H2. cbn in H2.
    clear - Ha. unfold unvisited in Ha. induction l' as [|r l IH]; [done|]. cbn in *. destruct (visited m r);
      cbn in *; [by constructor; apply IH|done].
Qed.

(** The records from the last to the first. *)
Lemma visit_down_walk cb a b seen : let (seen', l') := visit_down (length a) cb seen (a ++ b) in
  exists v rest, rev a = v ++ rest /\ seen' = seen ++ v /\ l' ≡ₚ map snd (answers cb seen v) ++ rest ++ b
    /\ (rest = [] \/ some_done cb).
Proof.
  revert b seen. induction a as [|p a IH] using rev_ind; intros b seen.
  { exists [], []. split_and!; [done|by rewrite app_nil_r|done|by left]. }
  rewrite length_app, Nat.add_1_r. cbn [visit_down]. rewrite <- app_assoc. cbn [app].
  rewrite lookup_app_r, Nat.sub_diag by lia. cbn [lookup list_lookup]. destruct (cb seen p) as [cmd p'] eqn:Ec.
  rewrite insert_app_r_alt, Nat.sub_diag by lia. cbn [insert list_insert]. rewrite rev_app_distr. cbn [rev app].
  destruct (Z.eqb_spec cmd IU_DONE) as [->|Hd].
  - exists [p], (rev a). split_and!; [done|done| |right; by exists seen, p; rewrite Ec].
    cbn. rewrite Ec. cbn. rewrite <- Permutation_rev. symmetry. apply Permutation_middle.
  - specialize (IH (p' :: b) (seen ++ [p])). destruct (visit_down _ _ _ _) as [seen' l'].
    destruct IH as (v & rest & Er & -> & Hl & Hr). exists (p :: v), rest. rewrite Er. split_and!; [done|
      by rewrite <- app_assoc| |done].
    cbn. rewrite Ec. cbn. rewrite Hl. rewrite !app_assoc. symmetry. apply Permutation_middle.
Qed.

Lemma heap_ordered h cb seen : is_heap comp (m_Heap h) ->
  exists v rest h', heap_TraverseOrdered comp h cb seen = (true, seen ++ v, h') /\ is_heap comp (m_Heap h')
    /\ rev (sort_heap comp (m_Heap h)) = v ++ rest /\ m_Heap h' ≡ₚ map snd (answers cb seen v) ++ rest
    /\ (rest = [] \/ some_done cb).
Proof.
  intros Hh. unfold heap_TraverseOrdered. set (l := sort_heap comp (m_Heap h)).
  pose proof (visit_down_walk cb l [] seen) as H. rewrite app_nil_r in H. destruct (visit_down _ _ _ _) as [seen' l'].
  destruct H as (v & rest & Er & -> & Hl & Hd). exists v, rest. eexists. split; [reflexivity|]. cbn [m_Heap with_heap].
  destruct (make_heap_ok comp l' comp_weak) as [Hm Hp]. split_and!; [done|done| |done]. by rewrite Hp, Hl, app_nil_r.
Qed.

(** Two records of a queue are ordered. *)
Lemma queue_total q x y : StronglySorted (earlier comp) q -> x ∈ q -> y ∈ q
  -> x = y \/ earlier comp x y \/ earlier comp y x.
Proof.
  induction 1 as [|z q Hs IH Hz]; [by intros ?%elem_of_nil|]. rewrite Forall_forall in Hz.
  intros [->|Hx]%elem_of_cons [->|Hy]%elem_of_cons; auto.
Qed.

(** The order in which the sorted records are visited is that of the queue. *)
Lemma sorted_queue h q : holds comp h q -> map unmark (rev (sort_heap comp (m_Heap h))) = q.
Proof.
  intros (Hh & Hp & Hs). destruct (sort_heap_ok comp (m_Heap h) comp_weak Hh) as [Ha Hsp].
  set (l := sort_heap comp (m_Heap h)) in *. assert (Hl : map unmark (rev l) ≡ₚ q) by (by rewrite <- Hp, <- Hsp, <-
    Permutation_rev).
  apply (StronglySorted_unique_strong (fun x y => comp x y = false)); [| | |done].
  - intros x y Hx Hy H1 H2. rewrite Hl in Hx. destruct (queue_total q x y Hs Hx Hy) as [|[He|He]]; [done| |];
      unfold earlier in He; congruence.
  - clear - Ha HT. apply (StronglySorted_fmap unmark (fun x y => comp x y = false)); [intros x y;
      by rewrite (comp_marks x y 0 0)|].
    exact (sorted_rev _ _ Ha).
  - clear - Hs HT. induction Hs as [|x q Hs IH Hx]; constructor; [done|]. eapply Forall_impl; [exact Hx|]. intros y Hy.
    unfold earlier in Hy. apply comp_spec in Hy. apply comp_false. lia.
Qed.

End Heaps.

(** ** Every operation ends *)

Definition heaps (s : CScheduler) : Prop :=
  is_heap CompareWhenGreater (m_Heap (m_WhenHeap s)) /\ is_heap ComparePriorityGreater (m_Heap (m_PriorityHeap s)).

Definition honest_call (c : call) : Prop :=
  match c with TraverseUnordered_ cb | TraverseOrdered_ cb => honest cb | _ => True end.

Definition ready_count (s : CScheduler) : nat := length (m_Heap (m_PriorityHeap s)).
Definition when_count (s : CScheduler) : nat := length (m_Heap (m_WhenHeap s)).

Definition total (s : CScheduler) : nat := (when_count s + ready_count s)%nat.

(** How many records a call makes. *)
Definition made (c : call) : nat :=
  match c with DeferTask_ true _ _ _ _ _ | DeferImmediateTask_ true _ _ _ _ => 1%nat | _ => 0%nat end.

(** The heaps are heaps, no more tasks are ready, and at most [n] more are to come. *)
Definition settles (n : nat) (s s' : CScheduler) : Prop :=
  heaps s' /\ (ready_count s' <= ready_count s)%nat /\ (when_count s' <= n + when_count s)%nat.

Section Ends.
Context {HS : StdHeap}.

Lemma Insert_heap comp `{!Comparator comp} h r : is_heap comp (m_Heap h) ->
  exists h', Insert comp h r = (true, h') /\ is_heap comp (m_Heap h') /\ length (m_Heap h') = S (length (m_Heap h)).
Proof.
  intros Hh. eexists. split; [reflexivity|]. cbn [m_Heap with_heap].
  destruct (push_heap_ok comp (m_Heap h) (set_mark r (sgn 32 (h_iVisitedMark h - 1))) comp_weak Hh) as [Hp Hl].
  split; [done|]. rewrite Hl, length_app. cbn. lia.
Qed.

Lemma Remove_heap comp `{!Comparator comp} h : is_heap comp (m_Heap h) -> PeekAtTopmost h <> None ->
  exists r h', RemoveTopmost comp h = (Some r, h') /\ is_heap comp (m_Heap h') /\ length (m_Heap h) = S (length
    (m_Heap h')).
Proof.
  unfold PeekAtTopmost, RemoveTopmost. intros Hh Hn. destruct (m_Heap h) as [|f l]; [done|].
  destruct (pop_heap_ok comp f l comp_weak Hh) as (l' & E & Hh' & Hp). rewrite E, last_snoc, removelast_last.
  eexists _, _. split; [reflexivity|]. cbn. split; [done|]. by rewrite (Permutation_length Hp).
Qed.

Lemma Cancel_heap comp `{!Comparator comp} h fp arg n : is_heap comp (m_Heap h)
  -> is_heap comp (m_Heap (CancelTask h fp arg n)).
Proof.
  intros Hh i x y (x' & -> & Hx)%list_lookup_fmap_Some (y' & -> & Hy)%list_lookup_fmap_Some.
  rewrite <- (Hh i x' y' Hx Hy). apply comp_same_order; apply cancel_order.
Qed.

Lemma Defer_settles (mem : bool) when prio fp arg n s : heaps s ->
  settles (if mem then 1 else 0) s (DeferTask mem when prio fp arg n s).2.
Proof.
  intros Hh. destruct mem; [|by split]. destruct Hh as [Hw Hp]. unfold DeferTask. cbn [negb m_WhenHeap with_ticket].
  destruct (Insert_heap CompareWhenGreater (m_WhenHeap s) (new_task s when prio fp arg n) Hw) as (h' & -> & Hh' & Hl).
  split; [by split|]. split; [done|]. unfold when_count. cbn. by rewrite Hl.
Qed.

Lemma unordered_settles cb s : heaps s -> honest cb ->
  exists v s', sched_TraverseUnordered cb s = Some (v, s') /\ settles 0 s s' /\
  (fresh (m_WhenHeap s) -> fresh (m_PriorityHeap s) -> ~ some_done cb ->
   map unmark v ≡ₚ map unmark (m_Heap (m_WhenHeap s)) ++ map unmark (m_Heap (m_PriorityHeap s))
   /\ m_Heap (m_WhenHeap s') ++ m_Heap (m_PriorityHeap s') ≡ₚ left cb [] v).
Proof.
  intros [Hw Hp] Hc. unfold sched_TraverseUnordered.
  destruct (heap_unordered (comp := CompareWhenGreater) (m_WhenHeap s) cb [] Hc Hw) as (all & v & hw & -> & Hhw & Hlw & Hv).
  cbn [app]. destruct all; [|by exists v, (with_heaps s hw (m_PriorityHeap s))].
  destruct (heap_unordered (comp := ComparePriorityGreater) (m_PriorityHeap s) cb v Hc Hp) as (all & v' & hp &
    -> & Hhp & Hlp & Hv').
  exists (v ++ v'), (with_heaps s hw hp). split_and!; [done|by split_and!|]. intros Hfw Hfp Hd. destruct all; [|done].
  destruct (Hv Hfw) as [H1 H2], (Hv' Hfp) as [H3 H4]. cbn [m_WhenHeap m_PriorityHeap with_heaps].
  rewrite map_app, left_app, H1, H2, H3, H4. done.
Qed.

Lemma ordered_settles cb s : heaps s -> exists v s', sched_TraverseOrdered cb s = (v, s') /\ settles 0 s s' /\
  (forall q, abs s q -> ~ some_done cb -> map unmark v = q_ready q ++ q_when q
   /\ m_Heap (m_PriorityHeap s') ++ m_Heap (m_WhenHeap s') ≡ₚ map snd (answers cb [] v)).
Proof.
  intros [Hw Hp]. unfold sched_TraverseOrdered.
  destruct (heap_ordered (comp := ComparePriorityGreater) (m_PriorityHeap s) cb [] Hp) as (v & rest & hp &
    -> & Hhp & Ev & Hl & Hd).
  destruct (heap_ordered (comp := CompareWhenGreater) (m_WhenHeap s) cb ([] ++ v) Hw) as (v' & rest' & hw &
    -> & Hhw & Ev' & Hl' & Hd').
  cbn [app]. exists (v ++ v'), (with_heaps s hw hp). split; [done|]. split.
  - assert (Ea : forall seen v, length (answers cb seen v) = length v).
    { clear. intros seen v. revert seen. induction v; intros; cbn; [done|by rewrite IHv]. }
    split; [done|]. unfold ready_count, when_count. cbn [m_WhenHeap m_PriorityHeap with_heaps Nat.add].
    rewrite Hl, Hl', !length_app, !length_map, !Ea, <- !length_app, <- Ev, <- Ev', !length_rev.
    rewrite (proj2 (sort_heap_ok _ _ (comp_weak (comp := ComparePriorityGreater)) Hp)).
    by rewrite (proj2 (sort_heap_ok _ _ (comp_weak (comp := CompareWhenGreater)) Hw)).
  - intros q Ha Hn. destruct Hd as [->|]; [|done]. destruct Hd' as [->|]; [|done]. rewrite app_nil_r in *.
    cbn [m_WhenHeap m_PriorityHeap with_heaps]. rewrite Hl, Hl', <- Ev, <- Ev', map_app, answers_app, map_app.
    cbn [app]. rewrite ?app_nil_r, (sorted_queue _ _ (abs_ready _ _ Ha)), (sorted_queue _ _ (abs_when _ _ Ha)). done.
Qed.

Lemma ready_loop_settles now fuel s : heaps s -> (when_count s < fuel)%nat ->
  exists s', ready_loop fuel now s = Some s' /\ heaps s' /\ (total s' <= total s)%nat.
Proof.
  revert s. induction fuel as [|fuel IH]; intros s Hh Hf; [lia|]. cbn [ready_loop]. destruct Hh as [Hw Hp].
  destruct (PeekAtTopmost (m_WhenHeap s)) as [p|] eqn:Ep; [|by exists s]. destruct (ltaWhen p <? now); [|by exists s].
  destruct (Remove_heap CompareWhenGreater (m_WhenHeap s) Hw) as (r & hw & -> & Hhw & Hl); [by rewrite Ep|].
  unfold total, when_count, ready_count in *. destruct (fpTask r =? 0).
  - destruct (IH (with_heaps s hw (m_PriorityHeap s))) as (s' & E & Hs & Ht); [by split|cbn; lia|].
    exists s'. split_and!; [done|done|cbn in *; lia].
  - destruct (Insert_heap ComparePriorityGreater (m_PriorityHeap s) r Hp) as (hp & -> & Hhp & Hl').
    destruct (IH (with_heaps s hw hp)) as (s' & E & Hs & Ht); [by split|cbn; lia|].
    exists s'. split_and!; [done|done|cbn in *; lia].
Qed.

Lemma ReadyTasks_settles now s : heaps s -> exists s', ReadyTasks now s = Some s' /\ heaps s' /\ (total s' <= total s)%nat.
Proof. intros Hh. apply ready_loop_settles; [done|unfold when_count; lia]. Qed.

(** A call that makes no task ready. *)
Definition leaves_ready (c : call) : Prop := match c with ReadyTasks_ _ => False | _ => True end.

Lemma do_call_settles c s : heaps s -> honest_call c -> leaves_ready c ->
  exists r s', do_call c s = Some (r, s') /\ settles (made c) s s'.
Proof.
  intros Hh Hc Hr. destruct c as [mem when prio fp arg n|mem prio fp arg n|fp arg n|m| | |cb|cb]; cbn [do_call]; try done.
  - pose proof (Defer_settles mem when prio fp arg n s Hh) as H. destruct (DeferTask _ _ _ _ _ _ _) as [b s'].
      exists (Enqueued b), s'. exact (conj eq_refl H).
  - rewrite DeferImmediateTask_eq. pose proof (Defer_settles mem 0 prio fp arg n s Hh) as H.
    destruct (DeferTask _ _ _ _ _ _ _) as [b s']. exists (Enqueued b), s'. exact (conj eq_refl H).
  - eexists _, _. split; [reflexivity|]. destruct Hh as [Hw Hp]. split;
      [exact (conj (Cancel_heap _ _ fp arg n Hw) (Cancel_heap _ _ fp arg n Hp))|].
    unfold ready_count, when_count. cbn. by rewrite !length_map.
  - eexists _, _. split; [reflexivity|]. by split.
  - eexists _, _. split; [reflexivity|]. by split.
  - destruct (unordered_settles cb s Hh Hc) as (v & s' & -> & Hs & _). exists (Seen v), s'. exact (conj eq_refl Hs).
  - destruct (ordered_settles cb s Hh) as (v & s' & -> & Hs & _). exists (Seen v), s'. exact (conj eq_refl Hs).
Qed.

Lemma do_call_total c s : heaps s -> honest_call c ->
  exists r s', do_call c s = Some (r, s') /\ heaps s' /\ (total s' <= made c + total s)%nat.
Proof.
  intros Hh Hc. assert (Hr : (exists now, c = ReadyTasks_ now) \/ leaves_ready c).
  { destruct c as [| | | | |now| |]; [by right..|by left; exists now|by right|by right]. }
  destruct Hr as [[now ->]|Hr]; cbn [do_call].
  - destruct (ReadyTasks_settles now s Hh) as (s' & -> & Hs & Ht). by exists Unit, s'.
  - destruct (do_call_settles c s Hh Hc Hr) as (r & s' & -> & Hs & H1 & H2). exists r, s'. split_and!; [done|done|].
    unfold total. lia.
Qed.

Lemma run_prog_settles {W} nested (p : prog W) s : heaps s -> all_calls (fun c => honest_call c /\ leaves_ready c) p ->
  exists w thrown s', run_prog nested p s = Some (w, thrown, [], s') /\ heaps s' /\ (ready_count s' <= ready_count s)%nat.
Proof.
  intros Hh Hp. revert s Hh. induction Hp as [w thrown|c k [Hc Hr] Hk IH]; intros s Hh; cbn [run_prog].
  { by exists w, thrown, s. }
  destruct (do_call_settles c s Hh Hc Hr) as (r & s1 & -> & Hs & H1 & _). destruct (IH r s1 Hs) as (w & th & s2 & -> & ? & ?).
  exists w, th, s2. split_and!; [done|done|lia].
Qed.

End Ends.

(** ** Runs within runs *)

(** Every call that a program can come to, which may run tasks. *)
Inductive may_call {W} (P : call -> Prop) : prog W -> Prop :=
| may_ret w thrown : may_call P (Ret w thrown)
| may_do c k : P c -> (forall r, may_call P (k r)) -> may_call P (Do c k)
| may_run i w k : (forall n w', may_call P (k n w')) -> may_call P (Run i w k).

Lemma all_may {W} (P Q : call -> Prop) (p : prog W) : (forall c, P c -> Q c) -> all_calls P p -> may_call Q p.
Proof. intros H. induction 1; constructor; auto. Qed.

Section Within.
Context {HS : StdHeap} {W : Type}.

#[local] Abbreviation run_result := (option (Z * list event * CScheduler * W)).

Lemma run_prog_heaps (nested : Z -> CScheduler -> W -> run_result) (p : prog W) s w th evs s' :
  (forall i s w n evs s' w', heaps s -> nested i s w = Some (n, evs, s', w') -> heaps s') ->
  may_call honest_call p -> heaps s -> run_prog nested p s = Some (w, th, evs, s') -> heaps s'.
Proof.
  intros Hn Hp. revert s w th evs s'. induction Hp as [w1 th1|c k Hc _ IH|i w1 k _ IH]; intros s w th evs s' Hh;
    cbn [run_prog]; [congruence| |].
  - destruct (do_call_total c s Hh Hc) as (r & s1 & -> & Hs & _). by apply IH.
  - destruct (nested i s w1) as [[[[n evs1] s1] w2]|] eqn:E; [|done].
    destruct (run_prog nested (k n w2) s1) as [[[[w3 th3] evs3] s3]|] eqn:E2; [|done]. intros [= <- <- <- <-].
    apply (IH n w2 s1 w3 th3 evs3); [by eapply Hn|done].
Qed.

(** A program that makes no tasks, where what it runs ends for up to [B] records. *)
Lemma run_prog_total (nested : Z -> CScheduler -> W -> run_result) B (p : prog W) s :
  (forall i s w, heaps s -> (total s <= B)%nat -> exists n evs s' w', nested i s w = Some (n, evs, s', w')
     /\ heaps s' /\ (total s' <= total s)%nat) ->
  may_call (fun c => honest_call c /\ made c = 0%nat) p -> heaps s -> (total s <= B)%nat ->
  exists w th evs s', run_prog nested p s = Some (w, th, evs, s') /\ heaps s' /\ (total s' <= total s)%nat.
Proof.
  intros Hn Hp. revert s. induction Hp as [w1 th1|c k [Hc Hm] _ IH|i w1 k _ IH]; intros s Hh Hb; cbn [run_prog].
  - by exists w1, th1, [], s.
  - destruct (do_call_total c s Hh Hc) as (r & s1 & -> & Hs & Ht). rewrite Hm in Ht.
    destruct (IH r s1 Hs) as (w & th & evs & s' & -> & Hs' & Ht'); [cbn in Ht; lia|].
    exists w, th, evs, s'. split_and!; [done|done|cbn in Ht; lia].
  - destruct (Hn i s w1 Hh Hb) as (n & evs & s1 & w2 & -> & Hs & Ht).
    destruct (IH n w2 s1 Hs) as (w & th & evs2 & s' & -> & Hs' & Ht'); [lia|].
    exists w, th, (evs ++ evs2), s'. split_and!; [done|done|lia].
Qed.

Context (task_body : Z -> Z -> Z -> W -> prog W).

(** One turn of the loop. *)
Lemma run_loop_pop s : heaps s -> PeekAtTopmost (m_PriorityHeap s) <> None ->
  exists r hp, RemoveTopmost ComparePriorityGreater (m_PriorityHeap s) = (Some r, hp)
    /\ heaps (with_heaps s (m_WhenHeap s) hp)
    /\ ready_count s = S (ready_count (with_heaps s (m_WhenHeap s) hp))
    /\ total s = S (total (with_heaps s (m_WhenHeap s) hp)).
Proof.
  intros [Hw Hp] Hn. destruct (Remove_heap ComparePriorityGreater (m_PriorityHeap s) Hp Hn) as (r & hp & E & Hhp & Hl).
  exists r, hp. split; [done|]. split; [done|]. unfold total, ready_count, when_count in *. cbn.
  lia.
Qed.

Lemma run_loop_heaps fuel iCount nTasks s w n evs s' w' :
  (forall fp arg n w, may_call honest_call (task_body fp arg n w)) -> heaps s ->
  run_loop task_body fuel iCount nTasks s w = Some (n, evs, s', w') -> heaps s'.
Proof.
  intros Hb. revert iCount nTasks s w n evs s' w'.
  induction fuel as [|fuel IH]; intros iCount nTasks s w n evs s' w' Hh; cbn [run_loop]; [done|].
  destruct (iCount =? 0); [congruence|]. destruct (PeekAtTopmost _) as [p|] eqn:Ep; [|congruence].
  destruct (_ <? _); [congruence|]. destruct (run_loop_pop s Hh) as (r & hp & -> & Hs & _); [by rewrite Ep|].
  destruct (_ =? 0); [by apply IH|].
  destruct (run_prog _ _ _) as [[[[w2 th] nest] s2]|] eqn:E; [|done].
  assert (Hs2 : heaps s2).
  { eapply run_prog_heaps; [|apply Hb|exact Hs|exact E]. intros i s0 w0 n0 evs0 s0' w0' H0. by apply IH. }
  destruct (run_loop task_body fuel (iCount - 1) (nTasks + 1) s2 w2) as [[[[n2 evs2] s3] w3]|] eqn:E2; [|done].
  intros [= <- <- <- <-]. by eapply IH.
Qed.

(** Tasks that run no tasks. *)
Lemma run_loop_settles fuel iCount nTasks s w :
  (forall fp arg n w, all_calls (fun c => honest_call c /\ leaves_ready c) (task_body fp arg n w)) ->
  heaps s -> (ready_count s < fuel)%nat ->
  exists k evs s' w', run_loop task_body fuel iCount nTasks s w = Some (nTasks + Z.of_nat k, evs, s', w') /\ heaps s'
    /\ (ready_count s' + k <= ready_count s)%nat.
Proof.
  intros Hb. revert iCount nTasks s w.
  induction fuel as [|fuel IH]; intros iCount nTasks s w Hh Hf; [lia|]. cbn [run_loop].
  assert (Hstop : exists k evs s' w', Some (nTasks, @nil event, s, w) = Some (nTasks + Z.of_nat k, evs, s', w')
    /\ heaps s' /\ (ready_count s' + k <= ready_count s)%nat).
  { exists 0%nat, [], s, w. rewrite Z.add_0_r. split_and!; [done|done|lia]. }
  destruct (iCount =? 0); [done|]. destruct (PeekAtTopmost _) as [p|] eqn:Ep; [|done]. destruct (_ <? _); [done|].
  clear Hstop. destruct (run_loop_pop s Hh) as (r & hp & -> & Hs & Hc & _); [by rewrite Ep|]. destruct (_ =? 0).
  - destruct (IH (iCount - 1) nTasks _ w Hs) as (k & evs & s' & w' & -> & Hh' & Hk); [lia|].
    exists k, evs, s', w'. split_and!; [done|done|lia].
  - destruct (run_prog_settles (fun i s w => run_loop task_body fuel i 0 s w) _ _ Hs (Hb (fpTask r) (arg_voidptr r)
      (arg_Integer r) w)) as (w2 & th & s2 & -> & Hs2 & Hl2).
    destruct (IH (iCount - 1) (nTasks + 1) s2 w2 Hs2) as (k & evs & s' & w' & -> & Hh' & Hk); [lia|].
    exists (S k). eexists _, s', w'. split_and!; [|done|lia]. rewrite Nat2Z.inj_succ. do 4 f_equal. lia.
Qed.

(** Tasks that make no tasks. *)
Lemma run_loop_total fuel iCount nTasks s w :
  (forall fp arg n w, may_call (fun c => honest_call c /\ made c = 0%nat) (task_body fp arg n w)) ->
  heaps s -> (total s < fuel)%nat ->
  exists k evs s' w', run_loop task_body fuel iCount nTasks s w = Some (nTasks + Z.of_nat k, evs, s', w') /\ heaps s'
    /\ (total s' + k <= total s)%nat.
Proof.
  intros Hb. revert iCount nTasks s w.
  induction fuel as [|fuel IH]; intros iCount nTasks s w Hh Hf; [lia|]. cbn [run_loop].
  assert (Hstop : exists k evs s' w', Some (nTasks, @nil event, s, w) = Some (nTasks + Z.of_nat k, evs, s', w')
    /\ heaps s' /\ (total s' + k <= total s)%nat).
  { exists 0%nat, [], s, w. rewrite Z.add_0_r. split_and!; [done|done|lia]. }
  destruct (iCount =? 0); [done|]. destruct (PeekAtTopmost _) as [p|] eqn:Ep; [|done]. destruct (_ <? _); [done|].
  clear Hstop. destruct (run_loop_pop s Hh) as (r & hp & -> & Hs & _ & Hc); [by rewrite Ep|]. destruct (_ =? 0).
  - destruct (IH (iCount - 1) nTasks _ w Hs) as (k & evs & s' & w' & -> & Hh' & Hk); [lia|].
    exists k, evs, s', w'. split_and!; [done|done|lia].
  - destruct (run_prog_total (fun i s w => run_loop task_body fuel i 0 s w) (pred fuel) _ _
      ltac:(intros i s0 w0 H0 Ht0; destruct (IH i 0 s0 w0 H0 ltac:(lia)) as (k & evs & s' & w' & E & Hh' & Hk);
        exists (0 + Z.of_nat k), evs, s', w'; split_and!; [exact E|exact Hh'|lia])
      (Hb (fpTask r) (arg_voidptr r) (arg_Integer r) w) Hs ltac:(lia)) as (w2 & th & nest & s2 & -> & Hs2 & Hl2).
    destruct (IH (iCount - 1) (nTasks + 1) s2 w2 Hs2) as (k & evs & s' & w' & -> & Hh' & Hk); [lia|].
    exists (S k). eexists _, s', w'. split_and!; [|done|lia]. rewrite Nat2Z.inj_succ. do 4 f_equal. lia.
Qed.

End Within.

(** ** Sequences of operations *)

(** A loop that ends from every state in which at most [n] more operations may follow: [m] measures
    what it consumes. *)
Section Returns.
Context {HS : StdHeap} {W : Type} (task_body : Z -> Z -> Z -> W -> prog W) (spare : nat).
Context (ok : nat -> CScheduler -> Prop) (m : CScheduler -> nat).
Hypothesis ok_fuel : forall n s, ok n s -> (m s < spare + S (ready_count s))%nat.
Hypothesis ok_next : forall n s s', ok (S n) s -> (total s' <= 1 + total s)%nat -> ok n s'.
Hypothesis ok_run : forall n i s w, heaps s -> ok n s ->
  exists k evs s' w', RunTasks task_body spare i s w = Some (Z.of_nat k, evs, s', w')
    /\ heaps s' /\ ok n s' /\ (m s' + k <= m s)%nat.

Lemma run_all_returns fuel n s w : heaps s -> ok n s -> (m s < fuel)%nat ->
  exists tot evs s' w', run_all_loop task_body spare fuel s w = Some (tot, evs, s', w') /\ heaps s' /\ ok n s'.
Proof.
  revert s w. induction fuel as [|fuel IH]; intros s w Hh Ho Hf; [lia|]. cbn [run_all_loop].
  destruct (ok_run n 100 s w Hh Ho) as (k & evs & s1 & w1 & -> & Hh1 & Ho1 & Hk).
  destruct (Z.eqb_spec (Z.of_nat k) 0); [by exists 0, evs, s1, w1|].
  destruct (IH s1 w1 Hh1 Ho1) as (tot & evs' & s' & w' & -> & Hh' & Ho'); [lia|]. by eexists _, _, s', w'.
Qed.

Lemma run_op_returns o n s w : heaps s -> ok (S n) s -> (forall c, o = OpCall c -> honest_call c) ->
  exists out s' w', run_op task_body spare o s w = Some (out, s', w') /\ heaps s' /\ ok n s'.
Proof.
  intros Hh Hok Ho.
  assert (Hn : forall i s w, heaps s -> ok n s ->
    exists out s' w', ran (RunTasks task_body spare i s w) = Some (out, s', w') /\ heaps s' /\ ok n s').
  { intros i s1 w1 H1 H2. destruct (ok_run n i s1 w1 H1 H2) as (k & evs & s' & w' & -> & ? & ? & _). by eexists _, s', w'. }
  assert (Ha : forall s w, heaps s -> ok n s ->
    exists out s' w', ran (RunAllTasks task_body spare s w) = Some (out, s', w') /\ heaps s' /\ ok n s').
  { intros s1 w1 H1 H2. unfold RunAllTasks. fold (ready_count s1).
    destruct (run_all_returns (spare + S (ready_count s1)) n s1 w1 H1 H2) as (tot & evs & s' & w' & -> & ? & ?);
      [by apply (ok_fuel n)|by eexists _, s', w']. }
  assert (Hs : ok n s) by (apply (ok_next n s); [done|lia]).
  destruct o as [c|now|i| |chunk now| |]; cbn [run_op].
  - destruct (do_call_total c s Hh (Ho c eq_refl)) as (r & s' & -> & Hs' & Ht). eexists _, s', w. split_and!; [done|done|].
    apply (ok_next n s); [done|]. destruct c as [[]|[]| | | | | |]; cbn in Ht; lia.
  - destruct (ReadyTasks_settles now s Hh) as (s' & -> & Hs' & Ht). eexists _, s', w. split_and!; [done|done|].
    apply (ok_next n s); [done|lia].
  - by apply Hn.
  - by apply Ha.
  - unfold RunTasks_tick. destruct (ReadyTasks_settles now s Hh) as (s' & -> & Hs' & Ht).
    assert (ok n s') by (apply (ok_next n s); [done|lia]). destruct (chunk =? 0); [by apply Ha|by apply Hn].
  - by eexists _, s, w.
  - by eexists _, s, w.
Qed.

Lemma run_ops_returns os s w : Forall (fun o => forall c, o = OpCall c -> honest_call c) os -> heaps s ->
  ok (length os) s -> exists r, run_ops task_body spare os s w = Some r.
Proof.
  intros Ho. revert s w. induction Ho as [|o os Ho Hos IH]; intros s w Hh Hok; cbn [run_ops]; [by eexists|].
  destruct (run_op_returns o (length os) s w Hh Hok Ho) as (out & s1 & w1 & -> & Hs1 & Hok1).
  destruct (IH s1 w1 Hs1 Hok1) as [[[outs s'] w'] ->]. by eexists.
Qed.

End Returns.

Section Sequences.
Context {HS : StdHeap} {W : Type} (task_body : Z -> Z -> Z -> W -> prog W).

Section Kept.
Hypothesis honest_bodies : forall fp arg n w, may_call honest_call (task_body fp arg n w).
Variable spare : nat.

Lemma run_all_heaps fuel s w n evs s' w' :
  heaps s -> run_all_loop task_body spare fuel s w = Some (n, evs, s', w') -> heaps s'.
Proof.
  revert s w n evs s' w'. induction fuel as [|fuel IH]; intros s w n evs s' w' Hh; cbn [run_all_loop]; [done|].
  destruct (RunTasks task_body spare 100 s w) as [[[[k evs1] s1] w1]|] eqn:E; [|done].
  assert (Hs1 : heaps s1) by exact (run_loop_heaps task_body _ _ _ _ _ _ _ _ _ honest_bodies Hh E).
  destruct (k =? 0); [congruence|].
  destruct (run_all_loop task_body spare fuel s1 w1) as [[[[k2 evs2] s2] w2]|] eqn:E2; [|done].
  intros [= <- <- <- <-]. by eapply IH.
Qed.

Lemma run_op_heaps o s w out s' w' : (forall c, o = OpCall c -> honest_call c) -> heaps s ->
  run_op task_body spare o s w = Some (out, s', w') -> heaps s'.
Proof.
  intros Ho Hh. assert (Hn : forall i s w, heaps s -> ran (RunTasks task_body spare i s w) = Some (out, s', w') -> heaps s').
  { intros i s1 w1 H1. destruct (RunTasks task_body spare i s1 w1) as [[[[k evs1] s2] w2]|] eqn:E; [|done].
    intros [= <- <- <-]. exact (run_loop_heaps task_body _ _ _ _ _ _ _ _ _ honest_bodies H1 E). }
  assert (Ha : forall s w, heaps s -> ran (RunAllTasks task_body spare s w) = Some (out, s', w') -> heaps s').
  { intros s1 w1 H1. destruct (RunAllTasks task_body spare s1 w1) as [[[[k evs1] s2] w2]|] eqn:E; [|done].
    intros [= <- <- <-]. by eapply run_all_heaps. }
  destruct o as [c|now|i| |chunk now| |]; cbn [run_op].
  - destruct (do_call_total c s Hh (Ho c eq_refl)) as (r & s1 & -> & Hs & _). by intros [= <- <- <-].
  - destruct (ReadyTasks_settles now s Hh) as (s1 & -> & Hs & _). by intros [= <- <- <-].
  - by apply Hn.
  - by apply Ha.
  - unfold RunTasks_tick. destruct (ReadyTasks_settles now s Hh) as (s1 & -> & Hs & _).
    destruct (chunk =? 0); [by apply Ha|by apply Hn].
  - by intros [= <- <- <-].
  - by intros [= <- <- <-].
Qed.

Lemma run_ops_heaps os s w outs s' w' : Forall (fun o => forall c, o = OpCall c -> honest_call c) os -> heaps s ->
  run_ops task_body spare os s w = Some (outs, s', w') -> heaps s'.
Proof.
  intros Ho. revert s w outs s' w'. induction Ho as [|o os Ho Hos IH]; intros s w outs s' w' Hh; cbn [run_ops]; [congruence|].
  destruct (run_op task_body spare o s w) as [[[out s1] w1]|] eqn:E; [|done].
  destruct (run_ops task_body spare os s1 w1) as [[[outs2 s2] w2]|] eqn:E2; [|done]. intros [= <- <- <-].
  eapply IH; [|exact E2]. by eapply run_op_heaps.
Qed.

End Kept.

(** ** More fuel gives the same result *)

Lemma run_prog_more (nested nested' : Z -> CScheduler -> W -> option (Z * list event * CScheduler * W)) (p : prog W) s r :
  (forall i s w r, nested i s w = Some r -> nested' i s w = Some r) ->
  run_prog nested p s = Some r -> run_prog nested' p s = Some r.
Proof.
  intros Hn. revert s r. induction p as [w th|c k IH|i w k IH]; intros s r; cbn [run_prog]; [done| |].
  - destruct (do_call c s) as [[a s1]|]; [apply IH|done].
  - destruct (nested i s w) as [[[[n evs] s1] w1]|] eqn:E; [|done]. rewrite (Hn _ _ _ _ E).
    destruct (run_prog nested (k n w1) s1) as [[[[??]?]?]|] eqn:E2; [|done]. by rewrite (IH _ _ _ _ E2).
Qed.

Lemma run_loop_more fuel fuel' iCount nTasks s w r : (fuel <= fuel')%nat ->
  run_loop task_body fuel iCount nTasks s w = Some r -> run_loop task_body fuel' iCount nTasks s w = Some r.
Proof.
  revert fuel' iCount nTasks s w r. induction fuel as [|fuel IH]; intros fuel' iCount nTasks s w r Hf; [done|].
  destruct fuel' as [|fuel']; [lia|]. cbn [run_loop]. destruct (iCount =? 0); [done|].
  destruct (PeekAtTopmost _) as [p|]; [|done]. destruct (_ <? _); [done|].
  destruct (RemoveTopmost _ _) as [[q|] hp]; [|apply IH; lia]. destruct (_ =? 0); [apply IH; lia|].
  destruct (run_prog _ _ _) as [[[[w2 th] nest] s2]|] eqn:E; [|done].
  rewrite (run_prog_more _ (fun i s w => run_loop task_body fuel' i 0 s w) _ _ _
    ltac:(intros i s0 w0 r0; apply IH; lia) E).
  destruct (run_loop task_body fuel _ _ s2 w2) as [[[[??]?]?]|] eqn:E2; [|done]. by rewrite (IH fuel' _ _ _ _ _ ltac:(lia) E2).
Qed.

Lemma RunTasks_more spare spare' i s w r : (spare <= spare')%nat ->
  RunTasks task_body spare i s w = Some r -> RunTasks task_body spare' i s w = Some r.
Proof. intros H. apply run_loop_more. lia. Qed.

Lemma run_all_more spare spare' fuel fuel' s w r : (spare <= spare')%nat -> (fuel <= fuel')%nat ->
  run_all_loop task_body spare fuel s w = Some r -> run_all_loop task_body spare' fuel' s w = Some r.
Proof.
  intros Hs. revert fuel' s w r. induction fuel as [|fuel IH]; intros fuel' s w r Hf; [done|].
  destruct fuel' as [|fuel']; [lia|]. cbn [run_all_loop].
  destruct (RunTasks task_body spare 100 s w) as [[[[k evs] s1] w1]|] eqn:E; [|done].
  rewrite (RunTasks_more _ _ _ _ _ _ Hs E). destruct (k =? 0); [done|].
  destruct (run_all_loop task_body spare fuel s1 w1) as [[[[??]?]?]|] eqn:E2; [|done].
  by rewrite (IH fuel' _ _ _ ltac:(lia) E2).
Qed.

Lemma run_ops_more spare spare' os s w r : (spare <= spare')%nat ->
  run_ops task_body spare os s w = Some r -> run_ops task_body spare' os s w = Some r.
Proof.
  intros Hs.
  assert (Hn : forall i s w (r : output * CScheduler * W), ran (RunTasks task_body spare i s w) = Some r ->
    ran (RunTasks task_body spare' i s w) = Some r).
  { intros i s1 w1 r1. destruct (RunTasks task_body spare i s1 w1) as [[[[??]?]?]|] eqn:E; [|done].
    by rewrite (RunTasks_more _ _ _ _ _ _ Hs E). }
  assert (Ha : forall s w (r : output * CScheduler * W), ran (RunAllTasks task_body spare s w) = Some r ->
    ran (RunAllTasks task_body spare' s w) = Some r).
  { intros s1 w1 r1. unfold RunAllTasks. destruct (run_all_loop task_body spare _ s1 w1) as [[[[??]?]?]|] eqn:E; [|done].
    eapply (run_all_more spare spare' _ (spare' + S (length (m_Heap (m_PriorityHeap s1))))) in E; [|done|lia].
    by rewrite E. }
  assert (Ho : forall o s w r, run_op task_body spare o s w = Some r -> run_op task_body spare' o s w = Some r).
  { intros o s1 w1 r1. destruct o as [c|now|i| |chunk now| |]; cbn [run_op]; try done; [apply Hn|apply Ha|].
    unfold RunTasks_tick. destruct (ReadyTasks now s1); [|done]. destruct (chunk =? 0); [apply Ha|apply Hn]. }
  revert s w r. induction os as [|o os IH]; intros s w r; cbn [run_ops]; [done|].
  destruct (run_op task_body spare o s w) as [[[out s1] w1]|] eqn:E; [|done]. rewrite (Ho _ _ _ _ E).
  destruct (run_ops task_body spare os s1 w1) as [[[??]?]|] eqn:E2; [|done]. by rewrite (IH _ _ _ E2).
Qed.

End Sequences.

(** A task that schedules itself anew and then kicks the queue. *)
Definition again (fp arg n : Z) (w : unit) : prog unit :=
  Do (DeferTask_ true 0 PRIORITY_OBJECT 1 arg n) (fun _ => do_queue_kick 10 1 w (fun _ w => Ret w false)).

Lemma Insert_single {HS : StdHeap} comp `{!Comparator comp} h r :
  m_Heap h = [] -> exists h', Insert comp h r = (true, h') /\ exists k, m_Heap h' = [set_mark r k].
Proof.
  intros Eh. eexists. split; [reflexivity|]. cbn [m_Heap with_heap]. rewrite Eh.
  destruct (push_heap_ok comp [] (set_mark r (sgn 32 (h_iVisitedMark h - 1))) comp_weak) as [_ Hp]; [by intros []|].
  eexists. by apply Permutation_singleton_r in Hp.
Qed.

Lemma Remove_single {HS : StdHeap} comp `{!Comparator comp} h p : m_Heap h = [p] ->
  exists h', RemoveTopmost comp h = (Some p, h') /\ m_Heap h' = [].
Proof.
  intros Eh. unfold RemoveTopmost. rewrite Eh.
  destruct (pop_heap_ok comp p [] comp_weak) as (l' & -> & _ & Hp).
  { intros i x y Hx. by destruct i. }
  apply Permutation_nil_r in Hp as ->. eexists. done.
Qed.

(** One ready task and none to come; [again] is what it does. *)
Definition one_ready (s : CScheduler) : Prop :=
  m_Heap (m_WhenHeap s) = [] /\ (exists p, m_Heap (m_PriorityHeap s) = [p] /\ fpTask p <> 0 /\ iPriority p <= PRIORITY_OBJECT)
  /\ m_minPriority s = PRIORITY_OBJECT.

Lemma defer_ready {HS : StdHeap} arg n s : m_Heap (m_WhenHeap s) = [] -> m_Heap (m_PriorityHeap s) = [] ->
  m_minPriority s = PRIORITY_OBJECT -> exists s1 s2,
  DeferTask true 0 PRIORITY_OBJECT 1 arg n s = (true, s1) /\ m_minPriority s1 = PRIORITY_OBJECT
  /\ ReadyTasks 10 s1 = Some s2 /\ one_ready s2.
Proof.
  intros Hw Hp Hm. unfold DeferTask. cbn [negb m_WhenHeap with_ticket].
  destruct (Insert_single CompareWhenGreater (m_WhenHeap s) (new_task s 0 PRIORITY_OBJECT 1 arg n) Hw) as (h & -> & k & Eh).
  destruct (Remove_single CompareWhenGreater h _ Eh) as (h1 & E1 & N1).
  destruct (Insert_single ComparePriorityGreater (m_PriorityHeap s) (set_mark (new_task s 0 PRIORITY_OBJECT 1 arg n) k) Hp)
    as (h2 & E2 & k2 & N2).
  eexists _, _. split_and!; [reflexivity|done| |].
  - unfold ReadyTasks. cbn [m_WhenHeap with_heaps with_ticket]. rewrite Eh. cbn [length ready_loop].
    unfold PeekAtTopmost at 1. cbn [m_WhenHeap with_heaps]. rewrite Eh. cbn [ltaWhen set_mark new_task].
    change (0 <? 10) with true. cbv iota. rewrite E1. cbn [fpTask set_mark new_task]. change (1 =? 0) with false. cbv iota.
    cbn [m_PriorityHeap with_heaps with_ticket]. rewrite E2. unfold PeekAtTopmost. cbn [m_WhenHeap with_heaps].
    rewrite N1. reflexivity.
  - split_and!; [exact N1| |exact Hm]. eexists. split; [exact N2|]. split; [done|]. cbn. lia.
Qed.

Lemma again_never {HS : StdHeap} fuel i k s w :
  one_ready s -> i <> 0 -> run_loop again fuel i k s w = None.
Proof.
  revert i k s w. induction fuel as [|fuel IH]; intros i k s w (Hw & (p & Hp & Hf & Hi) & Hm) Hn; [done|]. cbn [run_loop].
  rewrite (proj2 (Z.eqb_neq _ _) Hn). assert (PeekAtTopmost (m_PriorityHeap s) = Some p) as -> by
    (unfold PeekAtTopmost; by rewrite Hp). rewrite Hm, (proj2 (Z.ltb_ge _ _) Hi).
  destruct (Remove_single ComparePriorityGreater _ p Hp) as (hp & -> & Np). rewrite (proj2 (Z.eqb_neq _ _) Hf).
  set (s1 := with_heaps s (m_WhenHeap s) hp).
  destruct (defer_ready (arg_voidptr p) (arg_Integer p) s1 Hw Np Hm) as (s2 & s3 & E2 & Hm2 & E3 & Hs3).
  enough (run_prog (fun i s w => run_loop again fuel i 0 s w) (again (fpTask p) (arg_voidptr p) (arg_Integer p) w) s1 = None)
    as -> by done.
  pose proof (IH 1 0 s3 w Hs3 ltac:(done)) as HN.
  change (run_loop again fuel 1 0 s3 w) with ((fun i s w => run_loop again fuel i 0 s w) 1 s3 w) in HN.
  revert HN. generalize (fun i s w => run_loop again fuel i 0 s w). intros nested HN.
  unfold again, do_queue_kick. cbn [run_prog do_call]. rewrite E2. cbn [run_prog do_call GetMinPriority].
  unfold GetMinPriority. rewrite Hm2. change (PRIORITY_OBJECT <=? PRIORITY_CF_DEQUEUE_DISABLED) with false.
  cbn [run_prog do_call]. rewrite E3. cbn [run_prog]. change (smax 32 <? 1) with false. change (1 <? 0) with false. cbv iota.
  by rewrite HN.
Qed.

(** Where a task schedules itself and kicks, a single call of [RunTasks] for a single task does not
    return, whatever the fuel. *)
Theorem kick_never_ends {HS : StdHeap} spare arg n chunk : chunk <> 0 ->
  run_ops again spare [OpCall (DeferTask_ true 0 PRIORITY_OBJECT 1 arg n); OpTick chunk 10] new_scheduler tt = None.
Proof.
  intros Hc. destruct (defer_ready arg n new_scheduler eq_refl eq_refl eq_refl) as (s1 & s2 & E1 & _ & E2 & Hs).
  cbn [run_ops run_op do_call]. rewrite E1. cbn [run_ops run_op]. unfold RunTasks_tick. rewrite E2.
  rewrite (proj2 (Z.eqb_neq _ _) Hc). cbn [negb]. unfold RunTasks. by rewrite again_never.
Qed.

(** C18: Sequences of operations on the scheduler keep both of its heaps heaps, whatever the tasks do:
    schedule, cancel, suspend, halt or wake others by traversals whose callbacks say so when they change
    a record's place, and make tasks ready and run them as [@kick] does, within one another.  That is,
    a sequence that ends leaves heaps, whatever fuel it took.  And every sequence ends if the tasks make
    none ready (then none that a task schedules joins those that are run), or if they schedule none;
    [kick_never_ends] is a task that does both. *)
Theorem heaps_invariant {HS : StdHeap} {W} (task_body : Z -> Z -> Z -> W -> prog W) os w :
  Forall (fun o => forall c, o = OpCall c -> honest_call c) os ->
  ((forall fp arg n w, may_call honest_call (task_body fp arg n w)) ->
     forall spare outs s w', run_ops task_body spare os new_scheduler w = Some (outs, s, w') ->
       heaps s /\ forall spare', (spare <= spare')%nat -> run_ops task_body spare' os new_scheduler w = Some (outs, s, w'))
  /\ ((forall fp arg n w, all_calls (fun c => honest_call c /\ leaves_ready c) (task_body fp arg n w)) ->
     forall spare, exists outs s w', run_ops task_body spare os new_scheduler w = Some (outs, s, w') /\ heaps s)
  /\ ((forall fp arg n w, may_call (fun c => honest_call c /\ made c = 0%nat) (task_body fp arg n w)) ->
     forall spare, (length os <= spare)%nat ->
       exists outs s w', run_ops task_body spare os new_scheduler w = Some (outs, s, w') /\ heaps s).
Proof.
  intros Ho. assert (Hh : heaps new_scheduler) by (by split; intros []). split_and!.
  - intros Hb spare outs s w' E. split; [by eapply run_ops_heaps|]. intros spare' Hs. by eapply run_ops_more.
  - intros Hb spare.
    destruct (run_ops_returns task_body spare (fun _ _ => True) ready_count) with (os := os) (s := new_scheduler) (w := w)
      as [[[outs s] w'] E]; [lia|done| |done|done|done|].
    { intros _ i s w1 Hs _. unfold RunTasks. fold (ready_count s).
      destruct (run_loop_settles task_body (spare + S (ready_count s)) i 0 s w1 Hb Hs) as (k & evs & s' & w' & E & ? & ?);
        [lia|]. by exists k, evs, s', w'. }
    exists outs, s, w'. split; [done|]. eapply (run_ops_heaps task_body); [|exact Ho|exact Hh|exact E].
    intros *. eapply all_may; [|apply Hb]. by intros c [H _].
  - intros Hb spare Hl.
    destruct (run_ops_returns task_body spare (fun n s => (n + total s <= spare)%nat) total)
      with (os := os) (s := new_scheduler) (w := w) as [[[outs s] w'] E]; [lia|lia| |done|done|cbn; lia|].
    { intros n i s w1 Hs Hn. unfold RunTasks. fold (ready_count s).
      destruct (run_loop_total task_body (spare + S (ready_count s)) i 0 s w1 Hb Hs) as (k & evs & s' & w' & E & ? & ?);
        [lia|]. exists k, evs, s', w'. split_and!; [done|done|lia|lia]. }
    exists outs, s, w'. split; [done|]. eapply (run_ops_heaps task_body); [|exact Ho|exact Hh|exact E].
    intros *. clear - Hb. specialize (Hb fp arg n w0). induction Hb as [|c k [H _] _ IH|]; constructor; auto.
Qed.

(** C19: [TraverseUnordered] gives its callback every task exactly once, though the heap is rebuilt under
    it whenever the callback changes or removes a record, and leaves the records that the callback did
    not remove, as it left them; [TraverseOrdered] gives it the ready tasks in their order and then the
    tasks to come in theirs, and removes none. *)
Theorem traversals_spec {HS : StdHeap} s q cb : abs s q -> honest cb -> (forall seen p, (cb seen p).1 <> IU_DONE) ->
  fresh (m_WhenHeap s) -> fresh (m_PriorityHeap s) ->
  (exists v s', sched_TraverseUnordered cb s = Some (v, s') /\ heaps s' /\ map unmark v ≡ₚ q_when q ++ q_ready q
    /\ m_Heap (m_WhenHeap s') ++ m_Heap (m_PriorityHeap s') ≡ₚ left cb [] v)
  /\ (exists v s', sched_TraverseOrdered cb s = (v, s') /\ heaps s' /\ map unmark v = q_ready q ++ q_when q
    /\ m_Heap (m_PriorityHeap s') ++ m_Heap (m_WhenHeap s') ≡ₚ map snd (answers cb [] v)).
Proof.
  intros Ha Hc Hd Hfw Hfp. assert (Hn : ~ some_done cb) by (intros (x & p & H); by apply (Hd x p)).
  assert (Hh : heaps s) by (split; [apply (abs_when _ _ Ha)|apply (abs_ready _ _ Ha)]). split.
  - destruct (unordered_settles cb s Hh Hc) as (v & s' & E & [Hs _] & Hv). destruct (Hv Hfw Hfp Hn) as [H1 H2].
    exists v, s'. split_and!; [done|done| |done].
    by rewrite H1, (holds_perm _ _ (abs_when _ _ Ha)), (holds_perm _ _ (abs_ready _ _ Ha)).
  - destruct (ordered_settles cb s Hh) as (v & s' & E & [Hs _] & Hv). destruct (Hv q Ha Hn) as [H1 H2]. by exists v, s'.
Qed.

(** ** Examples *)

(** Removes the tasks of an argument. *)
Definition halt (arg : Z) : SCHLOOK := fun _ p =>
  if arg_voidptr p =? arg then (IU_REMOVE_TASK, p) else (IU_NEXT_TASK, p).

(** Makes the first suspended task ready. *)
Definition wake : SCHLOOK := fun seen p =>
  if existsb (fun r => iPriority r =? PRIORITY_SUSPEND) seen then (IU_DONE, p)
  else if iPriority p =? PRIORITY_SUSPEND then
    (IU_UPDATE_TASK, {| ltaWhen := 0; iPriority := PRIORITY_OBJECT; m_Ticket := m_Ticket p; fpTask := 1;
       arg_voidptr := arg_voidptr p; arg_Integer := arg_Integer p; m_iVisitedMark := m_iVisitedMark p |})
  else (IU_NEXT_TASK, p).

Lemma halt_honest arg : honest (halt arg).
Proof. intros seen p. unfold halt. by case_match. Qed.

Lemma wake_honest : honest wake.
Proof. intros seen p. unfold wake. by repeat case_match. Qed.

(** Function 4 halts the tasks of its argument, 5 wakes a task, the others are those of [log_body]. *)
Definition queue_body (fp arg n : Z) (w : list Z) : prog (list Z) :=
  if fp =? 4 then Do (TraverseUnordered_ (halt arg)) (fun _ => Ret (w ++ [arg]) false)
  else if fp =? 5 then Do (TraverseOrdered_ wake) (fun _ => Ret (w ++ [arg]) false)
  else log_body fp arg n w.

Definition session : list op :=
  [OpCall (DeferTask_ true 1 PRIORITY_SUSPEND 1 7 0); OpCall (DeferTask_ true 1 PRIORITY_OBJECT 5 8 0);
   OpCall (DeferTask_ true 3 PRIORITY_OBJECT 1 9 0); OpCall (DeferTask_ true 2 PRIORITY_PLAYER 4 9 0); OpTick 10 2;
     OpTick 10 5].

(** Function 6 runs up to its argument of the tasks of the first 50 ticks of time. *)
Definition kick_body (fp arg n : Z) (w : list Z) : prog (list Z) :=
  if fp =? 6 then do_queue_kick 50 arg (w ++ [arg]) (fun ncmds w => Ret (w ++ [ncmds]) false) else queue_body fp arg n w.

(** That and the log alone. *)
Definition quiet_body (fp arg n : Z) (w : list Z) : prog (list Z) :=
  if fp =? 6 then kick_body fp arg n w else Ret (w ++ [arg]) false.

Lemma queue_body_honest fp arg n w : all_calls (fun c => honest_call c /\ leaves_ready c) (queue_body fp arg n w).
Proof.
  unfold queue_body, log_body. destruct (fp =? 4); [apply all_do; [split; [apply halt_honest|done]|constructor]|].
  destruct (fp =? 5); [apply all_do; [split; [apply wake_honest|done]|constructor]|]. case_match; repeat constructor.
Qed.

Lemma kick_may {W} (P : call -> Prop) now wanted (w : W) k : P (ReadyTasks_ now) -> P GetMinPriority_ ->
  (forall m, P (SetMinPriority_ m)) -> (forall n w, may_call P (k n w)) -> may_call P (do_queue_kick now wanted w k).
Proof.
  intros Hr Hg Hs Hk. apply may_do; [done|]. intros r. destruct r; try constructor.
  repeat case_match; repeat (constructor; try done; intros *).
Qed.

Lemma kick_body_honest fp arg n w : may_call honest_call (kick_body fp arg n w).
Proof.
  unfold kick_body. destruct (fp =? 6); [apply kick_may; by repeat constructor|].
  eapply all_may; [|apply queue_body_honest]. by intros c [H _].
Qed.

Lemma quiet_body_honest fp arg n w : may_call (fun c => honest_call c /\ made c = 0%nat) (quiet_body fp arg n w).
Proof.
  unfold quiet_body, kick_body. destruct (fp =? 6); [apply kick_may; by repeat constructor|constructor].
Qed.

(** Besides the tasks of [session], one that runs two of the others. *)
Definition kick_session : list op :=
  [OpCall (DeferTask_ true 1 PRIORITY_PLAYER 6 2 0); OpCall (DeferTask_ true 3 PRIORITY_OBJECT 2 8 0);
   OpCall (DeferTask_ true 3 PRIORITY_OBJECT 6 5 0); OpCall (DeferTask_ true 4 PRIORITY_OBJECT 1 4 0); OpTick 10 2].

Lemma heaps_invariant_witness :
  (exists outs s w, @run_ops sorted_heap _ kick_body 9 kick_session new_scheduler [] = Some (outs, s, w) /\ heaps s)
  /\ (exists outs s w, @run_ops sorted_heap _ queue_body 0 session new_scheduler [] = Some (outs, s, w) /\ heaps s)
  /\ (exists outs s w, @run_ops sorted_heap _ quiet_body 5 kick_session new_scheduler [] = Some (outs, s, w) /\ heaps s).
Proof.
  assert (H1 : Forall (fun o => forall c, o = OpCall c -> honest_call c) kick_session).
  { repeat (apply List.Forall_cons; [intros c E; first [discriminate E|injection E as <-; exact I]|]).
    apply List.Forall_nil. }
  assert (H2 : Forall (fun o => forall c, o = OpCall c -> honest_call c) session).
  { repeat (apply List.Forall_cons; [intros c E; first [discriminate E|injection E as <-; exact I]|]).
    apply List.Forall_nil. }
  split; [|split].
  - destruct (@run_ops sorted_heap _ kick_body 9 kick_session new_scheduler []) as [[[outs s] w]|] eqn:E;
      [|vm_compute in E; discriminate E].
    exists outs, s, w. split; [reflexivity|].
    exact (proj1 (proj1 (@heaps_invariant sorted_heap _ kick_body kick_session [] H1) kick_body_honest 9%nat outs s w E)).
  - exact (proj1 (proj2 (@heaps_invariant sorted_heap _ queue_body session [] H2)) queue_body_honest 0%nat).
  - exact (proj2 (proj2 (@heaps_invariant sorted_heap _ quiet_body kick_session [] H1)) quiet_body_honest 5%nat
      (le_n 5)).
Defined.

(** The suspended task runs after it was woken, the halted one does not run. *)
Example session_log : exists outs s, @run_ops sorted_heap _ queue_body 0 session new_scheduler [] = Some (outs, s, [8;
  7; 9])
  /\ m_Heap (m_WhenHeap s) ++ m_Heap (m_PriorityHeap s) = [].
Proof. eexists _, _. split; vm_compute; reflexivity. Qed.

(** The first [@kick] runs the task with argument 8 and the second [@kick], which runs what is left; the task
    that was scheduled meanwhile is run with them. *)
Example kick_session_log : exists evs s,
  @run_ops sorted_heap _ kick_body 9 kick_session new_scheduler [] =
    Some ([Replied (Enqueued true); Replied (Enqueued true); Replied (Enqueued true); Replied (Enqueued true);
      RanTasks 1 evs], s, [2; 8; 5; 4; 9; 2; 2])
  /\ map (fun e => arg_voidptr (task_of e)) evs = [2; 8; 5; 4; 9].
Proof. eexists _, _. split; vm_compute; reflexivity. Qed.

(** A task that wakes another breaks the order of [runs_in_order]: the task that was suspended is
    older than the one that wakes it, and is run after it. *)
Example waking_breaks_order : exists evs s w,
  @RunTasks sorted_heap _ queue_body 0 10
    (sched_of {| q_when := []; q_ready := [task 0 PRIORITY_OBJECT 1 5 8; task 0 PRIORITY_SUSPEND 0 1 7];
      q_ticket := 2; q_min := PRIORITY_OBJECT |}) [] = Some (2, evs, s, w)
  /\ map (fun e => rank (task_of e)) evs = [(PRIORITY_OBJECT, 1); (PRIORITY_OBJECT, 0)].
Proof. eexists _, _, _. split; vm_compute; reflexivity. Qed.

Lemma traversals_spec_witness :
  (exists v s, @sched_TraverseUnordered sorted_heap (halt 20) (sched_of busy) = Some (v, s) /\ heaps s
    /\ map unmark v ≡ₚ q_when busy ++ q_ready busy
    /\ m_Heap (m_WhenHeap s) ++ m_Heap (m_PriorityHeap s) ≡ₚ left (halt 20) [] v)
  /\ (exists v s, @sched_TraverseOrdered sorted_heap (halt 20) (sched_of busy) = (v, s) /\ heaps s
    /\ map unmark v = q_ready busy ++ q_when busy
    /\ m_Heap (m_PriorityHeap s) ++ m_Heap (m_WhenHeap s) ≡ₚ map snd (answers (halt 20) [] v)).
Proof.
  apply (@traversals_spec sorted_heap (sched_of busy) busy (halt 20)); [exact busy_abs|apply halt_honest| | |].
  - intros seen p. unfold halt. destruct (_ =? _); discriminate.
  - split; [split; discriminate || reflexivity|repeat constructor; discriminate].
  - split; [split; discriminate || reflexivity|repeat constructor; discriminate].
Defined.
