(* ===== verification/NameTab.v ===== *)
(** * Name tables: [src/mux/modules/engine/htab.cpp] and [command.cpp]

    [search_nametab] with the access check, and the table [lock_sw] of lock names. *)

From Stdlib Require Import Strings.String.
From S2P Require Import Prelude Machine Decimal StringUtil.
Local Open Scope Z_scope.

Definition dbref : Type := Z.
Definition GOD : dbref := 1.
Definition NOTHING : dbref := -1.
Definition AMBIGUOUS : dbref := -2.
Definition God (x : dbref) : bool := x =? GOD.

Definition CA_PUBLIC : Z := 0.
Definition CA_GOD : Z := 0x1.
Definition CA_WIZARD : Z := 0x2.
Definition CA_BUILDER : Z := 0x4.
Definition CA_IMMORTAL : Z := 0x8.
Definition CA_STAFF : Z := 0x10.
Definition CA_HEAD : Z := 0x20.
Definition CA_ADMIN : Z := 0x80.
Definition CA_ROBOT : Z := 0x100.
Definition CA_ANNOUNCE : Z := 0x200.
Definition CA_UNINS : Z := 0x400.
Definition CA_MUSTBE_MASK : Z := 0x7BF.
Definition CA_NO_HAVEN : Z := 0x1000.
Definition CA_NO_ROBOT : Z := 0x2000.
Definition CA_NO_SLAVE : Z := 0x4000.
Definition CA_NO_SUSPECT : Z := 0x8000.
Definition CA_NO_GUEST : Z := 0x10000.
Definition CA_NO_UNINS : Z := 0x20000.
Definition CA_CANTBE_MASK : Z := 0x3F000.
Definition CA_DISABLED : Z := 0x2000000.
Definition CA_STATIC : Z := 0x4000000.

(** What the server knows of a player: flags and powers. *)
Class Powers := {
  bReadingConfiguration : bool;
  Wizard : dbref -> bool;
  WizRoy : dbref -> bool;
  Builder : dbref -> bool;
  Staff : dbref -> bool;
  Head : dbref -> bool;
  Announce : dbref -> bool;
  Immortal : dbref -> bool;
  Uninspected : dbref -> bool;
  Robot : dbref -> bool;
  Player_haven : dbref -> bool;
  Slave : dbref -> bool;
  Suspect : dbref -> bool;
  Guest : dbref -> bool
}.

Record NAMETAB := { name : bytes; minlen : Z; perm : Z; flag : Z }.

Section Access.
Context `{!Powers} `{!CaseTable}.

Definition bit (mask m : Z) : bool := negb (Z.land mask m =? 0).

Definition check_access (player : dbref) (mask : Z) : bool :=
  if bit mask (Z.lor CA_DISABLED CA_STATIC) then false
  else if God player || bReadingConfiguration then true
  else if bit mask CA_MUSTBE_MASK
       && ((Z.land mask CA_MUSTBE_MASK =? CA_GOD)
           || negb (bit mask CA_WIZARD && Wizard player
                    || bit mask CA_ADMIN && WizRoy player
                    || bit mask CA_BUILDER && Builder player
                    || bit mask CA_STAFF && Staff player
                    || bit mask CA_HEAD && Head player
                    || bit mask CA_ANNOUNCE && Announce player
                    || bit mask CA_IMMORTAL && Immortal player
                    || bit mask CA_UNINS && Uninspected player
                    || bit mask CA_ROBOT && Robot player)) then false
  else if bit mask CA_CANTBE_MASK && negb (Wizard player)
       && (bit mask CA_NO_HAVEN && Player_haven player
           || bit mask CA_NO_ROBOT && Robot player
           || bit mask CA_NO_SLAVE && Slave player
           || bit mask CA_NO_SUSPECT && Suspect player
           || bit mask CA_NO_GUEST && Guest player
           || bit mask CA_NO_UNINS && Uninspected player) then false
  else true.

(** The result and [*pflag]. *)
Fixpoint search_nametab (player : dbref) (ntab : list NAMETAB) (flagname : bytes) : run (bool * Z) :=
  match ntab with
  | [] => Ok (false, -1)
  | nt :: ntab' =>
      m ← minmatch flagname (name nt) (minlen nt);
      if (m : bool) then
        if check_access player (perm nt) then Ok (true, flag nt) else Ok (false, -2)
      else search_nametab player ntab' flagname
  end.

End Access.

Definition A_LOCK : Z := 42.
Definition A_NAME : Z := 43.
Definition A_LENTER : Z := 59.

Definition sw (n : string) (ml fl : Z) : NAMETAB :=
  {| name := bytes_of n; minlen := ml; perm := CA_PUBLIC; flag := fl |}.

Definition lock_sw : list NAMETAB :=
  [ sw "defaultlock" 1 A_LOCK; sw "droplock" 1 86; sw "enterlock" 1 A_LENTER;
    sw "getfromlock" 1 127; sw "givelock" 1 63; sw "leavelock" 2 60; sw "linklock" 2 93;
    sw "maillock" 1 225; sw "openlock" 1 226; sw "pagelock" 3 61; sw "parentlock" 3 98;
    sw "receivelock" 1 87; sw "speechlock" 1 209; sw "teloutlock" 2 94; sw "tportlock" 2 85;
    sw "uselock" 1 62; sw "userlock" 4 97; sw "visiblelock" 1 231 ].

(** ** Lookups in [lock_sw] *)

Section Lookups.
Context {HP : Powers} {HT : CaseTable} {HL : CaseLaws}.

Definition ascii_text (s : bytes) : bool := forallb (in_rng 1 127) s.

(** [minmatch] on ASCII: an equal prefix up to case, long enough. *)
Fixpoint ascii_minmatch (str target : bytes) (mn : Z) : bool :=
  match str, target with
  | [], [] => true
  | [], _ :: _ => mn <=? 0
  | _ :: _, [] => false
  | a :: str, b :: target =>
      (mux_tolower_ascii a =? mux_tolower_ascii b) && ascii_minmatch str target (mn - 1)
  end.

Lemma fold_ascii b s : in_rng 1 127 b = true -> fold_char (b :: s) = Ok [mux_tolower_ascii b].
Proof. intros Hb. apply fold_char_ascii. apply in_rng_true in Hb. apply in_rng_true. lia. Qed.

Lemma minmatch_ascii fuel str target mn :
  ascii_text str = true -> ascii_text target = true -> (length str < fuel)%nat ->
  minmatch_loop fuel str target mn = Ok (ascii_minmatch str target mn).
Proof.
  revert str target mn. induction fuel as [|fuel IH]; intros str target mn Hs Ht Hf; [lia|].
  destruct str as [|a str], target as [|b target]; try done.
  cbn [ascii_text forallb] in Hs, Ht. apply andb_prop in Hs, Ht. destruct Hs, Ht.
  cbn [minmatch_loop ascii_minmatch]. rewrite !fold_ascii by done. cbn [mbind run_bind].
  destruct (Z.eqb_spec (mux_tolower_ascii a) (mux_tolower_ascii b)) as [E|E].
  - rewrite bool_decide_true by congruence. cbn [length advance mbind run_bind andb].
    unfold advance. cbn [length Nat.leb drop mbind run_bind]. apply IH; [done|done|cbn in Hf; lia].
  - by rewrite bool_decide_false by congruence.
Qed.

(** Against an ASCII name a text is read only where its characters are complete. *)
Lemma minmatch_total fuel str target mn :
  (forall i, (i < length target)%nat -> lead1 (drop i str) = true \/ drop i str = []) ->
  ascii_text target = true -> (length str < fuel)%nat ->
  exists m, minmatch_loop fuel str target mn = Ok m.
Proof.
  revert str target mn. induction fuel as [|fuel IH]; intros str target mn Hs Ht Hf; [lia|].
  destruct str as [|a str], target as [|b target]; try by eexists.
  cbn [ascii_text forallb] in Ht. apply andb_prop in Ht. destruct Ht as [Hb Ht].
  destruct (Hs 0%nat) as [H0|H0]; [cbn; lia| |done]. cbn [drop] in H0.
  destruct (fold_char_lead a str H0) as [la El].
  cbn [minmatch_loop]. rewrite El, fold_ascii by done. cbn [mbind run_bind].
  destruct (bool_decide_reflect (la = [mux_tolower_ascii b])) as [->|]; [|by eexists].
  cbn [length advance mbind run_bind andb]. unfold advance. cbn [length Nat.leb drop mbind run_bind].
  rewrite !drop_0. apply IH; [|done|cbn in Hf; lia]. intros i Hi. apply (Hs (S i)). cbn. lia.
Qed.

Lemma search_nametab_total player ntab s :
  lead_ok s = true -> Forall (fun nt => ascii_text (name nt) = true /\ (length (name nt) <= 32)%nat) ntab ->
  exists r, search_nametab player ntab (take 63 s) = Ok r.
Proof.
  intros Hs. induction 1 as [|nt ntab [Ha Hl] _ IH]; cbn [search_nametab]; [by eexists|].
  destruct (minmatch_total (S (length (take 63 s))) (take 63 s) (name nt) (minlen nt)) as [m Em];
    [|done|lia|].
  - intros i Hi. rewrite skipn_firstn_comm. destruct (decide (drop i s = [])) as [->|Hd].
    + right. apply take_nil.
    + left. apply lead1_take; [lia|]. apply lead_ok_lead1; [by apply lead_ok_drop|done].
  - unfold minmatch. rewrite Em. cbn [mbind run_bind].
    destruct m; [destruct (check_access player (perm nt)); by eexists | exact IH].
Qed.

Lemma check_access_public player : check_access player CA_PUBLIC = true.
Proof. unfold check_access. cbn. by destruct (God player || bReadingConfiguration). Qed.

Fixpoint ascii_search (ntab : list NAMETAB) (flagname : bytes) : bool * Z :=
  match ntab with
  | [] => (false, -1)
  | nt :: ntab' => if ascii_minmatch flagname (name nt) (minlen nt) then (true, flag nt)
                   else ascii_search ntab' flagname
  end.

Definition public_ascii (nt : NAMETAB) : bool := (perm nt =? CA_PUBLIC) && ascii_text (name nt).

Lemma search_nametab_ascii player ntab s :
  ascii_text s = true -> forallb public_ascii ntab = true ->
  search_nametab player ntab s = Ok (ascii_search ntab s).
Proof.
  intros Hs. induction ntab as [|nt ntab IH]; [done|]. cbn [forallb]. intros H.
  apply andb_prop in H. destruct H as [H Hn]. unfold public_ascii in H. apply andb_prop in H.
  destruct H as [Hp Ha]. cbn [search_nametab ascii_search]. unfold minmatch.
  rewrite minmatch_ascii by (done || lia). cbn [mbind run_bind].
  apply Z.eqb_eq in Hp. rewrite Hp, check_access_public. destruct (ascii_minmatch _ _ _); auto.
Qed.

(** Every lock name is found again under its own name, by every player. *)
Lemma lock_sw_own_name player nt :
  nt ∈ lock_sw -> search_nametab player lock_sw (name nt) = Ok (true, flag nt).
Proof.
  intros Hin.
  assert (H : Forall (fun nt => ascii_search lock_sw (name nt) = (true, flag nt)
                                /\ ascii_text (name nt) = true) lock_sw).
  { unfold lock_sw. repeat constructor. }
  rewrite Forall_forall in H. destruct (H nt Hin) as [E Ha].
  rewrite search_nametab_ascii by done. by rewrite E.
Qed.

End Lookups.

(** A flag that a successful search returns is a flag of the table. *)
Lemma search_nametab_in {HP : Powers} {HT : CaseTable} player ntab s fl :
  search_nametab player ntab s = Ok (true, fl) -> exists nt, nt ∈ ntab /\ flag nt = fl.
Proof.
  induction ntab as [|nt ntab IH]; cbn [search_nametab]; [done|].
  destruct (minmatch s (name nt) (minlen nt)) as [[|]| |]; cbn [mbind run_bind]; try discriminate; [|intros H].
  - destruct (check_access player (perm nt)); [|done]. intros [= <-]. exists nt. split; [left|done].
  - destruct (IH H) as (nt' & Hin & E). exists nt'. split; [by right|done].
Qed.
