(* ===== verification/BoolExp.v ===== *)
(** * Lock expressions: the parser of [src/mux/modules/engine/boolexp.cpp]

    [parse_boolexp] and the mutually recursive [parse_boolexp_E], [_T], [_F], [_L] with the
    nesting guard, [test_atr] and the scan for [/] of indirect locks.

    [parsebuf] is the suffix it points at of the memory of its buffer: text, NUL and what lies
    behind; reading at the empty suffix is a read outside the buffer, [Oob].  The null pointer
    [TRUE_BOOLEXP] is [None].  Messages to the player are not modelled. *)

From S2P Require Import Prelude Machine Decimal StringUtil NameTab.

(** ** Trees *)

(** [struct boolexp]: the fields that each [type] uses. *)
Inductive BOOLEXP :=
| BOOLEXP_AND (sub1 sub2 : BOOLEXP)
| BOOLEXP_OR (sub1 sub2 : BOOLEXP)
| BOOLEXP_NOT (sub1 : BOOLEXP)
| BOOLEXP_CONST (thing : dbref)
| BOOLEXP_ATR (thing : Z) (s : bytes)
| BOOLEXP_INDIR (thing : Z) (sub1 : BOOLEXP)
| BOOLEXP_CARRY (sub1 : BOOLEXP)
| BOOLEXP_IS (sub1 : BOOLEXP)
| BOOLEXP_OWNER (sub1 : BOOLEXP)
| BOOLEXP_EVAL (thing : Z) (s : bytes).

#[export] Instance BOOLEXP_eq_dec : EqDecision BOOLEXP.
Proof. solve_decision. Defined.

Definition TRUE_BOOLEXP : option BOOLEXP := None.

Definition is_const (b : BOOLEXP) : bool :=
  match b with BOOLEXP_CONST _ => true | _ => false end.
Definition is_atr (b : BOOLEXP) : bool :=
  match b with BOOLEXP_ATR _ _ => true | _ => false end.

Record ATTR := { a_number : Z; a_name : bytes }.

(** ** What the parser asks of the server *)

Class LockEnv := {
  atr_str : bytes -> option ATTR;
  atr_num : Z -> option ATTR;
  bStandAlone : bool;
  db_top : Z;
  match_result : dbref -> bytes -> dbref;
      (** [init_match], [match_everything] and [match_result] for a player and a name *)
  lbuf_before : option Z;
      (** the byte before a buffer of the pool, in its header, if one may be read there *)
  lbuf_content : bytes
      (** what a fresh buffer holds *)
}.

Definition AND_TOKEN : Z := 38.
Definition OR_TOKEN : Z := 124.
Definition NOT_TOKEN : Z := 33.
Definition INDIR_TOKEN : Z := 64.
Definition CARRY_TOKEN : Z := 43.
Definition IS_TOKEN : Z := 61.
Definition OWNER_TOKEN : Z := 36.
Definition LPAREN : Z := 40.
Definition RPAREN : Z := 41.
Definition SLASH : Z := 47.
Definition COLON : Z := 58.
Definition NUMBER_TOKEN : Z := 35.

Definition LOCK_PARSE_MAX_DEPTH : nat := Z.to_nat 1024.
Definition SBUF_SIZE : nat := 64.

(** ** Reading *)

Definition deref (p : bytes) : run Z := match p with [] => Oob | c :: _ => Ok c end.

Fixpoint skip_whitespace (parsebuf : bytes) : run bytes :=
  match parsebuf with
  | [] => Oob
  | c :: p => if mux_isspace c then skip_whitespace p else Ok parsebuf
  end.

(** The loops that copy a name: up to [n] bytes before a byte that stops them. *)
Fixpoint name_run (stop : Z -> bool) (n : nat) (p : bytes) {struct p} : run (bytes * bytes) :=
  match p with
  | [] => Oob
  | c :: p' =>
      if (c =? 0) || stop c then Ok ([], p)
      else match n with
           | O => Ok ([], p)
           | S n => '(s, rest) ← name_run stop n p'; Ok (c :: s, rest)
           end
  end.

Definition ends_name (c : Z) : bool := (c =? AND_TOKEN) || (c =? OR_TOKEN) || (c =? RPAREN).

Definition rstrip (s : bytes) : bytes := reverse (skip_while mux_isspace (reverse s)).

(** The scan ahead for [/] before any operator: its distance. *)
Fixpoint scan_slash (depth : nat) (scan : bytes) : run (option nat) :=
  match scan with
  | [] => Oob
  | c :: scan' =>
      let next d := r ← scan_slash d scan'; Ok (option_map S r) in
      if c =? 0 then Ok None
      else if c =? LPAREN then next (S depth)
      else if c =? RPAREN then match depth with S d => next d | O => Ok None end
      else if (depth =? 0)%nat && ((c =? AND_TOKEN) || (c =? OR_TOKEN)) then Ok None
      else if (depth =? 0)%nat && (c =? SLASH) then Ok (Some O)
      else next depth
  end.

Fixpoint find_separator (s : bytes) : option (bytes * Z * bytes) :=
  match s with
  | [] => None
  | c :: s' =>
      if (c =? COLON) || (c =? SLASH) then Some ([], c, s')
      else '(l, sep, r) ← find_separator s'; Some (c :: l, sep, r)
  end.

(** ** The parser *)

Section Parser.
Context {HC : Config} {HP : Powers} {HT : CaseTable} {HE : LockEnv}.
Variables (parse_player : dbref) (parsing_internal : bool).

Definition Good_dbref (x : dbref) : bool := (0 <=? x) && (x <? db_top).

Definition atoi32 (s : bytes) : run Z :=
  n ← of_option (mux_atoi64 s); Ok (sgn 32 n).

Definition test_atr (s : bytes) : run (option BOOLEXP) :=
  match find_separator (mux_strncpy s (LBUF_SIZE - 1)) with
  | None => Ok TRUE_BOOLEXP
  | Some (buff, sep, s) =>
      let node anum := Some (if sep =? SLASH then BOOLEXP_EVAL anum s else BOOLEXP_ATR anum s) in
      match atr_str buff with
      | Some attrib => Ok (node (a_number attrib))
      | None =>
          if negb (God parse_player) then Ok TRUE_BOOLEXP
          else match skip_while mux_isdigit buff with
               | _ :: _ => Ok TRUE_BOOLEXP
               | [] => anum ← atoi32 buff;
                       if anum <=? 0 then Ok TRUE_BOOLEXP else Ok (node anum)
               end
      end
  end.

(** An object reference that is not an attribute. *)
Definition object_ref (buf : bytes) : run (option BOOLEXP) :=
  if negb bStandAlone then
    let found thing :=
      if (thing =? NOTHING) || (thing =? AMBIGUOUS) then Ok TRUE_BOOLEXP
      else Ok (Some (BOOLEXP_CONST thing)) in
    if parsing_internal then
      if negb (chr_at buf 0 =? NUMBER_TOKEN) then Ok TRUE_BOOLEXP
      else
        thing ← atoi32 (drop 1 buf);
        if negb (Good_dbref thing) then Ok TRUE_BOOLEXP else found thing
    else found (match_result parse_player buf)
  else if negb (chr_at buf 0 =? NUMBER_TOKEN) then Ok TRUE_BOOLEXP
  else
    thing ← atoi32 (drop 1 buf);
    if thing <? 0 then Ok TRUE_BOOLEXP else Ok (Some (BOOLEXP_CONST thing)).

(** What the strip of trailing whitespace finds before the buffer: no byte that it may read, or
    whitespace, which it would go on to overwrite. *)
Definition before_fails : bool := match lbuf_before with Some c => mux_isspace c | None => true end.

(** The name loop of [parse_boolexp_L] with its final NUL, and the strip of trailing whitespace,
    which reads the byte before the buffer when the name is empty. *)
Definition read_name (parsebuf : bytes) : run (bytes * bytes) :=
  '(s, parsebuf) ← name_run ends_name LBUF_SIZE parsebuf;
  if (length s =? LBUF_SIZE)%nat then Oob
  else
    let s := rstrip s in
    if bool_decide (s = []) && before_fails then Oob else Ok (s, parsebuf).

Definition sub_node (mk : BOOLEXP -> BOOLEXP) (ok : BOOLEXP -> bool) (r : option BOOLEXP * bytes) :
    run (option BOOLEXP * bytes) :=
  let '(b, parsebuf) := r in
  match b with
  | None => Ok (TRUE_BOOLEXP, parsebuf)
  | Some b => if ok b then Ok (Some (mk b), parsebuf) else Ok (TRUE_BOOLEXP, parsebuf)
  end.

(** The bodies of the four parsers, over the parsers they call.  [s_parse_depth] is the
    number of calls of [parse_boolexp_F] that have not returned. *)
Definition parser : Type := bytes -> run (option BOOLEXP * bytes).

Definition E_body (parse_boolexp_T parse_boolexp_E : parser) : parser := fun parsebuf =>
  '(b, parsebuf) ← parse_boolexp_T parsebuf;
  match b with
  | None => Ok (b, parsebuf)
  | Some b1 =>
      parsebuf ← skip_whitespace parsebuf;
      c ← deref parsebuf;
      if c =? OR_TOKEN then
        '(b2, parsebuf) ← parse_boolexp_E (tail parsebuf);
        Ok (option_map (BOOLEXP_OR b1) b2, parsebuf)
      else Ok (b, parsebuf)
  end.

Definition T_body (parse_boolexp_F parse_boolexp_T : parser) : parser := fun parsebuf =>
  '(b, parsebuf) ← parse_boolexp_F parsebuf;
  match b with
  | None => Ok (b, parsebuf)
  | Some b1 =>
      parsebuf ← skip_whitespace parsebuf;
      c ← deref parsebuf;
      if c =? AND_TOKEN then
        '(b2, parsebuf) ← parse_boolexp_T (tail parsebuf);
        Ok (option_map (BOOLEXP_AND b1) b2, parsebuf)
      else Ok (b, parsebuf)
  end.

(** The case [INDIR_TOKEN]; [parsebuf] is behind the token. *)
Definition indir_body (parse_boolexp_L : parser) : parser := fun parsebuf =>
  slash ← scan_slash 0 parsebuf;
  match slash with
  | Some objlen =>
      let objlen' := (if LBUF_SIZE <=? objlen then LBUF_SIZE - 1 else objlen)%nat in
      let objbuf := take objlen' parsebuf ++ 0 :: drop (S objlen') lbuf_content in
      '(sub1, _) ← parse_boolexp_L objbuf;
      '(lockname, lockname_end) ←
        name_run ends_name (length parsebuf) (drop (S objlen) parsebuf);
      '(found, lock_attr) ←
        search_nametab parse_player lock_sw (take (SBUF_SIZE - 1) (rstrip lockname));
      if negb found then Ok (TRUE_BOOLEXP, lockname_end)
      else sub_node (BOOLEXP_INDIR lock_attr) is_const (sub1, lockname_end)
  | None =>
      r ← parse_boolexp_L parsebuf;
      sub_node (BOOLEXP_INDIR A_LOCK) is_const r
  end.

Definition F_body (s_parse_depth : nat) (parse_boolexp_F parse_boolexp_L : parser) : parser :=
  fun parsebuf =>
  if (LOCK_PARSE_MAX_DEPTH <? s_parse_depth)%nat then Ok (TRUE_BOOLEXP, parsebuf)
  else
    parsebuf ← skip_whitespace parsebuf;
    c ← deref parsebuf;
    if c =? NOT_TOKEN then
      '(b, parsebuf) ← parse_boolexp_F (tail parsebuf);
      Ok (option_map BOOLEXP_NOT b, parsebuf)
    else if c =? INDIR_TOKEN then indir_body parse_boolexp_L (tail parsebuf)
    else if c =? IS_TOKEN then
      r ← parse_boolexp_L (tail parsebuf);
      sub_node BOOLEXP_IS (fun b => is_const b || is_atr b) r
    else if c =? CARRY_TOKEN then
      r ← parse_boolexp_L (tail parsebuf);
      sub_node BOOLEXP_CARRY (fun b => is_const b || is_atr b) r
    else if c =? OWNER_TOKEN then
      r ← parse_boolexp_L (tail parsebuf);
      sub_node BOOLEXP_OWNER is_const r
    else parse_boolexp_L parsebuf.

Definition L_body (parse_boolexp_E : parser) : parser := fun parsebuf =>
  parsebuf ← skip_whitespace parsebuf;
  c ← deref parsebuf;
  if c =? LPAREN then
    '(b, parsebuf) ← parse_boolexp_E (tail parsebuf);
    parsebuf ← skip_whitespace parsebuf;
    match b with
    | None => Ok (TRUE_BOOLEXP, parsebuf)
    | Some _ =>
        c ← deref parsebuf;
        let parsebuf := tail parsebuf in
        if negb (c =? RPAREN) then Ok (TRUE_BOOLEXP, parsebuf) else Ok (b, parsebuf)
    end
  else
    '(buf, parsebuf) ← read_name parsebuf;
    b ← test_atr buf;
    match b with
    | Some _ => Ok (b, parsebuf)
    | None => b ← object_ref buf; Ok (b, parsebuf)
    end.

Fixpoint parse_boolexp_E (fuel depth : nat) (parsebuf : bytes) {struct fuel} :
    run (option BOOLEXP * bytes) :=
  match fuel with
  | O => NoFuel
  | S fuel => E_body (parse_boolexp_T fuel depth) (parse_boolexp_E fuel depth) parsebuf
  end
with parse_boolexp_T (fuel depth : nat) (parsebuf : bytes) {struct fuel} :
    run (option BOOLEXP * bytes) :=
  match fuel with
  | O => NoFuel
  | S fuel => T_body (parse_boolexp_F fuel depth) (parse_boolexp_T fuel depth) parsebuf
  end
with parse_boolexp_F (fuel depth : nat) (parsebuf : bytes) {struct fuel} :
    run (option BOOLEXP * bytes) :=
  match fuel with
  | O => NoFuel
  | S fuel =>
      F_body (S depth) (parse_boolexp_F fuel (S depth)) (parse_boolexp_L fuel (S depth)) parsebuf
  end
with parse_boolexp_L (fuel depth : nat) (parsebuf : bytes) {struct fuel} :
    run (option BOOLEXP * bytes) :=
  match fuel with
  | O => NoFuel
  | S fuel => L_body (parse_boolexp_E fuel depth) parsebuf
  end.

End Parser.

Section ParseBoolexp.
Context {HC : Config} {HP : Powers} {HT : CaseTable} {HE : LockEnv}.

(** [parsestore] has [LBUF_SIZE] bytes: the text, its NUL and [stale], what is left of the
    texts before. *)
Definition parsestore (stale : bytes) (buf : bytes) : bytes :=
  let n := Nat.min (length buf) (LBUF_SIZE - 1) in
  take n buf ++ 0 :: drop (S n) stale.

Definition parse_fuel (buf : bytes) : nat := (4 * length buf + 4)%nat.

Definition parse_boolexp (stale : bytes) (player : dbref) (buf : bytes) (internal : bool) :
    run (option BOOLEXP) :=
  if (chr_at buf 0 =? 0) then Ok TRUE_BOOLEXP
  else
    '(b, _) ← parse_boolexp_E player internal (parse_fuel buf) 0 (parsestore stale buf);
    Ok b.

End ParseBoolexp.
