(* ===== verification/BoolSafe.v ===== *)
(** * The lock parser stays in its buffers and returns well-formed trees

    Termination, memory safety and shape of what [parse_boolexp] returns, on any key that
    leaves a byte of [parsestore] free; and what happens when it does not. *)

From S2P Require Import Prelude Machine Decimal StringUtil NameTab BoolExp.

(** ** Texts and their parentheses *)

Definition text (t : bytes) : Prop := Forall (fun c => c <> 0) t.

Fixpoint bal (t : bytes) : Z :=
  match t with
  | [] => 0
  | c :: t => (if c =? LPAREN then 1 else if c =? RPAREN then -1 else 0) + bal t
  end.

Lemma bal_open t : bal (LPAREN :: t) = 1 + bal t.
Proof. done. Qed.

Lemma bal_close t : bal (RPAREN :: t) = bal t - 1.
Proof. change (bal (RPAREN :: t)) with (-1 + bal t). lia. Qed.

Lemma bal_app a b : bal (a ++ b) = bal a + bal b.
Proof. induction a; cbn; lia. Qed.

Definition space (c : Z) : bool := mux_isspace c.

Lemma bal_free (P : Z -> bool) s :
  (forall c, P c = true -> c <> RPAREN) -> forallb P s = true -> 0 <= bal s.
Proof.
  intros HP. induction s as [|c s IH]; cbn; [lia|]. intros E. apply andb_prop in E.
  destruct E as [E1 E2]. specialize (IH E2). specialize (HP c E1). repeat case_match; lia.
Qed.

Lemma space_not_paren c : mux_isspace c = true -> c <> RPAREN.
Proof. intros H ->. done. Qed.

Lemma name_not_paren c : negb (ends_name c) = true -> c <> RPAREN.
Proof. intros H ->. done. Qed.

(** ** Operands

    Whether an operand stands wherever the parser expects one; [expect] says whether it does at the
    head of [t].  An operand does not start with what ends a name or with a slash. *)
Definition is_prefix (c : Z) : bool :=
  (c =? LPAREN) || (c =? NOT_TOKEN) || (c =? INDIR_TOKEN) || (c =? IS_TOKEN) || (c =? CARRY_TOKEN) || (c =? OWNER_TOKEN).

Fixpoint operands (expect : bool) (t : bytes) : bool :=
  match t with
  | [] => negb expect
  | c :: t =>
      if expect then
        if mux_isspace c then operands true t
        else if ends_name c || (c =? SLASH) then false
        else operands (is_prefix c) t
      else operands ((c =? AND_TOKEN) || (c =? OR_TOKEN)) t
  end.

Lemma space_no_operator c : mux_isspace c = true -> (c =? AND_TOKEN) || (c =? OR_TOKEN) = false.
Proof. unfold mux_isspace, AND_TOKEN, OR_TOKEN, in_rng. lia. Qed.

Lemma ends_no_space c : ends_name c = true -> mux_isspace c = false.
Proof. unfold mux_isspace, ends_name, AND_TOKEN, OR_TOKEN, RPAREN, in_rng. lia. Qed.

Lemma operands_spaces e ws t : forallb mux_isspace ws = true -> operands e (ws ++ t) = operands e t.
Proof.
  induction ws as [|c ws IH]; cbn [forallb app operands]; [done|]. intros [Hc Hws]%andb_prop.
  destruct e; [by rewrite Hc, IH|]. by rewrite space_no_operator, IH.
Qed.

(** Behind a name comes no operand. *)
Lemma operands_name e c t : forallb (fun b => negb (ends_name b)) c = true ->
  (t = [] \/ exists x t', t = x :: t' /\ ends_name x = true) -> operands e (c ++ t) = true -> operands false t = true.
Proof.
  intros Hc Ht. revert e. induction c as [|y c IH]; intros e H.
  - destruct e; [|done]. destruct Ht as [->|(x & t' & -> & Hx)]; [done|]. cbn [app operands] in H.
    by rewrite (ends_no_space x Hx), Hx in H.
  - cbn [forallb] in Hc. apply andb_prop in Hc as [_ Hc]. cbn [app operands] in H.
    destruct e; [|by eapply IH]. destruct (mux_isspace y); [by eapply IH|]. destruct (_ || _); [done|by eapply IH].
Qed.

(** The state that a part of the text leaves. *)
Lemma operands_behind e a t : operands e (a ++ t) = true -> exists e', operands e' t = true.
Proof.
  revert e. induction a as [|y a IH]; intros e H; [by exists e|]. cbn [app operands] in H.
  destruct e; [|by eapply IH]. destruct (mux_isspace y); [by eapply IH|]. destruct (_ || _); [done|by eapply IH].
Qed.

Lemma operands_slash e a b : operands e (a ++ SLASH :: b) = true -> operands e a = true.
Proof.
  revert e. induction a as [|y a IH]; intros e; cbn [app operands]; [by destruct e|]. destruct e; [|apply IH].
  destruct (mux_isspace y); [apply IH|]. destruct (_ || _); [done|apply IH].
Qed.

(** ** The readers on a text with its NUL *)

Section Readers.
Variable stale : bytes.

#[local] Abbreviation mem t := (t ++ 0 :: stale).

Lemma skip_ws_text t :
  exists c t', t = c ++ t' /\ forallb mux_isspace c = true
    /\ match t' with [] => True | x :: _ => mux_isspace x = false end
    /\ skip_whitespace (mem t) = Ok (mem t').
Proof.
  induction t as [|x t (c & t' & E & Hc & Hn & Hs)].
  - exists [], []. split_and!; done.
  - cbn [app skip_whitespace]. destruct (mux_isspace x) eqn:Ex.
    + exists (x :: c), t'. split_and!; [by rewrite E|cbn; by rewrite Ex, Hc|done|done].
    + exists [], (x :: t). split_and!; done.
Qed.

Lemma name_run_text stop n t :
  text t ->
  exists c t', t = c ++ t' /\ forallb (fun b => negb (stop b)) c = true
    /\ ((length t < n)%nat -> t' = [] \/ exists x t'', t' = x :: t'' /\ stop x = true)
    /\ name_run stop n (mem t) = Ok (c, mem t').
Proof.
  intros Ht. revert n. induction Ht as [|x t Hx Ht IH]; intros n; cbn [app name_run].
  - exists [], []. split_and!; [done..|by left|done].
  - rewrite (proj2 (Z.eqb_neq _ _) Hx). cbn [orb].
    destruct (stop x) eqn:Es; [exists [], (x :: t); split_and!; [done..|intros _; right; by eexists _, _|done]|].
    destruct n as [|n]; [exists [], (x :: t); split_and!; [done..|cbn; lia|done]|].
    destruct (IH n) as (c & t' & -> & Hc & Hl & ->). exists (x :: c), t'. cbn [length forallb].
    split_and!; [done|by rewrite Es|intros; apply Hl; lia|done].
Qed.

Lemma scan_slash_text d t :
  text t ->
  exists r, scan_slash d (mem t) = Ok r
    /\ forall k, r = Some k -> exists a b, t = a ++ SLASH :: b /\ length a = k /\ bal a = - Z.of_nat d.
Proof.
  intros Ht. revert d. induction Ht as [|x t Hx Ht IH]; intros d; cbn [app scan_slash]; [by eexists|].
  rewrite (proj2 (Z.eqb_neq _ _) Hx).
  assert (Hnext : forall d', bal [x] + Z.of_nat d = Z.of_nat d' ->
    exists r, (r ← scan_slash d' (mem t); Ok (option_map S r)) = Ok r
      /\ forall k, r = Some k ->
         exists a b, x :: t = a ++ SLASH :: b /\ length a = k /\ bal a = - Z.of_nat d).
  { intros d' Hd. destruct (IH d') as (r & -> & Hr). eexists. split; [done|].
    intros k Hk. destruct r as [k'|]; [|done]. injection Hk as <-.
    destruct (Hr k' eq_refl) as (a & b & -> & <- & Ha). exists (x :: a), b.
    cbn in *. split_and!; [done|done|lia]. }
  destruct (x =? LPAREN) eqn:E1; [apply Hnext; cbn; rewrite E1; lia|].
  destruct (x =? RPAREN) eqn:E2.
  { destruct d as [|d]; [by eexists|]. apply Hnext. cbn. rewrite E1, E2. lia. }
  destruct (_ && _); [by eexists|].
  destruct (Nat.eqb_spec d 0) as [->|]; cbn [andb]; [|apply Hnext; cbn; rewrite E1, E2; lia].
  destruct (Z.eqb_spec x SLASH) as [->|]; [|apply Hnext; cbn; rewrite E1, E2; lia].
  eexists. split; [done|]. intros k [= <-]. exists [], t. done.
Qed.

End Readers.

(** ** Well-formed trees *)

(** What the string of an attribute node can hold. *)
Definition value_ok (s : bytes) : bool :=
  forallb (fun c => negb (c =? 0) && negb (ends_name c)) s.

Fixpoint wf (b : BOOLEXP) : bool :=
  match b with
  | BOOLEXP_AND b1 b2 | BOOLEXP_OR b1 b2 => wf b1 && wf b2
  | BOOLEXP_NOT b => wf b
  | BOOLEXP_CONST _ => true
  | BOOLEXP_ATR _ s | BOOLEXP_EVAL _ s => value_ok s
  | BOOLEXP_INDIR fl b => existsb (fun nt => flag nt =? fl) lock_sw && is_const b
  | BOOLEXP_CARRY b | BOOLEXP_IS b => (is_const b || is_atr b) && wf b
  | BOOLEXP_OWNER b => is_const b
  end.

Definition owf (ob : option BOOLEXP) : Prop := match ob with Some b => wf b = true | None => True end.

Lemma find_separator_spec s l sep r :
  find_separator s = Some (l, sep, r) -> s = l ++ sep :: r.
Proof.
  revert l r. induction s as [|c s IH]; cbn; [done|]. intros l r. destruct (_ || _).
  - by intros [= <- <- <-].
  - destruct (find_separator s) as [[[l' sep'] r']|]; cbn; [|done]. intros [= <- <- <-].
    by rewrite (IH l' r').
Qed.

Lemma skip_while_suffix (P : Z -> bool) s : exists c, s = c ++ skip_while P s /\ forallb P c = true.
Proof.
  induction s as [|x s (c & E & Hc)]; cbn; [by exists []|]. destruct (P x) eqn:Ex.
  - exists (x :: c). cbn. by rewrite <- E, Ex.
  - by exists [].
Qed.

Lemma rstrip_prefix s : exists c, s = rstrip s ++ c /\ forallb mux_isspace c = true.
Proof.
  unfold rstrip. destruct (skip_while_suffix mux_isspace (reverse s)) as (c & E & Hc).
  exists (reverse c). split.
  - rewrite <- (reverse_involutive s) at 1. rewrite E at 1. by rewrite reverse_app.
  - rewrite forallb_forall in *. intros x Hx. apply Hc, list_elem_of_In.
    apply elem_of_reverse. by apply list_elem_of_In.
Qed.

Section Leaves.
Context {HC : Config} {HP : Powers} {HT : CaseTable} {HE : LockEnv}.

Lemma atoi32_total s : exists n, atoi32 s = Ok n.
Proof. unfold atoi32. rewrite mux_atoi64_eq. cbn. by eexists. Qed.

Lemma test_atr_total player s :
  value_ok s = true -> exists ob, test_atr player s = Ok ob /\ owf ob.
Proof.
  intros Hs. unfold test_atr.
  destruct (find_separator _) as [[[l sep] r]|] eqn:E; [|by eexists].
  apply find_separator_spec in E. unfold mux_strncpy in E.
  assert (Hr : value_ok r = true).
  { unfold value_ok in *. rewrite forallb_forall in *. intros c Hc. apply Hs.
    rewrite <- (take_drop (LBUF_SIZE - 1) s), E. apply in_app_iff. left.
    apply in_app_iff. right. by right. }
  assert (Hn : forall n, owf (Some (if sep =? SLASH then BOOLEXP_EVAL n r else BOOLEXP_ATR n r))).
  { intros n. by destruct (sep =? SLASH). }
  destruct (atr_str l); [by eexists|]. destruct (negb (God player)); [by eexists|].
  destruct (skip_while _ _); [|by eexists]. destruct (atoi32_total l) as [n ->]. cbn.
  destruct (n <=? 0); by eexists.
Qed.

Lemma object_ref_total player internal s :
  exists ob, object_ref player internal s = Ok ob /\ owf ob.
Proof.
  unfold object_ref. destruct (atoi32_total (drop 1 s)) as [n ->]. cbn [mbind run_bind].
  repeat case_match; by eexists.
Qed.

End Leaves.

(** ** The parser *)

Lemma skip_ws_idem s x : skip_whitespace s = Ok x -> skip_whitespace x = Ok x.
Proof.
  induction s as [|c s IH]; cbn; [done|]. destruct (mux_isspace c) eqn:E; [exact IH|].
  intros [= <-]. cbn. by rewrite E.
Qed.

Lemma lead_ok_prefix a b :
  lead_ok (a ++ b) = true ->
  (b = [] \/ exists x b', b = x :: b' /\ (mux_isspace x = true \/ ends_name x = true \/ x = SLASH)) ->
  lead_ok a = true.
Proof.
  intros H [->|(x & b' & -> & Hx)]; [by rewrite app_nil_r in H|].
  eapply lead_ok_cut; [|exact H]. intros E.
  assert (in_rng 0x80 0xBF x = true) as Hr.
  { revert E. unfold utf8_FirstByte, UTF8_CONTINUE, UTF8_ILLEGAL. repeat case_match; lia || done. }
  apply in_rng_true in Hr. revert Hx. unfold mux_isspace, ends_name, AND_TOKEN, OR_TOKEN, RPAREN, SLASH, in_rng.
  lia.
Qed.

Section Safety.
Context {HC : Config} {HP : Powers} {HT : CaseTable} {HL : CaseLaws} {HE : LockEnv}.
Variables (player : dbref) (internal : bool).

(** The empty name is harmless, or there is none. *)
Definition fed (e : bool) (t : bytes) : Prop := before_fails = false \/ operands e t = true.

Lemma fed_impl e e' t t' : (operands e t = true -> operands e' t' = true) -> fed e t -> fed e' t'.
Proof. unfold fed. tauto. Qed.

Lemma fed_spaces e ws t : forallb mux_isspace ws = true -> fed e (ws ++ t) <-> fed e t.
Proof. intros H. unfold fed. by rewrite operands_spaces. Qed.

Lemma fed_operator tok t : tok = AND_TOKEN \/ tok = OR_TOKEN -> fed false (tok :: t) -> fed true t.
Proof. intros [->| ->]; apply fed_impl; intros H; exact H. Qed.

Lemma fed_prefix x t : is_prefix x = true -> fed true (x :: t) -> fed true t.
Proof.
  intros Hx. apply fed_impl. cbn [operands]. rewrite Hx. assert (mux_isspace x = false) as ->.
  { revert Hx. unfold is_prefix, mux_isspace, in_rng, LPAREN, NOT_TOKEN, INDIR_TOKEN, IS_TOKEN, CARRY_TOKEN, OWNER_TOKEN. lia. }
  by destruct (_ || _).
Qed.

(** What a parser returns for the text [t]: it has read a part of it whose parentheses are
    not in excess on the right, or has failed and passed the NUL in search of one. *)
Definition good (t stale : bytes) (r : run (option BOOLEXP * bytes)) : Prop :=
  match r with
  | Ok (ob, p) =>
      owf ob
      /\ ((exists c t', t = c ++ t' /\ p = t' ++ 0 :: stale /\ (ob <> None -> 0 <= bal c /\ fed false t'))
          \/ (ob = None /\ 1 <= bal t /\ skip_whitespace p = skip_whitespace stale))
  | _ => False
  end.

(** What it needs: a text shorter than a buffer with complete characters, and something
    behind the NUL that stops the skipping of whitespace if two parentheses are open. *)
Definition ready (t stale : bytes) : Prop :=
  text t /\ lead_ok t = true /\ (length t < LBUF_SIZE)%nat
  /\ (bal t <= 1 \/ exists x, skip_whitespace stale = Ok x) /\ fed true t.

Lemma ready_sub c t stale : ready (c ++ t) stale -> 0 <= bal c -> fed true t -> ready t stale.
Proof.
  intros (H1 & H2 & H3 & H4 & _) Hc Hf. rewrite bal_app, length_app in *. split_and!; [| | | |done].
  - apply Forall_app in H1. apply H1.
  - apply (lead_ok_drop (length c)) in H2. by rewrite drop_app_length in H2.
  - lia.
  - destruct H4; [left; lia | by right].
Qed.

Lemma good_sub c t stale r f :
  good t stale r -> 0 <= bal c -> (forall b, wf b = true -> wf (f b) = true) ->
  good (c ++ t) stale ('(b, p) ← r; Ok (option_map f b, p)).
Proof.
  intros H Hc Hf. destruct r as [[ob p]| |]; [|done..]. destruct H as [Hw H].
  cbn [mbind run_bind good]. split; [destruct ob; cbn in *; auto|].
  destruct H as [(c' & t' & -> & -> & Hb)|(-> & Hb & Hp)].
  - left. exists (c ++ c'), t'. split_and!; [by rewrite app_assoc|done|].
    intros Hn. rewrite bal_app. destruct ob; [|done]. destruct (Hb ltac:(done)). split; [lia|done].
  - right. rewrite bal_app. split_and!; [done|lia|done].
Qed.

Lemma good_skip c t stale r : good t stale r -> 0 <= bal c -> good (c ++ t) stale r.
Proof.
  intros H Hc. pose proof (good_sub c t stale r id H Hc (fun _ H => H)) as G.
  destruct r as [[[b|] p]| |]; exact G.
Qed.

Lemma good_some_inv t stale b p :
  good t stale (Ok (Some b, p)) ->
  wf b = true /\ exists c t', t = c ++ t' /\ p = t' ++ 0 :: stale /\ 0 <= bal c /\ fed false t'.
Proof.
  intros [Hw [(c & t' & -> & -> & Hb)|[E _]]]; [|done]. split; [done|].
  exists c, t'. destruct (Hb ltac:(done)). by split_and!.
Qed.

Lemma good_sub_node t stale mk ok r :
  good t stale (Ok r) -> (forall b, wf b = true -> ok b = true -> wf (mk b) = true) ->
  good t stale (sub_node mk ok r).
Proof.
  destruct r as [[b|] p]; [|done]. intros H Hm. apply good_some_inv in H.
  destruct H as (Hw & c & t' & -> & -> & Hb & Hfd). cbn [sub_node]. destruct (ok b) eqn:Ho.
  - split; [cbn; auto|]. left. exists c, t'. done.
  - split; [done|]. left. exists c, t'. done.
Qed.

(** Whitespace before a parser, and the character after it. *)
Lemma skip_deref t stale :
  exists c t', t = c ++ t' /\ forallb mux_isspace c = true /\ 0 <= bal c
    /\ skip_whitespace (t ++ 0 :: stale) = Ok (t' ++ 0 :: stale)
    /\ ((t' = [] /\ deref (t' ++ 0 :: stale) = Ok 0)
        \/ exists x t2, t' = x :: t2 /\ mux_isspace x = false /\ deref (t' ++ 0 :: stale) = Ok x).
Proof.
  destruct (skip_ws_text stale t) as (c & t' & -> & Hc & Hn & Hs).
  exists c, t'. split_and!; [done|done| |done|].
  - by apply (bal_free mux_isspace); [apply space_not_paren|].
  - destruct t' as [|x t2]; [by left | right; by eexists _, _].
Qed.

(** [T -> F & T] and [E -> T | E]. *)
Lemma chain_good t stale r tok f next :
  tok = AND_TOKEN \/ tok = OR_TOKEN -> good t stale r ->
  (forall c t', t = c ++ tok :: t' -> 0 <= bal c -> fed true t' -> good t' stale (next (t' ++ 0 :: stale))) ->
  (forall b1 b2, wf b1 = true -> wf b2 = true -> wf (f b1 b2) = true) ->
  good t stale
    ('(b, p) ← r;
     match b with
     | None => Ok (b, p)
     | Some b1 =>
         p ← skip_whitespace p;
         c ← deref p;
         if c =? tok then
           '(b2, p) ← next (tail p); Ok (option_map (f b1) b2, p)
         else Ok (b, p)
     end).
Proof.
  intros Htk H Hnext Hf. assert (tok <> 0 /\ bal [tok] = 0) as [Ht0 Htok] by (by destruct Htk as [->| ->]).
  destruct r as [[[b1|] p]| |]; try done.
  destruct (good_some_inv _ _ _ _ H) as (Hw & c & t' & -> & -> & Hb & Hfd). cbn [mbind run_bind].
  destruct (skip_deref t' stale) as (ws & t'' & -> & Hsp & Hws & -> & Hd). cbn [mbind run_bind].
  apply fed_spaces in Hfd; [|done].
  assert (Hback : good (c ++ ws ++ t'') stale (Ok (Some b1, t'' ++ 0 :: stale))).
  { split; [done|]. left. exists (c ++ ws), t''. rewrite bal_app.
    split_and!; [by rewrite app_assoc|done|intros _; split; [lia|done]]. }
  destruct Hd as [[-> ->]|(x & t2 & -> & _ & ->)]; cbn [mbind run_bind].
  - destruct (Z.eqb_spec 0 tok); [congruence|exact Hback].
  - destruct (Z.eqb_spec x tok) as [->|]; [|exact Hback]. cbn [app tail].
    replace (c ++ ws ++ tok :: t2) with ((c ++ ws ++ [tok]) ++ t2) by (by rewrite <- !app_assoc).
    apply good_sub.
    + apply (Hnext (c ++ ws)); [by rewrite <- app_assoc|rewrite bal_app; lia|by eapply fed_operator].
    + rewrite !bal_app. lia.
    + auto.
Qed.

Definition parses (k : nat) (parse : nat -> nat -> bytes -> run (option BOOLEXP * bytes)) (n : nat) :=
  forall d t stale, ready t stale -> (4 * length t + k <= n)%nat ->
    good t stale (parse n d (t ++ 0 :: stale)).

#[local] Abbreviation PE := (parse_boolexp_E player internal).
#[local] Abbreviation PT := (parse_boolexp_T player internal).
#[local] Abbreviation PF := (parse_boolexp_F player internal).
#[local] Abbreviation PL := (parse_boolexp_L player internal).

Lemma step_E n : parses 3 PT n -> parses 4 PE n -> parses 4 PE (S n).
Proof.
  intros HT' HE' d t stale Hr Hf. change (PE (S n) d) with (E_body (PT n d) (PE n d)). unfold E_body.
  apply (chain_good t stale _ OR_TOKEN BOOLEXP_OR (PE n d)); [auto| | |].
  - apply HT'; [done|lia].
  - intros c t' -> Hc Hfd. apply HE'; [|rewrite length_app in Hf; cbn [length] in Hf; lia].
    apply (ready_sub (c ++ [OR_TOKEN])); [by rewrite <- app_assoc| |done].
    rewrite bal_app. change (bal [OR_TOKEN]) with 0. lia.
  - intros b1 b2 H1 H2. cbn. by rewrite H1, H2.
Qed.

Lemma step_T n : parses 2 PF n -> parses 3 PT n -> parses 3 PT (S n).
Proof.
  intros HF' HT' d t stale Hr Hf. change (PT (S n) d) with (T_body (PF n d) (PT n d)). unfold T_body.
  apply (chain_good t stale _ AND_TOKEN BOOLEXP_AND (PT n d)); [auto| | |].
  - apply HF'; [done|lia].
  - intros c t' -> Hc Hfd. apply HT'; [|rewrite length_app in Hf; cbn [length] in Hf; lia].
    apply (ready_sub (c ++ [AND_TOKEN])); [by rewrite <- app_assoc| |done].
    rewrite bal_app. change (bal [AND_TOKEN]) with 0. lia.
  - intros b1 b2 H1 H2. cbn. by rewrite H1, H2.
Qed.

Lemma value_ok_prefix a b : text (a ++ b) -> forallb (fun c => negb (ends_name c)) (a ++ b) = true ->
  value_ok a = true.
Proof.
  intros Ht H. unfold value_ok. rewrite forallb_forall in *. intros x Hx.
  rewrite (H x) by (apply in_app_iff; by left). rewrite andb_true_r.
  unfold text in Ht. rewrite Forall_forall in Ht. apply negb_true_iff, Z.eqb_neq, Ht, elem_of_app.
  left. by apply list_elem_of_In.
Qed.

(** An object reference or an attribute test. *)
Lemma rstrip_nonempty x s : mux_isspace x = false -> rstrip (x :: s) <> [].
Proof.
  intros Hx E. destruct (rstrip_prefix (x :: s)) as (c & Ec & Hc). rewrite E in Ec. cbn [app] in Ec. subst c.
  cbn [forallb] in Hc. by rewrite Hx in Hc.
Qed.

Lemma name_good t stale :
  ready t stale -> match t with [] => True | x :: _ => mux_isspace x = false end ->
  good t stale
    ('(buf, p) ← read_name (t ++ 0 :: stale);
     b ← test_atr player buf;
     match b with Some _ => Ok (b, p) | None => b ← object_ref player internal buf; Ok (b, p) end).
Proof.
  intros (Ht & Hl & Hlen & _ & Hfd) Hx. unfold read_name.
  destruct (name_run_text stale ends_name LBUF_SIZE t Ht) as (c & t' & -> & Hc & Hstop & ->).
  specialize (Hstop Hlen). cbn [mbind run_bind]. rewrite length_app in Hlen. rewrite (proj2 (Nat.eqb_neq _ _)) by lia.
  assert (bool_decide (rstrip c = []) && before_fails = false) as ->.
  { destruct Hfd as [-> | Hfd]; [apply andb_false_r|]. apply andb_false_iff. left. apply bool_decide_eq_false_2.
    destruct c as [|x c]; [|by apply rstrip_nonempty]. destruct Hstop as [->|(x & t2 & -> & He)]; [done|].
    cbn [app operands] in *. by rewrite Hx, He in Hfd. }
  assert (Hfd' : fed false t') by (eapply fed_impl, Hfd; by apply operands_name). cbn [mbind run_bind].
  destruct (rstrip_prefix c) as (w & E & _).
  destruct (test_atr_total player (rstrip c)) as (ob & -> & Hw).
  { apply (value_ok_prefix _ w); rewrite <- E; [|done]. apply Forall_app in Ht. apply Ht. }
  cbn [mbind run_bind].
  assert (Hgood : forall ob, owf ob -> good (c ++ t') stale (Ok (ob, t' ++ 0 :: stale))).
  { intros ob' Hob. split; [done|]. left. exists c, t'. split_and!; [done..|]. intros _.
    split; [by apply (bal_free _ c name_not_paren)|done]. }
  destruct ob as [b|]; [by apply Hgood|].
  destruct (object_ref_total player internal (rstrip c)) as (ob & -> & Hob). by apply Hgood.
Qed.

Lemma step_L n : parses 4 PE n -> parses 1 PL (S n).
Proof.
  intros HE' d t stale Hr Hf. change (PL (S n) d) with (L_body player internal (PE n d)). unfold L_body.
  destruct (skip_deref t stale) as (ws & t' & -> & Hsp & Hws & -> & Hd). cbn [mbind run_bind].
  assert (Hr' : ready t' stale) by (apply (ready_sub ws); [done|done|by apply (fed_spaces true ws), Hr]).
  destruct Hd as [[-> ->]|(x & t2 & -> & Hx & ->)]; cbn [mbind run_bind].
  { change (0 =? LPAREN) with false. apply good_skip; [by apply name_good|done]. }
  destruct (Z.eqb_spec x LPAREN) as [->|].
  2:{ apply good_skip; [by apply name_good|done]. }
  clear Hr. apply good_skip; [|done]. clear Hws. cbn [app tail].
  assert (Hr2 : ready t2 stale)
    by (apply (ready_sub [LPAREN] t2 stale Hr'); [by rewrite bal_open|by apply (fed_prefix LPAREN), Hr']).
  assert (G := HE' d t2 stale Hr2 ltac:(rewrite length_app in Hf; cbn [length] in Hf; lia)).
  destruct (PE n d (t2 ++ 0 :: stale)) as [[[b|] p]| |]; try done; cbn [mbind run_bind].
  - destruct (good_some_inv _ _ _ _ G) as (Hw & c & t3 & -> & -> & Hb & Hfd).
    destruct (skip_deref t3 stale) as (ws' & t4 & -> & Hsp' & Hws' & -> & Hd). cbn [mbind run_bind].
    apply fed_spaces in Hfd; [|done].
    destruct Hd as [[-> ->]|(x & t5 & -> & _ & ->)]; cbn [mbind run_bind].
    + change (0 =? RPAREN) with false. cbn [negb]. split; [done|]. right.
      rewrite bal_open, !bal_app. split_and!; [done|cbn [bal]; lia|done].
    + cbn [app tail]. destruct (Z.eqb_spec x RPAREN) as [->|]; cbn [negb].
      * split; [done|]. left. exists (LPAREN :: c ++ ws' ++ [RPAREN]), t5.
        split_and!; [cbn; by rewrite <- !app_assoc|done|]. intros _. split; [|by eapply fed_impl, Hfd].
        rewrite bal_open, !bal_app, bal_close. cbn [bal]. lia.
      * split; [done|]. left. exists (LPAREN :: c ++ ws' ++ [x]), t5.
        split_and!; [cbn; by rewrite <- !app_assoc|done|done].
  - destruct G as [_ [(c & t3 & -> & -> & _)|(_ & Hb & Hp)]].
    + destruct (skip_deref t3 stale) as (ws' & t4 & -> & _ & Hws' & -> & _). cbn [mbind run_bind].
      split; [done|]. left. exists (LPAREN :: c ++ ws'), t4.
      split_and!; [cbn; by rewrite <- !app_assoc|done|done].
    + destruct Hr' as (_ & _ & _ & [Hbal|[y Hy]] & _); [rewrite bal_open in Hbal; lia|].
      rewrite Hp, Hy. cbn [mbind run_bind]. split; [done|]. right.
      rewrite bal_open. split_and!; [done|lia|]. rewrite Hy. by apply (skip_ws_idem stale).
Qed.

Lemma lock_names_short :
  Forall (fun nt => ascii_text (name nt) = true /\ (length (name nt) <= 32)%nat) lock_sw.
Proof. unfold lock_sw. repeat constructor; cbn; lia. Qed.

(** The object of an indirect lock in a buffer of its own, and the name of the lock. *)
Lemma indir_slash_good n d a b stale :
  parses 1 PL n -> ready (a ++ SLASH :: b) stale -> bal a = 0 ->
  (4 * length (a ++ SLASH :: b) + 1 <= n)%nat ->
  good (a ++ SLASH :: b) stale
    ('(sub1, _) ← PL n d (a ++ 0 :: drop (S (length a)) lbuf_content);
     '(lockname, p) ← name_run ends_name (length (a ++ SLASH :: b ++ 0 :: stale)) (b ++ 0 :: stale);
     '(found, fl) ← search_nametab player lock_sw (take (SBUF_SIZE - 1) (rstrip lockname));
     if negb found then Ok (TRUE_BOOLEXP, p)
     else sub_node (BOOLEXP_INDIR fl) is_const (sub1, p)).
Proof.
  intros HL' (Ht & Hl & Hlen & _ & Hfd) Ha Hn. rewrite length_app in Hlen, Hn.
  apply Forall_app in Ht. destruct Ht as [Hta Htb]. apply Forall_cons in Htb. destruct Htb as [_ Htb].
  assert (G : good a (drop (S (length a)) lbuf_content)
    (PL n d (a ++ 0 :: drop (S (length a)) lbuf_content))).
  { apply HL'; [|lia]. split_and!; [done| |lia|left; lia|by eapply fed_impl, Hfd; apply operands_slash].
    eapply lead_ok_prefix; [exact Hl|]. right. eexists _, _. split; [done|]. auto. }
  destruct (PL n d _) as [[sub1 p]| |]; [|done..]. cbn [mbind run_bind].
  destruct (name_run_text stale ends_name (length (a ++ SLASH :: b ++ 0 :: stale)) b Htb)
    as (ln & b' & -> & Hln & Hstop & ->). cbn [mbind run_bind].
  destruct (rstrip_prefix ln) as (w & E & Hw).
  assert (Hb : lead_ok (rstrip ln) = true).
  { apply (lead_ok_drop (length a + 1)) in Hl.
    rewrite drop_app_add in Hl. cbn [drop] in Hl. rewrite ?drop_0 in Hl.
    apply lead_ok_prefix in Hl.
    - rewrite E in Hl. eapply lead_ok_prefix; [exact Hl|].
      destruct w as [|x w]; [by left|]. right. cbn in Hw. apply andb_prop in Hw.
      eexists _, _. split; [done|]. left. apply Hw.
    - destruct Hstop as [->|(x & t'' & -> & Hx)]; [rewrite !length_app; cbn; rewrite !length_app; lia|by left|].
      right. eexists _, _. split; [done|]. auto. }
  destruct (search_nametab_total player lock_sw (rstrip ln) Hb lock_names_short) as [[found fl] Es].
  change (SBUF_SIZE - 1)%nat with 63%nat. rewrite Es. cbn [mbind run_bind].
  assert (Hback : forall ob, owf ob -> good (a ++ SLASH :: ln ++ b') stale (Ok (ob, b' ++ 0 :: stale))).
  { intros ob Hob. split; [done|]. left. exists (a ++ SLASH :: ln), b'.
    split_and!; [by rewrite <- app_assoc|done|]. intros _. rewrite bal_app, Ha.
    change (bal (SLASH :: ln)) with (bal ln). split; [by apply (bal_free _ ln name_not_paren)|].
    eapply fed_impl, Hfd. intros H. apply (operands_behind true a) in H as [e H].
    destruct e; [done|]. apply (operands_name false ln b' Hln); [|exact H].
    apply Hstop. rewrite !length_app. cbn. rewrite !length_app. lia. }
  destruct found; cbn [negb]; [|by apply Hback].
  destruct sub1 as [b1|]; cbn [sub_node]; [|by apply Hback].
  destruct (is_const b1) eqn:Ec; apply Hback; [|done]. cbn [owf wf]. rewrite Ec, andb_true_r.
  apply search_nametab_in in Es. destruct Es as (nt & Hin & Hfl).
  apply existsb_exists. exists nt. split; [by apply list_elem_of_In|]. by apply Z.eqb_eq.
Qed.

Lemma indir_good n d t stale :
  parses 1 PL n -> ready t stale -> (4 * length t + 1 <= n)%nat ->
  good t stale (indir_body player (PL n d) (t ++ 0 :: stale)).
Proof.
  intros HL' Hr Hn. unfold indir_body.
  destruct (scan_slash_text stale 0 t) as (r & -> & Hslash); [apply Hr|]. cbn [mbind run_bind].
  destruct r as [k|].
  - destruct (Hslash k eq_refl) as (a & b & -> & <- & Ha). cbn in Ha.
    pose proof Hr as (_ & _ & Hlen & _ & _). rewrite length_app in Hlen.
    rewrite (proj2 (Nat.leb_gt _ _)) by lia. rewrite <- app_assoc, take_app_length.
    change ((SLASH :: b) ++ 0 :: stale) with (SLASH :: b ++ 0 :: stale).
    replace (drop (S (length a)) (a ++ SLASH :: b ++ 0 :: stale)) with (b ++ 0 :: stale).
    2:{ replace (S (length a)) with (length a + 1)%nat by lia. by rewrite drop_app_add. }
    by apply indir_slash_good.
  - assert (G := HL' d t stale Hr Hn). destruct (PL n d _) as [r| |]; [|done..].
    cbn [mbind run_bind]. apply good_sub_node; [done|]. intros b _ Hb. cbn. by rewrite Hb.
Qed.

Lemma step_F n : parses 2 PF n -> parses 1 PL n -> parses 2 PF (S n).
Proof.
  intros HF' HL' d t stale Hr Hf.
  change (PF (S n) d) with (F_body player (S d) (PF n (S d)) (PL n (S d))). unfold F_body.
  destruct (_ <? _)%nat. { split; [done|]. left. by exists [], t. }
  destruct (skip_deref t stale) as (ws & t' & -> & Hsp & Hws & -> & Hd). cbn [mbind run_bind].
  assert (Hr' : ready t' stale) by (apply (ready_sub ws); [done|done|by apply (fed_spaces true ws), Hr]).
  rewrite length_app in Hf. destruct Hd as [[-> ->]|(x & t2 & -> & _ & ->)]; cbn [mbind run_bind].
  { change (0 =? _) with false. apply good_skip; [|done]. apply HL'; [done|cbn; lia]. }
  apply good_skip; [|done]. clear Hws Hr. cbn [length] in Hf.
  assert (Hsub : bal [x] = 0 -> is_prefix x = true -> ready t2 stale)
    by (intros Hx Hp; apply (ready_sub [x]); [done|lia|by apply (fed_prefix x), Hr']).
  assert (HL2 : bal [x] = 0 -> is_prefix x = true -> good t2 stale (PL n (S d) (t2 ++ 0 :: stale))).
  { intros Hx Hp. apply HL'; [by apply Hsub|lia]. }
  cbn [app tail].
  assert (Hop : forall r, bal [x] = 0 -> good t2 stale r -> good (x :: t2) stale r).
  { intros r Hx G. apply (good_skip [x]); [done|lia]. }
  assert (Hsn : forall mk ok, bal [x] = 0 -> is_prefix x = true ->
    (forall b, wf b = true -> ok b = true -> wf (mk b) = true) ->
    good (x :: t2) stale (r ← PL n (S d) (t2 ++ 0 :: stale); sub_node mk ok r)).
  { intros mk ok Hx Hp Hm. apply Hop; [done|]. specialize (HL2 Hx Hp).
    destruct (PL n (S d) _) as [r| |]; [|done..]. by apply good_sub_node. }
  destruct (Z.eqb_spec x NOT_TOKEN) as [->|].
  { apply (good_sub [NOT_TOKEN]); [|done|done]. apply HF'; [by apply Hsub|lia]. }
  destruct (Z.eqb_spec x INDIR_TOKEN) as [->|].
  { apply Hop; [done|]. apply indir_good; [done|by apply Hsub|lia]. }
  destruct (Z.eqb_spec x IS_TOKEN) as [->|].
  { apply Hsn; [done|done|]. intros b Hw Ho. cbn. by rewrite Ho, Hw. }
  destruct (Z.eqb_spec x CARRY_TOKEN) as [->|].
  { apply Hsn; [done|done|]. intros b Hw Ho. cbn. by rewrite Ho, Hw. }
  destruct (Z.eqb_spec x OWNER_TOKEN) as [->|].
  { apply Hsn; [done|done|]. intros b _ Ho. by cbn. }
  apply (HL' (S d) (x :: t2)); [done|cbn; lia].
Qed.

Lemma parses_all n : parses 4 PE n /\ parses 3 PT n /\ parses 2 PF n /\ parses 1 PL n.
Proof.
  induction n as [|n (IE & IT & IF & IL)]; [split_and!; intros d t stale _ Hf; lia|].
  split_and!; [by apply step_E|by apply step_T|by apply step_F|by apply step_L].
Qed.

End Safety.

(** ** [parse_boolexp] *)

(** The static buffer: its last byte is never written but by a NUL. *)
Definition store_ok {HC : Config} (stale : bytes) : Prop :=
  length stale = LBUF_SIZE /\ last stale = Some 0.

Lemma skip_ws_last s : last s = Some 0 -> exists x, skip_whitespace s = Ok x.
Proof.
  induction s as [|c s IH]; [done|]. intros Hl. cbn. destruct (mux_isspace c) eqn:E; [|by eexists].
  apply IH. destruct s; [|done]. injection Hl as ->. done.
Qed.

Lemma last_drop {A} n (s : list A) : (n < length s)%nat -> last (drop n s) = last s.
Proof.
  intros Hn. rewrite <- (take_drop n s) at 2. rewrite last_app.
  destruct (last (drop n s)) eqn:E; [done|]. apply last_None in E.
  apply (f_equal length) in E. rewrite length_drop in E. cbn in E. lia.
Qed.

Lemma parsestore_ok {HC : Config} stale buf :
  store_ok stale -> store_ok (parsestore stale buf).
Proof.
  intros [Hl Hz]. assert (LBUF_SIZE <> O) by (intros E; rewrite E in Hl; by destruct stale).
  unfold parsestore, store_ok. set (n := Nat.min (length buf) (LBUF_SIZE - 1)).
  assert (n < LBUF_SIZE)%nat by lia. split.
  - rewrite length_app, length_take. cbn. rewrite length_drop. lia.
  - rewrite last_app, last_cons. destruct (decide (S n = LBUF_SIZE)) as [E|].
    + by rewrite drop_ge by lia.
    + by rewrite last_drop, Hz by lia.
Qed.

Lemma parse_safe_store {HC : Config} {HP : Powers} {HT : CaseTable} {HL : CaseLaws}
    {HE : LockEnv} stale player buf internal :
  store_ok stale -> text buf -> lead_ok buf = true -> (length buf < LBUF_SIZE - 1)%nat -> fed true buf ->
  store_ok (parsestore stale buf)
  /\ exists ob, parse_boolexp stale player buf internal = Ok ob /\ owf ob.
Proof.
  intros Hst Ht Hl Hlen Hfd. split; [by apply parsestore_ok|]. destruct Hst as [Hsl Hsz].
  unfold parse_boolexp. destruct (_ =? 0); [by eexists|].
  assert (Hs : parsestore stale buf = buf ++ 0 :: drop (S (length buf)) stale).
  { unfold parsestore. rewrite Nat.min_l, take_ge by lia. done. }
  rewrite Hs.
  destruct (parses_all player internal (parse_fuel buf)) as [G _].
  specialize (G O buf (drop (S (length buf)) stale)).
  destruct (parse_boolexp_E _ _ _ _ _) as [[ob p]| |]; try (destruct G; [|by unfold parse_fuel]).
  - exists ob. split; [done|]. apply G; [|by unfold parse_fuel]. split_and!; [done..|lia| |done].
    right. apply skip_ws_last. by rewrite last_drop by lia.
  - split_and!; [done..|lia| |done]. right. apply skip_ws_last. by rewrite last_drop by lia.
  - split_and!; [done..|lia| |done]. right. apply skip_ws_last. by rewrite last_drop by lia.
Qed.

Lemma parse_safe {HC : Config} {HP : Powers} {HT : CaseTable} {HL : CaseLaws}
    {HE : LockEnv} stale player buf internal :
  store_ok stale -> text buf -> lead_ok buf = true -> (length buf < LBUF_SIZE - 1)%nat -> fed true buf ->
  exists ob, parse_boolexp stale player buf internal = Ok ob /\ owf ob.
Proof. intros. by apply parse_safe_store. Qed.

Lemma read_name_nothing {HC : Config} {HE : LockEnv} r :
  before_fails = true -> LBUF_SIZE <> O -> read_name (0 :: r) = Oob.
Proof. intros Hb Hl. unfold read_name. cbn. destruct LBUF_SIZE; [done|]. cbn. by rewrite Hb. Qed.

Lemma F_body_nul {HC : Config} {HP : Powers} {HT : CaseTable} {HE : LockEnv} player n F L r :
  (n <= 2)%nat -> L (0 :: r) = Oob -> F_body player n F L (0 :: r) = Oob.
Proof.
  intros Hn H. unfold F_body. replace (LOCK_PARSE_MAX_DEPTH <? n)%nat with false; [apply H|].
  symmetry. apply Nat.ltb_ge. transitivity 2%nat; [done|]. by apply Nat.leb_le.
Qed.

Lemma F_body_not {HC : Config} {HP : Powers} {HT : CaseTable} {HE : LockEnv} player n F L p :
  (n <= 2)%nat -> F p = Oob -> F_body player n F L (NOT_TOKEN :: p) = Oob.
Proof.
  intros Hn H. unfold F_body. replace (LOCK_PARSE_MAX_DEPTH <? n)%nat with false;
    [transitivity ('(b, q) ← F p; Ok (option_map BOOLEXP_NOT b, q)); [done|by rewrite H]|].
  symmetry. apply Nat.ltb_ge. transitivity 2%nat; [done|]. by apply Nat.leb_le.
Qed.

(** C8: [parse_boolexp] returns on every key without NUL whose characters are complete, that leaves a
    byte of its buffer free, and in which an operand stands wherever one is expected: it reads nothing
    outside its buffers, whatever they held before; a tree that it returns is well-formed (what
    indirect, carry, identity and owner locks are about is an object or an attribute, an indirect lock
    names a lock of the table); and [parsestore] keeps the NUL in its last byte on which the next call
    relies.  Where an operand is missing, as in the key "!", it also reads the byte before the buffer
    for a name: the same holds of such keys if that byte can be read and is no white space, and if it
    cannot, or is, the key "!" makes the parser leave its buffer. *)
Theorem parse_boolexp_safe {HC : Config} {HP : Powers} {HT : CaseTable} {HL : CaseLaws}
    {HE : LockEnv} stale player buf internal :
  store_ok stale -> text buf -> lead_ok buf = true -> (length buf < LBUF_SIZE - 1)%nat ->
  (operands true buf = true \/ (exists c, lbuf_before = Some c /\ mux_isspace c = false) ->
     store_ok (parsestore stale buf)
     /\ exists ob, parse_boolexp stale player buf internal = Ok ob /\ owf ob)
  /\ ((forall c, lbuf_before = Some c -> mux_isspace c = true) -> buf = [NOT_TOKEN] -> parse_boolexp stale player buf internal = Oob).
Proof.
  intros Hst Ht Hl Hlen. split.
  { intros Hf. apply parse_safe_store; try done. destruct Hf as [|(c & E & Hc)]; [by right|left].
    unfold before_fails. by rewrite E. }
  intros Hb' ->. assert (Hb : before_fails = true).
  { unfold before_fails. destruct lbuf_before as [c|]; [by apply Hb'|done]. } unfold parse_boolexp, parsestore. cbn [length] in *. rewrite Nat.min_l by lia.
  change (parse_fuel [NOT_TOKEN]) with 8%nat. cbn [app take chr_at nth].
  change (_ =? 0) with false. cbv iota. set (r := drop 2 stale).
  enough (parse_boolexp_E player internal 8 0 (NOT_TOKEN :: 0 :: r) = Oob) as -> by done.
  change (E_body (T_body (F_body player 1 (F_body player 2 (parse_boolexp_F player internal 4 2)
      (parse_boolexp_L player internal 4 2)) (parse_boolexp_L player internal 5 1))
      (parse_boolexp_T player internal 6 0)) (parse_boolexp_E player internal 7 0) (NOT_TOKEN :: 0 :: r) = Oob).
  unfold E_body, T_body. rewrite F_body_not; [done|lia|]. apply F_body_nul; [lia|].
  change (parse_boolexp_L _ _ _ _ _) with ('(buf, p) ← read_name (0 :: r); b ← test_atr player buf;
    match b with Some _ => Ok (b, p) | None => b ← object_ref player internal buf; Ok (b, p) end).
  rewrite read_name_nothing by (try done; lia). done.
Qed.

(** ** A server for examples: objects 0 to 99, one attribute, ASCII folding *)

#[local] Instance ascii_case : CaseTable := {|
  mux_tolower s :=
    if in_rng 65 90 (chr_at s 0)
    then (Some {| n_bytes := 1; d_p := [mux_tolower_ascii (chr_at s 0)] |}, false)
    else (None, false)
|}.

#[local] Instance ascii_laws : CaseLaws.
Proof.
  split.
  - intros b s Hb. unfold fold_char. cbn [mux_tolower ascii_case].
    change (chr_at (b :: s) 0) with b. unfold mux_tolower_ascii.
    destruct (in_rng 65 90 b); [done|]. unfold utf8_FirstByte.
    change (in_rng 0 0x7F b) with (in_rng 0 127 b). rewrite Hb. unfold read_bytes. cbn. done.
  - intros b s Hb. unfold fold_char. cbn [mux_tolower ascii_case].
    change (chr_at (b :: s) 0) with b. destruct (in_rng 65 90 b); [by eexists|].
    unfold lead1 in Hb. change (chr_at (b :: s) 0) with b in Hb. unfold read_bytes.
    destruct (UTF8_CONTINUE <=? utf8_FirstByte b); [by eexists|]. cbn [orb] in Hb.
    apply andb_prop in Hb. destruct Hb as [Hb _]. apply Nat.leb_le in Hb.
    rewrite (proj2 (Nat.leb_le _ _)) by lia. by eexists.
  - intros s d x. cbn [mux_tolower ascii_case]. destruct (in_rng 65 90 (chr_at s 0)); [|done].
    by intros [= <- _].
Qed.

#[local] Instance no_powers : Powers := {|
  bReadingConfiguration := false; Wizard _ := false; WizRoy _ := false; Builder _ := false;
  Staff _ := false; Head _ := false; Announce _ := false; Immortal _ := false;
  Uninspected _ := false; Robot _ := false; Player_haven _ := false; Slave _ := false;
  Suspect _ := false; Guest _ := false |}.

Definition sex_attr : ATTR := {| a_number := 6; a_name := [83; 69; 88] |}.

Definition small_env (standalone : bool) : LockEnv := {|
  atr_str s := if bool_decide (map mux_tolower_ascii s = [115; 101; 120]) then Some sex_attr else None;
  atr_num n := if n =? 6 then Some sex_attr else None;
  bStandAlone := standalone;
  db_top := 100;
  match_result _ s := if bool_decide (s = [109; 101]) then 1
    else if bool_decide (s = [NUMBER_TOKEN; 55]) then 7 else NOTHING;
  lbuf_before := None;
  lbuf_content := replicate 64 32
|}.

Lemma parse_boolexp_safe_witness :
  (exists ob, parse_boolexp (HC := {| LBUF_SIZE := 32 |}) (HE := small_env false)
    (replicate 31 32 ++ [0]) 1 [40; 40; 35; 49] true = Ok ob /\ owf ob)
  /\ parse_boolexp (HC := {| LBUF_SIZE := 32 |}) (HE := small_env false)
    (replicate 31 32 ++ [0]) 1 [NOT_TOKEN] true = Oob.
Proof.
  assert (Hs : store_ok (HC := {| LBUF_SIZE := 32 |}) (replicate 31 32 ++ [0])) by (split; reflexivity).
  split.
  - refine (proj2 (proj1 (parse_boolexp_safe (HC := {| LBUF_SIZE := 32 |}) (HE := small_env false) _ 1
      [40; 40; 35; 49] true Hs _ _ _) _)); [repeat constructor; lia|reflexivity|cbn; lia|left; reflexivity].
  - refine (proj2 (parse_boolexp_safe (HC := {| LBUF_SIZE := 32 |}) (HE := small_env false) _ 1
      [NOT_TOKEN] true Hs _ _ _) _ _); [repeat constructor; done|reflexivity|cbn; lia|intros c E; discriminate E|reflexivity].
Defined.
