(* ===== verification/BoolText.v ===== *)
(** * Locks as text: [src/mux/modules/engine/unparse.cpp] and back

    [unparse_boolexp1] in its four formats, and the round trip of the format in which locks
    are stored ([unparse_boolexp_quiet]) through [parse_boolexp].  The parser associates chains
    of [&] and of [|] to the right; the writer puts no parentheses into a chain. *)

From S2P Require Import Prelude Machine Decimal TimeText StringUtil NameTab BoolExp BoolSafe.

(** ** Writing *)

Inductive format := F_EXAMINE | F_QUIET | F_DECOMPILE | F_FUNCTION.
Inductive boolexp_type := T_AND | T_OR | T_NOT | T_CONST | T_OTHER.

Definition TYPE_THING : Z := 1.
Definition TYPE_PLAYER : Z := 3.

(** What the writer asks of the database. *)
Class ObjectNames := {
  unparse_object : dbref -> dbref -> bytes;
  Typeof : dbref -> Z;
  Name : dbref -> bytes
}.

Section Writing.
Context {HC : Config} {HE : LockEnv} {HN : ObjectNames}.
Variable player : dbref.

Definition unparse_object_quiet (loc : dbref) : option bytes :=
  n ← mux_ltoa loc; Some ([LPAREN; NUMBER_TOKEN] ++ n ++ [RPAREN]).

(** [safe_tprintf_str] with ["#%d"]. *)
Definition safe_dbref (thing : dbref) (buff : bytes) : option bytes :=
  n ← mux_ltoa thing;
  Some (buff ++ take (LBUF_SIZE - 1 - length buff) ([NUMBER_TOKEN] ++ n)).

Definition unparse_const (fmt : format) (thing : dbref) (buff : bytes) : option bytes :=
  if bStandAlone then s ← unparse_object_quiet thing; safe_str s buff
  else match fmt with
       | F_QUIET => s ← unparse_object_quiet thing; safe_str s buff
       | F_EXAMINE => safe_str (unparse_object player thing) buff
       | F_DECOMPILE =>
           if Typeof thing =? TYPE_PLAYER then safe_str (Name thing) (safe_chr 42 buff)
           else if Typeof thing =? TYPE_THING then safe_str (Name thing) buff
           else safe_dbref thing buff
       | F_FUNCTION =>
           if Typeof thing =? TYPE_PLAYER then safe_str (Name thing) (safe_chr 42 buff)
           else safe_dbref thing buff
       end.

(** The name of an attribute, or its number; the separator; the value. *)
Definition unparse_attr (thing : Z) (sep : Z) (s : bytes) (buff : bytes) : option bytes :=
  buff ← match atr_num thing with
         | Some ap => if negb (a_number ap =? 0) then safe_str (a_name ap) buff
                      else n ← mux_ltoa thing; safe_copy_buf n buff
         | None => n ← mux_ltoa thing; safe_copy_buf n buff
         end;
  safe_str s (safe_chr sep buff).

(** [/] and the first name of the table for a lock. *)
Definition unparse_lock (thing : Z) (buff : bytes) : option bytes :=
  if negb (thing =? A_LOCK) then
    match find (fun nt => flag nt =? thing) lock_sw with
    | Some nt => safe_str (name nt) (safe_chr SLASH buff)
    | None => Some buff
    end
  else Some buff.

Definition paren (outer_type : boolexp_type) (b : BOOLEXP) : bool :=
  match b, outer_type with
  | BOOLEXP_AND _ _, T_NOT | BOOLEXP_OR _ _, T_NOT | BOOLEXP_OR _ _, T_AND => true
  | _, _ => false
  end.

Definition safe_if (c : bool) (ch : Z) (buff : bytes) : bytes := if c then safe_chr ch buff else buff.

Fixpoint unparse_boolexp1 (b : BOOLEXP) (outer_type : boolexp_type) (fmt : format) (buff : bytes) :
    option bytes :=
  match b with
  | BOOLEXP_AND sub1 sub2 =>
      let buff := safe_if (paren outer_type b) LPAREN buff in
      buff ← unparse_boolexp1 sub1 T_AND fmt buff;
      let buff := safe_chr AND_TOKEN buff in
      buff ← unparse_boolexp1 sub2 T_AND fmt buff;
      Some (safe_if (paren outer_type b) RPAREN buff)
  | BOOLEXP_OR sub1 sub2 =>
      let buff := safe_if (paren outer_type b) LPAREN buff in
      buff ← unparse_boolexp1 sub1 T_OR fmt buff;
      let buff := safe_chr OR_TOKEN buff in
      buff ← unparse_boolexp1 sub2 T_OR fmt buff;
      Some (safe_if (paren outer_type b) RPAREN buff)
  | BOOLEXP_NOT sub1 => unparse_boolexp1 sub1 T_NOT fmt (safe_chr NOT_TOKEN buff)
  | BOOLEXP_INDIR thing sub1 =>
      buff ← unparse_boolexp1 sub1 T_OTHER fmt (safe_chr INDIR_TOKEN buff);
      unparse_lock thing buff
  | BOOLEXP_IS sub1 => unparse_boolexp1 sub1 T_OTHER fmt (safe_chr IS_TOKEN buff)
  | BOOLEXP_CARRY sub1 => unparse_boolexp1 sub1 T_OTHER fmt (safe_chr CARRY_TOKEN buff)
  | BOOLEXP_OWNER sub1 => unparse_boolexp1 sub1 T_OTHER fmt (safe_chr OWNER_TOKEN buff)
  | BOOLEXP_CONST thing => unparse_const fmt thing buff
  | BOOLEXP_ATR thing s => unparse_attr thing COLON s buff
  | BOOLEXP_EVAL thing s => unparse_attr thing SLASH s buff
  end.

Definition UNLOCKED : bytes := [42; 85; 78; 76; 79; 67; 75; 69; 68; 42].

(** [unparse_boolexp], [_quiet], [_decompile] and [_function] by the format. *)
Definition unparse_boolexp (fmt : format) (b : option BOOLEXP) : option bytes :=
  match b with
  | None => match fmt with F_EXAMINE => safe_str UNLOCKED [] | _ => Some [] end
  | Some b => unparse_boolexp1 b T_CONST fmt []
  end.

End Writing.

(** ** Rules for the parser

    More fuel does not change a result. *)

Definition le_run {A} (x y : run A) : Prop := x = NoFuel \/ x = y.

Lemma le_run_refl {A} (x : run A) : le_run x x.
Proof. by right. Qed.

Lemma le_run_bind {A B} (x y : run A) (f g : A -> run B) :
  le_run x y -> (forall a, le_run (f a) (g a)) -> le_run (x ≫= f) (y ≫= g).
Proof. intros [->| ->] Hf; [by left|]. destruct y; [apply Hf|by right|by left]. Qed.

Lemma le_run_if {A} (c : bool) (x y x' y' : run A) :
  le_run x x' -> le_run y y' -> le_run (if c then x else y) (if c then x' else y').
Proof. by destruct c. Qed.

Lemma le_run_option {A B} (o : option A) (f g : A -> run B) x y :
  (forall a, le_run (f a) (g a)) -> le_run x y ->
  le_run (match o with Some a => f a | None => x end) (match o with Some a => g a | None => y end).
Proof. by destruct o. Qed.

Create HintDb mono.
#[export] Hint Resolve le_run_refl le_run_bind le_run_if le_run_option : mono.

(** Goes through the code of a body, leaving the calls of the parsers to [auto]. *)
Ltac mono :=
  repeat first
    [ apply le_run_refl
    | progress auto with mono nocore
    | apply le_run_bind; [|let a := fresh "a" in intros a; try destruct a as [? ?]]
    | apply le_run_if
    | apply le_run_option; [intros ?|] ].

Section Rules.
Context {HC : Config} {HP : Powers} {HT : CaseTable} {HE : LockEnv}.
Variables (player : dbref) (internal : bool).

#[local] Abbreviation PE := (parse_boolexp_E player internal).
#[local] Abbreviation PT := (parse_boolexp_T player internal).
#[local] Abbreviation PF := (parse_boolexp_F player internal).
#[local] Abbreviation PL := (parse_boolexp_L player internal).

Definition le_parser (f g : parser) : Prop := forall p, le_run (f p) (g p).

Lemma E_body_mono T T' E E' : le_parser T T' -> le_parser E E' -> le_parser (E_body T E) (E_body T' E').
Proof. intros HT' HE' p. unfold E_body, le_parser in *. mono. Qed.

Lemma T_body_mono F F' T T' : le_parser F F' -> le_parser T T' -> le_parser (T_body F T) (T_body F' T').
Proof. intros HF' HT' p. unfold T_body, le_parser in *. mono. Qed.

Lemma F_body_mono k F F' L L' :
  le_parser F F' -> le_parser L L' -> le_parser (F_body player k F L) (F_body player k F' L').
Proof. intros HF' HL' p. unfold F_body, indir_body, le_parser in *. mono. Qed.

Lemma L_body_mono E E' : le_parser E E' -> le_parser (L_body player internal E) (L_body player internal E').
Proof. intros HE' p. unfold L_body, le_parser in *. mono. Qed.

Lemma parse_mono n :
  (forall d, le_parser (PE n d) (PE (S n) d)) /\ (forall d, le_parser (PT n d) (PT (S n) d))
  /\ (forall d, le_parser (PF n d) (PF (S n) d)) /\ (forall d, le_parser (PL n d) (PL (S n) d)).
Proof.
  induction n as [|n (IE & IT & IF & IL)]; [split_and!; intros d p; by left|].
  split_and!; intros d p.
  - exact (E_body_mono _ _ _ _ (IT d) (IE d) p).
  - exact (T_body_mono _ _ _ _ (IF d) (IT d) p).
  - exact (F_body_mono (S d) _ _ _ _ (IF (S d)) (IL (S d)) p).
  - exact (L_body_mono _ _ (IE d) p).
Qed.

Lemma le_from {A} (f : nat -> run A) : (forall n, le_run (f n) (f (S n))) ->
  forall n m r, f n = r -> r <> NoFuel -> (n <= m)%nat -> f m = r.
Proof.
  intros Hf n m r Hn Hr Hle. induction Hle as [|m _ IH]; [done|].
  destruct (Hf m) as [E|E]; congruence.
Qed.

(** [f] comes to the result [r] with enough fuel. *)
Definition gets (f : nat -> parser) (s : bytes) (r : option BOOLEXP * bytes) : Prop :=
  exists n, f n s = Ok r.

Lemma gets_up f s r n : (forall n, le_parser (f n) (f (S n))) -> f n s = Ok r ->
  forall m, (n <= m)%nat -> f m s = Ok r.
Proof. intros Hf Hn m Hm. apply (le_from (fun n => f n s) (fun n => Hf n s) n); done. Qed.

Lemma PE_up k m d s r : PE k d s = Ok r -> (k <= m)%nat -> PE m d s = Ok r.
Proof. intros E. apply (gets_up (fun n => PE n d) s r k); [|exact E]. intros n. apply parse_mono. Qed.
Lemma PT_up k m d s r : PT k d s = Ok r -> (k <= m)%nat -> PT m d s = Ok r.
Proof. intros E. apply (gets_up (fun n => PT n d) s r k); [|exact E]. intros n. apply parse_mono. Qed.
Lemma PF_up k m d s r : PF k d s = Ok r -> (k <= m)%nat -> PF m d s = Ok r.
Proof. intros E. apply (gets_up (fun n => PF n d) s r k); [|exact E]. intros n. apply parse_mono. Qed.

Definition getsE d s r := gets (fun n => PE n d) s r.
Definition getsT d s r := gets (fun n => PT n d) s r.
Definition getsF d s r := gets (fun n => PF n d) s r.
Definition getsL d s r := gets (fun n => PL n d) s r.

(** What follows a factor, a term, an expression. *)
Definition folF (x : Z) : Prop := x = 0 \/ x = AND_TOKEN \/ x = OR_TOKEN \/ x = RPAREN.
Definition folT (x : Z) : Prop := x = 0 \/ x = OR_TOKEN \/ x = RPAREN.
Definition folE (x : Z) : Prop := x = 0 \/ x = RPAREN.

Lemma folT_F x : folT x -> folF x.
Proof. unfold folT, folF. tauto. Qed.
Lemma folE_T x : folE x -> folT x.
Proof. unfold folT, folE. tauto. Qed.

Lemma skip_ws_id x s : mux_isspace x = false -> skip_whitespace (x :: s) = Ok (x :: s).
Proof. intros H. cbn. by rewrite H. Qed.

Lemma folF_space x : folF x -> mux_isspace x = false.
Proof. by intros [-> |[-> |[-> | ->]]]. Qed.

Lemma T_one d s b x r : getsF d s (Some b, x :: r) -> folT x -> getsT d s (Some b, x :: r).
Proof.
  intros [n Hn] Hx. exists (S n). change (PT (S n) d s) with (T_body (PF n d) (PT n d) s).
  unfold T_body. rewrite Hn. cbn [mbind run_bind].
  rewrite skip_ws_id by (by apply folF_space, folT_F). cbn [mbind run_bind deref].
  destruct (Z.eqb_spec x AND_TOKEN) as [->|]; [by destruct Hx as [|[|]]|done].
Qed.

Lemma E_one d s b x r : getsT d s (Some b, x :: r) -> folE x -> getsE d s (Some b, x :: r).
Proof.
  intros [n Hn] Hx. exists (S n). change (PE (S n) d s) with (E_body (PT n d) (PE n d) s).
  unfold E_body. rewrite Hn. cbn [mbind run_bind].
  rewrite skip_ws_id by (by apply folF_space, folT_F, folE_T). cbn [mbind run_bind deref].
  destruct (Z.eqb_spec x OR_TOKEN) as [->|]; [by destruct Hx|done].
Qed.

Lemma E_none d s p : getsF d s (None, p) -> getsE d s (None, p).
Proof.
  intros [n Hn]. exists (S (S n)).
  change (PE (S (S n)) d s) with (E_body (T_body (PF n d) (PT n d)) (PE (S n) d) s).
  unfold E_body, T_body. by rewrite Hn.
Qed.

Lemma T_and d s b s' y r :
  getsF d s (Some b, AND_TOKEN :: s') -> getsT d s' (Some y, r) -> getsT d s (Some (BOOLEXP_AND b y), r).
Proof.
  intros [n Hn] [m Hm]. exists (S (n + m)).
  change (PT (S (n + m)) d s) with (T_body (PF (n + m) d) (PT (n + m) d) s). unfold T_body.
  rewrite (PF_up n _ _ _ _ Hn) by lia.
  cbn [mbind run_bind]. rewrite skip_ws_id by done. cbn [mbind run_bind deref]. rewrite Z.eqb_refl.
  cbn [tail].
  rewrite (PT_up m _ _ _ _ Hm) by lia.
  done.
Qed.

Lemma E_or d s b s' y r :
  getsT d s (Some b, OR_TOKEN :: s') -> getsE d s' (Some y, r) -> getsE d s (Some (BOOLEXP_OR b y), r).
Proof.
  intros [n Hn] [m Hm]. exists (S (n + m)).
  change (PE (S (n + m)) d s) with (E_body (PT (n + m) d) (PE (n + m) d) s). unfold E_body.
  rewrite (PT_up n _ _ _ _ Hn) by lia.
  cbn [mbind run_bind]. rewrite skip_ws_id by done. cbn [mbind run_bind deref]. rewrite Z.eqb_refl.
  cbn [tail].
  rewrite (PE_up m _ _ _ _ Hm) by lia.
  done.
Qed.

(** A factor that starts with [x], at a depth that the guard allows. *)
Lemma F_start n d x s :
  (S d <= LOCK_PARSE_MAX_DEPTH)%nat -> mux_isspace x = false ->
  PF (S n) d (x :: s) =
    if x =? NOT_TOKEN then '(b, p) ← PF n (S d) s; Ok (option_map BOOLEXP_NOT b, p)
    else if x =? INDIR_TOKEN then indir_body player (PL n (S d)) s
    else if x =? IS_TOKEN then r ← PL n (S d) s; sub_node BOOLEXP_IS (fun b => is_const b || is_atr b) r
    else if x =? CARRY_TOKEN then
      r ← PL n (S d) s; sub_node BOOLEXP_CARRY (fun b => is_const b || is_atr b) r
    else if x =? OWNER_TOKEN then r ← PL n (S d) s; sub_node BOOLEXP_OWNER is_const r
    else PL n (S d) (x :: s).
Proof.
  intros Hd Hx. change (PF (S n) d) with (F_body player (S d) (PF n (S d)) (PL n (S d))).
  unfold F_body. rewrite (proj2 (Nat.ltb_ge _ _)) by lia. rewrite skip_ws_id by done. done.
Qed.

Lemma F_full n d s : d = LOCK_PARSE_MAX_DEPTH -> PF (S n) d s = Ok (None, s).
Proof.
  intros ->. change (PF (S n) LOCK_PARSE_MAX_DEPTH) with (F_body player (S LOCK_PARSE_MAX_DEPTH)
    (PF n (S LOCK_PARSE_MAX_DEPTH)) (PL n (S LOCK_PARSE_MAX_DEPTH))).
  unfold F_body. by rewrite (proj2 (Nat.ltb_lt _ _)) by lia.
Qed.

Lemma F_not d s b r :
  (S d <= LOCK_PARSE_MAX_DEPTH)%nat -> getsF (S d) s (Some b, r) ->
  getsF d (NOT_TOKEN :: s) (Some (BOOLEXP_NOT b), r).
Proof. intros Hd [n Hn]. exists (S n). rewrite F_start by done. cbn. by rewrite Hn. Qed.

Definition plain_start (x : Z) : bool :=
  negb (mux_isspace x || (x =? NOT_TOKEN) || (x =? INDIR_TOKEN) || (x =? IS_TOKEN)
        || (x =? CARRY_TOKEN) || (x =? OWNER_TOKEN)).

Lemma F_plain d x s r :
  (S d <= LOCK_PARSE_MAX_DEPTH)%nat -> plain_start x = true -> getsL (S d) (x :: s) r ->
  getsF d (x :: s) r.
Proof.
  intros Hd Hx [n Hn]. exists (S n). unfold plain_start in Hx. rewrite !negb_orb in Hx. byte_hyps.
  repeat match goal with H : negb _ = true |- _ => apply negb_true_iff in H end.
  rewrite F_start by done. by repeat (case_match; [congruence|]).
Qed.

Lemma F_op d tok mk s b r :
  (S d <= LOCK_PARSE_MAX_DEPTH)%nat ->
  In (tok, mk) [(IS_TOKEN, BOOLEXP_IS); (CARRY_TOKEN, BOOLEXP_CARRY); (OWNER_TOKEN, BOOLEXP_OWNER)] ->
  is_const b || negb (tok =? OWNER_TOKEN) && is_atr b = true ->
  getsL (S d) s (Some b, r) -> getsF d (tok :: s) (Some (mk b), r).
Proof.
  intros Hd Hin Hok [n Hn]. exists (S n).
  destruct Hin as [E|[E|[E|[]]]]; injection E as <- <-; rewrite F_start by done.
  - change (is_const b || is_atr b = true) in Hok.
    change ((r0 ← PL n (S d) s; sub_node BOOLEXP_IS (fun b => is_const b || is_atr b) r0)
      = Ok (Some (BOOLEXP_IS b), r)).
    rewrite Hn. cbn [mbind run_bind sub_node]. by rewrite Hok.
  - change (is_const b || is_atr b = true) in Hok.
    change ((r0 ← PL n (S d) s; sub_node BOOLEXP_CARRY (fun b => is_const b || is_atr b) r0)
      = Ok (Some (BOOLEXP_CARRY b), r)).
    rewrite Hn. cbn [mbind run_bind sub_node]. by rewrite Hok.
  - change (is_const b || false = true) in Hok. rewrite orb_false_r in Hok.
    change ((r0 ← PL n (S d) s; sub_node BOOLEXP_OWNER is_const r0) = Ok (Some (BOOLEXP_OWNER b), r)).
    rewrite Hn. cbn [mbind run_bind sub_node]. by rewrite Hok.
Qed.

Lemma L_paren d s b r :
  getsE d s (Some b, RPAREN :: r) -> getsL d (LPAREN :: s) (Some b, r).
Proof.
  intros [n Hn]. exists (S n).
  change (PL (S n) d (LPAREN :: s)) with (L_body player internal (PE n d) (LPAREN :: s)).
  unfold L_body. rewrite skip_ws_id by done. cbn [mbind run_bind deref]. rewrite Z.eqb_refl.
  cbn [tail]. rewrite Hn. cbn [mbind run_bind]. rewrite skip_ws_id by done. done.
Qed.

Lemma name_run_stops stop n c x r :
  forallb (fun b => negb (b =? 0) && negb (stop b)) c = true -> (length c <= n)%nat ->
  x = 0 \/ stop x = true ->
  name_run stop n (c ++ x :: r) = Ok (c, x :: r).
Proof.
  intros Hc Hn Hx. revert n Hn Hc. induction c as [|y c IH]; intros n Hn Hc; cbn [app name_run].
  - by destruct Hx as [-> | ->]; [|rewrite orb_true_r].
  - cbn [forallb] in Hc. apply andb_prop in Hc. destruct Hc as [Hy Hc]. apply andb_prop in Hy.
    destruct Hy as [H0 Hs]. apply negb_true_iff in H0, Hs. rewrite H0, Hs. cbn [orb].
    destruct n as [|n]; [cbn in Hn; lia|]. rewrite IH by (done || cbn in Hn; lia). done.
Qed.

(** A name: it starts and ends with a character that is no space, and nothing in it stops it. *)
Definition name_text (nm : bytes) : Prop :=
  value_ok nm = true /\ rstrip nm = nm /\ (length nm <= cap)%nat
  /\ exists y nm', nm = y :: nm' /\ mux_isspace y = false /\ (y =? LPAREN) = false.

Lemma L_name d nm x r ob :
  name_text nm -> folF x ->
  (ob' ← test_atr player nm; match ob' with Some _ => Ok ob' | None => object_ref player internal nm end) = Ok ob ->
  getsL d (nm ++ x :: r) (ob, x :: r).
Proof.
  intros (Hv & Hr & Hl & y & nm' & -> & Hy & Hp) Hx Hob. exists 1%nat. unfold cap in Hl.
  cbn [app]. change (PL 1 d (y :: nm' ++ x :: r)) with (L_body player internal (PE 0 d) (y :: nm' ++ x :: r)).
  unfold L_body. rewrite skip_ws_id by done. cbn [mbind run_bind deref]. rewrite Hp.
  unfold read_name. change (y :: nm' ++ x :: r) with ((y :: nm') ++ x :: r).
  rewrite name_run_stops; [|done|lia|].
  2:{ destruct Hx as [-> |[-> |[-> | ->]]]; auto. }
  cbn [mbind run_bind]. rewrite (proj2 (Nat.eqb_neq _ _)) by (cbn in *; lia).
  rewrite Hr. rewrite bool_decide_false by done. cbn [andb mbind run_bind].
  destruct (test_atr player (y :: nm')) as [[b|]| |]; cbn [mbind run_bind] in *; try discriminate.
  - by injection Hob as <-.
  - rewrite Hob. done.
Qed.

End Rules.
