(* ===== verification/BoolRound.v ===== *)
(** * A stored lock is read back

    The text of a tree in the format of storage, what the parser makes of it, and what is lost:
    locks nested to the limit of the parser, locks longer than a buffer. *)

From S2P Require Import Prelude Machine Decimal TimeText StringUtil NameTab BoolExp BoolSafe BoolText.

(** ** Chains to the right *)

Fixpoint and_app (a b : BOOLEXP) : BOOLEXP :=
  match a with BOOLEXP_AND x y => BOOLEXP_AND x (and_app y b) | _ => BOOLEXP_AND a b end.
Fixpoint or_app (a b : BOOLEXP) : BOOLEXP :=
  match a with BOOLEXP_OR x y => BOOLEXP_OR x (or_app y b) | _ => BOOLEXP_OR a b end.

(** The tree with its chains of [&] and [|] associated to the right. *)
Fixpoint norm (b : BOOLEXP) : BOOLEXP :=
  match b with
  | BOOLEXP_AND a b => and_app (norm a) (norm b)
  | BOOLEXP_OR a b => or_app (norm a) (norm b)
  | BOOLEXP_NOT a => BOOLEXP_NOT (norm a)
  | _ => b
  end.

Lemma and_app_assoc a b c : and_app a (and_app b c) = and_app (and_app a b) c.
Proof. induction a; cbn; try done. by rewrite IHa2. Qed.

Lemma or_app_assoc a b c : or_app a (or_app b c) = or_app (or_app a b) c.
Proof. induction a; cbn; try done. by rewrite IHa2. Qed.

(** ** What can be stored *)

Section Storable.
Context {HC : Config} {HE : LockEnv}.

Definition dec (t : Z) : bytes := default [] (mux_ltoa t).
Definition dbref_text (t : Z) : bytes := [LPAREN; NUMBER_TOKEN] ++ dec t ++ [RPAREN].

Definition dbref_ok (t : Z) : bool :=
  (0 <=? t) && (t <? 2 ^ 31) && (bStandAlone || (t <? db_top)).

(** The name of an attribute: no byte of it means anything to the parser. *)
Definition attr_name_ok (nm : bytes) : bool :=
  value_ok nm && forallb (fun c => negb ((c =? COLON) || (c =? SLASH))) nm
  && bool_decide (whole nm) && lead_ok nm
  && match nm with y :: _ => plain_start y && negb (y =? LPAREN) | [] => false end.

Definition attr_value_ok (s : bytes) : bool :=
  value_ok s && bool_decide (rstrip s = s) && bool_decide (whole s) && lead_ok s.

(** The attribute exists under its number and its name. *)
Definition attr_ok (n : Z) (s : bytes) : bool :=
  match atr_num n with
  | Some ap =>
      (a_number ap =? n) && negb (n =? 0) && attr_name_ok (a_name ap) && attr_value_ok s
      && match atr_str (a_name ap) with Some ap' => a_number ap' =? n | None => false end
  | None => false
  end.

Fixpoint storable (b : BOOLEXP) : bool :=
  match b with
  | BOOLEXP_AND a b | BOOLEXP_OR a b => storable a && storable b
  | BOOLEXP_NOT a => storable a
  | BOOLEXP_CONST t => dbref_ok t
  | BOOLEXP_ATR n s | BOOLEXP_EVAL n s => attr_ok n s
  | BOOLEXP_INDIR fl a => existsb (fun nt => flag nt =? fl) lock_sw && is_const a && storable a
  | BOOLEXP_CARRY a | BOOLEXP_IS a => (is_const a || is_atr a) && storable a
  | BOOLEXP_OWNER a => is_const a && storable a
  end.

Definition attr_text (n : Z) (sep : Z) (s : bytes) : bytes :=
  match atr_num n with Some ap => a_name ap ++ sep :: s | None => [] end.

Definition lock_text (fl : Z) : bytes :=
  if fl =? A_LOCK then []
  else match find (fun nt => flag nt =? fl) lock_sw with
       | Some nt => SLASH :: name nt
       | None => []
       end.

Definition parens (c : bool) (s : bytes) : bytes := if c then LPAREN :: s ++ [RPAREN] else s.

Fixpoint lock_chars (b : BOOLEXP) (o : boolexp_type) : bytes :=
  match b with
  | BOOLEXP_AND b1 b2 => parens (paren o b) (lock_chars b1 T_AND ++ AND_TOKEN :: lock_chars b2 T_AND)
  | BOOLEXP_OR b1 b2 => parens (paren o b) (lock_chars b1 T_OR ++ OR_TOKEN :: lock_chars b2 T_OR)
  | BOOLEXP_NOT a => NOT_TOKEN :: lock_chars a T_NOT
  | BOOLEXP_INDIR fl a => INDIR_TOKEN :: lock_chars a T_OTHER ++ lock_text fl
  | BOOLEXP_IS a => IS_TOKEN :: lock_chars a T_OTHER
  | BOOLEXP_CARRY a => CARRY_TOKEN :: lock_chars a T_OTHER
  | BOOLEXP_OWNER a => OWNER_TOKEN :: lock_chars a T_OTHER
  | BOOLEXP_CONST t => dbref_text t
  | BOOLEXP_ATR n s => attr_text n COLON s
  | BOOLEXP_EVAL n s => attr_text n SLASH s
  end.

(** How many calls of [parse_boolexp_F] are open at once while the text is read. *)
Fixpoint nesting (b : BOOLEXP) (o : boolexp_type) : nat :=
  ((if paren o b then 1 else 0) +
   match b with
   | BOOLEXP_AND a b => Nat.max (nesting a T_AND) (nesting b T_AND)
   | BOOLEXP_OR a b => Nat.max (nesting a T_OR) (nesting b T_OR)
   | BOOLEXP_NOT a => S (nesting a T_NOT)
   | BOOLEXP_CONST _ => 2
   | BOOLEXP_ATR _ _ | BOOLEXP_EVAL _ _ => 1
   | BOOLEXP_INDIR _ _ | BOOLEXP_OWNER _ => 2
   | BOOLEXP_CARRY a | BOOLEXP_IS a => if is_const a then 2 else 1
   end)%nat.

End Storable.

(** ** Writing without loss *)

Section Write.
Context {HC : Config} {HE : LockEnv} {HN : ObjectNames}.
Variable player : dbref.

Lemma dec_text t rest :
  0 <= t < 2 ^ 31 -> mux_isdigit (chr_at rest 0) = false ->
  mux_ltoa t = Some (dec t) /\ forallb mux_isdigit (dec t) = true /\ dec t <> []
  /\ (length (dec t) <= 20)%nat /\ mux_atoi64 (dec t ++ rest) = Some t.
Proof.
  intros Ht Hr.
  destruct (i64toa_atoi64 t rest) as (s & ds & E & Es & Hn & Hl & Ha); [|done|].
  { unfold in_s, smin, smax. lia. }
  unfold dec, mux_ltoa. rewrite E. cbn [default]. replace (t <? 0) with false in Es by lia.
  cbn [app] in Es. subst s. split_and!; [done| | |done|done].
  - apply digits_forallb, Hn.
  - destruct Hn as (_ & _ & b & r & -> & _). done.
Qed.

Lemma dbref_ok_range t : dbref_ok t = true -> 0 <= t < 2 ^ 31.
Proof. unfold dbref_ok. lia. Qed.

Lemma lock_sw_ascii fl nt :
  find (fun nt => flag nt =? fl) lock_sw = Some nt ->
  nt ∈ lock_sw /\ flag nt = fl /\ forallb (in_rng 97 122) (name nt) = true
  /\ (length (name nt) <= 32)%nat /\ name nt <> [].
Proof.
  intros H. apply find_some in H. destruct H as [Hin Hf]. apply Z.eqb_eq in Hf.
  assert (HF : Forall (fun nt => forallb (in_rng 97 122) (name nt) = true
    /\ (length (name nt) <= 32)%nat /\ name nt <> []) lock_sw).
  { unfold lock_sw. repeat constructor; cbn; lia || done. }
  rewrite Forall_forall in HF. apply list_elem_of_In in Hin.
  destruct (HF nt Hin) as (H1 & H2 & H3). done.
Qed.

Lemma whole_letters buff s : s <> [] -> forallb (in_rng 97 122) s = true -> whole (buff ++ s).
Proof.
  intros Hs Hf. destruct (exists_last Hs) as (s' & c & ->). rewrite app_assoc. apply whole_ascii.
  rewrite forallb_app in Hf. apply andb_prop in Hf. destruct Hf as [_ Hf]. cbn in Hf.
  rewrite andb_true_r in Hf. apply in_rng_true in Hf. apply in_rng_true. lia.
Qed.

Lemma whole_sep buff sep s :
  in_rng 0 127 sep = true -> whole s -> whole ((buff ++ [sep]) ++ s).
Proof.
  intros Hsep Hs. destruct s as [|c s]; [rewrite app_nil_r; by apply whole_ascii|].
  by apply whole_app.
Qed.

Lemma attr_name_inv nm :
  attr_name_ok nm = true ->
  value_ok nm = true /\ forallb (fun c => negb ((c =? COLON) || (c =? SLASH))) nm = true /\ whole nm
  /\ lead_ok nm = true
  /\ exists y nm', nm = y :: nm' /\ plain_start y = true /\ (y =? LPAREN) = false.
Proof.
  unfold attr_name_ok. intros H. rewrite !andb_true_iff in H. destruct H as [[[[H1 H2] H3] H4] H5].
  apply bool_decide_eq_true in H3. split_and!; [done..|]. destruct nm as [|y nm]; [done|].
  exists y, nm. apply andb_true_iff in H5. rewrite negb_true_iff in H5. naive_solver.
Qed.

Lemma attr_value_inv s :
  attr_value_ok s = true -> value_ok s = true /\ rstrip s = s /\ whole s /\ lead_ok s = true.
Proof.
  unfold attr_value_ok. intros H. rewrite !andb_true_iff, !bool_decide_eq_true in H. tauto.
Qed.

Lemma attr_ok_inv n s :
  attr_ok n s = true ->
  exists ap ap', atr_num n = Some ap /\ (a_number ap =? 0) = false /\ attr_name_ok (a_name ap) = true
    /\ attr_value_ok s = true /\ atr_str (a_name ap) = Some ap' /\ a_number ap' = n.
Proof.
  unfold attr_ok. destruct (atr_num n) as [ap|]; [|done]. intros H.
  rewrite !andb_true_iff, negb_true_iff in H. destruct H as [[[[H1 H2] H3] H4] H5].
  apply Z.eqb_eq in H1. destruct (atr_str (a_name ap)) as [ap'|] eqn:E5; [|done].
  apply Z.eqb_eq in H5. exists ap, ap'. rewrite H1. done.
Qed.

Lemma unparse_attr_text n sep s buff :
  attr_ok n s = true -> in_rng 0 127 sep = true ->
  (length buff + length (attr_text n sep s) <= cap)%nat ->
  unparse_attr n sep s buff = Some (buff ++ attr_text n sep s).
Proof.
  intros H Hsep. destruct (attr_ok_inv n s H) as (ap & ap' & En & E0 & Hnm & Hs & _).
  unfold attr_text, unparse_attr. rewrite En, E0. cbn [negb]. intros Hl.
  destruct (attr_name_inv _ Hnm) as (_ & _ & Hw & _ & y & nm' & Ey & _).
  destruct (attr_value_inv _ Hs) as (_ & _ & Hws & _).
  rewrite length_app in Hl. cbn [length] in Hl. assert (a_name ap <> []) by (by rewrite Ey).
  rewrite safe_str_fits by (lia || by apply whole_app). cbn [mbind option_bind].
  rewrite safe_chr_fits by (rewrite length_app; lia).
  rewrite safe_str_fits; [by rewrite <- !app_assoc|rewrite !length_app; cbn; lia|by apply whole_sep].
Qed.

Lemma unparse_lock_text fl buff :
  (length buff + length (lock_text fl) <= cap)%nat ->
  unparse_lock fl buff = Some (buff ++ lock_text fl).
Proof.
  unfold unparse_lock, lock_text. destruct (fl =? A_LOCK); cbn [negb]; [by rewrite app_nil_r|].
  destruct (find _ lock_sw) as [nt|] eqn:E; [|by rewrite app_nil_r].
  apply lock_sw_ascii in E. destruct E as (_ & _ & Hf & _ & Hne). cbn [length]. intros Hl.
  rewrite safe_chr_fits by lia.
  rewrite safe_str_fits; [by rewrite <- app_assoc|rewrite length_app; cbn; lia|].
  by apply whole_letters.
Qed.

Lemma unparse_const_text t buff :
  dbref_ok t = true -> (length buff + length (dbref_text t) <= cap)%nat ->
  unparse_const player F_QUIET t buff = Some (buff ++ dbref_text t).
Proof.
  intros Ht Hl. unfold unparse_const, unparse_object_quiet.
  destruct (dec_text t [] (dbref_ok_range t Ht) eq_refl) as (-> & _). cbn [mbind option_bind].
  destruct bStandAlone; (apply safe_str_fits; [done|]); unfold dbref_text;
    rewrite !app_assoc; by apply whole_ascii.
Qed.

Lemma safe_if_fits (c : bool) (ch : Z) (buff : bytes) :
  (length buff + (if c then 1 else 0) <= cap)%nat -> safe_if c ch buff = buff ++ (if c then [ch] else []).
Proof. intros Hl. destruct c; cbn; [apply safe_chr_fits; lia | by rewrite app_nil_r]. Qed.

Lemma parens_app (c : bool) (s : bytes) : parens c s = (if c then [LPAREN] else []) ++ s ++ (if c then [RPAREN] else []).
Proof. destruct c; cbn; [done | by rewrite app_nil_r]. Qed.

(** A binary node, with its parentheses. *)
Lemma unparse_binary (c : bool) (tok : Z) (s1 s2 buff : bytes) (u1 u2 : bytes -> option bytes) :
  (forall buff, (length buff + length s1 <= cap)%nat -> u1 buff = Some (buff ++ s1)) ->
  (forall buff, (length buff + length s2 <= cap)%nat -> u2 buff = Some (buff ++ s2)) ->
  (length buff + length (parens c (s1 ++ tok :: s2)) <= cap)%nat ->
  (buff ← u1 (safe_if c LPAREN buff); buff ← u2 (safe_chr tok buff); Some (safe_if c RPAREN buff))
  = Some (buff ++ parens c (s1 ++ tok :: s2)).
Proof.
  intros H1 H2. rewrite parens_app, !length_app. cbn [length]. intros Hl.
  set (k := (if c then 1 else 0)%nat).
  assert (Hp : forall x, length (if c then [x : Z] else []) = k) by (intros x; by destruct c).
  rewrite !Hp in Hl.
  rewrite safe_if_fits by (fold k; lia).
  rewrite H1 by (rewrite length_app, Hp; lia). cbn [mbind option_bind].
  rewrite safe_chr_fits by (rewrite !length_app, Hp; lia).
  rewrite H2 by (rewrite !length_app, Hp; cbn [length]; lia). cbn [mbind option_bind].
  rewrite safe_if_fits by (fold k; rewrite !length_app, Hp; cbn [length]; lia).
  f_equal. rewrite <- !app_assoc. done.
Qed.

Lemma unparse_unary tok s buff (u : bytes -> option bytes) :
  (forall buff, (length buff + length s <= cap)%nat -> u buff = Some (buff ++ s)) ->
  (length buff + length (tok :: s) <= cap)%nat ->
  u (safe_chr tok buff) = Some (buff ++ tok :: s).
Proof.
  intros Hu. cbn [length]. intros Hl. rewrite safe_chr_fits by lia.
  rewrite Hu by (rewrite length_app; cbn; lia). by rewrite <- app_assoc.
Qed.

Lemma unparse_text b o buff :
  storable b = true -> (length buff + length (lock_chars b o) <= cap)%nat ->
  unparse_boolexp1 player b o F_QUIET buff = Some (buff ++ lock_chars b o).
Proof.
  revert o buff. induction b as [b1 IH1 b2 IH2|b1 IH1 b2 IH2|b IH|t|n s|fl b IH|b IH|b IH|b IH|n s];
    cbn [storable unparse_boolexp1 lock_chars]; intros o buff Hs.
  - apply andb_true_iff in Hs. destruct Hs. apply unparse_binary; auto.
  - apply andb_true_iff in Hs. destruct Hs. apply unparse_binary; auto.
  - apply unparse_unary; auto.
  - by apply unparse_const_text.
  - by apply unparse_attr_text.
  - rewrite !andb_true_iff in Hs. destruct Hs as [_ Hs]. cbn [length]. rewrite length_app.
    intros Hl. rewrite safe_chr_fits by lia.
    rewrite IH by (try done; rewrite length_app; cbn [length]; lia). cbn [mbind option_bind].
    rewrite unparse_lock_text by (rewrite !length_app; cbn [length]; lia).
    by rewrite <- !app_assoc.
  - apply andb_true_iff in Hs. destruct Hs. apply unparse_unary; auto.
  - apply andb_true_iff in Hs. destruct Hs. apply unparse_unary; auto.
  - apply andb_true_iff in Hs. destruct Hs. apply unparse_unary; auto.
  - by apply unparse_attr_text.
Qed.

End Write.

(** ** Reading *)

Section Read.
Context {HC : Config} {HP : Powers} {HT : CaseTable} {HL : CaseLaws} {HE : LockEnv}.
Variables (player : dbref) (internal : bool).
Hypothesis stored : bStandAlone || internal = true.

Local Abbreviation getsE := (getsE player internal).
Local Abbreviation getsT := (getsT player internal).
Local Abbreviation getsF := (getsF player internal).
Local Abbreviation getsL := (getsL player internal).
Local Abbreviation MAX := LOCK_PARSE_MAX_DEPTH.

Lemma folF_not_digit x : folF x -> mux_isdigit x = false.
Proof. by intros [-> |[-> |[-> | ->]]]. Qed.

Lemma digits_value_ok s : forallb mux_isdigit s = true -> value_ok s = true.
Proof.
  unfold value_ok. rewrite !forallb_forall. intros H c Hc. specialize (H c Hc).
  unfold mux_isdigit in H. apply in_rng_true in H.
  unfold ends_name, AND_TOKEN, OR_TOKEN, RPAREN. lia.
Qed.

Lemma digits_no_separator s : forallb mux_isdigit s = true -> find_separator (NUMBER_TOKEN :: s) = None.
Proof.
  intros H. cbn. induction s as [|c s IH]; [done|]. cbn [forallb] in H. apply andb_true_iff in H.
  destruct H as [Hc Hs]. cbn. unfold mux_isdigit in Hc. apply in_rng_true in Hc.
  replace (c =? COLON) with false by (unfold COLON; lia).
  replace (c =? SLASH) with false by (unfold SLASH; lia). cbn [orb].
  specialize (IH Hs). destruct (find_separator s) as [[[? ?] ?]|]; [done|done].
Qed.

Lemma rstrip_last s c : mux_isspace c = false -> rstrip (s ++ [c]) = s ++ [c].
Proof.
  intros H. unfold rstrip. rewrite reverse_snoc. cbn [skip_while]. rewrite H.
  by rewrite <- (reverse_snoc s c), reverse_involutive.
Qed.

Lemma rstrip_digits x s : mux_isspace x = false -> forallb mux_isdigit s = true -> rstrip (x :: s) = x :: s.
Proof.
  intros Hx Hs. destruct (exists_last (l := x :: s)) as (s' & c & E); [done|]. rewrite E.
  apply rstrip_last. destruct s' as [|y s'].
  - injection E as <- _. done.
  - injection E as _ E. rewrite E, forallb_app in Hs. apply andb_true_iff in Hs.
    destruct Hs as [_ Hs]. cbn in Hs. rewrite andb_true_r in Hs.
    unfold mux_isdigit in Hs. apply in_rng_true in Hs. unfold mux_isspace, in_rng. lia.
Qed.

(** [#] and a number. *)
Lemma L_number d t x r :
  dbref_ok t = true -> (length (dec t) < cap)%nat -> folF x ->
  getsL d (NUMBER_TOKEN :: dec t ++ x :: r) (Some (BOOLEXP_CONST t), x :: r).
Proof.
  intros Ht Hl Hx. pose proof (dbref_ok_range t Ht) as Hr.
  destruct (dec_text t [] Hr eq_refl) as (_ & Hd & Hne & _ & Ha).
  rewrite app_nil_r in Ha.
  apply (L_name player internal d (NUMBER_TOKEN :: dec t)); [|done|].
  - unfold name_text. split_and!.
    + unfold value_ok. cbn [forallb]. apply andb_true_iff. split; [done|]. by apply digits_value_ok.
    + by apply rstrip_digits.
    + cbn. lia.
    + eexists _, _. done.
  - unfold test_atr, mux_strncpy. unfold cap in Hl. rewrite take_ge by (cbn; lia).
    rewrite digits_no_separator by done. cbn [mbind run_bind].
    unfold object_ref, atoi32. cbn [drop]. change (chr_at (NUMBER_TOKEN :: dec t) 0) with NUMBER_TOKEN.
    rewrite drop_0, Ha, Z.eqb_refl. cbn [negb of_option mbind run_bind].
    rewrite sgn_small by (unfold in_s, smin, smax; lia).
    unfold dbref_ok in Ht. unfold Good_dbref, NOTHING, AMBIGUOUS.
    destruct bStandAlone; cbn [negb orb] in *.
    + by replace (t <? 0) with false by lia.
    + rewrite stored. replace ((0 <=? t) && (t <? db_top)) with true by lia. cbn [negb].
      replace (t =? -1) with false by lia. by replace (t =? -2) with false by lia.
Qed.

(** An object in parentheses, as it is stored. *)
Lemma L_dbref d t r :
  dbref_ok t = true -> (length (dec t) < cap)%nat -> (S d <= MAX)%nat ->
  getsL d (dbref_text t ++ r) (Some (BOOLEXP_CONST t), r).
Proof.
  intros Ht Hl Hd. unfold dbref_text. rewrite <- !app_assoc. cbn [app].
  assert (HR : folE RPAREN) by (by right).
  apply L_paren, E_one, HR. apply T_one, (folE_T _ HR). apply F_plain; [done|done|].
  apply L_number; [done|done|by apply folT_F, folE_T].
Qed.

Lemma value_ok_app a b : value_ok (a ++ b) = value_ok a && value_ok b.
Proof. apply forallb_app. Qed.

Lemma find_separator_app a sep s :
  forallb (fun c => negb ((c =? COLON) || (c =? SLASH))) a = true -> sep = COLON \/ sep = SLASH ->
  find_separator (a ++ sep :: s) = Some (a, sep, s).
Proof.
  intros Ha Hsep. induction a as [|c a IH]; cbn [app find_separator].
  - by destruct Hsep as [-> | ->].
  - cbn [forallb] in Ha. apply andb_true_iff in Ha. destruct Ha as [Hc Ha].
    apply negb_true_iff in Hc. rewrite Hc, IH by done. done.
Qed.

Lemma rstrip_sep a sep s : mux_isspace sep = false -> rstrip s = s -> rstrip (a ++ sep :: s) = a ++ sep :: s.
Proof.
  intros Hsep Hs. destruct (decide (s = [])) as [->|Hne]; [by apply rstrip_last|].
  destruct (exists_last Hne) as (s' & c & ->).
  replace (a ++ sep :: s' ++ [c]) with ((a ++ sep :: s') ++ [c]) by (by rewrite <- app_assoc).
  apply rstrip_last. destruct (mux_isspace c) eqn:Ec; [|done]. exfalso.
  apply (f_equal length) in Hs. unfold rstrip in Hs. rewrite reverse_snoc in Hs.
  cbn [skip_while] in Hs. rewrite Ec, length_reverse in Hs.
  destruct (skip_while_suffix mux_isspace (reverse s')) as (w & E & _).
  apply (f_equal length) in E. rewrite length_app, length_reverse in *. cbn in Hs. lia.
Qed.

(** An attribute with its value. *)
Lemma L_attr d n sep s x r :
  attr_ok n s = true -> sep = COLON \/ sep = SLASH -> (length (attr_text n sep s) <= cap)%nat ->
  folF x ->
  getsL d (attr_text n sep s ++ x :: r)
    (Some (if sep =? SLASH then BOOLEXP_EVAL n s else BOOLEXP_ATR n s), x :: r).
Proof.
  intros H Hsep. destruct (attr_ok_inv n s H) as (ap & ap' & En & _ & Hnm & Hs & Ea & Eap').
  destruct (attr_name_inv _ Hnm) as (Hv & Hfs & _ & _ & y & nm' & Ey & Hy & Hyp).
  destruct (attr_value_inv _ Hs) as (Hvs & Hrs & _).
  unfold attr_text. rewrite En. intros Hl Hx.
  assert (Hsp : mux_isspace sep = false) by (by destruct Hsep as [-> | ->]).
  apply (L_name player internal d (a_name ap ++ sep :: s)); [|done|].
  - unfold name_text. split_and!.
    + rewrite value_ok_app, Hv. unfold value_ok in Hvs |- *. cbn [forallb]. rewrite Hvs.
      by destruct Hsep as [-> | ->].
    + by apply rstrip_sep.
    + done.
    + rewrite Ey. eexists _, _. split; [done|]. split; [|done].
      unfold plain_start in Hy. apply negb_true_iff in Hy. rewrite !orb_false_iff in Hy. tauto.
  - unfold test_atr, mux_strncpy. unfold cap in Hl. rewrite take_ge by lia.
    rewrite find_separator_app by done. rewrite Ea, Eap'. done.
Qed.

Lemma scan_digits k s s' :
  forallb mux_isdigit s = true ->
  scan_slash (S k) (s ++ s') = r ← scan_slash (S k) s'; Ok (option_map (Nat.add (length s)) r).
Proof.
  induction s as [|c s IH]; cbn [app length]; intros H.
  - destruct (scan_slash (S k) s') as [[m|]| |]; done.
  - cbn [forallb] in H. apply andb_true_iff in H. destruct H as [Hc Hs]. cbn [scan_slash].
    unfold mux_isdigit in Hc. apply in_rng_true in Hc.
    replace (c =? 0) with false by lia. replace (c =? LPAREN) with false by (unfold LPAREN; lia).
    replace (c =? RPAREN) with false by (unfold RPAREN; lia). cbn [Nat.eqb andb].
    rewrite IH by done. by destruct (scan_slash (S k) s') as [[m|]| |].
Qed.

Lemma scan_dbref t s :
  0 <= t < 2 ^ 31 ->
  scan_slash 0 (dbref_text t ++ s)
  = r ← scan_slash 0 s; Ok (option_map (Nat.add (length (dbref_text t))) r).
Proof.
  intros Ht. destruct (dec_text t [] Ht eq_refl) as (_ & Hd & _).
  assert (Hl : length (dbref_text t) = (3 + length (dec t))%nat).
  { unfold dbref_text. rewrite !length_app. cbn. lia. }
  rewrite Hl. unfold dbref_text. rewrite <- !app_assoc.
  change (scan_slash 0 ([LPAREN; NUMBER_TOKEN] ++ dec t ++ [RPAREN] ++ s))
    with (r ← r ← scan_slash 1 (dec t ++ RPAREN :: s); Ok (option_map S r); Ok (option_map S r)).
  rewrite scan_digits by done.
  change (scan_slash 1 (RPAREN :: s)) with (r ← scan_slash 0 s; Ok (option_map S r)).
  destruct (scan_slash 0 s) as [[m|]| |]; cbn; try done. do 2 f_equal. lia.
Qed.

Lemma rstrip_letters s : forallb (in_rng 97 122) s = true -> rstrip s = s.
Proof.
  intros H. destruct (decide (s = [])) as [->|Hne]; [done|].
  destruct (exists_last Hne) as (s' & c & ->). apply rstrip_last.
  rewrite forallb_app in H. apply andb_true_iff in H. destruct H as [_ H]. cbn in H.
  rewrite andb_true_r in H. apply in_rng_true in H. unfold mux_isspace, in_rng. lia.
Qed.

Lemma letters_value_ok s : forallb (in_rng 97 122) s = true -> value_ok s = true.
Proof.
  unfold value_ok. rewrite !forallb_forall. intros H c Hc. specialize (H c Hc).
  apply in_rng_true in H. unfold ends_name, AND_TOKEN, OR_TOKEN, RPAREN.
  repeat match goal with |- context [?a =? ?b] => destruct (Z.eqb_spec a b); [lia|] end. done.
Qed.

Lemma lock_text_named fl :
  existsb (fun nt => flag nt =? fl) lock_sw = true -> (fl =? A_LOCK) = false ->
  exists nt, lock_text fl = SLASH :: name nt /\ nt ∈ lock_sw /\ flag nt = fl
    /\ forallb (in_rng 97 122) (name nt) = true /\ (length (name nt) <= 32)%nat.
Proof.
  intros He Hf. unfold lock_text. rewrite Hf. destruct (find _ lock_sw) as [nt|] eqn:E.
  - apply lock_sw_ascii in E. destruct E as (H1 & H2 & H3 & H4 & _). by exists nt.
  - apply existsb_exists in He. destruct He as (nt & Hin & Hn).
    by rewrite (find_none _ _ E nt Hin) in Hn.
Qed.

Lemma F_indir d fl t x r :
  existsb (fun nt => flag nt =? fl) lock_sw = true -> dbref_ok t = true ->
  (length (dbref_text t) <= cap)%nat -> (S (S d) <= MAX)%nat -> folF x ->
  getsF d (INDIR_TOKEN :: (dbref_text t ++ lock_text fl) ++ x :: r)
    (Some (BOOLEXP_INDIR fl (BOOLEXP_CONST t)), x :: r).
Proof.
  intros He Ht Hl Hd Hx. pose proof (dbref_ok_range t Ht) as Hr.
  assert (Hdl : (length (dec t) < cap)%nat).
  { revert Hl. unfold dbref_text. rewrite !length_app. cbn. lia. }
  assert (HL' := fun r => L_dbref (S d) t r Ht Hdl Hd). rewrite <- app_assoc.
  destruct (fl =? A_LOCK) eqn:E.
  - apply Z.eqb_eq in E as ->. destruct (HL' (x :: r)) as [n Hn]. exists (S n).
    rewrite F_start by (done || lia).
    change (lock_text A_LOCK ++ x :: r) with (x :: r).
    change (indir_body player (parse_boolexp_L player internal n (S d)) (dbref_text t ++ x :: r)
      = Ok (Some (BOOLEXP_INDIR A_LOCK (BOOLEXP_CONST t)), x :: r)).
    unfold indir_body. rewrite scan_dbref by done.
    assert (Hs : scan_slash 0 (x :: r) = Ok None) by (by destruct Hx as [-> |[-> |[-> | ->]]]).
    rewrite Hs. cbn [mbind run_bind option_map]. rewrite Hn. done.
  - destruct (lock_text_named fl He E) as (nt & -> & Hin & Hfl & Hf & Hnl).
    destruct (HL' (0 :: drop (S (length (dbref_text t))) lbuf_content)) as [n Hn]. exists (S n).
    rewrite F_start by (done || lia).
    change (indir_body player (parse_boolexp_L player internal n (S d))
      (dbref_text t ++ SLASH :: name nt ++ x :: r)
      = Ok (Some (BOOLEXP_INDIR fl (BOOLEXP_CONST t)), x :: r)).
    unfold indir_body. rewrite scan_dbref by done.
    change (scan_slash 0 (SLASH :: name nt ++ x :: r)) with (Ok (Some O) : run (option nat)).
    cbn [mbind run_bind option_map]. rewrite Nat.add_0_r.
    assert (0 < length (dbref_text t))%nat by (cbn; lia).
    rewrite (proj2 (Nat.leb_gt _ _)) by (unfold cap in Hl; lia).
    rewrite take_app_length, Hn. cbn [mbind run_bind].
    replace (S (length (dbref_text t))) with (length (dbref_text t) + 1)%nat by lia.
    rewrite drop_app_add. cbn [drop]. rewrite ?drop_0.
    rewrite name_run_stops; [|by apply letters_value_ok|rewrite !length_app; cbn; rewrite !length_app; lia|].
    2:{ destruct Hx as [-> |[-> |[-> | ->]]]; auto. }
    cbn [mbind run_bind]. rewrite rstrip_letters by done.
    rewrite take_ge by (change (SBUF_SIZE - 1)%nat with 63%nat; lia).
    rewrite lock_sw_own_name by done. cbn [mbind run_bind negb sub_node is_const]. by rewrite Hfl.
Qed.

(** ** The three levels *)

Definition reads (b : BOOLEXP) : Prop :=
  (forall d o x r, (match b with BOOLEXP_AND _ _ | BOOLEXP_OR _ _ => paren o b = true | _ => True end) ->
     (length (lock_chars b o) <= cap)%nat -> (d + nesting b o <= MAX)%nat -> folF x ->
     getsF d (lock_chars b o ++ x :: r) (Some (norm b), x :: r))
  /\ (forall d x r, (length (lock_chars b T_AND) <= cap)%nat -> (d + nesting b T_AND <= MAX)%nat -> folT x ->
     getsT d (lock_chars b T_AND ++ x :: r) (Some (norm b), x :: r))
  /\ (forall d s y r, (length (lock_chars b T_AND) <= cap)%nat -> (d + nesting b T_AND <= MAX)%nat ->
     getsT d s (Some y, r) ->
     getsT d (lock_chars b T_AND ++ AND_TOKEN :: s) (Some (and_app (norm b) y), r))
  /\ (forall d x r, (length (lock_chars b T_OR) <= cap)%nat -> (d + nesting b T_OR <= MAX)%nat -> folE x ->
     getsE d (lock_chars b T_OR ++ x :: r) (Some (norm b), x :: r))
  /\ (forall d s y r, (length (lock_chars b T_OR) <= cap)%nat -> (d + nesting b T_OR <= MAX)%nat ->
     getsE d s (Some y, r) ->
     getsE d (lock_chars b T_OR ++ OR_TOKEN :: s) (Some (or_app (norm b) y), r)).

(** A tree that is read as a factor is a term and an expression. *)
Lemma reads_factor b :
  (forall a1 a2, b <> BOOLEXP_AND a1 a2) -> (forall a1 a2, b <> BOOLEXP_OR a1 a2) ->
  (forall o, lock_chars b o = lock_chars b T_AND /\ nesting b o = nesting b T_AND) ->
  (forall d x r, (length (lock_chars b T_AND) <= cap)%nat -> (d + nesting b T_AND <= MAX)%nat -> folF x ->
     getsF d (lock_chars b T_AND ++ x :: r) (Some (norm b), x :: r)) ->
  reads b.
Proof.
  intros Hna Hno Ho HF.
  assert (Ha : forall y, and_app (norm b) y = BOOLEXP_AND (norm b) y).
  { intros y. destruct b as [a1 a2|a1 a2| | | | | | | | ]; try done; [by destruct (Hna a1 a2)|by destruct (Hno a1 a2)]. }
  assert (Hor : forall y, or_app (norm b) y = BOOLEXP_OR (norm b) y).
  { intros y. destruct b as [a1 a2|a1 a2| | | | | | | | ]; try done; [by destruct (Hna a1 a2)|by destruct (Hno a1 a2)]. }
  assert (HTr : forall d x r, (length (lock_chars b T_AND) <= cap)%nat ->
    (d + nesting b T_AND <= MAX)%nat -> folT x ->
    getsT d (lock_chars b T_AND ++ x :: r) (Some (norm b), x :: r)).
  { intros d x r Hl Hd Hx. apply T_one; [|done]. apply HF; [done|done|by apply folT_F]. }
  destruct (Ho T_OR) as [Eo En]. split_and!.
  - intros d o x r _. destruct (Ho o) as [-> ->]. apply HF.
  - exact HTr.
  - intros d s y r Hl Hd Hy. rewrite Ha. eapply T_and; [|exact Hy]. apply HF; [done|done|right; by left].
  - rewrite Eo, En. intros d x r Hl Hd Hx. apply E_one; [|done]. apply HTr; [done|done|by apply folE_T].
  - rewrite Eo, En. intros d s y r Hl Hd Hy. rewrite Hor. eapply E_or; [|exact Hy].
    apply HTr; [done|done|right; by left].
Qed.

(** Parentheses around an expression. *)
Lemma F_parens d s b x r :
  (S d <= MAX)%nat -> getsE (S d) (s ++ RPAREN :: x :: r) (Some b, RPAREN :: x :: r) ->
  getsF d ((LPAREN :: s ++ [RPAREN]) ++ x :: r) (Some b, x :: r).
Proof.
  intros Hd HE'. cbn [app]. rewrite <- app_assoc. apply F_plain; [done|done|]. by apply L_paren.
Qed.

Lemma reads_and a b : reads a -> reads b -> reads (BOOLEXP_AND a b).
Proof.
  intros (_ & _ & HA & _) (_ & HB1 & HB2 & _).
  set (s := lock_chars a T_AND ++ AND_TOKEN :: lock_chars b T_AND).
  set (m := Nat.max (nesting a T_AND) (nesting b T_AND)).
  assert (HTr : forall d x r, (length s <= cap)%nat -> (d + m <= MAX)%nat -> folT x ->
    getsT d (s ++ x :: r) (Some (norm (BOOLEXP_AND a b)), x :: r)).
  { intros d x r Hl Hd Hx. unfold s, m in *. rewrite length_app in Hl. cbn [length] in Hl.
    rewrite <- app_assoc. apply HA; [lia|lia|]. apply HB1; [lia|lia|done]. }
  assert (HEr : forall d x r, (length s <= cap)%nat -> (d + m <= MAX)%nat -> folE x ->
    getsE d (s ++ x :: r) (Some (norm (BOOLEXP_AND a b)), x :: r)).
  { intros d x r Hl Hd Hx. apply E_one; [|done]. apply HTr; [done|done|by apply folE_T]. }
  assert (Hor : forall y, or_app (norm (BOOLEXP_AND a b)) y = BOOLEXP_OR (norm (BOOLEXP_AND a b)) y).
  { intros y. cbn. by destruct (norm a). }
  split_and!.
  - intros d o x r Hp. cbn [lock_chars nesting]. fold s m. rewrite Hp. cbn [parens length].
    rewrite length_app. intros Hl Hd Hx. apply F_parens; [lia|]. apply HEr; [lia|lia|by right].
  - exact HTr.
  - intros d s' y r Hl Hd Hy. change (lock_chars (BOOLEXP_AND a b) T_AND) with s in *.
    change (nesting (BOOLEXP_AND a b) T_AND) with m in *. cbn [norm]. rewrite <- and_app_assoc.
    unfold s, m in *. rewrite length_app in Hl. cbn [length] in Hl. rewrite <- app_assoc.
    apply HA; [lia|lia|]. apply HB2; [lia|lia|done].
  - exact HEr.
  - intros d s' y r Hl Hd Hy. rewrite Hor. eapply E_or; [|exact Hy]. apply HTr; [done|done|right; by left].
Qed.

Lemma reads_or a b : reads a -> reads b -> reads (BOOLEXP_OR a b).
Proof.
  intros (_ & _ & _ & _ & HA) (_ & _ & _ & HB1 & HB2).
  set (s := lock_chars a T_OR ++ OR_TOKEN :: lock_chars b T_OR).
  set (m := Nat.max (nesting a T_OR) (nesting b T_OR)).
  assert (HEr : forall d x r, (length s <= cap)%nat -> (d + m <= MAX)%nat -> folE x ->
    getsE d (s ++ x :: r) (Some (norm (BOOLEXP_OR a b)), x :: r)).
  { intros d x r Hl Hd Hx. unfold s, m in *. rewrite length_app in Hl. cbn [length] in Hl.
    rewrite <- app_assoc. apply HA; [lia|lia|]. apply HB1; [lia|lia|done]. }
  assert (HF : forall d o x r, paren o (BOOLEXP_OR a b) = true ->
    (length (lock_chars (BOOLEXP_OR a b) o) <= cap)%nat ->
    (d + nesting (BOOLEXP_OR a b) o <= MAX)%nat -> folF x ->
    getsF d (lock_chars (BOOLEXP_OR a b) o ++ x :: r) (Some (norm (BOOLEXP_OR a b)), x :: r)).
  { intros d o x r Hp. cbn [lock_chars nesting]. fold s m. rewrite Hp. cbn [parens length].
    rewrite length_app. intros Hl Hd Hx. apply F_parens; [lia|]. apply HEr; [lia|lia|by right]. }
  assert (Ha : forall y, and_app (norm (BOOLEXP_OR a b)) y = BOOLEXP_AND (norm (BOOLEXP_OR a b)) y).
  { intros y. cbn. by destruct (norm a). }
  split_and!.
  - exact HF.
  - intros d x r Hl Hd Hx. apply T_one; [|done]. apply HF; [done..|by apply folT_F].
  - intros d s' y r Hl Hd Hy. rewrite Ha. eapply T_and; [|exact Hy]. apply HF; [done..|right; by left].
  - exact HEr.
  - intros d s' y r Hl Hd Hy. change (lock_chars (BOOLEXP_OR a b) T_OR) with s in *.
    change (nesting (BOOLEXP_OR a b) T_OR) with m in *. cbn [norm]. rewrite <- or_app_assoc.
    unfold s, m in *. rewrite length_app in Hl. cbn [length] in Hl. rewrite <- app_assoc.
    apply HA; [lia|lia|]. apply HB2; [lia|lia|done].
Qed.

(** What stands behind the operators [=], [+] and [$]. *)
Lemma L_sub d b x r :
  is_const b || is_atr b = true -> storable b = true -> (length (lock_chars b T_OTHER) <= cap)%nat ->
  (is_const b = true -> (S d <= MAX)%nat) -> folF x ->
  getsL d (lock_chars b T_OTHER ++ x :: r) (Some b, x :: r).
Proof.
  intros Hb Hs Hl Hd Hx. destruct b; try discriminate Hb; cbn [storable lock_chars] in *.
  - apply L_dbref; [done| |by apply Hd]. revert Hl. unfold dbref_text. rewrite !length_app. cbn. lia.
  - apply L_attr; [done|by left|done|done].
Qed.

Lemma F_attr d n sep s x r :
  attr_ok n s = true -> sep = COLON \/ sep = SLASH -> (length (attr_text n sep s) <= cap)%nat ->
  (S d <= MAX)%nat -> folF x ->
  getsF d (attr_text n sep s ++ x :: r)
    (Some (if sep =? SLASH then BOOLEXP_EVAL n s else BOOLEXP_ATR n s), x :: r).
Proof.
  intros H Hsep Hl Hd Hx. pose proof (L_attr (S d) n sep s x r H Hsep Hl Hx) as HL'.
  destruct (attr_ok_inv n s H) as (ap & _ & En & _ & Hnm & _).
  destruct (attr_name_inv _ Hnm) as (_ & _ & _ & _ & y & nm' & Ey & Hy & _).
  revert HL'. unfold attr_text. rewrite En, Ey. cbn [app]. by apply F_plain.
Qed.

Lemma reads_all b : storable b = true -> reads b.
Proof.
  induction b as [b1 IH1 b2 IH2|b1 IH1 b2 IH2|b IH|t|n s|fl b IH|b IH|b IH|b IH|n s];
    cbn [storable]; intros Hs.
  - apply andb_true_iff in Hs. destruct Hs. apply reads_and; auto.
  - apply andb_true_iff in Hs. destruct Hs. apply reads_or; auto.
  - apply reads_factor; [done..|]. intros d x r. cbn [lock_chars nesting length norm].
    intros Hl Hd Hx. apply F_not; [lia|]. apply (IH Hs); [|lia|cbn [paren] in Hd; lia|done].
    by destruct b.
  - apply reads_factor; [done..|]. intros d x r. cbn [lock_chars nesting norm paren].
    intros Hl Hd Hx. unfold dbref_text in *. rewrite !length_app in Hl. cbn [length] in Hl.
    rewrite <- !app_assoc. cbn [app]. apply F_plain; [lia|done|].
    pose proof (L_dbref (S d) t (x :: r) Hs) as H. unfold dbref_text in H.
    rewrite <- !app_assoc in H. apply H; lia.
  - apply reads_factor; [done..|]. intros d x r. cbn [lock_chars nesting norm paren].
    intros Hl Hd Hx. apply (F_attr d n COLON s); [done|by left|done|lia|done].
  - rewrite !andb_true_iff in Hs. destruct Hs as [[He Hc] Hs]. destruct b; try discriminate Hc.
    apply reads_factor; [done..|]. intros d x r. cbn [lock_chars nesting norm paren length].
    rewrite length_app. intros Hl Hd Hx. apply F_indir; [done|done|lia|lia|done].
  - apply andb_true_iff in Hs. destruct Hs as [Hc Hs].
    apply reads_factor; [done..|]. intros d x r. cbn [lock_chars nesting norm paren length].
    intros Hl Hd Hx. apply F_op; [|cbn; auto|by rewrite andb_true_l|].
    { destruct (is_const b); lia. }
    apply L_sub; [done|done|lia|intros E; rewrite E in Hd; lia|done].
  - apply andb_true_iff in Hs. destruct Hs as [Hc Hs].
    apply reads_factor; [done..|]. intros d x r. cbn [lock_chars nesting norm paren length].
    intros Hl Hd Hx. apply F_op; [|cbn; auto|by rewrite andb_true_l|].
    { destruct (is_const b); lia. }
    apply L_sub; [done|done|lia|intros E; rewrite E in Hd; lia|done].
  - apply andb_true_iff in Hs. destruct Hs as [Hc Hs].
    apply reads_factor; [done..|]. intros d x r. cbn [lock_chars nesting norm paren length].
    intros Hl Hd Hx. apply F_op; [lia|cbn; auto|by rewrite Hc|].
    apply L_sub; [by rewrite Hc|done|lia|lia|done].
  - apply reads_factor; [done..|]. intros d x r. cbn [lock_chars nesting norm paren].
    intros Hl Hd Hx. apply (F_attr d n SLASH s); [done|by right|done|lia|done].
Qed.

(** ** The text is a text *)

Definition text_ok (s : bytes) : Prop := text s /\ lead_ok s = true.

Lemma text_ok_nil : text_ok [].
Proof. split; [constructor|done]. Qed.

Lemma text_ok_app a b : text_ok a -> text_ok b -> text_ok (a ++ b).
Proof. intros [H1 H2] [H3 H4]. split; [by apply Forall_app|by apply lead_ok_app]. Qed.

Lemma text_ok_cons c a : in_rng 1 127 c = true -> text_ok a -> text_ok (c :: a).
Proof.
  intros Hc Ha. apply (text_ok_app [c]); [|done]. apply in_rng_true in Hc. split.
  - apply Forall_singleton. lia.
  - apply lead_ok_ascii. cbn. rewrite andb_true_r. apply in_rng_true. lia.
Qed.

Lemma text_ok_rng lo hi s : 1 <= lo -> hi <= 127 -> forallb (in_rng lo hi) s = true -> text_ok s.
Proof.
  intros Hlo Hhi. induction s as [|c s IH]; cbn [forallb]; intros H; [apply text_ok_nil|].
  apply andb_true_iff in H. destruct H as [Hc Hs]. apply text_ok_cons; [|auto].
  apply in_rng_true in Hc. apply in_rng_true. lia.
Qed.

Lemma value_text s : value_ok s = true -> text s.
Proof.
  unfold value_ok, text. rewrite forallb_forall, Forall_forall. intros H c Hc.
  apply list_elem_of_In in Hc. specialize (H c Hc). apply andb_true_iff in H.
  destruct H as [H _]. by apply negb_true_iff, Z.eqb_neq in H.
Qed.

Lemma attr_text_ok n sep s :
  attr_ok n s = true -> in_rng 1 127 sep = true -> text_ok (attr_text n sep s).
Proof.
  intros H Hsep. destruct (attr_ok_inv n s H) as (ap & _ & En & _ & Hnm & Hs & _).
  unfold attr_text. rewrite En. destruct (attr_name_inv _ Hnm) as (H1 & _ & _ & H2 & _).
  destruct (attr_value_inv _ Hs) as (H3 & _ & _ & H4).
  apply text_ok_app; [split; [by apply value_text|done]|].
  apply text_ok_cons; [done|]. split; [by apply value_text|done].
Qed.

Lemma dbref_text_ok t : dbref_ok t = true -> text_ok (dbref_text t).
Proof.
  intros Ht. destruct (dec_text t [] (dbref_ok_range t Ht) eq_refl) as (_ & Hd & _).
  unfold dbref_text. apply text_ok_app; [by apply (text_ok_rng 1 127)|].
  apply text_ok_app; [|by apply (text_ok_rng 1 127)]. by apply (text_ok_rng 48 57).
Qed.

Lemma parens_ok c s : text_ok s -> text_ok (parens c s).
Proof.
  destruct c; [|done]. intros H. apply text_ok_cons; [done|].
  apply text_ok_app; [done|by apply (text_ok_rng 1 127)].
Qed.

Lemma lock_text_ok fl : text_ok (lock_text fl).
Proof.
  unfold lock_text. destruct (fl =? A_LOCK); [apply text_ok_nil|].
  destruct (find _ lock_sw) as [nt|] eqn:E; [|apply text_ok_nil]. apply lock_sw_ascii in E.
  destruct E as (_ & _ & Hf & _). apply text_ok_cons; [done|]. by apply (text_ok_rng 97 122).
Qed.

Lemma lock_chars_ok b o : storable b = true -> text_ok (lock_chars b o).
Proof.
  revert o. induction b as [b1 IH1 b2 IH2|b1 IH1 b2 IH2|b IH|t|n s|fl b IH|b IH|b IH|b IH|n s];
    cbn [storable lock_chars]; intros o Hs;
    rewrite ?andb_true_iff in Hs; destruct_and? Hs;
    repeat first [ solve [auto using attr_text_ok, dbref_text_ok, lock_text_ok]
                 | apply parens_ok | apply text_ok_app | apply text_ok_cons; [done|] ].
Qed.

End Read.

(** ** A stored lock *)

Section Stored.
Context {HC : Config} {HP : Powers} {HT : CaseTable} {HL : CaseLaws} {HE : LockEnv} {HN : ObjectNames}.

Lemma lock_chars_start b o : storable b = true -> lock_chars b o <> [].
Proof.
  intros Hs. destruct b; cbn [lock_chars]; try done.
  - rewrite parens_app. destruct (paren _ _); [done|]. by destruct (lock_chars b1 T_AND).
  - rewrite parens_app. destruct (paren _ _); [done|]. by destruct (lock_chars b1 T_OR).
  - cbn in Hs. destruct (attr_ok_inv _ _ Hs) as (ap & _ & En & _). unfold attr_text. rewrite En.
    by destruct (a_name ap).
  - cbn in Hs. destruct (attr_ok_inv _ _ Hs) as (ap & _ & En & _). unfold attr_text. rewrite En.
    by destruct (a_name ap).
Qed.

(** In a stored lock an operand stands wherever one is expected. *)
Lemma operands_plain s r :
  forallb (fun c => negb (ends_name c)) s = true -> operands false (s ++ r) = operands false r.
Proof.
  induction s as [|c s IH]; [done|]. cbn [forallb app operands]. intros [Hc Hs]%andb_prop.
  assert ((c =? AND_TOKEN) || (c =? OR_TOKEN) = false) as -> by (unfold ends_name in Hc; lia). auto.
Qed.

Lemma value_plain s : value_ok s = true -> forallb (fun c => negb (ends_name c)) s = true.
Proof.
  unfold value_ok. rewrite !forallb_forall. intros H c Hc. specialize (H c Hc). by apply andb_prop in H as [_ H].
Qed.

Lemma operands_attr n sep s r :
  attr_ok n s = true -> ends_name sep = false -> operands true (attr_text n sep s ++ r) = operands false r.
Proof.
  intros H Hsep. destruct (attr_ok_inv n s H) as (ap & _ & En & _ & Hnm & Hs & _).
  unfold attr_text. rewrite En. destruct (attr_name_inv _ Hnm) as (H1 & H2 & _ & _ & y & nm & E & Hy & Hl).
  destruct (attr_value_inv _ Hs) as (H3 & _). apply value_plain in H1, H3. rewrite E in *.
  cbn [forallb app operands] in *. apply andb_prop in H1 as [Hy1 H1]. apply andb_prop in H2 as [Hy2 _].
  assert (Hp : is_prefix y = false /\ mux_isspace y = false).
  { unfold plain_start in Hy. apply negb_true_iff in Hy. rewrite !orb_false_iff in Hy.
    unfold is_prefix. rewrite !orb_false_iff. tauto. }
  destruct Hp as [Hp1 Hp2]. apply negb_true_iff in Hy1, Hy2. apply orb_false_iff in Hy2 as [_ Hy2].
  rewrite Hp1, Hp2, Hy1, Hy2. cbn [orb].
  rewrite <- app_assoc. rewrite operands_plain by done. cbn [app operands].
  assert ((sep =? AND_TOKEN) || (sep =? OR_TOKEN) = false) as -> by (unfold ends_name in Hsep; lia).
  by rewrite operands_plain.
Qed.

Lemma operands_dbref t r : dbref_ok t = true -> operands true (dbref_text t ++ r) = operands false r.
Proof.
  intros Ht. destruct (dec_text t [] (dbref_ok_range t Ht) eq_refl) as (_ & Hd & _).
  unfold dbref_text. rewrite <- !app_assoc. cbn.
  by rewrite operands_plain by (by apply value_plain, digits_value_ok).
Qed.

Lemma operands_parens c s r :
  (forall r, operands true (s ++ r) = operands false r) -> operands true (parens c s ++ r) = operands false r.
Proof. 
  intros H. destruct c; [|apply H]. change (operands true ((s ++ [RPAREN]) ++ r) = operands false r).
  by rewrite <- app_assoc, H.
Qed.

Lemma operands_lock_text fl r : operands false (lock_text fl ++ r) = operands false r.
Proof.
  apply operands_plain, value_plain. unfold lock_text. destruct (fl =? A_LOCK); [done|].
  destruct (find _ lock_sw) as [nt|] eqn:E; [|done]. apply lock_sw_ascii in E.
  destruct E as (_ & _ & Hf & _). unfold value_ok. cbn [forallb]. apply andb_true_iff. split; [done|].
  rewrite forallb_forall in Hf |- *. intros c Hc. specialize (Hf c Hc). apply in_rng_true in Hf.
  unfold ends_name, AND_TOKEN, OR_TOKEN, RPAREN. lia.
Qed.

Lemma lock_chars_operands b o r :
  storable b = true -> operands true (lock_chars b o ++ r) = operands false r.
Proof.
  revert o r. induction b as [b1 IH1 b2 IH2|b1 IH1 b2 IH2|b IH|t|n s|fl b IH|b IH|b IH|b IH|n s];
    cbn [storable lock_chars]; intros o r Hs; rewrite ?andb_true_iff in Hs; destruct_and? Hs;
    try (apply operands_parens; intros r'; rewrite <- app_assoc, IH1 by done; cbn; by apply IH2);
    try (by apply operands_attr); try (by apply operands_dbref); try (by apply IH).
  change (operands true ((lock_chars b T_OTHER ++ lock_text fl) ++ r) = operands false r).
  rewrite <- app_assoc, IH by done. apply operands_lock_text.
Qed.

Lemma lock_chars_fed b o : storable b = true -> fed true (lock_chars b o).
Proof. intros Hs. right. rewrite <- (app_nil_r (lock_chars b o)). by apply lock_chars_operands. Qed.

(** [parse_boolexp] has the fuel to come to the result of the rules. *)
Lemma parse_gets stale player internal s ob p :
  fed true s -> store_ok stale -> text_ok s -> s <> [] -> (length s < cap)%nat ->
  getsE player internal 0 (s ++ 0 :: drop (S (length s)) stale) (ob, p) ->
  parse_boolexp stale player s internal = Ok ob.
Proof.
  intros Hbe [Hsl Hsz] [Ht Hl] Hne Hlen [n En]. unfold cap in Hlen. unfold parse_boolexp.
  assert (H0 : (chr_at s 0 =? 0) = false).
  { destruct s as [|c s']; [done|]. apply Z.eqb_neq. by apply Forall_inv in Ht. }
  rewrite H0.
  assert (Hps : parsestore stale s = s ++ 0 :: drop (S (length s)) stale).
  { unfold parsestore. rewrite Nat.min_l, take_ge by lia. done. }
  rewrite Hps. set (st := drop (S (length s)) stale) in *.
  destruct (parses_all player internal (parse_fuel s)) as [G _].
  assert (Hg : good s st (parse_boolexp_E player internal (parse_fuel s) 0 (s ++ 0 :: st))).
  { apply G; [|by unfold parse_fuel]. split_and!; [done..|lia| |done]. right. apply skip_ws_last.
    unfold st. by rewrite last_drop by lia. }
  destruct (Nat.le_ge_cases n (parse_fuel s)) as [Hle|Hle].
  { by rewrite (PE_up player internal _ _ _ _ _ En Hle). }
  destruct (parse_boolexp_E player internal (parse_fuel s) 0 (s ++ 0 :: st)) as [r| |] eqn:Er;
    [|by destruct Hg..].
  rewrite (PE_up player internal _ _ _ _ _ Er Hle) in En. injection En as ->. done.
Qed.

Lemma parse_lock_chars stale player b :
  store_ok stale ->
  storable b = true -> (length (lock_chars b T_CONST) < cap)%nat ->
  (nesting b T_CONST <= LOCK_PARSE_MAX_DEPTH)%nat ->
  parse_boolexp stale player (lock_chars b T_CONST) true = Ok (Some (norm b)).
Proof.
  intros Hst Hs Hlen Hn.
  assert (Hsa : bStandAlone || true = true) by (by destruct bStandAlone).
  assert (Hch : lock_chars b T_CONST = lock_chars b T_OR /\ nesting b T_CONST = nesting b T_OR).
  { by destruct b. }
  destruct Hch as [Ec En]. eapply parse_gets; try done.
  - by apply lock_chars_fed.
  - by apply lock_chars_ok.
  - by apply lock_chars_start.
  - destruct (reads_all player true Hsa b Hs) as (_ & _ & _ & HE' & _). rewrite Ec in *.
    apply HE'; [lia|by rewrite <- En|by left].
Qed.

(** C6: A lock is stored as text without loss: the text that [unparse_boolexp_quiet] writes,
    when it fits its buffer and does not nest deeper than the parser goes, is parsed to the
    same tree, up to the association of chains of [&] and of [|], whoever the reader is.  The
    tree may hold every kind of node, the attributes exist, and the objects are in the
    database. *)
Theorem stored_lock_roundtrip stale viewer reader b :
  store_ok stale ->
  storable b = true -> (length (lock_chars b T_CONST) < cap)%nat ->
  (nesting b T_CONST <= LOCK_PARSE_MAX_DEPTH)%nat ->
  exists s, unparse_boolexp viewer F_QUIET (Some b) = Some s
    /\ parse_boolexp stale reader s true = Ok (Some (norm b)).
Proof.
  intros Hst Hs Hlen Hn. exists (lock_chars b T_CONST). split.
  - cbn [unparse_boolexp]. rewrite unparse_text by (done || cbn; lia). done.
  - by apply parse_lock_chars.
Qed.

(** [n] negations. *)
Fixpoint nots (n : nat) (b : BOOLEXP) : BOOLEXP :=
  match n with O => b | S n => BOOLEXP_NOT (nots n b) end.

Lemma F_nots player internal m d s b r :
  (d + m <= LOCK_PARSE_MAX_DEPTH)%nat -> getsF player internal (d + m) s (Some b, r) ->
  getsF player internal d (replicate m NOT_TOKEN ++ s) (Some (nots m b), r).
Proof.
  revert d. induction m as [|m IH]; intros d Hd H; cbn [replicate app nots].
  - by rewrite Nat.add_0_r in H.
  - apply F_not; [lia|]. apply IH; [lia|]. by replace (S d + m)%nat with (d + S m)%nat by lia.
Qed.

Lemma F_nots_none player internal m d s p :
  (d + m <= LOCK_PARSE_MAX_DEPTH)%nat -> getsF player internal (d + m) s (None, p) ->
  getsF player internal d (replicate m NOT_TOKEN ++ s) (None, p).
Proof.
  revert d. induction m as [|m IH]; intros d Hd H; cbn [replicate app].
  - by rewrite Nat.add_0_r in H.
  - destruct (IH (S d)) as [n Hn]; [lia|by replace (S d + m)%nat with (d + S m)%nat by lia|].
    exists (S n). rewrite F_start by (done || lia). cbn. by rewrite Hn.
Qed.

(** At the limit there is no room for the parentheses of an object. *)
Lemma F_dbref_full player internal d t r :
  S d = LOCK_PARSE_MAX_DEPTH ->
  getsF player internal d (dbref_text t ++ r) (None, NUMBER_TOKEN :: dec t ++ RPAREN :: r).
Proof.
  intros Hd. unfold dbref_text. rewrite <- !app_assoc. cbn [app].
  apply F_plain; [lia|done|]. exists 4%nat.
  change (parse_boolexp_L player internal 4 (S d)) with
    (L_body player internal (E_body (T_body (parse_boolexp_F player internal 1 (S d))
       (parse_boolexp_T player internal 1 (S d))) (parse_boolexp_E player internal 2 (S d)))).
  unfold L_body. rewrite skip_ws_id by done. cbn [mbind run_bind deref]. rewrite Z.eqb_refl.
  unfold E_body, T_body. cbn [tail]. rewrite F_full by done. done.
Qed.

Lemma not_nil_app_r {A} (a b : list A) : b <> [] -> a ++ b <> [].
Proof. by destruct a, b. Qed.

(** An object as a player names it. *)
Lemma L_typed player d t r :
  bStandAlone = false -> dbref_ok t = true -> (length (dec t) < cap)%nat ->
  match_result player (NUMBER_TOKEN :: dec t) = t ->
  getsL player false d (NUMBER_TOKEN :: dec t ++ 0 :: r) (Some (BOOLEXP_CONST t), 0 :: r).
Proof.
  intros Hsa Ht Hl Hm.
  destruct (dec_text t [] (dbref_ok_range t Ht) eq_refl) as (_ & Hd & _).
  apply (L_name player false d (NUMBER_TOKEN :: dec t)); [|by left|].
  - unfold name_text. split_and!.
    + unfold value_ok. cbn [forallb]. apply andb_true_iff. split; [done|]. by apply digits_value_ok.
    + by apply rstrip_digits.
    + cbn. lia.
    + eexists _, _. done.
  - unfold test_atr, mux_strncpy. unfold cap in Hl. rewrite take_ge by (cbn; lia).
    rewrite digits_no_separator by done. cbn [mbind run_bind].
    unfold object_ref. rewrite Hsa, Hm. cbn [negb].
    pose proof (dbref_ok_range t Ht). unfold NOTHING, AMBIGUOUS.
    replace (t =? -1) with false by lia. by replace (t =? -2) with false by lia.
Qed.

Lemma nots_text player n t :
  dbref_ok t = true -> (n + length (dbref_text t) <= cap)%nat ->
  unparse_boolexp player F_QUIET (Some (nots n (BOOLEXP_CONST t)))
  = Some (replicate n NOT_TOKEN ++ dbref_text t).
Proof.
  intros Ht Hl.
  assert (Hc : forall o, lock_chars (nots n (BOOLEXP_CONST t)) o = replicate n NOT_TOKEN ++ dbref_text t).
  { induction n as [|n IH]; intros o; [done|]. cbn. rewrite IH; [done|lia]. }
  assert (Hs : storable (nots n (BOOLEXP_CONST t)) = true) by (clear Hl Hc; by induction n).
  cbn [unparse_boolexp]. rewrite unparse_text; [by rewrite Hc|done|].
  rewrite Hc, length_app, length_replicate. done.
Qed.

Lemma nots_fed n s : operands true s = true -> fed true (replicate n NOT_TOKEN ++ s).
Proof. intros H. right. by induction n. Qed.

Lemma nots_text_ok n s : text_ok s -> text_ok (replicate n NOT_TOKEN ++ s).
Proof. intros H. induction n; [done|]. by apply text_ok_cons. Qed.

(** A lock can be nested too deeply to be stored.  1,023 negations of an object are accepted
    when a player sets them; in the stored text the object is in parentheses, which are one level
    more than the parser goes, and the stored text parses to [TRUE_BOOLEXP], which every player
    passes. *)
Theorem stored_lock_too_deep stale player t :
  store_ok stale -> bStandAlone = false ->
  dbref_ok t = true -> 1100 < Z.of_nat cap -> match_result player (NUMBER_TOKEN :: dec t) = t ->
  parse_boolexp stale player (replicate (Z.to_nat 1023) NOT_TOKEN ++ NUMBER_TOKEN :: dec t) false
    = Ok (Some (nots (Z.to_nat 1023) (BOOLEXP_CONST t)))
  /\ exists s, unparse_boolexp player F_QUIET (Some (nots (Z.to_nat 1023) (BOOLEXP_CONST t))) = Some s
       /\ forall reader, parse_boolexp stale reader s true = Ok TRUE_BOOLEXP.
Proof.
  intros Hst Hsa Ht Hcap Hm.
  destruct (dec_text t [] (dbref_ok_range t Ht) eq_refl) as (_ & Hd & _ & Hdl & _).
  assert (Hl : length (dbref_text t) = (3 + length (dec t))%nat).
  { unfold dbref_text. rewrite !length_app. cbn. lia. }
  assert (Hmax : (0 + Z.to_nat 1023 < LOCK_PARSE_MAX_DEPTH)%nat) by (unfold LOCK_PARSE_MAX_DEPTH; lia).
  split.
  - eapply parse_gets; [|done|..].
    + apply nots_fed. cbn. rewrite <- (app_nil_r (dec t)).
      by rewrite operands_plain by (by apply value_plain, digits_value_ok).
    + apply nots_text_ok, text_ok_cons; [done|]. by apply (text_ok_rng 48 57).
    + by apply not_nil_app_r.
    + rewrite length_app, length_replicate. cbn [length]. lia.
    + apply E_one; [|by left]. apply T_one; [|by left]. rewrite <- app_assoc. cbn [app].
      apply F_nots; [lia|]. apply F_plain; [lia|done|].
      apply L_typed; [done|done|lia|done].
  - exists (replicate (Z.to_nat 1023) NOT_TOKEN ++ dbref_text t). split.
    + apply nots_text; [done|lia].
    + intros reader. eapply parse_gets; [|done|..].
      * apply nots_fed. rewrite <- (app_nil_r (dbref_text t)). by apply operands_dbref.
      * apply nots_text_ok. by apply dbref_text_ok.
      * by apply not_nil_app_r.
      * rewrite length_app, length_replicate. lia.
      * apply E_none. rewrite <- app_assoc. apply F_nots_none; [lia|].
        apply F_dbref_full. unfold LOCK_PARSE_MAX_DEPTH. lia.
Qed.

End Stored.

(** ** What is lost *)

Section Overrun.
Context {HC : Config} {HP : Powers} {HT : CaseTable} {HE : LockEnv}.
Variables (player : dbref) (internal : bool).

#[local] Abbreviation PE := (parse_boolexp_E player internal).
#[local] Abbreviation L := (L_body player internal).

(** What a name stands for, [None] for nothing. *)
Definition operand (nm : bytes) : run (option BOOLEXP) :=
  b ← test_atr player nm;
  match b with Some _ => Ok b | None => object_ref player internal nm end.

(** From [parse_boolexp_E] to [parse_boolexp_L], where no prefix comes first. *)
Lemma E_from_L k d x s :
  (S d <= LOCK_PARSE_MAX_DEPTH)%nat -> plain_start x = true ->
  match L (PE k (S d)) (x :: s) with
  | Ok (Some b, [0]) => PE (4 + k) d (x :: s) = Ok (Some b, [0])
  | Ok (None, p) => PE (4 + k) d (x :: s) = Ok (None, p)
  | Oob => PE (4 + k) d (x :: s) = Oob
  | _ => True
  end.
Proof.
  intros Hd Hx.
  assert (HF : parse_boolexp_F player internal (2 + k) d (x :: s) = L (PE k (S d)) (x :: s)).
  { unfold plain_start in Hx. apply negb_true_iff in Hx. rewrite !orb_false_iff in Hx. cbn [Nat.add].
    rewrite F_start by tauto. destruct Hx as [[[[[_ ->] ->] ->] ->] ->]. done. }
  change (PE (4 + k) d (x :: s)) with (E_body (T_body (parse_boolexp_F player internal (2 + k) d)
    (parse_boolexp_T player internal (2 + k) d)) (PE (3 + k) d) (x :: s)).
  unfold E_body, T_body. rewrite HF. destruct (L _ _) as [[[b|] p]| |]; try done.
  destruct p as [|y [|z p]]; try done; by destruct y.
Qed.

(** A name that runs to the NUL, with the spaces behind it. *)
Lemma L_rest k d s b :
  value_ok s = true -> (length s < LBUF_SIZE)%nat ->
  match s with x :: _ => plain_start x = true /\ (x =? LPAREN) = false | [] => False end ->
  operand (rstrip s) = Ok (Some b) -> L (PE k d) (s ++ [0]) = Ok (Some b, [0]).
Proof.
  intros Hv Hl Hs Ho. destruct s as [|x s]; [done|]. destruct Hs as [Hx Hp].
  assert (Hsp : mux_isspace x = false).
  { unfold plain_start in Hx. apply negb_true_iff in Hx. rewrite !orb_false_iff in Hx. tauto. }
  unfold L_body. cbn [app]. rewrite skip_ws_id by done. cbn [mbind run_bind deref]. rewrite Hp.
  change (x :: s ++ [0]) with ((x :: s) ++ [0]). unfold read_name.
  rewrite name_run_stops; [|done|lia|by left]. cbn [mbind run_bind].
  rewrite (proj2 (Nat.eqb_neq _ _)) by lia.
  rewrite bool_decide_false by (by apply rstrip_nonempty).
  cbn [andb mbind run_bind]. unfold operand in Ho.
  destruct (test_atr player _) as [[b'|]| |]; cbn [mbind run_bind] in *; try discriminate.
  - by injection Ho as <-.
  - by rewrite Ho.
Qed.

Lemma L_open k d p :
  L (PE k d) (LPAREN :: p) =
    '(b, p) ← PE k d p; p ← skip_whitespace p;
    match b with
    | None => Ok (TRUE_BOOLEXP, p)
    | Some _ => c ← deref p; if negb (c =? RPAREN) then Ok (TRUE_BOOLEXP, tail p) else Ok (b, tail p)
    end.
Proof. done. Qed.

(** [n] open parentheses before such a name, and nothing behind its NUL. *)
Lemma E_open n f d s b :
  (d + n < LOCK_PARSE_MAX_DEPTH)%nat -> value_ok s = true -> (length s < LBUF_SIZE)%nat ->
  match s with x :: _ => plain_start x = true /\ (x =? LPAREN) = false | [] => False end ->
  operand (rstrip s) = Ok (Some b) ->
  PE (4 * S n + f) d (replicate n LPAREN ++ s ++ [0]) =
    match n with O => Ok (Some b, [0]) | S O => Ok (None, []) | S (S _) => Oob end.
Proof.
  intros Hd Hv Hl Hs Ho. revert d Hd. induction n as [|n IH]; intros d Hd.
  - destruct s as [|x s]; [done|]. pose proof (L_rest f (S d) (x :: s) b Hv Hl Hs Ho) as HR.
    destruct Hs as [Hx _]. pose proof (E_from_L f d x (s ++ [0]) ltac:(lia) Hx) as H.
    change (x :: s ++ [0]) with ((x :: s) ++ [0]) in H. rewrite HR in H. exact H.
  - replace (4 * S (S n) + f)%nat with (4 + (4 * S n + f))%nat by lia. cbn [replicate app].
    pose proof (E_from_L (4 * S n + f) d LPAREN (replicate n LPAREN ++ s ++ [0]) ltac:(lia) eq_refl) as H.
    rewrite L_open, IH in H by lia. by destruct n as [|[|n]].
Qed.

(** C35: The bound of [parse_boolexp_safe] is sharp.  On a key of [LBUF_SIZE - 1] bytes that is a
    name, with spaces behind it as may be, an unclosed parenthesis before it is noticed and makes
    the lock no lock; but with two or more [parse_boolexp_L] has stepped over the NUL in search of
    the innermost closing parenthesis, and its caller reads the byte behind [parsestore].  That is so
    of every size of the buffer, whatever it held before, and of every name that stands for
    something. *)
Theorem parse_boolexp_overrun stale n s b :
  length stale = LBUF_SIZE -> (n + length s = LBUF_SIZE - 1)%nat -> (n < LOCK_PARSE_MAX_DEPTH)%nat ->
  value_ok s = true ->
  match s with x :: _ => plain_start x = true /\ (x =? LPAREN) = false | [] => False end ->
  operand (rstrip s) = Ok (Some b) ->
  parse_boolexp stale player (replicate n LPAREN ++ s) internal =
    match n with O => Ok (Some b) | S O => Ok TRUE_BOOLEXP | S (S _) => Oob end.
Proof.
  intros Hst Hlen Hn Hv Hs Ho. unfold parse_boolexp.
  assert (Hsn : s <> []) by (by intros ->).
  assert (Hf : (length (replicate n LPAREN ++ s) = LBUF_SIZE - 1)%nat) by (by rewrite length_app, length_replicate).
  assert (0 < length s)%nat by (destruct s; [done|cbn; lia]).
  assert ((chr_at (replicate n LPAREN ++ s) 0 =? 0) = false) as ->.
  { destruct n; [|done]. destruct s as [|x s']; [done|]. cbn in Hv. destruct (x =? 0) eqn:E; [done|done]. }
  unfold parsestore, parse_fuel. rewrite Nat.min_r, Hf, take_ge, drop_ge by lia. rewrite <- app_assoc.
  replace (4 * (LBUF_SIZE - 1) + 4)%nat with (4 * S n + 4 * length s)%nat by lia.
  rewrite (E_open n _ 0 s b) by (done || lia). by destruct n as [|[|n]].
Qed.

End Overrun.

Definition zeros : bytes := replicate (Z.to_nat 32768) 0.

(** [((#1] and spaces, in a buffer of the default size. *)
Definition full_name : bytes := [NUMBER_TOKEN; 49] ++ replicate (Z.to_nat 32763) 32.

Lemma parse_boolexp_overrun_witness :
  parse_boolexp (HC := default_config) (HP := no_powers) (HT := ascii_case) (HE := small_env false)
    zeros 2 (replicate 2 LPAREN ++ full_name) true = Oob.
Proof.
  apply (parse_boolexp_overrun (HC := default_config) (HP := no_powers) (HT := ascii_case)
    (HE := small_env false) 2 true zeros 2 full_name (BOOLEXP_CONST 1)).
  - apply length_replicate.
  - apply Nat.eqb_eq. vm_compute. reflexivity.
  - apply Nat.ltb_lt. vm_compute. reflexivity.
  - vm_compute. reflexivity.
  - split; reflexivity.
  - vm_compute. reflexivity.
Defined.

(** [sex:aaa...a|me|me|me|me|me], and the tree of it. *)
Definition long_value : bytes := replicate (Z.to_nat 32740) 97.
Definition long_key : bytes :=
  [115; 101; 120; COLON] ++ long_value ++ mjoin (replicate 5 [OR_TOKEN; 109; 101]).
Definition long_lock : BOOLEXP :=
  let me := BOOLEXP_CONST 1 in
  BOOLEXP_OR (BOOLEXP_ATR 6 long_value)
    (BOOLEXP_OR me (BOOLEXP_OR me (BOOLEXP_OR me (BOOLEXP_OR me me)))).

Definition no_names : ObjectNames :=
  {| unparse_object _ _ := []; Typeof _ := 1; Name _ := [] |}.

(** A lock can be too long to be stored.  A key of 32,759 bytes is accepted by the parser
    when a player sets it; objects take more room in the stored text, which fills the buffer and
    ends inside an object; and the stored text is no lock any more: it parses to [TRUE_BOOLEXP],
    which every player passes. *)
Theorem stored_lock_truncated :
  parse_boolexp (HC := default_config) (HP := no_powers) (HT := ascii_case) (HE := small_env false)
    zeros 2 long_key false = Ok (Some long_lock)
  /\ (s ← unparse_boolexp (HC := default_config) (HE := small_env false) (HN := no_names)
            2 F_QUIET (Some long_lock);
      Some (Nat.eqb (length s) (Z.to_nat 32767), parse_boolexp (HC := default_config)
        (HP := no_powers) (HT := ascii_case) (HE := small_env false) zeros 2 s true))
     = Some (true, Ok TRUE_BOOLEXP).
Proof.
  split.
  - vm_cast_no_check (eq_refl (Ok (Some long_lock))).
  - vm_compute. reflexivity.
Qed.

(** ** Examples *)

Definition config256 : Config := {| LBUF_SIZE := 256 |}.
Definition config2000 : Config := {| LBUF_SIZE := Z.to_nat 2000 |}.

(** [(@(#5)/uselock|=SEX:f)&(!(#7)&SEX/x)], associated to the left. *)
Definition sample_lock : BOOLEXP :=
  BOOLEXP_AND
    (BOOLEXP_AND
       (BOOLEXP_OR (BOOLEXP_INDIR 62 (BOOLEXP_CONST 5)) (BOOLEXP_IS (BOOLEXP_ATR 6 [102])))
       (BOOLEXP_NOT (BOOLEXP_CARRY (BOOLEXP_CONST 7))))
    (BOOLEXP_EVAL 6 [120]).

Lemma stored_lock_roundtrip_witness :
  exists s, unparse_boolexp (HC := config256) (HE := small_env false) (HN := no_names) 2 F_QUIET
      (Some sample_lock) = Some s
    /\ parse_boolexp (HC := config256) (HP := no_powers) (HT := ascii_case) (HE := small_env false)
         (replicate 256 0) 3 s true = Ok (Some (norm sample_lock))
    /\ norm sample_lock <> sample_lock.
Proof.
  destruct (stored_lock_roundtrip (HC := config256) (HP := no_powers) (HT := ascii_case)
    (HL := ascii_laws) (HE := small_env false) (HN := no_names) (replicate 256 0) 2 3 sample_lock)
    as (s & Hu & Hp).
  - split; reflexivity.
  - vm_compute. reflexivity.
  - apply Nat.ltb_lt. vm_compute. reflexivity.
  - apply Nat.leb_le. vm_compute. reflexivity.
  - exists s. split; [exact Hu|]. split; [exact Hp|]. vm_compute. discriminate.
Defined.

Lemma stored_lock_too_deep_witness :
  exists s, unparse_boolexp (HC := config2000) (HE := small_env false) (HN := no_names) 2 F_QUIET
      (Some (nots (Z.to_nat 1023) (BOOLEXP_CONST 7))) = Some s
    /\ forall reader, parse_boolexp (HC := config2000) (HP := no_powers) (HT := ascii_case)
         (HE := small_env false) (replicate (Z.to_nat 2000) 0) reader s true = Ok TRUE_BOOLEXP.
Proof.
  refine (proj2 (stored_lock_too_deep (HC := config2000) (HP := no_powers) (HT := ascii_case)
    (HL := ascii_laws) (HE := small_env false) (HN := no_names) (replicate (Z.to_nat 2000) 0) 2 7
    _ _ _ _ _)).
  - split; [apply length_replicate | vm_compute; reflexivity].
  - reflexivity.
  - vm_compute. reflexivity.
  - vm_compute. reflexivity.
  - vm_compute. reflexivity.
Defined.
