(* ===== verification/BoolEval.v ===== *)
(** * What a lock decides: [eval_boolexp] of [src/mux/modules/engine/boolexp.cpp]

    The evaluator of locks, over the state it shares with the rest of the server: the nesting
    level of indirect locks, the buffer of the parser, the database.  Messages and log entries
    are not modelled; the attribute table and the size of the database are those of [LockEnv]. *)

From S2P Require Import Prelude Machine Decimal StringUtil NameTab BoolExp BoolSafe BoolText BoolRound.

(** ** State and environment *)

Record mudstate (W : Type) := {
  lock_nest_lev : Z;
  store : bytes;      (** [parsestore] *)
  world : W           (** the database and everything else *)
}.
Arguments lock_nest_lev {W}.
Arguments store {W}.
Arguments world {W}.

Definition AF_NOEVAL : Z := 0x100000.

(** What the evaluator asks of the server.  [Contents] and [Next] are the links of the
    database; [mux_exec] runs softcode, which may do anything. *)
Class Game (W : Type) := {
  Contents : W -> dbref -> dbref;
  Next : W -> dbref -> dbref;
  Owner : W -> dbref -> dbref;
  atr_get : W -> dbref -> Z -> bytes;
  atr_pget : W -> dbref -> Z -> bytes * Z;
  See_attr : W -> dbref -> dbref -> ATTR -> bool;
  bCanReadAttr : W -> dbref -> dbref -> ATTR -> bool;
  NoEval : W -> dbref -> bool;
  alarmed : W -> bool;
  wild_match : bytes -> bytes -> bool;
  mux_exec : bytes -> dbref -> dbref -> Z -> mudstate W -> mudstate W * bytes;
      (** text, source, player, attribute flags; with the registers put back *)
  space_compress : bool;
  lock_nest_lim : Z
}.

Section Eval.
Context {HC : Config} {HP : Powers} {HT : CaseTable} {HE : LockEnv} {W : Type} {HG : Game W}.

(** [DOLIST] with a test that ends it. *)
Fixpoint dolist (fuel : nat) (w : W) (P : dbref -> bool) (thing : dbref) : run bool :=
  match fuel with
  | O => NoFuel
  | S fuel =>
      if (thing =? NOTHING) || (Next w thing =? thing) then Ok false
      else if P thing then Ok true
      else dolist fuel w P (Next w thing)
  end.

Definition list_fuel : nat := S (Z.to_nat db_top).

Definition member (w : W) (thing list : dbref) : run bool :=
  dolist list_fuel w (fun o => o =? thing) list.

Definition check_attr (w : W) (player lockobj : dbref) (attr : ATTR) (key : bytes) : bool :=
  let buff := fst (atr_pget w player (a_number attr)) in
  let bCheck :=
    if a_number attr =? A_LENTER then true
    else if See_attr w lockobj player attr then true
    else if a_number attr =? A_NAME then true
    else false in
  if bCheck && negb (wild_match key buff) then false else bCheck.

Definition with_lev (n : Z) (st : mudstate W) : mudstate W :=
  {| lock_nest_lev := n; store := store st; world := world st |}.
Definition with_store (s : bytes) (st : mudstate W) : mudstate W :=
  {| lock_nest_lev := lock_nest_lev st; store := s; world := world st |}.

Definition evaluator : Type := dbref -> dbref -> dbref -> mudstate W -> run (bool * mudstate W).

(** The attribute and value that a node for [IS] or [CARRY] is about. *)
Definition attr_node (b : BOOLEXP) : run (Z * bytes) :=
  match b with
  | BOOLEXP_ATR n s | BOOLEXP_EVAL n s => Ok (n, s)
  | _ => Oob
  end.

(** The [thing] field of a node; AND, OR and the other operators leave it unset. *)
Definition thing_of (b : BOOLEXP) : run dbref :=
  match b with
  | BOOLEXP_CONST t | BOOLEXP_ATR t _ | BOOLEXP_EVAL t _ | BOOLEXP_INDIR t _ => Ok t
  | _ => Oob
  end.

Definition eval_attr (n : Z) (s : bytes) : evaluator := fun player thing from st =>
  let w := world st in
  match atr_num n with
  | None => Ok (false, st)
  | Some a =>
      if alarmed w then Ok (false, st)
      else
        let '(lbuff, aflags) := atr_pget w from (a_number a) in
        let '(lbuff, aflags, source) :=
          match lbuff with
          | [] => (atr_pget w thing (a_number a), thing)
          | _ => (lbuff, aflags, from)
          end in
        if (a_number a =? A_NAME) || (a_number a =? A_LENTER) || bCanReadAttr w source source a then
          if negb (Z.land aflags AF_NOEVAL =? 0) || NoEval w source then
            c ← string_compare space_compress lbuff s; Ok (c =? 0, st)
          else
            let '(st, buff2) := mux_exec lbuff source player aflags st in
            c ← string_compare space_compress buff2 s; Ok (c =? 0, st)
        else Ok (false, st)
  end.

(** [eval_boolexp] over the evaluation of the text of another lock. *)
Fixpoint eval_body (eval_boolexp_atr : bytes -> evaluator) (b : BOOLEXP) : evaluator :=
  fun player thing from st =>
  let w := world st in
  match b with
  | BOOLEXP_AND sub1 sub2 =>
      '(r, st) ← eval_body eval_boolexp_atr sub1 player thing from st;
      if (r : bool) then eval_body eval_boolexp_atr sub2 player thing from st else Ok (false, st)
  | BOOLEXP_OR sub1 sub2 =>
      '(r, st) ← eval_body eval_boolexp_atr sub1 player thing from st;
      if (r : bool) then Ok (true, st) else eval_body eval_boolexp_atr sub2 player thing from st
  | BOOLEXP_NOT sub1 =>
      '(r, st) ← eval_body eval_boolexp_atr sub1 player thing from st; Ok (negb r, st)
  | BOOLEXP_INDIR locknum sub1 =>
      let lev := lock_nest_lev st + 1 in
      if lock_nest_lim <=? lev then Ok (false, st)
      else
        match sub1 with
        | BOOLEXP_CONST t =>
            if t <? 0 then Ok (false, st)
            else
              let lkey := atr_get w t locknum in
              '(c, st) ← eval_boolexp_atr lkey player t from (with_lev lev st);
              Ok (c, with_lev (lock_nest_lev st - 1) st)
        | _ => Ok (false, st)
        end
  | BOOLEXP_CONST t =>
      if t =? player then Ok (true, st)
      else m ← member w t (Contents w player); Ok (m, st)
  | BOOLEXP_ATR n s =>
      match atr_num n with
      | None => Ok (false, st)
      | Some a =>
          if check_attr w player from a s then Ok (true, st)
          else m ← dolist list_fuel w (fun o => check_attr w o from a s) (Contents w player);
               Ok (m, st)
      end
  | BOOLEXP_EVAL n s => eval_attr n s player thing from st
  | BOOLEXP_IS sub1 =>
      match sub1 with
      | BOOLEXP_CONST t => Ok (t =? player, st)
      | _ =>
          '(n, s) ← attr_node sub1;
          match atr_num n with
          | None => Ok (false, st)
          | Some a => Ok (check_attr w player from a s, st)
          end
      end
  | BOOLEXP_CARRY sub1 =>
      match sub1 with
      | BOOLEXP_CONST t => m ← member w t (Contents w player); Ok (m, st)
      | _ =>
          '(n, s) ← attr_node sub1;
          match atr_num n with
          | None => Ok (false, st)
          | Some a =>
              m ← dolist list_fuel w (fun o => check_attr w o from a s) (Contents w player);
              Ok (m, st)
          end
      end
  | BOOLEXP_OWNER sub1 =>
      t ← thing_of sub1; Ok (Owner w t =? Owner w player, st)
  end.

(** [eval_boolexp_atr] over [eval_boolexp]. *)
Definition eval_text (eval_boolexp : BOOLEXP -> evaluator) (key : bytes) : evaluator :=
  fun player thing from st =>
  b ← parse_boolexp (store st) player key true;
  let st := if chr_at key 0 =? 0 then st else with_store (parsestore (store st) key) st in
  match b with
  | None => Ok (true, st)
  | Some b => eval_boolexp b player thing from st
  end.

(** The fuel counts the locks that refer to one another. *)
Fixpoint eval_boolexp (fuel : nat) : BOOLEXP -> evaluator :=
  match fuel with
  | O => eval_body (fun _ _ _ _ _ => NoFuel)
  | S fuel => eval_body (eval_text (eval_boolexp fuel))
  end.

Definition eval_boolexp_atr (fuel : nat) (key : bytes) : evaluator := eval_text (eval_boolexp fuel) key.

End Eval.

(** ** Lists of the database *)

Section Lists.
Context {HE : LockEnv} {W : Type} {HG : Game W}.

(** The objects that [DOLIST] visits from [t] on. *)
Inductive chain (w : W) : dbref -> list dbref -> Prop :=
| chain_end t : t = NOTHING \/ Next w t = t -> chain w t []
| chain_step t l : t <> NOTHING -> Next w t <> t -> chain w (Next w t) l -> chain w t (t :: l).

Lemma dolist_chain w P t l fuel :
  chain w t l -> (length l < fuel)%nat -> dolist fuel w P t = Ok (existsb P l).
Proof.
  intros Hc. revert fuel. induction Hc as [t Ht|t l H1 H2 _ IH]; intros [|fuel] Hf; cbn in Hf; try lia;
    cbn [dolist existsb].
  - by destruct Ht as [-> | ->]; [|rewrite Z.eqb_refl, orb_true_r].
  - rewrite (proj2 (Z.eqb_neq _ _) H1), (proj2 (Z.eqb_neq _ _) H2). cbn [orb].
    destruct (P t); [done|]. apply IH. lia.
Qed.

(** A list that runs in a circle is never left if nothing ends it: [member] does not return. *)
Lemma dolist_circle w P t fuel :
  (forall t, P t = false) -> t <> NOTHING -> Next w t <> t -> Next w (Next w t) = t ->
  Next w t <> NOTHING -> dolist fuel w P t = NoFuel.
Proof.
  intros HP. revert t. induction fuel as [|fuel IH]; intros t H1 H2 H3 H4; [done|]. cbn [dolist].
  rewrite (proj2 (Z.eqb_neq _ _) H1), (proj2 (Z.eqb_neq _ _) H2), HP. cbn [orb].
  apply IH; congruence.
Qed.

End Lists.

(** What the evaluator relies on: the contents of an object are a finite list, the text of a lock
    is text that leaves a byte of the parser's buffer free, an operand stands in it wherever one is
    expected (or the byte before a buffer can be read and is no white space), and softcode leaves the
    nesting level as it found it. *)
Class GameLaws {HC : Config} {HE : LockEnv} (W : Type) {HG : Game W} := {
  contents_finite w p : exists l, chain w (Contents w p) l /\ Z.of_nat (length l) <= db_top;
  locks_text w t n : text_ok (atr_get w t n) /\ (length (atr_get w t n) < cap)%nat;
  exec_lev s src p fl (st : mudstate W) : lock_nest_lev (fst (mux_exec s src p fl st)) = lock_nest_lev st;
  exec_store s src p fl (st : mudstate W) :
    store_ok (store st) -> store_ok (store (fst (mux_exec s src p fl st)));
  locks_fed w t n : atr_get w t n = [] \/ fed true (atr_get w t n)
}.

Section EvalFacts.
Context {HC : Config} {HP : Powers} {HT : CaseTable} {HL : CaseLaws} {HE : LockEnv}.
Context {W : Type} {HG : Game W} {HGL : GameLaws W}.

Lemma list_ends w p P : exists m, dolist list_fuel w P (Contents w p) = Ok m.
Proof.
  destruct (contents_finite w p) as (l & Hc & Hl). eexists. apply (dolist_chain w P _ l _ Hc).
  unfold list_fuel. lia.
Qed.

(** Reading a stored lock. *)
Lemma parse_stored (st : mudstate W) player s :
  store_ok (store st) -> text_ok s -> (length s < cap)%nat -> s = [] \/ fed true s ->
  exists ob, parse_boolexp (store st) player s true = Ok ob /\ owf ob.
Proof.
  intros Hs [Ht Hl] Hlen [-> |Hf]; [by eexists|]. unfold cap in Hlen.
  apply (parse_safe _ player s true Hs Ht Hl); [lia|done].
Qed.

(** The state after an evaluation that started in [st]. *)
Definition kept (st : mudstate W) (r : run (bool * mudstate W)) : Prop :=
  match r with
  | Ok (_, st') => lock_nest_lev st' = lock_nest_lev st /\ store_ok (store st')
  | Oob => True
  | NoFuel => False
  end.

Definition keeps (f : evaluator) (lev : Z) : Prop := forall player thing from st,
  lock_nest_lev st = lev -> store_ok (store st) -> kept st (f player thing from st).

Lemma kept_bind st st' r f :
  kept st r -> lock_nest_lev st' = lock_nest_lev st ->
  (forall c st1, lock_nest_lev st1 = lock_nest_lev st -> store_ok (store st1) -> kept st' (f c st1)) ->
  kept st' ('(c, st1) ← r; f c st1).
Proof. intros H E Hf. destruct r as [[c st1]| |]; [|done..]. destruct H. by apply Hf. Qed.

Lemma kept_list w p P st f :
  (forall m, kept st (f m)) -> kept st (m ← dolist list_fuel w P (Contents w p); f m).
Proof. intros Hf. destruct (list_ends w p P) as [m ->]. apply Hf. Qed.

Lemma kept_compare st st' c a b :
  lock_nest_lev st' = lock_nest_lev st -> store_ok (store st') ->
  kept st (x ← string_compare c a b; Ok (x =? 0, st')).
Proof.
  intros H1 H2. destruct (string_compare c a b) eqn:E; [done..|]. by destruct (string_compare_end c a b).
Qed.

Lemma eval_attr_keeps n s lev : keeps (eval_attr n s) lev.
Proof.
  intros player thing from st _ Hst. unfold eval_attr. destruct (atr_num n) as [a|]; [|done].
  destruct (alarmed _); [done|]. destruct (atr_pget _ _ _) as [lbuff aflags].
  set (X := match lbuff with [] => _ | _ => _ end). destruct X as [[lbuff' aflags'] source].
  destruct (_ || _); [|done]. destruct (_ || _); [by apply kept_compare|].
  pose proof (exec_lev lbuff' source player aflags' st) as E1.
  pose proof (exec_store lbuff' source player aflags' st Hst) as E2.
  destruct (mux_exec _ _ _ _ _) as [st' buff2]. by apply kept_compare.
Qed.

Lemma eval_body_keeps k b lev :
  wf b = true ->
  (lev + 1 < lock_nest_lim -> forall key, text_ok key -> (length key < cap)%nat ->
     key = [] \/ fed true key -> keeps (k key) (lev + 1)) ->
  keeps (eval_body k b) lev.
Proof.
  intros Hw Hk. induction b as [b1 IH1 b2 IH2|b1 IH1 b2 IH2|b IH|t|n s|fl b IH|b IH|b IH|b IH|n s];
    cbn [wf] in Hw; rewrite ?andb_true_iff in Hw;
    intros player thing from st Hlev Hst; cbn [eval_body].
  - destruct Hw as [Hw1 Hw2]. apply (kept_bind st); [by apply IH1|done|]. intros c st1 E1 E2.
    destruct c; [|done]. pose proof (IH2 Hw2 player thing from st1 ltac:(congruence) E2) as H.
    destruct (eval_body k b2 _ _ _ _) as [[c' st2]| |]; [|done..]. cbn in *. by rewrite <- E1.
  - destruct Hw as [Hw1 Hw2]. apply (kept_bind st); [by apply IH1|done|]. intros c st1 E1 E2.
    destruct c; [done|]. pose proof (IH2 Hw2 player thing from st1 ltac:(congruence) E2) as H.
    destruct (eval_body k b2 _ _ _ _) as [[c' st2]| |]; [|done..]. cbn in *. by rewrite <- E1.
  - apply (kept_bind st); [by apply IH|done|done].
  - destruct (t =? player); [done|]. by apply kept_list.
  - destruct (atr_num n) as [a|]; [|done]. destruct (check_attr _ _ _ _ _); [done|]. by apply kept_list.
  - destruct (Z.leb_spec lock_nest_lim (lock_nest_lev st + 1)) as [|Hlim]; [done|].
    destruct b as [| | |t| | | | | | ]; try done. destruct (t <? 0); [done|].
    destruct (locks_text (world st) t fl) as [Ht Hl]. rewrite Hlev in *.
    pose proof (Hk Hlim _ Ht Hl (locks_fed _ _ _) player t from (with_lev (lev + 1) st) eq_refl Hst) as H.
    destruct (k _ _ _ _ _) as [[c st1]| |]; [|done..]. destruct H as [E1 E2]. cbn in *.
    split; [lia|done].
  - destruct Hw as [Hok _]. destruct b as [| | |t|n s| | | | | ]; try discriminate Hok.
    + by apply kept_list.
    + cbn [attr_node mbind run_bind]. destruct (atr_num n) as [a|]; [|done]. by apply kept_list.
  - destruct Hw as [Hok _]. destruct b as [| | |t|n s| | | | | ]; try discriminate Hok; [done|].
    cbn [attr_node mbind run_bind]. by destruct (atr_num n) as [a|].
  - by destruct b.
  - by apply (eval_attr_keeps n s lev).
Qed.

Lemma eval_text_keeps f key lev :
  text_ok key -> (length key < cap)%nat -> key = [] \/ fed true key -> (forall b, wf b = true -> keeps (f b) lev) ->
  keeps (eval_text f key) lev.
Proof.
  intros Ht Hl Hfd Hf player thing from st Hlev Hst. unfold eval_text.
  destruct (parse_stored st player key Hst Ht Hl Hfd) as (ob & -> & Hob). cbn [mbind run_bind].
  set (st1 := if _ =? _ then _ else _).
  assert (H1 : lock_nest_lev st1 = lev /\ store_ok (store st1)).
  { unfold st1. destruct (_ =? _); [done|]. split; [done|]. by apply parsestore_ok. }
  destruct H1 as [E1 E2]. destruct ob as [b|].
  - pose proof (Hf b Hob player thing from st1 E1 E2) as H.
    destruct (f b _ _ _ _) as [[c st2]| |]; [|done..]. cbn in *. by rewrite Hlev, <- E1.
  - cbn. by rewrite Hlev, E1.
Qed.

Lemma eval_keeps fuel b lev :
  wf b = true -> lock_nest_lim - lev <= Z.of_nat fuel -> keeps (eval_boolexp fuel b) lev.
Proof.
  revert b lev. induction fuel as [|fuel IH]; intros b lev Hw Hf; cbn [eval_boolexp];
    apply eval_body_keeps; try done.
  - lia.
  - intros Hlim key Ht Hl Hfd. apply eval_text_keeps; [done..|]. intros b' Hb'. apply IH; [done|lia].
Qed.

(** C24: Evaluation of a lock ends, whatever locks the locks refer to, themselves included: the
    depth that is left under [lock_recursion_limit] is enough fuel.  Unless a comparison reads
    outside its texts it gives a result, and then [lock_nest_lev] is what it was before, on every
    path, and the parser's buffer is as the next call needs it. *)
Theorem eval_boolexp_ends fuel b player thing from (st : mudstate W) :
  wf b = true -> store_ok (store st) -> lock_nest_lim - lock_nest_lev st <= Z.of_nat fuel ->
  match eval_boolexp fuel b player thing from st with
  | Ok (_, st') => lock_nest_lev st' = lock_nest_lev st /\ store_ok (store st')
  | Oob => True
  | NoFuel => False
  end.
Proof. intros Hw Hst Hf. exact (eval_keeps fuel b _ Hw Hf player thing from st eq_refl Hst). Qed.

(** ** The association of chains does not matter *)

Lemma bind_assoc {A B C} (x : run A) (f : A -> run B) (g : B -> run C) :
  (x ≫= f) ≫= g = x ≫= (fun a => f a ≫= g).
Proof. by destruct x. Qed.

Lemma bind_ext {A B} (x : run A) (f g : A -> run B) : (forall a, f a = g a) -> x ≫= f = x ≫= g.
Proof. intros H. destruct x; [apply H|done..]. Qed.

Lemma eval_and_app k a b player thing from (st : mudstate W) :
  eval_body k (and_app a b) player thing from st = eval_body k (BOOLEXP_AND a b) player thing from st.
Proof.
  revert st. induction a as [a1 _ a2 IH2| | | | | | | | | ]; intros st; try done.
  cbn [and_app]. cbn [eval_body]. rewrite bind_assoc. apply bind_ext. intros [r st1].
  destruct r; [|done]. rewrite IH2. done.
Qed.

Lemma eval_or_app k a b player thing from (st : mudstate W) :
  eval_body k (or_app a b) player thing from st = eval_body k (BOOLEXP_OR a b) player thing from st.
Proof.
  revert st. induction a as [|a1 _ a2 IH2| | | | | | | | ]; intros st; try done.
  cbn [or_app]. cbn [eval_body]. rewrite bind_assoc. apply bind_ext. intros [r st1].
  destruct r; [done|]. rewrite IH2. done.
Qed.

Lemma eval_norm k b player thing from (st : mudstate W) :
  eval_body k (norm b) player thing from st = eval_body k b player thing from st.
Proof.
  revert st. induction b as [b1 IH1 b2 IH2|b1 IH1 b2 IH2|b IH| | | | | | | ]; intros st; try done;
    cbn [norm].
  - rewrite eval_and_app. cbn [eval_body]. rewrite IH1. apply bind_ext. intros [[] st1]; [apply IH2|done].
  - rewrite eval_or_app. cbn [eval_body]. rewrite IH1. apply bind_ext. intros [[] st1]; [done|apply IH2].
  - cbn [eval_body]. by rewrite IH.
Qed.

Lemma eval_boolexp_norm fuel b player thing from (st : mudstate W) :
  eval_boolexp fuel (norm b) player thing from st = eval_boolexp fuel b player thing from st.
Proof. destruct fuel; apply eval_norm. Qed.

(** The text of a lock means the lock. *)
Lemma eval_lock_chars fuel b player thing from (st : mudstate W) :
  store_ok (store st) -> storable b = true -> (length (lock_chars b T_CONST) < cap)%nat ->
  (nesting b T_CONST <= LOCK_PARSE_MAX_DEPTH)%nat ->
  eval_text (eval_boolexp fuel) (lock_chars b T_CONST) player thing from st
  = eval_boolexp fuel b player thing from (with_store (parsestore (store st) (lock_chars b T_CONST)) st).
Proof.
  intros Hst Hs Hl Hn. unfold eval_text.
  rewrite parse_lock_chars by done. cbn [mbind run_bind].
  assert (H0 : (chr_at (lock_chars b T_CONST) 0 =? 0) = false).
  { pose proof (lock_chars_start b T_CONST Hs) as Hne. destruct (lock_chars_ok b T_CONST Hs) as [Ht _].
    destruct (lock_chars b T_CONST) as [|c s]; [done|]. apply Z.eqb_neq. by apply Forall_inv in Ht. }
  rewrite H0. apply eval_boolexp_norm.
Qed.

(** C14: A lock that is stored as text keeps its meaning, if it can be stored: every object of it is in
    the database, every attribute exists and the names and values of attributes hold nothing that means
    something to the parser, its text fits a buffer, and it nests no deeper than the parser goes.  Evaluating the text that [unparse_boolexp_quiet] writes then gives, for every player,
    object and state, what evaluating the tree gives, with the same effects in the same order.
    [stored_lock_truncated] and [stored_lock_too_deep] show what becomes of other locks. *)
Theorem stored_lock_meaning {HN : ObjectNames} viewer b :
  storable b = true -> (length (lock_chars b T_CONST) < cap)%nat ->
  (nesting b T_CONST <= LOCK_PARSE_MAX_DEPTH)%nat ->
  exists s, unparse_boolexp viewer F_QUIET (Some b) = Some s
    /\ forall fuel player thing from (st : mudstate W), store_ok (store st) ->
       eval_boolexp_atr fuel s player thing from st
       = eval_boolexp fuel b player thing from (with_store (parsestore (store st) s) st).
Proof.
  intros Hs Hl Hn. exists (lock_chars b T_CONST). split.
  - cbn [unparse_boolexp]. rewrite unparse_text by (done || cbn; lia). done.
  - intros fuel player thing from st Hst. by apply eval_lock_chars.
Qed.

(** ** Indirect locks *)

(** One step of an indirect lock whose text is the text of a tree. *)
Lemma eval_indir fuel b t player thing from (st : mudstate W) :
  store_ok (store st) -> storable b = true -> (length (lock_chars b T_CONST) < cap)%nat ->
  (nesting b T_CONST <= LOCK_PARSE_MAX_DEPTH)%nat -> 0 <= t ->
  atr_get (world st) t A_LOCK = lock_chars b T_CONST ->
  eval_boolexp (S fuel) (BOOLEXP_INDIR A_LOCK (BOOLEXP_CONST t)) player thing from st
  = if lock_nest_lim <=? lock_nest_lev st + 1 then Ok (false, st)
    else
      '(c, st') ← eval_boolexp fuel b player t from
        {| lock_nest_lev := lock_nest_lev st + 1; store := parsestore (store st) (lock_chars b T_CONST);
           world := world st |};
      Ok (c, with_lev (lock_nest_lev st' - 1) st').
Proof.
  intros Hst Hs Hl Hn Ht Eg. cbn [eval_boolexp eval_body]. destruct (_ <=? _); [done|].
  replace (t <? 0) with false by lia. rewrite Eg, eval_lock_chars by done. done.
Qed.

Definition eval_not (r : run (bool * mudstate W)) : run (bool * mudstate W) :=
  '(c, st) ← r; Ok (negb c, st).

Lemma eval_boolexp_not fuel b player thing from st :
  eval_boolexp fuel (BOOLEXP_NOT b) player thing from st = eval_not (eval_boolexp fuel b player thing from st).
Proof. by destruct fuel. Qed.

(** The lock of [t] itself, negated or not. *)
Definition own_lock (t : dbref) (negated : bool) : BOOLEXP :=
  let own := BOOLEXP_INDIR A_LOCK (BOOLEXP_CONST t) in
  if negated then BOOLEXP_NOT own else own.

Lemma lim_step (lev : Z) : (lock_nest_lim <=? lev + 1) = (lock_nest_lim - 1 - lev <=? 0).
Proof. destruct (Z.leb_spec lock_nest_lim (lev + 1)), (Z.leb_spec (lock_nest_lim - 1 - lev) 0); lia || done. Qed.

(** The lock of an object may refer to itself.  Without negations it fails for everybody, as
    the documentation says of a lock that is too deep; negated it passes or fails, for everybody,
    as the levels that are left to [lock_recursion_limit] are odd or even in number. *)
Theorem self_reference fuel t negated player thing from (st : mudstate W) :
  store_ok (store st) -> dbref_ok t = true -> (length (lock_chars (own_lock t negated) T_CONST) < cap)%nat ->
  atr_get (world st) t A_LOCK = lock_chars (own_lock t negated) T_CONST ->
  lock_nest_lev st < lock_nest_lim -> lock_nest_lim - lock_nest_lev st <= Z.of_nat fuel ->
  exists st', eval_boolexp fuel (BOOLEXP_INDIR A_LOCK (BOOLEXP_CONST t)) player thing from st
    = Ok (negated && Z.odd (lock_nest_lim - 1 - lock_nest_lev st), st')
    /\ lock_nest_lev st' = lock_nest_lev st /\ world st' = world st.
Proof.
  intros Hst Ht Hl Eg. revert thing st Hst Eg.
  induction fuel as [|fuel IH]; intros thing st Hst Eg Hlt Hf; [lia|].
  assert (Ht0 : 0 <= t) by (by apply dbref_ok_range).
  assert (Hs : storable (own_lock t negated) = true).
  { destruct negated; cbn; rewrite Ht; by vm_compute. }
  assert (Hn : (nesting (own_lock t negated) T_CONST <= LOCK_PARSE_MAX_DEPTH)%nat).
  { unfold LOCK_PARSE_MAX_DEPTH. destruct negated; cbn; lia. }
  rewrite (eval_indir fuel (own_lock t negated)) by done.
  destruct (Z.leb_spec lock_nest_lim (lock_nest_lev st + 1)) as [Hle|Hgt].
  - replace (lock_nest_lim - 1 - lock_nest_lev st) with 0 by lia. rewrite andb_false_r.
    by exists st.
  - set (st1 := {| lock_nest_lev := _; store := _; world := _ |}).
    destruct (IH t st1) as (st2 & E2 & L2 & W2); [by apply parsestore_ok|done|cbn; lia|cbn; lia|].
    cbn [lock_nest_lev st1 world] in L2, W2.
    set (odd' := Z.odd (lock_nest_lim - 1 - lock_nest_lev st1)) in *.
    assert (Eodd : Z.odd (lock_nest_lim - 1 - lock_nest_lev st) = negb odd').
    { unfold odd'. cbn [lock_nest_lev st1].
      replace (lock_nest_lim - 1 - lock_nest_lev st) with (Z.succ (lock_nest_lim - 1 - (lock_nest_lev st + 1))) by lia.
      by rewrite Z.odd_succ, <- Z.negb_odd. }
    exists (with_lev (lock_nest_lev st2 - 1) st2). split; [|cbn; split; [lia|done]].
    rewrite Eodd. destruct negated; cbn [own_lock andb] in *.
    + rewrite eval_boolexp_not.
      rewrite E2. done.
    + rewrite E2. done.
Qed.

Lemma indirect_chain fuel ts n i player thing from (st : mudstate W) :
  store_ok (store st) -> (40 < Z.of_nat cap) ->
  (forall j, dbref_ok (ts j) = true) -> dbref_ok player = true ->
  (forall j, (i <= j < i + n)%nat -> atr_get (world st) (ts j) A_LOCK
     = lock_chars (BOOLEXP_INDIR A_LOCK (BOOLEXP_CONST (ts (S j)))) T_CONST) ->
  atr_get (world st) (ts (i + n)%nat) A_LOCK = lock_chars (BOOLEXP_CONST player) T_CONST ->
  (n < fuel)%nat ->
  exists st', eval_boolexp fuel (BOOLEXP_INDIR A_LOCK (BOOLEXP_CONST (ts i))) player thing from st
    = Ok (lock_nest_lev st + Z.of_nat n + 1 <? lock_nest_lim, st')
    /\ lock_nest_lev st' = lock_nest_lev st.
Proof.
  intros Hst Hcap Hts Hp. revert fuel i thing st Hst.
  induction n as [|n IH]; intros fuel i thing st Hst Hj Hlast Hf; (destruct fuel as [|fuel]; [lia|]).
  - rewrite Nat.add_0_r in Hlast.
    assert (Hpt : 0 <= ts i) by (by apply dbref_ok_range).
    rewrite (eval_indir fuel (BOOLEXP_CONST player)); [|done|done| | |done|done].
    2:{ cbn [lock_chars]. pose proof (dec_text player [] (dbref_ok_range _ Hp) eq_refl) as (_ & _ & _ & Hdl & _).
        unfold dbref_text. rewrite !length_app. cbn. lia. }
    2:{ cbn. unfold LOCK_PARSE_MAX_DEPTH. lia. }
    destruct (Z.leb_spec lock_nest_lim (lock_nest_lev st + 1)) as [Hle|Hgt].
    + exists st. split; [|done]. do 2 f_equal. symmetry. apply Z.ltb_ge. lia.
    + assert (Hc : forall th st1, eval_boolexp fuel (BOOLEXP_CONST player) player th from st1 = Ok (true, st1)).
      { intros th st1. destruct fuel; cbn; by rewrite Z.eqb_refl. }
      rewrite Hc. replace (lock_nest_lev st + Z.of_nat 0 + 1 <? lock_nest_lim) with true
        by (symmetry; apply Z.ltb_lt; lia).
      eexists. split; [reflexivity|]. cbn. lia.
  - set (t' := ts (S i)).
    assert (Hpt : 0 <= ts i) by (by apply dbref_ok_range).
    assert (Hs : storable (BOOLEXP_INDIR A_LOCK (BOOLEXP_CONST t')) = true).
    { cbn [storable is_const andb]. unfold t'. by rewrite Hts. }
    rewrite (eval_indir fuel (BOOLEXP_INDIR A_LOCK (BOOLEXP_CONST t'))); [|done|done| | |done|].
    2:{ cbn [lock_chars]. pose proof (dec_text t' [] (dbref_ok_range _ (Hts _)) eq_refl) as (_ & _ & _ & Hdl & _).
        change (lock_text A_LOCK) with (@nil Z). unfold dbref_text. cbn [length].
        rewrite !length_app. cbn. lia. }
    2:{ cbn. unfold LOCK_PARSE_MAX_DEPTH. lia. }
    2:{ apply Hj. lia. }
    destruct (Z.leb_spec lock_nest_lim (lock_nest_lev st + 1)) as [Hle|Hgt].
    + exists st. split; [|done]. do 2 f_equal. symmetry. apply Z.ltb_ge. lia.
    + set (st1 := {| lock_nest_lev := _; store := _; world := _ |}).
      destruct (IH fuel (S i) (ts i) st1) as (st2 & E2 & L2).
      * by apply parsestore_ok.
      * intros j Hij. apply Hj. lia.
      * by replace (S i + n)%nat with (i + S n)%nat by lia.
      * lia.
      * fold t' in E2. rewrite E2. cbn [lock_nest_lev st1 mbind run_bind].
        replace (lock_nest_lev st + 1 + Z.of_nat n + 1) with (lock_nest_lev st + Z.of_nat (S n) + 1) by lia.
        eexists. split; [reflexivity|]. cbn in *. lia.
Qed.

(** C33: How far indirect locks reach.  The lock of object [ts 0] is that of [ts 1], and so on to
    [ts n], whose lock names the player: the player passes exactly if the [n + 1] levels are fewer
    than [lock_recursion_limit].  (The documentation says that the lock fails if more levels than
    the limit are used; it fails one earlier.) *)
Theorem indirect_levels fuel ts n player thing from (st : mudstate W) :
  store_ok (store st) -> 40 < Z.of_nat cap ->
  (forall j, dbref_ok (ts j) = true) -> dbref_ok player = true ->
  (forall j, (j < n)%nat -> atr_get (world st) (ts j) A_LOCK
     = lock_chars (BOOLEXP_INDIR A_LOCK (BOOLEXP_CONST (ts (S j)))) T_CONST) ->
  atr_get (world st) (ts n) A_LOCK = lock_chars (BOOLEXP_CONST player) T_CONST ->
  (n < fuel)%nat -> lock_nest_lev st = 0 ->
  exists st', eval_boolexp fuel (BOOLEXP_INDIR A_LOCK (BOOLEXP_CONST (ts O))) player thing from st
    = Ok (Z.of_nat (n + 1) <? lock_nest_lim, st') /\ lock_nest_lev st' = 0.
Proof.
  intros Hst Hcap Hts Hp Hj Hn Hf Hlev.
  destruct (indirect_chain fuel ts n O player thing from st) as (st' & E & L); try done.
  - intros j Hij. apply Hj. lia.
  - exists st'. rewrite E, L, Hlev. split; [|done]. do 3 f_equal. lia.
Qed.

End EvalFacts.

(** ** An example world

    The state is the texts of the locks; softcode does nothing. *)

Definition locks : Type := dbref -> bytes.

Definition clean (s : bytes) : bytes := if forallb (in_rng 1 127) s && (length s <=? 250)%nat && operands true s then s else [].

#[local] Instance small_game : Game locks := {|
  Contents _ _ := NOTHING; Next _ _ := NOTHING; Owner _ o := o;
  atr_get w t n := if n =? A_LOCK then clean (w t) else [];
  atr_pget _ _ _ := ([], 0);
  See_attr _ _ _ _ := false; bCanReadAttr _ _ _ _ := false; NoEval _ _ := false;
  alarmed _ := false; wild_match _ _ := false;
  mux_exec _ _ _ _ st := (st, []);
  space_compress := true; lock_nest_lim := 20 |}.

#[local] Instance small_laws : GameLaws (HC := config256) (HE := small_env false) locks (HG := small_game).
Proof.
  assert (Hc : forall (w : locks) t n, text_ok (atr_get w t n)
    /\ (length (atr_get w t n) <= 250)%nat /\ (atr_get w t n = [] \/ fed (HE := small_env false) true (atr_get w t n))).
  { intros w t n. assert (H0 : text_ok [] /\ (length (A := Z) [] <= 250)%nat /\ (@nil Z = [] \/ fed (HE := small_env false) true [])).
    { split_and!; [apply text_ok_nil|cbn; lia|by left]. }
    cbn [atr_get small_game]. destruct (n =? A_LOCK); [|done]. unfold clean.
    destruct (_ && _ && _) eqn:E; [|done]. apply andb_prop in E as [[E1 E2]%andb_prop E3].
    split_and!; [by apply (text_ok_rng 1 127)|by apply Nat.leb_le|by right; right]. }
  split; [|intros w t n|done|done|intros w t n; apply Hc].
  - intros w p. exists []. split; [constructor; by left|]. cbn. lia.
  - destruct (Hc w t n) as (H1 & H2 & _). split; [done|]. unfold cap. cbn [LBUF_SIZE config256]. lia.
Qed.

Definition st_of (w : locks) : mudstate locks :=
  {| lock_nest_lev := 0; store := replicate 256 0; world := w |}.

Abbreviation example f :=
  (f config256 no_powers ascii_case ascii_laws (small_env false) locks small_game) (only parsing).

(** Object 5 has the lock [!@(#5)]. *)
Definition liar : locks := fun t => if t =? 5 then [33; 64; 40; 35; 53; 41] else [].

Lemma self_reference_witness :
  exists st', eval_boolexp (HC := config256) (HP := no_powers) (HT := ascii_case)
    (HE := small_env false) 20 (BOOLEXP_INDIR A_LOCK (BOOLEXP_CONST 5)) 1 2 2 (st_of liar) = Ok (true, st').
Proof.
  destruct (example (@self_reference) 20%nat 5 true 1 2 2 (st_of liar)) as (st' & E & _).
  - split; reflexivity.
  - reflexivity.
  - apply Nat.ltb_lt. vm_compute. reflexivity.
  - vm_compute. reflexivity.
  - vm_compute. reflexivity.
  - vm_compute. discriminate.
  - exists st'. exact E.
Defined.

(** Objects 10 to 28 refer to the next one, and 29 names player 1. *)
Definition long_chain : locks := fun t =>
  if in_rng 10 28 t then [64; 40; 35; 48 + (t + 1) / 10; 48 + (t + 1) mod 10; 41]
  else if t =? 29 then [40; 35; 49; 41] else [].

Lemma indirect_levels_witness :
  exists st', eval_boolexp (HC := config256) (HP := no_powers) (HT := ascii_case)
    (HE := small_env false) 20 (BOOLEXP_INDIR A_LOCK (BOOLEXP_CONST 10)) 1 2 2 (st_of long_chain)
    = Ok (false, st').
Proof.
  destruct (example (@indirect_levels) 20%nat (fun j => 10 + Z.of_nat j `min` 89) 19%nat 1 2 2
    (st_of long_chain)) as (st' & E & _).
  - split; reflexivity.
  - vm_compute. reflexivity.
  - intros j. unfold dbref_ok. cbn [bStandAlone db_top small_env orb].
    rewrite !andb_true_iff, Z.leb_le, !Z.ltb_lt. lia.
  - reflexivity.
  - intros j Hj. do 19 (destruct j as [|j]; [vm_compute; reflexivity|]). lia.
  - vm_compute. reflexivity.
  - lia.
  - reflexivity.
  - exists st'. exact E.
Defined.

Lemma eval_boolexp_ends_witness :
  match eval_boolexp (HC := config256) (HP := no_powers) (HT := ascii_case) (HE := small_env false)
    20 (own_lock 5 true) 1 2 2 (st_of liar) with
  | Ok (_, st') => lock_nest_lev st' = lock_nest_lev (st_of liar) /\ store_ok (HC := config256) (store st')
  | Oob => True
  | NoFuel => False
  end.
Proof.
  apply (@eval_boolexp_ends config256 no_powers ascii_case ascii_laws (small_env false) locks small_game
    small_laws 20%nat (own_lock 5 true) 1 2 2 (st_of liar)).
  - reflexivity.
  - split; reflexivity.
  - vm_compute. discriminate.
Defined.

Lemma stored_lock_meaning_witness :
  exists s, unparse_boolexp (HC := config256) (HE := small_env false) (HN := no_names) 2 F_QUIET
      (Some sample_lock) = Some s
    /\ eval_boolexp_atr (HC := config256) (HP := no_powers) (HT := ascii_case) (HE := small_env false)
         20 s 1 2 2 (st_of liar)
       = eval_boolexp (HC := config256) (HP := no_powers) (HT := ascii_case) (HE := small_env false)
         20 sample_lock 1 2 2 (with_store (parsestore (HC := config256) (replicate 256 0) s) (st_of liar)).
Proof.
  destruct (@stored_lock_meaning config256 no_powers ascii_case ascii_laws (small_env false) locks
    small_game no_names 2 sample_lock) as (s & E & H).
  - vm_compute. reflexivity.
  - apply Nat.ltb_lt. vm_compute. reflexivity.
  - apply Nat.leb_le. vm_compute. reflexivity.
  - exists s. split; [exact E|]. apply (H 20%nat 1 2 2 (st_of liar)). split; reflexivity.
Defined.
